(* ===== verification/_CoqProject ===== *)
-Q . S2P
Prelude.v
Reseq.v
ReseqTheory.v
ReseqProps.v
ReseqPins.v
Sha256.v
Frame.v
FrameProps.v
BondWire.v
BondWireProps.v
BondReceipt.v
BondReceiptProps.v
Float64.v
BondQueue.v
BondQueueProps.v
Telemetry.v
TelemetryProps.v
Probe.v
ProbeProps.v
Pmtu.v
PmtuProps.v
BondMeter.v
BondLane.v
BondTransport.v
BondWindow.v
BondTransportTheory.v
BondPollTheory.v
BondTransportProps.v
BondEmitTheory.v
Netip.v
Config.v
ConfigProps.v
Failover.v
FailoverTheory.v
FailoverProps.v
Resolution.v
ResolutionProps.v
Device.v
DeviceProps.v
ReloadProps.v
ExitSelector.v
ExitProps.v
ExitRouteProps.v
BindRemote.v
BindRemoteProps.v
BindDemux.v
BindDemuxProps.v
BindSock.v
BindSockProps.v
BindPaths.v
BindPathsTheory.v
BindPathsLife.v
BindPathsProps.v
BindEndpointProps.v
BindAdaptive.v
BindAdaptiveProps.v
BindReceive.v
BindReceiveProps.v
BindInbound.v
BindInboundProps.v
BindDispatchProps.v
BindJoinProps.v
Text.v
Session.v
SessionProps.v
Monitor.v
MonitorProps.v
WireAudit.v
WireAuditProps.v
DnsResolve.v
DnsResolveProps.v
