(* ===== verification/Prelude.v ===== *)
(** * wanbond: a verification library

    wanbond bonds several WAN uplinks into one WireGuard tunnel between an edge
    box and one or more concentrators.  The edge sends the datagrams of the
    (vendored) WireGuard engine over every path, with acknowledgement, repair and
    pacing per path; the receiving side puts them back in order; probes measure
    every path; a controller moves to another endpoint when a hub is lost, and a
    selector moves the default route to another exit.  All of it is Go, under
    src/internal and src/cmd.

    ** How code becomes definitions

    A struct is a [Record] with the source's field names (updated with
    [r <| f := v |>]), an enumeration an [Inductive], a method a function from the
    arguments and the old state to the new state and the results, named as in the
    source.  A loop is a structural [Fixpoint] over what it ranges over, so
    nothing here runs on fuel except the loops listed under "Bounds".  Errors
    are values of the type [outcome] ([Ok], [Err], [Panic]): an out-of-range index
    or a nil dereference is a [Panic], and the theorems say when there is none.
    Integers are [Z] with the width written out ([u64], [i64], ...) wherever an
    operation can leave it; times and durations are nanoseconds.  [float64] is the
    Standard Library's binary64 ([Float64]), each operation rounded once, as amd64
    code without fused multiply-add does.  A mutex held for a whole method makes
    the method one step; where the code drops the lock, the step is split there.
    Pointers shared between structures are keys into a store.  [let* x := v in k]
    is an assignment, kept as a constant so that long methods are compared
    statement by statement.

    What the code gets from outside is an argument: clock readings, random bytes
    and nonces, the answers of the engine, of DNS, of the link and of sockets, the
    order in which Go iterates over a map ([iter]).  The cipher XChaCha20 and the
    resolver are operations of classes with their documented laws.

    ** Components, files and sources

    - Prelude: record update, machine integers, time, outcomes, list lemmas.
      Float64: binary64 helpers.  Sha256: SHA-256, HMAC and HKDF.  Netip: the parts
      of net/netip, net and time the configuration parses with.
    - Reseq, ReseqTheory, ReseqProps, ReseqPins (internal/reseq/reseq.go): the receive
      resequencer: admission, release in order, eras after a restart, hold timeouts,
      and how many eras a run of calls can have begun.
    - Frame, FrameProps (internal/frame/frame.go): the authenticated outer frame.
    - BondWire, BondReceipt, BondQueue, BondMeter, BondLane, BondTransport
      (internal/bond): wire format, receipt windows, fair queues with CoDel,
      delivery meters and loss ledger, the lane and its rate controller, and the
      transport that schedules, repairs, acknowledges and delivers.  The files
      BondWindow, BondTransportTheory, BondPollTheory and BondEmitTheory hold the
      invariants and what a poll emits; the files ending in Props the properties.
    - Telemetry, Probe, Pmtu with their Props (internal/telemetry): liveness,
      quality estimator, loss window, replay guard, probe exchange with restart
      detection, path-MTU search and the padded-probe awaiter.
    - Config, ConfigProps (internal/config, internal/netutil): normalisation and
      validation of a decoded configuration.
    - Failover, FailoverTheory, FailoverProps (internal/device/failover.go): the
      controller that moves to another endpoint of a hub.
    - Resolution, ResolutionProps (internal/device/resolution.go and the boot
      resolve of device.go): names into endpoint lists.
    - Device, DeviceProps, ReloadProps (internal/device/device.go, tunresize.go,
      internal/bind/mtu.go): link size, default-route splitting, the boot
      configuration, reload and the link resizer.
    - ExitSelector, ExitProps, ExitRouteProps (internal/device/exitselector.go):
      which exit owns the default route, with the shared failover controllers and
      the engine's routing table.
    - BindRemote (internal/bind/multipath.go, probe.go): a view's return address
      and probe slots.  BindDemux: which peer a datagram of a shared socket
      belongs to, its readers interleaving at each atomic operation.  BindSock (pathsock.go): which interface a socket is bound to.
      BindPaths (multipath.go, reconcile.go and the bring-up of device.go): the
      configured paths, sockets, deferred paths and views of the bond, and the
      endpoints of its peers.  BindPathsTheory and BindPathsLife hold their
      invariants; BindRemoteProps, BindDemuxProps, BindSockProps, BindPathsProps
      and BindEndpointProps the properties.
    - BindAdaptive, BindAdaptiveProps (adaptive.go): a peer's transport, its
      routes, its interactive queue and its resequencer.  BindReceive,
      BindReceiveProps (newReceiveFunc of multipath.go): the function the engine
      receives with, against the interface [Source] of a peer.  BindInbound
      (dispatchInbound and the functions around it, probe.go): what a reader does
      with a frame, as tasks that interleave, the probe cadence and sending.
      BindInboundProps holds the histories and what a restart needs,
      BindDispatchProps that dispatching ends and never fails, BindJoinProps the
      two ends of a path composed.
    - Text: splitting, trimming and decimals on byte strings.  Session, SessionProps
      (internal/device/session.go): reading the engine's text dump, the verdicts on
      sessions, and the monitor that tears dead peers down, against the interface
      [PeerTearer] that the bind implements.
    - Monitor, MonitorProps (internal/monitor and its wiring in device.go): the
      snapshot of the metrics, the checks of a request, the control request down to
      the exit selector, and the endpoint as reloads start, rebind and stop it.
    - WireAudit, WireAuditProps (internal/wireaudit): the reader of packet captures and
      the audit of the frames in them.
    - DnsResolve, DnsResolveProps (internal/dnsresolve): lookups over HTTPS and TLS,
      against the interface [Network].

    ** What the theorems show

    - Reliable delivery: items leave the resequencer in strictly ascending order,
      each at most once, within the hold bound, also across a peer's restart (of
      sequences below 2^63, and a re-baselining at 0 panics as the code says);
      receipts are exact, a datagram sent is the datagram handed up, once per
      session; windows account for every byte in flight; memory is bounded.
    - Authenticity: only frames with the right tag under the derived key decode,
      decoding never panics, encoding round-trips; only fresh authentic echoes
      count, and a takeover of a session happens at most once per challenge.
    - Measurement: a path is up exactly when the echoes say so, failure is seen
      within its budget, the loss window is exact (an echo numbered 2^64-1 excepted,
      at which its loops do not end), the path-MTU search returns the largest size
      that passes, or its floor.
    - Endpoint and exit control: failover moves exactly when every path is down, as a
      round robin with a settle time, the bond always follows the active endpoint,
      exhaustion promotes the first healthy exit, and every half of the default route
      belongs to the active exit, unless a peer lists that half itself and no switch
      has been accepted.
    - Configuration and reload: what loads is well-formed and stable, what boots
      renders, a reload binds exactly the configured paths.
    - The bond: from an accepted configuration and over every history of openings,
      closings, admissions, removals, promotions and repointings, each configured
      path is bound or deferred, every peer has one view of each socket, path ids
      are never reused, a reload reaches the new membership or fails for a listed
      reason, and each peer is sent to its own hub (when boot seeds distinct hubs).  A
      datagram reaches only the peer whose key verifies it, whatever the interleaving
      of the readers; no peer displaces another's sources unless two readers race
      with datagrams of one source.  A
      socket bound to an interface sends only from the configured address.
    - From the sockets to the engine: the glue of transport, codec, routes and
      resequencer never panics, every polled frame goes out, encoded, on the route of
      its lane,
      the stream handed out is ordered and is what the transport delivered; the
      drainer starves no peer, returns what it took, and while parked misses no
      deadline.
    - From the sockets inwards: under any interleaving of readers no datagram makes
      a step fail and every dispatch ends (an authentic probe numbered 2^64-1 excepted); a peer is taken to have restarted only
      for a probe that answers a challenge, once per challenge; an edge that starts
      and its hub can send to each other after two probes.
    - Sessions and the monitor: the verdicts read from the engine agree with each
      other, a sweep frees exactly the dead peers of a concentrator; the exit is moved
      only by authorized requests and by every one of them, pages of foreign domains
      are refused, addresses are hidden from listeners that are not local, and the
      endpoint runs the settings last applied with no listener leaked.
    - The wire audit: a capture is read exactly, also of packets it cut short, and the verdicts on the offsets are
      those of a reference over the columns of bytes.
    - Name lookups: exactly the records of both families with the shortest lifetime,
      and the error of a family that failed.

    ** Bounds

    The path-MTU search and the rotations of meters loop on data, not on structure, and
    so does the reader of captures.  They carry a [nat] that bounds the iterations (the
    width of the search window, the number of buckets, the number of bytes) and
    theorems show the bound is never reached.  The two loops of the loss window
    ([Telemetry], estimator.go) may not end: they carry such a bound too, and end in
    [None] when it is reached, which theorems show to be exactly when the Go loop never
    ends; [echoReturns], [estimateReturns] and [stepReturns] say whether a call that
    runs them returns.
    Durations are unbounded [Z] except where the code's comparison wraps or
    saturates ([time_sub] saturates as Go's Sub does).

    ** Not modelled

    The vendored WireGuard engine; sockets, netlink, iptables and the bring-up and
    shutdown sequences that only make system calls; the HTTP server of the
    metrics, and of the monitor the serving of files and the loop that writes
    snapshots; logging; command-line parsing; TOML decoding.  Logging calls inside
    modelled functions are dropped.  The methods that copy counters of the transport
    and of the bind for display are left out. *)

From stdpp Require Import base tactics list gmap numbers.
#[global] Open Scope Z_scope.

(** ** Record update

    [r <| f := v |>] is [r] with field [f] replaced.  A record opts in with an
    [Eta] instance that rebuilds it field by field; the setter of a projection
    is derived from it. *)
Class Eta (R : Type) := eta : R -> R.
Class Setter {R F : Type} (proj : R -> F) := update : (F -> F) -> R -> R.
Arguments update {R F} proj {_} _ _ /.

Ltac derive_setter R F proj :=
  let e := constr:(eta (R := R)) in
  let e := eval hnf in e in
  let body := constr:(fun (fn'field : F -> F) (rec'record : R) =>
    ltac:(let w := eval cbv beta in (e rec'record) in
          match eval pattern (proj rec'record) in w with
          | ?k _ => let t := eval cbv beta in (k (fn'field (proj rec'record))) in exact t
          end)) in
  exact body.
#[export] Hint Extern 1 (@Setter ?R ?F ?proj) =>
  derive_setter R F proj : typeclass_instances.

Declare Scope wanbond_scope.
Delimit Scope wanbond_scope with wanbond.
Notation "r <| f := v |>" := (update f (fun _ => v) r)
  (at level 12, left associativity, f constr at level 10, v constr at level 200)
  : wanbond_scope.
#[global] Open Scope wanbond_scope.

(** ** Statements

    [let* x := v in k] is [let x := v in k], the assignment of a Go statement to
    a variable the next statements read.  It is a constant, so that terms are
    compared statement by statement and a proof can follow a long function
    without expanding it. *)
Definition seq_let {A B : Type} (v : A) (k : A -> B) : B := k v.
#[global] Strategy 1000 [seq_let].
Notation "'let*' x := v 'in' k" := (seq_let v (fun x => k))
  (at level 10, x name, v at level 200, k at level 200,
   format "'let*'  x  :=  v  'in' '//' k") : wanbond_scope.

(** ** Go's machine integers and time

    A [uintN] is a [Z] in [0, 2^N) and every operation that can leave the range
    is wrapped.  A [time.Duration] is a signed count of nanoseconds, a
    [time.Time] a count of nanoseconds from Go's zero instant, which [IsZero]
    recognises. *)
Definition u64 (x : Z) : Z := x mod 2 ^ 64.
Definition u16 (x : Z) : Z := x mod 2 ^ 16.
Definition u8 (x : Z) : Z := x mod 2 ^ 8.
Definition i64 (x : Z) : Z := (x + 2 ^ 63) mod 2 ^ 64 - 2 ^ 63.
Definition i32 (x : Z) : Z := (x + 2 ^ 31) mod 2 ^ 32 - 2 ^ 31.
Definition maxI64 : Z := 2 ^ 63 - 1.
Definition minI64 : Z := - 2 ^ 63.

Definition is_u64 (x : Z) : Prop := 0 <= x < 2 ^ 64.
Definition is_u16 (x : Z) : Prop := 0 <= x < 2 ^ 16.
Definition is_byte (x : Z) : Prop := 0 <= x < 256.
Definition bytes_ok (l : list Z) : Prop := Forall is_byte l.

Abbreviation Time := Z (only parsing).
Abbreviation Duration := Z (only parsing).

(** [Time.Sub] saturates at the range of a Duration. *)
Definition time_sub (a b : Time) : Duration := Z.max minI64 (Z.min maxI64 (a - b)).
Definition is_zero_time (t : Time) : bool := t =? 0.
Definition millisecond : Duration := 1000000.
Definition second : Duration := 1000000000.

(** The machine-range facts are closed by unfolding the bound and [lia]. *)
Ltac range := unfold is_u64, is_u16, is_byte, maxI64, minI64 in *; lia.

(** [Forall P] of an explicit list whose elements are dealt with by [done]. *)
Ltac forall_done := repeat (apply Forall_cons_2; [done|]); apply Forall_nil_2.

Lemma u64_small x : 0 <= x < 2 ^ 64 -> u64 x = x.
Proof. apply Z.mod_small. Qed.

Lemma u64_range x : is_u64 (u64 x).
Proof. apply Z.mod_pos_bound. lia. Qed.

Lemma u64_idem x : u64 (u64 x) = u64 x.
Proof. apply Z.mod_mod. lia. Qed.

Lemma u64_add_l x y : u64 (u64 x + y) = u64 (x + y).
Proof. apply Zplus_mod_idemp_l. Qed.

Lemma u64_add_r x y : u64 (x + u64 y) = u64 (x + y).
Proof. apply Zplus_mod_idemp_r. Qed.

Lemma u64_sub_l x y : u64 (u64 x - y) = u64 (x - y).
Proof. apply Zminus_mod_idemp_l. Qed.

Lemma u64_sub_r x y : u64 (x - u64 y) = u64 (x - y).
Proof. apply Zminus_mod_idemp_r. Qed.

Lemma time_sub_small a b : - 2 ^ 62 <= a - b <= 2 ^ 62 -> time_sub a b = a - b.
Proof. unfold time_sub, minI64, maxI64. lia. Qed.

(** Equations between wrapped sums: the quotients are made explicit. *)
Ltac wrap_eq :=
  unfold u64; change (2 ^ 64) with 18446744073709551616 in *;
  Z.to_euclidean_division_equations; lia.

Create Rewrite HintDb wrap.
#[export] Hint Rewrite u64_idem u64_add_l u64_add_r u64_sub_l u64_sub_r : wrap.

(** ** Fallible code

    A Go function that returns an error or panics returns an [outcome]; the
    bind is stdpp's [x ← m; k]. *)
Inductive outcome (E A : Type) : Type :=
  | Ok (a : A)
  | Err (e : E)
  | Panic.
Arguments Ok {E A} a.
Arguments Err {E A} e.
Arguments Panic {E A}.

#[export] Instance outcome_ret E : MRet (outcome E) := fun A a => Ok a.
#[export] Instance outcome_bind E : MBind (outcome E) := fun A B k m =>
  match m with Ok a => k a | Err e => Err e | Panic => Panic end.

Definition is_ok {E A} (m : outcome E A) : bool := match m with Ok _ => true | _ => false end.
Definition panics {E A} (m : outcome E A) : bool := match m with Panic => true | _ => false end.

(** ** Counting the cells of an array that satisfy a test *)
Fixpoint count {A} (f : A -> bool) (l : list A) : Z :=
  match l with
  | [] => 0
  | x :: l => (if f x then 1 else 0) + count f l
  end.

Section Count.
Context {A : Type} (f : A -> bool).
Implicit Types l : list A.

Lemma count_bounds l : 0 <= count f l <= Z.of_nat (length l).
Proof. induction l as [|x l IH]; cbn; [lia|]. destruct (f x); lia. Qed.

Lemma count_insert l i x y :
  l !! i = Some y ->
  count f (<[i := x]> l) = count f l - (if f y then 1 else 0) + (if f x then 1 else 0).
Proof.
  revert i. induction l as [|z l IH]; intros [|i]; try discriminate.
  - intros [= ->]. cbn. lia.
  - intros H. cbn in H. change (<[S i:=x]> (z :: l)) with (z :: <[i:=x]> l).
    cbn [count]. rewrite (IH _ H). lia.
Qed.

Lemma count_pos l i x : l !! i = Some x -> f x = true -> 0 < count f l.
Proof.
  revert i. induction l as [|z l IH]; intros [|i]; cbn; try discriminate.
  - intros [= ->] ->. pose proof (count_bounds l). lia.
  - intros H Hf. specialize (IH _ H Hf). destruct (f z); lia.
Qed.

Lemma count_zero l : count f l = 0 -> forall i x, l !! i = Some x -> f x = false.
Proof.
  intros H i x Hx. destruct (f x) eqn:E; [|done].
  pose proof (count_pos _ _ _ Hx E). lia.
Qed.

Lemma count_none l : (forall i x, l !! i = Some x -> f x = false) -> count f l = 0.
Proof.
  induction l as [|z l IH]; intros H; cbn; [done|].
  rewrite (H 0%nat z eq_refl), IH; [done|]. intros i x Hx. apply (H (S i) x Hx).
Qed.

Lemma count_replicate n x : f x = false -> count f (replicate n x) = 0.
Proof. intros H. induction n; cbn; [done|]. rewrite H, IHn. done. Qed.
End Count.

(** ** Big-endian integers

    [be_put n v] is the [n]-byte big-endian form [binary.BigEndian.PutUintN]
    writes, [be_get] what [binary.BigEndian.UintN] reads back. *)
Fixpoint be_put (n : nat) (v : Z) : list Z :=
  match n with
  | O => []
  | S n' => (v / 256 ^ Z.of_nat n') mod 256 :: be_put n' v
  end.

Definition be_get (l : list Z) : Z := fold_left (fun acc b => acc * 256 + b) l 0.

Lemma length_be_put n v : length (be_put n v) = n.
Proof. induction n; cbn; congruence. Qed.

Lemma be_put_bytes n v : bytes_ok (be_put n v).
Proof.
  induction n as [|n IH]; cbn [be_put]; constructor; [|done].
  unfold is_byte. apply Z.mod_pos_bound. lia.
Qed.

Lemma be_fold_acc l acc :
  fold_left (fun a b => a * 256 + b) l acc = acc * 256 ^ Z.of_nat (length l) + be_get l.
Proof.
  unfold be_get. revert acc. induction l as [|b l IH]; intros acc; cbn [fold_left length].
  - cbn. lia.
  - rewrite IH, (IH (0 * 256 + b)). rewrite Nat2Z.inj_succ, Z.pow_succ_r by lia. lia.
Qed.

Lemma be_get_cons b l : be_get (b :: l) = b * 256 ^ Z.of_nat (length l) + be_get l.
Proof. unfold be_get at 1. cbn [fold_left]. rewrite be_fold_acc. lia. Qed.

Lemma be_get_app l1 l2 : be_get (l1 ++ l2) = be_get l1 * 256 ^ Z.of_nat (length l2) + be_get l2.
Proof. unfold be_get at 1. rewrite fold_left_app. apply be_fold_acc. Qed.

Lemma be_get_put n v : be_get (be_put n v) = v mod 256 ^ Z.of_nat n.
Proof.
  induction n as [|n IH]; cbn [be_put].
  - change (256 ^ Z.of_nat 0) with 1. rewrite Z.mod_1_r. done.
  - rewrite be_get_cons, length_be_put, IH, Nat2Z.inj_succ, Z.pow_succ_r by lia.
    pose proof (Z.pow_pos_nonneg 256 (Z.of_nat n) ltac:(lia) ltac:(lia)).
    rewrite (Z.mul_comm 256), Z.rem_mul_r by lia. lia.
Qed.

Lemma be_get_range l : bytes_ok l -> 0 <= be_get l < 256 ^ Z.of_nat (length l).
Proof.
  induction 1 as [|b l Hb Hl IH]; [cbn; lia|].
  rewrite be_get_cons. cbn [length]. rewrite Nat2Z.inj_succ, Z.pow_succ_r by lia.
  unfold is_byte in Hb. nia.
Qed.

Lemma be_put_add n c w : be_put n (c * 256 ^ Z.of_nat n + w) = be_put n w.
Proof.
  revert c. induction n as [|n IH]; intros c; [done|]. cbn [be_put].
  pose proof (Z.pow_pos_nonneg 256 (Z.of_nat n) ltac:(lia) ltac:(lia)).
  rewrite Nat2Z.inj_succ, Z.pow_succ_r by lia.
  replace (c * (256 * 256 ^ Z.of_nat n)) with (c * 256 * 256 ^ Z.of_nat n) by lia.
  rewrite IH. f_equal.
  rewrite Z.add_comm, Z.div_add by lia. apply Z_mod_plus_full.
Qed.

Lemma be_put_get l : bytes_ok l -> be_put (length l) (be_get l) = l.
Proof.
  induction 1 as [|b l Hb Hl IH]; [done|]. cbn [length be_put].
  pose proof (be_get_range l Hl) as Hr.
  rewrite be_get_cons, be_put_add, IH. f_equal.
  rewrite Z.add_comm, Z.div_add, Z.div_small by lia. by apply Z.mod_small.
Qed.

Lemma take_be_put n v l : 0 <= v < 256 ^ Z.of_nat n -> be_get (take n (be_put n v ++ l)) = v.
Proof.
  intros Hv. rewrite take_app_le by (rewrite length_be_put; lia).
  rewrite take_ge by (rewrite length_be_put; lia). by rewrite be_get_put, Z.mod_small.
Qed.

Lemma drop_be_put n v l : drop n (be_put n v ++ l) = l.
Proof. rewrite drop_app_ge by (rewrite length_be_put; lia). by rewrite length_be_put, Nat.sub_diag. Qed.

Lemma drop_be_put_add n k v l : drop (n + k) (be_put n v ++ l) = drop k l.
Proof. by rewrite <- drop_drop, drop_be_put. Qed.

(** A byte string is checked by evaluation. *)
Lemma bytes_check l : forallb (fun b => (0 <=? b) && (b <? 256)) l = true -> bytes_ok l.
Proof.
  rewrite forallb_forall. intros H. apply List.Forall_forall. intros b Hb.
  specialize (H b Hb). unfold is_byte. lia.
Qed.

(** ** Ascending runs

    [ascending lo l hi]: the elements of [l] are strictly increasing and lie in
    [lo, hi). *)
Fixpoint ascending (lo : Z) (l : list Z) (hi : Z) : Prop :=
  match l with
  | [] => lo <= hi
  | x :: l => lo <= x < hi /\ ascending (x + 1) l hi
  end.

Lemma ascending_le lo l hi : ascending lo l hi -> lo <= hi.
Proof. destruct l; cbn; lia. Qed.

Lemma ascending_weaken_l lo lo' l hi : ascending lo l hi -> lo' <= lo -> ascending lo' l hi.
Proof. destruct l; cbn; intuition lia. Qed.

Lemma ascending_weaken_r lo l hi hi' : ascending lo l hi -> hi <= hi' -> ascending lo l hi'.
Proof. revert lo. induction l as [|x l IH]; cbn; intros lo H Hle; intuition (try lia). eauto. Qed.

Lemma ascending_app a l1 b l2 c :
  ascending a l1 b -> ascending b l2 c -> ascending a (l1 ++ l2) c.
Proof.
  revert a. induction l1 as [|x l1 IH]; cbn; intros a H1 H2.
  - by eapply ascending_weaken_l.
  - pose proof (ascending_le _ _ _ H2). destruct H1 as [? H1].
    pose proof (ascending_le _ _ _ H1). split; [lia|eauto].
Qed.

Lemma ascending_elem lo l hi x : ascending lo l hi -> x ∈ l -> lo <= x < hi.
Proof.
  revert lo. induction l as [|y l IH]; cbn; intros lo H Hx; [by apply elem_of_nil in Hx|].
  apply elem_of_cons in Hx as [->|Hx]; [lia|]. destruct H as [? H].
  specialize (IH _ H Hx). lia.
Qed.

(** ** Socket addresses

    The parts of a [netip.AddrPort] the code carries: the address bytes (none
    for the zero value, 4 or 16 otherwise), the IPv6 zone and the port. *)
Record AddrPort := mkAddrPort { ap_addr : list Z; ap_zone : list Z; ap_port : Z }.
Definition AddrPort0 : AddrPort := mkAddrPort [] [] 0.
#[export] Instance AddrPort_eq_dec : EqDecision AddrPort.
Proof. solve_decision. Defined.
