(* ===== verification/Reseq.v ===== *)
(** * The receive resequencer ([internal/reseq/reseq.go])

    The bounded-window, timeout-driven buffer that restores the order of the
    transport's datagrams before the WireGuard engine sees them.  The state is
    the [Resequencer] struct field for field; the mutex disappears because every
    method holds it from start to end, and the injected clock becomes the
    argument [now] of the methods that read it.  A method that can panic returns
    an [option], [None] being the panic.

    Three fields at the end of the record are ghost: [signals] counts the calls
    of the notifier, [era] counts the re-pins of the release point, and [log]
    lists every item ever released together with the sequence and the era it was
    released under.  No operation reads them. *)

From stdpp Require Import base tactics list numbers.
From S2P Require Import Prelude.

Module reseq.

Definition resyncFactor : Z := 4.
Definition resyncCorroborate : nat := 3%nat.
Definition holdBoundFloor : Duration := 10 * millisecond.

Record Item := mkItem { Payload : list Z; Src : AddrPort }.
Definition Item0 : Item := mkItem [] AddrPort0.

Record slot := mkSlot {
  seq : Z;
  src : AddrPort;
  payload : list Z;
  observedAt : Time;
  occupied : bool
}.
Definition slot0 : slot := mkSlot 0 AddrPort0 [] 0 false.

(** One released item with its outer sequence and era (ghost). *)
Record Released := mkReleased { rel_era : Z; rel_seq : Z; rel_item : Item }.

Record Resequencer := mkResequencer {
  window : Z;
  timeout : Duration;
  started : bool;
  next : Z;
  ring : list slot;
  buf : Z;
  ready : list Item;
  readyPos : nat;
  held : list Z;
  heldPos : nat;
  waiting : bool;
  deadline : Time;
  armedAt : Time;
  armedWindow : Duration;
  resyncSeqs : list Z;
  resyncLo : Z;
  resyncHi : Z;
  highWater : Z;
  dropDup : Z;
  dropLate : Z;
  dropSuspect : Z;
  skipped : Z;
  releasedN : Z;
  resyncs : Z;
  rebaselines : Z;
  holds : Z;
  holdNanos : Z;
  deadlineWakeups : Z;
  gapFills : Z;
  holdSlotVisits : Z;
  holdBound : Duration;
  notify : bool;
  closed : bool;
  signals : Z;
  era : Z;
  log : list Released
}.

#[export] Instance eta_slot : Eta slot := fun c =>
  mkSlot (seq c) (src c) (payload c) (observedAt c) (occupied c).
#[export] Instance eta_Resequencer : Eta Resequencer := fun r =>
  mkResequencer (window r) (timeout r) (started r) (next r) (ring r) (buf r)
    (ready r) (readyPos r) (held r) (heldPos r) (waiting r) (deadline r)
    (armedAt r) (armedWindow r) (resyncSeqs r) (resyncLo r) (resyncHi r)
    (highWater r) (dropDup r) (dropLate r) (dropSuspect r) (skipped r)
    (releasedN r) (resyncs r) (rebaselines r) (holds r) (holdNanos r)
    (deadlineWakeups r) (gapFills r) (holdSlotVisits r) (holdBound r)
    (notify r) (closed r) (signals r) (era r) (log r).

(** [New]: panics on a zero window (and on a nil clock, which has no value
    here). *)
Definition New (w : Z) (t : Duration) : option Resequencer :=
  if w =? 0 then None
  else Some (mkResequencer w t false 0 (replicate (Z.to_nat w) slot0) 0
    [] 0 [] 0 false 0 0 0 [] 0 0 0 0 0 0 0 0 0 0 0 0 0 0 0 0 false false 0 0 []).

Definition SetHoldBound (d : Duration) (r : Resequencer) : Resequencer :=
  let d := if d <? holdBoundFloor then holdBoundFloor else d in
  let d := if timeout r <? d then timeout r else d in
  r <| holdBound := d |>.

(** The callback itself belongs to the Bind; the model records whether one is
    installed and counts its calls. *)
Definition SetNotifier (installed : bool) (r : Resequencer) : Resequencer :=
  r <| notify := installed |>.

Definition ArmedDeadline (r : Resequencer) : option Time :=
  if negb (waiting r) then None else Some (deadline r).

Definition notifyLocked (r : Resequencer) : Resequencer :=
  if notify r then r <| signals := signals r + 1 |> else r.

Definition effectiveHoldLocked (r : Resequencer) : Duration :=
  if holdBound r =? 0 then timeout r else holdBound r.

(** The ring cell of a sequence, [&r.ring[s%r.window]]. *)
Definition idx (r : Resequencer) (s : Z) : nat := Z.to_nat (s mod window r).
Definition cell (r : Resequencer) (s : Z) : slot := default slot0 (ring r !! idx r s).
Definition live (r : Resequencer) (s : Z) : bool :=
  occupied (cell r s) && (seq (cell r s) =? s).

Definition endHoldLocked (now : Time) (r : Resequencer) : Resequencer :=
  if negb (waiting r) then r
  else
    let d := time_sub now (armedAt r) in
    let r := if 0 <? d then r <| holdNanos := u64 (holdNanos r + d) |> else r in
    notifyLocked (r <| waiting := false |> <| armedWindow := 0 |>).

Definition Close (now : Time) (r : Resequencer) : Resequencer :=
  if negb (closed r)
  then notifyLocked (endHoldLocked now (r <| closed := true |>))
  else r.

(** [release] empties the cell of [s] into the ready FIFO. *)
Definition release (s : Z) (r : Resequencer) : Resequencer :=
  let c := cell r s in
  r <| ready := ready r ++ [mkItem (payload c) (src c)] |>
    <| ring := <[idx r s := c <| occupied := false |> <| payload := [] |>
                              <| observedAt := 0 |>]> (ring r) |>
    <| buf := buf r - 1 |>
    <| releasedN := u64 (releasedN r + 1) |>
    <| log := log r ++ [mkReleased (era r) (seq c) (mkItem (payload c) (src c))] |>.

(** [drain]'s loop runs at most once per occupied cell, so one iteration more
    than the ring has cells reaches its exit. *)
Fixpoint drain_loop (fuel : nat) (r : Resequencer) : Resequencer :=
  match fuel with
  | O => r
  | S fuel =>
    if negb (occupied (cell r (next r))) || negb (seq (cell r (next r)) =? next r) then r
    else
      let r := release (next r) r in
      drain_loop fuel (r <| next := u64 (next r + 1) |>)
  end.
Definition drain (r : Resequencer) : Resequencer := drain_loop (S (length (ring r))) r.

Fixpoint advance_loop (fuel : nat) (limit : Z) (r : Resequencer) : Resequencer :=
  match fuel with
  | O => r
  | S fuel =>
    if next r <? limit then
      let r := if occupied (cell r (next r)) && (seq (cell r (next r)) =? next r)
               then release (next r) r
               else r <| skipped := u64 (skipped r + 1) |> in
      advance_loop fuel limit (r <| next := u64 (next r + 1) |>)
    else r
  end.
Definition advanceTo (target : Z) (r : Resequencer) : Resequencer :=
  let limit := if u64 (next r + window r) <? target
               then u64 (next r + window r) else target in
  let r := advance_loop (length (ring r)) limit r in
  if next r <? target
  then r <| skipped := u64 (skipped r + u64 (target - next r)) |> <| next := target |>
  else r.

Definition smallest_step (nx : Z) (acc : Z * bool) (c : slot) : Z * bool :=
  let '(best, found) := acc in
  if occupied c && (nx <=? seq c) && (negb found || (seq c <? best))
  then (seq c, true) else (best, found).
Definition smallestBuffered (r : Resequencer) : Z * bool :=
  fold_left (smallest_step (next r)) (ring r) (0, false).

(** The scan walks [held] from [heldPos]; [rest] is what is left of it. *)
Fixpoint oldest_scan (rest : list Z) (r : Resequencer) : Resequencer * option Time :=
  match rest with
  | [] => (r <| held := [] |> <| heldPos := 0%nat |>, None)
  | s :: rest =>
    let r := r <| holdSlotVisits := u64 (holdSlotVisits r + 1) |> in
    let c := cell r s in
    if occupied c && (seq c =? s) && (next r <=? s) then
      let r := if (length (held r) `div` 2 <? heldPos r)%nat
               then r <| held := drop (heldPos r) (held r) |> <| heldPos := 0%nat |>
               else r in
      (r, Some (observedAt c))
    else oldest_scan rest (r <| heldPos := S (heldPos r) |>)
  end.
Definition oldestBufferedObservation (r : Resequencer) : Resequencer * option Time :=
  oldest_scan (drop (heldPos r) (held r)) r.

(** [arm] panics when frames are counted as buffered but none is found. *)
Definition arm (now : Time) (r : Resequencer) : option Resequencer :=
  let headPresent := occupied (cell r (next r)) && (seq (cell r (next r)) =? next r) in
  if negb headPresent && (0 <? buf r) then
    if negb (waiting r) then
      let r := r <| waiting := true |> in
      let hold := effectiveHoldLocked r in
      let '(r, observed) := oldestBufferedObservation r in
      match observed with
      | None => None
      | Some observedAt =>
        Some (notifyLocked (r <| deadline := observedAt + hold |>
                              <| armedAt := now |>
                              <| armedWindow := hold |>
                              <| holds := u64 (holds r + 1) |>))
      end
    else Some r
  else Some (endHoldLocked now r).

(** [expire]: every iteration that goes round again has released at least one
    cell, so the ring's size bounds the iterations; running out is [None]. *)
Fixpoint expire_loop (fuel : nat) (now : Time) (r : Resequencer) : option Resequencer :=
  if waiting r then
    if now <? deadline r then Some r
    else
      match fuel with
      | O => None
      | S fuel =>
        let r := r <| deadlineWakeups := u64 (deadlineWakeups r + 1) |> in
        let '(minSeq, ok) := smallestBuffered r in
        if negb ok then Some (endHoldLocked now r)
        else
          let r := if next r <? minSeq
                   then r <| skipped := u64 (skipped r + u64 (minSeq - next r)) |>
                          <| next := minSeq |>
                   else r in
          let r := drain r in
          let r := endHoldLocked now r in
          match arm now r with
          | None => None
          | Some r => expire_loop fuel now r
          end
      end
  else Some r.
Definition expire (now : Time) (r : Resequencer) : option Resequencer :=
  expire_loop (S (length (ring r))) now r.

Definition resyncReset (r : Resequencer) : Resequencer :=
  r <| resyncSeqs := [] |> <| resyncLo := 0 |> <| resyncHi := 0 |>.

Definition resync (base : Z) (now : Time) (r : Resequencer) : Resequencer :=
  let r := r <| ring := replicate (length (ring r)) slot0 |>
             <| buf := 0 |> <| held := [] |> <| heldPos := 0%nat |>
             <| next := base |> <| era := era r + 1 |> in
  let r := resyncReset (endHoldLocked now r) in
  r <| resyncs := u64 (resyncs r + 1) |>.

Definition runContains (s : Z) (r : Resequencer) : bool :=
  existsb (Z.eqb s) (resyncSeqs r).

Definition spanExceeds (s : Z) (r : Resequencer) : bool :=
  let lo := if s <? resyncLo r then s else resyncLo r in
  let hi := if resyncHi r <? s then s else resyncHi r in
  window r <=? u64 (hi - lo).

Definition tryResync (s : Z) (now : Time) (r : Resequencer) : Resequencer * bool :=
  if (length (resyncSeqs r) =? 0)%nat || spanExceeds s r then
    (r <| resyncLo := s |> <| resyncHi := s |> <| resyncSeqs := [s] |>, false)
  else if runContains s r then (r, false)
  else
    let r := if s <? resyncLo r then r <| resyncLo := s |> else r in
    let r := if resyncHi r <? s then r <| resyncHi := s |> else r in
    let r := r <| resyncSeqs := resyncSeqs r ++ [s] |> in
    if (length (resyncSeqs r) <? resyncCorroborate)%nat then (r, false)
    else (resync s now r, true).

(** [admit] of the source. *)
Definition admitSeq (s : Z) (now : Time) (r : Resequencer) : Resequencer * bool :=
  if s <? next r then
    if window r <? u64 (next r - s) then
      let '(r, ok) := tryResync s now r in
      if ok then (r, true)
      else (r <| dropSuspect := u64 (dropSuspect r + 1) |>, false)
    else
      let r := resyncReset r in
      (r <| dropLate := u64 (dropLate r + 1) |>, false)
  else if u64 (resyncFactor * window r) <=? u64 (s - next r) then
    let '(r, ok) := tryResync s now r in
    if ok then (r, true)
    else (r <| dropSuspect := u64 (dropSuspect r + 1) |>, false)
  else
    let r := resyncReset r in
    if window r <=? u64 (s - next r)
    then (advanceTo (u64 (s - window r + 1)) (endHoldLocked now r), true)
    else (r, true).

(** The second half of [Observe]: the admitted frame enters its cell, the head
    run drains and the hold is re-evaluated. *)
Definition place (now : Time) (s : Z) (pl : list Z) (from : AddrPort)
    (r : Resequencer) : option (Resequencer * bool) :=
  if occupied (cell r s) && (seq (cell r s) =? s) then
    Some (r <| dropDup := u64 (dropDup r + 1) |>, false)
  else
    let fillsGap := waiting r && (s =? next r) in
    let r := r <| ring := <[idx r s := mkSlot s from pl now true]> (ring r) |>
               <| buf := buf r + 1 |> in
    let r := if negb (s =? next r) then r <| held := held r ++ [s] |> else r in
    let r := if highWater r <? buf r then r <| highWater := buf r |> else r in
    let r := if fillsGap
             then endHoldLocked now (r <| gapFills := u64 (gapFills r + 1) |>) else r in
    match arm now (drain r) with
    | None => None
    | Some r => Some (r, true)
    end.

Definition Observe (now : Time) (s : Z) (pl : list Z) (from : AddrPort)
    (r : Resequencer) : option (Resequencer * bool) :=
  let r := if negb (started r) then r <| started := true |> <| next := s |> else r in
  match expire now r with
  | None => None
  | Some r =>
    let '(r, ok) := admitSeq s now r in
    if negb ok then Some (r, false) else place now s pl from r
  end.

Definition Pop (now : Time) (r : Resequencer) : option (Resequencer * option Item) :=
  match expire now r with
  | None => None
  | Some r =>
    match ready r !! readyPos r with
    | None => Some (r, None)
    | Some it =>
      let r := r <| ready := <[readyPos r := Item0]> (ready r) |>
                 <| readyPos := S (readyPos r) |> in
      let r := if (length (ready r) <=? readyPos r)%nat
               then r <| ready := [] |> <| readyPos := 0%nat |> else r in
      Some (r, Some it)
    end
  end.

Definition RebaselineAt (now : Time) (n : Z) (r : Resequencer) : option Resequencer :=
  if n =? 0 then None
  else
    let r := r <| ring := replicate (length (ring r)) slot0 |>
               <| buf := 0 |> <| held := [] |> <| heldPos := 0%nat |>
               <| started := true |> <| next := n |> <| era := era r + 1 |> in
    let r := resyncReset (endHoldLocked now r) in
    Some (notifyLocked (r <| rebaselines := u64 (rebaselines r + 1) |>)).

Definition Buffered (r : Resequencer) : Z := buf r.
Definition Pending (r : Resequencer) : Z :=
  Z.of_nat (length (ready r)) - Z.of_nat (readyPos r).
Definition HighWater (r : Resequencer) : Z := highWater r.

(** [Stats]: the armed deadline and window are zero values when no hold is
    armed. *)
Record Stats := mkStats {
  Released_ : Z;
  DroppedDup : Z;
  DroppedOld : Z;
  DroppedSuspect : Z;
  Skipped : Z;
  Resyncs : Z;
  Rebaselines : Z;
  Holds : Z;
  HoldNanos : Z;
  ArmedDeadline_ : Time;
  ArmedWindow : Duration;
  DeadlineWakeups : Z;
  GapFills : Z;
  HoldSlotVisits : Z
}.
Definition GetStats (r : Resequencer) : Stats :=
  mkStats (releasedN r) (dropDup r) (dropLate r) (dropSuspect r) (skipped r) (resyncs r)
    (rebaselines r) (holds r) (holdNanos r)
    (if waiting r then deadline r else 0) (if waiting r then armedWindow r else 0)
    (deadlineWakeups r) (gapFills r) (holdSlotVisits r).

End reseq.
