(* ===== verification/ReseqTheory.v ===== *)
(** * Correctness of the resequencer

    The well-formedness invariant [WF] of the resequencer state, the relation
    [moves] every advance of the release point satisfies, and the theorems about
    the operations of [Reseq]. *)

From stdpp Require Import base tactics list numbers sorting.
From S2P Require Import Prelude Reseq.

Module reseq_theory.
Import reseq.

(** Sequences live below [2^63] (the transport clears the top bit before it
    hands an order to the resequencer) and the window is small enough that
    [resyncFactor] windows fit an [uint64]. *)
Definition seq_bound : Z := 2 ^ 63.

Record WF (r : Resequencer) : Prop := mkWF {
  wf_window : 0 < window r <= 2 ^ 61;
  wf_ring : length (ring r) = Z.to_nat (window r);
  wf_next : 0 <= next r <= seq_bound;
  wf_cell : forall i c, ring r !! i = Some c -> occupied c = true ->
    i = idx r (seq c) /\ next r <= seq c < next r + window r /\ seq c < seq_bound;
  wf_buf : buf r = count occupied (ring r);
  wf_held : forall i c, ring r !! i = Some c -> occupied c = true ->
    seq c = next r \/ seq c ∈ drop (heldPos r) (held r);
  wf_heldPos : (heldPos r <= length (held r))%nat;
  wf_ready : (readyPos r <= length (ready r))%nat
}.

(** ** Cells *)
Section Cells.
Context (r : Resequencer) (H : WF r).

Lemma idx_lt s : (idx r s < length (ring r))%nat.
Proof.
  rewrite (wf_ring _ H). unfold idx.
  pose proof (wf_window _ H). pose proof (Z.mod_pos_bound s (window r)). lia.
Qed.

Lemma cell_lookup s : ring r !! idx r s = Some (cell r s).
Proof.
  unfold cell. destruct (lookup_lt_is_Some_2 (ring r) (idx r s)) as [c Hc].
  - by apply idx_lt.
  - by rewrite Hc.
Qed.

Lemma live_true s : live r s = true -> occupied (cell r s) = true /\ seq (cell r s) = s.
Proof. unfold live. rewrite andb_true_iff, Z.eqb_eq. done. Qed.

Lemma live_of_lookup i c : ring r !! i = Some c -> occupied c = true -> live r (seq c) = true.
Proof.
  intros Hi Hc. destruct (wf_cell _ H _ _ Hi Hc) as (-> & _).
  unfold live, cell. rewrite Hi. cbn. rewrite Hc, Z.eqb_refl. done.
Qed.

Lemma live_range s : live r s = true ->
  next r <= s < next r + window r /\ s < seq_bound.
Proof.
  intros Hl. destruct (live_true _ Hl) as [Ho He].
  pose proof (wf_cell _ H _ _ (cell_lookup s) Ho). rewrite He in *. tauto.
Qed.

Lemma buf_bounds : 0 <= buf r <= window r.
Proof.
  rewrite (wf_buf _ H). pose proof (count_bounds occupied (ring r)).
  pose proof (wf_ring _ H). pose proof (wf_window _ H). lia.
Qed.
End Cells.

(** ** How the release point moves

    [moves r r'] holds between a state and the one a release, a skip, a drain
    or a window advance leaves: the release point grows, what is released is
    logged in ascending order and was buffered, what stays buffered was
    buffered, and every sequence passed is either released or counted as
    skipped. *)
Record moves (r r' : Resequencer) : Prop := mkMoves {
  mv_window : window r' = window r;
  mv_timeout : timeout r' = timeout r;
  mv_started : started r' = started r;
  mv_holdBound : holdBound r' = holdBound r;
  mv_closed : closed r' = closed r;
  mv_era : era r' = era r;
  mv_readyPos : readyPos r' = readyPos r;
  mv_ring : length (ring r') = length (ring r);
  mv_stays : forall i c, ring r' !! i = Some c -> occupied c = true -> ring r !! i = Some c;
  mv_log : exists ext, log r' = log r ++ ext /\ ready r' = ready r ++ map rel_item ext /\
    ascending (next r) (map rel_seq ext) (next r') /\
    Forall (fun x => rel_era x = era r /\
      exists i c, ring r !! i = Some c /\ occupied c = true /\ seq c = rel_seq x /\
        rel_item x = mkItem (payload c) (src c)) ext /\
    (forall i c, ring r !! i = Some c -> occupied c = true ->
      ring r' !! i = Some c \/
      mkReleased (era r) (seq c) (mkItem (payload c) (src c)) ∈ ext) /\
    buf r' = buf r - Z.of_nat (length ext) /\
    u64 (releasedN r') = u64 (releasedN r + Z.of_nat (length ext));
  mv_account : u64 (releasedN r' + skipped r' - next r') = u64 (releasedN r + skipped r - next r)
}.

(** What drains and window advances leave alone: the list of held sequences and
    the armed hold. *)
Record steady (r r' : Resequencer) : Prop := mkSteady {
  st_held : held r' = held r;
  st_heldPos : heldPos r' = heldPos r;
  st_waiting : waiting r' = waiting r;
  st_deadline : deadline r' = deadline r
}.

Lemma steady_trans a b c : steady a b -> steady b c -> steady a c.
Proof. intros [] []. split; congruence. Qed.

Lemma moves_refl r : moves r r.
Proof.
  split; try done. exists []. rewrite !app_nil_r. cbn. rewrite Z.add_0_r.
  split_and!; auto; lia.
Qed.

Lemma moves_trans a b c : moves a b -> moves b c -> moves a c.
Proof.
  intros [] []. split; try congruence.
  - eauto.
  - destruct mv_log0 as (e1 & L1 & R1 & A1 & F1 & S1 & B1 & N1).
    destruct mv_log1 as (e2 & L2 & R2 & A2 & F2 & S2 & B2 & N2).
    exists (e1 ++ e2). rewrite L2, L1, R2, R1, !map_app, length_app, !app_assoc.
    split_and!; try done.
    + by eapply ascending_app.
    + apply Forall_app. split; [done|]. eapply Forall_impl; [exact F2|].
      intros x (E & i & d & Hi & Ho & Hs). split; [congruence|]. eauto 10.
    + intros i d Hi Ho. destruct (S1 i d Hi Ho) as [Hi'|Hin].
      * destruct (S2 i d Hi' Ho) as [|Hin]; [by left|]. right. apply elem_of_app. right.
        by rewrite <- mv_era0.
      * right. apply elem_of_app. by left.
    + lia.
    + rewrite N2, <- u64_add_l, N1, u64_add_l. f_equal. lia.
Qed.

Lemma moves_next a b : moves a b -> next a <= next b.
Proof. intros M. destruct (mv_log _ _ M) as (e & _ & _ & A & _). by eapply ascending_le. Qed.

(** Every sequence the code skips at once: nothing buffered lies below [t]. *)
Lemma jump_ok r t :
  WF r -> next r <= t <= seq_bound ->
  (forall i c, ring r !! i = Some c -> occupied c = true -> t <= seq c) ->
  let r' := r <| skipped := u64 (skipped r + u64 (t - next r)) |> <| next := t |> in
  WF r' /\ moves r r'.
Proof.
  intros H Ht Hc r'. split.
  - destruct H. split; cbn in *; try done; try lia.
    + intros i c Hi Ho. destruct (wf_cell0 i c Hi Ho) as (? & ? & ?).
      specialize (Hc i c Hi Ho). split_and!; try done; lia.
    + intros i c Hi Ho. specialize (Hc i c Hi Ho).
      destruct (wf_held0 i c Hi Ho); [left; lia|by right].
  - split; cbn; try done.
    + exists []. rewrite !app_nil_r. cbn. rewrite Z.add_0_r. split_and!; auto; lia.
    + wrap_eq.
Qed.

Lemma occupied_seq_ne r i c :
  WF r -> live r (next r) = false -> ring r !! i = Some c -> occupied c = true ->
  next r + 1 <= seq c.
Proof.
  intros H Hl Hi Ho. destruct (wf_cell _ H i c Hi Ho) as (_ & ? & _).
  destruct (Z.eq_dec (seq c) (next r)) as [E|]; [|lia].
  rewrite <- E, (live_of_lookup r H i c Hi Ho) in Hl. done.
Qed.

(** Releasing the head cell. *)
Lemma release_ok r :
  WF r -> live r (next r) = true ->
  let r' := release (next r) r <| next := u64 (next r + 1) |> in
  WF r' /\ moves r r'.
Proof.
  intros H Hl. destruct (live_true _ _ Hl) as [Ho Hs].
  pose proof (wf_next _ H) as Hn. pose proof (cell_lookup r H (next r)) as Hc.
  destruct (wf_cell _ H _ _ Hc Ho) as (_ & Hr & Hb). rewrite Hs in Hb.
  rewrite u64_small by (unfold seq_bound in *; lia).
  set (c := cell r (next r)) in *. set (k := idx r (next r)) in *.
  assert (Hk : (k < length (ring r))%nat) by (apply lookup_lt_Some in Hc; done).
  assert (Hother : forall i d, <[k:=c <| occupied := false |> <| payload := [] |>
      <| observedAt := 0 |>]> (ring r) !! i = Some d -> occupied d = true ->
      i <> k /\ ring r !! i = Some d).
  { intros i d Hi Hd. destruct (decide (i = k)) as [->|Hne].
    - rewrite list_lookup_insert_eq in Hi by done. injection Hi as <-. done.
    - rewrite list_lookup_insert_ne in Hi by done. done. }
  split.
  - split; cbn; fold c k; try apply H.
    + rewrite length_insert. apply H.
    + unfold seq_bound in *. lia.
    + intros i d Hi Hd. destruct (Hother i d Hi Hd) as [Hne Hi'].
      destruct (wf_cell _ H i d Hi' Hd) as (-> & ? & ?). unfold idx in *; cbn.
      split_and!; try done; try lia.
      destruct (Z.eq_dec (seq d) (next r)) as [E|]; [|lia]. by rewrite E in Hne.
    + rewrite (count_insert occupied _ _ _ c), (wf_buf _ H) by done. rewrite Ho. cbn. lia.
    + intros i d Hi Hd. destruct (Hother i d Hi Hd) as [Hne Hi'].
      destruct (wf_held _ H i d Hi' Hd) as [E|?]; [|by right].
      destruct (wf_cell _ H i d Hi' Hd) as (-> & _). rewrite E in Hne. done.
    + rewrite length_app. pose proof (wf_ready _ H). lia.
  - split; cbn; fold c k; try done.
    + by rewrite length_insert.
    + intros i d Hi Hd. by apply Hother.
    + exists [mkReleased (era r) (seq c) (mkItem (payload c) (src c))]. cbn.
      split_and!; try done; try lia.
      * constructor; [|done]. cbn. split; [done|]. exists k, c. done.
      * intros i d Hi Hd. destruct (decide (i = k)) as [->|Hne].
        -- right. apply list_elem_of_singleton. congruence.
        -- left. by rewrite list_lookup_insert_ne.
      * wrap_eq.
    + wrap_eq.
Qed.

(** ** [drain] and [advanceTo] *)
Lemma drain_loop_ok fuel r :
  WF r -> buf r < Z.of_nat fuel ->
  let r' := drain_loop fuel r in
  WF r' /\ moves r r' /\ steady r r' /\ live r' (next r') = false.
Proof.
  revert r. induction fuel as [|fuel IH]; intros r H Hf.
  { pose proof (buf_bounds r H). lia. }
  cbn [drain_loop]. destruct (live r (next r)) eqn:Hl.
  - destruct (live_true _ _ Hl) as [Ho Hs]. rewrite Ho, Hs, Z.eqb_refl. cbn [negb orb].
    destruct (release_ok r H Hl) as [H' M].
    destruct (IH _ H') as (H'' & M' & St & Hd).
    + destruct (mv_log _ _ M) as (e & L & _ & _ & _ & _ & B & _). rewrite B.
      apply (f_equal length) in L. rewrite length_app in L. cbn in L.
      rewrite length_app in L. cbn in L. lia.
    + split_and!; try done; [by eapply moves_trans|].
      eapply steady_trans; [|exact St]. done.
  - unfold live in Hl. rewrite <- negb_andb, Hl. cbn. split_and!; try done. apply moves_refl.
Qed.

Lemma drain_ok r :
  WF r ->
  WF (drain r) /\ moves r (drain r) /\ steady r (drain r) /\
  live (drain r) (next (drain r)) = false.
Proof.
  intros H. apply drain_loop_ok; [done|]. pose proof (buf_bounds r H).
  rewrite (wf_ring _ H). pose proof (wf_window _ H). lia.
Qed.

Lemma advance_loop_ok fuel limit r :
  WF r -> next r <= limit <= seq_bound -> limit - next r <= Z.of_nat fuel ->
  let r' := advance_loop fuel limit r in
  WF r' /\ moves r r' /\ steady r r' /\ next r' = limit.
Proof.
  revert r. induction fuel as [|fuel IH]; intros r H Hl Hf; cbn [advance_loop].
  { split_and!; [done|apply moves_refl|done|lia]. }
  destruct (Z.ltb_spec (next r) limit); [|split_and!; [done|apply moves_refl|done|lia]].
  assert (Hstep : let r1 := (if occupied (cell r (next r)) && (seq (cell r (next r)) =? next r)
               then release (next r) r
               else r <| skipped := u64 (skipped r + 1) |>) in
            let r2 := r1 <| next := u64 (next r1 + 1) |> in
            WF r2 /\ moves r r2 /\ steady r r2 /\ next r2 = next r + 1).
  { fold (live r (next r)). pose proof (wf_next _ H).
    assert (Hu : u64 (next r + 1) = next r + 1) by (apply u64_small; unfold seq_bound in *; lia).
    destruct (live r (next r)) eqn:E; cbv zeta.
    - destruct (release_ok r H E) as [A B]. split_and!; [exact A|exact B|done|exact Hu].
    - destruct (jump_ok r (next r + 1) H ltac:(lia)) as [A B]; [eauto using occupied_seq_ne|].
      replace (next r + 1 - next r) with 1 in A, B by lia. rewrite <- Hu in A, B.
      split_and!; [exact A|exact B|done|exact Hu]. }
  destruct Hstep as (H2 & M2 & S2 & E2).
  destruct (IH _ H2) as (H3 & M3 & S3 & E3); [lia..|].
  split_and!; try done; [by eapply moves_trans|by eapply steady_trans].
Qed.

Lemma advanceTo_ok target r :
  WF r -> next r <= target <= seq_bound ->
  WF (advanceTo target r) /\ moves r (advanceTo target r) /\ steady r (advanceTo target r) /\
  next (advanceTo target r) = target.
Proof.
  intros H Ht. pose proof (wf_window _ H) as Hw. pose proof (wf_ring _ H) as Hr.
  pose proof (wf_next _ H). unfold advanceTo.
  rewrite u64_small by (unfold seq_bound in *; lia).
  set (limit := if next r + window r <? target then next r + window r else target).
  assert (Hl : next r <= limit <= target /\ limit <= next r + window r /\
    (limit = target \/ limit = next r + window r))
    by (subst limit; destruct (Z.ltb_spec (next r + window r) target); lia).
  destruct (advance_loop_ok (length (ring r)) limit r) as (H1 & M1 & S1 & E1); [done|lia|lia|].
  cbv zeta in *. set (r1 := advance_loop _ _ _) in *. clearbody r1.
  destruct (Z.ltb_spec (next r1) target).
  - destruct (jump_ok r1 target H1) as [HJ MJ]; [lia| |].
    + intros i c Hi Ho. exfalso. destruct (wf_cell _ H1 i c Hi Ho) as (_ & ? & _).
      pose proof (wf_cell _ H i c (mv_stays _ _ M1 i c Hi Ho) Ho). lia.
    + split_and!; try done; [by eapply moves_trans|]. eapply steady_trans; [exact S1|]. done.
  - split_and!; try done. lia.
Qed.

(** ** Holds

    [quiet]: only the hold, its accounting, the held list and the discontinuity
    run changed. *)
Record quiet (r r' : Resequencer) : Prop := mkQuiet {
  qt_window : window r' = window r;
  qt_timeout : timeout r' = timeout r;
  qt_started : started r' = started r;
  qt_next : next r' = next r;
  qt_ring : ring r' = ring r;
  qt_buf : buf r' = buf r;
  qt_ready : ready r' = ready r;
  qt_readyPos : readyPos r' = readyPos r;
  qt_holdBound : holdBound r' = holdBound r;
  qt_closed : closed r' = closed r;
  qt_era : era r' = era r;
  qt_log : log r' = log r;
  qt_released : releasedN r' = releasedN r;
  qt_skipped : skipped r' = skipped r
}.

Lemma quiet_refl r : quiet r r.
Proof. done. Qed.

Lemma quiet_trans a b c : quiet a b -> quiet b c -> quiet a c.
Proof. intros [] []. split; congruence. Qed.

Lemma quiet_moves a b : quiet a b -> moves a b.
Proof.
  intros []. split; try congruence.
  - exists []. rewrite qt_log0, qt_ready0, qt_ring0, qt_buf0, qt_next0, qt_released0, !app_nil_r.
    cbn. rewrite Z.add_0_r. split_and!; auto; lia.
Qed.

Lemma quiet_live a b s : quiet a b -> live b s = live a s.
Proof. intros []. unfold live, cell, idx. by rewrite qt_window0, qt_ring0. Qed.

(** A quiet step keeps the invariant when it keeps every live held sequence. *)
Lemma quiet_WF a b :
  quiet a b -> WF a ->
  (forall s, live a s = true -> s ∈ drop (heldPos a) (held a) ->
    s ∈ drop (heldPos b) (held b)) ->
  (heldPos b <= length (held b))%nat ->
  WF b.
Proof.
  intros [] H Hh Hp. split; rewrite ?qt_window0, ?qt_ring0, ?qt_next0, ?qt_buf0, ?qt_ready0, ?qt_readyPos0.
  1-3, 5, 8: apply H.
  - intros i c Hi Ho. destruct (wf_cell _ H i c Hi Ho) as (? & ?).
    unfold idx in *. by rewrite qt_window0.
  - intros i c Hi Ho. destruct (wf_held _ H i c Hi Ho); [by left|]. right.
    apply Hh; [|done]. by eapply live_of_lookup.
  - done.
Qed.

Lemma notifyLocked_quiet r : quiet r (notifyLocked r) /\ steady r (notifyLocked r).
Proof. unfold notifyLocked. by destruct (notify r). Qed.

Lemma endHoldLocked_quiet now r :
  quiet r (endHoldLocked now r) /\ held (endHoldLocked now r) = held r /\
  heldPos (endHoldLocked now r) = heldPos r /\ waiting (endHoldLocked now r) = false.
Proof.
  unfold endHoldLocked, notifyLocked. destruct (waiting r) eqn:E; cbn; [|done].
  destruct (0 <? _); cbn; by destruct (notify r).
Qed.

Lemma endHoldLocked_WF now r : WF r -> WF (endHoldLocked now r).
Proof.
  intros H. destruct (endHoldLocked_quiet now r) as (Q & E1 & E2 & _).
  eapply quiet_WF; [exact Q|done|by rewrite E1, E2|]. rewrite E1, E2. apply H.
Qed.

(** What the scan of the held list finds: the first entry still buffered. *)
Lemma oldest_scan_ok rest r :
  rest = drop (heldPos r) (held r) ->
  exists h p v o,
    oldest_scan rest r = (r <| held := h |> <| heldPos := p |> <| holdSlotVisits := v |>, o) /\
    match o with
    | Some t => exists pre s post, rest = pre ++ s :: post /\ drop p h = s :: post /\
        live r s = true /\ next r <= s /\ t = observedAt (cell r s) /\
        Forall (fun x => live r x && (next r <=? x) = false) pre
    | None => h = [] /\ p = 0%nat /\ Forall (fun x => live r x && (next r <=? x) = false) rest
    end.
Proof.
  revert r. induction rest as [|s rest IH]; intros r E; cbn [oldest_scan].
  { exists [], 0%nat, (holdSlotVisits r), None. done. }
  set (r1 := r <| holdSlotVisits := u64 (holdSlotVisits r + 1) |>).
  change (occupied (cell r1 s) && (seq (cell r1 s) =? s)) with (live r s).
  change (next r1) with (next r).
  destruct (live r s && (next r <=? s)) eqn:El.
  - apply andb_true_iff in El as [El Hle]. apply Z.leb_le in Hle.
    destruct (_ <? _)%nat.
    + exists (drop (heldPos r) (held r)), 0%nat, (holdSlotVisits r1), (Some (observedAt (cell r s))).
      split; [done|]. exists [], s, rest. by rewrite drop_0.
    + exists (held r), (heldPos r), (holdSlotVisits r1), (Some (observedAt (cell r s))).
      split; [done|]. exists [], s, rest. done.
  - destruct (IH (r1 <| heldPos := S (heldPos r) |>)) as (h & p & v & o & Ho & Hr).
    { cbn. symmetry in E. apply (f_equal (drop 1)) in E. rewrite drop_drop in E.
      cbn in E. by rewrite Nat.add_1_r in E. }
    exists h, p, v, o. split; [exact Ho|]. destruct o as [t|].
    + destruct Hr as (pre & s' & post & -> & Hr). exists (s :: pre), s', post.
      destruct Hr as (? & ? & ? & ? & ?). split_and!; try done. by constructor.
    + destruct Hr as (? & ? & ?). split_and!; try done. by constructor.
Qed.

(** ** Timing

    [Timed now r]: nothing buffered was observed after [now], the held list is
    in order of observation and its entries are buffered or already passed, and
    an armed deadline lies within [timeout] of every buffered frame's
    observation. *)
Fixpoint obs_sorted (r : Resequencer) (l : list Z) : Prop :=
  match l with
  | [] => True
  | a :: l =>
    (live r a = true -> forall b, b ∈ l -> live r b = true ->
      observedAt (cell r a) <= observedAt (cell r b)) /\ obs_sorted r l
  end.

Record Timed (now : Time) (r : Resequencer) : Prop := mkTimed {
  tm_obs : forall i c, ring r !! i = Some c -> occupied c = true -> observedAt c <= now;
  tm_order : obs_sorted r (drop (heldPos r) (held r));
  tm_stale : forall s, s ∈ drop (heldPos r) (held r) -> live r s = true \/ s < next r;
  tm_deadline : waiting r = true -> forall i c, ring r !! i = Some c -> occupied c = true ->
    seq c <> next r -> deadline r <= observedAt c + timeout r;
  tm_hold : 0 <= holdBound r <= timeout r
}.

Lemma obs_sorted_suffix r pre l : obs_sorted r (pre ++ l) -> obs_sorted r l.
Proof. induction pre as [|a pre IH]; cbn; [done|]. intros [_ ?]. auto. Qed.

Lemma obs_sorted_snoc r l s :
  obs_sorted r l -> (forall a, a ∈ l -> live r a = true -> observedAt (cell r a) <= observedAt (cell r s)) ->
  obs_sorted r (l ++ [s]).
Proof.
  induction l as [|a l IH]; cbn; intros H Hs.
  - split; [|done]. intros _ b Hb. by apply elem_of_nil in Hb.
  - destruct H as [Ha Hl]. split.
    + intros Hla b Hb Hlb. apply elem_of_app in Hb as [Hb|Hb]; [by apply Ha|].
      apply list_elem_of_singleton in Hb as ->. apply Hs; [constructor|done].
    + apply IH; [done|]. intros b Hb. apply Hs. by constructor.
Qed.

Lemma obs_sorted_mono r r' l :
  (forall s, s ∈ l -> live r' s = true -> live r s = true /\ cell r s = cell r' s) ->
  obs_sorted r l -> obs_sorted r' l.
Proof.
  induction l as [|a l IH]; cbn; [done|]. intros Hm [Ha Hl]. split.
  - intros Hla b Hb Hlb.
    destruct (Hm a) as [? <-]; [constructor|done|].
    destruct (Hm b) as [? <-]; [by constructor|done|]. by apply Ha.
  - apply IH; [|done]. intros s Hs. apply Hm. by constructor.
Qed.

(** A live cell after a move was the same live cell before it. *)
Lemma moves_live r r' s :
  WF r' -> moves r r' -> live r' s = true -> live r s = true /\ cell r s = cell r' s.
Proof.
  intros H M Hl. destruct (live_true _ _ Hl) as [Ho He].
  pose proof (mv_stays _ _ M _ _ (cell_lookup r' H s) Ho) as Hi.
  assert (E : idx r s = idx r' s) by (unfold idx; by rewrite (mv_window _ _ M)).
  assert (Ec : cell r s = cell r' s) by (unfold cell at 1; by rewrite E, Hi).
  split; [|done]. unfold live. rewrite Ec. exact Hl.
Qed.

(** A live cell before a move is live after it or below the release point. *)
Lemma moves_live_fwd r r' s :
  WF r -> moves r r' -> live r s = true -> live r' s = true \/ s < next r'.
Proof.
  intros H M Hl. destruct (live_true _ _ Hl) as [Ho He].
  destruct (mv_log _ _ M) as (e & _ & _ & A & _ & F & _).
  destruct (F _ _ (cell_lookup r H s) Ho) as [Hi|Hin].
  - left. unfold live, cell, idx in *. rewrite (mv_window _ _ M), Hi. cbn. by rewrite Ho, He, Z.eqb_refl.
  - right. apply (ascending_elem _ _ _ s A). rewrite He in Hin.
    apply list_elem_of_fmap. eexists. split; [|exact Hin]. done.
Qed.

Lemma moves_timed now now' r r' :
  WF r -> WF r' -> moves r r' -> held r' = held r -> heldPos r' = heldPos r ->
  waiting r' = false \/ (waiting r' = waiting r /\ deadline r' = deadline r) ->
  now <= now' -> Timed now r -> Timed now' r'.
Proof.
  intros H H' M E1 E2 E3 Hn []. split.
  - intros i c Hi Ho. pose proof (tm_obs0 i c (mv_stays _ _ M i c Hi Ho) Ho). lia.
  - rewrite E1, E2. eapply obs_sorted_mono; [|exact tm_order0].
    intros s Hs Hl. by apply moves_live.
  - rewrite E1, E2. intros s Hs. pose proof (moves_next _ _ M).
    destruct (tm_stale0 s Hs) as [Hl|]; [|right; lia].
    by apply moves_live_fwd with r.
  - destruct E3 as [-> |[-> ->]]; [done|]. rewrite (mv_timeout _ _ M). intros Hw i c Hi Ho Hne.
    pose proof (mv_stays _ _ M i c Hi Ho) as Hi'. apply (tm_deadline0 Hw i c Hi' Ho).
    destruct (wf_cell _ H' i c Hi Ho) as (_ & ? & _). pose proof (moves_next _ _ M). lia.
  - rewrite (mv_holdBound _ _ M), (mv_timeout _ _ M). done.
Qed.

Lemma steady_timed now now' r r' :
  WF r -> WF r' -> moves r r' -> steady r r' -> now <= now' -> Timed now r -> Timed now' r'.
Proof. intros ? ? ? [] ?. eapply moves_timed; auto. Qed.

Lemma quiet_timed now r r' :
  quiet r r' -> held r' = held r -> heldPos r' = heldPos r -> waiting r' = false ->
  Timed now r -> Timed now r'.
Proof.
  intros Q E1 E2 E3 []. destruct Q. split; rewrite ?E1, ?E2, ?E3, ?qt_ring0, ?qt_holdBound0, ?qt_timeout0; try done.
  - eapply obs_sorted_mono; [|exact tm_order0]. intros s _ Hl.
    unfold live, cell, idx in *. rewrite qt_window0, qt_ring0 in *. done.
  - intros s Hs. rewrite (quiet_live r r' s) by done. rewrite qt_next0. auto.
Qed.

(** Some cell is occupied when the count is positive. *)
Lemma count_pos_inv {A} (f : A -> bool) l : 0 < count f l -> exists i x, l !! i = Some x /\ f x = true.
Proof.
  induction l as [|y l IH]; cbn; [lia|]. destruct (f y) eqn:E; intros Hc.
  - exists 0%nat, y. done.
  - destruct IH as (i & x & ? & ?); [lia|]. exists (S i), x. done.
Qed.

(** [arm] finds the frame it promises: it does not panic. *)
Lemma arm_ok now r :
  WF r -> live r (next r) = false ->
  exists r', arm now r = Some r' /\ quiet r r' /\ WF r' /\ waiting r' = (0 <? buf r) /\
    (Timed now r -> Timed now r').
Proof.
  intros H Hl. unfold arm. fold (live r (next r)). rewrite Hl. cbn [negb andb].
  destruct (Z.ltb_spec 0 (buf r)) as [Hb|Hb].
  2: { eexists. split; [done|]. destruct (endHoldLocked_quiet now r) as (Q & E1 & E2 & E3).
       split_and!; [done|by apply endHoldLocked_WF|done|]. by apply quiet_timed. }
  destruct (waiting r) eqn:Hw; cbn [negb].
  { exists r. by split_and!. }
  set (r1 := r <| waiting := true |>).
  destruct (oldest_scan_ok (drop (heldPos r) (held r)) r1 eq_refl) as (h & p & v & o & E & Ho).
  change (oldestBufferedObservation r1) with (oldest_scan (drop (heldPos r) (held r)) r1).
  rewrite E. clear E. change (live r1) with (live r) in Ho. change (next r1) with (next r) in Ho.
  assert (Hhead : forall x, live r x = true -> live r x && (next r <=? x) = true).
  { intros x Hx. pose proof (live_range r H x Hx) as [? _].
    rewrite Hx. cbn. apply Z.leb_le. lia. }
  assert (Hlive : forall s, live r s = true -> s ∈ drop (heldPos r) (held r) ->
     o <> None /\ s ∈ drop p h).
  { intros s Hs Hin. destruct o as [t|].
    - split; [done|]. destruct Ho as (pre & s' & post & Eq & -> & _ & _ & _ & Hpre).
      rewrite Eq in Hin. apply elem_of_app in Hin as [Hin|Hin]; [|done].
      rewrite Forall_forall in Hpre. specialize (Hpre s Hin). by rewrite Hhead in Hpre.
    - destruct Ho as (_ & _ & Hall). rewrite Forall_forall in Hall.
      specialize (Hall s Hin). by rewrite Hhead in Hall. }
  destruct o as [t|].
  2: { exfalso. rewrite (wf_buf _ H) in Hb.
       destruct (count_pos_inv occupied (ring r) Hb) as (i & c & Hi & Hc).
       destruct (wf_held _ H i c Hi Hc) as [Es|Hin].
       - pose proof (live_of_lookup r H i c Hi Hc). congruence.
       - by destruct (Hlive (seq c) (live_of_lookup r H i c Hi Hc) Hin). }
  eexists. split; [done|].
  set (r2 := r1 <| held := h |> <| heldPos := p |> <| holdSlotVisits := v |> <| deadline := _ |>
    <| armedAt := _ |> <| armedWindow := _ |> <| holds := _ |>).
  destruct (notifyLocked_quiet r2) as [Q3 S3].
  assert (Q : quiet r (notifyLocked r2)) by (eapply quiet_trans; [|exact Q3]; done).
  split_and!; [done| |by rewrite (st_waiting _ _ S3)|].
  - eapply quiet_WF; [exact Q|done| |]; rewrite (st_held _ _ S3), (st_heldPos _ _ S3).
    + intros s Hs Hin. by apply Hlive.
    + destruct Ho as (_ & ? & ? & _ & Hp & _). apply (f_equal length) in Hp.
      rewrite length_drop in Hp. cbn in *. lia.
  - intros T. destruct Ho as (pre & s0 & post & Eq & Ep & Hs0 & Hle & -> & Hpre).
    destruct T. rewrite Eq in tm_order0. pose proof (obs_sorted_suffix _ _ _ tm_order0) as Hsort.
    destruct Q3, S3. split; rewrite ?st_held0, ?st_heldPos0, ?st_deadline0, ?qt_timeout0, ?qt_holdBound0, ?qt_ring0; cbn [r2 r1 ring held heldPos deadline timeout holdBound update]; try done.
    + rewrite Ep. eapply obs_sorted_mono; [|exact Hsort]. intros x _ Hx.
      rewrite (quiet_live _ _ _ Q) in Hx. split; [done|]. unfold cell, idx. by rewrite (qt_window _ _ Q), (qt_ring _ _ Q).
    + intros x Hx. rewrite (quiet_live _ _ _ Q), (qt_next _ _ Q). apply tm_stale0.
      rewrite Eq. apply elem_of_app. right. by rewrite <- Ep.
    + intros _ i c Hi Hc Hne. rewrite (qt_next _ _ Q) in Hne.
      assert (Hobs : observedAt (cell r s0) <= observedAt c).
      { pose proof (live_of_lookup r H i c Hi Hc) as Hlc.
        assert (Ec : cell r (seq c) = c).
        { destruct (wf_cell _ H i c Hi Hc) as (-> & _). unfold cell. by rewrite Hi. }
        rewrite <- Ec.
        destruct (wf_held _ H i c Hi Hc) as [|Hin]; [done|].
        destruct (Hlive _ Hlc Hin) as [_ Hin']. rewrite Ep in Hin'.
        apply elem_of_cons in Hin' as [->|Hin']; [lia|].
        destruct Hsort as [Hsort _]. by apply Hsort. }
      change (cell r1 s0) with (cell r s0). unfold effectiveHoldLocked.
      cbn [r1 holdBound timeout update]. destruct (holdBound r =? 0); lia.
Qed.

(** ** [expire] *)
Lemma smallest_fold nx l best found :
  let '(m, ok) := fold_left (smallest_step nx) l (best, found) in
  (ok = false -> found = false /\ forall c, c ∈ l -> occupied c = true -> seq c < nx) /\
  (ok = true ->
    ((found = true /\ m = best) \/ exists c, c ∈ l /\ occupied c = true /\ nx <= seq c /\ m = seq c) /\
    (found = true -> m <= best) /\
    (forall c, c ∈ l -> occupied c = true -> nx <= seq c -> m <= seq c)).
Proof.
  revert best found. induction l as [|c l IH]; intros best found; cbn [fold_left].
  { split; intros E; [split; [done|]|split_and!]; try (by left); try lia.
    all: intros c Hc; by apply elem_of_nil in Hc. }
  unfold smallest_step at 2. destruct (occupied c && (nx <=? seq c) && (negb found || (seq c <? best))) eqn:E.
  - specialize (IH (seq c) true). destruct (fold_left _ _ _) as [m ok]. destruct IH as [I1 I2].
    apply andb_true_iff in E as [E1 E2]. apply andb_true_iff in E1 as [Eo En]. apply Z.leb_le in En.
    split; intros Ek; [by destruct (I1 Ek)|].
    destruct (I2 Ek) as (I3 & I4 & I5). split_and!.
    + right. destruct I3 as [[_ ->]|(d & Hd & ?)]; [exists c|exists d]; split_and!; try done; [constructor|by constructor|tauto..].
    + intros ->. cbn in E2. apply Z.ltb_lt in E2. specialize (I4 eq_refl). lia.
    + intros d Hd Ho Hn. apply elem_of_cons in Hd as [->|Hd]; [by apply I4|by apply I5].
  - specialize (IH best found). destruct (fold_left _ _ _) as [m ok]. destruct IH as [I1 I2].
    split; intros Ek.
    + destruct (I1 Ek) as [-> I3]. split; [done|]. intros d Hd Ho.
      apply elem_of_cons in Hd as [->|Hd]; [|by apply I3].
      rewrite Ho in E. cbn in E. rewrite andb_true_r in E. apply Z.leb_gt in E. lia.
    + destruct (I2 Ek) as (I3 & I4 & I5). split_and!.
      * destruct I3 as [|(d & Hd & ?)]; [by left|]. right. exists d. split; [by constructor|done].
      * done.
      * intros d Hd Ho Hn. apply elem_of_cons in Hd as [->|Hd]; [|by apply I5].
        rewrite Ho in E. cbn in E. apply Z.leb_le in Hn. rewrite Hn in E. cbn in E.
        apply orb_false_iff in E as [Ef Eb]. apply negb_false_iff in Ef. apply Z.ltb_ge in Eb.
        specialize (I4 Ef). lia.
Qed.

Lemma smallestBuffered_ok r :
  WF r ->
  match smallestBuffered r with
  | (m, true) => live r m = true /\ next r <= m <= seq_bound /\
      forall i c, ring r !! i = Some c -> occupied c = true -> m <= seq c
  | (_, false) => buf r = 0
  end.
Proof.
  intros H. unfold smallestBuffered. pose proof (smallest_fold (next r) (ring r) 0 false) as F.
  destruct (fold_left _ _ _) as [m [|]]; destruct F as [F1 F2].
  - destruct (F2 eq_refl) as ([[? _]|(c & Hc & Ho & Hn & ->)] & _ & Hmin); [done|].
    apply list_elem_of_lookup in Hc as [i Hi].
    pose proof (wf_cell _ H i c Hi Ho) as (_ & _ & ?).
    split_and!; [exact (live_of_lookup r H i c Hi Ho)|done|unfold seq_bound in *; lia|].
    intros j d Hj Hd. apply Hmin; [apply list_elem_of_lookup; eauto|done|].
    destruct (wf_cell _ H j d Hj Hd) as (_ & ? & _). lia.
  - destruct (F1 eq_refl) as [_ F3]. rewrite (wf_buf _ H). apply count_none.
    intros i c Hi. destruct (occupied c) eqn:Ho; [|done].
    destruct (wf_cell _ H i c Hi Ho) as (_ & ? & _).
    specialize (F3 c (list_elem_of_lookup_2 _ _ _ Hi) Ho). lia.
Qed.

(** Between operations the head of line is absent: it would have drained. *)
Record Stable (r : Resequencer) : Prop := mkStable {
  sb_wf : WF r;
  sb_head : live r (next r) = false
}.

Lemma drain_live_shrinks r :
  WF r -> live r (next r) = true -> buf (drain r) < buf r.
Proof.
  intros H Hl. destruct (drain_ok r H) as (H' & M & _ & Hd).
  destruct (mv_log _ _ M) as (e & L & _ & A & _ & F & B & _). rewrite B.
  destruct (live_true _ _ Hl) as [Ho He].
  destruct e as [|x e]; [|cbn; lia]. exfalso.
  destruct (F _ _ (cell_lookup r H (next r)) Ho) as [Hi|Hin]; [|by apply elem_of_nil in Hin].
  pose proof (wf_cell _ H' _ _ Hi Ho) as (_ & ? & _). rewrite He in *.
  pose proof (moves_next _ _ M).
  assert (E : next (drain r) = next r) by lia.
  rewrite E in Hd. unfold live, cell, idx in Hd.
  rewrite (mv_window _ _ M) in Hd. fold (idx r (next r)) in Hd. rewrite Hi in Hd. cbn in Hd.
  by rewrite Ho, He, Z.eqb_refl in Hd.
Qed.

Lemma expire_loop_ok fuel now r :
  Stable r -> buf r < Z.of_nat fuel ->
  exists r', expire_loop fuel now r = Some r' /\ moves r r' /\ Stable r' /\
    (waiting r' = true -> now < deadline r') /\
    (waiting r = (0 <? buf r) -> waiting r' = (0 <? buf r')) /\
    (Timed now r -> Timed now r').
Proof.
  revert r. induction fuel as [|fuel IH]; intros r [H Hl] Hf.
  { pose proof (buf_bounds r H). lia. }
  cbn [expire_loop]. destruct (waiting r) eqn:Hw.
  2: { exists r. split_and!; try done; [apply moves_refl| |]; by rewrite Hw. }
  destruct (Z.ltb_spec now (deadline r)) as [Hd|Hd].
  { exists r. split_and!; try done; [apply moves_refl|]; by rewrite Hw. }
  set (r0 := r <| deadlineWakeups := _ |>).
  assert (Q0 : quiet r r0) by done.
  assert (H0 : WF r0) by (eapply quiet_WF; [exact Q0|done|done|apply H]).
  pose proof (smallestBuffered_ok r0 H0) as Hm. destruct (smallestBuffered r0) as [m [|]]; cbn [negb].
  2: { eexists. split; [done|]. destruct (endHoldLocked_quiet now r0) as (Q & E1 & E2 & E3).
       assert (Q' : quiet r (endHoldLocked now r0)) by (eapply quiet_trans; done).
       split_and!.
       - by apply quiet_moves.
       - split; [by apply endHoldLocked_WF|]. by rewrite (quiet_live _ _ _ Q'), (qt_next _ _ Q').
       - by rewrite E3.
       - rewrite E3, (qt_buf _ _ Q'). cbn in Hm. by rewrite Hm.
       - intros T. by apply (quiet_timed now r). }
  destruct Hm as (Hlm & Hnm & Hall).
  set (r1 := if next r0 <? m then _ else _).
  assert (H1 : WF r1 /\ moves r0 r1 /\ steady r0 r1 /\ live r1 (next r1) = true /\ buf r1 = buf r0).
  { subst r1. destruct (Z.ltb_spec (next r0) m).
    - destruct (jump_ok r0 m H0) as [A B]; [lia|done|]. by split_and!.
    - split_and!; try done; [apply moves_refl|]. replace (next r0) with m by lia. done. }
  destruct H1 as (H1 & M1 & S1 & L1 & B1).
  destruct (drain_ok r1 H1) as (H2 & M2 & S2 & L2). pose proof (drain_live_shrinks r1 H1 L1) as B2.
  destruct (endHoldLocked_quiet now (drain r1)) as (Q3 & E1 & E2 & E3).
  pose proof (endHoldLocked_WF now _ H2) as H3. set (r3 := endHoldLocked now (drain r1)) in *.
  destruct (arm_ok now r3 H3) as (r4 & -> & Q4 & H4 & W4 & T4).
  { by rewrite (quiet_live _ _ _ Q3), (qt_next _ _ Q3). }
  assert (M4 : moves r r4).
  { eapply moves_trans; [apply quiet_moves, Q0|]. eapply moves_trans; [exact M1|].
    eapply moves_trans; [exact M2|]. eapply moves_trans; apply quiet_moves; done. }
  destruct (IH r4) as (r' & -> & M' & S' & D' & W' & T').
  { split; [done|]. by rewrite (quiet_live _ _ _ Q4), (quiet_live _ _ _ Q3), (qt_next _ _ Q4), (qt_next _ _ Q3). }
  { rewrite (qt_buf _ _ Q4), (qt_buf _ _ Q3). change (buf r0) with (buf r) in B1. lia. }
  exists r'. split_and!; try done.
  - by eapply moves_trans.
  - intros _. apply W'. by rewrite W4, (qt_buf _ _ Q4).
  - intros T. apply T', T4. apply (quiet_timed now (drain r1)); try done.
    apply (steady_timed now now r1); auto with lia.
    apply (steady_timed now now r0); auto with lia.
    apply (steady_timed now now r); auto using quiet_moves with lia. done.
Qed.

Lemma expire_ok now r :
  Stable r ->
  exists r', expire now r = Some r' /\ moves r r' /\ Stable r' /\
    (waiting r' = true -> now < deadline r') /\
    (waiting r = (0 <? buf r) -> waiting r' = (0 <? buf r')) /\
    (Timed now r -> Timed now r').
Proof.
  intros H. apply expire_loop_ok; [done|]. pose proof (buf_bounds r (sb_wf _ H)).
  pose proof (wf_ring _ (sb_wf _ H)). pose proof (wf_window _ (sb_wf _ H)). lia.
Qed.

(** Giving up a hold that is due releases something. *)
Lemma expire_due now r :
  Stable r -> waiting r = true -> 0 < buf r -> deadline r <= now ->
  exists r', expire now r = Some r' /\ buf r' < buf r.
Proof.
  intros [H Hl] Hw Hb Hd. pose proof (buf_bounds r H) as Hbb. pose proof (wf_ring _ H) as Hr. pose proof (wf_window _ H) as Hwi.
  unfold expire. cbn [expire_loop]. rewrite Hw. rewrite (proj2 (Z.ltb_ge _ _)) by done.
  set (r0 := r <| deadlineWakeups := _ |>).
  assert (Q0 : quiet r r0) by done.
  assert (H0 : WF r0) by (eapply quiet_WF; [exact Q0|done|done|apply H]).
  pose proof (smallestBuffered_ok r0 H0) as Hm. destruct (smallestBuffered r0) as [m [|]]; cbn [negb].
  2: { cbn in Hm. lia. }
  destruct Hm as (Hlm & Hnm & Hall). set (r1 := if next r0 <? m then _ else _).
  assert (H1 : WF r1 /\ live r1 (next r1) = true /\ buf r1 = buf r).
  { subst r1. destruct (Z.ltb_spec (next r0) m).
    - destruct (jump_ok r0 m H0) as [A B]; [lia|done|]. by split_and!.
    - split_and!; try done. replace (next r0) with m by lia. done. }
  destruct H1 as (H1 & L1 & B1).
  destruct (drain_ok r1 H1) as (H2 & M2 & S2 & L2). pose proof (drain_live_shrinks r1 H1 L1) as B2.
  destruct (endHoldLocked_quiet now (drain r1)) as (Q3 & E1 & E2 & E3).
  pose proof (endHoldLocked_WF now _ H2) as H3. set (r3 := endHoldLocked now (drain r1)) in *.
  destruct (arm_ok now r3 H3) as (r4 & -> & Q4 & H4 & W4 & T4).
  { by rewrite (quiet_live _ _ _ Q3), (qt_next _ _ Q3). }
  assert (B4 : buf r4 < buf r) by (rewrite (qt_buf _ _ Q4), (qt_buf _ _ Q3); lia).
  destruct (expire_loop_ok (length (ring r)) now r4) as (r' & -> & M' & _).
  { split; [done|]. by rewrite (quiet_live _ _ _ Q4), (quiet_live _ _ _ Q3), (qt_next _ _ Q4), (qt_next _ _ Q3). }
  { lia. }
  exists r'. split; [done|]. destruct (mv_log _ _ M') as (e & _ & _ & _ & _ & _ & Eb & _). lia.
Qed.

End reseq_theory.
