(* ===== verification/ReseqProps.v ===== *)
(** * What the resequencer guarantees

    The operations of [Reseq] against the invariants of [ReseqTheory], the runs
    of operations, and the theorems about ordering, exactly-once delivery,
    bounded memory, bounded holding and the discontinuity guard. *)

From stdpp Require Import base tactics list numbers sorting.
From S2P Require Import Prelude Reseq ReseqTheory.

Module reseq_props.
Import reseq reseq_theory.

(** ** The discontinuity guard *)

(** [repin base r r']: the release point was moved to [base] and everything
    buffered was discarded. *)
Record repin (base : Z) (r r' : Resequencer) : Prop := mkRepin {
  rp_window : window r' = window r;
  rp_timeout : timeout r' = timeout r;
  rp_next : next r' = base;
  rp_ring : ring r' = replicate (length (ring r)) slot0;
  rp_buf : buf r' = 0;
  rp_held : held r' = [];
  rp_heldPos : heldPos r' = 0%nat;
  rp_waiting : waiting r' = false;
  rp_ready : ready r' = ready r;
  rp_readyPos : readyPos r' = readyPos r;
  rp_holdBound : holdBound r' = holdBound r;
  rp_closed : closed r' = closed r;
  rp_era : era r' = era r + 1;
  rp_log : log r' = log r
}.

Lemma replicate_slot0 n i c : replicate n slot0 !! i = Some c -> occupied c = false.
Proof. intros H. apply lookup_replicate in H as [-> _]. done. Qed.

Lemma repin_WF base r r' : WF r -> repin base r r' -> 0 <= base <= seq_bound -> WF r'.
Proof.
  intros H [] Hb. split.
  - rewrite rp_window0. apply H.
  - rewrite rp_ring0, length_replicate, rp_window0. apply H.
  - by rewrite rp_next0.
  - rewrite rp_ring0. intros i c Hi Ho. by rewrite (replicate_slot0 _ _ _ Hi) in Ho.
  - by rewrite rp_ring0, rp_buf0, count_replicate.
  - rewrite rp_ring0. intros i c Hi Ho. by rewrite (replicate_slot0 _ _ _ Hi) in Ho.
  - rewrite rp_heldPos0. lia.
  - rewrite rp_ready0, rp_readyPos0. apply H.
Qed.

Lemma repin_live base r r' s : repin base r r' -> live r' s = false.
Proof.
  intros []. unfold live, cell. rewrite rp_ring0.
  destruct (_ !! _) as [c|] eqn:E; [|done]. cbn. by rewrite (replicate_slot0 _ _ _ E).
Qed.

Lemma repin_timed base now r r' : repin base r r' -> 0 <= holdBound r <= timeout r -> Timed now r'.
Proof.
  intros [] Hh. split; rewrite ?rp_ring0, ?rp_held0, ?rp_heldPos0, ?rp_waiting0, ?rp_holdBound0, ?rp_timeout0; try done.
  - intros i c Hi Ho. by rewrite (replicate_slot0 _ _ _ Hi) in Ho.
  - intros s Hs. by apply elem_of_nil in Hs.
Qed.

Lemma resync_repin base now r : repin base r (resync base now r).
Proof.
  unfold resync, resyncReset.
  match goal with |- context [endHoldLocked now ?x] => set (r0 := x) end.
  destruct (endHoldLocked_quiet now r0) as ([] & E1 & E2 & E3).
  split; cbn; rewrite ?qt_window0, ?qt_timeout0, ?qt_next0, ?qt_ring0, ?qt_buf0, ?qt_ready0,
    ?qt_readyPos0, ?qt_holdBound0, ?qt_closed0, ?qt_era0, ?qt_log0, ?E1, ?E2, ?E3; done.
Qed.

Lemma tryResync_ok s now r :
  let '(r', ok) := tryResync s now r in
  if ok then repin s r r' /\ started r' = started r else quiet r r' /\ steady r r'.
Proof.
  unfold tryResync. destruct (_ || _); [done|]. destruct (runContains s r); [done|].
  match goal with |- context [resync s now ?x] => set (r0 := x) end.
  assert (Q : quiet r r0 /\ steady r r0).
  { subst r0. destruct (s <? resyncLo r); cbn; destruct (_ <? s); done. }
  destruct (_ <? _)%nat; [done|].
  destruct Q as [[] []]. destruct (resync_repin s now r0). split; [split|]; try congruence.
  unfold resync, resyncReset. cbn.
  match goal with |- context [endHoldLocked now ?x] => set (r1 := x) end.
  destruct (endHoldLocked_quiet now r1) as ([] & _). by rewrite qt_started1.
Qed.

(** ** Admission *)

(** What [admitSeq] leaves when it accepts: the window contains the frame, and the
    state is either the old one with its release point advanced or a re-pinned
    one.  Only an unadvanced state can already hold the frame. *)
Record admitted (s : Z) (r r' : Resequencer) : Prop := mkAdmitted {
  ad_wf : WF r';
  ad_window : next r' <= s < next r' + window r';
  ad_started : started r' = started r;
  ad_cases :
    (quiet r r' /\ steady r r') \/
    (moves r r' /\ waiting r' = false /\ held r' = held r /\ heldPos r' = heldPos r /\
       live r' s = false) \/
    repin s r r'
}.

Lemma admit_ok s now r :
  Stable r -> 0 <= s < seq_bound ->
  let '(r', ok) := admitSeq s now r in
  if ok then admitted s r r' else quiet r r' /\ steady r r'.
Proof.
  intros [H Hl] Hs. pose proof (wf_window _ H) as Hw. pose proof (wf_next _ H) as Hn.
  unfold admitSeq, seq_bound in *.
  assert (Hpin : let '(r', ok) := tryResync s now r in
     if ok then admitted s r r' else quiet r (r' <| dropSuspect := u64 (dropSuspect r' + 1) |>)
       /\ steady r (r' <| dropSuspect := u64 (dropSuspect r' + 1) |>)).
  { pose proof (tryResync_ok s now r) as T. destruct (tryResync s now r) as [r' [|]].
    - destruct T as [P Hst]. pose proof (repin_WF s r r' H P ltac:(unfold seq_bound; lia)).
      split; try done; [|by right; right].
      rewrite (rp_next _ _ _ P), (rp_window _ _ _ P). lia.
    - destruct T as [[] []]. split; split; cbn; congruence. }
  destruct (Z.ltb_spec s (next r)) as [Hlt|Hge].
  { destruct (_ <? _); [|done]. destruct (tryResync s now r) as [r' [|]]; done. }
  rewrite !u64_small by (unfold resyncFactor; lia).
  destruct (Z.leb_spec (resyncFactor * window r) (s - next r)) as [Hfar|Hnear].
  { destruct (tryResync s now r) as [r' [|]]; done. }
  change (window (resyncReset r)) with (window r). change (next (resyncReset r)) with (next r).
  rewrite !u64_small by lia.
  assert (H0 : WF (resyncReset r)) by (apply (quiet_WF r); [done|exact H|done|apply H]).
  destruct (Z.leb_spec (window r) (s - next r)) as [Hfwd|Hin].
  - pose proof (endHoldLocked_quiet now (resyncReset r)) as (Q & E1 & E2 & E3).
    destruct (advanceTo_ok (u64 (s - window r + 1)) _ (endHoldLocked_WF now _ H0)) as (H1 & M & S & E).
    { rewrite (qt_next _ _ Q), u64_small by lia. change (next (resyncReset r)) with (next r).
      unfold seq_bound. lia. }
    rewrite u64_small in * by lia.
    change (window (resyncReset r)) with (window r).
    set (r' := advanceTo _ _) in *.
    assert (M' : moves r r').
    { eapply moves_trans; [|exact M]. apply quiet_moves. eapply quiet_trans; [|exact Q]. done. }
    assert (Ew : window r' = window r) by apply M'.
    split; try done.
    + rewrite E, Ew. lia.
    + rewrite (mv_started _ _ M'). done.
    + right; left. rewrite (st_waiting _ _ S), (st_held _ _ S), (st_heldPos _ _ S).
      split_and!; try done. destruct (live r' s) eqn:El; [|done].
      destruct (moves_live r r' s H1 M' El) as [El' _].
      pose proof (live_range r H s El'). lia.
  - split; try done; cbn; [lia|]. by left.
Qed.

(** ** Tracking accepted frames

    [tracked r x]: the frame [x] has been released or is buffered. *)
Definition buffered_as (r : Resequencer) (x : Released) : Prop :=
  rel_era x = era r /\
  exists i c, ring r !! i = Some c /\ occupied c = true /\ seq c = rel_seq x /\
    rel_item x = mkItem (payload c) (src c).
Definition tracked (r : Resequencer) (x : Released) : Prop := x ∈ log r \/ buffered_as r x.

Lemma moves_tracked r r' x : moves r r' -> tracked r' x <-> tracked r x.
Proof.
  intros M. destruct (mv_log _ _ M) as (e & L & _ & _ & F & S & _). unfold tracked. rewrite L.
  rewrite Forall_forall in F. unfold buffered_as. rewrite (mv_era _ _ M). split.
  - intros [Hin|(E & i & c & Hi & Ho & Hs & Hp)].
    + apply elem_of_app in Hin as [|Hin]; [by left|]. right. by apply F.
    + right. split; [done|]. exists i, c. split_and!; try done. by apply (mv_stays _ _ M).
  - intros [Hin|(E & i & c & Hi & Ho & Hs & Hp)]; [left; apply elem_of_app; by left|].
    destruct (S i c Hi Ho) as [Hi'|Hin].
    + right. split; [done|]. eauto 10.
    + left. apply elem_of_app. right. destruct x; cbn in *. by subst.
Qed.

Lemma repin_tracked base r r' x : repin base r r' -> tracked r' x -> tracked r x.
Proof.
  intros [] [Hin|(E & i & c & Hi & Ho & _)]; [left; by rewrite rp_log0 in Hin|].
  rewrite rp_ring0 in Hi. by rewrite (replicate_slot0 _ _ _ Hi) in Ho.
Qed.

(** ** The order of releases *)
Definition rel_lt (x y : Released) : Prop :=
  rel_era x < rel_era y \/ (rel_era x = rel_era y /\ rel_seq x < rel_seq y).

Record Logged (r : Resequencer) : Prop := mkLogged {
  lg_sorted : StronglySorted rel_lt (log r);
  lg_past : forall x, x ∈ log r ->
    rel_era x < era r \/ (rel_era x = era r /\ rel_seq x < next r)
}.

Lemma ascending_sorted lo (l : list Released) hi e :
  ascending lo (map rel_seq l) hi -> Forall (fun x => rel_era x = e) l -> StronglySorted rel_lt l.
Proof.
  revert lo. induction l as [|x l IH]; intros lo A F; constructor.
  - destruct A as [_ A]. inversion F. eauto.
  - rewrite Forall_forall. intros y Hy. right. inversion F as [|? ? Ex Fl]; subst.
    rewrite Forall_forall in Fl. split; [by rewrite (Fl y Hy)|]. destruct A as [_ A].
    assert (Hin : rel_seq y ∈ map rel_seq l) by (apply list_elem_of_fmap; eauto).
    pose proof (ascending_elem _ _ _ _ A Hin). lia.
Qed.

Lemma moves_logged r r' : Logged r -> moves r r' -> Logged r'.
Proof.
  intros [] M. destruct (mv_log _ _ M) as (e & L & _ & A & F & _).
  assert (Fe : Forall (fun x => rel_era x = era r) e)
    by (eapply Forall_impl; [exact F|]; intros x [? _]; done).
  assert (Hin : forall x, x ∈ e -> next r <= rel_seq x < next r')
    by (intros x Hx; apply (ascending_elem _ _ _ _ A), list_elem_of_fmap; eauto).
  rewrite Forall_forall in Fe. pose proof (moves_next _ _ M).
  split; rewrite L.
  - apply StronglySorted_app_2; [|done|by eapply ascending_sorted, Forall_forall].
    intros x y Hx Hy. specialize (lg_past0 x Hx). specialize (Hin y Hy). specialize (Fe y Hy).
    unfold rel_lt. lia.
  - intros x Hx. rewrite (mv_era _ _ M). apply elem_of_app in Hx as [Hx|Hx].
    + specialize (lg_past0 x Hx). lia.
    + specialize (Hin x Hx). specialize (Fe x Hx). lia.
Qed.

Lemma repin_logged base r r' : Logged r -> repin base r r' -> Logged r'.
Proof.
  intros [] []. split; rewrite ?rp_log0, ?rp_era0; [done|].
  intros x Hx. specialize (lg_past0 x Hx). lia.
Qed.

(** ** Placing an admitted frame

    [placed]: the state with the frame in its cell and, behind a gap, in the
    held list. *)
Definition held_after (s : Z) (r : Resequencer) : list Z :=
  if s =? next r then held r else held r ++ [s].
Definition placed (now : Time) (s : Z) (pl : list Z) (from : AddrPort) (r : Resequencer) :
    Resequencer :=
  r <| ring := <[idx r s := mkSlot s from pl now true]> (ring r) |>
    <| buf := buf r + 1 |> <| held := held_after s r |>.

Section Place.
Context (now : Time) (s : Z) (pl : list Z) (from : AddrPort) (r : Resequencer).
Context (H : WF r) (Hs : next r <= s < next r + window r) (Hb : s < seq_bound).
Context (Hnl : live r s = false).

#[local] Notation c0 := (mkSlot s from pl now true).
#[local] Notation after := (placed now s pl from r).

(** The cell of an admitted frame is free: another sequence of the window never
    shares it. *)
Lemma target_free : occupied (cell r s) = false.
Proof.
  destruct (occupied (cell r s)) eqn:Ho; [|done]. exfalso.
  destruct (wf_cell _ H _ _ (cell_lookup r H s) Ho) as (Ei & Hr & _).
  unfold live in Hnl. rewrite Ho in Hnl. cbn in Hnl. apply Z.eqb_neq in Hnl.
  pose proof (wf_window _ H) as Hw. unfold idx in Ei.
  pose proof (Z.mod_pos_bound s (window r) ltac:(lia)).
  pose proof (Z.mod_pos_bound (seq (cell r s)) (window r) ltac:(lia)).
  apply Z2Nat.inj in Ei; [|lia..]. set (d := seq (cell r s)) in *.
  pose proof (Z.div_mod s (window r) ltac:(lia)). pose proof (Z.div_mod d (window r) ltac:(lia)).
  assert (s / window r = d / window r) by nia. lia.
Qed.

Lemma put_lookup i c :
  ring after !! i = Some c -> occupied c = true ->
  (i = idx r s /\ c = c0) \/ (i <> idx r s /\ ring r !! i = Some c).
Proof.
  change (ring after) with (<[idx r s := c0]> (ring r)).
  intros Hi Ho. destruct (decide (i = idx r s)) as [->|Hne].
  - rewrite list_lookup_insert_eq in Hi by apply idx_lt, H. left. by injection Hi as <-.
  - rewrite list_lookup_insert_ne in Hi by done. by right.
Qed.

Lemma put_WF : WF after.
Proof.
  pose proof target_free as Hf. split; try apply H.
  - cbn. rewrite length_insert. apply H.
  - intros i c Hi Ho. destruct (put_lookup i c Hi Ho) as [[-> ->]|[_ Hi']]; [done|].
    destruct (wf_cell _ H i c Hi' Ho) as (? & ?). done.
  - cbn. rewrite (count_insert occupied _ _ _ _ (cell_lookup r H s)), Hf, (wf_buf _ H). cbn. lia.
  - intros i c Hi Ho. change (held after) with (held_after s r). change (heldPos after) with (heldPos r).
    change (next after) with (next r). unfold held_after.
    destruct (put_lookup i c Hi Ho) as [[-> ->]|[_ Hi']]; cbn [seq].
    + destruct (Z.eqb_spec s (next r)); [by left|]. right.
      rewrite drop_app_le by apply H. apply elem_of_app. right. by apply list_elem_of_singleton.
    + destruct (wf_held _ H i c Hi' Ho) as [|Hin]; [by left|]. right.
      destruct (s =? next r); [done|]. rewrite drop_app_le by apply H. apply elem_of_app. by left.
  - cbn. unfold held_after. pose proof (wf_heldPos _ H). destruct (s =? next r); [lia|].
    rewrite length_app. cbn. lia.
Qed.

Lemma put_tracked x :
  tracked after x <-> tracked r x \/ x = mkReleased (era r) s (mkItem pl from).
Proof.
  pose proof target_free as Hf. unfold tracked, buffered_as. cbn [placed log era update]. split.
  - intros [?|(E & i & c & Hi & Ho & Es & Ep)]; [by left; left|].
    destruct (put_lookup i c Hi Ho) as [[-> ->]|[_ Hi']].
    + right. destruct x; cbn in *. by subst.
    + left. right. split; [done|]. eauto 10.
  - intros [[?|(E & i & c & Hi & Ho & Es & Ep)]| ->]; [by left| |]; right.
    + split; [done|]. exists i, c. split_and!; try done.
      change (ring after) with (<[idx r s := c0]> (ring r)).
      rewrite list_lookup_insert_ne; [done|]. intros <-.
      rewrite (cell_lookup r H s) in Hi. congruence.
    + split; [done|]. exists (idx r s), c0. split_and!; try done.
      by apply list_lookup_insert_eq, idx_lt.
Qed.

Lemma put_live_other a : a <> s -> live after a = live r a /\
  (live r a = true -> cell after a = cell r a).
Proof.
  intros Hne. pose proof target_free as Hf. unfold live, cell.
  change (ring after) with (<[idx r s := c0]> (ring r)). change (idx after) with (idx r).
  destruct (decide (idx r a = idx r s)) as [E|E].
  - rewrite E, list_lookup_insert_eq by apply idx_lt, H. cbn.
    unfold cell in Hf. rewrite Hf. cbn. split; [by apply Z.eqb_neq|done].
  - rewrite list_lookup_insert_ne by done. done.
Qed.

Lemma put_live_self : live after s = true /\ cell after s = c0.
Proof.
  assert (E : cell after s = c0).
  { unfold cell. change (ring after) with (<[idx r s := c0]> (ring r)).
    change (idx after) with (idx r). by rewrite list_lookup_insert_eq by apply idx_lt, H. }
  split; [|done]. unfold live. rewrite E. cbn. apply Z.eqb_refl.
Qed.

Lemma put_timed :
  Timed now r -> (waiting r = true -> s <> next r -> deadline r <= now + timeout r) ->
  Timed now after.
Proof.
  intros [] Hd. pose proof put_live_self as [Hls Ecs].
  assert (Hne : forall a, a ∈ drop (heldPos r) (held r) -> a <> s).
  { intros a Ha ->. destruct (tm_stale0 s Ha); [congruence|lia]. }
  assert (Hsort : obs_sorted after (drop (heldPos r) (held r))).
  { eapply obs_sorted_mono; [|exact tm_order0]. intros a Ha Hl.
    destruct (put_live_other a (Hne a Ha)) as [E1 E2]. rewrite E1 in Hl. by rewrite E2. }
  assert (Hst : forall a, a ∈ drop (heldPos r) (held r) -> live after a = true \/ a < next r).
  { intros a Ha. rewrite (proj1 (put_live_other a (Hne a Ha))). by apply tm_stale0. }
  assert (Eh : drop (heldPos r) (held_after s r) = drop (heldPos r) (held r) \/
               drop (heldPos r) (held_after s r) = drop (heldPos r) (held r) ++ [s]).
  { unfold held_after. destruct (s =? next r); [by left|right]. by rewrite drop_app_le by apply H. }
  split; try done.
  - intros i c Hi Ho. destruct (put_lookup i c Hi Ho) as [[-> ->]|[_ Hi']]; [cbn; lia|eauto].
  - change (heldPos after) with (heldPos r). change (held after) with (held_after s r).
    destruct Eh as [->| ->]; [done|].
    apply obs_sorted_snoc; [done|]. intros a Ha Hl. rewrite Ecs. cbn [observedAt].
    pose proof (put_live_other a (Hne a Ha)) as [E1 E2]. rewrite E1 in Hl. rewrite E2 by done.
    destruct (live_true _ _ Hl) as [Ho _]. by apply (tm_obs0 _ _ (cell_lookup r H a)).
  - change (heldPos after) with (heldPos r). change (held after) with (held_after s r).
    change (next after) with (next r).
    destruct Eh as [->| ->]; [done|].
    intros a Ha. apply elem_of_app in Ha as [Ha|Ha]; [by apply Hst|].
    apply list_elem_of_singleton in Ha as ->. by left.
  - intros Hw i c Hi Ho. change (next after) with (next r).
    change (deadline after) with (deadline r). change (timeout after) with (timeout r).
    destruct (put_lookup i c Hi Ho) as [[-> ->]|[_ Hi']]; cbn [seq observedAt]; eauto.
Qed.

Lemma place_ok :
  exists r', place now s pl from r = Some (r', true) /\ moves after r' /\ Stable r' /\
    waiting r' = (0 <? buf r') /\
    (Timed now r -> (waiting r = true -> s <> next r -> deadline r <= now + timeout r) ->
      Timed now r').
Proof.
  unfold place. fold (live r s). rewrite Hnl.
  set (r1 := r <| ring := _ |> <| buf := _ |>).
  set (r2 := if negb _ then _ else _).
  assert (E2 : r2 = after).
  { subst r2 r1. unfold placed, held_after. cbn. by destruct (s =? next r). }
  set (r3 := if highWater r2 <? buf r2 then _ else _).
  assert (Q3 : quiet r2 r3 /\ steady r2 r3) by (subst r3; by destruct (_ <? _)).
  set (r4 := if waiting r && _ then _ else _).
  assert (Q4 : quiet r2 r4 /\ held r4 = held r2 /\ heldPos r4 = heldPos r2 /\
    (steady r2 r4 \/ waiting r4 = false)).
  { destruct Q3 as [Q3 S3]. subst r4. destruct (waiting r && _).
    - set (r3' := r3 <| gapFills := _ |>). destruct (endHoldLocked_quiet now r3') as (Q & F1 & F2 & F3).
      rewrite F1, F2. destruct S3. split_and!; try done; [|by right].
      eapply quiet_trans; [exact Q3|]. eapply quiet_trans; [|exact Q]. done.
    - destruct S3. split_and!; try done. by left. }
  destruct Q4 as (Q4 & F1 & F2 & F3).
  assert (H2 : WF r2) by (rewrite E2; apply put_WF).
  assert (H4 : WF r4).
  { eapply quiet_WF; [exact Q4|done|by rewrite F1, F2|]. rewrite F1, F2. apply H2. }
  destruct (drain_ok r4 H4) as (H5 & M5 & S5 & L5).
  destruct (arm_ok now (drain r4) H5 L5) as (r' & -> & Q6 & H6 & W6 & T6).
  exists r'. rewrite <- E2. split_and!; try done.
  - eapply moves_trans; [apply quiet_moves, Q4|]. eapply moves_trans; [exact M5|]. by apply quiet_moves.
  - split; [done|]. by rewrite (quiet_live _ _ _ Q6), (qt_next _ _ Q6).
  - by rewrite W6, (qt_buf _ _ Q6).
  - intros T Hd. apply T6. apply (steady_timed now now r4); try done.
    pose proof (put_timed T Hd) as T2. rewrite <- E2 in T2.
    destruct F3 as [S|W].
    + apply (steady_timed now now r2); try done. by apply quiet_moves.
    + by apply (quiet_timed now r2).
Qed.

End Place.

(** ** The invariant of a resequencer in use *)
Record Inv (r : Resequencer) : Prop := mkInv {
  inv_stable : Stable r;
  inv_logged : Logged r;
  inv_fresh : started r = false ->
    buf r = 0 /\ log r = [] /\ held r = [] /\ waiting r = false;
  inv_open : closed r = false -> waiting r = (0 <? buf r);
  inv_waiting : waiting r = true -> 0 < buf r
}.

Lemma expire_idle now r : waiting r = false -> expire now r = Some r.
Proof. intros E. unfold expire, expire_loop. by rewrite E. Qed.

Lemma expire_inv now r :
  Inv r ->
  exists r', expire now r = Some r' /\ moves r r' /\ Inv r' /\
    (waiting r' = true -> now < deadline r') /\ (Timed now r -> Timed now r').
Proof.
  intros []. destruct (expire_ok now r inv_stable0) as (r' & E & M & S & D & W & T).
  exists r'. split_and!; try done. split; try done.
  - by eapply moves_logged.
  - rewrite (mv_started _ _ M). intros Hst. destruct (inv_fresh0 Hst) as (? & ? & ? & Ew).
    rewrite (expire_idle now r Ew) in E. by injection E as <-.
  - rewrite (mv_closed _ _ M). auto.
  - intros Hw. destruct (waiting r) eqn:Ew.
    + rewrite W in Hw; [by apply Z.ltb_lt|]. symmetry. apply Z.ltb_lt. auto.
    + rewrite (expire_idle now r Ew) in E. injection E as <-. congruence.
Qed.

(** Pinning the release point at the first frame. *)
Definition start (s : Z) (r : Resequencer) : Resequencer :=
  if negb (started r) then r <| started := true |> <| next := s |> else r.

Lemma start_ok s r :
  Inv r -> 0 <= s < seq_bound ->
  Inv (start s r) /\ era (start s r) = era r /\ timeout (start s r) = timeout r /\
  (forall x, tracked (start s r) x <-> tracked r x) /\
  (forall now, Timed now r -> Timed now (start s r)).
Proof.
  intros I Hs. unfold start. destruct (started r) eqn:Hst; cbn [negb]; [by split_and!|].
  destruct I as [[H _] [] Hf Ho Hw]. destruct (Hf Hst) as (Hb & Hlog & Hh & Hwt).
  assert (Hno : forall i c, ring r !! i = Some c -> occupied c = false).
  { apply count_zero. by rewrite <- (wf_buf _ H). }
  assert (Hnl : forall x, live r x = false).
  { intros x. unfold live. by rewrite (Hno _ _ (cell_lookup r H x)). }
  split_and!; try done.
  - split; try done.
    + split; [|apply Hnl]. split; try apply H; cbn; [unfold seq_bound in *; lia|..].
      * intros i c Hi Hc. by rewrite (Hno _ _ Hi) in Hc.
      * intros i c Hi Hc. by rewrite (Hno _ _ Hi) in Hc.
    + split; cbn; rewrite Hlog; [constructor|]. intros x Hx. by apply elem_of_nil in Hx.
  - intros now []. split; cbn; rewrite ?Hh, ?drop_nil, ?Hwt; try done.
    intros x Hx. by apply elem_of_nil in Hx.
Qed.

(** ** [Observe] *)
Definition frame (r : Resequencer) (s : Z) (pl : list Z) (from : AddrPort) : Released :=
  mkReleased (era r) s (mkItem pl from).

(** Releases go to the back of the FIFO and of the log together. *)
Definition fifo_grows (r r' : Resequencer) : Prop :=
  readyPos r' = readyPos r /\
  exists ext, log r' = log r ++ ext /\ ready r' = ready r ++ map rel_item ext.

Lemma fifo_refl r r' :
  readyPos r' = readyPos r -> log r' = log r -> ready r' = ready r -> fifo_grows r r'.
Proof. intros ? E1 E2. split; [done|]. exists []. by rewrite E1, E2, !app_nil_r. Qed.

Lemma fifo_trans a b c : fifo_grows a b -> fifo_grows b c -> fifo_grows a c.
Proof.
  intros [E1 (e1 & L1 & R1)] [E2 (e2 & L2 & R2)]. split; [congruence|]. exists (e1 ++ e2).
  by rewrite L2, L1, R2, R1, map_app, !app_assoc.
Qed.

Lemma moves_fifo r r' : moves r r' -> fifo_grows r r'.
Proof.
  intros M. split; [apply M|]. destruct (mv_log _ _ M) as (e & L & R & _). by exists e.
Qed.

(** Released and skipped sequences against the release point. *)
Definition account (r : Resequencer) : Z := u64 (releasedN r + skipped r - next r).

(** What [Observe] does to the frames it tracks. *)
Record observed (s : Z) (pl : list Z) (from : AddrPort) (b : bool) (r r' : Resequencer) : Prop :=
  mkObserved {
  ob_window : window r' = window r;
  ob_timeout : timeout r' = timeout r;
  ob_closed : closed r' = closed r;
  ob_started : started r' = true;
  ob_era : era r' = era r \/ era r' = era r + 1;
  ob_new : b = true -> tracked r' (frame r' s pl from);
  ob_from : forall x, tracked r' x -> tracked r x \/ (b = true /\ x = frame r' s pl from);
  ob_kept : forall x, tracked r x -> tracked r' x \/ era r' = era r + 1;
  ob_fresh : b = true -> forall x, tracked r x -> rel_era x = era r' -> rel_seq x <> s;
  ob_fifo : fifo_grows r r';
  ob_account : era r' = era r -> started r = true -> account r' = account r
}.

Lemma deadline_bound now r :
  Inv r -> Timed now r -> waiting r = true -> deadline r <= now + timeout r.
Proof.
  intros [[H Hl] _ _ _ Hw] [] W. specialize (Hw W). rewrite (wf_buf _ H) in Hw.
  destruct (count_pos_inv occupied (ring r) Hw) as (i & c & Hi & Ho).
  specialize (tm_obs0 i c Hi Ho).
  assert (seq c <> next r).
  { intros E. pose proof (live_of_lookup r H i c Hi Ho). congruence. }
  specialize (tm_deadline0 W i c Hi Ho ltac:(done)). lia.
Qed.

Lemma quiet_inv r r' : quiet r r' -> steady r r' -> Inv r -> Inv r'.
Proof.
  intros Q St [[H Hl] Lg Hf Ho Hw].
  assert (H' : WF r').
  { eapply quiet_WF; [done|done| |]; rewrite (st_held _ _ St), (st_heldPos _ _ St); [done|apply H]. }
  split.
  - split; [done|]. by rewrite (quiet_live _ _ _ Q), (qt_next _ _ Q).
  - eapply moves_logged; [exact Lg|by apply quiet_moves].
  - rewrite (qt_started _ _ Q), (qt_buf _ _ Q), (qt_log _ _ Q), (st_held _ _ St), (st_waiting _ _ St). done.
  - rewrite (qt_closed _ _ Q), (qt_buf _ _ Q), (st_waiting _ _ St). done.
  - rewrite (qt_buf _ _ Q), (st_waiting _ _ St). done.
Qed.

Lemma place_inv now s pl from r :
  WF r -> Logged r -> started r = true -> next r <= s < next r + window r -> s < seq_bound ->
  live r s = false ->
  exists r', place now s pl from r = Some (r', true) /\ Inv r' /\ window r' = window r /\
    timeout r' = timeout r /\ closed r' = closed r /\ started r' = true /\
    era r' = era r /\ (forall x, tracked r' x <-> tracked r x \/ x = frame r s pl from) /\
    fifo_grows r r' /\ account r' = account r /\
    (Timed now r -> (waiting r = true -> deadline r <= now + timeout r) -> Timed now r').
Proof.
  intros H Lg Hst Hw Hb Hnl.
  destruct (place_ok now s pl from r H Hw Hb Hnl) as (r' & E & M & S & W & T).
  exists r'. split_and!; try done.
  - split; try done.
    + eapply moves_logged; [|exact M]. destruct Lg. split; done.
    + rewrite (mv_started _ _ M). cbn. congruence.
    + rewrite W. apply Z.ltb_lt.
  - by rewrite (mv_window _ _ M).
  - by rewrite (mv_timeout _ _ M).
  - by rewrite (mv_closed _ _ M).
  - by rewrite (mv_started _ _ M).
  - by rewrite (mv_era _ _ M).
  - intros x. rewrite (moves_tracked _ _ x M). by apply put_tracked.
  - eapply fifo_trans; [|by apply moves_fifo]. by apply fifo_refl.
  - apply (mv_account _ _ M).
  - auto.
Qed.

(** The frame was dropped: the state only moved. *)
Lemma observed_drop s pl from r r1 r' :
  (forall x, tracked r1 x <-> tracked r x) -> fifo_grows r r1 ->
  window r1 = window r -> timeout r1 = timeout r -> closed r1 = closed r -> started r1 = true ->
  era r1 = era r -> (started r = true -> account r1 = account r) -> moves r1 r' -> observed s pl from false r r'.
Proof.
  intros K F Ew Et Ec Es Ee Ea M. split.
  - by rewrite (mv_window _ _ M).
  - by rewrite (mv_timeout _ _ M).
  - by rewrite (mv_closed _ _ M).
  - by rewrite (mv_started _ _ M).
  - left. by rewrite (mv_era _ _ M).
  - done.
  - intros x Hx. left. apply K. by apply (moves_tracked _ _ x M).
  - intros x Hx. left. apply (moves_tracked _ _ x M). by apply K.
  - done.
  - eapply fifo_trans; [done|by apply moves_fifo].
  - intros _ Hst. rewrite <- (Ea Hst). apply (mv_account _ _ M).
Qed.

(** The frame was placed in the state [r2] that admission left. *)
Lemma tracked_era r x : Logged r -> tracked r x -> rel_era x <= era r.
Proof. intros [_ Hp] [Hin|[E _]]; [specialize (Hp x Hin)|]; lia. Qed.

Lemma tracked_fresh r s x :
  WF r -> Logged r -> next r <= s -> live r s = false -> tracked r x -> rel_era x = era r ->
  rel_seq x <> s.
Proof.
  intros H [_ Hp] Hn Hl [Hin|(E & i & c & Hi & Ho & Es & _)] Ee.
  - specialize (Hp x Hin). lia.
  - rewrite <- Es. intros <-. pose proof (live_of_lookup r H i c Hi Ho). congruence.
Qed.

Lemma observed_place now s pl from r r2 :
  Logged r -> WF r2 -> Logged r2 -> started r2 = true -> next r2 <= s < next r2 + window r2 ->
  s < seq_bound -> live r2 s = false ->
  window r2 = window r -> timeout r2 = timeout r -> closed r2 = closed r -> fifo_grows r r2 ->
  (forall x, tracked r2 x -> tracked r x) ->
  (era r2 = era r + 1 \/
   era r2 = era r /\ (forall x, tracked r x -> tracked r2 x) /\
   (started r = true -> account r2 = account r)) ->
  (Timed now r -> Timed now r2 /\ (waiting r2 = true -> deadline r2 <= now + timeout r2)) ->
  exists r' b, place now s pl from r2 = Some (r', b) /\ Inv r' /\ observed s pl from b r r' /\
    (Timed now r -> Timed now r').
Proof.
  intros L0 H2 L2 St2 Hw2 Hb Hl Ew Et Ec F K Hcase T.
  destruct (place_inv now s pl from r2) as (r' & E & I' & W' & T1 & C' & St' & E' & K' & F' & A' & T'); try done.
  exists r', true. split_and!; try done; [|intros Tr; destruct (T Tr); auto].
  split; try congruence.
  - rewrite E'. destruct Hcase as [|[? _]]; auto.
  - intros _. apply K'. right. unfold frame. by rewrite E'.
  - intros x Hx. apply K' in Hx as [Hx| ->]; [left; by apply K|]. right. unfold frame. by rewrite E'.
  - intros x Hx. destruct Hcase as [|(? & Kf & _)]; [right; congruence|].
    left. apply K'. left. by apply Kf.
  - intros _ x Hx Ex. pose proof (tracked_era r x L0 Hx).
    destruct Hcase as [|(Ee & Kf & _)]; [lia|]. apply (tracked_fresh r2 s x); auto; [lia|congruence].
  - by eapply fifo_trans.
  - intros Ee Hst. destruct Hcase as [|(? & _ & Ac)]; [lia|]. rewrite A'. auto.
Qed.

Lemma observe_ok now s pl from r :
  Inv r -> 0 <= s < seq_bound ->
  exists r' b, Observe now s pl from r = Some (r', b) /\ Inv r' /\ observed s pl from b r r' /\
    (Timed now r -> Timed now r').
Proof.
  intros I Hs. destruct (start_ok s r I Hs) as (I0 & E0 & Et0 & K0 & T0).
  assert (Z0 : started (start s r) = true /\ window (start s r) = window r /\
    closed (start s r) = closed r /\ fifo_grows r (start s r) /\
    (started r = true -> account (start s r) = account r)).
  { unfold start. destruct (started r) eqn:?; cbn [negb]; split_and!; try done; by apply fifo_refl. }
  destruct Z0 as (St0 & W0 & C0 & F0 & A0).
  unfold Observe. fold (start s r).
  destruct (expire_inv now _ I0) as (r1 & -> & M1 & I1 & D1 & T1).
  pose proof (admit_ok s now r1 (inv_stable _ I1) Hs) as A.
  assert (K1 : forall x, tracked r1 x <-> tracked r x)
    by (intros x; by rewrite (moves_tracked _ _ x M1)).
  assert (E1 : era r1 = era r) by (rewrite (mv_era _ _ M1); done).
  assert (W1 : window r1 = window r) by (rewrite (mv_window _ _ M1); done).
  assert (Tm1 : timeout r1 = timeout r) by (rewrite (mv_timeout _ _ M1); done).
  assert (C1 : closed r1 = closed r) by (rewrite (mv_closed _ _ M1); done).
  assert (F1 : fifo_grows r r1) by (eapply fifo_trans; [done|by apply moves_fifo]).
  assert (A1 : started r = true -> account r1 = account r)
    by (intros; rewrite <- A0 by done; apply (mv_account _ _ M1)).
  pose proof (sb_wf _ (inv_stable _ I1)) as H1.
  assert (Hdrop : forall r', quiet r1 r' -> steady r1 r' ->
    Inv r' /\ observed s pl from false r r' /\ (Timed now r -> Timed now r')).
  { intros r' Q S. pose proof (quiet_inv _ _ Q S I1) as I2. split_and!; [done| |].
    - eapply observed_drop, quiet_moves; try done. by rewrite (mv_started _ _ M1).
    - intros T. apply (steady_timed now now r1); auto using quiet_moves with lia.
      apply (inv_stable _ I2). }
  destruct (admitSeq s now r1) as [r2 [|]]; cbn [negb].
  2: { destruct A as [Q S]. exists r2, false. split; [done|]. by apply Hdrop. }
  destruct A as [H2 Hw2 St2 A].
  assert (St2' : started r2 = true) by (rewrite St2, (mv_started _ _ M1); done).
  destruct A as [[Q S]|[(M & F & Eh & Ehp & Hnl)|P]].
  - pose proof (quiet_inv _ _ Q S I1) as I2. pose proof (quiet_moves _ _ Q) as M2.
    destruct (live r2 s) eqn:Hl.
    { unfold place. fold (live r2 s). rewrite Hl. eexists _, false. split; [done|].
      destruct Q, S. apply Hdrop; split; done. }
    apply observed_place; try done; try (etransitivity; [apply M2|done]); [apply I|apply I2|lia|..].
    + eapply fifo_trans; [done|by apply moves_fifo].
    + intros x Hx. apply K1. by apply (moves_tracked _ _ x M2).
    + right. split_and!; [rewrite (qt_era _ _ Q); done| |].
      * intros x Hx. apply (moves_tracked _ _ x M2). by apply K1.
      * intros Hst. rewrite <- A1 by done. apply (mv_account _ _ M2).
    + intros T. split.
      * apply (steady_timed now now r1); auto with lia.
      * rewrite (st_waiting _ _ S), (st_deadline _ _ S), (qt_timeout _ _ Q).
        apply deadline_bound; auto.
  - apply observed_place; try done; try (etransitivity; [apply M|done]);
      [apply I|by eapply moves_logged; [apply I1|]|lia|..].
    + eapply fifo_trans; [done|by apply moves_fifo].
    + intros x Hx. apply K1. by apply (moves_tracked _ _ x M).
    + right. split_and!; [rewrite (mv_era _ _ M); done| |].
      * intros x Hx. apply (moves_tracked _ _ x M). by apply K1.
      * intros Hst. rewrite <- A1 by done. apply (mv_account _ _ M).
    + intros T. split; [|by rewrite F]. apply (moves_timed now now r1); auto with lia.
  - apply observed_place; try done; try (etransitivity; [apply P|done]);
      [apply I|by eapply repin_logged; [apply I1|]|lia|by eapply repin_live|..].
    + eapply fifo_trans; [done|]. by apply fifo_refl; apply P.
    + intros x Hx. apply K1. by eapply repin_tracked.
    + left. rewrite (rp_era _ _ _ P). congruence.
    + intros T. split; [|by rewrite (rp_waiting _ _ _ P)]. eapply repin_timed; [done|].
      apply (tm_hold now). auto.
Qed.

(** ** The other operations *)

(** [delivers popped r]: what was popped and what waits in the FIFO is what was
    released, in the order of release. *)
Definition delivers (popped : list Item) (r : Resequencer) : Prop :=
  map rel_item (log r) = popped ++ drop (readyPos r) (ready r).

Lemma fifo_delivers popped r r' :
  (readyPos r <= length (ready r))%nat -> fifo_grows r r' -> delivers popped r -> delivers popped r'.
Proof.
  intros Hp [E (e & L & R)] D. unfold delivers. rewrite L, E, R, map_app, D, drop_app_le by done.
  by rewrite app_assoc.
Qed.

Lemma reready_inv x y r :
  (y <= length x)%nat -> Inv r -> Inv (r <| ready := x |> <| readyPos := y |>).
Proof.
  intros Hy [[[] Hl] [] ? ? ?]. split; done.
Qed.

Lemma reready_timed x y now r : Timed now r -> Timed now (r <| ready := x |> <| readyPos := y |>).
Proof. intros []. split; try done. eapply obs_sorted_mono; [|exact tm_order0]. done. Qed.

(** [Pop] hands out the head of the FIFO after giving up every hold that is due. *)
Lemma pop_ok now popped r :
  Inv r -> delivers popped r ->
  exists r1 r' it, Pop now r = Some (r', it) /\ moves r r1 /\
    (exists x y, r' = r1 <| ready := x |> <| readyPos := y |>) /\
    Inv r' /\ delivers (popped ++ option_list it) r' /\
    (waiting r' = true -> now < deadline r') /\ (Timed now r -> Timed now r').
Proof.
  intros I D. unfold Pop. destruct (expire_inv now r I) as (r1 & -> & M & I1 & W & T).
  exists r1. assert (D1 : delivers popped r1).
  { eapply fifo_delivers; [|by apply moves_fifo|done]. apply (sb_wf _ (inv_stable _ I)). }
  destruct (ready r1 !! readyPos r1) as [it|] eqn:E.
  2: { exists r1, None. split_and!; try done; [by exists (ready r1), (readyPos r1); destruct r1|].
       cbn. by rewrite app_nil_r. }
  set (rd := <[readyPos r1 := Item0]> (ready r1)).
  pose proof (lookup_lt_Some _ _ _ E) as Hlt.
  assert (Hd : drop (S (readyPos r1)) rd = drop (S (readyPos r1)) (ready r1))
    by (apply drop_insert_lt; lia).
  assert (D2 : map rel_item (log r1) = (popped ++ [it]) ++ drop (S (readyPos r1)) rd).
  { rewrite D1, Hd, <- app_assoc. cbn. by rewrite (drop_S _ _ _ E). }
  set (r2 := r1 <| ready := _ |> <| readyPos := _ |>).
  change (length (ready r2)) with (length rd). change (readyPos r2) with (S (readyPos r1)).
  destruct (Nat.leb_spec (length rd) (S (readyPos r1))) as [Hle|Hgt].
  - exists (r1 <| ready := [] |> <| readyPos := 0%nat |>), (Some it).
    split_and!; try done; [by eexists _, _|by apply reready_inv| |by intros; apply reready_timed, T].
    unfold delivers. cbn. rewrite D2, (drop_ge rd) by done. done.
  - exists (r1 <| ready := rd |> <| readyPos := S (readyPos r1) |>), (Some it).
    split_and!; try done; [by eexists _, _|apply reready_inv; [lia|done]|by intros; apply reready_timed, T].
Qed.

Lemma rebaseline_ok now n popped r :
  Inv r -> 0 < n <= seq_bound -> delivers popped r ->
  exists r', RebaselineAt now n r = Some r' /\ Inv r' /\ repin n r r' /\ delivers popped r'.
Proof.
  intros I Hn D. unfold RebaselineAt. destruct (Z.eqb_spec n 0); [lia|].
  eexists. split; [done|].
  match goal with |- context [endHoldLocked now ?x] => set (r0 := x) end.
  destruct (endHoldLocked_quiet now r0) as (Q & E1 & E2 & E3).
  match goal with |- Inv (notifyLocked ?x) /\ _ => set (r1 := x) end.
  destruct (notifyLocked_quiet r1) as [Q2 S2].
  assert (P : repin n r (notifyLocked r1)).
  { destruct Q, Q2, S2. split; [..|].
    all: rewrite ?st_held0, ?st_heldPos0, ?st_waiting0, ?qt_window1, ?qt_timeout1, ?qt_next1, ?qt_ring1,
      ?qt_buf1, ?qt_ready1, ?qt_readyPos1, ?qt_holdBound1, ?qt_closed1, ?qt_era1, ?qt_log1; cbn.
    all: rewrite ?E1, ?E2, ?E3, ?qt_window0, ?qt_timeout0, ?qt_next0, ?qt_ring0,
      ?qt_buf0, ?qt_ready0, ?qt_readyPos0, ?qt_holdBound0, ?qt_closed0, ?qt_era0, ?qt_log0; done. }
  split_and!; [|done|].
  - split.
    + split; [|by eapply repin_live]. eapply repin_WF; [apply I|done|lia].
    + eapply repin_logged; [apply I|done].
    + rewrite (qt_started _ _ Q2). cbn. by rewrite (qt_started _ _ Q).
    + intros _. by rewrite (rp_waiting _ _ _ P), (rp_buf _ _ _ P).
    + by rewrite (rp_waiting _ _ _ P).
  - unfold delivers. by rewrite (rp_log _ _ _ P), (rp_ready _ _ _ P), (rp_readyPos _ _ _ P).
Qed.

(** [Close], [SetNotifier] and [SetHoldBound] leave what is buffered and
    released alone. *)
Lemma close_ok now r : Inv r -> Inv (Close now r) /\ quiet (r <| closed := true |>) (Close now r).
Proof.
  intros I. unfold Close. destruct (closed r) eqn:Ec; cbn [negb].
  { split; [done|]. destruct r; cbn in Ec; subst; done. }
  set (r0 := r <| closed := true |>).
  destruct (endHoldLocked_quiet now r0) as (Q & E1 & E2 & E3).
  destruct (notifyLocked_quiet (endHoldLocked now r0)) as [Q2 S2].
  pose proof (quiet_trans _ _ _ Q Q2) as Q3. split; [|done].
  destruct I as [[H Hl] Lg Hf Ho Hw].
  assert (H0 : WF r0) by (destruct H; split; done).
  assert (E : waiting (notifyLocked (endHoldLocked now r0)) = false) by (rewrite (st_waiting _ _ S2); done).
  split.
  - split; [|by rewrite (quiet_live _ _ _ Q3), (qt_next _ _ Q3)].
    eapply quiet_WF; [exact Q3|done| |]; rewrite (st_held _ _ S2), (st_heldPos _ _ S2), E1, E2; [done|apply H0].
  - destruct Lg. split; rewrite ?(qt_log _ _ Q3), ?(qt_era _ _ Q3), ?(qt_next _ _ Q3); done.
  - rewrite (qt_started _ _ Q3), (qt_buf _ _ Q3), (qt_log _ _ Q3), (st_held _ _ S2), E1, E.
    cbn. intros Hst. destruct (Hf Hst) as (? & ? & ? & ?). done.
  - by rewrite (qt_closed _ _ Q3).
  - by rewrite E.
Qed.

(** ** Runs of operations

    A run is any sequence of calls; it collects the frames [Observe] accepted
    and the items [Pop] handed out. *)
Inductive op :=
  | OObserve (now : Time) (s : Z) (pl : list Z) (from : AddrPort)
  | OPop (now : Time)
  | ORebaselineAt (now : Time) (n : Z)
  | OSetHoldBound (d : Duration)
  | OSetNotifier (installed : bool)
  | OClose (now : Time).

Definition op_ok (o : op) : Prop :=
  match o with
  | OObserve _ s _ _ => 0 <= s < seq_bound
  | ORebaselineAt _ n => 0 < n < seq_bound
  | _ => True
  end.

Definition exec (o : op) (r : Resequencer) : option (Resequencer * list Released * list Item) :=
  match o with
  | OObserve now s pl from =>
    match Observe now s pl from r with
    | Some (r', true) => Some (r', [frame r' s pl from], [])
    | Some (r', false) => Some (r', [], [])
    | None => None
    end
  | OPop now =>
    match Pop now r with Some (r', it) => Some (r', [], option_list it) | None => None end
  | ORebaselineAt now n =>
    match RebaselineAt now n r with Some r' => Some (r', [], []) | None => None end
  | OSetHoldBound d => Some (SetHoldBound d r, [], [])
  | OSetNotifier b => Some (SetNotifier b r, [], [])
  | OClose now => Some (Close now r, [], [])
  end.

Fixpoint run (ops : list op) (r : Resequencer) : option (Resequencer * list Released * list Item) :=
  match ops with
  | [] => Some (r, [], [])
  | o :: ops =>
    match exec o r with
    | None => None
    | Some (r, a, p) =>
      match run ops r with None => None | Some (r, a', p') => Some (r, a ++ a', p ++ p') end
    end
  end.

Definition key (x : Released) : Z * Z := (rel_era x, rel_seq x).

Record Session (r : Resequencer) (acc : list Released) (outs : list Item) : Prop := mkSession {
  ss_inv : Inv r;
  ss_delivers : delivers outs r;
  ss_from : forall x, tracked r x -> x ∈ acc;
  ss_kept : forall x, x ∈ acc -> tracked r x \/ rel_era x < era r;
  ss_past : forall x, x ∈ acc -> rel_era x <= era r;
  ss_once : NoDup (map key acc)
}.

(** A step that accepts nothing and keeps the tracked frames of its era. *)
Lemma session_step r r' acc outs outs' :
  Session r acc outs -> Inv r' -> delivers outs' r' -> era r <= era r' ->
  (forall x, tracked r' x -> tracked r x) ->
  (forall x, tracked r x -> tracked r' x \/ era r < era r') -> Session r' acc outs'.
Proof.
  intros [I D F K P O] I' D' He F' K'. split; auto.
  - intros x Hx. specialize (P x Hx). destruct (K x Hx) as [Hk|]; [|right; lia].
    destruct (K' x Hk); [by left|right; lia].
  - intros x Hx. specialize (P x Hx). lia.
Qed.

Lemma session_accept r r' acc outs s pl from :
  Session r acc outs -> Inv r' -> observed s pl from true r r' ->
  Session r' (acc ++ [frame r' s pl from]) outs.
Proof.
  intros [I D F K P O] I' B. destruct B. split.
  - done.
  - eapply fifo_delivers; [apply (sb_wf _ (inv_stable _ I))|done|done].
  - intros x Hx. apply elem_of_app. destruct (ob_from0 x Hx) as [|[_ ->]]; [left; auto|right].
    by apply list_elem_of_singleton.
  - intros x Hx. apply elem_of_app in Hx as [Hx|Hx].
    + specialize (P x Hx). destruct (K x Hx) as [Hk|]; [|right; lia].
      destruct (ob_kept0 x Hk); [by left|right; lia].
    + apply list_elem_of_singleton in Hx as ->. left. auto.
  - intros x Hx. apply elem_of_app in Hx as [Hx|Hx]; [specialize (P x Hx); lia|].
    apply list_elem_of_singleton in Hx as ->. cbn. lia.
  - rewrite map_app. apply NoDup_app. split_and!; [done| |apply NoDup_singleton].
    intros k Hk Hk'. apply list_elem_of_fmap in Hk as (x & -> & Hx).
    apply list_elem_of_singleton in Hk'. injection Hk' as E1 E2.
    destruct (K x Hx) as [Ht|]; [|lia]. by apply (ob_fresh0 eq_refl x Ht).
Qed.

Lemma configure_inv d b r : Inv r -> Inv (r <| holdBound := d |> <| notify := b |>).
Proof. intros [[[] ?] [] ? ? ?]. split; done. Qed.

Lemma configure_session d b r acc outs :
  Session r acc outs -> Session (r <| holdBound := d |> <| notify := b |>) acc outs.
Proof. intros [I D F K P O]. split; try done. by apply configure_inv. Qed.

Lemma close_session now r acc outs : Session r acc outs -> Session (Close now r) acc outs.
Proof.
  intros S. destruct (close_ok now r (ss_inv _ _ _ S)) as [I Q].
  apply (session_step r _ acc outs outs); auto.
  - unfold delivers. rewrite (qt_log _ _ Q), (qt_ready _ _ Q), (qt_readyPos _ _ Q). apply S.
  - by rewrite (qt_era _ _ Q).
  - intros x Hx. by apply (moves_tracked _ _ x (quiet_moves _ _ Q)) in Hx.
  - intros x Hx. left. by apply (moves_tracked _ _ x (quiet_moves _ _ Q)).
Qed.

Lemma exec_session o r acc outs :
  op_ok o -> Session r acc outs ->
  exists r' a p, exec o r = Some (r', a, p) /\ window r' = window r /\ Session r' (acc ++ a) (outs ++ p).
Proof.
  intros Ho S. pose proof (ss_inv _ _ _ S) as I. destruct o as [now s pl from|now|now n|d|b|now]; cbn in *.
  - destruct (observe_ok now s pl from r I Ho) as (r' & b & -> & I' & B & _). pose proof (ob_window _ _ _ _ _ _ B).
    destruct b.
    + eexists r', _, _. split_and!; try done. rewrite app_nil_r. by apply session_accept with r.
    + eexists r', [], []. split_and!; try done. rewrite !app_nil_r.
      destruct B. apply (session_step r r' acc outs outs); auto.
      * eapply fifo_delivers; [apply (sb_wf _ (inv_stable _ I))|done|apply S].
      * lia.
      * intros x Hx. by destruct (ob_from0 x Hx) as [|[? _]].
      * intros x Hx. destruct (ob_kept0 x Hx); [by left|right; lia].
  - destruct (pop_ok now outs r I (ss_delivers _ _ _ S)) as (r1 & r' & it & -> & M & (x & y & ->) & I' & D & _).
    eexists _, [], _. split_and!; try done; [by rewrite <- (mv_window _ _ M)|]. rewrite app_nil_r.
    eapply session_step; [exact S|done|done|cbn; by rewrite (mv_era _ _ M)|..].
    + intros z Hz. by apply (moves_tracked _ _ z M).
    + intros z Hz. left. by apply (moves_tracked _ _ z M) in Hz.
  - destruct (rebaseline_ok now n outs r I ltac:(lia) (ss_delivers _ _ _ S)) as (r' & -> & I' & P & D).
    eexists r', [], []. split_and!; try done; [by rewrite (rp_window _ _ _ P)|]. rewrite !app_nil_r.
    apply (session_step r r' acc outs outs); auto; rewrite ?(rp_era _ _ _ P); [lia| |].
    + intros x. by apply repin_tracked with n.
    + intros x Hx. right. lia.
  - eexists _, [], []. split_and!; [done|done|]. rewrite !app_nil_r.
    exact (configure_session _ (notify r) r acc outs S).
  - eexists _, [], []. split_and!; [done|done|]. rewrite !app_nil_r.
    exact (configure_session (holdBound r) b r acc outs S).
  - eexists _, [], []. split_and!; [done| |rewrite !app_nil_r; by apply close_session].
    destruct (close_ok now r I) as [_ Q]. by rewrite (qt_window _ _ Q).
Qed.

Lemma run_session ops r acc outs :
  Forall op_ok ops -> Session r acc outs ->
  exists r' a p, run ops r = Some (r', a, p) /\ window r' = window r /\ Session r' (acc ++ a) (outs ++ p).
Proof.
  intros Ho. revert r acc outs. induction Ho as [|o ops Hok _ IH]; intros r acc outs S; cbn [run].
  { exists r, [], []. by rewrite !app_nil_r. }
  destruct (exec_session o r acc outs Hok S) as (r1 & a1 & p1 & -> & W1 & S1).
  destruct (IH r1 _ _ S1) as (r2 & a2 & p2 & -> & W2 & S2).
  eexists _, _, _. split_and!; [done|congruence|]. by rewrite !app_assoc.
Qed.

Lemma new_session w t :
  0 < w <= 2 ^ 61 -> exists r0, New w t = Some r0 /\ window r0 = w /\ Session r0 [] [].
Proof.
  intros Hw. unfold New. destruct (Z.eqb_spec w 0); [lia|]. eexists. split_and!; [done|done|].
  set (r0 := mkResequencer _ _ _ _ _ _ _ _ _ _ _ _ _ _ _ _ _ _ _ _ _ _ _ _ _ _ _ _ _ _ _ _ _ _ _ _).
  assert (Hr : forall i c, ring r0 !! i = Some c -> occupied c = false)
    by (intros i c; apply replicate_slot0).
  assert (H : WF r0).
  { split; try done; cbn.
    - by rewrite length_replicate.
    - intros i c Hi Ho. by rewrite (Hr i c Hi) in Ho.
    - by rewrite count_replicate.
    - intros i c Hi Ho. by rewrite (Hr i c Hi) in Ho. }
  assert (Hnt : forall x, ~ tracked r0 x).
  { intros x [Hx|(_ & i & c & Hi & Ho & _)]; [by apply elem_of_nil in Hx|].
    by rewrite (Hr i c Hi) in Ho. }
  split; try done.
  - split; try done.
    + split; [done|]. unfold live. by rewrite (Hr _ _ (cell_lookup r0 H (next r0))).
    + split; [constructor|]. intros x Hx. by apply elem_of_nil in Hx.
  - intros x Hx. by destruct (Hnt x).
  - intros x Hx. by apply elem_of_nil in Hx.
  - intros x Hx. by apply elem_of_nil in Hx.
  - constructor.
Qed.

(** ** Time bounds over a run *)
Definition op_time (t0 : Time) (o : op) : Time :=
  match o with
  | OObserve now _ _ _ | OPop now | ORebaselineAt now _ | OClose now => now
  | _ => t0
  end.
Definition is_close (o : op) : bool := match o with OClose _ => true | _ => false end.

(** The clock readings of a run do not go back, and the run does not close. *)
Fixpoint clocked (t0 : Time) (ops : list op) (t1 : Time) : Prop :=
  match ops with
  | [] => t0 <= t1
  | o :: ops => t0 <= op_time t0 o /\ is_close o = false /\ clocked (op_time t0 o) ops t1
  end.

Lemma timed_mono t t' r : t <= t' -> Timed t r -> Timed t' r.
Proof. intros Hle []. split; try done. intros i c Hi Ho. specialize (tm_obs0 i c Hi Ho). lia. Qed.

Lemma exec_timed o t0 r acc outs r' a p :
  op_ok o -> Session r acc outs -> 0 <= timeout r -> closed r = false ->
  is_close o = false -> t0 <= op_time t0 o ->
  Timed t0 r -> exec o r = Some (r', a, p) ->
  Timed (op_time t0 o) r' /\ timeout r' = timeout r /\ closed r' = false.
Proof.
  intros Ho S Ht Hc Hcl Hle T E. pose proof (timed_mono _ _ _ Hle T) as T'.
  pose proof (ss_inv _ _ _ S) as I. pose proof (ss_delivers _ _ _ S) as D.
  destruct o as [now s pl from|now|now n|d|b|now]; cbn in *; try done.
  - destruct (observe_ok now s pl from r I Ho) as (r1 & b & E1 & I' & B & Tm). rewrite E1 in E.
    destruct B. destruct b; injection E as <- <- <-; split_and!; auto; congruence.
  - destruct (pop_ok now outs r I D) as (r1 & r2 & it & E1 & M & (x & y & ->) & _ & _ & _ & Tm).
    rewrite E1 in E. injection E as <- <- <-.
    split_and!; [auto|apply (mv_timeout _ _ M)|cbn; rewrite (mv_closed _ _ M); done].
  - destruct (rebaseline_ok now n outs r I ltac:(lia) D) as (r1 & E1 & I' & P & _).
    rewrite E1 in E. injection E as <- <- <-.
    split_and!; [|apply P|rewrite (rp_closed _ _ _ P); done].
    eapply repin_timed; [done|]. apply T.
  - injection E as <- <- <-. split_and!; try done. destruct T'. split; try done.
    + eapply obs_sorted_mono; [|exact tm_order0]. done.
    + cbn. unfold holdBoundFloor, millisecond. repeat case_match; lia.
  - injection E as <- <- <-. split_and!; try done. destruct T'. split; try done.
    eapply obs_sorted_mono; [|exact tm_order0]. done.
Qed.

Lemma run_timed ops t0 t1 r acc outs r' a p :
  Forall op_ok ops -> Session r acc outs -> 0 <= timeout r -> closed r = false ->
  clocked t0 ops t1 -> Timed t0 r -> run ops r = Some (r', a, p) ->
  Timed t1 r' /\ timeout r' = timeout r /\ closed r' = false.
Proof.
  intros Ho. revert t0 r acc outs a p. induction Ho as [|o ops Hok _ IH];
    intros t0 r acc outs a p S Ht Hc Hclk T E; cbn in *.
  { injection E as <- <- <-. split_and!; try done. by eapply timed_mono. }
  destruct Hclk as (Hle & Hcl & Hclk).
  destruct (exec_session o r acc outs Hok S) as (r1 & a1 & p1 & E1 & _ & S1). rewrite E1 in E.
  destruct (exec_timed o t0 r acc outs r1 a1 p1) as (T1 & Ht1 & Hc1); try done.
  destruct (run ops r1) as [[[r2 a2] p2]|] eqn:E2; [|done]. injection E as <- <- <-.
  rewrite <- Ht1. eapply IH; try done. lia.
Qed.

(** ** The suspect band *)
Definition suspect (r : Resequencer) (s : Z) : bool :=
  ((s <? next r) && (window r <? next r - s)) ||
  ((next r <=? s) && (resyncFactor * window r <=? s - next r)).

(** No hold is due at [now]. *)
Definition not_due (now : Time) (r : Resequencer) : bool := negb (waiting r) || (now <? deadline r).

Lemma expire_not_due now r : not_due now r = true -> expire now r = Some r.
Proof.
  unfold not_due, expire. cbn [expire_loop]. destruct (waiting r); [|done].
  cbn. by intros ->.
Qed.

Lemma observe_suspect now s pl from r :
  WF r -> started r = true -> not_due now r = true -> 0 <= s < seq_bound -> suspect r s = true ->
  Observe now s pl from r =
    let '(r1, ok) := tryResync s now r in
    if ok then place now s pl from r1
    else Some (r1 <| dropSuspect := u64 (dropSuspect r1 + 1) |>, false).
Proof.
  intros H Hst Hd Hs Hsus. unfold Observe. rewrite Hst. cbn [negb].
  rewrite (expire_not_due now r Hd). unfold admitSeq, suspect, seq_bound in *.
  pose proof (wf_window _ H). pose proof (wf_next _ H). unfold seq_bound in *.
  destruct (Z.ltb_spec s (next r)).
  - rewrite u64_small by lia. rewrite (proj2 (Z.leb_gt (next r) s)) in Hsus by lia.
    rewrite andb_false_l, orb_false_r in Hsus. rewrite andb_true_l in Hsus. rewrite Hsus.
    by destruct (tryResync s now r) as [r1 [|]].
  - rewrite !u64_small by (unfold resyncFactor; lia).
    rewrite (proj2 (Z.leb_le (next r) s)) in Hsus by lia. cbn [andb orb] in Hsus. rewrite Hsus.
    by destruct (tryResync s now r) as [r1 [|]].
Qed.

(** ** Runs of suspects *)

(** [harmless s r]: the corroboration run cannot be completed by more copies of
    [s] alone. *)
Definition harmless (s : Z) (r : Resequencer) : Prop :=
  (length (resyncSeqs r) <= 1)%nat \/ s ∈ resyncSeqs r.

Lemma runContains_spec s r : runContains s r = true <-> s ∈ resyncSeqs r.
Proof.
  unfold runContains. rewrite existsb_exists. setoid_rewrite Z.eqb_eq. split.
  - intros (x & Hx & ->). by apply list_elem_of_In.
  - intros Hx. exists s. split; [by apply list_elem_of_In|done].
Qed.

Lemma tryResync_harmless s now r :
  harmless s r -> exists r', tryResync s now r = (r', false) /\ harmless s r'.
Proof.
  intros Hh. unfold tryResync. destruct (_ || _) eqn:E0.
  { eexists. split; [done|]. by left. }
  destruct (runContains s r) eqn:Ec.
  { exists r. split; [done|]. by right; apply runContains_spec. }
  destruct Hh as [Hl|Hin]; [|apply runContains_spec in Hin; congruence].
  match goal with |- context [resync s now ?x] => set (r0 := x) end.
  assert (Er : resyncSeqs r0 = resyncSeqs r ++ [s]).
  { subst r0. destruct (s <? resyncLo r); cbn; by destruct (_ <? s). }
  assert (Hlt : (length (resyncSeqs r0) <? resyncCorroborate)%nat = true).
  { apply Nat.ltb_lt. rewrite Er, length_app. unfold resyncCorroborate. cbn. lia. }
  rewrite Hlt. eexists. split; [done|]. right. rewrite Er. apply elem_of_app. right.
  by apply list_elem_of_singleton.
Qed.

Lemma quiet_suspect r r' s : quiet r r' -> suspect r' s = suspect r s.
Proof. intros []. unfold suspect. by rewrite qt_next0, qt_window0. Qed.

Lemma steady_not_due r r' now : steady r r' -> not_due now r' = not_due now r.
Proof. intros []. unfold not_due. by rewrite st_waiting0, st_deadline0. Qed.

Lemma observe_harmless now s pl from r :
  Inv r -> started r = true -> not_due now r = true -> 0 <= s < seq_bound ->
  suspect r s = true -> harmless s r ->
  exists r', Observe now s pl from r = Some (r', false) /\ quiet r r' /\ steady r r' /\
    Inv r' /\ harmless s r'.
Proof.
  intros I Hst Hd Hs Hsus Hh. pose proof (sb_wf _ (inv_stable _ I)) as H.
  rewrite observe_suspect by done. pose proof (tryResync_ok s now r) as T.
  destruct (tryResync_harmless s now r Hh) as (r1 & E1 & H1). rewrite E1 in *.
  destruct T as [Q S].
  assert (Q' : quiet r (r1 <| dropSuspect := u64 (dropSuspect r1 + 1) |>))
    by (destruct Q; split; cbn; congruence).
  assert (S' : steady r (r1 <| dropSuspect := u64 (dropSuspect r1 + 1) |>))
    by (destruct S; split; cbn; congruence).
  eexists. split_and!; try done. by eapply quiet_inv.
Qed.

Lemma replay_run nows s pl from r :
  Inv r -> started r = true -> 0 <= s < seq_bound -> suspect r s = true -> harmless s r ->
  Forall (fun now => not_due now r = true) nows ->
  exists r', run (map (fun now => OObserve now s pl from) nows) r = Some (r', [], []) /\
    quiet r r' /\ steady r r'.
Proof.
  intros I Hst Hs Hsus Hh Hd. revert r I Hst Hsus Hh Hd.
  induction nows as [|now nows IH]; intros r I Hst Hsus Hh Hd; cbn [map run].
  { by exists r. }
  inversion Hd as [|? ? Hd0 Hds]; subst.
  destruct (observe_harmless now s pl from r) as (r1 & E1 & Q1 & S1 & I1 & H1); try done.
  cbn [exec]. rewrite E1.
  destruct (IH r1) as (r2 & E2 & Q2 & S2); try done.
  - by rewrite (qt_started _ _ Q1).
  - by rewrite (quiet_suspect _ _ _ Q1).
  - eapply Forall_impl; [exact Hds|]. intros x. cbn. by rewrite (steady_not_due _ _ x S1).
  - rewrite E2. exists r2. split_and!; [done|by eapply quiet_trans|by eapply steady_trans].
Qed.

(** A third distinct suspect within one window of the first two re-pins. *)
Lemma tryResync_first s now r :
  resyncSeqs r = [] ->
  tryResync s now r = (r <| resyncLo := s |> <| resyncHi := s |> <| resyncSeqs := [s] |>, false).
Proof. intros E. unfold tryResync. by rewrite E. Qed.

Lemma tryResync_second s1 s2 now r :
  resyncSeqs r = [s1] -> resyncLo r = s1 -> resyncHi r = s1 -> s1 <> s2 ->
  0 <= s1 < seq_bound -> 0 <= s2 < seq_bound -> Z.abs (s1 - s2) < window r ->
  exists r', tryResync s2 now r = (r', false) /\ resyncSeqs r' = [s1; s2] /\
    resyncLo r' = Z.min s1 s2 /\ resyncHi r' = Z.max s1 s2.
Proof.
  intros E El Eh Hne H1 H2 Hw. unfold seq_bound in *.
  unfold tryResync, spanExceeds, runContains. rewrite E, El, Eh. cbn [length existsb].
  rewrite (proj2 (Z.eqb_neq s2 s1)) by done.
  set (b := _ <=? _). assert (Hb : b = false).
  { subst b. apply Z.leb_gt. destruct (Z.ltb_spec s2 s1), (Z.ltb_spec s1 s2);
      rewrite u64_small by lia; lia. }
  rewrite Hb. cbn [Nat.eqb orb].
  destruct (Z.ltb_spec s2 s1); cbn [resyncHi update]; cbn; rewrite ?Eh;
    destruct (Z.ltb_spec s1 s2); try lia; cbn; rewrite ?E; cbn;
    (eexists; split; [reflexivity|]); cbn; rewrite ?El, ?Eh, ?E; split_and!; try done; lia.
Qed.

Lemma tryResync_third s1 s2 s3 now r :
  resyncSeqs r = [s1; s2] -> resyncLo r = Z.min s1 s2 -> resyncHi r = Z.max s1 s2 ->
  s1 <> s3 -> s2 <> s3 ->
  0 <= s1 < seq_bound -> 0 <= s2 < seq_bound -> 0 <= s3 < seq_bound ->
  Z.max s1 (Z.max s2 s3) - Z.min s1 (Z.min s2 s3) < window r ->
  snd (tryResync s3 now r) = true.
Proof.
  intros E El Eh H13 H23 H1 H2 H3 Hw. unfold seq_bound in *.
  unfold tryResync, spanExceeds, runContains. rewrite E, El, Eh. cbn [length existsb].
  rewrite (proj2 (Z.eqb_neq s3 s1)), (proj2 (Z.eqb_neq s3 s2)) by done.
  set (b := _ <=? _). assert (Hb : b = false).
  { subst b. apply Z.leb_gt. destruct (Z.ltb_spec s3 (Z.min s1 s2)), (Z.ltb_spec (Z.max s1 s2) s3);
      rewrite u64_small by lia; lia. }
  rewrite Hb. clear b Hb. cbn [Nat.eqb orb]. set (r1 := if s3 <? _ then _ else r).
  assert (E1 : resyncSeqs r1 = [s1; s2]) by (subst r1; destruct (_ <? _); exact E).
  clearbody r1. set (r2 := if resyncHi r1 <? s3 then _ else r1).
  assert (E2 : resyncSeqs r2 = [s1; s2]) by (subst r2; destruct (_ <? _); exact E1).
  cbn. by rewrite E2.
Qed.

(** The frame a re-pin was made for is released at once. *)
Lemma place_at_head now s pl from r :
  WF r -> Logged r -> started r = true -> s = next r -> s < seq_bound -> live r s = false ->
  exists r', place now s pl from r = Some (r', true) /\ era r' = era r /\
    frame r s pl from ∈ log r' /\ s < next r'.
Proof.
  intros H Lg Hst -> Hb Hl. pose proof (wf_window _ H). pose proof (wf_next _ H).
  destruct (place_inv now (next r) pl from r) as (r' & E & I & _ & _ & _ & _ & Ee & K & _); try done; [lia|].
  destruct (place_ok now (next r) pl from r H ltac:(lia) Hb Hl) as (r'' & E' & M & _).
  rewrite E in E'. injection E' as <-.
  assert (Hge : next r <= next r') by apply (moves_next _ _ M).
  pose proof (inv_stable _ I) as [W' Hh].
  destruct (proj2 (K (frame r (next r) pl from)) (or_intror eq_refl)) as [Hin|(Ex & i & c & Hi & Ho & Es & _)].
  - exists r'. split_and!; try done. pose proof (lg_past _ (inv_logged _ I) _ Hin). cbn in *. lia.
  - exfalso. pose proof (live_of_lookup r' W' i c Hi Ho) as Hlv. rewrite Es in Hlv. cbn in Hlv.
    pose proof (live_range r' W' _ Hlv). assert (En : next r' = next r) by lia. congruence.
Qed.

(** ** Accounting over a run *)
Lemma rebaseline_started now n r r' : RebaselineAt now n r = Some r' -> started r' = true.
Proof.
  unfold RebaselineAt. destruct (n =? 0); [done|]. intros [= <-].
  match goal with |- context [endHoldLocked now ?x] => set (r0 := x) end.
  destruct (endHoldLocked_quiet now r0) as (Q & _).
  match goal with |- context [notifyLocked ?x] => set (r1 := x) end.
  destruct (notifyLocked_quiet r1) as [Q1 _]. rewrite (qt_started _ _ Q1).
  exact (qt_started _ _ Q).
Qed.

Lemma exec_account o r acc outs r' a p :
  op_ok o -> Session r acc outs -> exec o r = Some (r', a, p) ->
  era r <= era r' /\ (started r = true -> started r' = true) /\
  (started r = true -> era r' = era r -> account r' = account r).
Proof.
  intros Ho S E. pose proof (ss_inv _ _ _ S) as I. pose proof (ss_delivers _ _ _ S) as D.
  destruct o as [now s pl from|now|now n|d|b|now]; cbn in *; try (injection E as <- <- <-; done).
  - destruct (observe_ok now s pl from r I Ho) as (r1 & b & E1 & I' & [] & _). rewrite E1 in E.
    assert (Er : r1 = r') by (destruct b; by injection E). subst r1.
    split_and!; auto; lia.
  - destruct (pop_ok now outs r I D) as (r1 & r2 & it & E1 & M & (x & y & ->) & _).
    rewrite E1 in E. injection E as <- <- <-. cbn. rewrite (mv_era _ _ M), (mv_started _ _ M).
    split_and!; try done. intros _ _. apply (mv_account _ _ M).
  - destruct (rebaseline_ok now n outs r I ltac:(lia) D) as (r1 & E1 & I' & P & _).
    assert (Hst : started r1 = true) by (eapply rebaseline_started; exact E1).
    rewrite E1 in E. injection E as <- <- <-. rewrite (rp_era _ _ _ P).
    split_and!; [lia|done|lia].
  - injection E as <- <- <-. destruct (close_ok now r I) as [_ Q].
    rewrite (qt_era _ _ Q), (qt_started _ _ Q). split_and!; try done.
    intros _ _. apply (mv_account _ _ (quiet_moves _ _ Q)).
Qed.

Lemma run_account ops r acc outs r' a p :
  Forall op_ok ops -> Session r acc outs -> run ops r = Some (r', a, p) ->
  era r <= era r' /\ (started r = true -> era r' = era r -> account r' = account r).
Proof.
  intros Ho. revert r acc outs a p. induction Ho as [|o ops Hok _ IH]; intros r acc outs a p S E; cbn in *.
  { by injection E as <- <- <-. }
  destruct (exec_session o r acc outs Hok S) as (r1 & a1 & p1 & E1 & _ & S1). rewrite E1 in E.
  destruct (exec_account o r acc outs r1 a1 p1) as (L1 & St1 & A1); try done.
  destruct (run ops r1) as [[[r2 a2] p2]|] eqn:E2; [|done]. injection E as <- <- <-.
  destruct (IH r1 _ _ _ _ S1 E2) as (L2 & A2). split; [lia|].
  intros Hst Ee. rewrite A2, A1; auto; lia.
Qed.

(** From the third corroborating suspect the sender's new numbering is taken. *)
Lemma recover r s1 s2 s3 t1 t2 t3 pl from :
  Inv r -> started r = true -> resyncSeqs r = [] ->
  0 <= s1 < seq_bound -> 0 <= s2 < seq_bound -> 0 <= s3 < seq_bound ->
  s1 <> s2 -> s1 <> s3 -> s2 <> s3 ->
  suspect r s1 = true -> suspect r s2 = true -> suspect r s3 = true ->
  Z.max s1 (Z.max s2 s3) - Z.min s1 (Z.min s2 s3) < window r ->
  not_due t1 r = true -> not_due t2 r = true -> not_due t3 r = true ->
  exists ra rb r',
    Observe t1 s1 pl from r = Some (ra, false) /\
    Observe t2 s2 pl from ra = Some (rb, false) /\
    Observe t3 s3 pl from rb = Some (r', true) /\
    era r' = era r + 1 /\ mkReleased (era r') s3 (mkItem pl from) ∈ log r' /\ s3 < next r'.
Proof.
  intros I Hst Hr B1 B2 B3 N12 N13 N23 S1 S2 S3 Hspan D1 D2 D3.
  pose proof (sb_wf _ (inv_stable _ I)) as H.
  rewrite observe_suspect, tryResync_first by done.
  set (ra := r <| resyncLo := s1 |> <| resyncHi := s1 |> <| resyncSeqs := [s1] |>
               <| dropSuspect := u64 (dropSuspect r + 1) |>).
  assert (Qa : quiet r ra /\ steady r ra) by done. destruct Qa as [Qa Sa].
  pose proof (quiet_inv _ _ Qa Sa I) as Ia. pose proof (sb_wf _ (inv_stable _ Ia)) as Ha.
  destruct (tryResync_second s1 s2 t2 ra) as (rb0 & Eb & R1 & R2 & R3); try done; [cbn; lia|].
  pose proof (tryResync_ok s2 t2 ra) as Tb. rewrite Eb in Tb. destruct Tb as [Qb Sb].
  set (rb := rb0 <| dropSuspect := u64 (dropSuspect rb0 + 1) |>).
  assert (Qb' : quiet r rb) by (destruct Qa, Qb; split; cbn; congruence).
  assert (Sb' : steady r rb) by (destruct Sa, Sb; split; cbn; congruence).
  pose proof (quiet_inv _ _ Qb' Sb' I) as Ib. pose proof (sb_wf _ (inv_stable _ Ib)) as Hb.
  assert (Ec : snd (tryResync s3 t3 rb) = true).
  { apply (tryResync_third s1 s2); try done. rewrite (qt_window _ _ Qb'). done. }
  pose proof (tryResync_ok s3 t3 rb) as Tc.
  destruct (tryResync s3 t3 rb) as [rc ok] eqn:Et. cbn in Ec. subst ok. destruct Tc as [P Hsc].
  pose proof (repin_WF s3 rb rc Hb P ltac:(lia)) as Hc.
  destruct (place_at_head t3 s3 pl from rc) as (r' & Er & Ee & Hin & Hn); try done.
  - eapply repin_logged; [apply Ib|done].
  - by rewrite Hsc, (qt_started _ _ Qb').
  - symmetry. apply P.
  - apply B3.
  - by eapply repin_live.
  - exists ra, rb, r'. rewrite observe_suspect, Eb by (try done; by rewrite (quiet_suspect _ _ _ Qa)).
    rewrite observe_suspect, Et; try done.
    + split_and!; try done; rewrite ?Ee, ?(rp_era _ _ _ P), ?(qt_era _ _ Qb'); try done.
      unfold frame in Hin. by rewrite (rp_era _ _ _ P), (qt_era _ _ Qb') in Hin.
    + by rewrite (qt_started _ _ Qb').
    + by rewrite (steady_not_due _ _ _ Sb').
    + by rewrite (quiet_suspect _ _ _ Qb').
Qed.

Lemma run_from_new w t ops r0 r acc outs :
  0 < w <= 2 ^ 61 -> Forall op_ok ops -> New w t = Some r0 -> run ops r0 = Some (r, acc, outs) ->
  window r = w /\ Session r acc outs.
Proof.
  intros Hw Ho E0 E. destruct (new_session w t Hw) as (r0' & E0' & W0 & S0).
  rewrite E0 in E0'. injection E0' as <-.
  destruct (run_session ops r0 [] [] Ho S0) as (r' & acc' & outs' & E' & W' & S').
  rewrite E in E'. injection E' as <- <- <-. by rewrite W'.
Qed.

(** ** The guarantees *)

(** The calls in the range the theorem is about: sequences below 2^63, and the
    pin of [RebaselineAt], zero included, below 2^63 too. *)
Definition in_range (o : op) : Prop :=
  match o with OObserve _ s _ _ => 0 <= s < seq_bound | ORebaselineAt _ n => 0 <= n < seq_bound | _ => True end.

(** The one call that panics: [RebaselineAt(0)]. *)
Definition zero_pin (o : op) : bool := match o with ORebaselineAt _ n => n =? 0 | _ => false end.

Lemma in_range_ok o : in_range o -> zero_pin o = false -> op_ok o.
Proof. destruct o; cbn; intros; lia || done. Qed.

Lemma run_zero_pin ops : forall r acc outs,
  Forall in_range ops -> Session r acc outs -> run ops r = None <-> existsb zero_pin ops = true.
Proof.
  induction ops as [|o ops IH]; intros r acc outs Ho S; [done|]. apply Forall_cons in Ho as [H1 H2].
  cbn [run existsb]. destruct (zero_pin o) eqn:Z; cbn [orb].
  - destruct o; try done. cbn in *. unfold RebaselineAt. by rewrite Z.
  - destruct (exec_session o r acc outs (in_range_ok o H1 Z) S) as (r1 & a & p & -> & _ & S1).
    rewrite <- (IH r1 _ _ H2 S1). by destruct (run ops r1) as [[[? ?] ?]|].
Qed.

(** C1. Ordering and exactly-once.  A resequencer with a window of 1 to 2^61
    cells receives any calls, with sequences below 2^63 (a sender numbers from 1
    and cannot reach that bound; the ring arithmetic may wrap beyond it).  A call
    panics only when it is [RebaselineAt(0)], the panic the code documents.
    Without one the items are released strictly ascending in (era, sequence),
    where an era ends when the release point is re-pinned; what [Pop] handed out
    followed by what still waits in the FIFO is exactly what was released, in that
    order; [Observe] accepts a sequence at most once per era; every released item
    was accepted under its sequence; and an accepted frame is released, still
    buffered, or of an era a re-pin ended. *)
Theorem reseq_in_order_exactly_once w t ops :
  0 < w <= 2 ^ 61 -> Forall in_range ops ->
  exists r0, New w t = Some r0 /\ (run ops r0 = None <-> existsb zero_pin ops = true) /\
    forall r acc outs, run ops r0 = Some (r, acc, outs) ->
    StronglySorted rel_lt (log r) /\
    map rel_item (log r) = outs ++ drop (readyPos r) (ready r) /\
    NoDup (map key acc) /\
    (forall x, x ∈ log r -> x ∈ acc) /\
    (forall x, x ∈ acc -> x ∈ log r \/ buffered_as r x \/ rel_era x < era r).
Proof.
  intros Hw Ho. destruct (new_session w t Hw) as (r0 & E0 & _ & S0). exists r0.
  pose proof (run_zero_pin ops r0 [] [] Ho S0) as Hz. split_and!; [done|exact Hz|].
  intros r acc outs E. destruct (existsb zero_pin ops) eqn:Z.
  { by rewrite (proj2 Hz eq_refl) in E. }
  assert (Hok : Forall op_ok ops).
  { apply Forall_forall. intros o Hin. apply in_range_ok; [by apply (proj1 (Forall_forall _ _) Ho)|].
    destruct (zero_pin o) eqn:Zo; [|done]. rewrite <- Z. symmetry. apply existsb_exists.
    exists o. by rewrite <- list_elem_of_In. }
  destruct (run_session ops r0 [] [] Hok S0) as (r' & acc' & outs' & E' & _ & S).
  rewrite E in E'. injection E' as <- <- <-.
  destruct S as [[_ [] _ _ _] D F K P O]. split_and!; try done.
  - intros x Hx. apply F. by left.
  - intros x Hx. unfold tracked in K. specialize (K x Hx). tauto.
Qed.

Lemma reseq_in_order_exactly_once_witness :
  let ops := [OObserve 1 5 [7] AddrPort0; OObserve 2 7 [9] AddrPort0; OObserve 3 6 [8] AddrPort0; OPop 4] in
  exists r0, New 8 100 = Some r0 /\ (run ops r0 = None <-> existsb zero_pin ops = true) /\
    forall r acc outs, run ops r0 = Some (r, acc, outs) ->
    StronglySorted rel_lt (log r) /\
    map rel_item (log r) = outs ++ drop (readyPos r) (ready r) /\
    NoDup (map key acc) /\
    (forall x, x ∈ log r -> x ∈ acc) /\
    (forall x, x ∈ acc -> x ∈ log r \/ buffered_as r x \/ rel_era x < era r).
Proof.
  cbv zeta. apply (reseq_in_order_exactly_once 8 100); [lia|].
  repeat constructor; unfold seq_bound; cbn; lia.
Defined.

(** Bounded memory.  After any run the ring has its [window] cells and the
    number of buffered frames [Buffered] reports is the number of occupied cells,
    at most [window]. *)
Theorem reseq_bounded_memory w t ops r0 r acc outs :
  0 < w <= 2 ^ 61 -> Forall op_ok ops -> New w t = Some r0 -> run ops r0 = Some (r, acc, outs) ->
  Z.of_nat (length (ring r)) = w /\ Buffered r = count occupied (ring r) /\ 0 <= Buffered r <= w.
Proof.
  intros Hw Ho E0 E.
  destruct (run_from_new w t ops r0 r acc outs Hw Ho E0 E) as [W' S'].
  pose proof (sb_wf _ (inv_stable _ (ss_inv _ _ _ S'))) as H.
  pose proof (wf_ring _ H). pose proof (buf_bounds r H). pose proof (wf_buf _ H).
  unfold Buffered. split_and!; lia.
Qed.

Lemma reseq_bounded_memory_witness :
  exists r0 r acc outs, New 4 100 = Some r0 /\
    run [OObserve 1 5 [] AddrPort0; OObserve 2 8 [] AddrPort0; OObserve 3 20 [] AddrPort0] r0
      = Some (r, acc, outs) /\ Buffered r = 1 /\ 0 <= Buffered r <= 4.
Proof.
  eexists _, _, _, _. split; [reflexivity|]. split; [vm_compute; reflexivity|].
  split; [reflexivity|].
  eapply (reseq_bounded_memory 4 100
    [OObserve 1 5 [] AddrPort0; OObserve 2 8 [] AddrPort0; OObserve 3 20 [] AddrPort0]).
  - lia.
  - repeat constructor; unfold seq_bound; cbn; lia.
  - reflexivity.
  - vm_compute; reflexivity.
Defined.

(** C27. Bounded holding.  On a clock that does not go back, once [Pop] has
    looked at time [now] no frame left in the buffer of an open resequencer was
    observed [timeout] ago or earlier: a missing sequence delays its successors
    by less than [timeout] whatever gaps hide behind it. *)
Theorem reseq_hold_bound w t ops r0 r acc outs now :
  0 < w <= 2 ^ 61 -> 0 <= t -> Forall op_ok ops -> clocked 0 ops now ->
  New w t = Some r0 -> run ops r0 = Some (r, acc, outs) ->
  exists r' it, Pop now r = Some (r', it) /\
    forall i c, ring r' !! i = Some c -> occupied c = true -> now < observedAt c + t.
Proof.
  intros Hw Ht Ho Hclk E0 E. destruct (run_from_new w t [] r0 r0 [] [] Hw) as [_ S0]; try done.
  destruct (run_from_new w t ops r0 r acc outs Hw Ho E0 E) as [_ S'].
  assert (N : timeout r0 = t /\ closed r0 = false /\ Timed 0 r0).
  { unfold New in E0. destruct (w =? 0); [done|]. injection E0 as <-. split_and!; try done.
    split; try done. 
    - intros i c Hi Hc. by rewrite (replicate_slot0 _ _ _ Hi) in Hc.
    - intros s Hs. by apply elem_of_nil in Hs. }
  destruct N as (N1 & N2 & T0).
  destruct (run_timed ops 0 now r0 [] [] r acc outs) as (T & Et & Ec); try done; [lia|].
  pose proof (ss_inv _ _ _ S') as I.
  destruct (pop_ok now _ r I (ss_delivers _ _ _ S')) as (r1 & r2 & it & Ep & M & (x & y & ->) & I2 & _ & W & T2).
  eexists _, it. split; [exact Ep|]. intros i c Hi Hc. specialize (T2 T).
  pose proof (sb_wf _ (inv_stable _ I2)) as H2. set (r3 := r1 <| ready := x |> <| readyPos := y |>) in *.
  assert (Hb : 0 < buf r3) by (rewrite (wf_buf _ H2); by eapply count_pos).
  assert (Hw3 : waiting r3 = true).
  { rewrite (inv_open _ I2); [by apply Z.ltb_lt|]. cbn. by rewrite (mv_closed _ _ M). }
  assert (Hne : seq c <> next r3).
  { intros En. pose proof (live_of_lookup r3 H2 i c Hi Hc) as Hl. rewrite En in Hl.
    by rewrite (sb_head _ (inv_stable _ I2)) in Hl. }
  pose proof (tm_deadline _ _ T2 Hw3 i c Hi Hc Hne) as Hd. specialize (W Hw3).
  change (timeout r3) with (timeout r1) in Hd. rewrite (mv_timeout _ _ M) in Hd. lia.
Qed.

Lemma reseq_hold_bound_witness :
  exists r0 r acc outs r' it, New 8 100 = Some r0 /\
    run [OObserve 10 1 [] AddrPort0; OObserve 20 3 [] AddrPort0; OObserve 90 5 [] AddrPort0] r0
      = Some (r, acc, outs) /\ Pop 130 r = Some (r', it) /\
    forall i c, ring r' !! i = Some c -> occupied c = true -> 130 < observedAt c + 100.
Proof.
  eexists _, _, _, _.
  destruct (reseq_hold_bound 8 100
    [OObserve 10 1 [] AddrPort0; OObserve 20 3 [] AddrPort0; OObserve 90 5 [] AddrPort0]
    _ _ _ _ 130 ltac:(lia) ltac:(lia)
    ltac:(repeat constructor; unfold seq_bound; cbn; lia)
    ltac:(cbn; repeat split; lia) eq_refl ltac:(vm_compute; reflexivity)) as (r' & it & Ep & Hc).
  exists r', it. split; [reflexivity|]. split; [vm_compute; reflexivity|]. split; [exact Ep|exact Hc].
Defined.

(** Isolated stragglers are harmless.  In whatever state the calls so far
    have left a started resequencer whose corroboration run is at most one
    sequence long, receiving the same sequence from the suspect band any number
    of times (no hold being due) is rejected each time and leaves the release
    point, the buffer, the FIFO, the era and the log of releases alone. *)
Theorem reseq_replayed_suspect_harmless w t ops r0 r acc outs s pl from nows :
  0 < w <= 2 ^ 61 -> Forall op_ok ops -> New w t = Some r0 -> run ops r0 = Some (r, acc, outs) ->
  started r = true -> (length (resyncSeqs r) <= 1)%nat ->
  0 <= s < seq_bound -> suspect r s = true -> Forall (fun now => not_due now r = true) nows ->
  exists r', run (map (fun now => OObserve now s pl from) nows) r = Some (r', [], []) /\
    next r' = next r /\ ring r' = ring r /\ ready r' = ready r /\ readyPos r' = readyPos r /\
    era r' = era r /\ log r' = log r.
Proof.
  intros Hw Ho E0 E Hst Hl Hs Hsus Hd.
  destruct (run_from_new w t ops r0 r acc outs Hw Ho E0 E) as [_ S].
  destruct (replay_run nows s pl from r (ss_inv _ _ _ S) Hst Hs Hsus (or_introl Hl) Hd)
    as (r' & E' & [] & _).
  exists r'. by split_and!.
Qed.

Lemma reseq_replayed_suspect_harmless_witness :
  exists r0 r acc outs r', New 8 100 = Some r0 /\
    run [OObserve 1 50 [] AddrPort0; OObserve 2 51 [] AddrPort0] r0 = Some (r, acc, outs) /\
    run (map (fun now => OObserve now 9000 [1] AddrPort0) [3; 4; 5; 6]) r = Some (r', [], []) /\
    next r' = next r /\ log r' = log r.
Proof.
  eexists _, _, _, _.
  destruct (reseq_replayed_suspect_harmless 8 100
    [OObserve 1 50 [] AddrPort0; OObserve 2 51 [] AddrPort0] _ _ _ _ 9000 [1] AddrPort0 [3; 4; 5; 6]
    ltac:(lia) ltac:(repeat constructor; unfold seq_bound; cbn; lia) eq_refl
    ltac:(vm_compute; reflexivity) eq_refl ltac:(cbn; lia) ltac:(unfold seq_bound; lia)
    eq_refl ltac:(repeat constructor)) as (r' & E & En & _ & _ & _ & _ & El).
  exists r'. split; [reflexivity|]. split; [vm_compute; reflexivity|]. by split_and!.
Defined.

(** Restart recovery.  In any state with no corroboration run under way,
    three distinct sequences of the suspect band that lie within one window of
    each other (no hold being due) re-pin the release point: the first two are
    rejected, the third is accepted, released at once in a new era, and the
    release point stands past it. *)
Theorem reseq_restart_recovery w t ops r0 r acc outs s1 s2 s3 t1 t2 t3 pl from :
  0 < w <= 2 ^ 61 -> Forall op_ok ops -> New w t = Some r0 -> run ops r0 = Some (r, acc, outs) ->
  started r = true -> resyncSeqs r = [] ->
  0 <= s1 < seq_bound -> 0 <= s2 < seq_bound -> 0 <= s3 < seq_bound ->
  s1 <> s2 -> s1 <> s3 -> s2 <> s3 ->
  suspect r s1 = true -> suspect r s2 = true -> suspect r s3 = true ->
  Z.max s1 (Z.max s2 s3) - Z.min s1 (Z.min s2 s3) < w ->
  not_due t1 r = true -> not_due t2 r = true -> not_due t3 r = true ->
  exists ra rb r',
    Observe t1 s1 pl from r = Some (ra, false) /\
    Observe t2 s2 pl from ra = Some (rb, false) /\
    Observe t3 s3 pl from rb = Some (r', true) /\
    era r' = era r + 1 /\ mkReleased (era r') s3 (mkItem pl from) ∈ log r' /\ s3 < next r'.
Proof.
  intros Hw Ho E0 E Hst Hr B1 B2 B3 N12 N13 N23 S1 S2 S3 Hspan D1 D2 D3.
  destruct (run_from_new w t ops r0 r acc outs Hw Ho E0 E) as [Ew S].
  pose proof (ss_inv _ _ _ S) as I. pose proof (sb_wf _ (inv_stable _ I)) as H.
  apply recover; try done. by rewrite Ew.
Qed.

Lemma reseq_restart_recovery_witness :
  exists r0 r acc outs ra rb r', New 8 100 = Some r0 /\
    run [OObserve 1 5000 [] AddrPort0; OObserve 2 5001 [] AddrPort0] r0 = Some (r, acc, outs) /\
    Observe 3 1 [4] AddrPort0 r = Some (ra, false) /\
    Observe 4 3 [4] AddrPort0 ra = Some (rb, false) /\
    Observe 5 2 [4] AddrPort0 rb = Some (r', true) /\
    era r' = era r + 1 /\ mkReleased (era r') 2 (mkItem [4] AddrPort0) ∈ log r' /\ 2 < next r'.
Proof.
  eexists _, _, _, _.
  destruct (reseq_restart_recovery 8 100
    [OObserve 1 5000 [] AddrPort0; OObserve 2 5001 [] AddrPort0] _ _ _ _ 1 3 2 3 4 5 [4] AddrPort0
    ltac:(lia) ltac:(repeat constructor; unfold seq_bound; cbn; lia) eq_refl
    ltac:(vm_compute; reflexivity) eq_refl eq_refl
    ltac:(unfold seq_bound; lia) ltac:(unfold seq_bound; lia) ltac:(unfold seq_bound; lia)
    ltac:(lia) ltac:(lia) ltac:(lia) eq_refl eq_refl eq_refl ltac:(lia) eq_refl eq_refl eq_refl)
    as (ra & rb & r' & Ea & Eb & Ec & Hc).
  exists ra, rb, r'. split; [reflexivity|]. split; [vm_compute; reflexivity|].
  split; [exact Ea|]. split; [exact Eb|]. split; [exact Ec|exact Hc].
Defined.

(** Accounting.  Between two states of a started resequencer in the same
    era, the distance the release point covered is the number of items released
    plus the number counted as skipped (in 64-bit arithmetic): no sequence is
    passed over silently, and none is counted twice. *)
Theorem reseq_accounting w t ops ops' r0 r acc outs r' acc' outs' :
  0 < w <= 2 ^ 61 -> Forall op_ok ops -> Forall op_ok ops' ->
  New w t = Some r0 -> run ops r0 = Some (r, acc, outs) -> started r = true ->
  run ops' r = Some (r', acc', outs') -> era r' = era r ->
  u64 (next r' - next r) =
    u64 ((releasedN r' - releasedN r) + (skipped r' - skipped r)).
Proof.
  intros Hw Ho Ho' E0 E Hst E' Ee.
  destruct (run_from_new w t ops r0 r acc outs Hw Ho E0 E) as [_ S].
  destruct (run_account ops' r acc outs r' acc' outs' Ho' S E') as [_ A].
  specialize (A Hst Ee). unfold account in A. revert A. clear. unfold u64. intros A. wrap_eq.
Qed.

Lemma reseq_accounting_witness :
  exists r0 r acc outs r' acc' outs', New 8 100 = Some r0 /\
    run [OObserve 1 50 [] AddrPort0] r0 = Some (r, acc, outs) /\
    run [OObserve 2 53 [] AddrPort0; OPop 500] r = Some (r', acc', outs') /\
    skipped r' = 2 /\ u64 (next r' - next r) =
    u64 ((releasedN r' - releasedN r) + (skipped r' - skipped r)).
Proof.
  eexists _, _, _, _, _, _, _. split; [reflexivity|]. split; [vm_compute; reflexivity|].
  split; [vm_compute; reflexivity|]. split; [reflexivity|].
  eapply (reseq_accounting 8 100 [OObserve 1 50 [] AddrPort0] [OObserve 2 53 [] AddrPort0; OPop 500]).
  - lia.
  - repeat constructor; unfold seq_bound; cbn; lia.
  - repeat constructor; unfold seq_bound; cbn; lia.
  - reflexivity.
  - vm_compute; reflexivity.
  - reflexivity.
  - vm_compute; reflexivity.
  - reflexivity.
Defined.

End reseq_props.
