(* ===== verification/ReseqPins.v ===== *)
(** * What re-pins the resequencer

    An era of the resequencer ends only with a re-pin the resequencer counts: the
    counters its [Stats] reports say how many eras there were. *)

From stdpp Require Import base tactics list numbers.
From S2P Require Import Prelude Reseq.

Module reseq_pins.
Import reseq.

Definition pins (r : Resequencer) : Z * Z * Z := (era r, resyncs r, rebaselines r).

Lemma new_pins w t r : New w t = Some r -> pins r = (0, 0, 0).
Proof. unfold New. destruct (w =? 0); [done|]. by intros [= <-]. Qed.

Lemma notify_pins r : pins (notifyLocked r) = pins r.
Proof. unfold notifyLocked. by destruct (notify r). Qed.
Lemma endHold_pins now r : pins (endHoldLocked now r) = pins r.
Proof. unfold endHoldLocked. destruct (negb _); [done|]. rewrite notify_pins. by destruct (0 <? _). Qed.

Lemma drain_pins fuel r : pins (drain_loop fuel r) = pins r.
Proof. revert r. induction fuel as [|fuel IH]; intros r; cbn [drain_loop]; [done|]. destruct (_ || _); [done|]. by rewrite IH. Qed.
Lemma advance_pins fuel limit r : pins (advance_loop fuel limit r) = pins r.
Proof.
  revert r. induction fuel as [|fuel IH]; intros r; cbn [advance_loop]; [done|]. destruct (_ <? _); [|done].
  rewrite IH. by destruct (_ && _).
Qed.
Lemma advanceTo_pins target r : pins (advanceTo target r) = pins r.
Proof.
  unfold advanceTo. cbv zeta. match goal with |- context [advance_loop ?a ?b ?c] => rewrite <- (advance_pins a b c); generalize (advance_loop a b c) end.
  intros q. by destruct (_ <? _).
Qed.

Lemma oldest_pins rest r : pins (oldest_scan rest r).1 = pins r.
Proof.
  revert r. induction rest as [|s rest IH]; intros r; cbn [oldest_scan]; [done|].
  destruct (_ && _); [by destruct (_ <? _)%nat|]. by rewrite IH.
Qed.
Lemma arm_pins now r r' : arm now r = Some r' -> pins r' = pins r.
Proof.
  unfold arm. destruct (_ && _); [|intros [= <-]; apply endHold_pins]. destruct (negb _); [|by intros [= <-]].
  unfold oldestBufferedObservation. set (q := r <| waiting := true |>). pose proof (oldest_pins (drop (heldPos q) (held q)) q) as H.
  destruct (oldest_scan _ _) as [q' [t|]]; [|done]. intros [= <-]. by rewrite notify_pins.
Qed.

Lemma expire_pins fuel now : forall r r', expire_loop fuel now r = Some r' -> pins r' = pins r.
Proof.
  induction fuel as [|fuel IH]; intros r r'; cbn [expire_loop]; (destruct (waiting r); [|by intros [= <-]]);
    (destruct (_ <? _); [by intros [= <-]|]); [done|].
  set (q := r <| deadlineWakeups := _ |>). destruct (smallestBuffered q) as [m ok]. destruct (negb ok).
  { intros [= <-]. by rewrite endHold_pins. }
  destruct (arm _ _) as [q'|] eqn:A; [|done]. intros H%IH. rewrite H. apply arm_pins in A. rewrite A, endHold_pins.
  unfold drain. rewrite drain_pins. by destruct (_ <? _).
Qed.

(** The pins after a re-pin by the resequencer itself. *)
Definition resynced (r : Resequencer) : Z * Z * Z := (era r + 1, u64 (resyncs r + 1), rebaselines r).

Lemma tryResync_pins s now r :
  let q := tryResync s now r in pins q.1 = pins r \/ pins q.1 = resynced r.
Proof.
  unfold tryResync. destruct (_ || _); [by left|]. destruct (runContains s r); [by left|].
  set (q := (if resyncHi _ <? s then _ else _) <| resyncSeqs := _ |>).
  assert (E : pins q = pins r) by (unfold q; by destruct (s <? resyncLo r), (resyncHi _ <? s)).
  destruct (_ <? _)%nat; [by left|]. right. cbn [fst]. unfold resync, resynced, pins in *. injection E as E1 E2 E3.
  set (x := q <| ring := _ |> <| buf := _ |> <| held := _ |> <| heldPos := _ |> <| next := _ |> <| era := _ |>).
  pose proof (endHold_pins now x) as H. unfold pins in H. injection H as H1 H2 H3. cbn. rewrite H1, H2, H3. cbn. by rewrite E1, E2, E3.
Qed.

Lemma admit_pins s now r : let q := admitSeq s now r in pins q.1 = pins r \/ pins q.1 = resynced r.
Proof.
  unfold admitSeq. pose proof (tryResync_pins s now r) as T. cbv zeta in T |- *. destruct (s <? next r).
  { destruct (_ <? _); [|by left]. destruct (tryResync s now r) as [q []]; exact T. }
  destruct (_ <=? _). { destruct (tryResync s now r) as [q []]; exact T. }
  left. destruct (_ <=? _); [|done]. cbn [fst]. by rewrite advanceTo_pins, endHold_pins.
Qed.

Lemma place_pins now s pl from r r' b : place now s pl from r = Some (r', b) -> pins r' = pins r.
Proof.
  unfold place. destruct (_ && _); [by intros [= <- _]|].
  destruct (arm _ _) as [q|] eqn:A; [|done]. intros [= <- _]. apply arm_pins in A. rewrite A. unfold drain. rewrite drain_pins.
  destruct (_ && _); rewrite ?endHold_pins; cbn; by destruct (_ <? _), (negb _).
Qed.

Lemma observe_pins now s pl from r r' b : Observe now s pl from r = Some (r', b) -> pins r' = pins r \/ pins r' = resynced r.
Proof.
  unfold Observe. set (q := if negb _ then _ else r). assert (E : pins q = pins r) by (unfold q; by destruct (negb _)).
  assert (Er : resynced q = resynced r) by (unfold q; by destruct (negb _)). clearbody q.
  destruct (expire now q) as [q1|] eqn:X; [|done]. apply expire_pins in X. pose proof (admit_pins s now q1) as A. cbv zeta in A.
  assert (Er1 : resynced q1 = resynced r). { rewrite <- Er. unfold resynced, pins in *. by injection X as -> -> ->. }
  destruct (admitSeq s now q1) as [q2 []]; cbn [negb fst] in *.
  - intros P%place_pins. rewrite P, <- E, <- X, <- Er1. exact A.
  - intros [= <- _]. rewrite <- E, <- X, <- Er1. exact A.
Qed.

Lemma pop_pins now r r' it : Pop now r = Some (r', it) -> pins r' = pins r.
Proof.
  unfold Pop. destruct (expire now r) as [q|] eqn:X; [|done]. apply expire_pins in X. rewrite <- X.
  destruct (ready q !! readyPos q); [|by intros [= <- _]]. intros [= <- _]. by destruct (_ <=? _)%nat.
Qed.

Lemma rebaseline_pins now n r r' : RebaselineAt now n r = Some r' -> pins r' = (era r + 1, resyncs r, u64 (rebaselines r + 1)).
Proof.
  unfold RebaselineAt. destruct (n =? 0); [done|]. intros [= <-]. rewrite notify_pins.
  match goal with |- context [endHoldLocked now ?x] => pose proof (endHold_pins now x) as H end. unfold pins in *. injection H as H1 H2 H3. cbn. by rewrite H1, H2, H3.
Qed.
End reseq_pins.
