(* ===== verification/Sha256.v ===== *)
(** * The hash-based primitives of Go's standard library

    [crypto/sha256], [crypto/hmac] and [crypto/hkdf] as the frame codec uses
    them: SHA-256 over byte lists (FIPS 180-4), HMAC-SHA256 (RFC 2104) and
    HKDF-SHA256 (RFC 5869).  Words are [Z] below [2^32] with the wrap-around
    written out.  The published test vectors evaluate at the end. *)

From Stdlib Require Import String Ascii.
From stdpp Require Import base tactics list numbers.
From S2P Require Import Prelude.

Module sha256.

#[local] Abbreviation length := Datatypes.length.

Definition u32 (x : Z) : Z := x mod 2 ^ 32.
Definition rotr (x n : Z) : Z :=
  Z.lor (Z.shiftr x n) (u32 (Z.shiftl x (32 - n))).

(** The constants as FIPS 180-4 defines them: the first 32 bits of the
    fractional parts of the cube roots of the first 64 primes and of the square
    roots of the first 8. *)
Definition is_prime (n : Z) : bool :=
  forallb (fun d => negb (n mod d =? 0)) (map Z.of_nat (List.seq 2 (Z.to_nat n - 2))).
Definition primes : list Z := filter (fun n => is_prime n = true) (map Z.of_nat (List.seq 2 310)).

(** The integer cube root below [2^n], bit by bit. *)
Fixpoint cbrt (n : nat) (x acc : Z) : Z :=
  match n with
  | O => acc
  | S n => let c := acc + 2 ^ Z.of_nat n in cbrt n x (if c ^ 3 <=? x then c else acc)
  end.

Definition K : list Z := Eval vm_compute in map (fun p => u32 (cbrt 36 (p * 2 ^ 96) 0)) primes.

Record digest := mkDigest { dA : Z; dB : Z; dC : Z; dD : Z; dE : Z; dF : Z; dG : Z; dH : Z }.
Definition init : digest :=
  Eval vm_compute in
  let r k := u32 (Z.sqrt (default 0 (primes !! k) * 2 ^ 64)) in
  mkDigest (r 0%nat) (r 1%nat) (r 2%nat) (r 3%nat) (r 4%nat) (r 5%nat) (r 6%nat) (r 7%nat).

(** The message schedule, newest word first. *)
Fixpoint schedule (n : nat) (w : list Z) : list Z :=
  match n with
  | O => w
  | S n =>
    let at_ k := default 0 (w !! k) in
    let s0 := Z.lxor (rotr (at_ 14%nat) 7) (Z.lxor (rotr (at_ 14%nat) 18) (Z.shiftr (at_ 14%nat) 3)) in
    let s1 := Z.lxor (rotr (at_ 1%nat) 17) (Z.lxor (rotr (at_ 1%nat) 19) (Z.shiftr (at_ 1%nat) 10)) in
    schedule n (u32 (at_ 15%nat + s0 + at_ 6%nat + s1) :: w)
  end.

Definition round (d : digest) (kw : Z * Z) : digest :=
  let '(k, w) := kw in
  let S1 := Z.lxor (rotr (dE d) 6) (Z.lxor (rotr (dE d) 11) (rotr (dE d) 25)) in
  let ch := Z.lxor (Z.land (dE d) (dF d)) (Z.land (0xffffffff - dE d) (dG d)) in
  let t1 := u32 (dH d + S1 + ch + k + w) in
  let S0 := Z.lxor (rotr (dA d) 2) (Z.lxor (rotr (dA d) 13) (rotr (dA d) 22)) in
  let maj := Z.lxor (Z.land (dA d) (dB d)) (Z.lxor (Z.land (dA d) (dC d)) (Z.land (dB d) (dC d))) in
  let t2 := u32 (S0 + maj) in
  mkDigest (u32 (t1 + t2)) (dA d) (dB d) (dC d) (u32 (dD d + t1)) (dE d) (dF d) (dG d).

(** [chunks n w l] cuts [l] into [n] pieces of [w] elements. *)
Fixpoint chunks {A} (n w : nat) (l : list A) : list (list A) :=
  match n with
  | O => []
  | S n => take w l :: chunks n w (drop w l)
  end.

Definition block (d : digest) (b : list Z) : digest :=
  let w := rev (schedule 48 (rev (map be_get (chunks 16 4 b)))) in
  let d' := fold_left round (zip K w) d in
  mkDigest (u32 (dA d + dA d')) (u32 (dB d + dB d')) (u32 (dC d + dC d')) (u32 (dD d + dD d'))
           (u32 (dE d + dE d')) (u32 (dF d + dF d')) (u32 (dG d + dG d')) (u32 (dH d + dH d')).

Definition pad (msg : list Z) : list Z :=
  let n := Z.of_nat (length msg) in
  msg ++ [128] ++ replicate (Z.to_nat ((55 - n) mod 64)) 0 ++ be_put 8 (8 * n).

Definition bytes_of (d : digest) : list Z :=
  be_put 4 (dA d) ++ be_put 4 (dB d) ++ be_put 4 (dC d) ++ be_put 4 (dD d) ++
  be_put 4 (dE d) ++ be_put 4 (dF d) ++ be_put 4 (dG d) ++ be_put 4 (dH d).

Definition Sum (msg : list Z) : list Z :=
  let p := pad msg in
  bytes_of (fold_left block (chunks (length p `div` 64) 64 p) init).

(** HMAC-SHA256; a key longer than a block is hashed first. *)
Definition hmac (key msg : list Z) : list Z :=
  let k := if (64 <? length key)%nat then Sum key else key in
  let k := k ++ replicate (64 - length k) 0 in
  Sum (map (Z.lxor 0x5c) k ++ Sum (map (Z.lxor 0x36) k ++ msg)).

(** HKDF-SHA256: extract with a salt ([nil] is a block of zeros), then expand.
    [hkdf.Key] fails when more than 255 blocks are asked for. *)
Fixpoint expand (n : nat) (i : Z) (prk prev info : list Z) : list Z :=
  match n with
  | O => []
  | S n => let t := hmac prk (prev ++ info ++ [i]) in t ++ expand n (i + 1) prk t info
  end.
Definition hkdf_Key (secret salt info : list Z) (keyLength : nat) : option (list Z) :=
  if (255 * 32 <? keyLength)%nat then None
  else
    let prk := hmac (match salt with [] => replicate 32 0 | _ => salt end) secret in
    Some (take keyLength (expand ((keyLength + 31) `div` 32) 1 prk [] info)).

(** A Go string literal as bytes. *)
Fixpoint bytes_of_string (s : string) : list Z :=
  match s with
  | EmptyString => []
  | String c s => Z.of_N (N_of_ascii c) :: bytes_of_string s
  end.

Lemma length_Sum msg : length (Sum msg) = 32%nat.
Proof. done. Qed.

Lemma Sum_bytes msg : bytes_ok (Sum msg).
Proof. unfold Sum, bytes_of. repeat (apply Forall_app; split); apply be_put_bytes. Qed.

Lemma length_hmac key msg : length (hmac key msg) = 32%nat.
Proof. apply length_Sum. Qed.

Lemma hmac_bytes key msg : bytes_ok (hmac key msg).
Proof. apply Sum_bytes. Qed.

Lemma length_expand n i prk prev info : length (expand n i prk prev info) = (32 * n)%nat.
Proof.
  revert i prev. induction n as [|n IH]; intros i prev; [done|].
  cbn [expand]. rewrite length_app, length_hmac, IH. lia.
Qed.

Lemma hkdf_Key_ok secret salt info n :
  (n <= 255 * 32)%nat -> exists k, hkdf_Key secret salt info n = Some k /\ length k = n.
Proof.
  intros Hn. unfold hkdf_Key. destruct (Nat.ltb_spec (255 * 32) n); [lia|].
  eexists. split; [done|]. rewrite length_take, length_expand.
  pose proof (Nat.div_mod (n + 31) 32 ltac:(lia)). pose proof (Nat.mod_upper_bound (n + 31) 32 ltac:(lia)). lia.
Qed.

(** FIPS 180-4 on the message abc; RFC 4231 case 2; RFC 5869 case 3. *)
Example sha256_abc :
  be_get (Sum (bytes_of_string "abc")) =
  0xba7816bf8f01cfea414140de5dae2223b00361a396177a9cb410ff61f20015ad.
Proof. vm_compute. reflexivity. Qed.

Example hmac_rfc4231_2 :
  be_get (hmac (bytes_of_string "Jefe") (bytes_of_string "what do ya want for nothing?")) =
  0x5bdcc146bf60754e6a042426089575c75a003f089d2739839dec58b964ec3843.
Proof. vm_compute. reflexivity. Qed.

Example hkdf_rfc5869_3 :
  option_map be_get (hkdf_Key (replicate 22 0x0b) [] [] 42) =
  Some 0x8da4e775a563c18f715f802a063c5a31b8a11f5c5ee1879ec3454e5f3c738d2d9d201395faa4b61a96c8.
Proof. vm_compute. reflexivity. Qed.

End sha256.
