(* ===== verification/Frame.v ===== *)
(** * The outer frame codec ([internal/frame/frame.go])

    A frame on the wire is [nonce || obf(body) || tag].  The hash-based
    primitives are those of [Sha256]; XChaCha20, a third-party package, is the
    operation of the class [Cipher], and the laws the codec relies on are
    [CipherLaws].  The system's random generator is an argument of [Encode]: the
    bytes it delivers, or its failure. *)

From Stdlib Require Import String.
From stdpp Require Import base tactics list numbers.
From S2P Require Import Prelude Sha256.

(** [chacha20.NewUnauthenticatedCipher]: the keystream of a key and nonce, by
    position, or an error. *)
Class Cipher := NewUnauthenticatedCipher : list Z -> list Z -> option (nat -> Z).

(** Documented behaviour: a 32-byte key and a 24-byte nonce are accepted, and a
    keystream is a sequence of bytes. *)
Class CipherLaws (C : Cipher) : Prop := {
  cipher_accepts : forall key nonce, length key = 32%nat -> length nonce = 24%nat ->
    exists ks, NewUnauthenticatedCipher key nonce = Some ks;
  cipher_bytes : forall key nonce ks, NewUnauthenticatedCipher key nonce = Some ks ->
    forall i, is_byte (ks i)
}.

Module frame.

#[local] Abbreviation length := Datatypes.length.

Definition nonceLen : nat := 24.
Definition tagLen : nat := 16.
Definition subkeyLen : nat := 32.
Definition infoObf : list Z := sha256.bytes_of_string "wanbond outer-frame obfuscation v1".
Definition infoAuth : list Z := sha256.bytes_of_string "wanbond outer-frame authentication v1".
Definition ControlOverhead : nat := (nonceLen + 1 + 1 + 8 + tagLen)%nat.

(** [ErrMalformed] and [ErrAuth] are the package's sentinels; the other three
    are the errors of the key derivation and of the random generator. *)
Inductive error := ErrMalformed | ErrAuth | ErrPSK | ErrDerive | ErrNonce.

Definition KindProbe : Z := 3.
Definition KindControl : Z := 4.
Definition valid (k : Z) : bool := (k =? KindProbe) || (k =? KindControl).

Record Probe := mkProbe {
  PathID : Z;
  ProbeSeq : Z;
  TimestampNanos : Z;
  IsEcho : bool;
  SessionID : Z;
  Challenge : Z;
  Padded : bool;
  PadLen : Z;
  ProbePayload : list Z
}.

Record Control := mkControl { ControlType : Z; Seq : Z; ControlPayload : list Z }.

(** The closed sum over the frame kinds. *)
Inductive Frame := FProbe (p : Probe) | FControl (c : Control).

Definition Kind (f : Frame) : Z :=
  match f with FProbe _ => KindProbe | FControl _ => KindControl end.

Definition probeFlagEcho : Z := Z.shiftl 1 0.
Definition probeFlagPadded : Z := Z.shiftl 1 1.
Definition probeFixedBody : Z := 1 + 1 + 8 + 8 + 1 + 8 + 8.
Definition ProbeBaseOnWire : Z := Z.of_nat nonceLen + probeFixedBody + 2 + Z.of_nat tagLen.
Definition MaxPaddedProbeOnWire : Z := 9000.

Definition ProbeOnWireSize (padLen : Z) : Z := ProbeBaseOnWire + padLen.

Definition PadLenForOnWire (onWire : Z) : outcome error Z :=
  if onWire <? ProbeBaseOnWire then Err ErrMalformed
  else if MaxPaddedProbeOnWire <? onWire then Err ErrMalformed
  else Ok (u16 (onWire - ProbeBaseOnWire)).

Definition validate (f : Probe) : outcome error unit :=
  if negb (Padded f) then Ok ()
  else if (0 <? length (ProbePayload f))%nat then Err ErrMalformed
  else if MaxPaddedProbeOnWire <? ProbeOnWireSize (PadLen f) then Err ErrMalformed
  else Ok ().

Definition flags (f : Probe) : Z :=
  let b := 0 in
  let b := if IsEcho f then Z.lor b probeFlagEcho else b in
  if Padded f then Z.lor b probeFlagPadded else b.

Definition appendBodyProbe (f : Probe) (dst : list Z) : list Z :=
  let dst := dst ++ [KindProbe] in
  let dst := dst ++ [PathID f] in
  let dst := dst ++ be_put 8 (ProbeSeq f) in
  let dst := dst ++ be_put 8 (u64 (TimestampNanos f)) in
  let dst := dst ++ [flags f] in
  let dst := dst ++ be_put 8 (SessionID f) in
  let dst := dst ++ be_put 8 (Challenge f) in
  if Padded f then
    let dst := dst ++ be_put 2 (PadLen f) in
    dst ++ replicate (Z.to_nat (PadLen f)) 0
  else dst ++ ProbePayload f.

Definition appendBodyControl (f : Control) (dst : list Z) : list Z :=
  let dst := dst ++ [KindControl] in
  let dst := dst ++ [ControlType f] in
  let dst := dst ++ be_put 8 (Seq f) in
  dst ++ ControlPayload f.

Definition appendBody (f : Frame) (dst : list Z) : list Z :=
  match f with
  | FProbe p => appendBodyProbe p dst
  | FControl c => appendBodyControl c dst
  end.

(** [config.Key]: a 32-byte key and whether it was configured. *)
Record Key := mkKey { kbytes : list Z; kset : bool }.
Definition IsSet (k : Key) : bool := kset k.
Definition Bytes (k : Key) : list Z := kbytes k.

Record Codec := mkCodec {
  obfKey : list Z;
  authKey : list Z;
  encScratch : list Z;
  decScratch : list Z
}.
#[export] Instance eta_Codec : Eta Codec := fun c =>
  mkCodec (obfKey c) (authKey c) (encScratch c) (decScratch c).

Definition subkeys (psk : Key) : outcome error (list Z * list Z) :=
  if negb (IsSet psk) then Err ErrPSK
  else
    let secret := Bytes psk in
    match sha256.hkdf_Key secret [] infoObf subkeyLen with
    | None => Err ErrDerive
    | Some obf =>
      match sha256.hkdf_Key secret [] infoAuth subkeyLen with
      | None => Err ErrDerive
      | Some auth => Ok (obf, auth)
      end
    end.

Definition NewCodec (psk : Key) : outcome error Codec :=
  '(obf, auth) ← subkeys psk;
  Ok (mkCodec obf auth [] []).

Definition tag (authKey nonce obfBody : list Z) : list Z :=
  take tagLen (sha256.hmac authKey (nonce ++ obfBody)).

(** A cipher in use: its keystream and how much of it is consumed. *)
Record stream := mkStream { keystream : nat -> Z; consumed : nat }.
Fixpoint xor_from (ks : nat -> Z) (pos : nat) (b : list Z) : list Z :=
  match b with
  | [] => []
  | x :: b => Z.lxor x (ks pos) :: xor_from ks (S pos) b
  end.
Definition XORKeyStream (s : stream) (b : list Z) : stream * list Z :=
  (mkStream (keystream s) (consumed s + length b), xor_from (keystream s) (consumed s) b).

(** The cursor of the decoder. *)
Record reader := mkReader { rb : list Z; off : nat }.

Definition need (n : nat) (r : reader) : outcome error unit :=
  if (length (rb r) <? off r + n)%nat then Err ErrMalformed else Ok ().

Definition read_u8 (r : reader) : reader * outcome error Z :=
  match need 1 r with
  | Ok _ => match rb r !! off r with
            | Some v => (mkReader (rb r) (off r + 1), Ok v)
            | None => (r, Panic)
            end
  | Err e => (r, Err e)
  | Panic => (r, Panic)
  end.

(** [u16] and [u64]: [n] is the width in bytes. *)
Definition read_be (n : nat) (r : reader) : reader * outcome error Z :=
  match need n r with
  | Ok _ => (mkReader (rb r) (off r + n), Ok (be_get (take n (drop (off r) (rb r)))))
  | Err e => (r, Err e)
  | Panic => (r, Panic)
  end.
Definition read_u16 := read_be 2.
Definition read_u64 := read_be 8.

Definition rest (r : reader) : reader * list Z :=
  (mkReader (rb r) (length (rb r)), drop (off r) (rb r)).

(** [firstErr] over results the caller then uses: the first failure, or the
    unit. *)
Fixpoint firstErr (l : list (outcome error Z)) : outcome error unit :=
  match l with
  | [] => Ok ()
  | Ok _ :: l => firstErr l
  | Err e :: _ => Err e
  | Panic :: _ => Panic
  end.
(** The value of a read, zero when it failed. *)
Definition val (o : outcome error Z) : Z := match o with Ok v => v | _ => 0 end.

Definition decodeProbe (r : reader) : outcome error Frame :=
  let '(r, pathID) := read_u8 r in
  let '(r, probeSeq) := read_u64 r in
  let '(r, ts) := read_u64 r in
  let '(r, fl) := read_u8 r in
  let '(r, sessionID) := read_u64 r in
  let '(r, challenge) := read_u64 r in
  firstErr [pathID; probeSeq; ts; fl; sessionID; challenge] ≫= fun _ =>
  let isEcho := negb (Z.land (val fl) probeFlagEcho =? 0) in
  let probe := mkProbe (val pathID) (val probeSeq) (i64 (val ts)) isEcho (val sessionID)
                 (val challenge) in
  if negb (Z.land (val fl) probeFlagPadded =? 0) then
    let '(r, e7) := read_u16 r in
    e7 ≫= fun padLen =>
    let '(r, pad) := rest r in
    if negb (Z.of_nat (length pad) =? padLen) then Err ErrMalformed
    else Ok (FProbe (probe true padLen []))
  else
    let '(r, payload) := rest r in
    Ok (FProbe (probe false 0 payload)).

Definition decodeControl (r : reader) : outcome error Frame :=
  let '(r, ctype) := read_u8 r in
  let '(r, seq) := read_u64 r in
  firstErr [ctype; seq] ≫= fun _ =>
  let '(r, payload) := rest r in
  Ok (FControl (mkControl (val ctype) (val seq) payload)).

Definition decodeBody (kind : Z) (b : list Z) : outcome error Frame :=
  let r := mkReader b 0 in
  if kind =? KindProbe then decodeProbe r
  else if kind =? KindControl then decodeControl r
  else Err ErrMalformed.

Section Codec.
Context {C : Cipher}.

(** [obfuscate] panics when the cipher cannot be built. *)
Definition obfuscate (obfKey nonce body : list Z) : outcome error (list Z) :=
  match NewUnauthenticatedCipher obfKey nonce with
  | None => Panic
  | Some ks => Ok (snd (XORKeyStream (mkStream ks 0) body))
  end.

(** [rnd] is what the random generator delivered for the nonce.  The codec
    comes back with its scratch buffer whatever the outcome. *)
Definition Encode (rnd : option (list Z)) (dst : list Z) (f : Frame) (c : Codec) :
    Codec * outcome error (list Z) :=
  match (match f with FProbe p => validate p | FControl _ => Ok () end) with
  | Err e => (c, Err e)
  | Panic => (c, Panic)
  | Ok _ =>
    let c := c <| encScratch := appendBody f (take 0 (encScratch c)) |> in
    let body := encScratch c in
    match rnd with
    | None => (c, Err ErrNonce)
    | Some nonce =>
      match obfuscate (obfKey c) nonce body with
      | Err e => (c, Err e)
      | Panic => (c, Panic)
      | Ok obfBody =>
        let c := c <| encScratch := obfBody |> in
        let dst := dst ++ nonce in
        let dst := dst ++ obfBody in
        (c, Ok (dst ++ tag (authKey c) nonce obfBody))
      end
    end
  end.

Definition Decode (raw : list Z) (c : Codec) : Codec * outcome error Frame :=
  if (length raw <? nonceLen + 1)%nat then (c, Err ErrMalformed)
  else
    let nonce := take nonceLen raw in
    let rst := drop nonceLen raw in
    match NewUnauthenticatedCipher (obfKey c) nonce with
    | None => (c, Panic)
    | Some ks =>
      let cipher := mkStream ks 0 in
      let '(cipher, kindByte) := XORKeyStream cipher (take 1 rst) in
      let kind := default 0 (kindByte !! 0%nat) in
      if negb (valid kind) then (c, Err ErrMalformed)
      else if (length rst <? tagLen + 1)%nat then (c, Err ErrMalformed)
      else
        let obfBody := take (length rst - tagLen) rst in
        let gotTag := drop (length rst - tagLen) rst in
        let wantTag := tag (authKey c) nonce obfBody in
        if negb (bool_decide (gotTag = wantTag)) then (c, Err ErrAuth)
        else
          let c := c <| decScratch := take 0 (decScratch c) ++ obfBody |> in
          let body := <[0%nat := kind]> (decScratch c) in
          let body := if (1 <? length body)%nat
                      then take 1 body ++ snd (XORKeyStream cipher (drop 1 body))
                      else body in
          (c <| decScratch := body |>, decodeBody kind (drop 1 body))
    end.

(** The one-shot wrappers. *)
Definition EncodeWith (rnd : option (list Z)) (psk : Key) (f : Frame) : outcome error (list Z) :=
  c ← NewCodec psk;
  snd (Encode rnd [] f c).

Definition DecodeWith (psk : Key) (raw : list Z) : outcome error Frame :=
  c ← NewCodec psk;
  snd (Decode raw c).

End Codec.
End frame.
