(* ===== verification/FrameProps.v ===== *)
(** * What the frame codec guarantees

    The keystream cancels itself, the reader reads back what the writer wrote,
    and from these: round trip, exact sizes, and that nothing is accepted
    without a valid tag. *)

From stdpp Require Import base tactics list numbers.
From S2P Require Import Prelude Sha256 Frame.

Module frame_props.
Import frame.

(** ** The keystream *)
Section Xor.
Context (ks : nat -> Z).

Lemma length_xor_from p b : length (xor_from ks p b) = length b.
Proof. revert p. induction b as [|x b IH]; intros p; cbn; [done|by rewrite IH]. Qed.

Lemma xor_from_involutive p b : xor_from ks p (xor_from ks p b) = b.
Proof.
  revert p. induction b as [|x b IH]; intros p; cbn; [done|].
  by rewrite IH, Z.lxor_assoc, Z.lxor_nilpotent, Z.lxor_0_r.
Qed.

Lemma lxor_byte x y : is_byte x -> is_byte y -> is_byte (Z.lxor x y).
Proof.
  unfold is_byte. change 256 with (2 ^ 8). intros Hx Hy.
  assert (Hb : forall z, 0 <= z < 2 ^ 8 -> z = Z.land z (Z.ones 8)).
  { intros z Hz. by rewrite Z.land_ones, Z.mod_small by lia. }
  assert (E : Z.lxor x y = Z.land (Z.lxor x y) (Z.ones 8)).
  { apply Z.bits_inj'. intros n Hn.
    rewrite (Hb x Hx), (Hb y Hy) at 1.
    rewrite Z.lxor_spec, !Z.land_spec, Z.lxor_spec.
    by destruct (Z.testbit x n), (Z.testbit y n), (Z.testbit (Z.ones 8) n). }
  rewrite E, Z.land_ones by lia. apply Z.mod_pos_bound. lia.
Qed.

Lemma xor_from_bytes p b : (forall i, is_byte (ks i)) -> bytes_ok b -> bytes_ok (xor_from ks p b).
Proof.
  intros Hk Hb. revert p. induction Hb as [|x b Hx Hb IH]; intros p; constructor; [|apply IH].
  by apply lxor_byte.
Qed.
End Xor.

(** ** The reader

    [at_rest r l]: what the cursor has yet to read is [l]. *)
Definition at_rest (r : reader) (l : list Z) : Prop :=
  drop (off r) (rb r) = l /\ (off r <= length (rb r))%nat.

Lemma at_rest_need n r l :
  at_rest r l -> need n r = if (length l <? n)%nat then Err ErrMalformed else Ok ().
Proof.
  intros [<- Ho]. unfold need. rewrite length_drop.
  destruct (Nat.ltb_spec (length (rb r)) (off r + n)), (Nat.ltb_spec (length (rb r) - off r) n); done || lia.
Qed.

Lemma at_rest_skip n r l : at_rest r l -> (n <= length l)%nat -> at_rest (mkReader (rb r) (off r + n)) (drop n l).
Proof.
  intros [<- Ho] Hn. rewrite length_drop in Hn. split; cbn; [|lia]. by rewrite drop_drop.
Qed.

(** A read of width [n]: the prefix as a number, or [ErrMalformed] with the
    cursor in place. *)
Lemma read_be_at n r l :
  at_rest r l ->
  if (length l <? n)%nat then read_be n r = (r, Err ErrMalformed)
  else exists r', read_be n r = (r', Ok (be_get (take n l))) /\ at_rest r' (drop n l).
Proof.
  intros Ha. unfold read_be. rewrite (at_rest_need n r l Ha).
  destruct (Nat.ltb_spec (length l) n); [done|].
  eexists. split; [|by apply at_rest_skip]. by rewrite (proj1 Ha).
Qed.

Lemma read_u8_at r l :
  at_rest r l ->
  match l with
  | [] => read_u8 r = (r, Err ErrMalformed)
  | x :: l => exists r', read_u8 r = (r', Ok x) /\ at_rest r' l
  end.
Proof.
  intros Ha. unfold read_u8. rewrite (at_rest_need 1 r l Ha). destruct l as [|x l]; [done|]. cbn.
  assert (E : rb r !! off r = Some x).
  { destruct Ha as [E _]. replace (off r) with (off r + 0)%nat by lia.
    rewrite <- lookup_drop, E. done. }
  rewrite E. eexists. split; [done|]. apply (at_rest_skip 1 r (x :: l) Ha). cbn. lia.
Qed.

(** ** Bodies *)
Definition probe_ok (p : Probe) : Prop :=
  is_byte (PathID p) /\ is_u64 (ProbeSeq p) /\ minI64 <= TimestampNanos p <= maxI64 /\
  is_u64 (SessionID p) /\ is_u64 (Challenge p) /\ is_u16 (PadLen p) /\
  bytes_ok (ProbePayload p) /\
  if Padded p then ProbePayload p = [] else PadLen p = 0.

(** The values a Go [Frame] can hold, less the padded probe with a payload and
    the unpadded probe with a stray pad length. *)
Definition frame_ok (f : Frame) : Prop :=
  match f with
  | FProbe p => probe_ok p
  | FControl c => is_byte (ControlType c) /\ is_u64 (Seq c) /\ bytes_ok (ControlPayload c)
  end.

(** The body after its kind byte. *)
Definition tail (f : Frame) : list Z :=
  match f with
  | FProbe p =>
    PathID p :: be_put 8 (ProbeSeq p) ++ be_put 8 (u64 (TimestampNanos p)) ++
    flags p :: be_put 8 (SessionID p) ++ be_put 8 (Challenge p) ++
    (if Padded p then be_put 2 (PadLen p) ++ replicate (Z.to_nat (PadLen p)) 0 else ProbePayload p)
  | FControl c => ControlType c :: be_put 8 (Seq c) ++ ControlPayload c
  end.

Lemma appendBody_tail f dst : appendBody f dst = dst ++ Kind f :: tail f.
Proof.
  destruct f as [p|c]; cbn [appendBody Kind tail].
  - unfold appendBodyProbe. destruct (Padded p); by rewrite <- !app_assoc.
  - unfold appendBodyControl. by rewrite <- !app_assoc.
Qed.

Lemma flags_spec p :
  is_byte (flags p) /\ negb (Z.land (flags p) probeFlagEcho =? 0) = IsEcho p /\
  negb (Z.land (flags p) probeFlagPadded =? 0) = Padded p.
Proof. unfold flags, is_byte. destruct (IsEcho p), (Padded p); vm_compute; intuition congruence. Qed.

Lemma i64_u64 x : minI64 <= x <= maxI64 -> i64 (u64 x) = x.
Proof. unfold i64, u64, minI64, maxI64. intros H. Z.to_euclidean_division_equations; lia. Qed.

Lemma read_be_put n v r l :
  0 <= v < 256 ^ Z.of_nat n -> at_rest r (be_put n v ++ l) ->
  exists r', read_be n r = (r', Ok v) /\ at_rest r' l.
Proof.
  intros Hv Ha. pose proof (read_be_at n r _ Ha) as H. rewrite length_app, length_be_put in H.
  destruct (Nat.ltb_spec (n + length l) n); [lia|].
  by rewrite take_be_put, drop_be_put in H.
Qed.

Lemma rest_at r l : at_rest r l -> snd (rest r) = l.
Proof. intros [<- _]. done. Qed.

Ltac read_step :=
  match goal with
  | H : at_rest ?r (be_put ?n ?v ++ ?l) |- context [read_be ?n ?r] =>
    let r' := fresh "r" in let E := fresh "E" in
    destruct (read_be_put n v r l ltac:(cbn; range) H) as (r' & E & ?); rewrite E; cbn
  | H : at_rest ?r (?x :: ?l) |- context [read_u8 ?r] =>
    let r' := fresh "r" in let E := fresh "E" in
    destruct (read_u8_at r (x :: l) H) as (r' & E & ?); rewrite E; cbn
  end.

Lemma decodeBody_tail f : frame_ok f -> decodeBody (Kind f) (tail f) = Ok f.
Proof.
  destruct f as [p|c]; cbn [frame_ok Kind].
  - intros (H1 & H2 & H3 & H4 & H5 & H6 & H7 & H8).
    destruct (flags_spec p) as (Hb & Fe & Fp). pose proof (u64_range (TimestampNanos p)) as Hu.
    unfold decodeBody. cbn [Z.eqb KindProbe Pos.eqb]. unfold decodeProbe, read_u64, read_u16.
    assert (Ha : at_rest (mkReader (tail (FProbe p)) 0) (tail (FProbe p))) by (split; cbn; [done|lia]).
    revert Ha. generalize (mkReader (tail (FProbe p)) 0). intros r0 Ha. cbn [tail] in Ha.
    do 6 read_step. rewrite Fe, Fp, (i64_u64 _ H3).
    destruct (Padded p) eqn:Epd.
    + read_step.
      match goal with H : at_rest ?r (replicate _ _) |- _ => rename H into Hr; pose proof (rest_at r _ Hr) as Ep end.
      cbn in Ep. rewrite Ep, length_replicate, Z2Nat.id, Z.eqb_refl by range. cbn.
      destruct p. cbn in *. by subst.
    + match goal with H : at_rest ?r (ProbePayload p) |- _ => pose proof (rest_at r _ H) as Ep end.
      cbn in Ep. rewrite Ep. destruct p. cbn in *. by subst.
  - intros (H1 & H2 & H3).
    unfold decodeBody. cbn [Z.eqb KindControl KindProbe Pos.eqb]. unfold decodeControl, read_u64.
    assert (Ha : at_rest (mkReader (tail (FControl c)) 0) (tail (FControl c))) by (split; cbn; [done|lia]).
    revert Ha. generalize (mkReader (tail (FControl c)) 0). intros r0 Ha. cbn [tail] in Ha.
    do 2 read_step. pose proof (rest_at _ _ ltac:(eassumption)) as Ep. cbn in Ep. rewrite Ep.
    by destruct c.
Qed.

(** ** Decoding arbitrary bytes *)

(** Every read succeeds in range or fails with [ErrMalformed], and leaves the
    cursor over bytes. *)
Definition read_result (o : outcome error Z) (hi : Z) : Prop :=
  o = Err ErrMalformed \/ exists v, o = Ok v /\ 0 <= v < hi.

Lemma read_be_any n r l :
  at_rest r l -> bytes_ok l ->
  exists r' o l', read_be n r = (r', o) /\ at_rest r' l' /\ bytes_ok l' /\
    read_result o (256 ^ Z.of_nat n).
Proof.
  intros Ha Hb. pose proof (read_be_at n r l Ha) as H.
  destruct (Nat.ltb_spec (length l) n) as [|Hn].
  - exists r, (Err ErrMalformed), l. split_and!; try done. by left.
  - destruct H as (r' & E & Ha'). eexists _, _, _. split_and!; [done|done|by apply Forall_drop|].
    right. eexists. split; [done|]. pose proof (be_get_range (take n l) (Forall_take _ _ _ Hb)) as R.
    by rewrite length_take, Nat.min_l in R by lia.
Qed.

Lemma read_u8_any r l :
  at_rest r l -> bytes_ok l ->
  exists r' o l', read_u8 r = (r', o) /\ at_rest r' l' /\ bytes_ok l' /\ read_result o 256.
Proof.
  intros Ha Hb. pose proof (read_u8_at r l Ha) as H. destruct l as [|x l].
  - exists r, (Err ErrMalformed), []. split_and!; try done. by left.
  - destruct H as (r' & E & Ha'). inversion Hb as [|? ? Hx Hl]; subst.
    eexists _, _, _. split_and!; [done|done|done|]. right. eexists. by split.
Qed.

Lemma firstErr_cases l :
  Forall (fun o => exists hi, read_result o hi) l ->
  firstErr l = Err ErrMalformed \/ (firstErr l = Ok () /\ Forall (fun o => exists v, o = Ok v) l).
Proof.
  induction 1 as [|o l [hi [->|(v & -> & _)]] _ IH]; cbn; [by right| by left|].
  destruct IH as [IH|[IH F]]; [by left|]. right. split; [done|]. constructor; eauto.
Qed.

(** What a failed or successful decode can be. *)
Definition decoded (o : outcome error Frame) : Prop :=
  match o with Ok f => frame_ok f | Err e => e = ErrMalformed | Panic => False end.

Ltac read_any :=
  match goal with
  | Ha : at_rest ?r ?l, Hb : bytes_ok ?l |- context [read_be ?n ?r] =>
    let E := fresh "E" in destruct (read_be_any n r l Ha Hb) as (? & ? & ? & E & ? & ? & ?); rewrite E; clear E Ha Hb
  | Ha : at_rest ?r ?l, Hb : bytes_ok ?l |- context [read_u8 ?r] =>
    let E := fresh "E" in destruct (read_u8_any r l Ha Hb) as (? & ? & ? & E & ? & ? & ?); rewrite E; clear E Ha Hb
  end.

Lemma val_range o hi : read_result o hi -> 0 < hi -> 0 <= val o < hi.
Proof. intros [->|(v & -> & ?)] ?; cbn; lia. Qed.

Lemma i64_range x : minI64 <= i64 x <= maxI64.
Proof.
  unfold i64, minI64, maxI64. pose proof (Z.mod_pos_bound (x + 2 ^ 63) (2 ^ 64) ltac:(lia)). lia.
Qed.

Lemma decodeProbe_ok r l : at_rest r l -> bytes_ok l -> decoded (decodeProbe r).
Proof.
  intros Ha Hb. unfold decodeProbe, read_u64, read_u16. do 6 read_any.
  match goal with |- context [firstErr ?l] => destruct (firstErr_cases l) as [E|[E _]] end.
  { repeat constructor; eauto. }
  { by rewrite E. }
  rewrite E. cbn -[Z.land read_be rest].
  match goal with |- context [if ?b then _ else _] => destruct b end.
  - read_any. match goal with H : read_result ?o _ |- context [mbind _ ?o] => destruct H as [->|(v & -> & Hv)] end; cbn; [done|].
    match goal with |- context [if ?b then _ else _] => destruct b end; [done|]. cbn.
    repeat match goal with H : read_result ?o _ |- _ => apply val_range in H; [|cbn; lia] end.
    cbn in *. unfold probe_ok. cbn.
    split_and!; try range; try (constructor || done); apply i64_range.
  - cbn. repeat match goal with H : read_result ?o _ |- _ => apply val_range in H; [|cbn; lia] end.
    cbn in *. unfold probe_ok. cbn.
    match goal with H : at_rest ?r _ |- _ => rewrite (proj1 H) end.
    split_and!; try range; try done; apply i64_range.
Qed.

Lemma decodeControl_ok r l : at_rest r l -> bytes_ok l -> decoded (decodeControl r).
Proof.
  intros Ha Hb. unfold decodeControl, read_u64. do 2 read_any.
  match goal with |- context [firstErr ?l] => destruct (firstErr_cases l) as [E|[E _]] end.
  { repeat constructor; eauto. }
  { by rewrite E. }
  rewrite E. cbn.
  repeat match goal with H : read_result ?o _ |- _ => apply val_range in H; [|cbn; lia] end. cbn in *.
  match goal with H : at_rest ?r _ |- _ => rewrite (proj1 H) end. split_and!; try range; done.
Qed.

Lemma decodeBody_ok kind b : bytes_ok b -> decoded (decodeBody kind b).
Proof.
  intros Hb. assert (Ha : at_rest (mkReader b 0) b) by (split; cbn; [done|lia]).
  unfold decodeBody. destruct (kind =? KindProbe); [by eapply decodeProbe_ok|].
  destruct (kind =? KindControl); [by eapply decodeControl_ok|done].
Qed.

(** ** The codec *)

Lemma length_tag k n b : length (tag k n b) = tagLen.
Proof. unfold tag. by rewrite length_take, sha256.length_hmac. Qed.

Lemma length_tail f :
  frame_ok f ->
  length (tail f) =
    match f with
    | FProbe p => (34 + if Padded p then 2 + Z.to_nat (PadLen p) else length (ProbePayload p))%nat
    | FControl c => (9 + length (ControlPayload c))%nat
    end.
Proof.
  destruct f as [p|c]; intros _; cbn [tail]; [destruct (Padded p)|];
    repeat (cbn [length]; rewrite ?length_app, ?length_be_put, ?length_replicate); lia.
Qed.

Lemma tail_bytes f : frame_ok f -> bytes_ok (tail f).
Proof.
  destruct f as [p|c].
  - intros (H1 & H2 & H3 & H4 & H5 & H6 & H7 & H8). destruct (flags_spec p) as (Hb & _).
    assert (Hx : bytes_ok (if Padded p then be_put 2 (PadLen p) ++ replicate (Z.to_nat (PadLen p)) 0
                           else ProbePayload p)).
    { destruct (Padded p); [|done]. apply Forall_app; split; [apply be_put_bytes|].
      apply Forall_replicate. unfold is_byte. lia. }
    unfold bytes_ok in *. cbn [tail].
    constructor; [done|]. repeat (apply Forall_app_2; [apply be_put_bytes|]).
    constructor; [done|]. by repeat (apply Forall_app_2; [apply be_put_bytes|]).
  - intros (H1 & H2 & H3). cbn [tail]. constructor; [done|].
    apply Forall_app_2; [apply be_put_bytes|done].
Qed.

(** Codecs of one PSK differ only in their scratch buffers. *)
Definition codec_for (psk : Key) (c : Codec) : Prop :=
  exists c0, NewCodec psk = Ok c0 /\ obfKey c = obfKey c0 /\ authKey c = authKey c0.

Lemma NewCodec_ok psk :
  IsSet psk = true -> exists c, NewCodec psk = Ok c /\ length (obfKey c) = subkeyLen.
Proof.
  intros Hs. unfold NewCodec, subkeys. rewrite Hs. cbn [negb].
  destruct (sha256.hkdf_Key_ok (Bytes psk) [] infoObf subkeyLen) as (k1 & -> & L1); [unfold subkeyLen; lia|].
  destruct (sha256.hkdf_Key_ok (Bytes psk) [] infoAuth subkeyLen) as (k2 & -> & L2); [unfold subkeyLen; lia|].
  eexists. split; [done|]. done.
Qed.

Lemma codec_for_keys psk c : codec_for psk c -> length (obfKey c) = subkeyLen.
Proof.
  intros (c0 & E & -> & _). destruct (IsSet psk) eqn:Hs.
  - destruct (NewCodec_ok psk Hs) as (c1 & E1 & L). congruence.
  - unfold NewCodec, subkeys in E. by rewrite Hs in E.
Qed.

(** Encoding is possible: a frame the validator passes. *)
Definition encodable (f : Frame) : Prop :=
  frame_ok f /\ match f with FProbe p => is_ok (validate p) = true | FControl _ => True end.

Section Wire.
Context {C : Cipher} {L : CipherLaws C}.

Lemma Encode_wire psk c nonce dst f :
  codec_for psk c -> encodable f -> length nonce = nonceLen ->
  exists ks, NewUnauthenticatedCipher (obfKey c) nonce = Some ks /\
    let obf := xor_from ks 0 (Kind f :: tail f) in
    Encode (Some nonce) dst f c =
      (c <| encScratch := obf |>, Ok (dst ++ nonce ++ obf ++ tag (authKey c) nonce obf)).
Proof.
  intros Hc [Hf Hv] Hn. pose proof (codec_for_keys psk c Hc) as Hk.
  destruct (cipher_accepts (obfKey c) nonce Hk Hn) as (ks & Ek). exists ks. split; [done|].
  cbv zeta. unfold Encode.
  assert (Ev : (match f with FProbe p => validate p | FControl _ => Ok () end) = Ok ()).
  { destruct f as [p|?]; [|done]. revert Hv. unfold validate. repeat case_match; done. }
  rewrite Ev. cbn [take encScratch update]. rewrite (appendBody_tail f), app_nil_l.
  unfold obfuscate. cbn [obfKey authKey update encScratch]. rewrite Ek. cbn [snd XORKeyStream keystream consumed].
  by rewrite <- !app_assoc.
Qed.

(** [Decode] on a datagram cut into nonce, first body byte, body and tag. *)
Lemma Decode_split c nonce x obf t :
  length nonce = nonceLen -> length t = tagLen ->
  snd (Decode (nonce ++ (x :: obf) ++ t) c) =
    match NewUnauthenticatedCipher (obfKey c) nonce with
    | None => Panic
    | Some ks =>
      let kind := Z.lxor x (ks 0%nat) in
      if negb (valid kind) then Err ErrMalformed
      else if negb (bool_decide (t = tag (authKey c) nonce (x :: obf))) then Err ErrAuth
      else decodeBody kind (xor_from ks 1 obf)
    end.
Proof.
  intros Hn Ht. unfold Decode.
  assert (Hlen : length (nonce ++ (x :: obf) ++ t) = (nonceLen + (1 + length obf + tagLen))%nat).
  { rewrite !length_app, Hn, Ht. done. }
  rewrite Hlen. destruct (Nat.ltb_spec (nonceLen + (1 + length obf + tagLen)) (nonceLen + 1)); [lia|].
  rewrite (take_app_length' nonce) by done. rewrite (drop_app_length' nonce) by done.
  destruct (NewUnauthenticatedCipher _ _) as [ks|]; [|done].
  cbn [app take XORKeyStream keystream consumed xor_from]. cbv zeta.
  change (default 0 ([Z.lxor x (ks 0%nat)] !! 0%nat)) with (Z.lxor x (ks 0%nat)).
  destruct (valid _); cbn [negb]; [|done].
  replace (length (x :: obf ++ t)) with (S (length obf) + tagLen)%nat by (cbn; rewrite length_app, Ht; lia).
  destruct (Nat.ltb_spec (S (length obf) + tagLen) (tagLen + 1)); [lia|].
  rewrite Nat.add_sub. change (x :: obf ++ t) with ((x :: obf) ++ t).
  rewrite (take_app_length' (x :: obf)) by done. rewrite (drop_app_length' (x :: obf)) by done.
  destruct (bool_decide _); cbn [negb]; [|done]. cbn [snd]. f_equal.
  cbn [decScratch update app take]. destruct obf; done.
Qed.

(** Anything shorter than a nonce, a kind byte and a tag is malformed. *)
Lemma Decode_short psk c raw :
  codec_for psk c -> (length raw < nonceLen + 1 + tagLen)%nat -> snd (Decode raw c) = Err ErrMalformed.
Proof.
  intros Hc Hl. unfold Decode. destruct (Nat.ltb_spec (length raw) (nonceLen + 1)); [done|].
  destruct (cipher_accepts (obfKey c) (take nonceLen raw)) as (ks & ->).
  { exact (codec_for_keys psk c Hc). }
  { rewrite length_take. unfold nonceLen in *. lia. }
  cbn [XORKeyStream]. destruct (negb _); [done|].
  rewrite length_drop. destruct (Nat.ltb_spec (length raw - nonceLen) (tagLen + 1)); [done|lia].
Qed.

Lemma raw_split (raw : list Z) :
  (nonceLen + 1 + tagLen <= length raw)%nat ->
  exists nonce x obf t, raw = nonce ++ (x :: obf) ++ t /\ length nonce = nonceLen /\ length t = tagLen.
Proof.
  intros Hl. set (n := (length raw - nonceLen - tagLen)%nat).
  assert (Hm : length (take n (drop nonceLen raw)) = n) by (rewrite length_take, length_drop; lia).
  destruct (take n (drop nonceLen raw)) as [|x obf] eqn:E; [cbn in Hm; lia|].
  exists (take nonceLen raw), x, obf, (drop n (drop nonceLen raw)).
  rewrite <- E, take_drop, take_drop. split_and!; [done|..];
    rewrite ?length_take, ?length_drop; lia.
Qed.
End Wire.

(** A cipher for the witnesses: a keystream that depends on key, nonce and
    position. *)
Definition toy_cipher : Cipher := fun key nonce =>
  if (length key =? 32)%nat && (length nonce =? 24)%nat
  then Some (fun i => (be_get key + 7 * be_get nonce + 31 * Z.of_nat i) mod 256) else None.

Lemma toy_laws : CipherLaws toy_cipher.
Proof.
  split.
  - intros key nonce Hk Hn. unfold NewUnauthenticatedCipher, toy_cipher. rewrite Hk, Hn. cbn. eauto.
  - intros key nonce ks. unfold NewUnauthenticatedCipher, toy_cipher. destruct (_ && _); [|done].
    intros [= <-] i. apply Z.mod_pos_bound. lia.
Qed.

(** ** The guarantees *)

(** The round trip, for codecs in use and for the one-shot wrappers. *)
Lemma roundtrip_any {C : Cipher} {L : CipherLaws C} psk ce cd nonce dst f :
  codec_for psk ce -> codec_for psk cd -> encodable f -> length nonce = nonceLen ->
  exists ce' cd' w,
    Encode (Some nonce) dst f ce = (ce', Ok (dst ++ w)) /\ codec_for psk ce' /\
    Decode w cd = (cd', Ok f).
Proof.
  intros He Hd Hf Hn. destruct (Encode_wire psk ce nonce dst f He Hf Hn) as (ks & Ek & E).
  eexists _, (fst (Decode _ cd)), _. split_and!; [exact E|exact He|].
  set (obf := xor_from ks 1 (tail f)). rewrite (surjective_pairing (Decode _ cd)). f_equal.
  cbn [xor_from]. rewrite Decode_split by (done || apply length_tag). fold obf.
  destruct He as (c0 & E0 & Eo & Ea), Hd as (c1 & E1 & Do & Da).
  assert (c1 = c0) as -> by congruence. rewrite Do, Da, <- Eo, <- Ea, Ek.
  rewrite bool_decide_true by done. cbn [negb].
  cbv zeta. rewrite Z.lxor_assoc, Z.lxor_nilpotent, Z.lxor_0_r.
  replace (valid (Kind f)) with true by by destruct f. subst obf. rewrite xor_from_involutive.
  apply decodeBody_tail, Hf.
Qed.

Lemma oneshot_roundtrip {C : Cipher} {L : CipherLaws C} psk nonce f :
  IsSet psk = true -> encodable f -> length nonce = nonceLen ->
  exists w, EncodeWith (Some nonce) psk f = Ok w /\ DecodeWith psk w = Ok f.
Proof.
  intros Hs Hf Hn. destruct (NewCodec_ok psk Hs) as (c & Ec & _).
  assert (Hc : codec_for psk c) by by exists c.
  destruct (roundtrip_any psk c c nonce [] f Hc Hc Hf Hn) as (ce & cd & w & E & _ & D).
  exists w. unfold EncodeWith, DecodeWith. rewrite Ec. cbn [mbind outcome_bind]. by rewrite E, D.
Qed.

(** C14. Round trip.  Under a configured PSK and any nonce, encoding a
    well-formed frame succeeds, appends to the caller's buffer, and what it
    appended decodes back to that frame; the scratch buffers the two codecs
    carry from earlier calls do not matter. *)
Theorem frame_roundtrip {C : Cipher} {L : CipherLaws C} psk ce cd nonce dst f :
  codec_for psk ce -> codec_for psk cd -> encodable f -> length nonce = nonceLen ->
  exists ce' cd' w,
    Encode (Some nonce) dst f ce = (ce', Ok (dst ++ w)) /\ codec_for psk ce' /\
    Decode w cd = (cd', Ok f).
Proof. apply roundtrip_any. Qed.

Definition psk1 : Key := mkKey (replicate 32 5) true.
Definition codec1 : Codec := match NewCodec psk1 with Ok c => c | _ => mkCodec [] [] [] [] end.
Definition probe1 : Frame := FProbe (mkProbe 2 77 (-5) true (2 ^ 40) 9 true 20 []).

Lemma frame_roundtrip_witness :
  exists ce' cd' w,
    @Encode toy_cipher (Some (replicate 24 1)) [7; 7] probe1
      (mkCodec (obfKey codec1) (authKey codec1) [1; 2; 3] []) = (ce', Ok ([7; 7] ++ w)) /\
    codec_for psk1 ce' /\
    @Decode toy_cipher w codec1 = (cd', Ok probe1).
Proof.
  apply (@frame_roundtrip toy_cipher toy_laws psk1).
  - eexists. split; [reflexivity|]. split; reflexivity.
  - eexists. split; [reflexivity|]. split; reflexivity.
  - split; [|reflexivity]. cbn. unfold probe_ok; cbn. split_and!; try range; constructor.
  - reflexivity.
Defined.

(** What decoding arbitrary bytes gives. *)
Lemma decode_any {C : Cipher} {L : CipherLaws C} psk c raw :
  codec_for psk c -> bytes_ok raw ->
  match snd (Decode raw c) with
  | Panic => False
  | Err e => e = ErrMalformed \/ e = ErrAuth
  | Ok f => frame_ok f /\
      exists nonce obf, length nonce = nonceLen /\ (1 <= length obf)%nat /\
        raw = nonce ++ obf ++ tag (authKey c) nonce obf
  end.
Proof.
  intros Hc Hb. destruct (Nat.lt_ge_cases (length raw) (nonceLen + 1 + tagLen)) as [Hs|Hl].
  { rewrite (Decode_short psk c raw Hc Hs). by left. }
  destruct (raw_split raw Hl) as (nonce & x & obf & t & -> & Hn & Ht).
  rewrite Decode_split by done.
  destruct (cipher_accepts (obfKey c) nonce (codec_for_keys psk c Hc) Hn) as (ks & Ek). rewrite Ek. cbv zeta.
  destruct (valid _); cbn [negb]; [|by left].
  destruct (bool_decide_reflect (t = tag (authKey c) nonce (x :: obf))) as [->|]; cbn [negb]; [|by right].
  assert (Ho : bytes_ok (xor_from ks 1 obf)).
  { apply xor_from_bytes; [eapply cipher_bytes, Ek|].
    apply Forall_app in Hb as [_ Hb]. apply Forall_app in Hb as [Hb _]. by inversion Hb. }
  pose proof (decodeBody_ok (Z.lxor x (ks 0%nat)) _ Ho) as D. unfold decoded in D.
  destruct (decodeBody _ _); [|by left|done]. split; [done|].
  exists nonce, (x :: obf). split_and!; [done|cbn; lia|done].
Qed.

Lemma oneshot_decode {C : Cipher} {L : CipherLaws C} psk raw : IsSet psk = true -> bytes_ok raw ->
  match DecodeWith psk raw with Panic => False | Err _ => True | Ok f => frame_ok f end.
Proof.
  intros Hs Hb. destruct (NewCodec_ok psk Hs) as (c & Ec & _).
  pose proof (decode_any psk c raw ltac:(by exists c) Hb) as D.
  unfold DecodeWith. rewrite Ec. cbn [mbind outcome_bind]. destruct (snd (Decode raw c)); naive_solver.
Qed.

(** C11. Authentication.  On any bytes whatever, decoding does not panic.  When
    it accepts, the datagram is a nonce, a body and the tag computed over them
    under the PSK-derived authentication key, and the frame is well-formed; a
    datagram shorter than a nonce, a kind byte and a tag is malformed, and one
    whose tag differs from the one computed is never accepted. *)
Theorem frame_decode_authentic {C : Cipher} {L : CipherLaws C} psk c raw :
  codec_for psk c -> bytes_ok raw ->
  match snd (Decode raw c) with
  | Panic => False
  | Err e => e = ErrMalformed \/ e = ErrAuth
  | Ok f => frame_ok f /\
      exists nonce obf, length nonce = nonceLen /\ (1 <= length obf)%nat /\
        raw = nonce ++ obf ++ tag (authKey c) nonce obf
  end.
Proof. apply decode_any. Qed.

Lemma frame_decode_authentic_witness :
  match snd (@Decode toy_cipher (replicate 60 9) codec1) with
  | Panic => False
  | Err e => e = ErrMalformed \/ e = ErrAuth
  | Ok f => frame_ok f /\
      exists nonce obf, length nonce = nonceLen /\ (1 <= length obf)%nat /\
        replicate 60 9 = nonce ++ obf ++ tag (authKey codec1) nonce obf
  end.
Proof.
  apply (@frame_decode_authentic toy_cipher toy_laws psk1).
  - eexists. split; [reflexivity|]. split; reflexivity.
  - apply Forall_replicate. unfold is_byte. lia.
Defined.

(** Exact sizes.  An encoded control frame is its payload plus
    [ControlOverhead] bytes, an encoded padded probe exactly
    [ProbeOnWireSize] of its pad length; and [PadLenForOnWire] accepts exactly
    the sizes from [ProbeBaseOnWire] to [MaxPaddedProbeOnWire], each with the
    pad length whose probe passes validation and has that size. *)
Theorem frame_on_wire_size {C : Cipher} {L : CipherLaws C} psk c nonce f ce w :
  codec_for psk c -> encodable f -> length nonce = nonceLen ->
  Encode (Some nonce) [] f c = (ce, Ok w) ->
  match f with
  | FControl k => length w = (ControlOverhead + length (ControlPayload k))%nat
  | FProbe p => Padded p = true -> Z.of_nat (length w) = ProbeOnWireSize (PadLen p)
  end /\
  forall n, match PadLenForOnWire n with
    | Ok pad => ProbeBaseOnWire <= n <= MaxPaddedProbeOnWire /\ is_u16 pad /\ ProbeOnWireSize pad = n /\
        (forall p, Padded p = true -> ProbePayload p = [] -> PadLen p = pad -> validate p = Ok ())
    | Err e => e = ErrMalformed /\ (n < ProbeBaseOnWire \/ MaxPaddedProbeOnWire < n)
    | Panic => False
    end.
Proof.
  intros Hc Hf Hn E. destruct (Encode_wire psk c nonce [] f Hc Hf Hn) as (ks & _ & Ew).
  cbv zeta in Ew. set (obf := xor_from ks 0 (Kind f :: tail f)) in *.
  assert (Hw : [] ++ nonce ++ obf ++ tag (authKey c) nonce obf = w) by congruence. split.
  - pose proof (length_tail f (proj1 Hf)) as Ht. destruct Hf as [Hf _].
    apply (f_equal length) in Hw. rewrite !length_app, length_tag, Hn in Hw. subst obf.
    rewrite length_xor_from in Hw. cbn [length] in Hw. rewrite Ht in Hw. unfold nonceLen, tagLen in Hw. destruct f as [p|k]; [|unfold ControlOverhead, nonceLen, tagLen; lia].
    intros Epd. rewrite Epd in Hw. destruct Hf as (_ & _ & _ & _ & _ & Hp & _).
    unfold ProbeOnWireSize, ProbeBaseOnWire, probeFixedBody, nonceLen, tagLen. range.
  - intros n. unfold PadLenForOnWire. change ProbeBaseOnWire with 77. unfold MaxPaddedProbeOnWire, ProbeOnWireSize.
    change ProbeBaseOnWire with 77.
    destruct (Z.ltb_spec n 77); [by auto|]. destruct (Z.ltb_spec 9000 n); [by auto|].
    unfold u16. rewrite Z.mod_small by lia. split_and!; [lia|lia|range|lia|].
    intros p Hp Hy El. unfold validate. rewrite Hp, Hy, El. cbn [negb length Nat.ltb Nat.leb].
    unfold ProbeOnWireSize, MaxPaddedProbeOnWire. change ProbeBaseOnWire with 77.
    destruct (Z.ltb_spec 9000 (77 + (n - 77))); [lia|done].
Qed.

Lemma frame_on_wire_size_witness :
  exists ce w, @Encode toy_cipher (Some (replicate 24 1)) [] probe1 codec1 = (ce, Ok w) /\
    Z.of_nat (length w) = ProbeOnWireSize 20 /\ PadLenForOnWire 97 = Ok 20.
Proof.
  destruct (@Encode_wire toy_cipher toy_laws psk1 codec1 (replicate 24 1) [] probe1) as (ks & _ & E).
  - eexists. split; [reflexivity|]. split; reflexivity.
  - split; [|reflexivity]. cbn. unfold probe_ok; cbn. split_and!; try range; constructor.
  - reflexivity.
  - eexists _, _. split; [exact E|]. split; [|reflexivity].
    eapply (@frame_on_wire_size toy_cipher toy_laws psk1 codec1 (replicate 24 1) probe1).
    + eexists. split; [reflexivity|]. split; reflexivity.
    + split; [|reflexivity]. cbn. unfold probe_ok; cbn. split_and!; try range; constructor.
    + reflexivity.
    + exact E.
    + reflexivity.
Defined.

End frame_props.
