(* ===== verification/BondWire.v ===== *)
(** * The bonding transport on the wire ([internal/bond/wire.go], [errors.go])

    Lane headers, data and acknowledgement payloads and the hello of the probe
    exchange.  A slice read past the end panics in Go, so every fixed-offset
    read is an [outcome]. *)

From stdpp Require Import base tactics list numbers.
From S2P Require Import Prelude Frame.

Module bond.
Import frame.

Definition DataType : Z := 0xa1.
Definition ACKType : Z := 0xa2.
Definition Version : Z := 1.
Definition headerBytes : nat := 19.
Definition dataFieldBytes : nat := (16 + 8 + 8)%nat.
Definition Overhead : nat := (ControlOverhead + headerBytes + dataFieldBytes)%nat.
Definition ackBytes : nat := 96.
Definition ackReceiptWords : nat := 4.
Definition ackReceiptBits : Z := 64 * Z.of_nat ackReceiptWords.
Definition interactiveBit : Z := Z.shiftl 1 63.

Inductive RejectionCause :=
  RejectMalformed | RejectEpoch | RejectPath | RejectLane | RejectACK | RejectType | RejectTime.
#[export] Instance RejectionCause_eq_dec : EqDecision RejectionCause.
Proof. solve_decision. Defined.

Record Epoch := mkEpoch { Boot : Z; Generation : Z }.
#[export] Instance Epoch_eq_dec : EqDecision Epoch.
Proof. solve_decision. Defined.
Definition Epoch0 : Epoch := mkEpoch 0 0.

Record packetHeader := mkHeader { epoch : Epoch; lane : Z }.

(** [binary.BigEndian.Uint64(b[o:])] and [Uint16]: out of range panics. *)
Definition get (n o : nat) (b : list Z) : outcome RejectionCause Z :=
  if (length b <? o + n)%nat then Panic else Ok (be_get (take n (drop o b))).

Definition appendHeader (h : packetHeader) : list Z :=
  Version :: be_put 8 (Boot (epoch h)) ++ be_put 8 (Generation (epoch h)) ++ be_put 2 (lane h).

Definition parseHeader (b : list Z) : outcome RejectionCause packetHeader :=
  if (length b <? headerBytes)%nat || negb (default 0 (b !! 0%nat) =? Version)
  then Err RejectMalformed
  else
    boot ← get 8 1 b;
    generation ← get 8 9 b;
    ln ← get 2 17 b;
    let h := mkHeader (mkEpoch boot generation) ln in
    if (Boot (epoch h) =? 0) || (Generation (epoch h) =? 0) then Err RejectMalformed
    else Ok h.

Definition dataFrame (ep destination : Epoch) (ln attempt seq order : Z) (payload : list Z) : Control :=
  let b := appendHeader (mkHeader ep ln) ++ be_put 8 (Boot destination) in
  let b := b ++ be_put 8 (Generation destination) in
  let b := b ++ be_put 8 seq in
  let b := b ++ be_put 8 order in
  let b := b ++ payload in
  mkControl DataType attempt b.

Record acknowledgement := mkAck {
  observed : Epoch;
  high : Z;
  mask : Z;
  bytes : Z;
  elapsed : Z;
  delay : Z;
  receivedHigh : Z;
  receivedMask : list Z
}.

Definition received (a : acknowledgement) (seq : Z) : bool :=
  if (seq =? 0) || (receivedHigh a <? seq) ||
     (Z.of_nat (length (receivedMask a)) * 64 <=? u64 (receivedHigh a - seq))
  then false
  else
    let delta := u64 (receivedHigh a - seq) in
    negb (Z.land (default 0 (receivedMask a !! Z.to_nat (delta / 64)))
                 (u64 (Z.shiftl 1 (delta mod 64))) =? 0).

Definition ackFrame (ep : Epoch) (ln revision : Z) (a : acknowledgement) : Control :=
  let b := appendHeader (mkHeader ep ln) in
  let b := fold_left (fun b value => b ++ be_put 8 value)
             [Boot (observed a); Generation (observed a); high a; mask a; bytes a; elapsed a; delay a] b in
  let b := b ++ be_put 8 (receivedHigh a) in
  let b := fold_left (fun b m => b ++ be_put 8 m) (receivedMask a) b in
  mkControl ACKType revision b.

Definition parseACK (b : list Z) : outcome RejectionCause acknowledgement :=
  if negb (length b =? headerBytes + ackBytes)%nat then Err RejectMalformed
  else
    let b := drop headerBytes b in
    ob ← get 8 0 b; og ← get 8 8 b; hi ← get 8 16 b; mk ← get 8 24 b; by_ ← get 8 32 b;
    el ← get 8 40 b; de ← get 8 48 b; rh ← get 8 56 b;
    if (maxI64 <? el) || (maxI64 <? de) then Err RejectMalformed
    else
      m0 ← get 8 64 b; m1 ← get 8 72 b; m2 ← get 8 80 b; m3 ← get 8 88 b;
      Ok (mkAck (mkEpoch ob og) hi mk by_ el de rh [m0; m1; m2; m3]).

Definition helloMagic : list Z := [98; 111; 110; 100].

Definition Hello (ep : Epoch) (path : Z) : list Z :=
  let b := helloMagic ++ [Version; path] in
  let b := b ++ be_put 8 (Boot ep) in
  b ++ be_put 8 (Generation ep).

Definition ParseHello (b : list Z) : Epoch * Z * bool :=
  if negb (length b =? 22)%nat || negb (bool_decide (take 4 b = helloMagic)) ||
     negb (default 0 (b !! 4%nat) =? Version)
  then (Epoch0, 0, false)
  else
    let ep := mkEpoch (be_get (take 8 (drop 6 b))) (be_get (take 8 (drop 14 b))) in
    (ep, default 0 (b !! 5%nat), negb (Boot ep =? 0) && negb (Generation ep =? 0)).

End bond.
