(* ===== verification/BondWireProps.v ===== *)
(** * What the bond wire format guarantees

    Every encoder is inverted by its parser, every parser is total, and what a
    parser accepts is exactly what the encoder writes. *)

From stdpp Require Import base tactics list numbers.
From S2P Require Import Prelude Frame BondWire.

Module bond_wire_props.
Import frame bond.

Definition epoch_ok (e : Epoch) : Prop := 0 < Boot e < 2 ^ 64 /\ 0 < Generation e < 2 ^ 64.
Definition header_ok (h : packetHeader) : Prop := epoch_ok (epoch h) /\ is_u16 (lane h).

(** ** Runs of 64-bit words *)
Fixpoint words64 (l : list Z) : list Z :=
  match l with [] => [] | x :: l => be_put 8 x ++ words64 l end.

Lemma length_words64 l : length (words64 l) = (8 * length l)%nat.
Proof. induction l; cbn [words64 length]; [done|]. rewrite length_app, length_be_put. lia. Qed.

Lemma words64_bytes l : bytes_ok (words64 l).
Proof. induction l; cbn [words64]; [constructor|]. apply Forall_app_2; [apply be_put_bytes|done]. Qed.

Lemma fold_words64 l b : fold_left (fun b v => b ++ be_put 8 v) l b = b ++ words64 l.
Proof.
  revert b. induction l as [|x l IH]; intros b; cbn [fold_left words64]; [by rewrite app_nil_r|].
  rewrite IH. by rewrite <- app_assoc.
Qed.

Lemma get_ok n o b : (o + n <= length b)%nat -> get n o b = Ok (be_get (take n (drop o b))).
Proof. intros H. unfold get. destruct (Nat.ltb_spec (length b) (o + n)); [lia|done]. Qed.

Lemma get_at n o pre v post :
  length pre = o -> 0 <= v < 256 ^ Z.of_nat n -> get n o (pre ++ be_put n v ++ post) = Ok v.
Proof.
  intros <- Hv. rewrite get_ok by (rewrite !length_app, length_be_put; lia).
  rewrite drop_app_length, take_app_length'; [|by rewrite length_be_put].
  by rewrite be_get_put, Z.mod_small.
Qed.

Lemma get_drop n o b v post :
  (o <= length b)%nat -> drop o b = be_put n v ++ post -> 0 <= v < 256 ^ Z.of_nat n -> get n o b = Ok v.
Proof.
  intros Ho E Hv. rewrite get_ok.
  - by rewrite E, take_be_put.
  - apply (f_equal length) in E. rewrite length_drop, length_app, length_be_put in E. lia.
Qed.

Lemma drop_cons n (x : Z) l : drop (S n) (x :: l) = drop n l.
Proof. done. Qed.

Lemma words64_app l1 l2 : words64 (l1 ++ l2) = words64 l1 ++ words64 l2.
Proof. induction l1 as [|x l IH]; cbn [words64 app]; [done|]. by rewrite IH, app_assoc. Qed.

Lemma get_word k l v : l !! k = Some v -> is_u64 v -> get 8 (8 * k) (words64 l) = Ok v.
Proof.
  intros Hk Hv. pose proof (take_drop_middle l k v Hk) as E. rewrite <- E at 1.
  rewrite words64_app. apply get_at; [|cbn; range].
  rewrite length_words64, length_take. apply lookup_lt_Some in Hk. lia.
Qed.

(** A whole number of words is read and written back unchanged. *)
Lemma words64_chunk b : (8 <= length b)%nat -> bytes_ok b -> be_put 8 (be_get (take 8 b)) ++ drop 8 b = b.
Proof.
  intros Hl Hb. rewrite <- (take_drop 8 b) at 3. f_equal.
  replace 8%nat with (length (take 8 b)) at 1 by (rewrite length_take; lia).
  apply be_put_get. by apply Forall_take.
Qed.

(** ** Headers *)
Lemma length_appendHeader h : length (appendHeader h) = headerBytes.
Proof. unfold appendHeader. cbn [length]. rewrite !length_app, !length_be_put. done. Qed.

Lemma parseHeader_ok h payload : header_ok h -> parseHeader (appendHeader h ++ payload) = Ok h.
Proof.
  intros [[Hb Hg] Hl]. unfold parseHeader.
  rewrite length_app, length_appendHeader. destruct (Nat.ltb_spec (headerBytes + length payload) headerBytes); [lia|].
  change (default 0 ((appendHeader h ++ payload) !! 0%nat)) with Version. cbn [negb orb Z.eqb Pos.eqb Version].
  assert (Hlen : length (appendHeader h ++ payload) = (19 + length payload)%nat)
    by by rewrite length_app, length_appendHeader.
  rewrite (get_drop 8 1 _ (Boot (epoch h)) (be_put 8 (Generation (epoch h)) ++ be_put 2 (lane h) ++ payload)),
    (get_drop 8 9 _ (Generation (epoch h)) (be_put 2 (lane h) ++ payload)),
    (get_drop 2 17 _ (lane h) payload); try (rewrite Hlen; lia); try (cbn; range);
    try (unfold appendHeader; rewrite <- app_comm_cons, <- !app_assoc).
  - cbn [mbind outcome_bind Boot Generation epoch].
    rewrite (proj2 (Z.eqb_neq _ _)), (proj2 (Z.eqb_neq _ _)) by lia. by destruct h as [[] ?].
  - rewrite (drop_cons 16). change 16%nat with (8 + 8)%nat. by rewrite drop_be_put_add, drop_be_put.
  - by rewrite (drop_cons 8), drop_be_put.
  - done.
Qed.

Lemma parseHeader_total b :
  bytes_ok b ->
  match parseHeader b with
  | Ok h => header_ok h /\ take headerBytes b = appendHeader h
  | Err e => e = RejectMalformed
  | Panic => False
  end.
Proof.
  intros Hb. unfold parseHeader. destruct (Nat.ltb_spec (length b) headerBytes) as [|Hl]; [done|].
  unfold headerBytes in Hl. destruct b as [|v b]; [cbn in Hl; lia|].
  change (default 0 ((v :: b) !! 0%nat)) with v. cbn [orb].
  destruct (Z.eqb_spec v Version) as [->|]; cbn [negb]; [|done].
  rewrite !get_ok by lia. cbn [mbind outcome_bind Boot Generation epoch].
  inversion Hb as [|? ? _ Hb']; subst. cbn [length] in Hl.
  rewrite (drop_cons 0), (drop_cons 8), (drop_cons 16), drop_0.
  assert (R : forall n o, (o + n <= length b)%nat -> 0 <= be_get (take n (drop o b)) < 256 ^ Z.of_nat n).
  { intros n o H. pose proof (be_get_range (take n (drop o b)) (Forall_take _ _ _ (Forall_drop _ _ _ Hb'))) as R.
    rewrite length_take, length_drop, Nat.min_l in R by lia. done. }
  pose proof (R 8%nat 0%nat ltac:(lia)) as R0. pose proof (R 8%nat 8%nat ltac:(lia)) as R1.
  pose proof (R 2%nat 16%nat ltac:(lia)) as R2. rewrite drop_0 in R0. cbn in R0, R1, R2.
  destruct (Z.eqb_spec (be_get (take 8 b)) 0); [done|].
  destruct (Z.eqb_spec (be_get (take 8 (drop 8 b))) 0); [done|]. cbn [orb].
  split; [split; [split|]; cbn; range|]. unfold headerBytes, appendHeader. cbn [epoch lane Boot Generation].
  rewrite firstn_cons. f_equal.
  assert (P : forall n o, (o + n <= length b)%nat -> be_put n (be_get (take n (drop o b))) = take n (drop o b)).
  { intros k o H. replace k with (length (take k (drop o b))) at 1 by (rewrite length_take, length_drop; lia).
    apply be_put_get. by apply Forall_take, Forall_drop. }
  pose proof (P 8%nat 0%nat ltac:(lia)) as P0. rewrite drop_0 in P0.
  rewrite P0, (P 8%nat 8%nat), (P 2%nat 16%nat) by lia.
  rewrite app_assoc, take_take_drop. change 16%nat with (8 + 8)%nat. by rewrite take_take_drop.
Qed.

(** ** Data frames *)
Lemma dataFrame_payload ep dst ln att seq order pl :
  ControlPayload (dataFrame ep dst ln att seq order pl) =
    appendHeader (mkHeader ep ln) ++ words64 [Boot dst; Generation dst; seq; order] ++ pl.
Proof. unfold dataFrame. cbn [ControlPayload words64]. by rewrite app_nil_r, <- !app_assoc. Qed.

Lemma get_shift n o a b : get n (length a + o) (a ++ b) = get n o b.
Proof.
  unfold get. rewrite length_app, drop_app_add.
  destruct (Nat.ltb_spec (length a + length b) (length a + o + n)), (Nat.ltb_spec (length b) (o + n)); done || lia.
Qed.

Lemma get_prefix n o b c v : get n o b = Ok v -> get n o (b ++ c) = Ok v.
Proof.
  unfold get. rewrite length_app. destruct (Nat.ltb_spec (length b) (o + n)); [done|].
  destruct (Nat.ltb_spec (length b + length c) (o + n)); [lia|]. intros [= <-].
  rewrite drop_app_le, take_app_le by (rewrite ?length_drop; lia). done.
Qed.

(** ** Acknowledgements *)
Definition ack_ok (a : acknowledgement) : Prop :=
  Forall is_u64 [Boot (observed a); Generation (observed a); high a; mask a; bytes a; receivedHigh a] /\
  0 <= elapsed a <= maxI64 /\ 0 <= delay a <= maxI64 /\
  length (receivedMask a) = ackReceiptWords /\ Forall is_u64 (receivedMask a).

Definition ack_words (a : acknowledgement) : list Z :=
  [Boot (observed a); Generation (observed a); high a; mask a; bytes a; elapsed a; delay a; receivedHigh a]
    ++ receivedMask a.

Lemma ackFrame_payload ep ln rev a :
  ControlPayload (ackFrame ep ln rev a) = appendHeader (mkHeader ep ln) ++ words64 (ack_words a).
Proof.
  unfold ackFrame, ack_words. cbn [ControlPayload]. rewrite !fold_words64, words64_app, <- !app_assoc.
  done.
Qed.

Lemma ack_words_u64 a : ack_ok a -> Forall is_u64 (ack_words a) /\ length (ack_words a) = 12%nat.
Proof.
  intros (F & He & Hd & Hl & Hm). unfold ack_words. split; [|by rewrite length_app, Hl].
  apply Forall_app_2; [|done]. repeat (inversion F as [|? ? ?H F']; subst; clear F; rename F' into F).
  repeat constructor; try assumption; range.
Qed.

Lemma parseACK_words h a : ack_ok a -> length h = headerBytes -> parseACK (h ++ words64 (ack_words a)) = Ok a.
Proof.
  intros Ha Hh. destruct (ack_words_u64 a Ha) as [F L]. unfold parseACK.
  rewrite length_app, length_words64, Hh, L. change (negb _) with false. cbn iota.
  rewrite <- Hh, drop_app_length.
  assert (G : forall k o v, o = (8 * k)%nat -> ack_words a !! k = Some v ->
    get 8 o (words64 (ack_words a)) = Ok v).
  { intros k o v -> Hk. apply get_word; [done|]. by eapply Forall_lookup_1. }
  destruct Ha as (_ & He & Hd & Hl & _). destruct a as [[ob og] hi mk by_ el de rh rm]. cbn in Hl, He, Hd.
  destruct rm as [|m0 [|m1 [|m2 [|m3 [|]]]]]; try discriminate.
  rewrite (G 0%nat 0%nat ob), (G 1%nat 8%nat og), (G 2%nat 16%nat hi), (G 3%nat 24%nat mk), (G 4%nat 32%nat by_), (G 5%nat 40%nat el), (G 6%nat 48%nat de),
    (G 7%nat 56%nat rh), (G 8%nat 64%nat m0), (G 9%nat 72%nat m1), (G 10%nat 80%nat m2), (G 11%nat 88%nat m3) by done.
  cbn [mbind outcome_bind]. rewrite (proj2 (Z.ltb_ge maxI64 el)), (proj2 (Z.ltb_ge maxI64 de)) by lia. done.
Qed.

(** Any twelve words of bytes are the words of an acknowledgement. *)
Lemma split_words n b :
  length b = (8 * n)%nat -> bytes_ok b -> exists l, b = words64 l /\ length l = n /\ Forall is_u64 l.
Proof.
  revert b. induction n as [|n IH]; intros b Hl Hb.
  - destruct b; [|done]. by exists [].
  - destruct (IH (drop 8 b)) as (l & E & L & F); [rewrite length_drop; lia|by apply Forall_drop|].
    exists (be_get (take 8 b) :: l). split_and!; [|cbn; lia|].
    + cbn [words64]. by rewrite <- E, words64_chunk by (done || lia).
    + constructor; [|done]. pose proof (be_get_range (take 8 b) (Forall_take _ _ _ Hb)) as R.
      rewrite length_take, Nat.min_l in R by lia. cbn in R. range.
Qed.

(** A body of twelve words is parsed, or its durations overflow. *)
Lemma parseACK_body h a :
  Forall is_u64 (ack_words a) -> length (receivedMask a) = ackReceiptWords -> length h = headerBytes ->
  if (maxI64 <? elapsed a) || (maxI64 <? delay a)
  then parseACK (h ++ words64 (ack_words a)) = Err RejectMalformed
  else ack_ok a /\ parseACK (h ++ words64 (ack_words a)) = Ok a.
Proof.
  intros F Hl Hh. destruct (_ || _) eqn:Eo.
  - unfold parseACK.
    assert (L : length (ack_words a) = 12%nat) by (unfold ack_words; by rewrite length_app, Hl).
    rewrite length_app, length_words64, Hh, L. change (negb _) with false. cbn iota.
    rewrite <- Hh, drop_app_length.
    assert (G : forall k o v, o = (8 * k)%nat -> ack_words a !! k = Some v ->
      get 8 o (words64 (ack_words a)) = Ok v).
    { intros k o v -> Hk. apply get_word; [done|]. by eapply Forall_lookup_1. }
    rewrite (G 0%nat 0%nat (Boot (observed a))), (G 1%nat 8%nat (Generation (observed a))), (G 2%nat 16%nat (high a)),
      (G 3%nat 24%nat (mask a)), (G 4%nat 32%nat (bytes a)), (G 5%nat 40%nat (elapsed a)),
      (G 6%nat 48%nat (delay a)), (G 7%nat 56%nat (receivedHigh a)) by done.
    cbn [mbind outcome_bind]. by rewrite Eo.
  - apply orb_false_iff in Eo as [E1 E2]. apply Z.ltb_ge in E1, E2.
    assert (Ha : ack_ok a); [|split; [done|by apply parseACK_words]].
    unfold ack_words in F. apply Forall_app in F as [F Fm].
    repeat (inversion F as [|? ? ?H F']; subst; clear F; rename F' into F).
    unfold ack_ok. split_and!; try range; try done. forall_done.
Qed.

Lemma parseACK_total b :
  bytes_ok b ->
  match parseACK b with
  | Ok a => ack_ok a /\ b = take headerBytes b ++ words64 (ack_words a)
  | Err e => e = RejectMalformed
  | Panic => False
  end.
Proof.
  intros Hb. destruct (Nat.eqb_spec (length b) (headerBytes + ackBytes)) as [Hl|Hl].
  2:{ unfold parseACK. by rewrite (proj2 (Nat.eqb_neq _ _)) by done. }
  destruct (split_words 12 (drop headerBytes b)) as (l & E & L & F);
    [rewrite length_drop, Hl; done|by apply Forall_drop|].
  assert (Hh : length (take headerBytes b) = headerBytes) by (rewrite length_take, Hl; done).
  do 12 (destruct l as [|?z l]; [done|]). destruct l; [|done].
  set (a := mkAck (mkEpoch z z0) z1 z2 z3 z4 z5 z6 [z7; z8; z9; z10]).
  change [z; z0; z1; z2; z3; z4; z5; z6; z7; z8; z9; z10] with (ack_words a) in *.
  pose proof (parseACK_body (take headerBytes b) a F eq_refl Hh) as P. rewrite <- E, take_drop in P.
  destruct (_ || _); [by rewrite P|]. destruct P as [Ha ->]. split; [done|]. by rewrite <- E, take_drop.
Qed.

Lemma dataFrame_fields ep dst ln att seq order pl :
  epoch_ok ep -> is_u16 ln -> epoch_ok dst -> is_u64 seq -> is_u64 order ->
  let p := ControlPayload (dataFrame ep dst ln att seq order pl) in
  parseHeader p = Ok (mkHeader ep ln) /\
  (ControlOverhead + length p = Overhead + length pl)%nat /\
  get 8 headerBytes p = Ok (Boot dst) /\ get 8 (headerBytes + 8) p = Ok (Generation dst) /\
  get 8 (headerBytes + 16) p = Ok seq /\ get 8 (headerBytes + 24) p = Ok order /\
  drop (headerBytes + dataFieldBytes) p = pl.
Proof.
  intros He Hl [Hb Hg] Hs Ho. cbv zeta. rewrite dataFrame_payload.
  set (h := appendHeader (mkHeader ep ln)). set (ws := [Boot dst; Generation dst; seq; order]).
  assert (Hh : length h = headerBytes) by apply length_appendHeader.
  assert (G : forall k o v, o = (headerBytes + 8 * k)%nat -> ws !! k = Some v -> is_u64 v ->
    get 8 o (h ++ words64 ws ++ pl) = Ok v).
  { intros k o v -> Hk Hv. rewrite <- Hh, get_shift. by apply get_prefix, get_word. }
  split_and!.
  - apply parseHeader_ok. by split.
  - rewrite !length_app, Hh, length_words64. unfold Overhead, dataFieldBytes. cbn [length ws]. lia.
  - apply (G 0%nat); [done|done|range].
  - apply (G 1%nat); [done|done|range].
  - by apply (G 2%nat).
  - by apply (G 3%nat).
  - rewrite <- Hh, drop_app_add. change dataFieldBytes with (length (words64 ws)). by rewrite drop_app_length.
Qed.

(** ** The guarantees *)

(** Data frames.  A data frame carries exactly [Overhead] bytes of
    encoding around its payload (in a control frame on the wire), its header
    parses back to the sender's epoch and lane, and the fields the receiver
    reads at fixed offsets are the destination epoch, the sequence, the order
    and the payload the sender put there. *)
Theorem bond_data_roundtrip ep dst ln att seq order pl :
  epoch_ok ep -> is_u16 ln -> epoch_ok dst -> is_u64 seq -> is_u64 order ->
  let p := ControlPayload (dataFrame ep dst ln att seq order pl) in
  parseHeader p = Ok (mkHeader ep ln) /\
  (ControlOverhead + length p = Overhead + length pl)%nat /\
  get 8 headerBytes p = Ok (Boot dst) /\ get 8 (headerBytes + 8) p = Ok (Generation dst) /\
  get 8 (headerBytes + 16) p = Ok seq /\ get 8 (headerBytes + 24) p = Ok order /\
  drop (headerBytes + dataFieldBytes) p = pl.
Proof. apply dataFrame_fields. Qed.

Lemma bond_data_roundtrip_witness :
  let p := ControlPayload (dataFrame (mkEpoch 3 4) (mkEpoch 5 6) 2 9 10 11 [1; 2; 3]) in
  parseHeader p = Ok (mkHeader (mkEpoch 3 4) 2) /\
  (ControlOverhead + length p = Overhead + length [1; 2; 3]%Z)%nat /\
  get 8 headerBytes p = Ok 5 /\ get 8 (headerBytes + 8) p = Ok 6 /\
  get 8 (headerBytes + 16) p = Ok 10 /\ get 8 (headerBytes + 24) p = Ok 11 /\
  drop (headerBytes + dataFieldBytes) p = [1; 2; 3].
Proof.
  apply (bond_data_roundtrip (mkEpoch 3 4) (mkEpoch 5 6) 2 9 10 11 [1; 2; 3]);
    unfold epoch_ok; cbn; try split; range.
Defined.

(** Acknowledgements.  Parsing the payload of an acknowledgement frame
    gives back the acknowledgement, with its header; and on arbitrary bytes
    the parser never panics, accepts only well-formed acknowledgements, and the
    body it accepted is byte for byte the one the encoder writes for it. *)
Theorem bond_ack_roundtrip :
  (forall ep ln rev a, epoch_ok ep -> is_u16 ln -> ack_ok a ->
     parseHeader (ControlPayload (ackFrame ep ln rev a)) = Ok (mkHeader ep ln) /\
     parseACK (ControlPayload (ackFrame ep ln rev a)) = Ok a) /\
  (forall b, bytes_ok b ->
     match parseACK b with
     | Ok a => ack_ok a /\ b = take headerBytes b ++ words64 (ack_words a)
     | Err e => e = RejectMalformed
     | Panic => False
     end).
Proof.
  split.
  - intros ep ln rev a He Hl Ha. rewrite ackFrame_payload. split; [apply parseHeader_ok; by split|].
    apply parseACK_words; [done|apply length_appendHeader].
  - exact parseACK_total.
Qed.

(** ** Hellos *)
Lemma ParseHello_Hello ep path : epoch_ok ep -> is_byte path -> ParseHello (Hello ep path) = (ep, path, true).
Proof.
  intros [Hbt Hgn] Hp. unfold ParseHello, Hello.
  assert (Hl : length (((helloMagic ++ [Version; path]) ++ be_put 8 (Boot ep)) ++ be_put 8 (Generation ep)) = 22%nat)
    by (rewrite !length_app, !length_be_put; done).
  rewrite Hl. rewrite <- !app_assoc. cbn [Nat.eqb negb orb].
  change (take 4 (helloMagic ++ [Version; path] ++ be_put 8 (Boot ep) ++ be_put 8 (Generation ep))) with helloMagic.
  rewrite bool_decide_true by done. cbn [negb orb].
  change (drop 6 (helloMagic ++ [Version; path] ++ be_put 8 (Boot ep) ++ be_put 8 (Generation ep)))
    with (be_put 8 (Boot ep) ++ be_put 8 (Generation ep)).
  change (drop 14 (helloMagic ++ [Version; path] ++ be_put 8 (Boot ep) ++ be_put 8 (Generation ep)))
    with (drop 8 (be_put 8 (Boot ep) ++ be_put 8 (Generation ep))).
  rewrite take_be_put, drop_be_put by (cbn; lia).
  assert (Eg : be_get (take 8 (be_put 8 (Generation ep))) = Generation ep)
    by (rewrite <- (app_nil_r (be_put 8 _)); apply take_be_put; cbn; lia).
  rewrite Eg. cbn [Boot Generation]. rewrite (proj2 (Z.eqb_neq (Boot ep) 0)), (proj2 (Z.eqb_neq (Generation ep) 0)) by lia. by destruct ep.
Qed.

(** Hellos.  [ParseHello] accepts exactly the hellos of well-formed epochs:
    on any bytes, it reports success with an epoch and a path if and only if the
    bytes are [Hello] of them. *)
Theorem bond_hello_exact b ep path :
  bytes_ok b ->
  ParseHello b = (ep, path, true) <-> epoch_ok ep /\ is_byte path /\ b = Hello ep path.
Proof.
  intros Hb. split.
  - unfold ParseHello. destruct (Nat.eqb_spec (length b) 22) as [Hl|]; [|done]. cbn [negb orb].
    do 22 (destruct b as [|?x b]; [done|]). destruct b; [|done]. clear Hl.
    destruct (bool_decide_reflect (take 4 [x; x0; x1; x2; x3; x4; x5; x6; x7; x8; x9; x10; x11; x12; x13; x14;
      x15; x16; x17; x18; x19; x20] = helloMagic)) as [Hm|]; [|done].
    cbn in Hm. injection Hm as -> -> -> ->. cbn [negb orb].
    change (default 0 (_ !! 4%nat)) with x3. destruct (Z.eqb_spec x3 Version) as [->|]; [|done]. cbn [negb].
    intros H. injection H as He Hp Hz.
    repeat (inversion Hb as [|? ? ?H Hb']; subst; clear Hb; rename Hb' into Hb).
    assert (R : forall l, length l = 8%nat -> bytes_ok l -> 0 <= be_get l < 2 ^ 64 /\ be_put 8 (be_get l) = l).
    { intros l Hl Hbl. pose proof (be_get_range l Hbl) as R. rewrite Hl in R. split; [done|].
      rewrite <- Hl. by apply be_put_get. }
    apply andb_true_iff in Hz as [Hz1 Hz2]. apply negb_true_iff in Hz1, Hz2. apply Z.eqb_neq in Hz1, Hz2.
    cbn [take drop] in *.
    destruct (R [x5; x6; x7; x8; x9; x10; x11; x12]) as [R1 P1]; [done|forall_done|].
    destruct (R [x13; x14; x15; x16; x17; x18; x19; x20]) as [R2 P2]; [done|forall_done|].
    split; [|split].
    + unfold epoch_ok. cbn [Boot Generation]. lia.
    + done.
    + unfold Hello. cbn [Boot Generation]. rewrite P1, P2. done.
  - intros (He & Hp & ->). by apply ParseHello_Hello.
Qed.

Lemma bond_hello_exact_witness :
  ParseHello (Hello (mkEpoch 1 2) 7) = (mkEpoch 1 2, 7, true) <->
  epoch_ok (mkEpoch 1 2) /\ is_byte 7 /\ Hello (mkEpoch 1 2) 7 = Hello (mkEpoch 1 2) 7.
Proof.
  apply (bond_hello_exact (Hello (mkEpoch 1 2) 7) (mkEpoch 1 2) 7).
  vm_compute. repeat constructor; discriminate.
Defined.

End bond_wire_props.
