(* ===== verification/BondReceipt.v ===== *)
(** * The receipt window ([receiptWindow] of [internal/bond/bond.go])

    An 8192-bit history of received sequences below a high-water mark, kept as
    128 words of 64 bits.  It suppresses duplicates, feeds the bitmap of the
    acknowledgements and remembers what is still to be reported. *)

From stdpp Require Import base tactics list numbers.
From S2P Require Import Prelude BondWire.

Module receipt.
Import bond.

Definition maxPackets : Z := 8192.
Definition words : nat := 128.

Record receiptWindow := mkWindow { whigh : Z; wmask : list Z }.
Definition window0 : receiptWindow := mkWindow 0 (replicate words 0).
#[export] Instance eta_receiptWindow : Eta receiptWindow := fun w => mkWindow (whigh w) (wmask w).

(** The array read and write of the loops; the indices are in range. *)
Definition word (m : list Z) (i : nat) : Z := default 0 (m !! i).
Definition shl (x n : Z) : Z := u64 (Z.shiftl x n).

(** One pass of the in-place shift, from the last word down: [n] words are left. *)
Fixpoint shift_loop (n : nat) (wd : nat) (shift : Z) (m : list Z) : list Z :=
  match n with
  | O => m
  | S i =>
    let value := 0 in
    let value := if (wd <=? i)%nat then shl (word m (i - wd)) shift else value in
    let value := if (0 <? shift) && (wd <? i)%nat
                 then Z.lor value (Z.shiftr (word m (i - wd - 1)) (64 - shift)) else value in
    shift_loop i wd shift (<[i := value]> m)
  end.

(** [mark]'s first half: the high-water mark moves up to a newer sequence. *)
Definition slide (seq : Z) (w : receiptWindow) : receiptWindow :=
  if whigh w <? seq then
    let delta := u64 (seq - whigh w) in
    let m := if maxPackets <=? delta then replicate words 0
             else shift_loop words (Z.to_nat (delta / 64)) (delta mod 64) (wmask w) in
    mkWindow seq m
  else w.

Definition mark (seq : Z) (w : receiptWindow) : receiptWindow * bool :=
  let w := slide seq w in
  let delta := u64 (whigh w - seq) in
  if maxPackets <=? delta then (w, false)
  else
    let bit := shl 1 (delta mod 64) in
    let i := Z.to_nat (delta / 64) in
    if negb (Z.land (word (wmask w) i) bit =? 0) then (w, false)
    else (w <| wmask := <[i := Z.lor (word (wmask w) i) bit]> (wmask w) |>, true).

(** [bits.Len64]. *)
Definition Len64 (x : Z) : Z := if x =? 0 then 0 else Z.log2 x + 1.

Fixpoint oldest_loop (n : nat) (w : receiptWindow) : Z :=
  match n with
  | O => 0
  | S i =>
    let wd := word (wmask w) i in
    if negb (wd =? 0) then u64 (whigh w - (Z.of_nat i * 64 + Len64 wd - 1))
    else oldest_loop i w
  end.
Definition oldest (w : receiptWindow) : Z := oldest_loop words w.

(** The loop over offsets, [n] of them left, [offset] the next. *)
Fixpoint bitmap_loop (n : nat) (offset : Z) (hi : Z) (w : receiptWindow) (res : list Z) : list Z :=
  match n with
  | O => res
  | S n =>
    if offset <? hi then
      let delta := u64 (whigh w - (hi - offset)) in
      let res := if (delta <? maxPackets) &&
                    negb (Z.land (word (wmask w) (Z.to_nat (delta / 64))) (shl 1 (delta mod 64)) =? 0)
                 then let i := Z.to_nat (offset / 64) in
                      <[i := Z.lor (word res i) (shl 1 (offset mod 64))]> res
                 else res in
      bitmap_loop n (offset + 1) hi w res
    else res
  end.
Definition bitmap (hi : Z) (w : receiptWindow) : list Z :=
  bitmap_loop (Z.to_nat ackReceiptBits) 0 hi w (replicate ackReceiptWords 0).

Definition forgetThrough (hi : Z) (w : receiptWindow) : receiptWindow :=
  if whigh w <=? hi then w <| wmask := replicate words 0 |>
  else
    let delta := u64 (whigh w - hi) in
    if delta <? maxPackets then
      let i := Z.to_nat (delta / 64) in
      let m := <[i := Z.land (word (wmask w) i) (u64 (shl 1 (delta mod 64) - 1))]> (wmask w) in
      w <| wmask := take (S i) m ++ replicate (words - S i) 0 |>
    else w.

(** [Poll]'s anchor for the receipt bitmap of an acknowledgement: the oldest
    unreported receipt is kept inside the bitmap, wherever the newest one is. *)
Definition reportHigh (rcv unreported : receiptWindow) : Z :=
  let o := oldest unreported in
  let hi := whigh rcv in
  if negb (o =? 0) then u64 (o + Z.min (ackReceiptBits - 1) (u64 (hi - o))) else hi.

End receipt.
