(* ===== verification/BondReceiptProps.v ===== *)
(** * What the receipt window guarantees

    The window against its reference: a high-water mark and the set of every
    sequence accepted so far.  The in-place multi-word shift, the bitmap and the
    trimming are related to that set bit by bit. *)

From stdpp Require Import base tactics list numbers gmap.
From S2P Require Import Prelude Frame BondWire BondWireProps BondReceipt.

Module receipt_props.
Import bond bond_wire_props receipt.

(** ** Bits of words *)
Lemma u64_testbit x b : 0 <= b < 64 -> Z.testbit (u64 x) b = Z.testbit x b.
Proof. intros H. unfold u64. apply Z.mod_pow2_bits_low. lia. Qed.

Lemma u64_high_bits x b : is_u64 x -> 64 <= b -> Z.testbit x b = false.
Proof. intros H Hb. rewrite <- (u64_small x H). unfold u64. apply Z.mod_pow2_bits_high. lia. Qed.

Lemma shl_one b : 0 <= b < 64 -> shl 1 b = 2 ^ b.
Proof.
  intros H. unfold shl. rewrite Z.shiftl_1_l. apply u64_small.
  split; [apply Z.pow_nonneg; lia|apply Z.pow_lt_mono_r; lia].
Qed.

Lemma land_bit x b : 0 <= b < 64 -> negb (Z.land x (shl 1 b) =? 0) = Z.testbit x b.
Proof.
  intros H. rewrite shl_one by done.
  destruct (Z.testbit x b) eqn:E.
  - apply negb_true_iff, Z.eqb_neq. intros H0. apply (f_equal (fun z => Z.testbit z b)) in H0.
    rewrite Z.land_spec, Z.pow2_bits_true, Z.bits_0, E in H0 by lia. done.
  - apply negb_false_iff, Z.eqb_eq. apply Z.bits_inj_0. intros n.
    rewrite Z.land_spec. destruct (Z.eq_dec n b) as [->|Hn]; [by rewrite E|].
    rewrite Z.pow2_bits_false by lia. apply andb_false_r.
Qed.

Lemma lor_u64 x y : is_u64 x -> is_u64 y -> is_u64 (Z.lor x y).
Proof.
  intros Hx Hy. assert (E : Z.lor x y = u64 (Z.lor x y)); [|rewrite E; apply u64_range].
  apply Z.bits_inj'. intros n Hn. destruct (Z.lt_ge_cases n 64).
  - by rewrite u64_testbit by lia.
  - rewrite (u64_high_bits (u64 _)) by (apply u64_range || lia).
    rewrite Z.lor_spec, !u64_high_bits by (done || lia). done.
Qed.

Lemma shl_u64 x b : is_u64 (shl x b).
Proof. apply u64_range. Qed.

Lemma shiftr_u64 x b : 0 <= b -> is_u64 x -> is_u64 (Z.shiftr x b).
Proof.
  intros Hb Hx. rewrite Z.shiftr_div_pow2 by done. unfold is_u64 in *.
  pose proof (Z.pow_pos_nonneg 2 b ltac:(lia) Hb). split; [apply Z.div_pos; lia|].
  apply Z.div_lt_upper_bound; [lia|]. nia.
Qed.

Lemma shl_testbit x s b : 0 <= s -> 0 <= b < 64 -> Z.testbit (shl x s) b = (s <=? b) && Z.testbit x (b - s).
Proof.
  intros Hs Hb. unfold shl. rewrite u64_testbit by done. rewrite Z.shiftl_spec by lia.
  destruct (Z.leb_spec s b); [done|]. apply Z.testbit_neg_r. lia.
Qed.

(** ** The mask as a sequence of bits *)
Definition bitm (m : list Z) (d : Z) : bool :=
  (0 <=? d) && Z.testbit (word m (Z.to_nat (d / 64))) (d mod 64).

Record mask_ok (m : list Z) : Prop := mkMaskOk {
  mo_len : length m = words;
  mo_u64 : Forall is_u64 m
}.

Lemma mask_word m i : mask_ok m -> is_u64 (word m i).
Proof.
  intros [_ F]. unfold word. destruct (m !! i) as [x|] eqn:E; cbn; [|unfold is_u64; lia].
  by eapply Forall_lookup_1 in F.
Qed.

Lemma mask_insert m i v : mask_ok m -> is_u64 v -> mask_ok (<[i := v]> m).
Proof. intros [L F] Hv. split; [by rewrite length_insert|by apply Forall_insert]. Qed.

Lemma word_insert m i v j : (i < length m)%nat -> word (<[i := v]> m) j = if (i =? j)%nat then v else word m j.
Proof.
  intros Hi. unfold word. destruct (Nat.eqb_spec i j) as [<-|Hne].
  - by rewrite list_lookup_insert_eq.
  - by rewrite list_lookup_insert_ne.
Qed.

Lemma mask_zero : mask_ok (replicate words 0).
Proof. split; [apply length_replicate|]. apply Forall_replicate. unfold is_u64. lia. Qed.

Lemma bitm_zero n d : bitm (replicate n 0) d = false.
Proof.
  unfold bitm, word. destruct (replicate n 0 !! _) as [x|] eqn:E; cbn.
  - apply lookup_replicate in E as [-> _]. by rewrite Z.bits_0, andb_false_r.
  - by rewrite Z.bits_0, andb_false_r.
Qed.

Lemma bitm_beyond m d : mask_ok m -> maxPackets <= d -> bitm m d = false.
Proof.
  intros [L _] Hd. unfold bitm, word. rewrite lookup_ge_None_2; [by rewrite Z.bits_0, andb_false_r|].
  rewrite L. unfold words, maxPackets in *. assert (128 <= d / 64) by (apply Z.div_le_lower_bound; lia). lia.
Qed.

(** The word and bit of a position. *)
Lemma pos_split d : 0 <= d -> d = 64 * (d / 64) + d mod 64 /\ 0 <= d mod 64 < 64 /\ 0 <= d / 64.
Proof.
  intros H. split; [apply Z.div_mod; lia|]. split; [apply Z.mod_pos_bound; lia|apply Z.div_pos; lia].
Qed.

Lemma bitm_word m i b : 0 <= b < 64 -> bitm m (64 * Z.of_nat i + b) = Z.testbit (word m i) b.
Proof.
  intros Hb. unfold bitm. rewrite (proj2 (Z.leb_le _ _)) by lia. cbn [andb].
  replace ((64 * Z.of_nat i + b) / 64) with (Z.of_nat i) by (Z.to_euclidean_division_equations; lia).
  replace ((64 * Z.of_nat i + b) mod 64) with b by (Z.to_euclidean_division_equations; lia).
  by rewrite Nat2Z.id.
Qed.

Lemma bitm_set m d d' :
  0 <= d < 64 * Z.of_nat (length m) ->
  bitm (<[Z.to_nat (d / 64) := Z.lor (word m (Z.to_nat (d / 64))) (shl 1 (d mod 64))]> m) d' =
    (d' =? d) || bitm m d'.
Proof.
  intros Hd. destruct (pos_split d) as (E & Hb & Hi); [lia|].
  destruct (Z.leb_spec 0 d') as [H0|H0].
  2:{ unfold bitm. rewrite (proj2 (Z.leb_gt _ _)) by done. cbn. symmetry. rewrite orb_false_r. apply Z.eqb_neq. lia. }
  unfold bitm. rewrite (proj2 (Z.leb_le _ _)) by done. cbn [andb].
  destruct (pos_split d') as (E' & Hb' & Hi'); [lia|].
  rewrite word_insert by lia.
  destruct (Nat.eqb_spec (Z.to_nat (d / 64)) (Z.to_nat (d' / 64))) as [Hq|Hq].
  - apply Z2Nat.inj in Hq; [|done..]. rewrite <- Hq.
    rewrite Z.lor_spec, shl_one, Z.pow2_bits_eqb by lia. rewrite orb_comm. f_equal.
    destruct (Z.eqb_spec (d mod 64) (d' mod 64)), (Z.eqb_spec d' d); lia.
  - destruct (Z.eqb_spec d' d); [congruence|done].
Qed.

(** ** The shift *)
Definition shifted (m : list Z) (wd : nat) (shift : Z) (i : nat) : Z :=
  let value := if (wd <=? i)%nat then shl (word m (i - wd)) shift else 0 in
  if (0 <? shift) && (wd <? i)%nat
  then Z.lor value (Z.shiftr (word m (i - wd - 1)) (64 - shift)) else value.

Lemma shifted_u64 m wd shift i : mask_ok m -> 0 <= shift < 64 -> is_u64 (shifted m wd shift i).
Proof.
  intros Hm Hs. unfold shifted.
  assert (is_u64 (if (wd <=? i)%nat then shl (word m (i - wd)) shift else 0))
    by (destruct (wd <=? i)%nat; [apply shl_u64|unfold is_u64; lia]).
  destruct (_ && _); [|done]. apply lor_u64; [done|]. apply shiftr_u64; [lia|by apply mask_word].
Qed.

Lemma shift_loop_spec n wd shift m :
  mask_ok m -> 0 <= shift < 64 -> (n <= words)%nat ->
  mask_ok (shift_loop n wd shift m) /\
  forall j, word (shift_loop n wd shift m) j = if (j <? n)%nat then shifted m wd shift j else word m j.
Proof.
  intros Hm Hs. revert m Hm. induction n as [|i IH]; intros m Hm Hn; cbn [shift_loop]; [by split|].
  fold (shifted m wd shift i). set (m' := <[i := shifted m wd shift i]> m).
  assert (Hm' : mask_ok m') by (apply mask_insert; [done|by apply shifted_u64]).
  destruct (IH m' Hm' ltac:(lia)) as [Hok Hw]. split; [done|]. intros j. rewrite Hw.
  assert (Hi : (i < length m)%nat) by (rewrite (mo_len _ Hm); lia).
  assert (Hlow : forall k, (k < i)%nat -> word m' k = word m k).
  { intros k Hk. unfold m'. rewrite word_insert by done. destruct (Nat.eqb_spec i k); [lia|done]. }
  destruct (Nat.ltb_spec j i), (Nat.ltb_spec j (S i)); try lia.
  - unfold shifted. destruct (Nat.leb_spec wd j), (Nat.ltb_spec wd j); rewrite ?Hlow by lia; done.
  - assert (j = i) as -> by lia. unfold m'. rewrite word_insert, Nat.eqb_refl by done. done.
  - unfold m'. rewrite word_insert by done. destruct (Nat.eqb_spec i j); [lia|done].
Qed.

Lemma shifted_bit m wd shift i b :
  mask_ok m -> 0 <= shift < 64 -> 0 <= b < 64 ->
  Z.testbit (shifted m wd shift i) b = bitm m (64 * Z.of_nat i + b - (64 * Z.of_nat wd + shift)).
Proof.
  intros Hm Hs Hb. unfold shifted.
  destruct (Nat.leb_spec wd i) as [Hle|Hgt].
  2:{ rewrite (proj2 (Nat.ltb_ge wd i)) by lia. rewrite andb_false_r, Z.bits_0.
      unfold bitm. by rewrite (proj2 (Z.leb_gt _ _)) by lia. }
  assert (E : Z.testbit (shl (word m (i - wd)) shift) b =
    (shift <=? b) && bitm m (64 * Z.of_nat (i - wd) + (b - shift))).
  { rewrite shl_testbit by lia. destruct (Z.leb_spec shift b); [|done]. cbn [andb]. by rewrite bitm_word by lia. }
  assert (Eh : (0 <? shift) && (wd <? i)%nat = true ->
    Z.testbit (Z.shiftr (word m (i - wd - 1)) (64 - shift)) b =
    (b <? shift) && bitm m (64 * Z.of_nat (i - wd - 1) + (b + (64 - shift)))).
  { intros _. rewrite Z.shiftr_spec by lia. destruct (Z.ltb_spec b shift); cbn [andb].
    - by rewrite bitm_word by lia.
    - apply u64_high_bits; [by apply mask_word|lia]. }
  destruct ((0 <? shift) && (wd <? i)%nat) eqn:Ec.
  - rewrite Z.lor_spec, E, Eh by done. apply andb_true_iff in Ec as [_ Hlt]. apply Nat.ltb_lt in Hlt.
    destruct (Z.leb_spec shift b), (Z.ltb_spec b shift); try lia; cbn [andb orb]; rewrite ?orb_false_r; f_equal; lia.
  - rewrite E. destruct (Z.leb_spec shift b); cbn [andb]; [f_equal; lia|]. symmetry.
    unfold bitm. rewrite (proj2 (Z.leb_gt _ _)); [done|].
    apply andb_false_iff in Ec as [Hz|Hz]; [apply Z.ltb_ge in Hz|apply Nat.ltb_ge in Hz]; lia.
Qed.

Lemma shift_bits m delta d :
  mask_ok m -> 0 <= delta < maxPackets -> 0 <= d < maxPackets ->
  bitm (shift_loop words (Z.to_nat (delta / 64)) (delta mod 64) m) d = bitm m (d - delta).
Proof.
  intros Hm Hdl Hd. destruct (pos_split delta) as (E & Hb & Hi); [lia|].
  destruct (pos_split d) as (E' & Hb' & Hi'); [lia|].
  destruct (shift_loop_spec words (Z.to_nat (delta / 64)) (delta mod 64) m Hm Hb ltac:(lia)) as [_ Hw].
  unfold bitm at 1. rewrite (proj2 (Z.leb_le 0 d)) by lia. cbn [andb]. rewrite Hw.
  assert (Hlt : (Z.to_nat (d / 64) < words)%nat).
  { unfold words, maxPackets in *. assert (d / 64 < 128) by (apply Z.div_lt_upper_bound; lia). lia. }
  rewrite (proj2 (Nat.ltb_lt _ _)) by done. rewrite shifted_bit by done. f_equal. lia.
Qed.

(** ** The window as a set *)
Record window_ok (w : receiptWindow) : Prop := mkWindowOk {
  wo_mask : mask_ok (wmask w);
  wo_high : is_u64 (whigh w)
}.

(** [has w s]: the window remembers the receipt of [s]. *)
Definition has (w : receiptWindow) (s : Z) : bool :=
  (s <=? whigh w) && bitm (wmask w) (whigh w - s).

Lemma has_range w s : window_ok w -> has w s = true -> whigh w - maxPackets < s <= whigh w.
Proof.
  intros [Hm _]. unfold has. destruct (Z.leb_spec s (whigh w)); [|done]. cbn. intros Hb.
  destruct (Z.lt_ge_cases (whigh w - s) maxPackets); [lia|]. by rewrite bitm_beyond in Hb.
Qed.

Lemma slide_ok seq w :
  window_ok w -> is_u64 seq ->
  window_ok (slide seq w) /\ whigh (slide seq w) = Z.max (whigh w) seq /\
  forall s, has (slide seq w) s = (whigh (slide seq w) - s <? maxPackets) && has w s.
Proof.
  intros [Hm Hh] Hs. unfold slide, is_u64 in *. destruct (Z.ltb_spec (whigh w) seq) as [Hlt|Hge].
  2:{ split_and!; [done|lia|]. intros s. destruct (Z.ltb_spec (whigh w - s) maxPackets); [done|].
      unfold has. by rewrite bitm_beyond, andb_false_r. }
  rewrite u64_small by lia. cbn [whigh wmask].
  assert (Hmax : Z.max (whigh w) seq = seq) by lia.
  destruct (Z.leb_spec maxPackets (seq - whigh w)) as [Hfar|Hnear].
  - split_and!; [split; [apply mask_zero|done]|done|]. intros s. unfold has. cbn [whigh wmask].
    rewrite bitm_zero, andb_false_r. symmetry. apply andb_false_iff.
    destruct (Z.leb_spec s (whigh w)); [|by right]. left. apply Z.ltb_ge. lia.
  - destruct (pos_split (seq - whigh w)) as (_ & Hb & _); [lia|].
    destruct (shift_loop_spec words (Z.to_nat ((seq - whigh w) / 64)) ((seq - whigh w) mod 64) _ Hm Hb ltac:(lia)) as [Hok _].
    split_and!; [split; done|done|]. intros s. unfold has. cbn [whigh wmask].
    destruct (Z.leb_spec s seq) as [H1|H1]; cbn [andb].
    + destruct (Z.ltb_spec (seq - s) maxPackets) as [H2|H2]; cbn [andb].
      * rewrite shift_bits by (done || lia).
        destruct (Z.leb_spec s (whigh w)); cbn [andb]; [f_equal; lia|].
        unfold bitm. by rewrite (proj2 (Z.leb_gt _ _)) by lia.
      * by rewrite bitm_beyond.
    + symmetry. rewrite (proj2 (Z.leb_gt s (whigh w))) by lia. by rewrite andb_false_r.
Qed.

Lemma mark_ok seq w :
  window_ok w -> is_u64 seq ->
  let '(w', ok) := mark seq w in
  window_ok w' /\ whigh w' = Z.max (whigh w) seq /\
  ok = (whigh w' - seq <? maxPackets) && negb (has w seq) /\
  forall s, has w' s = (whigh w' - s <? maxPackets) && (ok && (s =? seq) || has w s).
Proof.
  intros Hw Hs. destruct (slide_ok seq w Hw Hs) as (Hw1 & Hh1 & Hb1). unfold mark.
  set (w1 := slide seq w) in *. pose proof Hw1 as [Hm1 Hu1]. unfold is_u64 in *.
  rewrite u64_small by lia. set (d := whigh w1 - seq).
  assert (Ehas : has w seq = bitm (wmask w1) d \/ maxPackets <= d).
  { destruct (Z.ltb_spec (whigh w1 - seq) maxPackets) as [H|H]; [|by right]. left.
    specialize (Hb1 seq). rewrite (proj2 (Z.ltb_lt _ _)) in Hb1 by done. cbn [andb] in Hb1.
    rewrite <- Hb1. unfold has. by rewrite (proj2 (Z.leb_le seq (whigh w1))) by lia. }
  destruct (Z.leb_spec maxPackets d) as [Hfar|Hnear].
  { split_and!; try done. by rewrite (proj2 (Z.ltb_ge _ _)) by done. }
  destruct Ehas as [Ehas|]; [|lia].
  rewrite land_bit by (apply pos_split; lia).
  assert (Ebit : Z.testbit (word (wmask w1) (Z.to_nat (d / 64))) (d mod 64) = bitm (wmask w1) d).
  { unfold bitm. by rewrite (proj2 (Z.leb_le 0 d)) by lia. }
  rewrite Ebit, <- Ehas. destruct (has w seq) eqn:Eh; cbn [negb andb].
  { split_and!; try done. by rewrite andb_false_r. }
  split_and!.
  - split; [|done]. apply mask_insert; [done|]. apply lor_u64; [by apply mask_word|apply shl_u64].
  - done.
  - cbn [whigh update]. by rewrite (proj2 (Z.ltb_lt _ _)) by done.
  - intros s. specialize (Hb1 s). unfold has in Hb1 at 1. unfold has at 1.
    cbn [whigh wmask update].
    rewrite bitm_set by (rewrite (mo_len _ Hm1); unfold words, maxPackets in *; lia).
    destruct (Z.eqb_spec s seq) as [->|Hne].
    + subst d. rewrite Z.eqb_refl. cbn [orb]. rewrite andb_true_r.
      rewrite (proj2 (Z.leb_le seq (whigh w1))), (proj2 (Z.ltb_lt _ maxPackets)) by lia. done.
    + rewrite (proj2 (Z.eqb_neq (whigh w1 - s) d)) by lia. exact Hb1.
Qed.

(** ** Oldest, trimming, bitmap *)
Lemma oldest_loop_ok n w :
  window_ok w -> (n <= words)%nat -> (forall s, has w s = true -> 0 <= s) ->
  (forall s, has w s = true -> whigh w - s < 64 * Z.of_nat n) ->
  ((forall s, has w s = false) /\ oldest_loop n w = 0) \/
  (has w (oldest_loop n w) = true /\ forall s, has w s = true -> oldest_loop n w <= s).
Proof.
  intros Hw Hn Hpos. pose proof Hw as [Hm Hh]. unfold is_u64 in Hh.
  induction n as [|i IH]; intros Hlt; cbn [oldest_loop].
  { left. split; [|done]. intros s. destruct (has w s) eqn:E; [|done].
    pose proof (has_range w s Hw E). specialize (Hlt s E). lia. }
  pose proof (mask_word (wmask w) i Hm) as Hwd. set (x := word (wmask w) i) in *. unfold is_u64 in Hwd.
  destruct (Z.eqb_spec x 0) as [E0|E0]; cbn [negb].
  - apply IH; [lia|]. intros s E. specialize (Hlt s E). pose proof (has_range w s Hw E) as Hr.
    destruct (Z.lt_ge_cases (whigh w - s) (64 * Z.of_nat i)); [done|]. exfalso.
    unfold has in E. rewrite (proj2 (Z.leb_le s (whigh w))) in E by lia. cbn [andb] in E.
    replace (whigh w - s) with (64 * Z.of_nat i + (whigh w - s - 64 * Z.of_nat i)) in E by lia.
    rewrite bitm_word in E by lia. fold x in E. by rewrite E0, Z.bits_0 in E.
  - right. assert (Hx : 0 < x) by lia. pose proof (Z.log2_spec x Hx) as [Hl1 Hl2].
    pose proof (Z.log2_nonneg x).
    assert (Hlog : Z.log2 x < 64) by (apply Z.log2_lt_pow2; lia).
    unfold Len64. rewrite (proj2 (Z.eqb_neq x 0)) by done.
    replace (Z.of_nat i * 64 + (Z.log2 x + 1) - 1) with (64 * Z.of_nat i + Z.log2 x) by lia.
    set (d := 64 * Z.of_nat i + Z.log2 x).
    assert (Hd : has w (whigh w - d) = true).
    { unfold has. rewrite (proj2 (Z.leb_le _ _)) by lia. cbn [andb].
      replace (whigh w - (whigh w - d)) with d by lia. subst d. rewrite bitm_word by lia.
      by apply Z.bit_log2. }
    pose proof (Hpos _ Hd). rewrite u64_small by lia. split; [done|].
    intros s E. specialize (Hlt s E). pose proof (has_range w s Hw E).
    destruct (Z.lt_ge_cases s (whigh w - d)); [|done]. exfalso.
    unfold has in E. rewrite (proj2 (Z.leb_le s (whigh w))) in E by lia. cbn [andb] in E.
    replace (whigh w - s) with (64 * Z.of_nat i + (whigh w - s - 64 * Z.of_nat i)) in E by lia.
    rewrite bitm_word in E by lia. fold x in E. rewrite Z.bits_above_log2 in E by lia. done.
Qed.

Lemma oldest_ok w :
  window_ok w -> (forall s, has w s = true -> 0 <= s) ->
  ((forall s, has w s = false) /\ oldest w = 0) \/
  (has w (oldest w) = true /\ forall s, has w s = true -> oldest w <= s).
Proof.
  intros Hw Hp. apply oldest_loop_ok; try done. intros s E. pose proof (has_range w s Hw E).
  unfold words, maxPackets in *. lia.
Qed.

(** Keeping the bits below a position. *)
Definition trim (d : Z) (m : list Z) : list Z :=
  let i := Z.to_nat (d / 64) in
  take (S i) (<[i := Z.land (word m i) (u64 (shl 1 (d mod 64) - 1))]> m) ++ replicate (words - S i) 0.

Lemma low_ones b : 0 <= b < 64 -> u64 (shl 1 b - 1) = Z.ones b.
Proof.
  intros Hb. rewrite shl_one by lia. rewrite u64_small; [rewrite Z.ones_equiv; lia|].
  pose proof (Z.pow_lt_mono_r 2 b 64 ltac:(lia) ltac:(lia) ltac:(lia)).
  pose proof (Z.pow_pos_nonneg 2 b ltac:(lia) ltac:(lia)). lia.
Qed.

Lemma land_ones_u64 x b : 0 <= b -> is_u64 x -> is_u64 (Z.land x (Z.ones b)).
Proof.
  intros Hb Hx. rewrite Z.land_ones by lia. unfold is_u64 in *.
  pose proof (Z.pow_pos_nonneg 2 b ltac:(lia) ltac:(lia)).
  pose proof (Z.mod_pos_bound x (2 ^ b) ltac:(lia)). pose proof (Z.mod_le x (2 ^ b) ltac:(lia) ltac:(lia)). lia.
Qed.

Lemma trim_ok d m : mask_ok m -> 0 <= d < maxPackets -> mask_ok (trim d m).
Proof.
  intros Hm Hd. destruct (pos_split d) as (E & Hb & Hi); [lia|]. unfold trim. rewrite low_ones by lia.
  pose proof (mask_insert m (Z.to_nat (d / 64)) _ Hm
    (land_ones_u64 _ (d mod 64) ltac:(lia) (mask_word m (Z.to_nat (d / 64)) Hm))) as [L F].
  split.
  - rewrite length_app, length_take, length_replicate, L. unfold words, maxPackets in *. lia.
  - apply Forall_app_2; [by apply Forall_take|]. apply Forall_replicate. unfold is_u64. lia.
Qed.

Lemma trim_bits d m e : mask_ok m -> 0 <= d < maxPackets -> bitm (trim d m) e = (e <? d) && bitm m e.
Proof.
  intros Hm Hd. destruct (Z.leb_spec 0 e) as [H0|H0].
  2:{ unfold bitm. rewrite (proj2 (Z.leb_gt 0 e)) by lia. cbn [andb]. by rewrite andb_false_r. }
  destruct (pos_split d) as (E & Hb & Hi); [lia|]. destruct (pos_split e) as (Ee & Heb & Hei); [lia|].
  set (i := Z.to_nat (d / 64)).
  assert (Hlt : (i < length m)%nat) by (rewrite (mo_len _ Hm); subst i; unfold words, maxPackets in *; lia).
  unfold bitm, trim. rewrite (proj2 (Z.leb_le 0 e)) by lia. cbn [andb]. unfold word at 1. fold i.
  rewrite low_ones by lia.
  destruct (Nat.lt_ge_cases (Z.to_nat (e / 64)) (S i)) as [Hs|Hs].
  - rewrite lookup_app_l by (rewrite length_take, length_insert; lia).
    rewrite lookup_take_lt by lia. rewrite <- (Nat2Z.id (Z.to_nat (e / 64))) at 1.
    rewrite Nat2Z.id. fold (word (<[i:=Z.land (word m i) (Z.ones (d mod 64))]> m) (Z.to_nat (e / 64))).
    rewrite word_insert by done.
    destruct (Nat.eqb_spec i (Z.to_nat (e / 64))) as [Hq|Hq].
    + rewrite <- Hq. rewrite Z.land_spec, Z.testbit_ones_nonneg by lia.
      rewrite andb_comm. f_equal. destruct (Z.ltb_spec (e mod 64) (d mod 64)), (Z.ltb_spec e d); lia.
    + destruct (Z.ltb_spec e d); [done|lia].
  - rewrite lookup_app_r by (rewrite length_take, length_insert; lia).
    rewrite (proj2 (Z.ltb_ge e d)) by lia. cbn [andb].
    destruct (replicate _ 0 !! _) as [y|] eqn:Ey; cbn [default]; [|apply Z.bits_0].
    apply lookup_replicate in Ey as [-> _]. apply Z.bits_0.
Qed.

Lemma forget_ok hi w :
  window_ok w -> is_u64 hi ->
  window_ok (forgetThrough hi w) /\ whigh (forgetThrough hi w) = whigh w /\
  forall s, has (forgetThrough hi w) s = (hi <? s) && has w s.
Proof.
  intros [Hm Hh] Hu. unfold forgetThrough, is_u64 in *.
  destruct (Z.leb_spec (whigh w) hi) as [Hle|Hgt].
  { split_and!; [split; [apply mask_zero|done]|done|]. intros s. unfold has. cbn [whigh wmask update].
    rewrite bitm_zero, andb_false_r. destruct (Z.ltb_spec hi s); [|done].
    by rewrite (proj2 (Z.leb_gt s (whigh w))) by lia. }
  rewrite u64_small by lia. fold (trim (whigh w - hi) (wmask w)). set (d := whigh w - hi).
  destruct (Z.ltb_spec d maxPackets) as [Hd|Hd].
  - split_and!; [split; [apply trim_ok; [done|lia]|done]|done|]. intros s. unfold has. cbn [whigh wmask update].
    rewrite trim_bits by (done || lia). destruct (Z.leb_spec s (whigh w)); cbn [andb]; [|by rewrite andb_false_r].
    f_equal. destruct (Z.ltb_spec (whigh w - s) d), (Z.ltb_spec hi s); lia.
  - split_and!; [by split|done|]. intros s. destruct (Z.ltb_spec hi s); [done|].
    unfold has. by rewrite bitm_beyond, andb_false_r by (done || lia).
Qed.

(** The bit of the bitmap at an offset is the receipt at that distance below
    its anchor. *)
Lemma bitmap_loop_ok n off hi w res :
  window_ok w -> is_u64 hi -> hi <= whigh w -> 0 <= off -> off + Z.of_nat n <= 256 ->
  length res = ackReceiptWords ->
  length (bitmap_loop n off hi w res) = ackReceiptWords /\
  forall e, 0 <= e < 256 -> bitm (bitmap_loop n off hi w res) e =
    (off <=? e) && (e <? off + Z.of_nat n) && (e <? hi) && has w (hi - e) || bitm res e.
Proof.
  intros Hw Hu Hle. pose proof Hw as [Hm Hh]. unfold is_u64 in *.
  revert off res. induction n as [|n IH]; intros off res H0 Hn Hl; cbn [bitmap_loop].
  { split; [done|]. intros e He. replace (off + Z.of_nat 0) with off by lia.
    destruct (Z.leb_spec off e), (Z.ltb_spec e off); try lia; done. }
  destruct (Z.ltb_spec off hi) as [Hlt|Hge].
  2:{ split; [done|]. intros e He. destruct (Z.leb_spec off e); [|done].
      rewrite (proj2 (Z.ltb_ge e hi)) by lia. by rewrite andb_false_r. }
  rewrite u64_small by lia. set (d := whigh w - (hi - off)).
  assert (Ed : (d <? maxPackets) && negb (Z.land (word (wmask w) (Z.to_nat (d / 64))) (shl 1 (d mod 64)) =? 0)
     = has w (hi - off)).
  { destruct (pos_split d) as (_ & Hb & _); [lia|]. rewrite land_bit by done. unfold has.
    rewrite (proj2 (Z.leb_le (hi - off) (whigh w))) by lia. cbn [andb]. fold d.
    destruct (Z.ltb_spec d maxPackets); [|by rewrite bitm_beyond].
    unfold bitm. by rewrite (proj2 (Z.leb_le 0 d)) by lia. }
  rewrite Ed. set (res1 := if has w (hi - off) then _ else res).
  assert (Hl1 : length res1 = ackReceiptWords) by (unfold res1; destruct (has _ _); [rewrite length_insert|]; done).
  destruct (IH (off + 1) res1 ltac:(lia) ltac:(lia) Hl1) as [Hlen Hbit]. split; [done|]. intros e He.
  rewrite Hbit by done.
  assert (Hr : bitm res1 e = has w (hi - off) && (e =? off) || bitm res e).
  { unfold res1. destruct (has w (hi - off)); [|done].
    rewrite bitm_set by (rewrite Hl; unfold ackReceiptWords; lia). done. }
  rewrite Hr. destruct (Z.eqb_spec e off) as [->|Hne].
  - rewrite (proj2 (Z.leb_gt (off + 1) off)), (proj2 (Z.leb_le off off)) by lia.
    rewrite (proj2 (Z.ltb_lt off (off + Z.of_nat (S n)))), (proj2 (Z.ltb_lt off hi)) by lia.
    cbn [andb orb]. by rewrite andb_true_r.
  - rewrite andb_false_r. cbn [orb]. f_equal. f_equal. f_equal.
    destruct (Z.leb_spec off e), (Z.leb_spec (off + 1) e), (Z.ltb_spec e (off + 1 + Z.of_nat n)),
      (Z.ltb_spec e (off + Z.of_nat (S n))); try lia; done.
Qed.

Lemma bitmap_ok hi w :
  window_ok w -> is_u64 hi -> hi <= whigh w ->
  length (bitmap hi w) = ackReceiptWords /\
  forall e, 0 <= e < 256 -> bitm (bitmap hi w) e = (e <? hi) && has w (hi - e).
Proof.
  intros Hw Hu Hle. unfold bitmap.
  assert (En : Z.of_nat (Z.to_nat ackReceiptBits) = 256) by reflexivity.
  revert En. generalize (Z.to_nat ackReceiptBits). intros n En.
  destruct (bitmap_loop_ok n 0 hi w (replicate ackReceiptWords 0) Hw Hu Hle ltac:(lia) ltac:(lia) eq_refl)
    as [Hl Hb].
  split; [exact Hl|]. intros e He. rewrite Hb, bitm_zero, orb_false_r by done.
  rewrite En, (proj2 (Z.leb_le 0 e)), (proj2 (Z.ltb_lt e (0 + 256))) by lia. reflexivity.
Qed.

(** [received] of an acknowledgement built from the window. *)
Lemma received_bitmap a w s :
  window_ok w -> is_u64 (receivedHigh a) -> receivedHigh a <= whigh w ->
  receivedMask a = bitmap (receivedHigh a) w -> is_u64 s ->
  received a s = (1 <=? s) && (s <=? receivedHigh a) && (receivedHigh a - s <? ackReceiptBits) && has w s.
Proof.
  intros Hw Hu Hle Em Hs. unfold is_u64 in *. destruct (bitmap_ok (receivedHigh a) w Hw Hu Hle) as [Hl Hb].
  unfold received. rewrite Em. set (hi := receivedHigh a) in *. clear Em.
  revert Hl Hb. generalize (bitmap hi w). intros m Hl Hb. rewrite Hl.
  destruct (Z.eqb_spec s 0) as [->|H0]; [done|]. cbn [orb]. rewrite (proj2 (Z.leb_le 1 s)) by lia.
  destruct (Z.ltb_spec hi s) as [H1|H1]; [by rewrite (proj2 (Z.leb_gt s hi)) by lia|].
  rewrite (proj2 (Z.leb_le s hi)) by lia. cbn [orb andb]. rewrite u64_small by lia.
  change (Z.of_nat ackReceiptWords * 64) with 256. change ackReceiptBits with 256.
  destruct (Z.leb_spec 256 (hi - s)); [by rewrite (proj2 (Z.ltb_ge _ 256)) by lia|].
  rewrite (proj2 (Z.ltb_lt _ 256)) by lia. cbn [andb].
  destruct (pos_split (hi - s)) as (_ & Hp & _); [lia|]. fold (word m (Z.to_nat ((hi - s) / 64))).
  fold (shl 1 ((hi - s) mod 64)). rewrite land_bit by done.
  specialize (Hb (hi - s) ltac:(lia)). unfold bitm in Hb. rewrite (proj2 (Z.leb_le 0 _)) in Hb by lia. cbn [andb] in Hb.
  rewrite Hb, (proj2 (Z.ltb_lt _ hi)) by lia. cbn [andb]. f_equal. lia.
Qed.

(** ** The reference: every sequence accepted so far *)
Record history := mkHistory { top : Z; seen : gset Z }.
Definition history0 : history := mkHistory 0 ∅.

(** A sequence is accepted when it was not accepted before and is less than
    [maxPackets] behind the newest one. *)
Definition spec_mark (seq : Z) (h : history) : history * bool :=
  let t := Z.max (top h) seq in
  if (t - seq <? maxPackets) && bool_decide (seq ∉ seen h)
  then (mkHistory t ({[ seq ]} ∪ seen h), true) else (mkHistory t (seen h), false).

Fixpoint run_marks {S} (step : Z -> S -> S * bool) (l : list Z) (s : S) : S * list bool :=
  match l with
  | [] => (s, [])
  | x :: l => let '(s, b) := step x s in let '(s, bs) := run_marks step l s in (s, b :: bs)
  end.
Definition marks := run_marks mark.
Definition spec_marks := run_marks spec_mark.

(** The sequences of a run that were accepted. *)
Fixpoint accepted (l : list Z) (bs : list bool) : list Z :=
  match l, bs with
  | x :: l, b :: bs => (if b then [x] else []) ++ accepted l bs
  | _, _ => []
  end.

Record refines (w : receiptWindow) (h : history) : Prop := mkRefines {
  rf_ok : window_ok w;
  rf_top : whigh w = top h;
  rf_has : forall s, has w s = (top h - s <? maxPackets) && bool_decide (s ∈ seen h)
}.

Lemma window0_refines : refines window0 history0.
Proof.
  split; [split; [apply mask_zero|unfold is_u64; cbn; lia]|done|].
  intros s. unfold has. cbn [whigh wmask window0]. rewrite bitm_zero, andb_false_r. symmetry.
  rewrite bool_decide_false; [apply andb_false_r|]. apply not_elem_of_empty.
Qed.

Lemma mark_refines s w h :
  is_u64 s -> refines w h ->
  refines (fst (mark s w)) (fst (spec_mark s h)) /\ snd (mark s w) = snd (spec_mark s h).
Proof.
  intros Hs [Ho Ht Hh]. pose proof (mark_ok s w Ho Hs) as M. destruct (mark s w) as [w' ok].
  destruct M as (Ho' & Et & Eok & Eh). cbn [fst snd].
  assert (Etop : whigh w' = Z.max (top h) s) by (rewrite Et, Ht; done).
  assert (Ehs : has w s = bool_decide (s ∈ seen h) \/ maxPackets <= whigh w' - s).
  { rewrite Hh. destruct (Z.ltb_spec (top h - s) maxPackets); [by left|right; lia]. }
  assert (Eok' : ok = (whigh w' - s <? maxPackets) && bool_decide (s ∉ seen h)).
  { rewrite Eok, bool_decide_not. destruct Ehs as [->|Hf]; [done|]. by rewrite (proj2 (Z.ltb_ge _ _)) by done. }
  unfold spec_mark. rewrite <- Etop, <- Eok'. split; [|by destruct ok].
  split; [done|by destruct ok|]. intros x. rewrite Eh, Hh.
  assert (Hle : top h - x <= whigh w' - x) by lia.
  destruct ok; cbn [fst top seen andb orb].
  - destruct (Z.ltb_spec (whigh w' - x) maxPackets); [|done]. cbn [andb].
    rewrite (proj2 (Z.ltb_lt (top h - x) maxPackets)) by lia. cbn [andb].
    destruct (Z.eqb_spec x s) as [->|Hne]; cbn [orb].
    + symmetry. apply bool_decide_true. set_solver.
    + apply bool_decide_ext. set_solver.
  - destruct (Z.ltb_spec (whigh w' - x) maxPackets); [|done]. cbn [andb].
    by rewrite (proj2 (Z.ltb_lt (top h - x) maxPackets)) by lia.
Qed.

Lemma marks_refine l w h :
  Forall is_u64 l -> refines w h ->
  refines (fst (marks l w)) (fst (spec_marks l h)) /\ snd (marks l w) = snd (spec_marks l h).
Proof.
  intros F. revert w h. induction F as [|s l Hs _ IH]; intros w h R; [done|].
  unfold marks, spec_marks. cbn [run_marks].
  destruct (mark_refines s w h Hs R) as [R1 E1].
  destruct (mark s w) as [w1 b1], (spec_mark s h) as [h1 c1]. cbn [fst snd] in R1, E1. subst c1.
  destruct (IH w1 h1 R1) as [R2 E2]. fold marks spec_marks.
  destruct (marks l w1) as [w2 bs], (spec_marks l h1) as [h2 cs]. cbn [fst snd] in *. by subst cs.
Qed.

(** The reference accepts a sequence at most once and remembers exactly what it
    accepted. *)
Lemma spec_marks_accepted l h :
  let '(h', bs) := spec_marks l h in
  NoDup (accepted l bs) /\ (forall x, x ∈ accepted l bs -> x ∉ seen h) /\
  (forall x, x ∈ seen h' <-> x ∈ accepted l bs \/ x ∈ seen h).
Proof.
  revert h. induction l as [|s l IH]; intros h; unfold spec_marks; cbn [run_marks accepted].
  { split_and!; [constructor|set_solver|set_solver]. }
  unfold spec_mark at 1. fold spec_marks. destruct ((_ <? _) && _) eqn:E.
  - apply andb_true_iff in E as [_ E]. apply bool_decide_eq_true in E.
    specialize (IH (mkHistory (Z.max (top h) s) ({[s]} ∪ seen h))). destruct (spec_marks l _) as [h' bs].
    destruct IH as (N & F & K). cbn [accepted app seen] in *. split_and!.
    + constructor; [|done]. intros Hin. specialize (F s Hin). set_solver.
    + intros x Hx. apply elem_of_cons in Hx as [->|Hx]; [done|]. specialize (F x Hx). set_solver.
    + intros x. rewrite K, elem_of_cons, elem_of_union, elem_of_singleton. tauto.
  - specialize (IH (mkHistory (Z.max (top h) s) (seen h))). destruct (spec_marks l _) as [h' bs]. exact IH.
Qed.

(** ** The guarantees *)

(** C12. Exactly-once receipts.  Marking any sequence of 64-bit numbers in a
    fresh window answers each call as the reference with unbounded memory does:
    a number is accepted exactly when it was not accepted before and is less
    than [maxPackets] behind the newest.  So no number is ever accepted twice,
    and what the window remembers is what was accepted within that distance. *)
Theorem bond_receipts_exactly_once l :
  Forall is_u64 l ->
  let '(w, bs) := marks l window0 in
  bs = snd (spec_marks l history0) /\ NoDup (accepted l bs) /\
  forall s, has w s = true <-> s ∈ accepted l bs /\ whigh w - s < maxPackets.
Proof.
  intros F. destruct (marks_refine l window0 history0 F window0_refines) as [R E].
  pose proof (spec_marks_accepted l history0) as A.
  destruct (marks l window0) as [w bs]. cbn [fst snd] in *.
  destruct (spec_marks l history0) as [h cs]. cbn [fst snd] in *. subst cs.
  destruct A as (N & _ & K). split_and!; [done|done|]. intros s.
  rewrite (rf_has _ _ R), andb_true_iff, bool_decide_eq_true, K, Z.ltb_lt, (rf_top _ _ R). set_solver.
Qed.

Lemma bond_receipts_exactly_once_witness :
  let '(w, bs) := marks [5; 3; 5; 9000; 3; 8999] window0 in
  bs = [true; true; false; true; false; true] /\
  (bs = snd (spec_marks [5; 3; 5; 9000; 3; 8999] history0) /\ NoDup (accepted [5; 3; 5; 9000; 3; 8999] bs) /\
  forall s, has w s = true <-> s ∈ accepted [5; 3; 5; 9000; 3; 8999] bs /\ whigh w - s < maxPackets).
Proof.
  pose proof (bond_receipts_exactly_once [5; 3; 5; 9000; 3; 8999]) as H.
  assert (F : Forall is_u64 [5; 3; 5; 9000; 3; 8999]) by (repeat constructor; lia). specialize (H F).
  assert (E : snd (marks [5; 3; 5; 9000; 3; 8999] window0) = [true; true; false; true; false; true])
    by (vm_compute; reflexivity).
  destruct (marks [5; 3; 5; 9000; 3; 8999] window0) as [w bs]. split; [exact E|exact H].
Defined.

(** Acknowledged means received.  After any marks, the acknowledgement
    frame built with the window's bitmap at an anchor not above its high-water
    mark, once parsed by the peer, reports a sequence as received exactly when
    the window accepted it and it lies in the 256 sequences up to the anchor:
    nothing that was not accepted is ever reported. *)
Theorem bond_ack_reports_receipts l ep ln rev a s :
  Forall is_u64 l -> epoch_ok ep -> is_u16 ln -> ack_ok a -> is_u64 s ->
  let '(w, bs) := marks l window0 in
  receivedHigh a <= whigh w -> receivedMask a = bitmap (receivedHigh a) w ->
  exists a', parseACK (Frame.frame.ControlPayload (ackFrame ep ln rev a)) = Ok a' /\
    (received a' s = true <->
      1 <= s <= receivedHigh a /\ receivedHigh a - s < 256 /\ s ∈ accepted l bs /\
      whigh w - s < maxPackets).
Proof.
  intros F He Hl Ha Hs. destruct (marks_refine l window0 history0 F window0_refines) as [R E].
  pose proof (spec_marks_accepted l history0) as A.
  destruct (marks l window0) as [w bs]. cbn [fst snd] in *.
  destruct (spec_marks l history0) as [h cs]. cbn [fst snd] in *. subst cs. destruct A as (_ & _ & K).
  intros Hle Em. exists a. rewrite ackFrame_payload, parseACK_words by (done || apply length_appendHeader).
  split; [done|]. assert (Hu : is_u64 (receivedHigh a)).
  { destruct Ha as (Fa & _). repeat (inversion Fa as [|? ? ?H F']; subst; clear Fa; rename F' into Fa). done. }
  rewrite (received_bitmap a w s (rf_ok _ _ R) Hu Hle Em Hs).
  rewrite !andb_true_iff, Z.leb_le, Z.leb_le, Z.ltb_lt, (rf_has _ _ R), andb_true_iff, bool_decide_eq_true, K,
    Z.ltb_lt, (rf_top _ _ R). change ackReceiptBits with 256. set_solver.
Qed.

Definition ack1 (w : receiptWindow) : acknowledgement := mkAck (mkEpoch 1 1) 3 7 900 5 6 300 (bitmap 300 w).

Lemma bond_ack_reports_receipts_witness :
  exists a', parseACK (Frame.frame.ControlPayload
      (ackFrame (mkEpoch 2 2) 1 4 (ack1 (fst (marks [2; 300; 299] window0))))) = Ok a' /\
    (received a' 299 = true <->
      1 <= 299 <= 300 /\ 300 - 299 < 256 /\
      299 ∈ accepted [2; 300; 299] (snd (marks [2; 300; 299] window0)) /\
      whigh (fst (marks [2; 300; 299] window0)) - 299 < maxPackets).
Proof.
  pose proof (bond_ack_reports_receipts [2; 300; 299] (mkEpoch 2 2) 1 4
    (ack1 (fst (marks [2; 300; 299] window0))) 299) as H.
  assert (F : Forall is_u64 [2; 300; 299]) by (repeat constructor; lia).
  assert (Ha : ack_ok (ack1 (fst (marks [2; 300; 299] window0)))).
  { assert (Eb : bitmap 300 (fst (marks [2; 300; 299] window0)) = [3; 0; 0; 0]) by (vm_compute; reflexivity).
    unfold ack_ok, ack1. rewrite Eb. cbn [observed high mask bytes elapsed delay receivedHigh receivedMask Boot Generation].
    split_and!; try range; repeat constructor; lia. }
  specialize (H F ltac:(unfold epoch_ok; cbn; lia) ltac:(range) Ha ltac:(range)).
  destruct (marks [2; 300; 299] window0) as [w bs] eqn:Em. cbn [fst snd] in *.
  apply H; [|reflexivity].
  assert (Ew : whigh w = whigh (fst (marks [2; 300; 299] window0))) by by rewrite Em.
  rewrite Ew. vm_compute. discriminate.
Defined.

(** Every receipt gets reported.  When unreported receipts are all known to
    the receive window, the acknowledgement [Poll] builds (anchor, bitmap,
    trimming) reports every unreported receipt up to its anchor, among them the
    oldest, forgets exactly those, and leaves only receipts at least 256 above
    the oldest: the backlog of reports strictly shrinks with each one. *)
Theorem bond_poll_reports_oldest rcv unr a :
  window_ok rcv -> window_ok unr ->
  (forall s, has unr s = true -> has rcv s = true /\ 1 <= s) -> oldest unr <> 0 ->
  receivedHigh a = reportHigh rcv unr -> receivedMask a = bitmap (receivedHigh a) rcv ->
  let unr' := forgetThrough (receivedHigh a) unr in
  (forall s, is_u64 s -> has unr s = true -> s <= receivedHigh a -> received a s = true) /\
  (has unr (oldest unr) = true /\ has unr' (oldest unr) = false) /\
  (forall s, has unr' s = true <-> has unr s = true /\ receivedHigh a < s) /\
  (forall s, has unr' s = true -> oldest unr + 256 <= s).
Proof.
  intros Hr Hu Hsub Hold Eh Em. cbv zeta.
  destruct (oldest_ok unr Hu) as [[_ E0]|[Ho Hmin]]; [intros s Hs; destruct (Hsub s Hs); lia|done|].
  destruct (Hsub _ Ho) as [Hro H1]. pose proof (has_range rcv _ Hr Hro) as Hrg.
  pose proof (wo_high _ Hr) as Hhr. unfold is_u64 in Hhr.
  assert (Ehi : receivedHigh a = oldest unr + Z.min 255 (whigh rcv - oldest unr)).
  { rewrite Eh. unfold reportHigh. rewrite (proj2 (Z.eqb_neq _ _)) by done. cbn [negb].
    change (ackReceiptBits - 1) with 255.
    rewrite (u64_small (whigh rcv - oldest unr)) by lia. by rewrite u64_small by lia. }
  assert (Hhi : is_u64 (receivedHigh a)) by (unfold is_u64; lia).
  destruct (forget_ok (receivedHigh a) unr Hu Hhi) as (_ & _ & Hf).
  assert (Hiff : forall s, has (forgetThrough (receivedHigh a) unr) s = true <-> has unr s = true /\ receivedHigh a < s)
    by (intros s; rewrite Hf, andb_true_iff, Z.ltb_lt; tauto).
  split_and!; [| done | | done |].
  - intros s Hs Hin Hle. rewrite (received_bitmap a rcv s Hr Hhi) by (done || lia).
    destruct (Hsub s Hin) as [Hrs Hs1]. specialize (Hmin s Hin). rewrite Hrs.
    rewrite (proj2 (Z.leb_le 1 s)), (proj2 (Z.leb_le s _)), (proj2 (Z.ltb_lt _ ackReceiptBits)); try done.
    change ackReceiptBits with 256. lia.
  - rewrite Hf. by rewrite (proj2 (Z.ltb_ge _ _)) by lia.
  - intros s Hs. apply Hiff in Hs as [Hin Hgt]. destruct (Hsub s Hin) as [Hrs _].
    pose proof (has_range rcv s Hr Hrs). lia.
Qed.

Lemma bond_poll_reports_oldest_witness :
  let w := fst (marks [1; 2; 700] window0) in
  let a := mkAck (mkEpoch 1 1) 3 7 900 5 6 (reportHigh w w) (bitmap (reportHigh w w) w) in
  receivedHigh a = 256 /\
  (forall s, is_u64 s -> has w s = true -> s <= receivedHigh a -> received a s = true) /\
  (has w (oldest w) = true /\ has (forgetThrough (receivedHigh a) w) (oldest w) = false) /\
  (forall s, has (forgetThrough (receivedHigh a) w) s = true <-> has w s = true /\ receivedHigh a < s) /\
  (forall s, has (forgetThrough (receivedHigh a) w) s = true -> oldest w + 256 <= s).
Proof.
  cbv zeta. set (w := fst (marks [1; 2; 700] window0)).
  assert (F : Forall is_u64 [1; 2; 700]) by (repeat constructor; lia).
  destruct (marks_refine [1; 2; 700] window0 history0 F window0_refines) as [R Eb].
  pose proof (spec_marks_accepted [1; 2; 700] history0) as A.
  split; [vm_compute; reflexivity|].
  apply (bond_poll_reports_oldest w w (mkAck (mkEpoch 1 1) 3 7 900 5 6 (reportHigh w w) (bitmap (reportHigh w w) w))).
  - apply R.
  - apply R.
  - intros s Hs. split; [exact Hs|]. unfold w in Hs. rewrite (rf_has _ _ R) in Hs.
    apply andb_true_iff in Hs as [_ Hs]. apply bool_decide_eq_true in Hs.
    destruct (spec_marks [1; 2; 700] history0) as [h bs] eqn:E in A, Hs, Eb. cbn [fst] in Hs.
    assert (Hbs : bs = [true; true; true]) by (cbn [snd] in Eb; rewrite <- Eb; vm_compute; reflexivity).
    destruct A as (_ & _ & K). specialize (K s). clear Eb R E. rewrite K in Hs.
    destruct Hs as [Hs|Hs]; [|by apply not_elem_of_empty in Hs].
    rewrite Hbs in Hs. cbn [accepted app] in Hs.
    do 3 (apply elem_of_cons in Hs as [->|Hs]; [lia|]). by apply elem_of_nil in Hs.
  - vm_compute. discriminate.
  - reflexivity.
  - reflexivity.
Defined.

End receipt_props.
