(* ===== verification/Float64.v ===== *)
(** * Go's float64

    IEEE 754 binary64 through the Standard Library's [SpecFloat]: executable,
    round-to-nearest-even, no fused multiply-add.  Constants are the nearest
    doubles of exact rationals, as the compiler converts them. *)

From Stdlib Require Import ZArith Floats.SpecFloat.
From stdpp Require Import base tactics numbers.
From S2P Require Import Prelude.

Module float64.

Abbreviation float := spec_float (only parsing).
Definition prec : Z := 53.
Definition emax : Z := 1024.

Definition fadd : float -> float -> float := SFadd prec emax.
Definition fsub : float -> float -> float := SFsub prec emax.
Definition fmul : float -> float -> float := SFmul prec emax.
Definition fdiv : float -> float -> float := SFdiv prec emax.
Definition fsqrt : float -> float := SFsqrt prec emax.
Definition f0 : float := S754_zero false.

(** [float64(n)] of an integer, and the double nearest to [n/d]. *)
Definition fofZ (n : Z) : float := binary_normalize prec emax n 0 false.
Definition fofQ (n d : Z) : float := fdiv (fofZ n) (fofZ d).

Definition flt : float -> float -> bool := SFltb.
Definition fle : float -> float -> bool := SFleb.
Definition feq : float -> float -> bool := SFeqb.
Definition fgt (x y : float) : bool := flt y x.
Definition fge (x y : float) : bool := fle y x.

Definition is_nan (x : float) : bool := match x with S754_nan => true | _ => false end.

(** [math.Max], [math.Min] and the builtins [max], [min] on floats: NaN if
    either is, and the zeros are ordered [-0 < +0]. *)
Definition fmax (x y : float) : float :=
  if is_nan x || is_nan y then S754_nan
  else match x, y with
       | S754_zero sx, S754_zero sy => S754_zero (sx && sy)
       | _, _ => if flt x y then y else x
       end.
Definition fmin (x y : float) : float :=
  if is_nan x || is_nan y then S754_nan
  else match x, y with
       | S754_zero sx, S754_zero sy => S754_zero (sx || sy)
       | _, _ => if flt y x then y else x
       end.

(** [int64(x)]: truncation; out of range is the smallest integer, as on amd64. *)
Definition ftrunc (x : float) : option Z :=
  match x with
  | S754_zero _ => Some 0
  | S754_finite s m e =>
    let v := if 0 <=? e then Z.shiftl (Zpos m) e else Z.shiftr (Zpos m) (- e) in
    Some (if s then - v else v)
  | _ => None
  end.
Definition toI64 (x : float) : Z :=
  match ftrunc x with
  | Some v => if (minI64 <=? v) && (v <=? maxI64) then v else minI64
  | None => minI64
  end.

(** [Duration.Seconds]. *)
Definition Seconds (d : Duration) : float :=
  fadd (fofZ (Z.quot d second)) (fdiv (fofZ (Z.rem d second)) (fofZ second)).

(** A float that is not negative: a zero, a positive number or infinity. *)
Definition nonneg (x : float) : bool :=
  match x with
  | S754_zero _ => true
  | S754_finite s _ _ | S754_infinity s => negb s
  | S754_nan => false
  end.

Example seconds_quarter : Seconds (250 * millisecond) = fofQ 1 4.
Proof. vm_compute. reflexivity. Qed.
Example sqrt_two : toI64 (fmul (fofZ 1000000) (fsqrt (fofZ 2))) = 1414213.
Proof. vm_compute. reflexivity. Qed.

End float64.
