(* ===== verification/BondQueue.v ===== *)
(** * The transport's queues ([internal/bond/queue.go])

    The FIFO of bulk datagrams, the fair queue of the small classes with its
    ACK coalescing, and the controlled-delay drop schedule.

    The fair queue's nodes are linked by pointers and owned by the map from
    flow to node; a node is in the ring exactly while it is in the map, so a
    pointer to a node is modelled by the key of its flow.  Following a pointer
    to a node that is not there is the nil dereference, [None]. *)

From stdpp Require Import base tactics list numbers gmap.
From S2P Require Import Prelude Float64.

Module queue.
Import float64.

Abbreviation FlowID := (list Z) (only parsing).
Definition FlowID0 : FlowID := replicate 40 0.

Record TCPACK := mkTCPACK {
  Eligible : bool;
  Sequence : Z;
  Acknowledgement : Z;
  Window : Z;
  TrafficClass : Z;
  Timestamp : bool;
  TSVal : Z;
  TSEcr : Z
}.
Definition TCPACK0 : TCPACK := mkTCPACK false 0 0 0 0 false 0 0.

Inductive class := classRealtime | classSmall | classBulk.
#[export] Instance class_eq_dec : EqDecision class.
Proof. solve_decision. Defined.

Record packet := mkPacket {
  flow : FlowID;
  ack : TCPACK;
  seq : Z;
  order : Z;
  pclass : class;
  interactive : bool;
  payload : list Z;
  created : Time;
  queueDeadline : Time;
  repairDeadline : Time;
  lastSent : Time;
  lastPath : Z;
  lastLaneSeq : Z;
  attempts : Z;
  acked : bool
}.

(** [packetFIFO]: [pop] of an empty FIFO is an index out of range. *)
Abbreviation packetFIFO := (list packet) (only parsing).
Definition fifo_peek (q : packetFIFO) : option packet := q !! 0%nat.
Definition fifo_pop (q : packetFIFO) : option packetFIFO :=
  match q with [] => None | _ :: q => Some q end.

Record packetFlow := mkFlow { fid : FlowID; packets : packetFIFO; fnext : FlowID; fprevious : FlowID }.
#[export] Instance eta_packetFlow : Eta packetFlow := fun f =>
  mkFlow (fid f) (packets f) (fnext f) (fprevious f).

Record fairPacketQueue := mkFair { flows : gmap FlowID packetFlow; qhead : option FlowID; qcount : Z }.
#[export] Instance eta_fairPacketQueue : Eta fairPacketQueue := fun q =>
  mkFair (flows q) (qhead q) (qcount q).
Definition fair0 : fairPacketQueue := mkFair ∅ None 0.

(** A write through a pointer. *)
Definition set_next (a b : FlowID) (m : gmap FlowID packetFlow) : gmap FlowID packetFlow :=
  alter (fun f => f <| fnext := b |>) a m.
Definition set_previous (a b : FlowID) (m : gmap FlowID packetFlow) : gmap FlowID packetFlow :=
  alter (fun f => f <| fprevious := b |>) a m.
Definition set_packets (a : FlowID) (ps : packetFIFO) (m : gmap FlowID packetFlow) : gmap FlowID packetFlow :=
  alter (fun f => f <| packets := ps |>) a m.

Definition supersedes (a old : TCPACK) : bool :=
  Eligible a && Eligible old && (Sequence a =? Sequence old) &&
  negb (Window a =? 0) && negb (Window old =? 0) && (TrafficClass a =? TrafficClass old) &&
  (0 <? i32 (Acknowledgement a - Acknowledgement old)) &&
  Bool.eqb (Timestamp a) (Timestamp old) &&
  (negb (Timestamp a) ||
   ((0 <=? i32 (TSVal a - TSVal old)) && (0 <=? i32 (TSEcr a - TSEcr old)))).

(** The first half of [push]: the node of the flow, linked in before the head
    if it is new. *)
Definition link (id : FlowID) (q : fairPacketQueue) : option fairPacketQueue :=
  match flows q !! id with
  | Some _ => Some q
  | None =>
    match qhead q with
    | None => Some (q <| flows := <[id := mkFlow id [] id id]> (flows q) |> <| qhead := Some id |>)
    | Some h =>
      match flows q !! h with
      | None => None
      | Some hd =>
        let m := <[id := mkFlow id [] h (fprevious hd)]> (flows q) in
        match m !! fprevious hd with
        | None => None
        | Some _ =>
          let m := set_next (fprevious hd) id m in
          Some (q <| flows := set_previous h id m |>)
        end
      end
    end
  end.

(** The ACK of the datagram [k] places from the back. *)
Definition coalesces (p : packet) (ps : packetFIFO) : bool :=
  let n := length ps in
  (2 <=? n)%nat && negb (bool_decide (flow p = FlowID0)) &&
  match ps !! (n - 2)%nat, ps !! (n - 1)%nat with
  | Some previous, Some last => supersedes (ack last) (ack previous) && supersedes (ack p) (ack last)
  | _, _ => false
  end.

Definition push (p : packet) (q : fairPacketQueue) : option (fairPacketQueue * bool) :=
  match link (flow p) q with
  | None => None
  | Some q =>
    match flows q !! flow p with
    | None => None
    | Some f =>
      if coalesces p (packets f)
      then Some (q <| flows := set_packets (flow p) (<[(length (packets f) - 1)%nat := p]> (packets f)) (flows q) |>, true)
      else Some (q <| flows := set_packets (flow p) (packets f ++ [p]) (flows q) |>
                   <| qcount := qcount q + 1 |>, false)
    end
  end.

Definition peek (q : fairPacketQueue) : option packet :=
  match qhead q with
  | None => None
  | Some h => match flows q !! h with None => None | Some f => fifo_peek (packets f) end
  end.

Definition pop (q : fairPacketQueue) : option fairPacketQueue :=
  match qhead q with
  | None => None
  | Some h =>
    match flows q !! h with
    | None => None
    | Some f =>
      match fifo_pop (packets f) with
      | None => None
      | Some ps =>
        let q := q <| flows := set_packets h ps (flows q) |> <| qcount := qcount q - 1 |>
                   <| qhead := Some (fnext f) |> in
        if (length ps =? 0)%nat then
          let q := q <| flows := delete (fid f) (flows q) |> in
          if bool_decide (fnext f = h) then Some (q <| qhead := None |>)
          else
            match flows q !! fprevious f, flows q !! fnext f with
            | Some _, Some _ =>
              Some (q <| flows := set_previous (fnext f) (fprevious f)
                                    (set_next (fprevious f) (fnext f) (flows q)) |>)
            | _, _ => None
            end
        else Some q
      end
    end
  end.

(** ** The controlled-delay schedule *)
Definition codelMinTarget : Duration := 10 * millisecond.
Definition codelMaxTarget : Duration := 100 * millisecond.
Definition codelMinInterval : Duration := 100 * millisecond.

Record codel := mkCodel {
  target : Duration;
  interval : Duration;
  firstAbove : Time;
  dropNext : Time;
  count : Z;
  lastCount : Z;
  dropping : bool
}.
#[export] Instance eta_codel : Eta codel := fun c =>
  mkCodel (target c) (interval c) (firstAbove c) (dropNext c) (count c) (lastCount c) (dropping c).
Definition codel0 : codel := mkCodel 0 0 0 0 0 0 false.

Definition okToDrop (now : Time) (sojourn : Duration) (remaining : Z) (c : codel) : codel * bool :=
  if (sojourn <? target c) || (remaining =? 0) then (c <| firstAbove := 0 |>, false)
  else if is_zero_time (firstAbove c) then (c <| firstAbove := now + interval c |>, false)
  else (c, negb (now <? firstAbove c)).

Definition controlLaw (t : Time) (c : codel) : Time :=
  t + toI64 (fdiv (fofZ (interval c)) (fsqrt (fofZ (count c)))).

Definition codelDrop (now : Time) (sojourn : Duration) (remaining : Z) (roundTrip : Duration) (c : codel) :
    codel * bool :=
  let c := c <| target := Z.min codelMaxTarget (Z.max codelMinTarget roundTrip) |> in
  let c := c <| interval := Z.max codelMinInterval (2 * (roundTrip + target c)) |> in
  let '(c, ok) := okToDrop now sojourn remaining c in
  if dropping c then
    if negb ok then (c <| dropping := false |>, false)
    else if now <? dropNext c then (c, false)
    else
      let c := c <| count := count c + 1 |> in
      (c <| dropNext := controlLaw (dropNext c) c |>, true)
  else if negb ok then (c, false)
  else
    let c := c <| dropping := true |> in
    let delta := count c - lastCount c in
    let c := if (1 <? delta) && (time_sub now (dropNext c) <? 16 * interval c)
             then c <| count := delta |> else c <| count := 1 |> in
    let c := c <| lastCount := count c |> in
    (c <| dropNext := controlLaw now c |>, true).

End queue.
