(* ===== verification/BondQueueProps.v ===== *)
(** * What the queues guarantee

    The linked ring of flows refines a list of flows in turn order; from it,
    order within a flow, fairness between flows and the exact meaning of ACK
    coalescing.  The drop schedule never drops before a whole interval of
    excessive delay. *)

From stdpp Require Import base tactics list numbers gmap.
From S2P Require Import Prelude Float64 BondQueue.

Module queue_props.
Import queue.

(** ** Cyclic neighbours *)
Fixpoint path {A} (l : list A) : list (A * A) :=
  match l with
  | a :: ((b :: _) as m) => (a, b) :: path m
  | _ => []
  end.

(** The pairs (node, next node) of a ring in turn order. *)
Definition cyc {A} (l : list A) : list (A * A) :=
  match l, last l with
  | a :: _, Some z => path l ++ [(z, a)]
  | _, _ => []
  end.

Lemma path_snoc {A} (l : list A) a b : path (l ++ [a; b]) = path (l ++ [a]) ++ [(a, b)].
Proof.
  induction l as [|x l IH]; [done|]. destruct l as [|y l]; [done|].
  cbn [app path] in *. by rewrite IH.
Qed.

Lemma path_app_last {A} (l : list A) z b : last l = Some z -> path (l ++ [b]) = path l ++ [(z, b)].
Proof.
  intros H. apply last_Some in H as [l' ->]. rewrite <- app_assoc. apply path_snoc.
Qed.

Lemma cyc_snoc {A} (a : A) l z b :
  last (a :: l) = Some z ->
  cyc (a :: l) = path (a :: l) ++ [(z, a)] /\ cyc ((a :: l) ++ [b]) = path (a :: l) ++ [(z, b); (b, a)].
Proof.
  intros H. unfold cyc. rewrite H. split; [done|].
  cbn [app]. change (a :: l ++ [b]) with ((a :: l) ++ [b]). rewrite last_snoc.
  rewrite (path_app_last _ z) by done. by rewrite <- app_assoc.
Qed.

Lemma cyc_rotate {A} (x : A) l : Permutation (cyc (l ++ [x])) (cyc (x :: l)).
Proof.
  destruct l as [|y k]; [done|].
  assert (H : exists z, last (y :: k) = Some z) by (destruct (last (y :: k)) eqn:E; [eauto|by apply last_None in E]).
  destruct H as [z Hz]. destruct (cyc_snoc y k z x Hz) as [_ ->].
  unfold cyc. rewrite last_cons, Hz. cbn [path app].
  solve_Permutation.
Qed.

Lemma cyc_elem {A} (l : list A) a b : (a, b) ∈ cyc l -> a ∈ l /\ b ∈ l.
Proof.
  assert (P : forall l : list A, (a, b) ∈ path l -> a ∈ l /\ b ∈ l).
  { induction l0 as [|x m IH]; [by intros ?%elem_of_nil|]. destruct m as [|y m]; [by intros ?%elem_of_nil|].
    cbn [path]. intros [E|H]%elem_of_cons; [injection E as -> ->; set_solver|].
    destruct (IH H). set_solver. }
  unfold cyc. destruct l as [|x l]; [by intros ?%elem_of_nil|].
  destruct (last (x :: l)) as [z|] eqn:E; [|by intros ?%elem_of_nil].
  intros [H|H]%elem_of_app; [by apply P|]. apply list_elem_of_singleton in H. injection H as -> ->.
  split; [by apply last_Some_elem_of|set_solver].
Qed.

(** ** The reference queue: flows in turn order *)
Abbreviation turns := (list (FlowID * packetFIFO)) (only parsing).

Fixpoint t_put (p : packet) (r : turns) : turns * bool :=
  match r with
  | [] => ([(flow p, [p])], false)
  | (id, ps) :: r =>
    if bool_decide (id = flow p)
    then if coalesces p ps then ((id, <[(length ps - 1)%nat := p]> ps) :: r, true)
         else ((id, ps ++ [p]) :: r, false)
    else let '(r, b) := t_put p r in ((id, ps) :: r, b)
  end.

Definition t_pop (r : turns) : turns :=
  match r with
  | [] => []
  | (id, ps) :: r => match ps with
                     | [] | [_] => r
                     | _ :: ps => r ++ [(id, ps)]
                     end
  end.

Definition t_peek (r : turns) : option packet :=
  match r with [] => None | (_, ps) :: _ => ps !! 0%nat end.

Definition ids (r : turns) : list FlowID := map fst r.
Definition total (r : turns) : Z := fold_right (fun x n => Z.of_nat (length (snd x)) + n) 0 r.

(** The ring of nodes represents the turn order. *)
Record Rep (q : fairPacketQueue) (r : turns) : Prop := mkRep {
  rp_nodup : NoDup (ids r);
  rp_nonempty : forall id ps, (id, ps) ∈ r -> ps <> [];
  rp_head : qhead q = head (ids r);
  rp_dom : forall a, is_Some (flows q !! a) <-> a ∈ ids r;
  rp_node : forall id ps, (id, ps) ∈ r -> exists f, flows q !! id = Some f /\ packets f = ps /\ fid f = id;
  rp_links : forall a b, (a, b) ∈ cyc (ids r) ->
    (fnext <$> flows q !! a) = Some b /\ (fprevious <$> flows q !! b) = Some a;
  rp_count : qcount q = total r
}.

Lemma fair0_rep : Rep fair0 [].
Proof.
  split; try done; cbn.
  - constructor.
  - intros id ps H. by apply elem_of_nil in H.
  - intros a. rewrite lookup_empty. split; [by intros [? ?]|intros H; by apply elem_of_nil in H].
  - intros id ps H. by apply elem_of_nil in H.
  - intros a b H. by apply elem_of_nil in H.
Qed.

Lemma peek_rep q r : Rep q r -> peek q = t_peek r.
Proof.
  intros R. unfold peek, t_peek. rewrite (rp_head _ _ R). destruct r as [|[id ps] r]; [done|]. cbn.
  destruct (rp_node _ _ R id ps) as (f & -> & <- & _); [set_solver|done].
Qed.

(** ** Pointer writes *)
Lemma set_packets_next a ps m x : fnext <$> set_packets a ps m !! x = fnext <$> m !! x.
Proof.
  unfold set_packets. destruct (decide (a = x)) as [<-|Hne].
  - rewrite lookup_alter_eq. by destruct (m !! a).
  - by rewrite lookup_alter_ne.
Qed.
Lemma set_packets_previous a ps m x : fprevious <$> set_packets a ps m !! x = fprevious <$> m !! x.
Proof.
  unfold set_packets. destruct (decide (a = x)) as [<-|Hne].
  - rewrite lookup_alter_eq. by destruct (m !! a).
  - by rewrite lookup_alter_ne.
Qed.
Lemma set_packets_dom a ps m x : is_Some (set_packets a ps m !! x) <-> is_Some (m !! x).
Proof. unfold set_packets. by rewrite lookup_alter_is_Some. Qed.

Lemma node_next (m : gmap FlowID packetFlow) a b : (fnext <$> m !! a) = Some b -> exists f, m !! a = Some f /\ fnext f = b.
Proof. destruct (m !! a) as [f|]; [|done]. intros [= <-]. eauto. Qed.

Lemma set_next_fields a b m x :
  (fnext <$> set_next a b m !! x) = (if decide (a = x) then (fun _ => b) <$> m !! x else fnext <$> m !! x) /\
  (fprevious <$> set_next a b m !! x) = (fprevious <$> m !! x) /\
  (packets <$> set_next a b m !! x) = (packets <$> m !! x) /\
  (fid <$> set_next a b m !! x) = (fid <$> m !! x).
Proof.
  unfold set_next. destruct (decide (a = x)) as [<-|Hne].
  - rewrite lookup_alter_eq. by destruct (m !! a).
  - by rewrite lookup_alter_ne.
Qed.

Lemma set_previous_fields a b m x :
  (fprevious <$> set_previous a b m !! x) = (if decide (a = x) then (fun _ => b) <$> m !! x else fprevious <$> m !! x) /\
  (fnext <$> set_previous a b m !! x) = (fnext <$> m !! x) /\
  (packets <$> set_previous a b m !! x) = (packets <$> m !! x) /\
  (fid <$> set_previous a b m !! x) = (fid <$> m !! x).
Proof.
  unfold set_previous. destruct (decide (a = x)) as [<-|Hne].
  - rewrite lookup_alter_eq. by destruct (m !! a).
  - by rewrite lookup_alter_ne.
Qed.

(** A node is determined by its four fields. *)
Lemma node_of_fields (m : gmap FlowID packetFlow) x ps id :
  (packets <$> m !! x) = Some ps -> (fid <$> m !! x) = Some id ->
  exists f, m !! x = Some f /\ packets f = ps /\ fid f = id.
Proof. destruct (m !! x) as [f|]; [|done]. intros [= <-] [= <-]. eauto. Qed.

Lemma fmap_is_Some {A B} (g : A -> B) (o : option A) (o' : option A) :
  (g <$> o) = (g <$> o') -> is_Some o <-> is_Some o'.
Proof. destruct o, o'; try done; intros _; split; eauto. Qed.

(** ** Putting a datagram into the reference *)
Definition put_packets (p : packet) (ps : packetFIFO) : packetFIFO :=
  if coalesces p ps then <[(length ps - 1)%nat := p]> ps else ps ++ [p].

Lemma ids_elem r id : id ∈ ids r <-> exists ps, (id, ps) ∈ r.
Proof.
  unfold ids. rewrite list_elem_of_fmap. split.
  - intros ([x ps] & -> & H). eauto.
  - intros (ps & H). by exists (id, ps).
Qed.

Lemma t_put_new p r : flow p ∉ ids r -> t_put p r = (r ++ [(flow p, [p])], false).
Proof.
  induction r as [|[id ps] r IH]; intros H; [done|]. cbn [t_put].
  rewrite bool_decide_false by (cbn in H; set_solver). rewrite IH; [done|]. cbn in H. set_solver.
Qed.

Lemma t_put_old p r :
  NoDup (ids r) -> flow p ∈ ids r ->
  exists ps, (flow p, ps) ∈ r /\
    let '(r', b) := t_put p r in
    b = coalesces p ps /\ ids r' = ids r /\
    (forall x qs, (x, qs) ∈ r' <-> (x = flow p /\ qs = put_packets p ps) \/ (x <> flow p /\ (x, qs) ∈ r)) /\
    total r' = total r + (if coalesces p ps then 0 else 1).
Proof.
  induction r as [|[id ps] r IH]; intros Hn Hin; [by apply elem_of_nil in Hin|].
  cbn [t_put]. cbn in Hn. inversion Hn as [|? ? Hni Hn']; subst.
  destruct (decide (id = flow p)) as [->|Hne].
  - rewrite bool_decide_true by done. exists ps. split; [set_solver|].
    assert (Hr : forall qs, (flow p, qs) ∉ r) by (intros qs Hq; apply Hni, ids_elem; eauto).
    unfold put_packets. destruct (coalesces p ps) eqn:Ec; split_and!; try done.
    + intros x qs. rewrite !elem_of_cons. split; [|set_solver].
      intros [E|H]; [injection E as -> ->; by left|]. right. split; [|by right]. intros ->. by apply (Hr qs).
    + cbn [total fold_right snd]. rewrite length_insert. lia.
    + intros x qs. rewrite !elem_of_cons. split; [|set_solver].
      intros [E|H]; [injection E as -> ->; by left|]. right. split; [|by right]. intros ->. by apply (Hr qs).
    + cbn [total fold_right snd]. rewrite length_app. cbn [length]. lia.
  - rewrite bool_decide_false by done. destruct IH as (qs & Hq & IH); [done|cbn in Hin; set_solver|].
    destruct (t_put p r) as [r' b]. destruct IH as (-> & Ei & Em & Et).
    exists qs. split; [set_solver|]. split_and!; [done|unfold ids in *; cbn [map fst]; by rewrite Ei| |unfold total in *; cbn [fold_right snd]; lia].
    intros x us. rewrite !elem_of_cons, Em. split; [|set_solver].
    intros [E|[H|H]]; [injection E as -> ->; right; split; [done|by left]|by left|right; split; [apply H|right; apply H]].
Qed.

(** ** Refinement of [push] *)
Lemma push_old p q r :
  Rep q r -> flow p ∈ ids r ->
  exists q', push p q = Some (q', snd (t_put p r)) /\ Rep q' (fst (t_put p r)).
Proof.
  intros R Hin. destruct (t_put_old p r (rp_nodup _ _ R) Hin) as (ps & Hps & T).
  destruct (t_put p r) as [r' b]. destruct T as (-> & Ei & Em & Et). cbn [fst snd].
  destruct (rp_node _ _ R _ _ Hps) as (f & Ef & Ep & Eid).
  assert (Hpush : push p q = Some (q <| flows := set_packets (flow p) (put_packets p ps) (flows q) |>
      <| qcount := qcount q + (if coalesces p ps then 0 else 1) |>, coalesces p ps)).
  { unfold push, link. rewrite Ef, Ef, Ep. unfold put_packets.
    destruct (coalesces p ps); [|done]. do 2 f_equal. destruct q; cbn; f_equal; lia. }
  eexists. split; [exact Hpush|]. split; cbn [flows qhead qcount update].
  - rewrite Ei. apply R.
  - intros x qs Hx. apply Em in Hx as [[-> ->]|[_ Hx]]; [|by apply (rp_nonempty _ _ R x)].
    unfold put_packets. pose proof (rp_nonempty _ _ R _ _ Hps) as Hne. destruct ps; [done|].
    destruct (coalesces _ _); [|done]. cbn. by destruct (length ps).
  - rewrite Ei. apply R.
  - intros a. rewrite set_packets_dom, Ei. apply R.
  - intros x qs Hx. apply Em in Hx as [[-> ->]|[Hne Hx]].
    + unfold set_packets. rewrite lookup_alter_eq, Ef. eexists. by split_and!.
    + unfold set_packets. rewrite lookup_alter_ne by done. by apply R.
  - intros a c Hc. rewrite set_packets_next, set_packets_previous. rewrite Ei in Hc. by apply R.
  - rewrite Et. by rewrite (rp_count _ _ R).
Qed.


Lemma path_ends {A} (l : list A) a b :
  NoDup l -> (a, b) ∈ path l -> Some a <> last l /\ Some b <> head l.
Proof.
  induction l as [|x m IH]; intros Hn H; [by apply elem_of_nil in H|].
  destruct m as [|y m]; [by apply elem_of_nil in H|]. inversion Hn as [|? ? Hx Hm]; subst.
  assert (Hb : b ∈ y :: m).
  { assert (Hc : (a, b) ∈ cyc (x :: y :: m)).
    { unfold cyc. destruct (last (x :: y :: m)) eqn:E; [|by apply last_None in E]. apply elem_of_app. by left. }
    cbn [path] in H. apply elem_of_cons in H as [E|H]; [injection E as -> ->; set_solver|].
    assert (Hc' : (a, b) ∈ cyc (y :: m)).
    { unfold cyc. destruct (last (y :: m)) eqn:E; [|by apply last_None in E]. apply elem_of_app. by left. }
    apply (cyc_elem _ _ _ Hc'). }
  split; [|cbn; intros [= ->]; done].
  cbn [path] in H. rewrite last_cons. destruct (last (y :: m)) as [z|] eqn:E; [|by apply last_None in E].
  apply elem_of_cons in H as [Eq|H].
  - injection Eq as -> ->. intros [= ->]. apply last_Some_elem_of in E. done.
  - destruct (IH Hm H). done.
Qed.

Lemma path_in_cyc {A} (l : list A) a b : (a, b) ∈ path l -> (a, b) ∈ cyc l.
Proof.
  intros H. unfold cyc. destruct l as [|x l]; [done|].
  destruct (last (x :: l)) eqn:E; [|by apply last_None in E]. apply elem_of_app. by left.
Qed.

Lemma last_of {A} (a : A) l : exists z, last (a :: l) = Some z /\ z ∈ a :: l /\ (z, a) ∈ cyc (a :: l).
Proof.
  destruct (last (a :: l)) as [z|] eqn:E; [|by apply last_None in E]. exists z.
  split; [done|]. split; [by apply last_Some_elem_of|]. unfold cyc. rewrite E. apply elem_of_app. right. set_solver.
Qed.

(** The map after linking a new flow before the head: its links. *)
Lemma link_lookup (m : gmap FlowID packetFlow) id h z ps x :
  id <> h -> id <> z -> is_Some (m !! h) -> is_Some (m !! z) ->
  let m' := set_packets id ps (set_previous h id (set_next z id (<[id := mkFlow id [] h z]> m))) in
  (fnext <$> m' !! x) = (if decide (x = z) then Some id else if decide (x = id) then Some h else fnext <$> m !! x) /\
  (fprevious <$> m' !! x) = (if decide (x = h) then Some id else if decide (x = id) then Some z else fprevious <$> m !! x) /\
  (packets <$> m' !! x) = (if decide (x = id) then Some ps else packets <$> m !! x) /\
  (fid <$> m' !! x) = (if decide (x = id) then Some id else fid <$> m !! x).
Proof.
  intros Hh Hz [fh Eh] [fz Ez]. cbv zeta. unfold set_packets, set_previous, set_next.
  destruct (decide (x = id)) as [->|Hi].
  - rewrite lookup_alter_eq, !lookup_alter_ne, lookup_insert_eq by done. cbn.
    rewrite !decide_False by done. done.
  - rewrite lookup_alter_ne by done. destruct (decide (x = h)) as [E1|H1], (decide (x = z)) as [E2|H2]; subst.
    + rewrite !lookup_alter_eq, lookup_insert_ne, Eh by done. done.
    + rewrite lookup_alter_eq, lookup_alter_ne, lookup_insert_ne, Eh by done. done.
    + rewrite lookup_alter_ne, lookup_alter_eq, lookup_insert_ne, Ez by done. done.
    + by rewrite !lookup_alter_ne, lookup_insert_ne by done.
Qed.

Lemma total_app r1 r2 : total (r1 ++ r2) = total r1 + total r2.
Proof. induction r1 as [|x r1 IH]; [done|]. unfold total in *. cbn [app fold_right]. lia. Qed.

Lemma ids_app r1 r2 : ids (r1 ++ r2) = ids r1 ++ ids r2.
Proof. apply map_app. Qed.

Lemma push_new_first p q :
  Rep q [] -> exists q', push p q = Some (q', false) /\ Rep q' [(flow p, [p])].
Proof.
  intros R. assert (E0 : flows q !! flow p = None).
  { apply eq_None_not_Some. intros H. apply (rp_dom _ _ R) in H. by apply elem_of_nil in H. }
  pose proof (rp_head _ _ R) as Hh. cbn in Hh.
  eexists. split.
  { unfold push, link. rewrite E0, Hh. cbn [flows update qhead]. rewrite lookup_insert_eq. reflexivity. }
  split; cbn [flows qhead qcount update].
  - apply NoDup_singleton.
  - intros id ps H. apply list_elem_of_singleton in H. by injection H as -> ->.
  - done.
  - intros a. rewrite set_packets_dom. cbn. rewrite list_elem_of_singleton, lookup_insert_is_Some.
    split; [|intros ->; by left]. intros [->|[_ H]]; [done|]. apply (rp_dom _ _ R) in H. by apply elem_of_nil in H.
  - intros id ps H. apply list_elem_of_singleton in H. injection H as -> ->.
    unfold set_packets. rewrite lookup_alter_eq, lookup_insert_eq. eexists. by split_and!.
  - intros a b H. cbn in H. apply list_elem_of_singleton in H. injection H as -> ->.
    rewrite set_packets_next, set_packets_previous, lookup_insert_eq. done.
  - rewrite (rp_count _ _ R). done.
Qed.

Lemma push_new_next p q h hs r :
  Rep q ((h, hs) :: r) -> flow p ∉ ids ((h, hs) :: r) ->
  exists q', push p q = Some (q', false) /\ Rep q' (((h, hs) :: r) ++ [(flow p, [p])]).
Proof.
  intros R Hni. set (l := ids r). change (ids ((h, hs) :: r)) with (h :: l) in *.
  set (id := flow p) in *.
  destruct (last_of h l) as (z & Hz & Hzin & Hzc).
  destruct (rp_links _ _ R z h Hzc) as [Lz Lh].
  assert (Hdom : forall a, a ∈ h :: l -> is_Some (flows q !! a)) by (intros a Ha; by apply (rp_dom _ _ R)).
  assert (Hih : id <> h) by set_solver. assert (Hiz : id <> z) by set_solver.
  destruct (Hdom h ltac:(set_solver)) as [fh Eh]. rewrite Eh in Lh. injection Lh as Lh.
  assert (E0 : flows q !! id = None).
  { apply eq_None_not_Some. intros H. by apply (rp_dom _ _ R) in H. }
  pose proof (link_lookup (flows q) id h z [p]) as K.
  set (m := set_previous h id (set_next z id (<[id := mkFlow id [] h z]> (flows q)))) in *.
  assert (Hpush : push p q = Some (q <| flows := set_packets id [p] m |> <| qcount := qcount q + 1 |>, false)).
  { unfold push, link. fold id. rewrite E0, (rp_head _ _ R). cbn [ids map fst head]. rewrite Eh, Lh.
    rewrite lookup_insert_ne by done. destruct (Hdom z Hzin) as [fz ->]. cbn [flows update]. fold m.
    assert (Em : exists f, m !! id = Some f /\ packets f = []).
    { unfold m, set_previous, set_next. rewrite !lookup_alter_ne, lookup_insert_eq by done. eexists. by split. }
    destruct Em as (f & -> & ->). done. }
  eexists. split; [exact Hpush|]. specialize (fun x => K x Hih Hiz (Hdom h ltac:(set_solver)) (Hdom z Hzin)) as K'.
  split; cbn [flows qhead qcount update].
  - rewrite ids_app. apply NoDup_app. split_and!; [apply (rp_nodup _ _ R)| |apply NoDup_singleton].
    intros x Hx. cbn. rewrite list_elem_of_singleton. intros ->. done.
  - intros x ps Hx. apply elem_of_app in Hx as [Hx|Hx]; [by apply (rp_nonempty _ _ R x)|].
    apply list_elem_of_singleton in Hx. by injection Hx as -> ->.
  - apply (rp_head _ _ R).
  - intros a. rewrite ids_app, elem_of_app. cbn [ids map fst]. rewrite list_elem_of_singleton.
    destruct (K' a) as (_ & _ & Kp & _). destruct (decide (a = id)) as [->|Ha].
    + split; [by right|]. intros _. destruct (set_packets id [p] m !! id); [done|by cbn in Kp].
    + rewrite (fmap_is_Some _ _ _ Kp), (rp_dom _ _ R). cbn [ids map fst]. fold l. tauto.
  - intros x ps Hx. destruct (K' x) as (_ & _ & Kp & Kf). apply elem_of_app in Hx as [Hx|Hx].
    + destruct (rp_node _ _ R x ps Hx) as (f & Ef & <- & Ei).
      assert (Hxi : x <> id) by (intros ->; apply Hni, (ids_elem ((h, hs) :: r)); eauto).
      rewrite decide_False in Kp by exact Hxi. rewrite decide_False in Kf by exact Hxi. rewrite Ef in Kp, Kf.
      apply node_of_fields; [exact Kp|by rewrite Kf; cbn; rewrite Ei].
    + apply list_elem_of_singleton in Hx. injection Hx as -> ->. fold id in Kp, Kf |- *.
      rewrite decide_True in Kp by reflexivity. rewrite decide_True in Kf by reflexivity. by apply node_of_fields.
  - intros a b Hc0. rewrite ids_app in Hc0.
    assert (Hc : (a, b) ∈ cyc ((h :: l) ++ [id])) by exact Hc0. clear Hc0.
    destruct (cyc_snoc h l z id Hz) as [_ Ec]. rewrite Ec in Hc.
    destruct (K' a) as (Kn & _). destruct (K' b) as (_ & Kv & _). rewrite Kn, Kv. clear Kn Kv K'.
    apply elem_of_app in Hc as [Hc|Hc].
    + destruct (path_ends (h :: l) a b (rp_nodup _ _ R) Hc) as [Ha Hb].
      rewrite Hz in Ha. cbn in Hb. pose proof (path_in_cyc _ _ _ Hc) as Hc'. destruct (cyc_elem _ _ _ Hc') as [Hai Hbi].
      assert (N : a <> z /\ a <> id /\ b <> h /\ b <> id).
      { split_and!; [congruence|intros ->; contradiction|congruence|intros ->; contradiction]. }
      destruct N as (N1 & N2 & N3 & N4). rewrite !decide_False by assumption. by apply (rp_links _ _ R).
    + apply elem_of_cons in Hc as [E|Hc]; [injection E as -> ->|apply list_elem_of_singleton in Hc; injection Hc as -> ->].
      * rewrite decide_True by reflexivity. rewrite decide_False by exact Hih.
        by rewrite decide_True by reflexivity.
      * rewrite decide_False by exact Hiz. by rewrite !decide_True by reflexivity.
  - rewrite total_app, (rp_count _ _ R). cbn. lia.
Qed.

Lemma push_rep p q r :
  Rep q r -> exists q', push p q = Some (q', snd (t_put p r)) /\ Rep q' (fst (t_put p r)).
Proof.
  intros R. destruct (decide (flow p ∈ ids r)) as [Hin|Hni]; [by apply push_old|].
  rewrite t_put_new by done. cbn [fst snd]. destruct r as [|[h hs] r].
  - apply push_new_first, R.
  - by apply push_new_next.
Qed.

(** ** Refinement of [pop] *)

(** The head keeps datagrams: its turn passes to the next flow. *)
Lemma pop_rotate q h x y ps r :
  Rep q ((h, x :: y :: ps) :: r) ->
  exists q', pop q = Some q' /\ Rep q' (r ++ [(h, y :: ps)]).
Proof.
  intros R. set (l := ids r).
  assert (Hperm : Permutation (ids (r ++ [(h, y :: ps)])) (ids ((h, x :: y :: ps) :: r))).
  { rewrite ids_app. cbn [ids map fst]. solve_Permutation. }
  assert (Hcyc : Permutation (cyc (ids (r ++ [(h, y :: ps)]))) (cyc (h :: l))).
  { rewrite ids_app. apply cyc_rotate. }
  destruct (rp_node _ _ R h (x :: y :: ps)) as (f & Ef & Ep & Ei); [set_solver|].
  assert (Hnext : head (l ++ [h]) = Some (fnext f)).
  { destruct l as [|n k] eqn:El.
    - assert (Hc : (h, h) ∈ cyc (h :: ids r)) by (fold l; rewrite El; set_solver).
      destruct (rp_links _ _ R h h Hc) as [L _]. rewrite Ef in L. by injection L as ->.
    - assert (Hc : (h, n) ∈ cyc (h :: ids r)) by (fold l; rewrite El; apply path_in_cyc; set_solver).
      destruct (rp_links _ _ R h n Hc) as [L _]. rewrite Ef in L. by injection L as ->. }
  eexists. split.
  { unfold pop. rewrite (rp_head _ _ R). cbn [ids map fst head]. rewrite Ef, Ep. cbn [fifo_pop length Nat.eqb]. reflexivity. }
  split; cbn [flows qhead qcount update].
  - rewrite Hperm. apply (rp_nodup _ _ R).
  - intros a qs Ha. apply elem_of_app in Ha as [Ha|Ha]; [apply (rp_nonempty _ _ R a); set_solver|].
    apply list_elem_of_singleton in Ha. by injection Ha as -> ->.
  - rewrite ids_app. by rewrite <- Hnext.
  - intros a. rewrite set_packets_dom, (rp_dom _ _ R). by rewrite Hperm.
  - intros a qs Ha. apply elem_of_app in Ha as [Ha|Ha].
    + assert (a <> h).
      { intros ->. pose proof (rp_nodup _ _ R) as Hn. cbn in Hn. inversion Hn as [|? ? Hx _]; subst.
        apply Hx, ids_elem. eauto. }
      unfold set_packets. rewrite lookup_alter_ne by done. apply (rp_node _ _ R). set_solver.
    + apply list_elem_of_singleton in Ha. injection Ha as -> ->.
      unfold set_packets. rewrite lookup_alter_eq, Ef. eexists. by split_and!.
  - intros a b Hc. rewrite Hcyc in Hc. rewrite set_packets_next, set_packets_previous. by apply (rp_links _ _ R).
  - rewrite total_app, (rp_count _ _ R). unfold total. cbn [fold_right snd length]. lia.
Qed.

(** The head's last datagram leaves: the flow leaves the ring. *)
Lemma pop_last_only q h x :
  Rep q [(h, [x])] -> exists q', pop q = Some q' /\ Rep q' [].
Proof.
  intros R. destruct (rp_node _ _ R h [x]) as (f & Ef & Ep & Ei); [set_solver|].
  destruct (rp_links _ _ R h h) as [L _]; [set_solver|]. rewrite Ef in L. injection L as L.
  eexists. split.
  { unfold pop. rewrite (rp_head _ _ R). cbn [ids map fst head]. rewrite Ef, Ep. cbn [fifo_pop length Nat.eqb].
    rewrite L, bool_decide_true by reflexivity. reflexivity. }
  split; cbn [flows qhead qcount update].
  - constructor.
  - intros a ps Ha. by apply elem_of_nil in Ha.
  - done.
  - intros a. split; [|intros Ha; by apply elem_of_nil in Ha]. rewrite Ei, lookup_delete_is_Some, set_packets_dom.
    intros [Hne Ha]. apply (rp_dom _ _ R) in Ha. cbn in Ha. set_solver.
  - intros a ps Ha. by apply elem_of_nil in Ha.
  - intros a b Ha. by apply elem_of_nil in Ha.
  - rewrite (rp_count _ _ R). done.
Qed.

(** The map after unlinking the head: its links. *)
Lemma unlink_lookup (m : gmap FlowID packetFlow) h n z ps x :
  h <> n -> h <> z -> is_Some (m !! n) -> is_Some (m !! z) ->
  let m' := set_previous n z (set_next z n (delete h (set_packets h ps m))) in
  (fnext <$> m' !! x) = (if decide (x = z) then Some n else if decide (x = h) then None else fnext <$> m !! x) /\
  (fprevious <$> m' !! x) = (if decide (x = n) then Some z else if decide (x = h) then None else fprevious <$> m !! x) /\
  (packets <$> m' !! x) = (if decide (x = h) then None else packets <$> m !! x) /\
  (fid <$> m' !! x) = (if decide (x = h) then None else fid <$> m !! x).
Proof.
  intros Hn Hz [fn En] [fz Ez]. cbv zeta. unfold set_packets, set_previous, set_next.
  destruct (decide (x = h)) as [->|Hi].
  - rewrite !lookup_alter_ne, lookup_delete_eq by done. cbn. rewrite !decide_False by done. done.
  - assert (Ed : delete h (alter (fun f => f <| packets := ps |>) h m) !! x = m !! x)
      by (rewrite lookup_delete_ne, lookup_alter_ne by done; done).
    destruct (decide (x = n)) as [E1|H1], (decide (x = z)) as [E2|H2]; subst.
    + rewrite !lookup_alter_eq, Ed, En. done.
    + rewrite lookup_alter_eq, lookup_alter_ne, Ed, En by done. done.
    + rewrite lookup_alter_ne, lookup_alter_eq, Ed, Ez by done. done.
    + by rewrite !lookup_alter_ne, Ed by done.
Qed.

Lemma pop_last_unlink q h x n ns r :
  Rep q ((h, [x]) :: (n, ns) :: r) -> exists q', pop q = Some q' /\ Rep q' ((n, ns) :: r).
Proof.
  intros R. set (k := ids r). pose proof (rp_nodup _ _ R) as Hnd. cbn [ids map fst] in Hnd. fold k in Hnd.
  change (map fst r) with k in Hnd. inversion Hnd as [|? ? Hh Hnk]; subst.
  destruct (last_of n k) as (z & Hz & Hzin & Hzc).
  assert (Hlast : last (h :: n :: k) = Some z) by (rewrite last_cons, Hz; done).
  destruct (rp_node _ _ R h [x]) as (f & Ef & Ep & Ei); [set_solver|].
  destruct (rp_links _ _ R h n) as [L1 _]; [apply path_in_cyc; cbn; fold k; set_solver|].
  rewrite Ef in L1. injection L1 as L1.
  destruct (rp_links _ _ R z h) as [_ L2].
  { change (ids ((h, [x]) :: (n, ns) :: r)) with (h :: n :: k). unfold cyc. rewrite Hlast. apply elem_of_app. right. set_solver. }
  rewrite Ef in L2. injection L2 as L2.
  assert (Hdom : forall a, a ∈ n :: k -> is_Some (flows q !! a)) by (intros a Ha; apply (rp_dom _ _ R); cbn; set_solver).
  assert (Hhn : h <> n) by set_solver. assert (Hhz : h <> z) by (intros ->; done).
  pose proof (fun y => unlink_lookup (flows q) h n z [] y Hhn Hhz (Hdom n ltac:(set_solver)) (Hdom z Hzin)) as K.
  set (m := set_previous n z (set_next z n (delete h (set_packets h [] (flows q))))) in *.
  assert (Hpop : pop q = Some (mkFair m (Some n) (qcount q - 1))).
  { unfold pop. rewrite (rp_head _ _ R). cbn [ids map fst head]. rewrite Ef, Ep. cbn [fifo_pop length Nat.eqb].
    rewrite L1, L2, Ei. rewrite bool_decide_false by congruence.
    cbn [flows update]. rewrite !lookup_delete_ne by done. unfold set_packets at 1 2. rewrite !lookup_alter_ne by done.
    destruct (Hdom z Hzin) as [fz ->], (Hdom n ltac:(set_solver)) as [fn ->]. reflexivity. }
  eexists. split; [exact Hpop|]. clear Hpop.
  assert (Hother : forall a qs, (a, qs) ∈ (n, ns) :: r -> a <> h).
  { intros a qs Ha ->. apply Hh. apply (ids_elem ((n, ns) :: r)). eauto. }
  split; cbn [flows qhead qcount].
  - exact Hnk.
  - intros a qs Ha. apply (rp_nonempty _ _ R a). set_solver.
  - done.
  - intros a. destruct (K a) as (_ & _ & Kp & _). destruct (decide (a = h)) as [->|Hne].
    + split; [|intros Ha; by destruct (Hh Ha)]. intros [g Eg]. rewrite Eg in Kp. done.
    + rewrite (fmap_is_Some _ _ _ Kp), (rp_dom _ _ R). cbn. set_solver.
  - intros a qs Ha. destruct (K a) as (_ & _ & Kp & Kf). pose proof (Hother a qs Ha) as Hne.
    rewrite decide_False in Kp by exact Hne. rewrite decide_False in Kf by exact Hne.
    destruct (rp_node _ _ R a qs) as (g & Eg & <- & Eig); [set_solver|]. rewrite Eg in Kp, Kf.
    apply node_of_fields; [exact Kp|by rewrite Kf; cbn; rewrite Eig].
  - intros a b Hc0. assert (Hc : (a, b) ∈ path (n :: k) ++ [(z, n)]) by (unfold cyc in Hc0; cbn [ids map fst] in Hc0; fold k in Hc0; change (map fst r) with k in Hc0; rewrite Hz in Hc0; exact Hc0).
    destruct (K a) as (Kn & _). destruct (K b) as (_ & Kv & _). rewrite Kn, Kv. clear Kn Kv K.
    apply elem_of_app in Hc as [Hc|Hc].
    + destruct (path_ends (n :: k) a b Hnk Hc) as [Ha Hb]. rewrite Hz in Ha. cbn in Hb.
      destruct (cyc_elem _ _ _ (path_in_cyc _ _ _ Hc)) as [Hai Hbi].
      assert (N : a <> z /\ a <> h /\ b <> n /\ b <> h)
        by (split_and!; [congruence|intros ->; contradiction|congruence|intros ->; contradiction]).
      destruct N as (N1 & N2 & N3 & N4). rewrite !decide_False by assumption. apply (rp_links _ _ R).
      apply path_in_cyc. cbn [ids map fst path]. apply elem_of_cons. right. exact Hc.
    + apply list_elem_of_singleton in Hc. injection Hc as -> ->. by rewrite !decide_True by reflexivity.
  - rewrite (rp_count _ _ R). unfold total. cbn [fold_right snd length]. lia.
Qed.

Lemma pop_rep q r : Rep q r -> r <> [] -> exists q', pop q = Some q' /\ Rep q' (t_pop r).
Proof.
  intros R Hne. destruct r as [|[h [|x [|y ps]]] r]; [done| | |].
  - by destruct (rp_nonempty _ _ R h []); [set_solver|].
  - cbn [t_pop]. destruct r as [|[n ns] r]; [by eapply pop_last_only|by eapply pop_last_unlink].
  - by eapply pop_rotate.
Qed.

(** ** Runs *)
Inductive qop := QPush (p : packet) | QPop.

(** A pop is made only when [peek] shows a datagram, which it takes. *)
Definition qexec (o : qop) (q : fairPacketQueue) : option (fairPacketQueue * list packet) :=
  match o with
  | QPush p => match push p q with Some (q, _) => Some (q, []) | None => None end
  | QPop => match peek q with
            | None => Some (q, [])
            | Some p => match pop q with Some q => Some (q, [p]) | None => None end
            end
  end.
Fixpoint qrun (ops : list qop) (q : fairPacketQueue) : option (fairPacketQueue * list packet) :=
  match ops with
  | [] => Some (q, [])
  | o :: ops =>
    match qexec o q with
    | None => None
    | Some (q, o1) => match qrun ops q with None => None | Some (q, o2) => Some (q, o1 ++ o2) end
    end
  end.

Definition texec (o : qop) (r : turns) : turns * list packet :=
  match o with
  | QPush p => (fst (t_put p r), [])
  | QPop => match t_peek r with None => (r, []) | Some p => (t_pop r, [p]) end
  end.
Fixpoint trun (ops : list qop) (r : turns) : turns * list packet :=
  match ops with
  | [] => (r, [])
  | o :: ops => let '(r, o1) := texec o r in let '(r, o2) := trun ops r in (r, o1 ++ o2)
  end.

Lemma t_peek_some q r : Rep q r -> r <> [] -> exists p, t_peek r = Some p.
Proof.
  intros R Hne. destruct r as [|[h [|x ps]] r]; [done| |cbn; eauto].
  by destruct (rp_nonempty _ _ R h []); [set_solver|].
Qed.

Lemma qexec_rep o q r :
  Rep q r -> exists q', qexec o q = Some (q', snd (texec o r)) /\ Rep q' (fst (texec o r)).
Proof.
  intros R. destruct o as [p|]; cbn [qexec texec].
  - destruct (push_rep p q r R) as (q' & -> & R'). eauto.
  - rewrite (peek_rep q r R). destruct r as [|e r']; [cbn; eauto|].
    destruct (t_peek_some q _ R) as [p Ep]; [done|]. rewrite Ep.
    destruct (pop_rep q _ R) as (q' & -> & R'); [done|]. cbn. eauto.
Qed.

Lemma qrun_rep ops q r :
  Rep q r -> exists q', qrun ops q = Some (q', snd (trun ops r)) /\ Rep q' (fst (trun ops r)).
Proof.
  revert q r. induction ops as [|o ops IH]; intros q r R; cbn [qrun trun]; [eauto|].
  destruct (qexec_rep o q r R) as (q1 & -> & R1). destruct (texec o r) as [r1 o1]. cbn [fst snd] in *.
  destruct (IH q1 r1 R1) as (q2 & -> & R2). destruct (trun ops r1) as [r2 o2]. cbn [fst snd] in *. eauto.
Qed.

(** ** Turns *)
Definition pops (ops : list qop) : nat := length (List.filter (fun o => match o with QPop => true | _ => false end) ops).

Lemma put_packets_head p x ps : exists ps', put_packets p (x :: ps) = x :: ps'.
Proof.
  unfold put_packets. destruct (coalesces p (x :: ps)) eqn:E; [|by exists (ps ++ [p])].
  unfold coalesces in E. destruct ps as [|y ps]; [done|].
  exists (<[length ps := p]> (y :: ps)). cbn [length]. by rewrite Nat.sub_succ, Nat.sub_0_r.
Qed.

Lemma t_put_turn p pre f x xs post :
  exists pre' xs' post', fst (t_put p (pre ++ (f, x :: xs) :: post)) = pre' ++ (f, x :: xs') :: post' /\
    length pre' = length pre.
Proof.
  induction pre as [|[id ps] pre IH]; cbn [app t_put].
  - destruct (bool_decide (f = flow p)).
    + destruct (put_packets_head p x xs) as (ps' & E). unfold put_packets in E.
      destruct (coalesces p (x :: xs)); cbn [fst]; [rewrite E|];
        eexists [], _, post; split; reflexivity.
    + destruct (t_put p post) as [r b]. eexists [], xs, r. split; reflexivity.
  - destruct (bool_decide (id = flow p)).
    + destruct (coalesces p ps); cbn [fst]; eexists ((id, _) :: pre), xs, post; split; reflexivity.
    + destruct IH as (pre' & xs' & post' & E & El). destruct (t_put p (pre ++ (f, x :: xs) :: post)) as [r b].
      cbn [fst] in *. subst r. exists ((id, ps) :: pre'), xs', post'. cbn. by rewrite El.
Qed.

(** [k] flows are ahead of the one whose head datagram is [x]. *)
Definition ahead (k : nat) (x : packet) (r : turns) : Prop :=
  exists pre f xs post, r = pre ++ (f, x :: xs) :: post /\ length pre = k.

Lemma texec_ahead o q r k x :
  Rep q r -> ahead k x r ->
  match o with
  | QPush _ => ahead k x (fst (texec o r))
  | QPop => match k with O => True | S k' => ahead k' x (fst (texec o r)) end
  end.
Proof.
  intros R (pre & f & xs & post & -> & Hk). destruct o as [p|]; cbn [texec].
  - destruct (t_put_turn p pre f x xs post) as (pre' & xs' & post' & E & El). cbn [fst].
    rewrite E. exists pre', f, xs', post'. split; [done|lia].
  - destruct k as [|k]; [done|]. destruct pre as [|[id ps] pre]; [done|].
    pose proof (rp_nonempty _ _ R id ps ltac:(set_solver)) as Hne. destruct ps as [|a ps]; [done|].
    cbn [t_peek app lookup list_lookup fst t_pop]. cbn in Hk.
    destruct ps as [|b ps].
    + exists pre, f, xs, post. split; [done|lia].
    + exists pre, f, xs, (post ++ [(id, b :: ps)]). rewrite <- app_assoc. split; [done|lia].
Qed.

Lemma trun_ahead ops q r x :
  Rep q r -> ahead (pops ops) x r -> t_peek (fst (trun ops r)) = Some x.
Proof.
  revert q r. induction ops as [|o ops IH]; intros q r R A; cbn [trun].
  - destruct A as (pre & f & xs & post & -> & Hk). cbn in Hk. destruct pre; [|done]. done.
  - destruct (qexec_rep o q r R) as (q1 & _ & R1). pose proof (texec_ahead o q r _ x R A) as T.
    destruct (texec o r) as [r1 o1]. cbn [fst snd] in *.
    destruct (trun ops r1) as [r2 o2] eqn:E. specialize (IH q1 r1 R1). rewrite E in IH. apply IH.
    destruct o; exact T.
Qed.

(** The flow [k] links after the head. *)
Fixpoint follow (k : nat) (a : FlowID) (q : fairPacketQueue) : option FlowID :=
  match k with
  | O => Some a
  | S k => match flows q !! a with Some f => follow k (fnext f) q | None => None end
  end.

Lemma path_lookup {A} (l : list A) i a b : l !! i = Some a -> l !! S i = Some b -> (a, b) ∈ path l.
Proof.
  revert i. induction l as [|x m IH]; intros i Ha Hb; [done|]. destruct m as [|y m]; [by destruct i|].
  cbn [path]. destruct i as [|i]; [injection Ha as ->; injection Hb as ->; set_solver|].
  apply elem_of_cons. right. by apply (IH i).
Qed.

Lemma follow_spec q r k i a :
  Rep q r -> ids r !! i = Some a -> (i + k < length (ids r))%nat -> follow k a q = ids r !! (i + k)%nat.
Proof.
  intros R. revert i a. induction k as [|k IH]; intros i a Ha Hk; cbn [follow]; [by rewrite Nat.add_0_r|].
  destruct (lookup_lt_is_Some_2 (ids r) (S i)) as [b Hb]; [lia|].
  destruct (rp_links _ _ R a b) as [L _]; [by apply path_in_cyc, (path_lookup _ i)|].
  destruct (flows q !! a) as [f|]; [|done]. injection L as ->. rewrite (IH (S i) b Hb) by lia. f_equal. lia.
Qed.

Lemma follow_ahead q r h f k nd x xs :
  Rep q r -> qhead q = Some h -> follow k h q = Some f ->
  (forall j, (j < k)%nat -> follow j h q <> Some f) ->
  flows q !! f = Some nd -> packets nd = x :: xs -> ahead k x r.
Proof.
  intros R Hh Hf Hmin Ef Ep. assert (Hin : f ∈ ids r) by (apply (rp_dom _ _ R); eauto).
  rewrite (rp_head _ _ R) in Hh.
  assert (H0 : ids r !! 0%nat = Some h) by (destruct (ids r); [done|by injection Hh as ->]).
  apply list_elem_of_lookup in Hin as [i Hi]. pose proof (lookup_lt_Some _ _ _ Hi) as Hlt.
  assert (Hfi : follow i h q = Some f) by (rewrite (follow_spec q r i 0 h R H0) by lia; done).
  assert (Hki : (k <= i)%nat) by (destruct (Nat.lt_ge_cases i k) as [Hl|]; [by destruct (Hmin i Hl)|done]).
  rewrite (follow_spec q r k 0 h R H0) in Hf by lia. cbn in Hf.
  unfold ids in Hf. rewrite list_lookup_fmap in Hf. destruct (r !! k) as [[g ps]|] eqn:Er; [|done].
  injection Hf as <-. destruct (rp_node _ _ R g ps) as (nd' & En & Eps & _); [by eapply list_elem_of_lookup_2|].
  rewrite Ef in En. injection En as <-. rewrite Ep in Eps. subst ps.
  exists (take k r), g, xs, (List.skipn (S k) r).
  rewrite length_take. split; [|apply lookup_lt_Some in Er; lia].
  symmetry. exact (take_drop_middle r k _ Er).
Qed.

(** ** The guarantees *)

(** C34. The ring is a turn-taking queue.  Whatever is pushed and popped, no
    pointer is followed into the void, and the linked queue behaves as the list
    of flows in turn order: a datagram goes to the back of its flow's list (or
    replaces the last one when it coalesces), a new flow to the end of the
    order; a pop takes the front datagram of the first flow and sends that flow
    to the end, or drops it when it has no more; the count is the number of
    datagrams held. *)
Theorem bond_fair_queue_refines ops :
  exists q, qrun ops fair0 = Some (q, snd (trun ops [])) /\
    peek q = t_peek (fst (trun ops [])) /\ qcount q = total (fst (trun ops [])) /\
    NoDup (ids (fst (trun ops []))).
Proof.
  destruct (qrun_rep ops fair0 [] fair0_rep) as (q & E & R). exists q.
  split_and!; [done|by apply peek_rep|apply R|apply R].
Qed.

(** Fairness.  In any state the calls lead to, let a flow stand [k] links
    after the head (and at no fewer), with [x] the oldest datagram it holds.
    Then after exactly [k] more pops [x] is the datagram at the front, whatever
    is pushed to any flow meanwhile: a burst in one flow cannot take another
    flow's turn. *)
Theorem bond_fair_queue_turn ops q outs h f k nd x xs ops' :
  qrun ops fair0 = Some (q, outs) -> qhead q = Some h -> follow k h q = Some f ->
  (forall j, (j < k)%nat -> follow j h q <> Some f) ->
  flows q !! f = Some nd -> packets nd = x :: xs -> pops ops' = k ->
  exists q' outs', qrun ops' q = Some (q', outs') /\ peek q' = Some x.
Proof.
  intros E Hh Hf Hmin En Ep Hk. destruct (qrun_rep ops fair0 [] fair0_rep) as (q1 & E1 & R).
  rewrite E1 in E. injection E as -> _.
  destruct (qrun_rep ops' q _ R) as (q' & E' & R'). eexists _, _. split; [exact E'|].
  rewrite (peek_rep _ _ R'). apply (trun_ahead ops' q); [done|]. rewrite Hk.
  by eapply follow_ahead.
Qed.

Definition pkt (id : Z) (n : Z) : packet :=
  mkPacket (id :: replicate 39 0) TCPACK0 n 0 classSmall true [n] 0 0 0 0 0 0 0 false.

Definition ops1 : list qop := [QPush (pkt 1 1); QPush (pkt 2 2); QPush (pkt 3 3); QPush (pkt 1 4)].
Definition q1 : fairPacketQueue := match qrun ops1 fair0 with Some (q, _) => q | None => fair0 end.

Lemma bond_fair_queue_turn_witness :
  qrun ops1 fair0 = Some (q1, []) /\
  exists q' outs', qrun [QPush (pkt 1 5); QPop; QPush (pkt 4 6); QPop] q1 = Some (q', outs') /\
    peek q' = Some (pkt 3 3).
Proof.
  assert (E : qrun ops1 fair0 = Some (q1, [])) by (vm_compute; reflexivity).
  split; [exact E|].
  apply (bond_fair_queue_turn ops1 q1 [] (1 :: replicate 39 0) (3 :: replicate 39 0) 2
    (mkFlow (3 :: replicate 39 0) [pkt 3 3] (1 :: replicate 39 0) (2 :: replicate 39 0))
    (pkt 3 3) [] [QPush (pkt 1 5); QPop; QPush (pkt 4 6); QPop] E).
  - vm_compute. reflexivity.
  - vm_compute. reflexivity.
  - intros [|[|j]] Hj; [vm_compute; discriminate|vm_compute; discriminate|lia].
  - vm_compute. reflexivity.
  - reflexivity.
  - reflexivity.
Defined.

(** ** The drop schedule *)
Record call := mkCall { c_now : Time; c_sojourn : Duration; c_remaining : Z; c_rtt : Duration }.
Definition call_target (c : call) : Duration := Z.min codelMaxTarget (Z.max codelMinTarget (c_rtt c)).
Definition call_interval (c : call) : Duration := Z.max codelMinInterval (2 * (c_rtt c + call_target c)).
(** The dequeue found the delay excessive and more datagrams waiting. *)
Definition above (c : call) : Prop := call_target c <= c_sojourn c /\ c_remaining c <> 0.

Definition dequeue (c : call) (s : codel) : codel * bool :=
  codelDrop (c_now c) (c_sojourn c) (c_remaining c) (c_rtt c) s.
Fixpoint dequeues (l : list call) (s : codel) : codel * bool :=
  match l with
  | [] => (s, false)
  | c :: l => let '(s, b) := dequeue c s in match l with [] => (s, b) | _ => dequeues l s end
  end.

(** [since l t]: the delay has been excessive at every call from one that set
    the time [t]. *)
Definition since (l : list call) (t : Time) : Prop :=
  exists l1 c l2, l = l1 ++ c :: l2 /\ t = c_now c + call_interval c /\ Forall above (c :: l2).

Lemma dequeue_since l c s :
  0 < c_now c + call_interval c -> (firstAbove s = 0 \/ since l (firstAbove s)) ->
  let '(s', b) := dequeue c s in
  (firstAbove s' = 0 \/ since (l ++ [c]) (firstAbove s')) /\
  (b = true -> since (l ++ [c]) (firstAbove s') /\ firstAbove s' <= c_now c).
Proof.
  intros Hpos Hs. unfold dequeue, codelDrop.
  match goal with |- context [okToDrop _ _ _ ?x] => set (s1 := x) end.
  assert (E : exists s2 ok, okToDrop (c_now c) (c_sojourn c) (c_remaining c) s1 = (s2, ok) /\
    (firstAbove s2 = 0 \/ since (l ++ [c]) (firstAbove s2)) /\
    (ok = true -> since (l ++ [c]) (firstAbove s2) /\ firstAbove s2 <= c_now c)).
  { unfold okToDrop. change (target s1) with (call_target c). change (interval s1) with (call_interval c).
    change (firstAbove s1) with (firstAbove s).
    destruct (Z.ltb_spec (c_sojourn c) (call_target c)); cbn [orb]; [eexists _, _; split; [done|]; split; [by left|done]|].
    destruct (Z.eqb_spec (c_remaining c) 0); [eexists _, _; split; [done|]; split; [by left|done]|].
    assert (Ha : above c) by (split; done).
    unfold is_zero_time. destruct (Z.eqb_spec (firstAbove s) 0) as [E0|E0].
    - eexists _, _. split; [done|]. split; [|done]. right. cbn [firstAbove update].
      exists l, c, []. split_and!; [done|done|]. by repeat constructor.
    - destruct Hs as [|(l1 & c1 & l2 & -> & Et & F)]; [done|].
      assert (S' : since ((l1 ++ c1 :: l2) ++ [c]) (firstAbove s)).
      { exists l1, c1, (l2 ++ [c]). split_and!; [by rewrite <- app_assoc|done|].
        change (c1 :: l2 ++ [c]) with ((c1 :: l2) ++ [c]). apply Forall_app_2; [done|by repeat constructor]. }
      eexists _, _. split; [done|]. split; [by right|].
      intros Hn. split; [done|]. apply negb_true_iff, Z.ltb_ge in Hn. exact Hn. }
  destruct E as (s2 & ok & -> & H1 & H2). clear Hs.
  destruct (dropping s2).
  - destruct ok; cbn [negb]; [|by split]. destruct (c_now c <? dropNext s2); [by split|]. split; [done|auto].
  - destruct ok; cbn [negb]; [|by split].
    destruct ((1 <? _) && _); (split; [exact H1|auto]).
Qed.

(** The drop schedule.  In any run of dequeues from a fresh schedule at
    positive times, a datagram is dropped only if, from some earlier dequeue at
    least one control interval ago up to this one, every dequeue found the
    sojourn at or above the target with more datagrams waiting. *)
Theorem bond_codel_waits_interval l c :
  Forall (fun c => 0 < c_now c + call_interval c) (l ++ [c]) ->
  snd (dequeues (l ++ [c]) codel0) = true ->
  exists l1 c1 l2, l ++ [c] = l1 ++ c1 :: l2 /\ Forall above (c1 :: l2) /\
    call_interval c1 <= c_now c - c_now c1.
Proof.
  assert (G : forall l s l0, Forall (fun c => 0 < c_now c + call_interval c) (l ++ [c]) ->
    (firstAbove s = 0 \/ since l0 (firstAbove s)) -> snd (dequeues (l ++ [c]) s) = true ->
    exists t, since (l0 ++ l ++ [c]) t /\ t <= c_now c).
  { clear l. intros l. induction l as [|a l IH]; intros s l0 F Hs Hd.
    - cbn [app dequeues] in Hd. inversion F as [|? ? Hp _]; subst.
      pose proof (dequeue_since l0 c s Hp Hs) as D. destruct (dequeue c s) as [s' b]. cbn in Hd.
      destruct D as [_ D]. destruct (D Hd). cbn [app]. eauto.
    - cbn [app dequeues] in Hd. inversion F as [|? ? Hp F']; subst.
      pose proof (dequeue_since l0 a s Hp Hs) as D. destruct (dequeue a s) as [s' b]. destruct D as [D _].
      destruct (IH s' (l0 ++ [a]) F' D) as (t & St & Ht).
      { destruct (l ++ [c]) eqn:E; [by destruct l|]. exact Hd. }
      exists t. split; [|done]. by rewrite <- app_assoc in St. }
  intros F Hd. destruct (G l codel0 [] F (or_introl eq_refl) Hd) as (t & (l1 & c1 & l2 & E & Et & Fa) & Ht).
  exists l1, c1, l2. split_and!; [exact E|done|lia].
Qed.

Lemma bond_codel_waits_interval_witness :
  let slow t := mkCall (t * millisecond) (200 * millisecond) 5 (20 * millisecond) in
  snd (dequeues ([slow 10; slow 60] ++ [slow 200]) codel0) = true /\
  exists l1 c1 l2, [slow 10; slow 60] ++ [slow 200] = l1 ++ c1 :: l2 /\ Forall above (c1 :: l2) /\
    call_interval c1 <= c_now (slow 200) - c_now c1.
Proof.
  intros slow. assert (E : snd (dequeues ([slow 10; slow 60] ++ [slow 200]) codel0) = true) by (vm_compute; reflexivity).
  split; [exact E|]. apply (bond_codel_waits_interval [slow 10; slow 60] (slow 200)); [|exact E].
  repeat constructor; vm_compute; reflexivity.
Defined.

End queue_props.
