(* ===== verification/Telemetry.v ===== *)
(** * Per-path telemetry ([internal/telemetry]: probe.go's anti-replay,
    control.go, liveness.go, estimator.go)

    The sequence high-water filter, the control-frame guard built on it, the
    up/down state machine and the RTT and loss estimators.  Clock readings are
    arguments; log records are not modelled. *)

From stdpp Require Import base tactics list numbers gmap.
From S2P Require Import Prelude Float64 Frame.

Module telemetry.
Import float64.

(** ** Anti-replay *)
Record AntiReplay := mkAntiReplay { ahigh : Z; ahave : bool }.
Definition AntiReplay0 : AntiReplay := mkAntiReplay 0 false.

Definition Accept (seq : Z) (a : AntiReplay) : AntiReplay * bool :=
  if ahave a && (seq <=? ahigh a) then (a, false) else (mkAntiReplay seq true, true).

Definition HighWater (a : AntiReplay) : Z * bool := (ahigh a, ahave a).

(** ** Control frames *)
Record ControlGuard := mkControlGuard { secure : gset Z; guards : gmap Z AntiReplay }.

Definition NewControlGuard (securityRelevant : list Z) : ControlGuard :=
  mkControlGuard (list_to_set securityRelevant) ∅.

(** [true] is admission, [false] [ErrControlReplay]. *)
Definition Admit (c : frame.Control) (g : ControlGuard) : ControlGuard * bool :=
  if bool_decide (frame.ControlType c ∉ secure g) then (g, true)
  else
    let ar := default AntiReplay0 (guards g !! frame.ControlType c) in
    let '(ar, ok) := Accept (frame.Seq c) ar in
    (mkControlGuard (secure g) (<[frame.ControlType c := ar]> (guards g)), ok).

(** ** Liveness *)
Inductive PathState := StateDown | StateUp.
#[export] Instance PathState_eq_dec : EqDecision PathState.
Proof. solve_decision. Defined.

Record LivenessConfig := mkLivenessConfig {
  DownAfter : Duration;
  UpAfterSuccesses : Z;
  RideThrough : Duration
}.

Definition DefaultProbeInterval : Duration := 200 * millisecond.
Definition DefaultDownAfter : Duration := 1200 * millisecond.
Definition DefaultUpSuccesses : Z := 3.
Definition DefaultLossWindow : Z := 0.
Definition RecoveryBudget : Duration := 3 * second.

Definition FailoverBudget (downAfter rideThrough probeInterval : Duration) : Duration :=
  i64 (downAfter + rideThrough + 2 * probeInterval).

Record Liveness := mkLiveness {
  cfg : LivenessConfig;
  state : PathState;
  lastGood : Time;
  haveGood : bool;
  goodStreak : Z
}.
#[export] Instance eta_Liveness : Eta Liveness := fun l =>
  mkLiveness (cfg l) (state l) (lastGood l) (haveGood l) (goodStreak l).

Definition NewLiveness (c : LivenessConfig) : Liveness := mkLiveness c StateDown 0 false 0.

Definition transition (to : PathState) (l : Liveness) : Liveness := l <| state := to |>.

Definition RecordEcho (now : Time) (l : Liveness) : Liveness :=
  let l := if haveGood l && (DownAfter (cfg l) <? time_sub now (lastGood l))
           then l <| goodStreak := 0 |> else l in
  let l := l <| lastGood := now |> <| haveGood := true |> <| goodStreak := goodStreak l + 1 |> in
  if bool_decide (state l = StateDown) && (UpAfterSuccesses (cfg l) <=? goodStreak l)
  then transition StateUp l else l.

Definition Tick (now : Time) (l : Liveness) : Liveness :=
  if negb (haveGood l) then l
  else
    let silence := time_sub now (lastGood l) in
    let downThreshold := i64 (DownAfter (cfg l) + RideThrough (cfg l)) in
    if bool_decide (state l = StateUp) && (downThreshold <? silence)
    then transition StateDown (l <| goodStreak := 0 |>)
    else if bool_decide (state l = StateDown) && (DownAfter (cfg l) <? silence)
    then l <| goodStreak := 0 |>
    else l.

Definition State (l : Liveness) : PathState := state l.

(** ** Loss *)
Definition defaultLossWindow : Z := 512.

Record lossWindow := mkLossWindow {
  win : Z;
  recv : list bool;
  first : Z;
  highest : Z;
  have : bool
}.
#[export] Instance eta_lossWindow : Eta lossWindow := fun w =>
  mkLossWindow (win w) (recv w) (first w) (highest w) (have w).

Definition newLossWindow (w : Z) : lossWindow :=
  let w := if w <=? 0 then defaultLossWindow else w in
  mkLossWindow w (replicate (Z.to_nat w) false) 0 0 false.

Definition slot (seq : Z) (w : lossWindow) : nat := Z.to_nat (seq mod win w).

(** The loop [for k := highest + 1; k <= seq; k++] on a [uint64] counter; it is
    entered only when [seq - highest] is below [win], so [win] iterations are
    enough, and running out of them is [None]: the loop never ends, which is so
    exactly when [seq] is the last of the numbers (k <= seq is then always true). *)
Fixpoint expose (fuel : nat) (k seq : Z) (w : lossWindow) : option lossWindow :=
  if k <=? seq then
    match fuel with
    | O => None
    | S fuel => expose fuel (u64 (k + 1)) seq (w <| recv := <[slot k w := false]> (recv w) |>)
    end
  else Some w.

(** [None]: the call does not return. *)
Definition observe (seq : Z) (w : lossWindow) : option lossWindow :=
  if negb (have w) then
    let w := w <| have := true |> <| first := seq |> <| highest := seq |>
               <| recv := replicate (length (recv w)) false |> in
    Some (w <| recv := <[slot seq w := true]> (recv w) |>)
  else if highest w <? seq then
    w ← (if win w <=? u64 (seq - highest w)
         then Some (w <| recv := replicate (length (recv w)) false |>)
         else expose (Z.to_nat (win w)) (u64 (highest w + 1)) seq w);
    Some (w <| recv := <[slot seq w := true]> (recv w) |> <| highest := seq |>)
  else if u64 (highest w - seq) <? win w
  then Some (w <| recv := <[slot seq w := true]> (recv w) |>)
  else Some w.

Definition bounds (w : lossWindow) : Z * bool :=
  if negb (have w) then (0, false)
  else
    let lower := if win w <? u64 (highest w + 1) then u64 (highest w + 1 - win w) else 0 in
    let lower := if lower <? first w then first w else lower in
    (lower, true).

(** The loop [for k := lower; k <= highest; k++], of at most [win] iterations
    unless it never ends ([None]). *)
Fixpoint count_missing (fuel : nat) (k : Z) (w : lossWindow) : option Z :=
  if k <=? highest w then
    match fuel with
    | O => None
    | S fuel =>
      m ← count_missing fuel (u64 (k + 1)) w;
      Some ((if default false (recv w !! slot k w) then 0 else 1) + m)
    end
  else Some 0.

Definition missing (w : lossWindow) : option (Z * Z) :=
  let '(lower, _) := bounds w in
  let n := u64 (highest w - lower + 1) in
  m ← count_missing (Z.to_nat (win w)) lower w; Some (m, n).

Definition fraction (w : lossWindow) : option float :=
  let '(_, ok) := bounds w in
  if negb ok then Some f0
  else '(m, n) ← missing w; Some (fdiv (fofZ m) (fofZ n)).

(** ** Round trip and jitter *)
Definition rttAlpha : float := fofQ 1 8.
Definition rttBeta : float := fofQ 1 4.
Definition oneMinusAlpha : float := fofQ 7 8.
Definition oneMinusBeta : float := fofQ 3 4.

Record Estimate := mkEstimate { RTT : Duration; Jitter : Duration; Loss : float }.

Record Estimator := mkEstimator { haveRTT : bool; srtt : float; rttvar : float; loss : lossWindow }.
#[export] Instance eta_Estimator : Eta Estimator := fun e =>
  mkEstimator (haveRTT e) (srtt e) (rttvar e) (loss e).

Definition NewEstimator (lw : Z) : Estimator := mkEstimator false f0 f0 (newLossWindow lw).

Definition fopp (x : float) : float := SpecFloat.SFopp x.

Definition ObserveRTT (sample : Duration) (e : Estimator) : Estimator :=
  let s := fofZ sample in
  if negb (haveRTT e)
  then e <| srtt := s |> <| rttvar := fdiv s (fofZ 2) |> <| haveRTT := true |>
  else
    let d := fsub (srtt e) s in
    let d := if flt d f0 then fopp d else d in
    e <| rttvar := fadd (fmul oneMinusBeta (rttvar e)) (fmul rttBeta d) |>
      <| srtt := fadd (fmul oneMinusAlpha (srtt e)) (fmul rttAlpha s) |>.

(** Both of these run a loop of the loss window; what they give is for a call that
    returns, which [echoReturns] and [estimateReturns] say. *)
Definition ObserveProbeEcho (seq : Z) (e : Estimator) : Estimator :=
  e <| loss := default (loss e) (observe seq (loss e)) |>.
Definition echoReturns (seq : Z) (e : Estimator) : bool := bool_decide (is_Some (observe seq (loss e))).

Definition GetEstimate (e : Estimator) : Estimate :=
  mkEstimate (toI64 (srtt e)) (toI64 (rttvar e)) (default f0 (fraction (loss e))).
Definition estimateReturns (e : Estimator) : bool := bool_decide (is_Some (fraction (loss e))).

End telemetry.
