(* ===== verification/TelemetryProps.v ===== *)
(** * What the telemetry guarantees

    Freshness of control frames, the meaning of up and down, the failover
    budget, and the exactness of the loss window. *)

From stdpp Require Import base tactics list numbers gmap.
From S2P Require Import Prelude Float64 Frame Telemetry.

Module telemetry_props.
Import telemetry.

(** ** Control frames *)
Abbreviation Control := frame.Control (only parsing).
Abbreviation ctype := frame.ControlType (only parsing).
Abbreviation cseq := frame.Seq (only parsing).

Fixpoint admits (l : list Control) (g : ControlGuard) : ControlGuard * list bool :=
  match l with
  | [] => (g, [])
  | c :: l => let '(g, b) := Admit c g in let '(g, bs) := admits l g in (g, b :: bs)
  end.

(** The reference: a frame of a guarded type is fresh when its sequence exceeds
    that of every earlier frame of its type, admitted or not. *)
Definition fresh (types : list Z) (earlier : list Control) (c : Control) : bool :=
  bool_decide (ctype c ∉ types) ||
  forallb (fun e => negb (ctype e =? ctype c) || (cseq e <? cseq c)) earlier.
Fixpoint fresh_run (types : list Z) (earlier l : list Control) : list bool :=
  match l with
  | [] => []
  | c :: l => fresh types earlier c :: fresh_run types (earlier ++ [c]) l
  end.

(** The guard of a type, when there is one, holds the highest sequence seen of it. *)
Definition holds_highest (earlier : list Control) (t : Z) (a : AntiReplay) : Prop :=
  ahave a = true /\
  (forall e, e ∈ earlier -> ctype e = t -> cseq e <= ahigh a) /\
  (exists e, e ∈ earlier /\ ctype e = t /\ cseq e = ahigh a).

Record guarded (types : list Z) (earlier : list Control) (g : ControlGuard) : Prop := mkGuarded {
  gd_secure : forall t, t ∈ secure g <-> t ∈ types;
  gd_none : forall t, t ∈ types -> guards g !! t = None -> forall e, e ∈ earlier -> ctype e <> t;
  gd_some : forall t a, guards g !! t = Some a -> t ∈ types /\ holds_highest earlier t a
}.

Definition newer_than (earlier : list Control) (c : Control) : bool :=
  forallb (fun e => negb (ctype e =? ctype c) || (cseq e <? cseq c)) earlier.

Lemma newer_than_spec earlier c :
  newer_than earlier c = true <-> (forall e, e ∈ earlier -> ctype e = ctype c -> cseq e < cseq c).
Proof.
  unfold newer_than. rewrite forallb_forall. split; intros H e He.
  - intros Et. apply list_elem_of_In in He. specialize (H e He). rewrite Et, Z.eqb_refl in H. cbn in H. lia.
  - apply list_elem_of_In in He. destruct (Z.eqb_spec (ctype e) (ctype c)) as [Et|]; [|done].
    cbn. apply Z.ltb_lt. by apply H.
Qed.

Lemma elem_of_snoc {A} (x y : A) l : x ∈ l ++ [y] <-> x ∈ l \/ x = y.
Proof. by rewrite elem_of_app, list_elem_of_singleton. Qed.

(** One step of the high-water filter against the reference. *)
Lemma accept_highest earlier c a :
  holds_highest earlier (ctype c) a ->
  snd (Accept (cseq c) a) = newer_than earlier c /\
  holds_highest (earlier ++ [c]) (ctype c) (fst (Accept (cseq c) a)).
Proof.
  intros (Hh & Hle & (e0 & He0 & Et0 & Eh0)). unfold Accept. rewrite Hh. cbn [andb].
  destruct (Z.leb_spec (cseq c) (ahigh a)) as [Hold|Hnew]; cbn [fst snd]; (split; [symmetry|split_and!]).
  - apply not_true_iff_false. rewrite newer_than_spec. intros F. specialize (F e0 He0 Et0). lia.
  - done.
  - intros e [He| ->]%elem_of_snoc Et; [by apply Hle|done].
  - exists e0. by rewrite elem_of_snoc; eauto.
  - apply newer_than_spec. intros e He Et. specialize (Hle e He Et). lia.
  - done.
  - intros e [He| ->]%elem_of_snoc Et; cbn; [specialize (Hle e He Et)|]; lia.
  - exists c. by rewrite elem_of_snoc; eauto.
Qed.

Lemma accept_first earlier c :
  (forall e, e ∈ earlier -> ctype e <> ctype c) ->
  snd (Accept (cseq c) AntiReplay0) = newer_than earlier c /\
  holds_highest (earlier ++ [c]) (ctype c) (fst (Accept (cseq c) AntiReplay0)).
Proof.
  intros Hno. cbn. split; [symmetry|split_and!].
  - apply newer_than_spec. intros e He Et. by destruct (Hno e He).
  - done.
  - intros e [He| ->]%elem_of_snoc Et; cbn; [by destruct (Hno e He)|lia].
  - exists c. by rewrite elem_of_snoc; eauto.
Qed.

Lemma holds_highest_other earlier t a c :
  ctype c <> t -> holds_highest earlier t a -> holds_highest (earlier ++ [c]) t a.
Proof.
  intros Hne (Hh & Hle & (e0 & He0 & Et0 & Eh0)). split_and!; [done| |].
  - intros e [He| ->]%elem_of_snoc Et; [by apply Hle|congruence].
  - exists e0. by rewrite elem_of_snoc; eauto.
Qed.

Lemma guarded_insert types earlier g c a :
  guarded types earlier g -> ctype c ∈ types -> holds_highest (earlier ++ [c]) (ctype c) a ->
  guarded types (earlier ++ [c]) (mkControlGuard (secure g) (<[ctype c := a]> (guards g))).
Proof.
  intros [Hs Hn Hg] Hin Ha. split; cbn [secure guards]; [done| |].
  - intros t Ht Hnone e He. destruct (decide (t = ctype c)) as [->|Hne];
      [by rewrite lookup_insert_eq in Hnone|rewrite lookup_insert_ne in Hnone by done].
    apply elem_of_snoc in He as [He| ->]; [by apply (Hn t)|congruence].
  - intros t a' Hta. destruct (decide (t = ctype c)) as [->|Hne].
    + rewrite lookup_insert_eq in Hta. by injection Hta as <-.
    + rewrite lookup_insert_ne in Hta by done. destruct (Hg _ _ Hta) as [Hti Hh].
      split; [done|]. apply holds_highest_other; congruence.
Qed.

Lemma admit_fresh types earlier g c :
  guarded types earlier g ->
  snd (Admit c g) = fresh types earlier c /\ guarded types (earlier ++ [c]) (fst (Admit c g)).
Proof.
  intros G. pose proof G as [Hs Hn Hg]. unfold Admit, fresh. fold (newer_than earlier c).
  destruct (decide (ctype c ∈ types)) as [Hin|Hni].
  - rewrite !bool_decide_false by (rewrite ?Hs; tauto). cbn [orb].
    assert (H : snd (Accept (cseq c) (default AntiReplay0 (guards g !! ctype c))) = newer_than earlier c /\
      holds_highest (earlier ++ [c]) (ctype c)
        (fst (Accept (cseq c) (default AntiReplay0 (guards g !! ctype c))))).
    { destruct (guards g !! ctype c) as [a|] eqn:Ea; cbn [default].
      - apply accept_highest. by apply Hg.
      - apply accept_first. by apply Hn. }
    destruct (Accept _ _) as [a b]. cbn [fst snd] in *. destruct H as [-> Ha].
    split; [done|]. by apply guarded_insert.
  - rewrite !bool_decide_true by (rewrite ?Hs; tauto). cbn [orb fst snd]. split; [done|]. split; [done| |].
    + intros t Ht Hnone e [He| ->]%elem_of_snoc; [by apply (Hn t)|congruence].
    + intros t a Hta. destruct (Hg _ _ Hta) as [Hti Hh]. split; [done|].
      apply holds_highest_other; congruence.
Qed.

Lemma admits_fresh types l : forall earlier g,
  guarded types earlier g -> snd (admits l g) = fresh_run types earlier l.
Proof.
  induction l as [|c l IH]; intros earlier g G; [done|]. cbn [admits fresh_run].
  destruct (admit_fresh _ _ _ c G) as [E G']. destruct (Admit c g) as [g1 b]. cbn [fst snd] in *.
  specialize (IH _ _ G'). destruct (admits l g1) as [g2 bs]. cbn [snd] in *. by rewrite E, IH.
Qed.

Lemma guarded_init types : guarded types [] (NewControlGuard types).
Proof.
  split; cbn; [intros t; apply elem_of_list_to_set| |].
  - intros t _ _ e He. by apply elem_of_nil in He.
  - intros t a Ha. by rewrite lookup_empty in Ha.
Qed.

(** Over any stream of authenticated control frames the guard answers each
    as a reference that remembers the whole stream does: a frame of a
    security-relevant type is admitted exactly when its sequence exceeds that of
    every earlier frame of the same type, so none is ever acted on twice and no
    type's frames affect another's; every other frame is admitted. *)
Theorem control_guard_fresh (types : list Z) (l : list Control) :
  snd (admits l (NewControlGuard types)) = fresh_run types [] l.
Proof. apply admits_fresh, guarded_init. Qed.

(** ** Up and down

    The events of a path, oldest first: an authenticated echo, or the periodic
    re-evaluation, each with the clock's reading. *)
Inductive event := Echo (t : Time) | Ticked (t : Time).
Definition at_time (e : event) : Time := match e with Echo t => t | Ticked t => t end.
Definition live_step (l : Liveness) (e : event) : Liveness :=
  match e with Echo t => RecordEcho t l | Ticked t => Tick t l end.
Definition live_run (c : LivenessConfig) (h : list event) : Liveness :=
  foldl live_step (NewLiveness c) h.

(** The latest echo of a history, and how many echoes end it with no two
    successive ones more than [d] apart. *)
Definition latest_step (o : option Time) (e : event) : option Time :=
  match e with Echo t => Some t | Ticked _ => o end.
Definition latest (h : list event) : option Time := foldl latest_step None h.
Definition consecutive_step (d : Duration) (s : option Time * Z) (e : event) : option Time * Z :=
  match e with
  | Ticked _ => s
  | Echo t => (Some t, match fst s with
                       | Some u => if t - u <=? d then snd s + 1 else 1
                       | None => 1
                       end)
  end.
Definition consecutive (d : Duration) (h : list event) : Z := snd (foldl (consecutive_step d) (None, 0) h).

(** Up, as the documentation has it: some echo completed a run of
    [UpAfterSuccesses], and no later re-evaluation found a silence longer than
    [DownAfter + RideThrough]. *)
Definition healthy (c : LivenessConfig) (h : list event) : Prop :=
  exists h1 t h2, h = h1 ++ Echo t :: h2 /\
    UpAfterSuccesses c <= consecutive (DownAfter c) (h1 ++ [Echo t]) /\
    forall h3 u h4, h2 = h3 ++ Ticked u :: h4 ->
      exists e, latest (h1 ++ Echo t :: h3) = Some e /\ u - e <= DownAfter c + RideThrough c.

Definition config_ok (c : LivenessConfig) : Prop :=
  0 <= DownAfter c < 2 ^ 60 /\ 0 <= RideThrough c < 2 ^ 60.

(** The clock starts at any reading [t0], does not run backwards, and the readings
    lie within 2^62 ns (146 years) of each other, where [Time.Sub] is exact. *)
Section Clock.
Context (t0 : Time).
Fixpoint ordered (lo : Time) (h : list event) : Prop :=
  match h with
  | [] => True
  | e :: h => lo <= at_time e <= t0 + 2 ^ 62 /\ ordered (at_time e) h
  end.

Lemma ordered_app lo h1 h2 : ordered lo (h1 ++ h2) -> ordered lo h1.
Proof. revert lo. induction h1 as [|e h1 IH]; cbn; intros lo H; [done|]. intuition eauto. Qed.

Definition last_time (h : list event) : Time := foldl (fun _ e => at_time e) t0 h.

Lemma ordered_last h e : ordered t0 (h ++ [e]) -> t0 <= last_time h <= at_time e /\ at_time e <= t0 + 2 ^ 62.
Proof.
  assert (G : forall h lo, t0 <= lo -> ordered lo (h ++ [e]) ->
    t0 <= foldl (fun _ e => at_time e) lo h <= at_time e /\ at_time e <= t0 + 2 ^ 62).
  { clear h. induction h as [|x h IH]; cbn; intros lo Hlo H; [lia|]. apply IH; [lia|tauto]. }
  intros H. by apply G.
Qed.

Lemma latest_snoc h e : latest (h ++ [e]) = latest_step (latest h) e.
Proof. unfold latest. by rewrite foldl_snoc. Qed.

Lemma consecutive_latest d h : fst (foldl (consecutive_step d) (None, 0) h) = latest h.
Proof.
  induction h as [|e h IH] using rev_ind; [done|]. rewrite foldl_snoc, latest_snoc.
  destruct e; cbn; [done|by rewrite IH].
Qed.

Lemma consecutive_snoc d h e :
  consecutive d (h ++ [e]) = snd (consecutive_step d (latest h, consecutive d h) e).
Proof.
  unfold consecutive. rewrite foldl_snoc, <- (consecutive_latest d h). by destruct (foldl _ _ h).
Qed.

Lemma latest_time h e : ordered t0 h -> latest h = Some e -> t0 <= e <= last_time h.
Proof.
  induction h as [|x h IH] using rev_ind; [done|]. intros Ho. rewrite latest_snoc.
  pose proof (ordered_last _ _ Ho) as Hl. unfold last_time at 1. rewrite foldl_snoc.
  apply ordered_app in Ho. destruct x as [t|t]; cbn in *.
  - intros [= ->]. lia.
  - intros He. specialize (IH Ho He). lia.
Qed.

(** *** How [healthy] moves with each event *)
Lemma healthy_nil c : ~ healthy c [].
Proof. intros (h1 & t & h2 & E & _). by destruct h1. Qed.

Lemma healthy_echo c h t :
  healthy c (h ++ [Echo t]) <->
  healthy c h \/ UpAfterSuccesses c <= consecutive (DownAfter c) (h ++ [Echo t]).
Proof.
  split.
  - intros (h1 & t' & h2 & E & Hn & Hq). destruct h2 as [|x h2 _] using rev_ind.
    + right. rewrite E. by apply app_inj_tail in E as [-> _].
    + left. rewrite app_comm_cons, app_assoc in E. apply app_inj_tail in E as [-> <-].
      exists h1, t', h2. split_and!; [done..|]. intros h3 u h4 ->. apply (Hq h3 u (h4 ++ [Echo t])).
      by rewrite <- app_assoc.
  - intros [(h1 & t' & h2 & -> & Hn & Hq)|Hn].
    + exists h1, t', (h2 ++ [Echo t]). split_and!; [by rewrite <- app_assoc|done|].
      intros h3 u h4 E. destruct h4 as [|x h4 _] using rev_ind.
      * by apply app_inj_tail in E as [_ ?].
      * rewrite app_comm_cons, app_assoc in E. apply app_inj_tail in E as [-> _]. by eapply Hq.
    + exists h, t, []. split_and!; [done..|]. intros [|? h3] u h4 E; discriminate.
Qed.

Lemma healthy_tick c h u :
  healthy c (h ++ [Ticked u]) <->
  healthy c h /\ exists e, latest h = Some e /\ u - e <= DownAfter c + RideThrough c.
Proof.
  split.
  - intros (h1 & t & h2 & E & Hn & Hq). destruct h2 as [|x h2 _] using rev_ind.
    + by apply app_inj_tail in E as [_ ?].
    + rewrite app_comm_cons, app_assoc in E. apply app_inj_tail in E as [-> <-]. split.
      * exists h1, t, h2. split_and!; [done..|]. intros h3 v h4 ->. apply (Hq h3 v (h4 ++ [Ticked u])).
        by rewrite <- app_assoc.
      * by apply (Hq h2 u []).
  - intros [(h1 & t & h2 & -> & Hn & Hq) Hu].
    exists h1, t, (h2 ++ [Ticked u]). split_and!; [by rewrite <- app_assoc|done|].
    intros h3 v h4 E. destruct h4 as [|x h4 _] using rev_ind.
    + by apply app_inj_tail in E as [-> [= ->]].
    + rewrite app_comm_cons, app_assoc in E. apply app_inj_tail in E as [-> _]. by eapply Hq.
Qed.

(** *** The machine against the reference

    The streak the machine keeps is that of the history, except that a
    re-evaluation may already have dropped one the next echo would drop. *)
Record tracks (c : LivenessConfig) (h : list event) (l : Liveness) : Prop := mkTracks {
  tr_cfg : cfg l = c;
  tr_good : latest h = (if haveGood l then Some (lastGood l) else None);
  tr_streak : goodStreak l = consecutive (DownAfter c) h \/
    goodStreak l = 0 /\ DownAfter c < last_time h - lastGood l;
  tr_state : state l = StateUp <-> healthy c h
}.

Lemma tracks_init c : tracks c [] (NewLiveness c).
Proof. split; cbn; [done..|by left|]. split; [done|]. intros H. by apply healthy_nil in H. Qed.

Section Step.
Context (c : LivenessConfig) (h : list event) (l : Liveness).
Hypothesis (Hc : config_ok c) (T : tracks c h l).

Lemma silence_exact t : ordered t0 (h ++ [Ticked t]) \/ ordered t0 (h ++ [Echo t]) -> haveGood l = true ->
  time_sub t (lastGood l) = t - lastGood l /\ t0 <= lastGood l <= last_time h /\ last_time h <= t.
Proof.
  intros Ho Hg. destruct T as [_ Hl _ _]. rewrite Hg in Hl.
  assert (t0 <= last_time h <= t /\ t <= t0 + 2 ^ 62 /\ ordered t0 h) as (? & ? & Hh).
  { destruct Ho as [Ho|Ho]; pose proof (ordered_last _ _ Ho); apply ordered_app in Ho; cbn in *; tauto. }
  pose proof (latest_time _ _ Hh Hl). rewrite time_sub_small; lia.
Qed.

Lemma streak_echo t : ordered t0 (h ++ [Echo t]) ->
  goodStreak (RecordEcho t l) = consecutive (DownAfter c) (h ++ [Echo t]).
Proof.
  intros Ho. pose proof (silence_exact t (or_intror Ho)) as Hs. destruct T as [Ec Hl Hk _].
  rewrite consecutive_snoc, Hl. unfold RecordEcho. rewrite Ec.
  destruct (haveGood l); cbn [andb consecutive_step fst snd].
  - destruct (Hs eq_refl) as (-> & ? & ?).
    destruct (Z.ltb_spec (DownAfter c) (t - lastGood l)); cbn; case_match; cbn;
      destruct (Z.leb_spec (t - lastGood l) (DownAfter c)); lia.
  - assert (goodStreak l = 0).
    { destruct Hk as [->|[? _]]; [|done]. clear -Hl.
      induction h as [|[t|t] h' IH] using rev_ind; [done|by rewrite latest_snoc in Hl|].
      rewrite latest_snoc in Hl. rewrite consecutive_snoc. cbn. by apply IH. }
    cbn. case_match; cbn; lia.
Qed.

Lemma tracks_echo t : ordered t0 (h ++ [Echo t]) -> tracks c (h ++ [Echo t]) (RecordEcho t l).
Proof.
  intros Ho. pose proof (streak_echo t Ho) as Hk. destruct T as [Ec Hl _ Hst]. split.
  - rewrite <- Ec. unfold RecordEcho. repeat case_match; done.
  - rewrite latest_snoc. unfold RecordEcho. repeat case_match; done.
  - by left.
  - rewrite healthy_echo, <- Hst, <- Hk. unfold RecordEcho.
    set (l1 := if haveGood l && _ then _ else l).
    assert (state l1 = state l /\ cfg l1 = c) as [Es Ec1] by (subst l1; by destruct (haveGood l && _)).
    cbn [cfg state update goodStreak]. rewrite Es, Ec1.
    destruct (state l) eqn:Esl; [rewrite bool_decide_true by done|rewrite bool_decide_false by done];
      cbn; [|tauto].
    destruct (Z.leb_spec (UpAfterSuccesses c) (goodStreak l1 + 1)); cbn; [tauto|].
    split; [done|]. intros [?|?]; [done|lia].
Qed.

Lemma threshold_exact : i64 (DownAfter c + RideThrough c) = DownAfter c + RideThrough c.
Proof. destruct Hc. unfold i64. rewrite Z.mod_small; lia. Qed.

Lemma last_time_snoc e : last_time (h ++ [e]) = at_time e.
Proof. unfold last_time. by rewrite foldl_snoc. Qed.

Lemma tracks_tick_silent t : haveGood l = false ->
  ordered t0 (h ++ [Ticked t]) -> tracks c (h ++ [Ticked t]) l.
Proof.
  intros Eg Ho. destruct T as [Ec Hl Hk Hst]. rewrite Eg in Hl. split; [done|by rewrite latest_snoc, Eg| |].
  - destruct Hk as [->|[-> Hx]]; [left; by rewrite consecutive_snoc|right; split; [done|]].
    rewrite last_time_snoc. apply ordered_last in Ho. cbn in *. lia.
  - rewrite healthy_tick, <- Hst, Hl. split; [|by intros [_ (e & ? & _)]].
    intros (h1 & u & h2 & E & _)%Hst. exfalso. clear -E Hl. subst h.
    induction h2 as [|x h2 IH] using rev_ind; [by rewrite latest_snoc in Hl|].
    rewrite app_comm_cons, app_assoc, latest_snoc in Hl. destruct x; [done|]. by apply IH.
Qed.

(** The verdict after a re-evaluation of a path that has answered before. *)
Lemma tick_verdict t s : latest h = Some (lastGood l) ->
  s = (if bool_decide (state l = StateUp) && (DownAfter c + RideThrough c <? t - lastGood l)
       then StateDown else state l) ->
  s = StateUp <-> healthy c (h ++ [Ticked t]).
Proof.
  intros Hl ->. destruct T as [_ _ _ Hst]. rewrite healthy_tick, <- Hst, Hl.
  destruct (state l) eqn:E; [rewrite bool_decide_false by done|rewrite bool_decide_true by done]; cbn [andb].
  - split; [done|]. by intros [? _].
  - destruct (Z.ltb_spec (DownAfter c + RideThrough c) (t - lastGood l)).
    + split; [done|]. intros (_ & e & [= <-] & ?). lia.
    + split; [|done]. intros _. split; [done|]. eexists; split; [done|lia].
Qed.

Lemma tracks_tick t : ordered t0 (h ++ [Ticked t]) -> tracks c (h ++ [Ticked t]) (Tick t l).
Proof.
  intros Ho. pose proof (silence_exact t (or_introl Ho)) as Hs. pose proof T as [Ec Hl Hk _].
  unfold Tick. rewrite Ec, threshold_exact.
  destruct (haveGood l) eqn:Eg; cbn [negb]; [|by apply tracks_tick_silent].
  destruct (Hs eq_refl) as (-> & ? & ?). pose proof (fun s => tick_verdict t s Hl) as Hq.
  destruct Hc as [? ?]. destruct (state l) eqn:Esl.
  - rewrite bool_decide_false in Hq |- * by done. rewrite bool_decide_true by done. cbn [andb] in *.
    destruct (Z.ltb_spec (DownAfter c) (t - lastGood l)); (split; cbn;
      [done|by rewrite latest_snoc, Eg| |by apply Hq]).
    + right. rewrite last_time_snoc. cbn. lia.
    + destruct Hk as [->|[_ ?]]; [left; by rewrite consecutive_snoc|lia].
  - rewrite bool_decide_true in Hq |- * by done. rewrite bool_decide_false by done. cbn [andb] in *.
    destruct (Z.ltb_spec (DownAfter c + RideThrough c) (t - lastGood l)); (split; cbn;
      [done|by rewrite latest_snoc, Eg| |by apply Hq]).
    + right. rewrite last_time_snoc. cbn. lia.
    + destruct Hk as [->|[-> ?]]; [left; by rewrite consecutive_snoc|right; rewrite last_time_snoc; cbn; lia].
Qed.
End Step.

Lemma live_tracks c h : config_ok c -> ordered t0 h -> tracks c h (live_run c h).
Proof.
  intros Hc. induction h as [|e h IH] using rev_ind; intros Ho; [apply tracks_init|].
  unfold live_run. rewrite foldl_snoc. fold (live_run c h). specialize (IH (ordered_app _ _ _ Ho)).
  destruct e as [t|t]; cbn [live_step]; [by apply tracks_echo|by apply tracks_tick].
Qed.
End Clock.

(** C37. A path is reported up exactly when some echo completed a run of
    [UpAfterSuccesses] echoes, successive ones no more than [DownAfter] apart,
    and no later tick found more than [DownAfter + RideThrough] of silence: one
    lost echo never takes a path down, and stray echoes never bring one up.  The
    clock may start anywhere; its readings do not go back and span at most 2^62 ns
    (146 years), and both durations are below 2^60 ns. *)
Theorem liveness_up_exact (t0 : Time) (c : LivenessConfig) (h : list event) :
  config_ok c -> ordered t0 t0 h -> State (live_run c h) = StateUp <-> healthy c h.
Proof. intros Hc Ho. apply (tr_state _ _ _ _ (live_tracks t0 c h Hc Ho)). Qed.

Definition cfg0 : LivenessConfig := mkLivenessConfig DefaultDownAfter DefaultUpSuccesses 0.
(** A daemon started in 2026: seconds since year 1, in nanoseconds. *)
Definition started0 : Time := 63902822400 * second.
Definition history0 : list event :=
  [Echo (started0 + 100000000); Ticked (started0 + 200000000); Echo (started0 + 300000000); Echo (started0 + 500000000);
   Ticked (started0 + 1400000000)].

Lemma liveness_up_exact_witness :
  config_ok cfg0 /\ ordered started0 started0 history0 /\ State (live_run cfg0 history0) = StateUp /\ healthy cfg0 history0.
Proof.
  assert (Hc : config_ok cfg0) by (repeat split; vm_compute; done).
  assert (Ho : ordered started0 started0 history0) by (cbn; lia).
  split_and!; [done..|by vm_compute|]. apply (liveness_up_exact started0 cfg0 history0 Hc Ho). by vm_compute.
Defined.

(** *** The failover deadline *)
Fixpoint spaced (interval : Duration) (lo : Time) (ts : list Time) : Prop :=
  match ts with
  | [] => True
  | t :: ts => t - lo <= interval /\ spaced interval t ts
  end.

Lemma healthy_recent t0 c h e : healthy c h -> latest h = Some e ->
  last_time t0 h = e \/ last_time t0 h - e <= DownAfter c + RideThrough c.
Proof.
  destruct h as [|x h _] using rev_ind; [done|]. rewrite latest_snoc, last_time_snoc. intros H He.
  destruct x as [t|t]; cbn in *; [left; congruence|].
  right. apply healthy_tick in H as (_ & e' & He' & ?). by simplify_eq.
Qed.

Lemma latest_ticks h ts : latest (h ++ map Ticked ts) = latest h.
Proof.
  induction ts as [|t ts IH] using rev_ind; [by rewrite app_nil_r|].
  rewrite map_app, app_assoc. cbn [map]. by rewrite latest_snoc.
Qed.

Lemma ordered_ticks t0 h ts t ts' :
  ordered t0 t0 (h ++ map Ticked (ts ++ t :: ts')) -> forall u, u ∈ ts -> u <= t.
Proof.
  rewrite map_app, app_assoc. intros Ho. change (map _ (t :: ts')) with ([Ticked t] ++ map Ticked ts') in Ho.
  rewrite app_assoc in Ho. apply ordered_app in Ho.
  assert (G : forall l lo, ordered t0 lo (l ++ [Ticked t]) -> forall u, Ticked u ∈ l -> u <= t).
  { clear. assert (L : forall l lo, ordered t0 lo (l ++ [Ticked t]) -> lo <= t).
    { induction l as [|x l IH]; cbn; intros lo H; [lia|]. destruct H as [? H]. specialize (IH _ H). lia. }
    induction l as [|x l IH]; intros lo H u Hu; [by apply elem_of_nil in Hu|].
    destruct H as [_ H]. apply elem_of_cons in Hu as [<-|Hu]; [by apply (L l)|by eapply IH]. }
  intros u Hu. eapply G; [exact Ho|]. apply elem_of_app. right. apply list_elem_of_In, in_map, list_elem_of_In, Hu.
Qed.

Lemma healthy_ticks c h e ts : healthy c h -> latest h = Some e ->
  healthy c (h ++ map Ticked ts) <-> (forall u, u ∈ ts -> u - e <= DownAfter c + RideThrough c).
Proof.
  intros Hh He. induction ts as [|t ts IH] using rev_ind.
  - rewrite app_nil_r. split; [|done]. intros _ u Hu. by apply elem_of_nil in Hu.
  - rewrite map_app, app_assoc. cbn [map]. rewrite healthy_tick, IH, latest_ticks, He. split.
    + intros (Hts & e' & [= <-] & Ht) u [Hu| ->]%elem_of_snoc; [by apply Hts|done].
    + intros Hu. split; [intros u Hx; apply Hu, elem_of_snoc; by left|].
      exists e. split; [done|]. apply Hu, elem_of_snoc. by right.
Qed.

Lemma spaced_crosses interval d e lo ts :
  spaced interval lo ts -> lo - e <= d -> (exists u, u ∈ ts /\ d < u - e) ->
  exists t, t ∈ ts /\ d < t - e <= d + interval.
Proof.
  revert lo. induction ts as [|t ts IH]; intros lo Hs Hlo (u & Hu & Hd); [by apply elem_of_nil in Hu|].
  destruct Hs as [Ht Hs]. destruct (decide (d < t - e)).
  - exists t. split; [by left|lia].
  - destruct (IH t Hs ltac:(lia)) as (t' & Hin & ?); [|exists t'; split; [by right|lia]].
    apply elem_of_cons in Hu as [->|Hu]; [lia|eauto].
Qed.

(** The failover deadline: if an up path falls silent after the echo at [e]
    and ticks keep coming at most [interval] apart, every tick answers up while
    the silence is at most [DownAfter + RideThrough] and down from then on, and
    the first down verdict comes by [e + FailoverBudget - interval]. *)
Theorem liveness_failover_budget (t0 : Time) (c : LivenessConfig) (interval : Duration) (h : list event) (e : Time)
    (ts : list Time) :
  config_ok c -> 0 < interval < 2 ^ 60 -> ordered t0 t0 (h ++ map Ticked ts) ->
  State (live_run c h) = StateUp -> latest h = Some e -> spaced interval (last_time t0 h) ts ->
  (exists u, u ∈ ts /\ DownAfter c + RideThrough c < u - e) ->
  (forall ts1 t ts2, ts = ts1 ++ t :: ts2 ->
     State (live_run c (h ++ map Ticked (ts1 ++ [t]))) =
     if t - e <=? DownAfter c + RideThrough c then StateUp else StateDown) /\
  (exists t, t ∈ ts /\ DownAfter c + RideThrough c < t - e /\
     t <= e + FailoverBudget (DownAfter c) (RideThrough c) interval - interval).
Proof.
  intros Hc Hi Ho Hu He Hs Hlong. pose proof (ordered_app _ _ _ _ Ho) as Hh.
  apply (tr_state _ _ _ _ (live_tracks t0 c h Hc Hh)) in Hu. split.
  - intros ts1 t ts2 ->.
    assert (Ho' : ordered t0 t0 (h ++ map Ticked (ts1 ++ [t]))).
    { change (t :: ts2) with ([t] ++ ts2) in Ho. rewrite app_assoc, map_app, app_assoc in Ho.
      by apply ordered_app in Ho. }
    pose proof (tr_state _ _ _ _ (live_tracks t0 c _ Hc Ho')) as Hst. rewrite (healthy_ticks c h e) in Hst by done.
    pose proof (ordered_ticks _ _ _ _ _ Ho) as Hle. unfold State.
    destruct (Z.leb_spec (t - e) (DownAfter c + RideThrough c)).
    + apply Hst. intros u [Hx| ->]%elem_of_snoc; [specialize (Hle u Hx)|]; lia.
    + destruct (state _); [done|]. specialize (proj1 Hst eq_refl t ltac:(apply elem_of_snoc; by right)). lia.
  - destruct Hc. destruct (spaced_crosses interval (DownAfter c + RideThrough c) e (last_time t0 h) ts) as (t & ? & ?);
      [done| |done|].
    + destruct (healthy_recent t0 c h e Hu He); lia.
    + exists t. split_and!; [done|lia|]. unfold FailoverBudget, i64. rewrite Z.mod_small; lia.
Qed.

Definition history1 : list event := [Echo 100000000; Echo 300000000; Echo 500000000].
Definition ticks1 : list Time := [700000000; 900000000; 1100000000; 1300000000; 1500000000; 1700000000; 1900000000].

Lemma liveness_failover_budget_witness :
  State (live_run cfg0 (history1 ++ map Ticked (take 7 ticks1))) = StateDown /\
  exists t, t ∈ ticks1 /\ 1200000000 < t - 500000000 /\
    t <= 500000000 + FailoverBudget DefaultDownAfter 0 DefaultProbeInterval - DefaultProbeInterval.
Proof.
  assert (Hc : config_ok cfg0) by (repeat split; vm_compute; done).
  destruct (liveness_failover_budget 0 cfg0 DefaultProbeInterval history1 500000000 ticks1 Hc) as [H1 H2].
  - vm_compute. by split.
  - cbn; lia.
  - by vm_compute.
  - done.
  - vm_compute. repeat split; discriminate.
  - exists 1900000000. split; [set_solver|]. by vm_compute.
  - split; [|exact H2]. exact (H1 (take 6 ticks1) 1900000000 [] eq_refl).
Defined.

(** ** Loss

    [observed W l w]: over the [W] sequences up to the highest of [l], the ring
    holds exactly which occur in [l]. *)
Record observed (W s0 : Z) (l : list Z) (w : lossWindow) : Prop := mkObserved {
  ob_win : win w = W;
  ob_len : length (recv w) = Z.to_nat W;
  ob_have : have w = true;
  ob_first : first w = s0;
  ob_high : highest w ∈ l /\ (forall s, s ∈ l -> s <= highest w);
  ob_ring : forall k, 0 <= k -> highest w - W < k <= highest w ->
    recv w !! slot k w = Some (bool_decide (k ∈ l))
}.

Definition is_probe_seq (s : Z) : Prop := 0 <= s < 2 ^ 64 - 1.

(** *** The loops end below the last number, and only there *)
Fixpoint exposed (n : nat) (k : Z) (w : lossWindow) : lossWindow :=
  match n with
  | O => w
  | S n => exposed n (k + 1) (w <| recv := <[slot k w := false]> (recv w) |>)
  end.

Lemma expose_ends n fuel : forall k seq w, 0 <= k -> k + Z.of_nat n = seq + 1 -> seq < 2 ^ 64 - 1 -> (n <= fuel)%nat ->
  expose fuel k seq w = Some (exposed n k w).
Proof.
  revert fuel. induction n as [|n IH]; intros fuel k seq w Hk Hn Hs Hf; destruct fuel as [|fuel]; try lia; cbn [expose exposed].
  1-2: destruct (Z.leb_spec k seq); [lia|done].
  destruct (Z.leb_spec k seq); [|lia]. rewrite u64_small by lia. apply IH; lia.
Qed.

Lemma expose_never fuel : forall k w, is_u64 k -> expose fuel k (2 ^ 64 - 1) w = None.
Proof.
  induction fuel as [|fuel IH]; intros k w Hk; cbn [expose]; (destruct (Z.leb_spec k (2 ^ 64 - 1)); [|red in Hk; lia]); [done|].
  apply IH, u64_range.
Qed.

(** Nor does the loop of [fraction]: every estimate after an echo so numbered is
    stuck, and every next echo but one close to it. *)
Lemma count_never fuel : forall k w, is_u64 k -> highest w = 2 ^ 64 - 1 -> count_missing fuel k w = None.
Proof.
  induction fuel as [|fuel IH]; intros k w Hk Hw; cbn [count_missing]; rewrite Hw;
    (destruct (Z.leb_spec k (2 ^ 64 - 1)); [|red in Hk; lia]); [done|]. by rewrite IH by (done || apply u64_range).
Qed.

Fixpoint counted (n : nat) (k : Z) (w : lossWindow) : Z :=
  match n with
  | O => 0
  | S n => (if default false (recv w !! slot k w) then 0 else 1) + counted n (k + 1) w
  end.

Lemma count_ends n fuel : forall k w, 0 <= k -> (n = 0%nat /\ highest w < k \/ k + Z.of_nat n = highest w + 1) -> highest w < 2 ^ 64 - 1 ->
  (n <= fuel)%nat -> count_missing fuel k w = Some (counted n k w).
Proof.
  revert fuel. induction n as [|n IH]; intros fuel k w Hk Hn Hs Hf; destruct fuel as [|fuel]; try lia; cbn [count_missing counted].
  1-2: destruct (Z.leb_spec k (highest w)); [lia|done].
  destruct (Z.leb_spec k (highest w)); [|lia]. rewrite u64_small by lia. rewrite (IH fuel (k + 1) w) by lia. done.
Qed.

(** A window whose loops end: it has not seen the last number. *)
Definition calm (w : lossWindow) : Prop := 0 < win w < 2 ^ 63 /\ 0 <= highest w < 2 ^ 64 - 1 /\ 0 <= first w.

Lemma calm_new n : n < 2 ^ 63 -> calm (newLossWindow n).
Proof. intros Hn. unfold newLossWindow, calm, defaultLossWindow. cbn. case_match; lia. Qed.

Lemma exposed_keeps n : forall k w, win (exposed n k w) = win w /\ first (exposed n k w) = first w.
Proof. induction n as [|n IH]; intros k w; cbn [exposed]; [done|]. destruct (IH (k + 1) (w <| recv := <[slot k w := false]> (recv w) |>)) as [-> ->]. done. Qed.

Lemma calm_observe s w : calm w -> is_probe_seq s -> exists w', observe s w = Some w' /\ calm w'.
Proof.
  intros (Hw & Hh & Hf) Hs. red in Hs. unfold observe. destruct (have w); cbn [negb].
  2: { eexists. split; [done|]. split; cbn; lia. }
  destruct (Z.ltb_spec (highest w) s) as [Hadv|]; [|case_match; eexists; (split; [done|]; split; cbn; lia)].
  rewrite (u64_small (s - _)) by lia. destruct (Z.leb_spec (win w) (s - highest w)); [eexists; split; [done|]; split; cbn; lia|].
  rewrite u64_small by lia. rewrite (expose_ends (Z.to_nat (s - highest w))) by lia.
  destruct (exposed_keeps (Z.to_nat (s - highest w)) (highest w + 1) w) as [E1 E2].
  eexists. split; [done|]. split; cbn; [by rewrite E1|]. rewrite E2. lia.
Qed.

Lemma calm_fraction w : calm w -> is_Some (fraction w).
Proof.
  intros (Hw & Hh & Hf). unfold fraction, missing.
  assert (B : let '(lower, ok) := bounds w in 0 <= lower /\ (ok = true -> highest w + 1 - lower <= win w)).
  { unfold bounds. destruct (have w); cbn [negb]; [|done]. rewrite (u64_small (highest w + 1)) by lia.
    destruct (Z.ltb_spec (win w) (highest w + 1)); rewrite ?u64_small by lia; case_match; split; intros; lia. }
  destruct (bounds w) as [lower []]; cbn [negb]; [|done]. destruct B as [B1 B2]. specialize (B2 eq_refl).
  rewrite (count_ends (Z.to_nat (highest w + 1 - lower)) (Z.to_nat (win w)) lower w); [done|lia| |lia|lia].
  destruct (Z.le_gt_cases lower (highest w)); lia.
Qed.

Section Window.
Context (W : Z).
Hypothesis (HW : 0 < W < 2 ^ 63).

Lemma slot_inj j k : 0 <= j -> 0 <= k -> - W < j - k < W ->
  Z.to_nat (j mod W) = Z.to_nat (k mod W) -> j = k.
Proof.
  intros Hj Hk Hd E. apply (f_equal Z.of_nat) in E.
  pose proof (Z.mod_pos_bound j W ltac:(lia)). pose proof (Z.mod_pos_bound k W ltac:(lia)).
  rewrite !Z2Nat.id in E by lia.
  pose proof (Z.div_mod j W ltac:(lia)). pose proof (Z.div_mod k W ltac:(lia)).
  assert (j / W = k / W) by nia. nia.
Qed.

Lemma slot_lt k : (Z.to_nat (k mod W) < Z.to_nat W)%nat.
Proof. pose proof (Z.mod_pos_bound k W ltac:(lia)). lia. Qed.

(** A write to the slot of [s] is seen at [s] and nowhere else within a window. *)
Lemma slot_write (r : list bool) s b k :
  length r = Z.to_nat W -> 0 <= s -> 0 <= k -> - W < k - s < W ->
  <[Z.to_nat (s mod W) := b]> r !! Z.to_nat (k mod W) =
  (if k =? s then Some b else r !! Z.to_nat (k mod W)).
Proof.
  intros Hl Hs Hk Hd. destruct (Z.eqb_spec k s) as [->|Hne].
  - apply list_lookup_insert_eq. rewrite Hl. apply slot_lt.
  - apply list_lookup_insert_ne. intros E. apply Hne. symmetry. by apply slot_inj; [..|lia|].
Qed.

Lemma expose_frame n : forall k w, win w = W -> length (recv w) = Z.to_nat W ->
  win (exposed n k w) = W /\ length (recv (exposed n k w)) = Z.to_nat W /\ have (exposed n k w) = have w /\
  first (exposed n k w) = first w /\ highest (exposed n k w) = highest w.
Proof.
  induction n as [|n IH]; intros k w Ew El; cbn [exposed]; [done|].
  set (w' := w <| recv := <[slot k w := false]> (recv w) |>).
  apply (IH (k + 1) w'); [done|]. unfold w'. cbn [recv update]. by rewrite length_insert.
Qed.

Lemma expose_ring n : forall k w j, win w = W -> length (recv w) = Z.to_nat W ->
  0 <= k -> 0 <= j -> k + Z.of_nat n - 1 - W < j <= k + Z.of_nat n - 1 -> Z.of_nat n < W ->
  recv (exposed n k w) !! Z.to_nat (j mod W) =
  (if k <=? j then Some false else recv w !! Z.to_nat (j mod W)).
Proof.
  induction n as [|n IH]; intros k w j Ew El Hk Hj Hr Hn; cbn [exposed].
  - destruct (Z.leb_spec k j); [lia|done].
  - rewrite IH; cbn [recv update win]; rewrite ?length_insert; [|done|done|lia..].
    unfold slot. rewrite Ew, slot_write by (done || lia).
    destruct (Z.leb_spec (k + 1) j), (Z.leb_spec k j), (Z.eqb_spec j k); done || lia.
Qed.

Lemma lookup_cleared (r : list bool) k : length r = Z.to_nat W ->
  replicate (length r) false !! Z.to_nat (k mod W) = Some false.
Proof. intros E. apply lookup_replicate. rewrite E. split; [done|apply slot_lt]. Qed.

Lemma observed_first s w : win w = W -> length (recv w) = Z.to_nat W -> have w = false -> 0 <= s ->
  exists w', observe s w = Some w' /\ observed W s [s] w'.
Proof.
  intros Ew El Eh Hs. unfold observe. rewrite Eh. cbn [negb]. unfold slot. cbn [win recv update]. eexists. split; [done|].
  split; cbn [win recv have first highest update]; [done|by rewrite length_insert, length_replicate|done..| |].
  - split; [by left|]. intros k ->%list_elem_of_singleton. done.
  - intros k Hk Hr. unfold slot. cbn. rewrite Ew, slot_write, lookup_cleared
      by (rewrite ?length_replicate; done || lia).
    destruct (Z.eqb_spec k s) as [->|]; f_equal; symmetry.
    + apply bool_decide_true. by left.
    + apply bool_decide_false. by rewrite list_elem_of_singleton.
Qed.

(** The ring after the window advanced to [s], before [s] itself is recorded. *)
Definition advanced (s : Z) (w : lossWindow) : lossWindow :=
  if win w <=? s - highest w then w <| recv := replicate (length (recv w)) false |>
  else exposed (Z.to_nat (s - highest w)) (highest w + 1) w.

Lemma advances s w : 0 < win w -> 0 <= highest w < s -> s < 2 ^ 64 - 1 ->
  (if win w <=? u64 (s - highest w)
   then Some (w <| recv := replicate (length (recv w)) false |>)
   else expose (Z.to_nat (win w)) (u64 (highest w + 1)) s w) = Some (advanced s w).
Proof.
  intros Hw Hh Hs. unfold advanced. rewrite !u64_small by lia. destruct (Z.leb_spec (win w) (s - highest w)); [done|].
  apply expose_ends; lia.
Qed.

Lemma advanced_ring s0 l w s k : observed W s0 l w -> highest w < s < 2 ^ 64 -> 0 <= highest w ->
  let w' := advanced s w in
  win w' = W /\ length (recv w') = Z.to_nat W /\ have w' = true /\ first w' = s0 /\
  (0 <= k -> s - W < k <= s -> recv w' !! Z.to_nat (k mod W) = Some (bool_decide (k ∈ l))).
Proof.
  intros [Ew El Eh Ef [_ Hmax] Hring] Hs H0. cbv zeta. unfold advanced. rewrite Ew by lia.
  assert (Hnew : highest w < k -> bool_decide (k ∈ l) = false).
  { intros Hk. apply bool_decide_false. intros Hin. specialize (Hmax k Hin). lia. }
  destruct (Z.leb_spec W (s - highest w)) as [Hfar|Hnear].
  - split_and!; [done|by cbn; rewrite length_replicate|done..|]. intros Hk Hr. cbn.
    rewrite lookup_cleared by done. rewrite Hnew; [done|lia].
  - destruct (expose_frame (Z.to_nat (s - highest w)) (highest w + 1) w Ew El) as (? & ? & -> & -> & _).
    split_and!; [done..|]. intros Hk Hr. rewrite expose_ring by (done || lia).
    destruct (Z.leb_spec (highest w + 1) k); [by rewrite Hnew by lia|].
    specialize (Hring k Hk ltac:(lia)). unfold slot in Hring. by rewrite Ew in Hring.
Qed.

Lemma bool_decide_snoc (k s : Z) l : bool_decide (k ∈ l ++ [s]) = (k =? s) || bool_decide (k ∈ l).
Proof.
  destruct (Z.eqb_spec k s) as [->|Hne]; cbn.
  - apply bool_decide_true, elem_of_snoc. by right.
  - apply bool_decide_ext. rewrite elem_of_snoc. tauto.
Qed.

Lemma observed_step s0 l w s : observed W s0 l w -> Forall is_probe_seq l -> is_probe_seq s ->
  exists w', observe s w = Some w' /\ observed W s0 (l ++ [s]) w'.
Proof.
  intros O Hl Hs. pose proof O as [Ew El Eh Ef [Hin Hmax] Hring]. red in Hs.
  rewrite Forall_forall in Hl. pose proof (Hl _ Hin) as Hh. red in Hh.
  unfold observe. rewrite Eh. cbn [negb]. destruct (Z.ltb_spec (highest w) s) as [Hadv|Hold].
  - pose proof (fun k => advanced_ring s0 l w s k O ltac:(lia) ltac:(lia)) as A. cbv zeta in A.
    rewrite advances by (rewrite ?Ew; lia). cbn [mbind option_bind].
    set (w' := advanced s w) in *. destruct (A 0) as (Aw & Al & Ah & Af & _). eexists. split; [done|].
    split; cbn [win recv have first highest update]; [done|by rewrite length_insert|done..| |].
    + split; [apply elem_of_snoc; by right|]. intros k [Hk| ->]%elem_of_snoc; [specialize (Hmax k Hk)|]; lia.
    + intros k Hk Hr. destruct (A k) as (_ & _ & _ & _ & Ar). unfold slot. cbn [win update]. rewrite Aw.
      rewrite slot_write, bool_decide_snoc, Ar by (done || lia). by destruct (k =? s).
  - rewrite u64_small, Ew by lia.
    assert (Hhigh : highest w ∈ l ++ [s] /\ (forall k, k ∈ l ++ [s] -> k <= highest w)).
    { split; [apply elem_of_snoc; by left|]. intros k [Hk| ->]%elem_of_snoc; [by apply Hmax|done]. }
    destruct (Z.ltb_spec (highest w - s) W); (eexists; split; [done|]);
      (split; cbn [win recv have first highest update]; [done|by rewrite ?length_insert|done..|]);
      intros k Hk Hr; specialize (Hring k Hk Hr); unfold slot in *; cbn [win update]; rewrite Ew in *;
      rewrite ?slot_write, bool_decide_snoc by (done || lia).
    + by destruct (k =? s).
    + rewrite Hring. destruct (Z.eqb_spec k s); [lia|done].
Qed.

Lemma observed_run s0 l : forall l0 w, observed W s0 l0 w -> Forall is_probe_seq (l0 ++ l) ->
  exists w', foldl (fun o s => o ≫= observe s) (Some w) l = Some w' /\ observed W s0 (l0 ++ l) w'.
Proof.
  induction l as [|s l IH]; intros l0 w O Hl; cbn [foldl]; [rewrite app_nil_r; by exists w|].
  rewrite cons_middle, app_assoc in Hl |- *. pose proof Hl as Hl'.
  apply Forall_app in Hl' as [[? [? _]%Forall_cons_1]%Forall_app _].
  destruct (observed_step s0 l0 w s O) as (w1 & E1 & O1); [done|done|]. cbn [mbind option_bind]. rewrite E1. by apply IH.
Qed.

Lemma count_missing_spec l s0 w n : observed W s0 l w -> forall k,
  0 <= k -> highest w - W < k -> k + Z.of_nat n = highest w + 1 ->
  counted n k w = count (fun j => bool_decide (j ∉ l)) (seqZ k (Z.of_nat n)).
Proof.
  intros O. induction n as [|n IH]; intros k H0 Hk Hn; [done|]. cbn [counted].
  rewrite seqZ_cons by lia. cbn [count]. rewrite (ob_ring _ _ _ _ O) by lia. cbn [default].
  replace (Z.pred (Z.of_nat (S n))) with (Z.of_nat n) by lia. rewrite <- IH by lia.
  rewrite bool_decide_not. by destruct (bool_decide (k ∈ l)).
Qed.
End Window.

Lemma foldr_max_spec s0 (l : list Z) :
  foldr Z.max s0 l ∈ s0 :: l /\ (forall s, s ∈ s0 :: l -> s <= foldr Z.max s0 l).
Proof.
  induction l as [|x l [IH1 IH2]]; cbn [foldr].
  - split; [by left|]. by intros s ->%list_elem_of_singleton.
  - split.
    + destruct (Z.max_spec x (foldr Z.max s0 l)) as [[_ ->]|[_ ->]]; [|right; by left].
      apply elem_of_cons in IH1 as [->|IH1]; [by left|]. right. by right.
    + intros s Hs. rewrite !elem_of_cons in Hs. setoid_rewrite elem_of_cons in IH2.
      destruct Hs as [Hs|[->|Hs]]; [specialize (IH2 s (or_introl Hs))| |specialize (IH2 s (or_intror Hs))]; lia.
Qed.

Lemma observed_highest W s0 l w : observed W s0 (s0 :: l) w -> highest w = foldr Z.max s0 l.
Proof.
  intros O. destruct (ob_high _ _ _ _ O) as [Hin Hmax], (foldr_max_spec s0 l) as [G1 G2].
  apply Z.le_antisymm; [by apply G2|by apply Hmax].
Qed.

Definition observe_all (win : Z) (l : list Z) : option lossWindow :=
  foldl (fun o s => o ≫= observe s) (Some (newLossWindow win)) l.

(** The loss estimate is exact: after the echoes [s0 :: l], in any order and
    with any repetition, the window covers the last [W] sequences up to the
    highest echoed but none before the first, and the reported fraction is the
    number of those never echoed over their number, duplicates and reordering
    within the window notwithstanding. *)
Theorem loss_window_exact (win s0 : Z) (l : list Z) :
  win < 2 ^ 63 -> Forall is_probe_seq (s0 :: l) ->
  let W := if win <=? 0 then defaultLossWindow else win in
  let hi := foldr Z.max s0 l in
  let lo := Z.max s0 (hi + 1 - W) in
  let unanswered := count (fun k => bool_decide (k ∉ s0 :: l)) (seqZ lo (hi + 1 - lo)) in
  exists w, observe_all win (s0 :: l) = Some w /\
  bounds w = (lo, true) /\ missing w = Some (unanswered, hi + 1 - lo) /\
  fraction w = Some (float64.fdiv (float64.fofZ unanswered) (float64.fofZ (hi + 1 - lo))).
Proof.
  intros Hw Hl W hi lo unanswered.
  assert (HW : 0 < W < 2 ^ 63) by (unfold W, defaultLossWindow; case_match; lia).
  assert (exists w, observe_all win (s0 :: l) = Some w /\ observed W s0 (s0 :: l) w) as (w & Ew0 & O).
  { unfold observe_all. cbn [foldl mbind option_bind]. pose proof Hl as [H0 _]%Forall_cons_1.
    destruct (observed_first W HW s0 (newLossWindow win)) as (w1 & E1 & O1); [done| |done|apply H0|].
    { cbn. by rewrite length_replicate. }
    rewrite E1. exact (observed_run W HW s0 l [s0] w1 O1 Hl). }
  exists w. split; [done|]. pose proof (observed_highest _ _ _ _ O) as Eh. fold hi in Eh.
  rewrite Forall_forall in Hl. destruct (ob_high _ _ _ _ O) as [Hin Hmax].
  pose proof (Hl _ Hin) as Hh. pose proof (Hl s0 ltac:(by left)) as H0. pose proof (Hmax s0 ltac:(by left)).
  red in Hh, H0. pose proof O as [Ew El Ehv Ef _ Hring].
  assert (Eb : bounds w = (lo, true)).
  { unfold bounds. rewrite Ehv, Ew, Ef, Eh in *. cbn [negb]. rewrite (u64_small (hi + 1)) by lia. f_equal.
    destruct (Z.ltb_spec W (hi + 1)); rewrite ?u64_small by lia; case_match; lia. }
  assert (Em : missing w = Some (unanswered, hi + 1 - lo)).
  { unfold missing. rewrite Eb, Eh in *. rewrite u64_small by lia.
    rewrite (count_ends (Z.to_nat (hi + 1 - lo))) by (rewrite ?Ew, ?Eh; lia).
    rewrite (count_missing_spec W (s0 :: l) s0 w) by (done || lia).
    cbn [mbind option_bind]. unfold unanswered. do 2 f_equal; [|lia]. do 2 f_equal. lia. }
  split_and!; [done..|]. unfold fraction. by rewrite Eb, Em.
Qed.

Lemma loss_window_exact_witness :
  exists w, observe_all 4 [10; 12; 11; 12; 16; 14] = Some w /\ missing w = Some (2, 4) /\ bounds w = (13, true).
Proof.
  destruct (loss_window_exact 4 10 [12; 11; 12; 16; 14]) as (w & Ew & Hb & Hm & _).
  - lia.
  - unfold is_probe_seq. repeat (apply Forall_cons_2; [lia|]). apply Forall_nil_2.
  - exists w. split; [exact Ew|]. split; [rewrite Hm|rewrite Hb]; by vm_compute.
Defined.

(** The number at which it fails: echoes 2^64-2 and then 2^64-1, which any holder of
    the key can send, leave the call of the second one running forever; so does,
    after an echo 2^64-1 alone, every estimate. *)
Example last_number_hangs :
  observe_all 512 [2 ^ 64 - 2; 2 ^ 64 - 1] = None /\
  (exists w, observe_all 512 [2 ^ 64 - 1] = Some w /\ fraction w = None).
Proof.
  split; [|eexists; split; [vm_compute; reflexivity|]; vm_compute; reflexivity].
  vm_compute. reflexivity.
Qed.

End telemetry_props.
