(* ===== verification/Probe.v ===== *)
(** * The probe exchange ([internal/telemetry/probe.go])

    The initiator of a path's probes and the responder that reflects them.  The
    random source of challenges is the byte string it has yet to deliver, a read
    beyond its end the reader's error; the nonce of each encoded frame and the
    clock's readings are arguments.  Methods run under the object's mutex, so
    each is one step. *)

From stdpp Require Import base tactics list numbers gmap.
From S2P Require Import Prelude Sha256 Float64 Frame Telemetry.

Module probe.
Import frame telemetry.

Inductive probe_error :=
  | ErrFrame (e : frame.error)
  | ErrKind
  | ErrReplay
  | ErrPathMismatch
  | ErrSessionMismatch
  | ErrRand.

(** An error of the codec, passed up as it is. *)
Definition lift {A} (o : outcome frame.error A) : outcome probe_error A :=
  match o with Ok a => Ok a | Err e => Err (ErrFrame e) | Panic => Panic end.

(** ** Random draws *)
Definition readUint64 (r : list Z) : list Z * outcome probe_error Z :=
  if (length r <? 8)%nat then ([], Err ErrRand)
  else (drop 8 r, Ok (be_get (take 8 r))).

Definition NewSessionID (r : list Z) : list Z * outcome probe_error Z := readUint64 r.

(** The retry loop of [drawChallenge]; every retry consumes eight bytes, so
    [length r] iterations reach its end. *)
Fixpoint draw_loop (n : nat) (r : list Z) : list Z * outcome probe_error Z :=
  match n with
  | O => (r, Err ErrRand)
  | S n =>
    match readUint64 r with
    | (r, Ok v) => if negb (v =? 0) then (r, Ok v) else draw_loop n r
    | (r, e) => (r, e)
    end
  end.
Definition drawChallenge (r : list Z) : list Z * outcome probe_error Z := draw_loop (S (length r)) r.

(** ** Time

    [UnixNano] and [time.Unix(0, ns)]: the Unix epoch is 62135596800 seconds
    after Go's zero instant. *)
Definition unixEpoch : Time := 62135596800 * second.
Definition UnixNano (t : Time) : Z := i64 (t - unixEpoch).
Definition Unix (ns : Z) : Time := ns + unixEpoch.

(** ** The initiator *)
Record ProberConfig := mkProberConfig { LossWindow : Z; LivenessCfg : LivenessConfig }.

Record Prober := mkProber {
  pathID : Z;
  sessionID : Z;
  psk : Key;
  nextSeq : Z;
  guard : AntiReplay;
  learnedChallenge : Z;
  est : Estimator;
  live : Liveness
}.
#[export] Instance eta_Prober : Eta Prober := fun p =>
  mkProber (pathID p) (sessionID p) (psk p) (nextSeq p) (guard p) (learnedChallenge p) (est p) (live p).

Definition NewProber (id session : Z) (k : Key) (c : ProberConfig) : Prober :=
  mkProber id session k 0 AntiReplay0 0 (NewEstimator (LossWindow c)) (NewLiveness (LivenessCfg c)).

Definition buildProbeLocked (now : Time) (p : Prober) : Prober * frame.Probe :=
  let probe := frame.mkProbe (pathID p) (nextSeq p) (UnixNano now) false (sessionID p) (learnedChallenge p)
                 false 0 [] in
  (p <| nextSeq := u64 (nextSeq p + 1) |>, probe).

Section Exchange.
Context {C : Cipher}.

Definition SendProbePayload (rnd : option (list Z)) (now : Time) (payload : list Z) (p : Prober) :
    Prober * frame.Probe * outcome frame.error (list Z) :=
  let '(p, pr) := buildProbeLocked now p in
  let pr := frame.mkProbe (PathID pr) (ProbeSeq pr) (TimestampNanos pr) (IsEcho pr) (SessionID pr)
              (Challenge pr) (Padded pr) (PadLen pr) payload in
  (p, pr, EncodeWith rnd (psk p) (FProbe pr)).

Definition SendProbe (rnd : option (list Z)) (now : Time) (p : Prober) :
    Prober * outcome frame.error (list Z) :=
  let '(p, _, raw) := SendProbePayload rnd now [] p in (p, raw).

Definition SendPaddedProbe (rnd : option (list Z)) (now : Time) (onWire : Z) (p : Prober) :
    Prober * outcome frame.error (list Z * Z) :=
  match PadLenForOnWire onWire with
  | Err e => (p, Err e)
  | Panic => (p, Panic)
  | Ok padLen =>
    let '(p, pr) := buildProbeLocked now p in
    let pr := frame.mkProbe (PathID pr) (ProbeSeq pr) (TimestampNanos pr) (IsEcho pr) (SessionID pr)
                (Challenge pr) true padLen (ProbePayload pr) in
    (p, raw ← EncodeWith rnd (psk p) (FProbe pr); Ok (raw, ProbeSeq pr))
  end.

Definition ExcludePaddedProbeLoss (seq : Z) (p : Prober) : Prober :=
  p <| est := ObserveProbeEcho seq (est p) |>.

(** [now] is the clock's reading for the round trip, [liveNow] the liveness
    machine's own.  The loss accounting may not return ([echoReturns]). *)
Definition HandleEchoProbe (now liveNow : Time) (raw : list Z) (p : Prober) :
    Prober * outcome probe_error frame.Probe :=
  match DecodeWith (psk p) raw with
  | Err e => (p, Err (ErrFrame e))
  | Panic => (p, Panic)
  | Ok (FControl _) => (p, Err ErrKind)
  | Ok (FProbe pr) =>
    if negb (PathID pr =? pathID p) then (p, Err ErrPathMismatch)
    else if negb (SessionID pr =? sessionID p) then (p, Err ErrSessionMismatch)
    else
      let p := p <| est := ObserveProbeEcho (ProbeSeq pr) (est p) |> in
      let '(g, fresh) := Accept (ProbeSeq pr) (guard p) in
      let p := p <| guard := g |> in
      if negb fresh then (p, Err ErrReplay)
      else
        let p := p <| learnedChallenge := Challenge pr |> in
        let rtt := time_sub now (Unix (TimestampNanos pr)) in
        let rtt := if rtt <? 0 then 0 else rtt in
        let p := p <| est := ObserveRTT rtt (est p) |> in
        (p <| live := RecordEcho liveNow (live p) |>, Ok pr)
  end.

(** Whether a call of [HandleEchoProbe] returns: the datagram is refused before the
    loss accounting, or the loop of that ends. *)
Definition echoReturns (raw : list Z) (p : Prober) : bool :=
  match DecodeWith (psk p) raw with
  | Ok (FProbe pr) => negb (PathID pr =? pathID p) || negb (SessionID pr =? sessionID p) ||
                      telemetry.echoReturns (ProbeSeq pr) (est p)
  | _ => true
  end.

Definition HandleEcho (now liveNow : Time) (raw : list Z) (p : Prober) : Prober * outcome probe_error unit :=
  let '(p, o) := HandleEchoProbe now liveNow raw p in (p, _ ← o; Ok ()).

Definition ProberTick (now : Time) (p : Prober) : Prober := p <| live := Tick now (live p) |>.
Definition ProberEstimate (p : Prober) : Estimate := GetEstimate (est p).
Definition estimateReturns (p : Prober) : bool := telemetry.estimateReturns (est p).
Definition ProberState (p : Prober) : PathState := State (live p).

(** ** The responder *)
Record reflectorPath := mkReflectorPath {
  session : Z;
  rguard : AntiReplay;
  challenge : Z;
  adopted : bool
}.
#[export] Instance eta_reflectorPath : Eta reflectorPath := fun s =>
  mkReflectorPath (session s) (rguard s) (challenge s) (adopted s).

Record Reflector := mkReflector {
  rpsk : Key;
  rand : list Z;
  paths : gmap Z reflectorPath;
  lastRestartSession : Z;
  haveRestartSession : bool
}.
#[export] Instance eta_Reflector : Eta Reflector := fun r =>
  mkReflector (rpsk r) (rand r) (paths r) (lastRestartSession r) (haveRestartSession r).

Inductive ProbeAcceptance := ProbeBootstrap | ProbeCurrent | ProbeAdopted.
#[export] Instance ProbeAcceptance_eq_dec : EqDecision ProbeAcceptance.
Proof. solve_decision. Defined.

Record AcceptedProbe := mkAcceptedProbe {
  AProbe : frame.Probe;
  Acceptance : ProbeAcceptance;
  EpochChanged : bool
}.

Definition NewReflector (k : Key) (rnd : list Z) : Reflector := mkReflector k rnd ∅ 0 false.

(** The verdict: the challenge to stamp, whether to reflect, the class of the
    probe, and whether a peer restart is reported. *)
Record verdict := mkVerdict {
  issued : Z; reflect : bool; acceptance : ProbeAcceptance; epochChanged : bool
}.

(** The path's entry, created with a drawn challenge on first use. *)
Definition ensurePath (path : Z) (r : Reflector) : Reflector * outcome probe_error reflectorPath :=
  match paths r !! path with
  | Some st => (r, Ok st)
  | None =>
    let '(rnd, ch) := drawChallenge (rand r) in
    let r := r <| rand := rnd |> in
    match ch with
    | Ok ch => let st := mkReflectorPath 0 AntiReplay0 ch false in
               (r <| paths := <[path := st]> (paths r) |>, Ok st)
    | Err e => (r, Err e)
    | Panic => (r, Panic)
    end
  end.

Definition acceptLocked (path sid seq echoed : Z) (r : Reflector) : Reflector * outcome probe_error verdict :=
  match ensurePath path r with
  | (r, Err e) => (r, Err e)
  | (r, Panic) => (r, Panic)
  | (r, Ok st) =>
    if adopted st && (sid =? session st) then
      let '(g, ok) := Accept seq (rguard st) in
      let r := r <| paths := <[path := st <| rguard := g |>]> (paths r) |> in
      if negb ok then (r, Ok (mkVerdict 0 false ProbeCurrent false))
      else (r, Ok (mkVerdict (challenge st) true ProbeCurrent false))
    else if echoed =? challenge st then
      let restart := adopted st && negb (sid =? session st) in
      let st := mkReflectorPath sid (fst (Accept seq AntiReplay0)) (challenge st) true in
      let '(rnd, ch) := drawChallenge (rand r) in
      let r := r <| rand := rnd |> in
      match ch with
      | Err e => (r <| paths := <[path := st]> (paths r) |>, Err e)
      | Panic => (r <| paths := <[path := st]> (paths r) |>, Panic)
      | Ok ch =>
        let r := r <| paths := <[path := st <| challenge := ch |>]> (paths r) |> in
        if restart && (negb (haveRestartSession r) || negb (sid =? lastRestartSession r))
        then (r <| lastRestartSession := sid |> <| haveRestartSession := true |>,
              Ok (mkVerdict ch true ProbeAdopted true))
        else (r, Ok (mkVerdict ch true ProbeAdopted false))
      end
    else (r, Ok (mkVerdict (challenge st) true ProbeBootstrap false))
  end.

Definition AcceptProbe (raw : list Z) (r : Reflector) : Reflector * outcome probe_error AcceptedProbe :=
  match DecodeWith (rpsk r) raw with
  | Err e => (r, Err (ErrFrame e))
  | Panic => (r, Panic)
  | Ok (FControl _) => (r, Err ErrKind)
  | Ok (FProbe pr) =>
    match acceptLocked (PathID pr) (SessionID pr) (ProbeSeq pr) (Challenge pr) r with
    | (r, Err e) => (r, Err e)
    | (r, Panic) => (r, Panic)
    | (r, Ok v) =>
      if negb (reflect v) then (r, Err ErrReplay)
      else (r, Ok (mkAcceptedProbe
        (frame.mkProbe (PathID pr) (ProbeSeq pr) (TimestampNanos pr) true (SessionID pr) (issued v)
           (Padded pr) (PadLen pr) (ProbePayload pr))
        (acceptance v) (epochChanged v)))
    end
  end.

Definition EncodeAcceptedProbe (rnd : option (list Z)) (a : AcceptedProbe) (payload : list Z) (r : Reflector) :
    outcome frame.error (list Z) :=
  let pr := AProbe a in
  EncodeWith rnd (rpsk r) (FProbe (frame.mkProbe (PathID pr) (ProbeSeq pr) (TimestampNanos pr) (IsEcho pr)
    (SessionID pr) (Challenge pr) (Padded pr) (PadLen pr) payload)).

Definition Reflect (rnd : option (list Z)) (raw : list Z) (r : Reflector) :
    Reflector * outcome probe_error (list Z * bool) :=
  match AcceptProbe raw r with
  | (r, Err e) => (r, Err e)
  | (r, Panic) => (r, Panic)
  | (r, Ok a) =>
    (r, out ← lift (EncodeAcceptedProbe rnd a (ProbePayload (AProbe a)) r); Ok (out, EpochChanged a))
  end.

End Exchange.
End probe.
