(* ===== verification/ProbeProps.v ===== *)
(** * What the probe exchange guarantees

    Who may take over a path's session, that a session's probes are accepted
    once, what an echo may change, and that a restarted peer is readmitted. *)

From stdpp Require Import base tactics list numbers gmap.
From S2P Require Import Prelude Sha256 Float64 Frame FrameProps Telemetry Probe.

Module probe_props.
Import frame telemetry probe.

(** ** The challenges a random source has yet to give *)
Fixpoint draws_upto (n : nat) (r : list Z) : list Z :=
  match n with
  | O => []
  | S n => if (length r <? 8)%nat then []
           else let v := be_get (take 8 r) in
                if v =? 0 then draws_upto n (drop 8 r) else v :: draws_upto n (drop 8 r)
  end.
Definition draws (r : list Z) : list Z := draws_upto (S (length r)) r.

Lemma draws_upto_enough n m r : (length r < n)%nat -> (length r < m)%nat -> draws_upto n r = draws_upto m r.
Proof.
  revert m r. induction n as [|n IH]; intros m r Hn Hm; [lia|]. destruct m as [|m]; [lia|]. cbn [draws_upto].
  destruct (Nat.ltb_spec (length r) 8); [done|].
  rewrite (IH m) by (rewrite length_drop; lia). done.
Qed.

Lemma draw_loop_spec n r : (length r < n)%nat ->
  match draw_loop n r with
  | (r', Ok v) => v <> 0 /\ draws r = v :: draws r'
  | (r', Err e) => e = ErrRand /\ draws r = [] /\ draws r' = []
  | (_, Panic) => False
  end.
Proof.
  revert r. induction n as [|n IH]; intros r Hn; [lia|]. cbn [draw_loop]. unfold readUint64.
  unfold draws at 1 3. cbn [draws_upto].
  destruct (Nat.ltb_spec (length r) 8) as [Hs|Hl]; [done|]. cbv zeta.
  destruct (Z.eqb_spec (be_get (take 8 r)) 0) as [E|E]; cbn [negb].
  - specialize (IH (drop 8 r) ltac:(rewrite length_drop; lia)).
    rewrite (draws_upto_enough (length r) (S (length (drop 8 r))) (drop 8 r)) by (rewrite length_drop; lia).
    exact IH.
  - split; [done|]. f_equal. apply draws_upto_enough; rewrite length_drop; lia.
Qed.

Lemma drawChallenge_spec r :
  match drawChallenge r with
  | (r', Ok v) => v <> 0 /\ draws r = v :: draws r'
  | (r', Err e) => e = ErrRand /\ draws r = [] /\ draws r' = []
  | (_, Panic) => False
  end.
Proof. apply draw_loop_spec. lia. Qed.

(** ** Requests to a reflector

    An authenticated probe, as far as admission reads it. *)
Record request := mkRequest { q_path : Z; q_session : Z; q_seq : Z; q_challenge : Z }.

Definition respond (r : Reflector) (q : request) : Reflector * outcome probe_error verdict :=
  acceptLocked (q_path q) (q_session q) (q_seq q) (q_challenge q) r.

Fixpoint responses (r : Reflector) (qs : list request) : list (request * outcome probe_error verdict) :=
  match qs with
  | [] => []
  | q :: qs => let '(r, o) := respond r q in (q, o) :: responses r qs
  end.

(** The challenges by which a run of requests took sessions over. *)
Definition takeover (x : request * outcome probe_error verdict) : option Z :=
  match snd x with
  | Ok v => if decide (acceptance v = ProbeAdopted) then Some (q_challenge (fst x)) else None
  | _ => None
  end.
Definition takeovers (l : list (request * outcome probe_error verdict)) : list Z := omap takeover l.

(** Live challenges are unspent, distinct from path to path, and no longer in
    the source. *)
#[local] Arguments draws : simpl never.
Record unspent (used rnd : list Z) (ps : gmap Z reflectorPath) : Prop := mkUnspent {
  us_draws : NoDup (draws rnd) /\ (forall c, c ∈ draws rnd -> c ∉ used);
  us_live : forall p st, ps !! p = Some st -> (challenge st ∉ used) /\ (challenge st ∉ draws rnd);
  us_apart : forall p1 p2 st1 st2, ps !! p1 = Some st1 -> ps !! p2 = Some st2 -> p1 <> p2 ->
    challenge st1 <> challenge st2
}.

(** A draw moves one challenge from the source to a path. *)
Lemma unspent_draw used rnd ps rnd' path st :
  unspent used rnd ps -> draws rnd = challenge st :: draws rnd' -> unspent used rnd' (<[path := st]> ps).
Proof.
  intros [[Hnd Hdu] Hl Ha] E. rewrite E in *. apply NoDup_cons in Hnd as [Hni Hnd].
  assert (Hfresh : challenge st ∉ used) by (apply Hdu; by left).
  assert (Hold : forall p st', ps !! p = Some st' -> challenge st' <> challenge st).
  { intros p st' Hp Heq. destruct (Hl _ _ Hp) as [_ Hn]. apply Hn. rewrite Heq. by left. }
  split.
  - split; [done|]. intros c Hc. apply Hdu. by right.
  - intros p st' Hp. apply lookup_insert_Some in Hp as [[<- <-]|[Hne Hp]]; [done|].
    destruct (Hl _ _ Hp) as [? Hn]. split; [done|]. intros Hc. apply Hn. by right.
  - intros p1 p2 s1 s2 H1 H2 Hne. apply lookup_insert_Some in H1 as [[<- <-]|[Hne1 H1]];
      apply lookup_insert_Some in H2 as [[<- <-]|[Hne2 H2]]; [done| | |by eapply Ha].
    + intros Heq. by apply (Hold _ _ H2).
    + by eapply Hold.
Qed.

(** Spending the live challenge of a path that is then given another. *)
Lemma unspent_spend used rnd ps path st rnd' st' :
  unspent used rnd ps -> ps !! path = Some st -> draws rnd = challenge st' :: draws rnd' ->
  unspent (used ++ [challenge st]) rnd' (<[path := st']> ps).
Proof.
  intros U Hp E. destruct (unspent_draw used rnd ps rnd' path st' U E) as [[Hnd Hdu] Hl Ha].
  destruct U as [[_ _] Hl0 Ha0]. destruct (Hl0 _ _ Hp) as [_ Hnin]. rewrite E in Hnin.
  split; [|clear Ha|done].
  - split; [done|]. intros c Hc. rewrite elem_of_app, list_elem_of_singleton.
    intros [Hu|Hu]; [by apply (Hdu c)|]. subst c. apply Hnin. by right.
  - intros p s Hs. destruct (Hl _ _ Hs) as [? ?]. split; [|done].
    rewrite elem_of_app, list_elem_of_singleton. intros [Hu|Hu]; [done|].
    apply lookup_insert_Some in Hs as [[<- <-]|[Hne Hs]].
    + apply Hnin. rewrite <- Hu. by left.
    + by apply (Ha0 _ _ _ _ Hs Hp).
Qed.

(** Writing back a path with its challenge unchanged. *)
Lemma unspent_write used rnd ps path st st' :
  unspent used rnd ps -> ps !! path = Some st -> challenge st' = challenge st ->
  unspent used rnd (<[path := st']> ps).
Proof.
  intros [Hd Hl Ha] Hp Ec. split; [done| |].
  - intros p s Hs. apply lookup_insert_Some in Hs as [[<- <-]|[Hne Hs]]; [rewrite Ec|]; by eapply Hl.
  - intros p1 p2 s1 s2 H1 H2 Hne. apply lookup_insert_Some in H1 as [[<- <-]|[Hne1 H1]];
      apply lookup_insert_Some in H2 as [[<- <-]|[Hne2 H2]]; rewrite ?Ec; [done|by eapply Ha..].
Qed.

Lemma unspent_exhausted used rnd ps rnd' :
  unspent used rnd ps -> draws rnd' = [] -> unspent used rnd' ps.
Proof.
  intros [Hd Hl Ha] E'. split; rewrite ?E'.
  - split; [constructor|]. intros c Hc. by apply elem_of_nil in Hc.
  - intros p st Hp. split; [by apply (Hl p)|apply not_elem_of_nil].
  - done.
Qed.

Lemma ensurePath_unspent used r path : unspent used (rand r) (paths r) ->
  let '(r', o) := ensurePath path r in
  unspent used (rand r') (paths r') /\
  match o with Ok st => paths r' !! path = Some st | Err e => e = ErrRand | Panic => False end.
Proof.
  intros U. unfold ensurePath. destruct (paths r !! path) as [st|] eqn:E; [done|].
  pose proof (drawChallenge_spec (rand r)) as D. destruct (drawChallenge (rand r)) as [rnd [ch|e|]]; cbn; [| |done].
  - destruct D as [_ D]. split; [by eapply unspent_draw|by rewrite lookup_insert_eq].
  - destruct D as (-> & D1 & D2). split; [by eapply unspent_exhausted|done].
Qed.

Lemma respond_unspent used r q : unspent used (rand r) (paths r) ->
  let '(r', o) := respond r q in
  match takeover (q, o) with
  | Some c => (c ∉ used) /\ unspent (used ++ [c]) (rand r') (paths r')
  | None => unspent used (rand r') (paths r')
  end.
Proof.
  intros U. unfold respond, acceptLocked. pose proof (ensurePath_unspent used r (q_path q) U) as U1.
  destruct (ensurePath (q_path q) r) as [r1 [st|e|]]; destruct U1 as [U1 P1]; [|done|done].
  destruct (adopted st && (q_session q =? session st)).
  { unfold Accept. destruct (ahave (rguard st) && _); cbn; by eapply unspent_write. }
  destruct (Z.eqb_spec (q_challenge q) (challenge st)) as [Ec|]; [|done].
  pose proof (drawChallenge_spec (rand r1)) as D. destruct (drawChallenge (rand r1)) as [rnd [ch|e|]]; [| |done].
  - destruct D as [_ D].
    assert (X : (challenge st ∉ used) /\ forall st', challenge st' = ch ->
      unspent (used ++ [challenge st]) rnd (<[q_path q := st']> (paths r1))).
    { split; [by eapply us_live|]. intros st' <-. by eapply unspent_spend. }
    destruct X as [X1 X2]. rewrite <- Ec in X1, X2.
    destruct (adopted st && _ && _); (split; [exact X1|by apply X2]).
  - destruct D as (_ & D1 & D2). cbn. eapply unspent_write; [by eapply unspent_exhausted|done|done].
Qed.

Lemma responses_unspent qs : forall used r, unspent used (rand r) (paths r) -> NoDup used ->
  NoDup (used ++ takeovers (responses r qs)).
Proof.
  induction qs as [|q qs IH]; intros used r U Hnd; cbn [responses takeovers omap]; [by rewrite app_nil_r|].
  pose proof (respond_unspent used r q U) as U'. destruct (respond r q) as [r' o].
  unfold takeovers. cbn [omap list_omap]. destruct (takeover (q, o)) as [c|].
  - destruct U' as [Hc U']. rewrite cons_middle, app_assoc. apply IH; [done|].
    apply NoDup_app. split_and!; [done| |apply NoDup_singleton]. intros x Hx ->%list_elem_of_singleton. done.
  - by apply IH.
Qed.

Lemma draws_nonzero r : 0 ∉ draws r.
Proof.
  unfold draws. generalize (S (length r)) as n. intros n. revert r. induction n as [|n IH]; intros r; cbn;
    [apply not_elem_of_nil|]. case_match; [apply not_elem_of_nil|].
  destruct (Z.eqb_spec (be_get (take 8 r)) 0); [apply IH|]. rewrite elem_of_cons. intros [?|?]; [done|by eapply IH].
Qed.

(** A reflector that starts has spent nothing but the zero challenge. *)
Lemma unspent_start k rnd : NoDup (draws rnd) -> unspent [0] (rand (NewReflector k rnd)) (paths (NewReflector k rnd)).
Proof.
  intros Hnd. split; cbn.
  - split; [done|]. intros c Hc ->%list_elem_of_singleton. by apply draws_nonzero in Hc.
  - intros p st Hp. by rewrite lookup_empty in Hp.
  - intros p1 p2 s1 s2 Hp. by rewrite lookup_empty in Hp.
Qed.

(** Against any sequence of authenticated probes, captured and replayed ones
    included, a challenge takes over a session at most once, on any path, and
    the zero challenge of a peer that has learned none never does: given
    that the challenges drawn do not repeat, no probe adopts a session twice. *)
Theorem reflector_takeover_once (k : Key) (rnd : list Z) (qs : list request) :
  NoDup (draws rnd) ->
  NoDup (takeovers (responses (NewReflector k rnd) qs)) /\ 0 ∉ takeovers (responses (NewReflector k rnd) qs).
Proof.
  intros Hnd. pose proof (responses_unspent qs [0] _ (unspent_start k rnd Hnd) (NoDup_singleton 0)) as H.
  apply NoDup_app in H as (_ & H0 & H). split; [done|]. apply H0. by left.
Qed.

Definition rnd1 : list Z := be_put 8 0 ++ be_put 8 41 ++ be_put 8 42 ++ be_put 8 43.
Definition qs1 : list request :=
  [mkRequest 1 7 0 0; mkRequest 1 7 1 41; mkRequest 1 9 0 41; mkRequest 1 9 1 42; mkRequest 1 7 1 41].

Lemma reflector_takeover_once_witness :
  takeovers (responses (NewReflector (mkKey [] true) rnd1) qs1) = [41; 42] /\
  NoDup (takeovers (responses (NewReflector (mkKey [] true) rnd1) qs1)).
Proof.
  split; [by vm_compute|]. apply (reflector_takeover_once (mkKey [] true) rnd1 qs1).
  replace (draws rnd1) with [41; 42; 43] by by vm_compute.
  apply (bool_decide_unpack _). by vm_compute.
Defined.

(** ** Within one session *)
Definition floor (a : AntiReplay) : Z := if ahave a then ahigh a + 1 else 0.

Lemma Accept_cases seq a : 0 <= seq ->
  Accept seq a = if floor a <=? seq then (mkAntiReplay seq true, true) else (a, false).
Proof.
  intros H. unfold Accept, floor. destruct (ahave a); cbn [andb].
  - destruct (Z.leb_spec seq (ahigh a)), (Z.leb_spec (ahigh a + 1) seq); done || lia.
  - by rewrite (proj2 (Z.leb_le 0 seq)) by done.
Qed.

(** The verdict is an acceptance into path [p]'s current session. *)
Definition current_seq (p : Z) (x : request * outcome probe_error verdict) : option (Z * Z) :=
  match snd x with
  | Ok v => if decide (q_path (fst x) = p /\ acceptance v = ProbeCurrent /\ reflect v = true)
            then Some (q_session (fst x), q_seq (fst x)) else None
  | _ => None
  end.
(** Nothing takes path [p] over, and the random source did not fail on it. *)
Definition undisturbed (p : Z) (x : request * outcome probe_error verdict) : Prop :=
  q_path (fst x) = p -> exists v, snd x = Ok v /\ acceptance v <> ProbeAdopted.

Lemma respond_other r q p : q_path q <> p -> paths (fst (respond r q)) !! p = paths r !! p.
Proof.
  intros Hne. unfold respond, acceptLocked.
  assert (E : paths (fst (ensurePath (q_path q) r)) !! p = paths r !! p).
  { unfold ensurePath. destruct (paths r !! q_path q); [done|].
    destruct (drawChallenge (rand r)) as [? [?|?|]]; cbn; [|done..]. by rewrite lookup_insert_ne. }
  destruct (ensurePath (q_path q) r) as [r1 [st|e|]]; cbn [fst] in *; [|done..].
  repeat case_match; cbn; rewrite ?lookup_insert_ne by done; done.
Qed.

Lemma respond_current r q st : paths r !! q_path q = Some st -> adopted st = true -> 0 <= q_seq q ->
  undisturbed (q_path q) (q, snd (respond r q)) ->
  exists st', paths (fst (respond r q)) !! q_path q = Some st' /\ adopted st' = true /\ session st' = session st /\
    match current_seq (q_path q) (q, snd (respond r q)) with
    | Some (s, n) => s = session st /\ n = q_seq q /\ floor (rguard st) <= n /\ floor (rguard st') = n + 1
    | None => floor (rguard st') = floor (rguard st)
    end.
Proof.
  intros Hp Ha Hq Hu. unfold respond, acceptLocked, ensurePath in *. rewrite Hp, Ha in *. cbn [andb] in *.
  destruct (Z.eqb_spec (q_session q) (session st)) as [Es|Es].
  - rewrite Accept_cases by done. destruct (Z.leb_spec (floor (rguard st)) (q_seq q)) as [Hf|Hf]; cbn [negb fst snd].
    + eexists. split; [cbn; by rewrite lookup_insert_eq|]. cbn. by rewrite decide_True by done.
    + eexists. split; [cbn; by rewrite lookup_insert_eq|]. cbn. rewrite decide_False by naive_solver. done.
  - destruct (q_challenge q =? challenge st).
    + exfalso. destruct (Hu eq_refl) as (v & Ev & Hv). cbn [snd] in Ev. apply Hv.
      destruct (drawChallenge (rand r)) as [? [?|?|]]; cbn in Ev; [|done..].
      case_match; cbn in Ev; by injection Ev as <-.
    + exists st. cbn. rewrite decide_False by naive_solver. done.
Qed.

(** Within one adopted session of a path a probe is accepted at most once:
    while nothing takes the path over, the session stays the same, only its
    probes are accepted as current, and their sequences strictly increase from
    above the high-water mark, however the requests of all paths are interleaved. *)
Theorem reflector_session_fresh (r : Reflector) (p : Z) (st : reflectorPath) (qs : list request) :
  paths r !! p = Some st -> adopted st = true -> Forall (fun q => is_u64 (q_seq q)) qs ->
  Forall (undisturbed p) (responses r qs) ->
  let acc := omap (current_seq p) (responses r qs) in
  Forall (fun x => fst x = session st) acc /\ ascending (floor (rguard st)) (map snd acc) (2 ^ 64 `max` floor (rguard st)).
Proof.
  intros Hp Ha Hq Hu. cbv zeta. set (top := _ `max` _). assert (Htop : floor (rguard st) <= top) by lia.
  assert (Htop' : 2 ^ 64 <= top) by lia. clearbody top. revert r st Hp Ha Htop Hu.
  induction Hq as [|q qs Hq0 Hq IH]; intros r st Hp Ha Htop Hu; cbn [responses]; [by split|].
  cbn [responses] in Hu. pose proof (respond_other r q p) as Ho. pose proof (respond_current r q) as Hc.
  destruct (respond r q) as [r' o]. cbn [fst snd] in *. apply Forall_cons_1 in Hu as [Hu0 Hu]. cbn [omap list_omap].
  destruct (decide (q_path q = p)) as [<-|Hne].
  - destruct (Hc st Hp Ha ltac:(apply Hq0) Hu0) as (st' & Hp' & Ha' & Es' & Hm).
    destruct (current_seq (q_path q) (q, o)) as [[s n]|].
    + destruct Hm as (-> & -> & Hf & Hf'). red in Hq0. destruct (IH r' st' Hp' Ha' ltac:(lia) Hu) as [I1 I2].
      rewrite Es' in I1. rewrite Hf' in I2. split; [by constructor|]. cbn. split; [lia|done].
    + rewrite <- Hm in *. rewrite <- Es'. by apply IH.
  - replace (current_seq p (q, o)) with (@None (Z * Z)).
    + apply (IH r'); try done. by rewrite Ho.
    + unfold current_seq. cbn. destruct o; [|done..]. by rewrite decide_False by naive_solver.
Qed.

Definition st2 : reflectorPath := mkReflectorPath 7 (mkAntiReplay 4 true) 41 true.
Definition r2 : Reflector := mkReflector (mkKey [] true) [] {[ 1 := st2 ]} 0 false.
Definition qs2 : list request :=
  [mkRequest 1 7 5 0; mkRequest 1 8 9 0; mkRequest 1 7 5 0; mkRequest 1 7 9 0; mkRequest 1 7 6 0].

Lemma reflector_session_fresh_witness :
  omap (current_seq 1) (responses r2 qs2) = [(7, 5); (7, 9)] /\
  ascending 5 (map snd (omap (current_seq 1) (responses r2 qs2))) (2 ^ 64 `max` 5).
Proof.
  split; [by vm_compute|].
  refine (proj2 (reflector_session_fresh r2 1 st2 qs2 _ _ _ _)).
  - reflexivity.
  - reflexivity.
  - repeat (apply Forall_cons_2; [unfold is_u64; cbn; lia|]). apply Forall_nil_2.
  - repeat (apply Forall_cons_2; [intros _; cbn; eexists; split; [reflexivity|discriminate]|]). apply Forall_nil_2.
Defined.

(** ** The initiator *)
Section Initiator.
Context {C : Cipher} {L : CipherLaws C}.

(** A run of received datagrams, with the two clock readings at each: the prober after them,
    and the echoes it accepted. *)
Fixpoint handle_all (l : list (Time * Time * list Z)) (p : Prober) : Prober * list (Time * Time * frame.Probe) :=
  match l with
  | [] => (p, [])
  | (t, u, raw) :: l =>
    let '(p, o) := HandleEchoProbe t u raw p in
    let '(p', acc) := handle_all l p in
    (p', match o with Ok pr => (t, u, pr) :: acc | _ => acc end)
  end.

(** The parts of a prober an echo may move only by being accepted. *)
Definition same_but_loss (p p' : Prober) : Prop :=
  pathID p' = pathID p /\ sessionID p' = sessionID p /\ psk p' = psk p /\ nextSeq p' = nextSeq p /\
  guard p' = guard p /\ learnedChallenge p' = learnedChallenge p /\ live p' = live p /\
  srtt (est p') = srtt (est p) /\ rttvar (est p') = rttvar (est p) /\ haveRTT (est p') = haveRTT (est p).

Lemma HandleEchoProbe_cases t u raw p : IsSet (psk p) = true -> bytes_ok raw ->
  match HandleEchoProbe t u raw p with
  | (_, Panic) => False
  | (p', Err e) => same_but_loss p p'
  | (p', Ok pr) =>
    DecodeWith (psk p) raw = Ok (FProbe pr) /\ PathID pr = pathID p /\ SessionID pr = sessionID p /\
    is_u64 (ProbeSeq pr) /\ floor (guard p) <= ProbeSeq pr /\
    p' = p <| est := ObserveRTT (Z.max 0 (time_sub t (Unix (TimestampNanos pr))))
                       (ObserveProbeEcho (ProbeSeq pr) (est p)) |>
           <| guard := mkAntiReplay (ProbeSeq pr) true |> <| learnedChallenge := Challenge pr |>
           <| live := RecordEcho u (live p) |>
  end.
Proof.
  intros Hs Hb. pose proof (frame_props.oneshot_decode (psk p) raw Hs Hb) as D. unfold HandleEchoProbe.
  destruct (DecodeWith (psk p) raw) as [[pr|c]|e|] eqn:E; [|repeat split..|done].
  destruct D as (_ & Hq & _).
  destruct (Z.eqb_spec (PathID pr) (pathID p)); cbn [negb]; [|repeat split].
  destruct (Z.eqb_spec (SessionID pr) (sessionID p)); cbn [negb]; [|repeat split].
  cbn [guard update]. rewrite Accept_cases by apply Hq.
  destruct (Z.leb_spec (floor (guard p)) (ProbeSeq pr)); cbn [negb]; [|repeat split].
  split_and!; [done..|]. destruct p. cbn. do 2 f_equal.
  destruct (Z.ltb_spec (time_sub t (Unix (TimestampNanos pr))) 0); lia.
Qed.

End Initiator.

(** C35. Whatever datagrams arrive, in any number and order: no handling panics;
    only echoes that decode under the PSK, name this path and this boot's
    session, and carry strictly increasing sequences are accepted; and the
    liveness machine ends as if fed exactly those echoes, so forged, foreign,
    stale and replayed datagrams can neither keep a path up nor bring it up.  (This
    is of the calls that return: an own echo numbered 2^64-1 may not,
    [probe.echoReturns].) *)
Theorem prober_echoes_authentic {C : Cipher} {L : CipherLaws C} (p : Prober) (l : list (Time * Time * list Z)) :
  IsSet (psk p) = true -> Forall (fun x => bytes_ok (snd x)) l -> floor (guard p) <= 2 ^ 64 ->
  let '(p', acc) := handle_all l p in
  live p' = foldl (fun m x => RecordEcho (snd (fst x)) m) (live p) acc /\
  ascending (floor (guard p)) (map (fun x => ProbeSeq (snd x)) acc) (2 ^ 64) /\
  Forall (fun x => PathID (snd x) = pathID p /\ SessionID (snd x) = sessionID p /\
    exists raw, (fst x, raw) ∈ l /\ DecodeWith (psk p) raw = Ok (FProbe (snd x))) acc /\
  Forall (fun x => snd (HandleEchoProbe (fst (fst x)) (snd (fst x)) (snd x) p) <> Panic) l /\
  learnedChallenge p' = default (learnedChallenge p) (Challenge ∘ snd <$> last acc).
Proof.
  revert p. induction l as [|[[t u] raw] l IH]; intros p Hs Hb Hf; cbn [handle_all].
  { cbn. split_and!; [done|done|constructor|constructor|done]. }
  apply Forall_cons_1 in Hb as [Hb0 Hb]. pose proof (HandleEchoProbe_cases t u raw p Hs Hb0) as H.
  assert (Hnp : Forall (fun x => snd (HandleEchoProbe (fst (fst x)) (snd (fst x)) (snd x) p) <> Panic) ((t, u, raw) :: l)).
  { apply Forall_cons_2; [cbn in *; by destruct (HandleEchoProbe t u raw p) as [? []]|].
    apply (Forall_impl _ _ _ Hb). intros x Hx. pose proof (HandleEchoProbe_cases (fst (fst x)) (snd (fst x)) (snd x) p Hs Hx).
    by destruct (HandleEchoProbe (fst (fst x)) (snd (fst x)) (snd x) p) as [? []]. }
  destruct (HandleEchoProbe t u raw p) as [p1 [pr|e|]]; [| |done].
  - destruct H as (D & Hid & Hse & Hq & Hfl & ->).
    match goal with |- context [handle_all l ?x] => set (p1 := x) end.
    specialize (IH p1 Hs Hb). destruct (handle_all l p1) as [p2 acc].
    destruct IH as (I1 & I2 & I3 & _ & I5); [unfold p1, floor; cbn; red in Hq; lia|].
    split_and!; [done|cbn; split; [red in Hq; lia|done]| |done|].
    + apply Forall_cons_2; [cbn; split_and!; [done..|]; exists raw; split; [by left|done]|].
      apply (Forall_impl _ _ _ I3). intros x (? & ? & raw' & ? & ?). split_and!; [done..|].
      exists raw'. split; [by right|done].
    + rewrite I5. unfold p1. cbn [learnedChallenge update]. rewrite last_cons.
      by destruct (last acc).
  - destruct H as (E1 & E2 & E3 & _ & E5 & E6 & E7 & _). specialize (IH p1).
    rewrite E1, E2, E3, E5, E6, E7 in IH. specialize (IH Hs Hb Hf). destruct (handle_all l p1) as [p2 acc].
    destruct IH as (I1 & I2 & I3 & _ & I5). split_and!; [done..| |done|done].
    apply (Forall_impl _ _ _ I3). intros x (? & ? & raw' & ? & ?). split_and!; [done..|].
    exists raw'. split; [by right|done].
Qed.

Definition pcfg0 : ProberConfig :=
  mkProberConfig DefaultLossWindow (mkLivenessConfig DefaultDownAfter DefaultUpSuccesses 0).
Definition prober0 : Prober := NewProber 2 77 frame_props.psk1 pcfg0.
Definition echo0 : list Z :=
  match @EncodeWith frame_props.toy_cipher (Some (replicate 24 1)) frame_props.psk1
          (FProbe (frame.mkProbe 2 0 5 true 77 9 false 0 [])) with Ok w => w | _ => [] end.

Lemma prober_echoes_authentic_witness :
  let '(p', acc) := @handle_all frame_props.toy_cipher
    [(unixEpoch + 9, unixEpoch + 10, echo0); (unixEpoch + 11, unixEpoch + 12, echo0); (unixEpoch + 13, unixEpoch + 14, replicate 60 9)] prober0 in
  map (fun x => ProbeSeq (snd x)) acc = [0] /\
  live p' = RecordEcho (unixEpoch + 10) (live prober0).
Proof.
  assert (F : Forall (fun x => bytes_ok (snd x))
    [(unixEpoch + 9, unixEpoch + 10, echo0); (unixEpoch + 11, unixEpoch + 12, echo0); (unixEpoch + 13, unixEpoch + 14, replicate 60 9)]).
  { repeat (apply Forall_cons_2; [apply bytes_check; by vm_compute|]). apply Forall_nil_2. }
  pose proof (@prober_echoes_authentic frame_props.toy_cipher frame_props.toy_laws prober0 _ eq_refl F
    ltac:(cbn; lia)) as H.
  set (res := handle_all _ _) in *.
  assert (E : snd res = [(unixEpoch + 9, unixEpoch + 10, frame.mkProbe 2 0 5 true 77 9 false 0 [])])
    by (vm_compute; reflexivity).
  destruct res as [p' acc]. cbn [snd] in E. subst acc. destruct H as (H & _). split; [done|exact H].
Defined.

(** ** A restarted peer is readmitted *)
Section Recovery.
Context {C : Cipher} {L : CipherLaws C}.

Lemma bootstrap_verdict r path sid seq st : paths r !! path = Some st ->
  (adopted st = true -> sid <> session st) -> challenge st <> 0 ->
  acceptLocked path sid seq 0 r = (r, Ok (mkVerdict (challenge st) true ProbeBootstrap false)).
Proof.
  intros Hp Hn Hc. unfold acceptLocked, ensurePath. rewrite Hp.
  replace (adopted st && (sid =? session st)) with false.
  - by rewrite (proj2 (Z.eqb_neq 0 (challenge st))) by done.
  - destruct (adopted st); [|done]. cbn. by rewrite (proj2 (Z.eqb_neq _ _)) by auto.
Qed.

Lemma adoption_verdict r path sid seq st ch rnd : paths r !! path = Some st ->
  (adopted st = true -> sid <> session st) -> drawChallenge (rand r) = (rnd, Ok ch) ->
  let restarted := adopted st && (negb (haveRestartSession r) || negb (sid =? lastRestartSession r)) in
  exists r', acceptLocked path sid seq (challenge st) r = (r', Ok (mkVerdict ch true ProbeAdopted restarted)) /\
    rpsk r' = rpsk r /\ rand r' = rnd /\
    paths r' = <[path := mkReflectorPath sid (mkAntiReplay seq true) ch true]> (paths r).
Proof.
  intros Hp Hn Hd. unfold acceptLocked, ensurePath. rewrite Hp.
  assert (E : adopted st && (sid =? session st) = false /\
              adopted st && negb (sid =? session st) = adopted st).
  { destruct (adopted st); [|done]. cbn. by rewrite (proj2 (Z.eqb_neq _ _)) by auto. }
  destruct E as [-> ->]. rewrite Z.eqb_refl, Hd. cbn [haveRestartSession lastRestartSession update].
  destruct (adopted st && _); eexists; (split; [done|]); done.
Qed.

(** A probe sent, reflected and its echo handled, when the responder's verdict
    is to reflect. *)
Lemma round_trip (p : Prober) (r : Reflector) n1 n2 t1 t2 u2 r' v :
  IsSet (psk p) = true -> rpsk r = psk p -> length n1 = nonceLen -> length n2 = nonceLen ->
  is_byte (pathID p) -> is_u64 (sessionID p) -> is_u64 (nextSeq p) -> is_u64 (learnedChallenge p) ->
  unixEpoch <= t1 < unixEpoch + 2 ^ 62 -> 0 <= t2 - t1 <= 2 ^ 62 -> floor (guard p) <= nextSeq p ->
  acceptLocked (pathID p) (sessionID p) (nextSeq p) (learnedChallenge p) r = (r', Ok v) ->
  reflect v = true -> is_u64 (issued v) -> rpsk r' = rpsk r ->
  exists w e p',
    SendProbe (Some n1) t1 p = (p <| nextSeq := u64 (nextSeq p + 1) |>, Ok w) /\
    Reflect (Some n2) w r = (r', Ok (e, epochChanged v)) /\
    HandleEcho t2 u2 e (p <| nextSeq := u64 (nextSeq p + 1) |>) = (p', Ok ()) /\
    DecodeWith (psk p) w = Ok (FProbe (frame.mkProbe (pathID p) (nextSeq p) (UnixNano t1) false (sessionID p)
                                         (learnedChallenge p) false 0 [])) /\
    p' = p <| nextSeq := u64 (nextSeq p + 1) |> <| guard := mkAntiReplay (nextSeq p) true |>
           <| learnedChallenge := issued v |>
           <| est := ObserveRTT (t2 - t1) (ObserveProbeEcho (nextSeq p) (est p)) |>
           <| live := RecordEcho u2 (live p) |>.
Proof.
  intros Hs Hk Hn1 Hn2 Hid Hse Hq Hch Ht1 Ht2 Hfl Hacc Hr Hi Hk'.
  set (ts := UnixNano t1).
  assert (Ets : ts = t1 - unixEpoch).
  { unfold ts, UnixNano, i64. rewrite Z.mod_small; lia. }
  set (pr := frame.mkProbe (pathID p) (nextSeq p) ts false (sessionID p) (learnedChallenge p) false 0 []).
  set (ec := frame.mkProbe (pathID p) (nextSeq p) ts true (sessionID p) (issued v) false 0 []).
  assert (Hpr : frame_props.encodable (FProbe pr)).
  { split; [|done]. split_and!; cbn; try done; try (rewrite Ets; range); try range. constructor. }
  assert (Hec : frame_props.encodable (FProbe ec)).
  { split; [|done]. split_and!; cbn; try done; try (rewrite Ets; range); try range. constructor. }
  destruct (frame_props.oneshot_roundtrip (psk p) n1 _ Hs Hpr Hn1) as (w & Ew & Dw).
  destruct (frame_props.oneshot_roundtrip (psk p) n2 _ Hs Hec Hn2) as (e & Ee & De).
  exists w, e. eexists. split_and!.
  - unfold SendProbe, SendProbePayload, buildProbeLocked. cbn [psk update]. fold ts. by rewrite <- Ew.
  - unfold Reflect, AcceptProbe. rewrite Hk, Dw. cbn [PathID SessionID ProbeSeq Challenge pr].
    rewrite Hacc, Hr. cbn [negb AProbe EpochChanged ProbePayload]. unfold EncodeAcceptedProbe.
    rewrite Hk', Hk.
    match goal with |- context [EncodeWith (Some n2) _ ?f] => change f with (FProbe ec) end.
    by rewrite Ee.
  - unfold HandleEcho, HandleEchoProbe. cbn [psk update]. rewrite De. cbn [PathID SessionID ProbeSeq ec pathID sessionID].
    rewrite !Z.eqb_refl. cbn [negb guard update]. rewrite Accept_cases by apply Hq.
    rewrite (proj2 (Z.leb_le _ _)) by done. cbn [negb TimestampNanos Challenge ec].
    unfold Unix. rewrite Ets. replace (t1 - unixEpoch + unixEpoch) with t1 by lia.
    rewrite time_sub_small by lia. rewrite (proj2 (Z.ltb_ge _ _)) by lia. reflexivity.
  - exact Dw.
  - destruct p. reflexivity.
Qed.

Lemma duplicate_rejected r w n pr st : DecodeWith (rpsk r) w = Ok (FProbe pr) ->
  paths r !! PathID pr = Some st -> adopted st = true -> session st = SessionID pr ->
  0 <= ProbeSeq pr < floor (rguard st) -> snd (Reflect n w r) = Err ErrReplay.
Proof.
  intros D Hp Ha Hs Hq. unfold Reflect, AcceptProbe. rewrite D. unfold acceptLocked, ensurePath.
  rewrite Hp, Ha, Hs, Z.eqb_refl. cbn [andb]. rewrite Accept_cases by lia.
  by rewrite (proj2 (Z.leb_gt _ _)) by lia.
Qed.
End Recovery.

(** Restart recovery, over the encoded frames.  A peer that restarts with a
    new session is readmitted on a known path by its second probe: the first is
    reflected with the live challenge, the second carries it back and is
    adopted, the challenge is replaced, a restart is reported exactly when a
    different session held the path and this one was not reported before, and
    both probes are replays from then on.  The prober has two heartbeats and two
    round-trip samples, each the true elapsed time. *)
Theorem probe_restart_recovery {C : Cipher} {L : CipherLaws C} (k : Key) (id S : Z) (c : ProberConfig)
    (r : Reflector) (st : reflectorPath) (n1 n2 n3 n4 rnd : list Z) (ch t1 t2 u2 t3 t4 u4 : Z) :
  IsSet k = true -> rpsk r = k -> is_byte id -> is_u64 S ->
  Forall (fun n => length n = nonceLen) [n1; n2; n3; n4] ->
  paths r !! id = Some st -> (adopted st = true -> S <> session st) ->
  challenge st <> 0 -> is_u64 (challenge st) -> drawChallenge (rand r) = (rnd, Ok ch) -> is_u64 ch ->
  unixEpoch <= t1 <= t2 -> t2 <= t3 <= t4 -> t4 < unixEpoch + 2 ^ 62 ->
  let restarted := adopted st && (negb (haveRestartSession r) || negb (S =? lastRestartSession r)) in
  exists w1 e1 w2 e2 p1 p2 p3 p4 r2,
    SendProbe (Some n1) t1 (NewProber id S k c) = (p1, Ok w1) /\
    Reflect (Some n2) w1 r = (r, Ok (e1, false)) /\
    HandleEcho t2 u2 e1 p1 = (p2, Ok ()) /\
    SendProbe (Some n3) t3 p2 = (p3, Ok w2) /\
    Reflect (Some n4) w2 r = (r2, Ok (e2, restarted)) /\
    HandleEcho t4 u4 e2 p3 = (p4, Ok ()) /\
    paths r2 = <[id := mkReflectorPath S (mkAntiReplay 1 true) ch true]> (paths r) /\
    learnedChallenge p4 = ch /\
    live p4 = RecordEcho u4 (RecordEcho u2 (NewLiveness (LivenessCfg c))) /\
    est p4 = ObserveRTT (t4 - t3) (ObserveProbeEcho 1 (ObserveRTT (t2 - t1) (ObserveProbeEcho 0
               (NewEstimator (LossWindow c))))) /\
    (forall n, snd (Reflect n w1 r2) = Err ErrReplay /\ snd (Reflect n w2 r2) = Err ErrReplay).
Proof.
  intros Hs Hk Hid HS Hn Hp Hne Hc0 Hc Hd Hch T1 T2 T3 restarted.
  apply Forall_cons_1 in Hn as [Hn1 [Hn2 [Hn3 [Hn4 _]%Forall_cons_1]%Forall_cons_1]%Forall_cons_1].
  pose proof (round_trip (NewProber id S k c) r n1 n2 t1 t2 u2 r (mkVerdict (challenge st) true ProbeBootstrap false))
    as X. edestruct X as (w1 & e1 & p2 & S1 & R1 & H1 & D1 & E2); clear X;
    try first [done|by apply bootstrap_verdict|range].
  destruct (adoption_verdict r id S 1 st ch rnd Hp Hne Hd) as (r2 & A & Kr & _ & Pr). fold restarted in A.
  pose proof (round_trip p2 r n3 n4 t3 t4 u4 r2 (mkVerdict ch true ProbeAdopted restarted)) as X.
  rewrite E2 in X. edestruct X as (w2 & e2 & p4 & S2 & R2 & H2 & D2 & E4); clear X;
    try first [done|exact A|cbn; range].
  exists w1, e1, w2, e2. do 5 eexists. split_and!; [exact S1|exact R1|exact H1|rewrite E2; exact S2|exact R2|exact H2|exact Pr|..].
  1-3: by rewrite E4.
  assert (Pl : paths r2 !! id = Some (mkReflectorPath S (mkAntiReplay 1 true) ch true)).
  { by rewrite Pr, lookup_insert_eq. }
  intros n. split; eapply duplicate_rejected; rewrite ?Kr, ?Hk; [exact D1|exact Pl|done|done|cbn; lia| | | | |].
  - exact D2.
  - exact Pl.
  - done.
  - done.
  - change (0 <= 1 < 2). lia.
Qed.

Definition reflector3 : Reflector :=
  mkReflector frame_props.psk1 (be_put 8 42) {[ 2 := mkReflectorPath 5 (mkAntiReplay 100 true) 41 true ]} 0 false.

Lemma probe_restart_recovery_witness :
  exists w1 e1 w2 e2 p1 p2 p3 p4 r2,
    @SendProbe frame_props.toy_cipher (Some (replicate 24 1)) (unixEpoch + 1) (NewProber 2 77 frame_props.psk1 pcfg0)
      = (p1, Ok w1) /\
    @Reflect frame_props.toy_cipher (Some (replicate 24 2)) w1 reflector3 = (reflector3, Ok (e1, false)) /\
    @HandleEcho frame_props.toy_cipher (unixEpoch + 2) (unixEpoch + 2) e1 p1 = (p2, Ok ()) /\
    @SendProbe frame_props.toy_cipher (Some (replicate 24 3)) (unixEpoch + 3) p2 = (p3, Ok w2) /\
    @Reflect frame_props.toy_cipher (Some (replicate 24 4)) w2 reflector3 = (r2, Ok (e2, true)) /\
    @HandleEcho frame_props.toy_cipher (unixEpoch + 4) (unixEpoch + 4) e2 p3 = (p4, Ok ()).
Proof.
  destruct (@probe_restart_recovery frame_props.toy_cipher frame_props.toy_laws frame_props.psk1 2 77 pcfg0
    reflector3 (mkReflectorPath 5 (mkAntiReplay 100 true) 41 true) (replicate 24 1) (replicate 24 2)
    (replicate 24 3) (replicate 24 4) [] 42 (unixEpoch + 1) (unixEpoch + 2) (unixEpoch + 2) (unixEpoch + 3) (unixEpoch + 4) (unixEpoch + 4))
    as (w1 & e1 & w2 & e2 & p1 & p2 & p3 & p4 & r2 & H1 & H2 & H3 & H4 & H5 & H6 & _);
    try reflexivity; try range; try discriminate.
  - forall_done.
  - cbn. range.
  - exists w1, e1, w2, e2, p1, p2, p3, p4, r2. split_and!; assumption.
Defined.

End probe_props.
