(* ===== verification/Pmtu.v ===== *)
(** * Path-MTU discovery ([internal/telemetry]: pmtu.go, pmtuprobe.go)

    The search over padded-probe sizes and the machine that decides when to run
    it.  What the search drives, the source's interface [PMTUProbe], is a class
    over the state of the world a probe acts on; [EchoAwaitProbe] is the
    production implementation.  [Tick] is split where the source releases its
    lock: a roam may be notified while the search runs. *)

From stdpp Require Import base tactics list numbers gmap.
From S2P Require Import Prelude Sha256 Float64 Frame Telemetry Probe.

(** A probe of [onWire] bytes: was it answered, or did the transport fail? *)
Class PMTUProbe (W E : Type) := ProbePMTU : Z -> W -> W * outcome E bool.

Module pmtu.
Import telemetry.

Definition PMTUFloor : Z := 1280.
Definition defaultPMTUConfirmations : Z := 3.
Definition pmtuRejections : Z := 3.
Definition pmtuAttemptsPerConfirmation : Z := 5.

Record PMTUConfig := mkPMTUConfig {
  ConfiguredMTU : Z;
  DefaultMTU : Z;
  RefreshInterval : Duration;
  JunkHeadroom : Z;
  Confirmations : Z;
  SafetyMargin : Z
}.

Inductive pmtuState := pmtuUnstarted | pmtuSearching | pmtuConverged.
#[export] Instance pmtuState_eq_dec : EqDecision pmtuState.
Proof. solve_decision. Defined.

Record PMTUDiscovery := mkPMTUDiscovery {
  floor : Z;
  ceiling : Z;
  pinned : bool;
  refresh : Duration;
  junkHeadroom : Z;
  confirmations : Z;
  safetyMargin : Z;
  phase : pmtuState;
  discovered : Z;
  prevUp : bool;
  haveState : bool;
  reprobePending : bool;
  lastConverged : Time
}.
#[export] Instance eta_PMTUDiscovery : Eta PMTUDiscovery := fun d =>
  mkPMTUDiscovery (floor d) (ceiling d) (pinned d) (refresh d) (junkHeadroom d) (confirmations d)
    (safetyMargin d) (phase d) (discovered d) (prevUp d) (haveState d) (reprobePending d) (lastConverged d).

Definition NewPMTUDiscovery (cfg : PMTUConfig) : PMTUDiscovery :=
  let pinned := negb (ConfiguredMTU cfg =? 0) in
  let ceiling := DefaultMTU cfg in
  let ceiling := if pinned then ConfiguredMTU cfg else ceiling in
  let ceiling := if ceiling <? PMTUFloor then PMTUFloor else ceiling in
  let discovered := PMTUFloor in
  let discovered := if pinned then ceiling else discovered in
  let confirmations := Confirmations cfg in
  let confirmations := if confirmations <=? 0 then defaultPMTUConfirmations else confirmations in
  mkPMTUDiscovery PMTUFloor ceiling pinned (RefreshInterval cfg) (JunkHeadroom cfg) confirmations
    (SafetyMargin cfg) pmtuUnstarted discovered false false false 0.

Definition Pinned (d : PMTUDiscovery) : bool := pinned d.

Definition reportedLocked (d : PMTUDiscovery) : Z :=
  if pinned d || (safetyMargin d <=? 0) then discovered d
  else
    let reported := discovered d - safetyMargin d in
    if reported <? PMTUFloor then PMTUFloor else reported.

Definition PathMTU (d : PMTUDiscovery) : Z := reportedLocked d.

Definition PathMTUOrZero (d : PMTUDiscovery) : Z :=
  if pinned d || bool_decide (phase d = pmtuConverged) then reportedLocked d else 0.

Definition UsablePathMTU (d : PMTUDiscovery) : Z :=
  let usable := reportedLocked d - junkHeadroom d in
  if usable <? 0 then 0 else usable.

Definition NotifyRoam (d : PMTUDiscovery) : PMTUDiscovery := d <| reprobePending := true |>.

Definition decideLocked (state : PathState) (now : Time) (d : PMTUDiscovery) : PMTUDiscovery * bool :=
  let up := bool_decide (state = StateUp) in
  let d := if haveState d && negb (prevUp d) && up then d <| reprobePending := true |> else d in
  let d := d <| prevUp := up |> in
  let d := d <| haveState := true |> in
  if pinned d then (d, false)
  else
    let d := if bool_decide (phase d = pmtuConverged) && (0 <? refresh d) &&
                (refresh d <=? time_sub now (lastConverged d))
             then d <| reprobePending := true |> else d in
    if negb up then (d, false)
    else if negb (bool_decide (phase d = pmtuConverged)) || reprobePending d
    then (d <| reprobePending := false |> <| phase := pmtuSearching |>, true)
    else (d, false).

Section Search.
Context {W E : Type} {P : PMTUProbe W E}.

(** The attempts of one candidate, [n] left. *)
Fixpoint attempts (d : PMTUDiscovery) (mid control : Z) (n : nat) (consecutive rejections : Z) (w : W) :
    W * outcome E bool :=
  match n with
  | O => (w, Ok false)
  | S n =>
    match ProbePMTU mid w with
    | (w, Err e) => (w, Err e)
    | (w, Panic) => (w, Panic)
    | (w, Ok true) =>
      let consecutive := consecutive + 1 in
      if confirmations d <=? consecutive then (w, Ok true)
      else attempts d mid control n consecutive rejections w
    | (w, Ok false) =>
      let consecutive := 0 in
      match ProbePMTU control w with
      | (w, Err e) => (w, Err e)
      | (w, Panic) => (w, Panic)
      | (w, Ok false) => attempts d mid control n consecutive rejections w
      | (w, Ok true) =>
        let rejections := rejections + 1 in
        if pmtuRejections <=? rejections then (w, Ok false)
        else attempts d mid control n consecutive rejections w
      end
    end
  end.

Definition confirmCandidate (d : PMTUDiscovery) (mid control : Z) (w : W) : W * outcome E bool :=
  attempts d mid control (Z.to_nat (pmtuAttemptsPerConfirmation * confirmations d)) 0 0 w.

(** The loop [for lo < hi]; the window shrinks on every iteration, so its width
    bounds their number. *)
Fixpoint search_loop (d : PMTUDiscovery) (n : nat) (lo hi : Z) (w : W) : W * outcome E Z :=
  match n with
  | O => (w, Ok lo)
  | S n =>
    if lo <? hi then
      let mid := Z.quot (lo + hi + 1) 2 in
      match confirmCandidate d mid lo w with
      | (w, Err e) => (w, Err e)
      | (w, Panic) => (w, Panic)
      | (w, Ok true) => search_loop d n mid hi w
      | (w, Ok false) => search_loop d n lo (mid - 1) w
      end
    else (w, Ok lo)
  end.

Definition search (d : PMTUDiscovery) (w : W) : W * outcome E Z :=
  search_loop d (Z.to_nat (ceiling d - floor d)) (floor d) (ceiling d) w.

(** What [Tick] does with the result, under the lock again; [now] is read there. *)
Definition settle (pmtu : Z) (now : Time) (d : PMTUDiscovery) : PMTUDiscovery :=
  d <| discovered := pmtu |> <| phase := pmtuConverged |> <| lastConverged := now |>.

(** [roams]: whether [NotifyRoam] ran while the search did. *)
Definition TickDiscovery (state : PathState) (now now' : Time) (roams : bool) (d : PMTUDiscovery) (w : W) :
    PMTUDiscovery * W * outcome E unit :=
  let '(d, shouldSearch) := decideLocked state now d in
  if negb shouldSearch then (d, w, Ok ())
  else
    let '(w, res) := search d w in
    let d := if roams then NotifyRoam d else d in
    match res with
    | Err e => (d, w, Err e)
    | Panic => (d, w, Panic)
    | Ok pmtu => (settle pmtu now' d, w, Ok ())
    end.

End Search.

(** ** The production probe *)
Definition DefaultPMTUProbeDeadline : Duration := 1 * second.

Inductive probe_failure := ErrProbeTooLarge | ErrSend | ErrEncode (e : frame.error).

(** A waiter's channel has room for one signal: [pending] holds whether it is
    there. *)
Record EchoAwaitProbe := mkEchoAwaitProbe {
  prober : probe.Prober;
  outerIPUDPOverhead : Z;
  deadline : Duration;
  pending : gmap Z bool
}.
#[export] Instance eta_EchoAwaitProbe : Eta EchoAwaitProbe := fun e =>
  mkEchoAwaitProbe (prober e) (outerIPUDPOverhead e) (deadline e) (pending e).

Definition NewCadencedEchoAwaitProbe (p : probe.Prober) (overhead : Z) (d : Duration) :
    outcome probe_failure EchoAwaitProbe :=
  if overhead <=? 0 then Panic
  else
    let d := if d <=? 0 then DefaultPMTUProbeDeadline else d in
    Ok (mkEchoAwaitProbe p overhead d ∅).

Definition NotifyEcho (seq : Z) (e : EchoAwaitProbe) : EchoAwaitProbe :=
  match pending e !! seq with
  | None => e
  | Some _ => e <| pending := <[seq := true]> (pending e) |>
  end.

Definition register (seq : Z) (e : EchoAwaitProbe) : EchoAwaitProbe :=
  e <| pending := <[seq := false]> (pending e) |>.

Definition unregister (seq : Z) (e : EchoAwaitProbe) : EchoAwaitProbe :=
  e <| pending := delete seq (pending e) |>.

Section Await.
Context {C : Cipher}.

(** What the surroundings do during one call: the nonce and clock of the
    encoding, whether the dispatcher refuses to run the work, the result of the
    send, the echoes notified until the call returns, and whether the deadline's
    channel is chosen when both are ready. *)
Record surroundings := mkSurroundings {
  nonce : option (list Z);
  clock : Time;
  refused : option probe_failure;
  sendResult : option probe_failure;
  arrivals : list Z;
  deadlineWins : bool
}.

(** The work given to the dispatcher: the waiter's sequence, when one was
    registered, and the error. *)
Definition sendAttempt (s : surroundings) (pathMTU : Z) (e : EchoAwaitProbe) :
    EchoAwaitProbe * option Z * outcome probe_failure unit :=
  match refused s with
  | Some f => (e, None, Err f)
  | None =>
    let wireSize := pathMTU - outerIPUDPOverhead e in
    match probe.SendPaddedProbe (nonce s) (clock s) wireSize (prober e) with
    | (p, Err x) => (e <| prober := p |>, None, Err (ErrEncode x))
    | (p, Panic) => (e <| prober := p |>, None, Panic)
    | (p, Ok (raw, seq)) =>
      let e := register seq (e <| prober := p |>) in
      (e, Some seq, match sendResult s with Some f => Err f | None => Ok () end)
    end
  end.

Definition AwaitProbePMTU (s : surroundings) (pathMTU : Z) (e : EchoAwaitProbe) :
    EchoAwaitProbe * outcome probe_failure bool :=
  let '(e, ch, err) := sendAttempt s pathMTU e in
  match err with
  | Panic => (e, Panic)
  | Err f =>
    let e := match ch with Some seq => unregister seq e | None => e end in
    match f with
    | ErrProbeTooLarge =>
      (match ch with
       | Some seq => e <| prober := probe.ExcludePaddedProbeLoss seq (prober e) |>
       | None => e
       end, Ok false)
    | _ => (e, Err f)
    end
  | Ok _ =>
    let seq := default 0 ch in
    let e := foldl (fun e s => NotifyEcho s e) e (arrivals s) in
    if default false (pending e !! seq) && negb (deadlineWins s)
    then (unregister seq e, Ok true)
    else (unregister seq (e <| prober := probe.ExcludePaddedProbeLoss seq (prober e) |>), Ok false)
  end.

End Await.

(** The production implementation of the interface, its surroundings supplied
    call by call; calls beyond the script find the dispatcher stopped. *)
#[export] Instance EchoAwait_PMTUProbe {C : Cipher} :
  PMTUProbe (EchoAwaitProbe * list surroundings) probe_failure := fun onWire w =>
  match snd w with
  | [] => (w, Err ErrSend)
  | s :: rest => let '(e, o) := AwaitProbePMTU s onWire (fst w) in ((e, rest), o)
  end.

End pmtu.
