(* ===== verification/PmtuProps.v ===== *)
(** * What path-MTU discovery guarantees

    The search returns a size it confirmed and whose successor it rejected,
    within a bounded number of probes; the machine around it stays within its
    bounds and never loses a request to search again; the production probe
    answers for its own sequence only. *)

From stdpp Require Import base tactics list numbers gmap.
From S2P Require Import Prelude Sha256 Float64 Frame FrameProps Telemetry Probe Pmtu.

Module pmtu_props.
Import telemetry pmtu.

(** ** A probe that keeps a log of the answers *)
Definition answer {E} (s : Z) (o : outcome E bool) : list (Z * bool) :=
  match o with Ok b => [(s, b)] | _ => [] end.
Definition logged {W E} (P : PMTUProbe W E) : PMTUProbe (W * list (Z * bool)) E := fun s w =>
  let '(w', o) := P s (fst w) in ((w', snd w ++ answer s o), o).

(** The evidence behind a verdict on [m] with control size [c]: the log of its
    attempts ends in [n] answers in a row, or holds three answered controls or as
    many probes of [m] as one candidate may have. *)
Definition confirmed (n m : Z) (seg : list (Z * bool)) : Prop :=
  exists seg', seg = seg' ++ replicate (Z.to_nat n) (m, true).
Definition rejected (n m c : Z) (seg : list (Z * bool)) : Prop :=
  pmtuRejections <= count (fun x => bool_decide (x = (c, true))) seg \/
  pmtuAttemptsPerConfirmation * n <= count (fun x => fst x =? m) seg.

Lemma count_app {A} (f : A -> bool) l1 l2 : count f (l1 ++ l2) = count f l1 + count f l2.
Proof. induction l1 as [|x l1 IH]; cbn; [done|]. rewrite IH. lia. Qed.

Section Search.
Context {W E : Type} (P : PMTUProbe W E).
Implicit Types (w : W) (tr seg : list (Z * bool)).

(** The attempts of a candidate, from any point of them: what they logged so far
    is [pre], which ends in [k] answers in a row. *)
Definition attempted (d : PMTUDiscovery) (mid control : Z) (pre more : list (Z * bool)) (b : bool) : Prop :=
  Forall (fun x => fst x = mid \/ fst x = control) more /\
  if b then confirmed (confirmations d) mid (pre ++ more)
  else rejected (confirmations d) mid control (pre ++ more).

Lemma attempts_spec (d : PMTUDiscovery) mid control n : forall k r w tr pre,
  control < mid -> 0 <= k < confirmations d ->
  (exists pre', pre = pre' ++ replicate (Z.to_nat k) (mid, true)) ->
  r = count (fun x => bool_decide (x = (control, true))) pre ->
  count (fun x => fst x =? mid) pre + Z.of_nat n = pmtuAttemptsPerConfirmation * confirmations d ->
  match attempts (P := logged P) d mid control n k r (w, tr ++ pre) with
  | ((_, tr'), Ok b) => exists more, tr' = tr ++ pre ++ more /\ (length more <= 2 * n)%nat /\
      attempted d mid control pre more b
  | _ => True
  end.
Proof.
  induction n as [|n IH]; intros k r w tr pre Hlt Hk Hend Hr Hn; cbn [attempts].
  { exists []. rewrite app_nil_r. split_and!; [done|cbn; lia|]. split; [constructor|].
    rewrite app_nil_r. right. lia. }
  assert (Hstep : forall k' r' w' pre', control < mid -> 0 <= k' < confirmations d ->
    (exists q, pre ++ pre' = q ++ replicate (Z.to_nat k') (mid, true)) ->
    r' = count (fun x => bool_decide (x = (control, true))) (pre ++ pre') ->
    count (fun x => fst x =? mid) pre' = 1 -> (length pre' <= 2)%nat ->
    Forall (fun x => fst x = mid \/ fst x = control) pre' ->
    match attempts (P := logged P) d mid control n k' r' (w', (tr ++ pre) ++ pre') with
    | ((_, tr'), Ok b) => exists more, tr' = tr ++ pre ++ more /\ (length more <= 2 * S n)%nat /\
        attempted d mid control pre more b
    | _ => True
    end).
  { intros k' r' w' pre' _ Hk' Hq Hr' Hc Hl Hf. rewrite <- app_assoc.
    specialize (IH k' r' w' tr (pre ++ pre') Hlt Hk' Hq Hr'). rewrite count_app in IH.
    specialize (IH ltac:(lia)).
    destruct (attempts _ _ _ _ _ _ _) as [[w2 tr2] [b|e|]]; [|done|done].
    destruct IH as (more & -> & Hlen & [Hfm Hv]). exists (pre' ++ more). rewrite <- !app_assoc.
    split_and!; [done|rewrite length_app; lia|]. split; [by apply Forall_app|].
    rewrite <- app_assoc in Hv. exact Hv. }
  unfold ProbePMTU at 1. unfold logged at 1. cbn [fst snd].
  destruct (P mid w) as [w1 [[]|e|]]; cbn [answer]; [| |done|done].
  - destruct (Z.leb_spec (confirmations d) (k + 1)) as [Hdone|Hmore].
    + exists [(mid, true)]. rewrite <- app_assoc. split_and!; [done|cbn; lia|].
      split; [by repeat constructor; left|]. destruct Hend as (q & ->). exists q.
      rewrite <- app_assoc. f_equal. replace (confirmations d) with (k + 1) by lia.
      rewrite Z2Nat.inj_add, replicate_add by lia. done.
    + apply Hstep; [done|lia| | | |cbn; lia|by repeat constructor; left].
      * destruct Hend as (q & ->). exists q. rewrite <- app_assoc. f_equal.
        by rewrite Z2Nat.inj_add, replicate_add by lia.
      * rewrite count_app, <- Hr. cbn. rewrite bool_decide_false by (intros [=]; lia). lia.
      * cbn. rewrite Z.eqb_refl. lia.
  - unfold ProbePMTU at 1. unfold logged at 1. cbn [fst snd].
    destruct (P control w1) as [w2 [[]|e|]]; cbn [answer]; [| |done|done]; rewrite <- (app_assoc (tr ++ pre)).
    + set (pre' := [(mid, false)] ++ [(control, true)]).
      assert (Hc : count (fun x => bool_decide (x = (control, true))) (pre ++ pre') = r + 1).
      { rewrite count_app, <- Hr. cbn. rewrite bool_decide_false by (intros [=]; lia).
        rewrite bool_decide_true by done. lia. }
      assert (Hf : Forall (fun x : Z * bool => fst x = mid \/ fst x = control) pre').
      { apply Forall_cons_2; [by left|]. apply Forall_cons_2; [by right|]. apply Forall_nil_2. }
      destruct (Z.leb_spec pmtuRejections (r + 1)).
      * exists pre'. rewrite <- app_assoc. split_and!; [done|cbn; lia|]. split; [done|]. left. lia.
      * apply Hstep; [done|lia|by exists (pre ++ pre'); rewrite app_nil_r|done| |cbn; lia|done].
        cbn. rewrite Z.eqb_refl. rewrite (proj2 (Z.eqb_neq _ _)) by lia. lia.
    + apply Hstep; [done|lia|eexists; by rewrite app_nil_r| | |cbn; lia|].
      * rewrite count_app, <- Hr. cbn. rewrite !bool_decide_false by (intros [=]; lia). lia.
      * cbn. rewrite Z.eqb_refl. rewrite (proj2 (Z.eqb_neq _ _)) by lia. lia.
      * apply Forall_cons_2; [by left|]. apply Forall_cons_2; [by right|]. apply Forall_nil_2.
Qed.

(** A stretch of the log shows [Q]. *)
Definition shown (Q : list (Z * bool) -> Prop) (tr : list (Z * bool)) : Prop :=
  exists a seg b, tr = a ++ seg ++ b /\ Q seg.

Lemma shown_app Q tr more : shown Q tr -> shown Q (tr ++ more).
Proof. intros (a & seg & b & -> & H). exists a, seg, (b ++ more). by rewrite <- !app_assoc. Qed.

Lemma shown_last (Q : list (Z * bool) -> Prop) tr more : Q more -> shown Q (tr ++ more).
Proof. intros H. exists tr, more, []. by rewrite app_nil_r. Qed.

(** What justifies the two ends of the window. *)
Definition low_ok (d : PMTUDiscovery) (lo : Z) tr : Prop :=
  lo = floor d \/ shown (confirmed (confirmations d) lo) tr.
Definition high_ok (d : PMTUDiscovery) (hi : Z) tr : Prop :=
  hi = ceiling d \/ exists c, floor d <= c <= hi /\ shown (rejected (confirmations d) (hi + 1) c) tr.

Lemma low_ok_app d lo tr more : low_ok d lo tr -> low_ok d lo (tr ++ more).
Proof. intros [?|?]; [by left|right; by apply shown_app]. Qed.
Lemma high_ok_app d hi tr more : high_ok d hi tr -> high_ok d hi (tr ++ more).
Proof. intros [?|(c & ? & ?)]; [by left|right; exists c; split; [done|by apply shown_app]]. Qed.

Lemma search_loop_spec (d : PMTUDiscovery) : 1 <= confirmations d -> 0 <= floor d ->
  forall n j lo hi w tr, floor d <= lo <= hi -> hi <= ceiling d -> hi - lo <= Z.of_nat n -> hi - lo < 2 ^ Z.of_nat j ->
  low_ok d lo tr -> high_ok d hi tr ->
  match search_loop (P := logged P) d n lo hi (w, tr) with
  | ((_, tr'), Ok v) => exists more, tr' = tr ++ more /\ lo <= v <= hi /\ low_ok d v tr' /\ high_ok d v tr' /\
      Forall (fun x => lo <= fst x <= hi) more /\
      Z.of_nat (length more) <= 2 * (pmtuAttemptsPerConfirmation * confirmations d) * Z.of_nat j
  | _ => True
  end.
Proof.
  intros Hc Hf0. assert (Hstop : forall j lo hi w tr, lo = hi -> low_ok d lo tr -> high_ok d hi tr ->
    exists more, tr = tr ++ more /\ lo <= lo <= hi /\ low_ok d lo tr /\ high_ok d lo tr /\
      Forall (fun x => lo <= fst x <= hi) more /\
      Z.of_nat (length more) <= 2 * (pmtuAttemptsPerConfirmation * confirmations d) * Z.of_nat j).
  { intros j lo hi w tr -> Hl Hh. exists []. rewrite app_nil_r. split_and!; [done|lia|lia|done|done|constructor|].
    unfold pmtuAttemptsPerConfirmation. cbn [length]. nia. }
  induction n as [|n IH]; intros j lo hi w tr Hlo Hhi Hn Hj Hl Hh; cbn [search_loop].
  { apply (Hstop j lo hi w tr); [lia|done|done]. }
  destruct (Z.ltb_spec lo hi) as [Hlt|Hge]; [|apply (Hstop j lo hi w tr); [lia|done|done]].
  set (mid := Z.quot (lo + hi + 1) 2).
  assert (Hmid : lo < mid <= hi /\ 2 * (hi - mid) <= hi - lo /\ 2 * (mid - 1 - lo) <= hi - lo - 0).
  { unfold mid. rewrite Z.quot_div_nonneg by lia. Z.to_euclidean_division_equations. lia. }
  destruct j as [|j]; [cbn in Hj; lia|].
  rewrite Nat2Z.inj_succ, Z.pow_succ_r in Hj by lia.
  pose proof (attempts_spec d mid lo (Z.to_nat (pmtuAttemptsPerConfirmation * confirmations d)) 0 0 w tr []
    ltac:(lia) ltac:(lia) ltac:(by exists []) eq_refl ltac:(cbn [count]; unfold pmtuAttemptsPerConfirmation; lia)) as A.
  rewrite app_nil_r in A. unfold confirmCandidate.
  destruct (attempts _ _ _ _ _ _ _) as [[w1 tr1] [b|e|]]; [|done|done].
  destruct A as (seg & -> & Hlen & [Hsz Hv]). rewrite app_nil_l in *.
  assert (Hseg : Forall (fun x : Z * bool => lo <= fst x <= hi) seg).
  { apply (Forall_impl _ _ _ Hsz). intros x [->| ->]; lia. }
  assert (Hcat : forall lo' hi', lo <= lo' -> hi' <= hi ->
    match search_loop (P := logged P) d n lo' hi' (w1, tr ++ seg) with
    | ((_, tr'), Ok v) => exists more, tr' = (tr ++ seg) ++ more /\ lo' <= v <= hi' /\ low_ok d v tr' /\ high_ok d v tr' /\
        Forall (fun x => lo' <= fst x <= hi') more /\
        Z.of_nat (length more) <= 2 * (pmtuAttemptsPerConfirmation * confirmations d) * Z.of_nat j
    | _ => True
    end ->
    match search_loop (P := logged P) d n lo' hi' (w1, tr ++ seg) with
    | ((_, tr'), Ok v) => exists more, tr' = tr ++ more /\ lo <= v <= hi /\ low_ok d v tr' /\ high_ok d v tr' /\
        Forall (fun x => lo <= fst x <= hi) more /\
        Z.of_nat (length more) <= 2 * (pmtuAttemptsPerConfirmation * confirmations d) * Z.of_nat (S j)
    | _ => True
    end).
  { intros lo' hi' Hlo' Hhi'. destruct (search_loop _ _ _ _ _) as [[w2 tr2] [v|e|]]; [|done|done].
    intros (more & -> & Hv' & Hlv & Hhv & Hm & Hlm). exists (seg ++ more). rewrite app_assoc.
    split_and!; [done|lia|lia|done|done| |].
    - apply Forall_app. split; [done|]. apply (Forall_impl _ _ _ Hm). intros x ?. lia.
    - rewrite length_app. unfold pmtuAttemptsPerConfirmation in *. nia. }
  destruct b; apply Hcat; try lia; apply IH; try lia.
  - right. by apply shown_last.
  - by apply high_ok_app.
  - by apply low_ok_app.
  - right. exists lo. split; [lia|]. replace (mid - 1 + 1) with mid by lia. by apply shown_last.
Qed.
End Search.

(** The search, driven by any transport.  Whatever it returns was answered
    [confirmations] times in a row, unless it is the floor, and the next size was
    rejected, for three misses with the control answered or for want of attempts,
    unless it is the ceiling; all probes are of sizes in the window, and there
    are at most [2 * 5 * confirmations] of them per halving of it. *)
Theorem pmtu_search_justified {W E} (P : PMTUProbe W E) (d : PMTUDiscovery) (w : W) (w' : W)
    (tr : list (Z * bool)) (v : Z) (j : nat) :
  1 <= confirmations d -> 0 <= floor d <= ceiling d -> ceiling d - floor d < 2 ^ Z.of_nat j ->
  search (P := logged P) d (w, []) = ((w', tr), Ok v) ->
  floor d <= v <= ceiling d /\
  (v = floor d \/ shown (confirmed (confirmations d) v) tr) /\
  (v = ceiling d \/ exists c, floor d <= c <= v /\ shown (rejected (confirmations d) (v + 1) c) tr) /\
  Forall (fun x => floor d <= fst x <= ceiling d) tr /\
  Z.of_nat (length tr) <= 2 * (pmtuAttemptsPerConfirmation * confirmations d) * Z.of_nat j.
Proof.
  intros Hc Hf Hj E0. pose proof (search_loop_spec P d Hc ltac:(lia) (Z.to_nat (ceiling d - floor d)) j (floor d)
    (ceiling d) w [] ltac:(lia) ltac:(lia) ltac:(lia) Hj ltac:(by left) ltac:(by left)) as H.
  unfold search in E0. rewrite E0 in H. destruct H as (more & -> & Hv & Hl & Hh & Hm & Hlen). cbn [app] in *. done.
Qed.

(** A transport that carries exactly the sizes up to [m]. *)
Definition carries (m : Z) : PMTUProbe unit unit := fun s w => (w, Ok (s <=? m)).
Definition cfg1 : PMTUConfig := mkPMTUConfig 0 1500 0 0 0 0.
Definition disc1 : PMTUDiscovery := NewPMTUDiscovery cfg1.

Definition log1 : list (Z * bool) := snd (fst (search (P := logged (carries 1422)) disc1 (tt, []))).

Lemma pmtu_search_justified_witness :
  exists tr, search (P := logged (carries 1422)) disc1 (tt, []) = ((tt, tr), Ok 1422) /\
    shown (confirmed 3 1422) tr /\ Z.of_nat (length tr) <= 240.
Proof.
  assert (Hc : 1 <= confirmations disc1) by (change (1 <= 3); lia).
  assert (Hf : 0 <= floor disc1 <= ceiling disc1) by (change (0 <= 1280 <= 1500); lia).
  assert (Hj : ceiling disc1 - floor disc1 < 2 ^ Z.of_nat 8) by (change (220 < 256); lia).
  assert (E0 : search (P := logged (carries 1422)) disc1 (tt, []) = ((tt, log1), Ok 1422)) by (vm_compute; reflexivity).
  exists log1. split; [exact E0|].
  destruct (pmtu_search_justified (carries 1422) disc1 tt tt log1 1422 8 Hc Hf Hj E0)
    as (_ & [Hl|Hl] & _ & _ & Hn); [discriminate Hl|]. split; [exact Hl|exact Hn].
Defined.

(** ** Against a path of given size *)
Section Path.
Context {W E : Type} (P : PMTUProbe W E) (m : Z).

Lemma attempts_never (d : PMTUDiscovery) mid control n :
  (forall w, snd (P mid w) <> Ok true) -> forall k r w, snd (attempts d mid control n k r w) <> Ok true.
Proof.
  intros H. induction n as [|n IH]; intros k r w; cbn [attempts]; [done|].
  specialize (H w). unfold ProbePMTU. destruct (P mid w) as [w1 [[]|e|]]; cbn in *; [done| |done|done].
  destruct (P control w1) as [w2 [[]|e|]]; cbn; [|apply IH|done|done].
  destruct (pmtuRejections <=? r + 1); [done|apply IH].
Qed.

Lemma search_loop_never (d : PMTUDiscovery) : (forall s w, m < s -> snd (P s w) <> Ok true) ->
  forall n lo hi w v, snd (search_loop d n lo hi w) = Ok v -> v <= Z.max lo m.
Proof.
  intros H. induction n as [|n IH]; intros lo hi w v Hv; cbn [search_loop] in Hv; [simplify_eq/=; lia|].
  destruct (lo <? hi); [|simplify_eq/=; lia]. cbv zeta in Hv. set (mid := Z.quot (lo + hi + 1) 2) in *.
  destruct (confirmCandidate d mid lo w) as [w1 [[]|e|]] eqn:Ec; [| |done|done].
  - apply IH in Hv. destruct (Z.le_gt_cases mid m) as [?|Hgt]; [lia|].
    exfalso. apply (attempts_never d mid lo (Z.to_nat (pmtuAttemptsPerConfirmation * confirmations d)) ltac:(auto) 0 0 w).
    unfold confirmCandidate in Ec. by rewrite Ec.
  - by eapply IH.
Qed.

Hypothesis (fits : forall s w, s <= m -> snd (P s w) = Ok true).
Hypothesis (drops : forall s w, m < s -> snd (P s w) = Ok false).

Lemma attempts_fit (d : PMTUDiscovery) mid control n : mid <= m ->
  forall k r w, confirmations d - k <= Z.of_nat n -> k < confirmations d ->
  exists w', attempts d mid control n k r w = (w', Ok true).
Proof.
  intros Hm. induction n as [|n IH]; intros k r w Hn Hk; [lia|]. cbn [attempts].
  pose proof (fits mid w Hm) as H. unfold ProbePMTU. destruct (P mid w) as [w1 o]. cbn in H. subst o.
  destruct (Z.leb_spec (confirmations d) (k + 1)); [by eexists|]. apply IH; lia.
Qed.

Lemma attempts_drop (d : PMTUDiscovery) mid control n : m < mid ->
  forall k r w, exists w', attempts d mid control n k r w = (w', Ok false).
Proof.
  intros Hm. induction n as [|n IH]; intros k r w; cbn [attempts]; [by eexists|].
  pose proof (drops mid w Hm) as H. unfold ProbePMTU. destruct (P mid w) as [w1 o]. cbn in H. subst o.
  assert (H : snd (P control w1) = Ok true \/ snd (P control w1) = Ok false) by (destruct (Z.le_gt_cases control m); auto).
  destruct (P control w1) as [w2 o]. cbn in H. destruct H as [-> | ->]; [|apply IH].
  destruct (pmtuRejections <=? r + 1); [by eexists|apply IH].
Qed.

Lemma search_loop_exact (d : PMTUDiscovery) : 1 <= confirmations d ->
  forall n lo hi w, 0 <= lo <= hi -> hi - lo <= Z.of_nat n ->
  snd (search_loop d n lo hi w) = Ok (Z.max lo (Z.min m hi)).
Proof.
  intros Hc. induction n as [|n IH]; intros lo hi w Hlo Hn; cbn [search_loop]; [cbn; f_equal; lia|].
  destruct (Z.ltb_spec lo hi); [|cbn; f_equal; lia]. set (mid := Z.quot (lo + hi + 1) 2).
  assert (Hmid : lo < mid <= hi).
  { unfold mid. rewrite Z.quot_div_nonneg by lia. Z.to_euclidean_division_equations. lia. }
  unfold confirmCandidate. destruct (Z.le_gt_cases mid m).
  - destruct (attempts_fit d mid lo (Z.to_nat (pmtuAttemptsPerConfirmation * confirmations d)) ltac:(done) 0 0 w)
      as (w1 & ->); [unfold pmtuAttemptsPerConfirmation; lia|lia|]. rewrite IH by lia. f_equal. lia.
  - destruct (attempts_drop d mid lo (Z.to_nat (pmtuAttemptsPerConfirmation * confirmations d)) ltac:(lia) 0 0 w)
      as (w1 & ->). rewrite IH by lia. f_equal. lia.
Qed.
End Path.

(** C38. The search of a discovery with a floor and a ceiling, against a path that
    answers nothing larger than [m], whatever else it loses: the result is never
    above [m], except that it is never below the floor, which the code takes as
    given and does not probe; and if the path answers everything up to [m], the
    result is exactly [m], cut to the ceiling and raised to the floor. *)
Theorem pmtu_search_exact {W E} (P : PMTUProbe W E) (m : Z) (d : PMTUDiscovery) (w : W) :
  1 <= confirmations d -> 0 <= floor d <= ceiling d ->
  ((forall s w, m < s -> snd (P s w) <> Ok true) -> forall v, snd (search d w) = Ok v -> v <= Z.max (floor d) m) /\
  ((forall s w, s <= m -> snd (P s w) = Ok true) -> (forall s w, m < s -> snd (P s w) = Ok false) ->
   snd (search d w) = Ok (Z.max (floor d) (Z.min m (ceiling d)))).
Proof.
  intros Hc Hf. split.
  - intros H v. apply (search_loop_never P m d H).
  - intros Hfit Hdrop. apply (search_loop_exact P m Hfit Hdrop d Hc); lia.
Qed.

(** A path of 1422 bytes, and one below the floor. *)
Lemma pmtu_search_exact_witness :
  snd (@search _ _ (carries 1422) disc1 tt) = Ok 1422 /\ snd (@search _ _ (carries 1200) disc1 tt) = Ok 1280.
Proof.
  assert (Hc : 1 <= confirmations disc1) by (change (1 <= 3); lia).
  assert (Hf : 0 <= floor disc1 <= ceiling disc1) by (change (0 <= 1280 <= 1500); lia).
  split.
  - destruct (pmtu_search_exact (carries 1422) 1422 disc1 tt Hc Hf) as [_ H].
    apply H; intros s w Hs; unfold carries; cbn; f_equal; lia.
  - destruct (pmtu_search_exact (carries 1200) 1200 disc1 tt Hc Hf) as [_ H].
    apply H; intros s w Hs; unfold carries; cbn; f_equal; lia.
Defined.

(** ** The machine *)
Section Machine.
Context {W E : Type} {P : PMTUProbe W E}.

(** What may happen to a path's discovery: a tick, with the clock before and
    after its search and whether the endpoint roamed during it, or a roam. *)
Inductive occurrence := OTick (state : PathState) (now now' : Time) (roams : bool) | ORoam.

Definition occur (s : PMTUDiscovery * W) (o : occurrence) : PMTUDiscovery * W :=
  match o with
  | OTick state now now' roams => fst (TickDiscovery state now now' roams (fst s) (snd s))
  | ORoam => (NotifyRoam (fst s), snd s)
  end.

Record in_bounds (cfg : PMTUConfig) (w0 : W) (s : PMTUDiscovery * W) : Prop := mkInBounds {
  ib_fixed : floor (fst s) = PMTUFloor /\ ceiling (fst s) = ceiling (NewPMTUDiscovery cfg) /\
    pinned (fst s) = negb (ConfiguredMTU cfg =? 0) /\ confirmations (fst s) = confirmations (NewPMTUDiscovery cfg) /\
    safetyMargin (fst s) = SafetyMargin cfg /\ junkHeadroom (fst s) = JunkHeadroom cfg;
  ib_range : PMTUFloor <= discovered (fst s) <= ceiling (fst s);
  ib_pinned : pinned (fst s) = true -> discovered (fst s) = ceiling (fst s) /\ snd s = w0
}.

Lemma NewPMTU_shape cfg : let d := NewPMTUDiscovery cfg in
  1 <= confirmations d /\ floor d = PMTUFloor /\ PMTUFloor <= ceiling d /\
  ceiling d = Z.max PMTUFloor (if ConfiguredMTU cfg =? 0 then DefaultMTU cfg else ConfiguredMTU cfg).
Proof.
  unfold NewPMTUDiscovery, PMTUFloor, defaultPMTUConfirmations. cbn.
  destruct (ConfiguredMTU cfg =? 0); cbn; repeat case_match; lia.
Qed.

Lemma search_range d w v : 1 <= confirmations d -> 0 <= floor d <= ceiling d ->
  snd (search d w) = Ok v -> floor d <= v <= ceiling d.
Proof.
  intros Hc Hf. unfold search.
  assert (G : forall n lo hi w, floor d <= lo <= hi -> hi <= ceiling d -> snd (search_loop d n lo hi w) = Ok v ->
    floor d <= v <= ceiling d).
  { induction n as [|n IH]; intros lo hi w0 Hlo Hhi Hv; cbn [search_loop] in Hv; [simplify_eq/=; lia|].
    destruct (Z.ltb_spec lo hi); [|simplify_eq/=; lia]. cbv zeta in Hv. set (mid := Z.quot (lo + hi + 1) 2) in *.
    assert (lo < mid <= hi).
    { unfold mid. rewrite Z.quot_div_nonneg by lia. Z.to_euclidean_division_equations. lia. }
    destruct (confirmCandidate d mid lo w0) as [w1 [[]|e|]]; [| |done|done]; eapply IH in Hv; lia. }
  apply G; lia.
Qed.

(** What [decideLocked] leaves alone. *)
Lemma decide_frame state now d : let '(d', b) := decideLocked state now d in
  floor d' = floor d /\ ceiling d' = ceiling d /\ pinned d' = pinned d /\ confirmations d' = confirmations d /\
  safetyMargin d' = safetyMargin d /\ junkHeadroom d' = junkHeadroom d /\ discovered d' = discovered d /\
  (b = true -> pinned d = false /\ state = StateUp).
Proof.
  unfold decideLocked. destruct (bool_decide_reflect (state = StateUp)), (haveState d && negb (prevUp d)), (pinned d) eqn:Ep;
    cbn; rewrite ?Ep; cbn; repeat case_match; simplify_eq/=; split_and!; done.
Qed.

Lemma occur_bounds cfg w0 s o : in_bounds cfg w0 s -> in_bounds cfg w0 (occur s o).
Proof.
  destruct s as [d w]. intros [Hx Hr Hp]. cbn [fst snd] in *.
  destruct o as [state now now' roams|]; [|by split].
  cbn [occur fst snd]. unfold TickDiscovery. pose proof (decide_frame state now d) as D.
  destruct (decideLocked state now d) as [d1 b].
  destruct D as (Df & Dc & Dp & Dn & Ds & Dj & Dd & Db). destruct (NewPMTU_shape cfg) as (Nc & _ & _ & _).
  assert (B1 : in_bounds cfg w0 (d1, w)).
  { split; cbn [fst snd]; rewrite ?Df, ?Dc, ?Dp, ?Dn, ?Ds, ?Dj, ?Dd; done. }
  destruct b; [|exact B1]. cbn [negb]. destruct (Db eq_refl) as [Hnp _]. clear B1.
  destruct (search d1 w) as [w1 res] eqn:Es. destruct Hx as (X1 & X2 & X3 & X4 & X5 & X6).
  assert (Hv : forall v, res = Ok v -> PMTUFloor <= v <= ceiling d).
  { intros v ->. pose proof (search_range d1 w v) as G. rewrite Es, Df, Dc, Dn in G. cbn [snd] in G.
    rewrite X1, X4 in G. apply G; [done|unfold PMTUFloor in *; lia|done]. }
  destruct res as [v|e|]; destruct roams; cbn; (split; cbn;
    [by rewrite Df, Dc, Dp, Dn, Ds, Dj|rewrite ?Dc, ?Dd; first [by apply Hv|done]|rewrite ?Dp; congruence]).
Qed.

Lemma occur_run cfg w0 os : in_bounds cfg w0 (foldl occur (NewPMTUDiscovery cfg, w0) os).
Proof.
  induction os as [|o os IH] using rev_ind; [|rewrite foldl_snoc; by apply occur_bounds].
  destruct (NewPMTU_shape cfg) as (_ & Hf & Hc & Ec). split; [done| |].
  - cbn [fst foldl]. unfold NewPMTUDiscovery in *. cbn in *. destruct (ConfiguredMTU cfg =? 0); cbn in *; lia.
  - cbn [fst snd foldl]. unfold NewPMTUDiscovery. cbn. by intros ->.
Qed.

End Machine.

(** Over any history of ticks and roams, with any transport: the reported
    path MTU stays between the floor and the configured or default MTU (raised to
    the floor); a pinned path reports its declared MTU and never sends a probe;
    a tick on a down path sends none; and the usable size never exceeds the
    reported one. *)
Theorem pmtu_reports_in_bounds {W E} {P : PMTUProbe W E} (cfg : PMTUConfig) (w0 : W) (os : list occurrence) :
  let '(d, w) := foldl occur (NewPMTUDiscovery cfg, w0) os in
  let top := Z.max PMTUFloor (if ConfiguredMTU cfg =? 0 then DefaultMTU cfg else ConfiguredMTU cfg) in
  PMTUFloor <= PathMTU d <= top /\
  (ConfiguredMTU cfg <> 0 -> PathMTU d = top /\ PathMTUOrZero d = top /\ w = w0) /\
  (forall now now' roams, snd (fst (TickDiscovery StateDown now now' roams d w)) = w) /\
  (PathMTUOrZero d = 0 \/ PathMTUOrZero d = PathMTU d) /\
  0 <= UsablePathMTU d /\ (0 <= JunkHeadroom cfg -> UsablePathMTU d <= PathMTU d).
Proof.
  pose proof (occur_run cfg w0 os) as B. destruct (foldl occur _ os) as [d w]. destruct B as [Hx Hr Hp].
  cbn [fst snd] in *. destruct Hx as (X1 & X2 & X3 & X4 & X5 & X6). destruct (NewPMTU_shape cfg) as (_ & _ & _ & Ec).
  cbv zeta. set (top := Z.max _ _) in *. rewrite X2, Ec in *.
  assert (Hrep : PMTUFloor <= PathMTU d <= top).
  { unfold PathMTU, reportedLocked. destruct (pinned d || _) eqn:Eb; [done|].
    apply orb_false_iff in Eb as [_ Eb]. repeat case_match; unfold PMTUFloor in *; lia. }
  split_and!; [lia|lia| | | | |].
  - intros Hne. rewrite X3, (proj2 (Z.eqb_neq _ _)) in Hp by done. destruct (Hp eq_refl) as [Hd ->].
    unfold PathMTU, PathMTUOrZero, reportedLocked. rewrite X3, (proj2 (Z.eqb_neq _ _)) by done. done.
  - intros now now' roams. unfold TickDiscovery. pose proof (decide_frame StateDown now d) as D.
    destruct (decideLocked StateDown now d) as [d1 []]; [|done]. destruct D as (_ & _ & _ & _ & _ & _ & _ & D).
    by destruct (D eq_refl).
  - unfold PathMTUOrZero, PathMTU. destruct (_ || _); [by right|by left].
  - unfold UsablePathMTU. cbv zeta. case_match; lia.
  - intros Hj. unfold UsablePathMTU. fold (PathMTU d). rewrite X6. cbv zeta.
    case_match; unfold PMTUFloor in *; lia.
Qed.

(** *** A roam is never lost *)
Section Roam.
Context {W E : Type} {P : PMTUProbe W E}.

Lemma search_ext (d d' : PMTUDiscovery) w : floor d' = floor d -> ceiling d' = ceiling d ->
  confirmations d' = confirmations d -> search d' w = search d w.
Proof.
  intros Ef Ec En. unfold search. rewrite Ef, Ec. generalize (Z.to_nat (ceiling d - floor d)) as n.
  generalize (floor d) as lo. generalize (ceiling d) as hi. intros hi lo n. revert lo hi w.
  assert (A : forall mid control n k r w, attempts d' mid control n k r w = attempts d mid control n k r w).
  { intros mid control. induction n0 as [|n0 IH]; intros k r w; [done|]. cbn [attempts]. rewrite En.
    destruct (ProbePMTU mid w) as [w1 [[]|e|]]; [by case_match| |done|done].
    destruct (ProbePMTU control w1) as [w2 [[]|e|]]; [by case_match|done|done|done]. }
  induction n as [|n IH]; intros lo hi w; [done|]. cbn [search_loop]. unfold confirmCandidate. rewrite En, A.
  case_match; [|done]. destruct (attempts _ _ _ _ _ _ _) as [w1 [[]|e|]]; done.
Qed.

Lemma tick_pending (d : PMTUDiscovery) w now now' roams : pinned d = false ->
  (reprobePending d = true \/ phase d <> pmtuConverged) ->
  let '(d', w', o) := TickDiscovery StateUp now now' roams d w in
  w' = fst (search d w) /\ pinned d' = false /\ reprobePending d' = roams /\
  match snd (search d w) with
  | Ok v => o = Ok () /\ discovered d' = v /\ phase d' = pmtuConverged
  | Err e => o = Err e /\ discovered d' = discovered d /\ phase d' = pmtuSearching
  | Panic => o = Panic
  end.
Proof.
  intros Hp Hd. unfold TickDiscovery.
  assert (D : exists d1, decideLocked StateUp now d = (d1, true) /\ floor d1 = floor d /\ ceiling d1 = ceiling d /\
    confirmations d1 = confirmations d /\ pinned d1 = false /\ reprobePending d1 = false /\
    discovered d1 = discovered d /\ phase d1 = pmtuSearching).
  { unfold decideLocked. rewrite (bool_decide_true (StateUp = StateUp)) by done.
    set (d1 := if haveState d && _ && _ then _ else d). cbv zeta.
    assert (F1 : floor d1 = floor d /\ ceiling d1 = ceiling d /\ confirmations d1 = confirmations d /\
      pinned d1 = false /\ discovered d1 = discovered d /\ phase d1 = phase d /\
      (reprobePending d1 = true \/ phase d <> pmtuConverged)).
    { subst d1. destruct (haveState d && _ && _); cbn; naive_solver. }
    clearbody d1. destruct F1 as (F1 & F2 & F3 & F4 & F5 & F6 & F7).
    cbn [pinned phase refresh lastConverged update prevUp haveState]. rewrite F4.
    set (d2 := if bool_decide _ && _ && _ then _ else _).
    assert (F : floor d2 = floor d /\ ceiling d2 = ceiling d /\ confirmations d2 = confirmations d /\
      pinned d2 = false /\ discovered d2 = discovered d /\ (reprobePending d2 = true \/ phase d2 <> pmtuConverged)).
    { subst d2. destruct (bool_decide _ && _ && _); cbn; rewrite ?F6; naive_solver. }
    clearbody d2. destruct F as (G1 & G2 & G3 & G4 & G5 & G6). cbn [negb].
    replace (negb (bool_decide (phase d2 = pmtuConverged)) || reprobePending d2) with true.
    - by eexists.
    - destruct G6 as [->|?]; [by rewrite orb_true_r|by rewrite bool_decide_false]. }
  destruct D as (d1 & -> & Ef & Ec & En & Ep & Er & Ed & Es). cbn [negb].
  rewrite (search_ext d d1) by done. destruct (search d w) as [w1 [v|e|]]; destruct roams; cbn; done.
Qed.

Lemma down_ticks_keep (ts : list Time) : forall d (w : W), pinned d = false ->
  (reprobePending d = true \/ phase d <> pmtuConverged) ->
  let '(d', w') := foldl occur (d, w) (map (fun t => OTick StateDown t t false) ts) in
  w' = w /\ pinned d' = false /\ (reprobePending d' = true \/ phase d' <> pmtuConverged) /\
  floor d' = floor d /\ ceiling d' = ceiling d /\ confirmations d' = confirmations d.
Proof.
  induction ts as [|t ts IH]; intros d w Hp Hd; [done|]. cbn [map foldl occur fst snd].
  assert (T : exists d1, TickDiscovery StateDown t t false d w = (d1, w, Ok ()) /\ pinned d1 = false /\
    (reprobePending d1 = true \/ phase d1 <> pmtuConverged) /\
    floor d1 = floor d /\ ceiling d1 = ceiling d /\ confirmations d1 = confirmations d).
  { unfold TickDiscovery, decideLocked. rewrite (bool_decide_false (StateDown = StateUp)) by done.
    rewrite andb_false_r. cbn. rewrite Hp. cbn. eexists. split; [done|]. by case_match; cbn; rewrite ?Hp; auto. }
  destruct T as (d1 & -> & Hp1 & Hd1 & E1 & E2 & E3). cbn [fst]. specialize (IH d1 w Hp1 Hd1).
  destruct (foldl occur _ _) as [d' w']. by rewrite E1, E2, E3 in IH.
Qed.
End Roam.

(** No request to measure again is lost.  On an unpinned path, once the
    endpoint roamed or the path is not converged, any number of ticks while it is
    down keep the request, and the first tick on the path up runs the search: it
    adopts the size found, or returns the transport's error and will search
    again; and a roam notified while that search runs is kept for the next one. *)
Theorem pmtu_roam_not_lost {W E} {P : PMTUProbe W E} (d : PMTUDiscovery) (w : W) (ts : list Time)
    (now now' : Time) (roams : bool) :
  pinned d = false -> (reprobePending d = true \/ phase d <> pmtuConverged) ->
  let '(d1, w1) := foldl occur (d, w) (map (fun t => OTick StateDown t t false) ts) in
  let '(d', w', o) := TickDiscovery StateUp now now' roams d1 w1 in
  w' = fst (search d w) /\ reprobePending d' = roams /\
  match snd (search d w) with
  | Ok v => o = Ok () /\ discovered d' = v /\ PathMTUOrZero d' = PathMTU d'
  | Err e => o = Err e /\ phase d' = pmtuSearching
  | Panic => o = Panic
  end.
Proof.
  intros Hp Hd. pose proof (down_ticks_keep ts d w Hp Hd) as K. destruct (foldl occur _ _) as [d1 w1].
  destruct K as (-> & Hp1 & Hd1 & E1 & E2 & E3). pose proof (tick_pending d1 w now now' roams Hp1 Hd1) as T.
  rewrite (search_ext d d1) in T by done. destruct (TickDiscovery _ _ _ _ _ _) as [[d' w'] o].
  destruct T as (-> & Hp' & -> & T). split_and!; [done..|]. destruct (snd (search d w)) as [v|e|]; [|tauto|done].
  destruct T as (-> & -> & Ep). split_and!; [done..|]. unfold PathMTUOrZero. rewrite Ep, orb_comm.
  by rewrite bool_decide_true.
Qed.

Lemma pmtu_roam_not_lost_witness :
  discovered (fst (fst (@TickDiscovery _ _ (carries 1422) StateUp 9 10 false (NotifyRoam disc1) tt))) = 1422.
Proof.
  pose proof (@pmtu_roam_not_lost _ _ (carries 1422) (NotifyRoam disc1) tt [] 9 10 false eq_refl (or_introl eq_refl)) as H.
  cbn [foldl map] in H. destruct (TickDiscovery _ _ _ _ _ _) as [[d' w'] o].
  destruct H as (_ & _ & H). replace (snd (search (NotifyRoam disc1) tt)) with (Ok (E := unit) 1422) in H
    by (vm_compute; reflexivity).
  exact (proj1 (proj2 H)).
Defined.

(** A converged path is reported as unknown again while it is measured anew:
    when a re-measurement fails on the transport, [PathMTUOrZero] goes back to 0
    although a size was discovered before and [PathMTU] still reports it. *)
Theorem pmtu_zero_on_remeasure {W E} {P : PMTUProbe W E} (d : PMTUDiscovery) (w : W) (now now' : Time) (e : E) :
  pinned d = false -> phase d = pmtuConverged -> reprobePending d = true -> snd (search d w) = Err e ->
  let '(d', _, _) := TickDiscovery StateUp now now' false d w in
  PathMTUOrZero d = PathMTU d /\ PathMTUOrZero d' = 0 /\ discovered d' = discovered d.
Proof.
  intros Hp Hc Hr Hs. pose proof (tick_pending d w now now' false Hp (or_introl Hr)) as T. rewrite Hs in T.
  destruct (TickDiscovery _ _ _ _ _ _) as [[d' w'] o]. destruct T as (_ & Hp' & _ & _ & Hd & Hph).
  unfold PathMTUOrZero. rewrite Hp, Hp', Hc, Hph. cbn [orb].
  rewrite bool_decide_true by done. rewrite bool_decide_false by done. done.
Qed.

Definition failing : PMTUProbe unit unit := fun _ w => (w, Err ()).
Definition disc2 : PMTUDiscovery := NotifyRoam (settle 1422 5 disc1).

Lemma pmtu_zero_on_remeasure_witness :
  PathMTUOrZero disc2 = 1422 /\
  PathMTUOrZero (fst (fst (@TickDiscovery _ _ failing StateUp 9 10 false disc2 tt))) = 0.
Proof.
  pose proof (@pmtu_zero_on_remeasure _ _ failing disc2 tt 9 10 () eq_refl eq_refl eq_refl eq_refl) as H.
  destruct (TickDiscovery _ _ _ _ _ _) as [[d' w'] o]. destruct H as (H1 & H2 & _). split; [exact H1|exact H2].
Defined.

(** ** The production probe *)
Section Await.
Context {C : Cipher}.

Lemma notify_prober l : forall e, prober (foldl (fun e s => NotifyEcho s e) e l) = prober e /\
  outerIPUDPOverhead (foldl (fun e s => NotifyEcho s e) e l) = outerIPUDPOverhead e.
Proof.
  induction l as [|s l IH]; intros e; cbn [foldl]; [done|]. rewrite !(proj1 (IH _)), !(proj2 (IH _)).
  unfold NotifyEcho. by destruct (pending e !! s).
Qed.

(** Notifications fill the waiters that exist and create none. *)
Lemma notify_pending l : forall e seq,
  pending (foldl (fun e s => NotifyEcho s e) e l) !! seq =
  (b ← pending e !! seq; Some (b || bool_decide (seq ∈ l))).
Proof.
  induction l as [|s l IH]; intros e seq; cbn [foldl].
  - rewrite bool_decide_false by apply not_elem_of_nil. destruct (pending e !! seq) as [[]|]; done.
  - rewrite IH. unfold NotifyEcho. destruct (pending e !! s) as [c|] eqn:Es; cbn.
    + destruct (decide (s = seq)) as [->|Hne].
      * rewrite lookup_insert_eq, Es. cbn. rewrite (bool_decide_true (seq ∈ seq :: l)) by by left.
        by rewrite orb_true_r.
      * rewrite lookup_insert_ne by done. destruct (pending e !! seq); [|done]. cbn. do 2 f_equal.
        apply bool_decide_ext. rewrite elem_of_cons. naive_solver.
    + destruct (pending e !! seq) eqn:Eq; [|done]. cbn. do 2 f_equal. apply bool_decide_ext.
      rewrite elem_of_cons. split; [by right|]. intros [->|?]; [congruence|done].
Qed.

Lemma SendPadded_seq rnd now onWire p : let '(p', o) := probe.SendPaddedProbe rnd now onWire p in
  (forall raw seq, o = Ok (raw, seq) -> seq = probe.nextSeq p) /\
  probe.est p' = probe.est p /\ probe.live p' = probe.live p.
Proof.
  unfold probe.SendPaddedProbe, probe.buildProbeLocked.
  destruct (frame.PadLenForOnWire onWire) as [pad|e|]; [|done|done]. cbn.
  split; [|done]. intros raw seq. destruct (frame.EncodeWith _ _ _); cbn; congruence.
Qed.
End Await.

(** A padded probe's answer is its own echo's.  With no waiter left behind
    under the sequence it will use, the call returns true only if that sequence
    was notified, and does so whenever it was sent, notified and the deadline did
    not win; the table of waiters is as before, liveness is untouched, and a size
    that did not answer is marked in the loss window so the search costs no loss. *)
Theorem await_answers_own_echo {C : Cipher} (s : surroundings) (pathMTU : Z) (e : EchoAwaitProbe) :
  pending e = ∅ ->
  let seq := probe.nextSeq (prober e) in
  let '(e', o) := AwaitProbePMTU s pathMTU e in
  pending e' = ∅ /\ probe.live (prober e') = probe.live (prober e) /\
  match o with
  | Ok true => seq ∈ arrivals s /\ deadlineWins s = false /\ probe.est (prober e') = probe.est (prober e)
  | Ok false => (refused s = Some ErrProbeTooLarge \/
      probe.est (prober e') = ObserveProbeEcho seq (probe.est (prober e))) /\
      (sendResult s = None -> seq ∈ arrivals s -> refused s = None -> deadlineWins s = true)
  | _ => probe.est (prober e') = probe.est (prober e)
  end.
Proof.
  intros Hn. cbv zeta. unfold AwaitProbePMTU, sendAttempt.
  destruct (refused s) as [[]|] eqn:Er; [by split_and!; auto; congruence..|].
  pose proof (SendPadded_seq (nonce s) (clock s) (pathMTU - outerIPUDPOverhead e) (prober e)) as S.
  destruct (probe.SendPaddedProbe _ _ _ _) as [p o]. destruct S as (Sq & Se & Sl).
  destruct o as [[raw seq]|x|]; [|by cbn; rewrite Se..]. rewrite (Sq _ _ eq_refl). clear Sq raw.
  set (q := probe.nextSeq (prober e)) in *. clearbody q. cbv zeta beta iota.
  assert (Hdel : forall b, delete q (<[q := b]> (pending e)) = ∅ :> gmap Z bool).
  { intros b. rewrite Hn. apply map_eq. intros i. rewrite lookup_empty.
    destruct (decide (i = q)) as [->|Hne]; [apply lookup_delete_eq|].
    by rewrite lookup_delete_ne, lookup_insert_ne by done. }
  destruct (sendResult s) as [f|] eqn:Esend.
  { destruct f; cbn; rewrite Hdel, ?Se, ?Sl; split_and!; auto; congruence. }
  set (e1 := register q (e <| prober := p |>)). pose proof (notify_prober (arrivals s) e1) as [Np _].
  pose proof (notify_pending (arrivals s) e1) as Nq. cbn [default from_option id].
  set (e2 := foldl _ e1 _) in *. clearbody e2.
  assert (Hq : pending e2 = {[ q := bool_decide (q ∈ arrivals s) ]}).
  { apply map_eq. intros i. rewrite Nq. unfold e1. cbn [pending register update]. rewrite Hn.
    destruct (decide (i = q)) as [->|Hne]; [by rewrite lookup_insert_eq, lookup_singleton_eq|].
    by rewrite lookup_insert_ne, lookup_empty, lookup_singleton_ne by done. }
  assert (Hd : delete q (pending e2) = ∅ :> gmap Z bool) by (rewrite Hq; apply delete_singleton_eq).
  unfold unregister. cbn [pending prober update]. rewrite Hq, lookup_singleton_eq. cbn [default from_option id].
  destruct (bool_decide_reflect (q ∈ arrivals s)) as [Hin|Hni]; destruct (deadlineWins s) eqn:Ew; cbn [andb negb];
    cbn [pending prober update]; rewrite ?delete_singleton_eq, ?Np; unfold e1; cbn; rewrite ?Se, ?Sl; split_and!; auto.
  all: intros; done.
Qed.

Definition await0 : EchoAwaitProbe :=
  mkEchoAwaitProbe (probe.NewProber 2 77 frame_props.psk1
    (probe.mkProberConfig 8 (mkLivenessConfig DefaultDownAfter DefaultUpSuccesses 0))) 28 second ∅.
Definition around0 (l : list Z) : surroundings := mkSurroundings (Some (replicate 24 1)) probe.unixEpoch None None l false.

Lemma await_answers_own_echo_witness :
  pending (fst (@AwaitProbePMTU frame_props.toy_cipher (around0 [5; 0]) 105 await0)) = ∅ /\
  snd (@AwaitProbePMTU frame_props.toy_cipher (around0 [5; 0]) 105 await0) = Ok true /\
  snd (@AwaitProbePMTU frame_props.toy_cipher (around0 [5]) 105 await0) = Ok false.
Proof.
  pose proof (@await_answers_own_echo frame_props.toy_cipher (around0 [5; 0]) 105 await0 eq_refl) as H.
  split.
  - destruct (@AwaitProbePMTU frame_props.toy_cipher (around0 [5; 0]) 105 await0) as [e' o]. exact (proj1 H).
  - clear H. split; vm_compute; reflexivity.
Defined.

End pmtu_props.
