(* ===== verification/BondMeter.v ===== *)
(** * Measurements of a lane ([internal/bond]: schedule.go's [rateMeter],
      control.go's [peak], [sustainedDelivery] and [lossLedger])

    Bucketed maxima of rates, the delivery a lane kept up, and the loss read
    from byte counts.  The meters rotate when they are read, so readings return
    the meter.  Durations are unbounded integers: none of those in use comes near
    the range of an int64. *)

From stdpp Require Import base tactics list numbers.
From S2P Require Import Prelude Float64.

Module meter.
Import float64.

(** ** Buckets

    The highest float of a fixed array, the loop shared by the readings. *)
Definition highest (l : list float) : float := fold_left (fun h b => fmax h b) l f0.

Definition meterBucket : Duration := 200 * millisecond.
Definition meterBuckets : nat := 5.

Record rateMeter := mkRateMeter { mstart : Time; mbuckets : list float; mindex : nat }.
#[export] Instance eta_rateMeter : Eta rateMeter := fun m => mkRateMeter (mstart m) (mbuckets m) (mindex m).
Definition rateMeter0 : rateMeter := mkRateMeter 0 (replicate meterBuckets f0) 0.

(** The loop of [rotate], at most [n] iterations; it is entered less than
    [meterBuckets] buckets behind. *)
Fixpoint rotate_loop (n : nat) (now : Time) (m : rateMeter) : rateMeter :=
  match n with
  | O => m
  | S n =>
    if meterBucket <=? time_sub now (mstart m) then
      let m := m <| mstart := mstart m + meterBucket |> in
      let m := m <| mindex := ((mindex m + 1) mod meterBuckets)%nat |> in
      rotate_loop n now (m <| mbuckets := <[mindex m := f0]> (mbuckets m) |>)
    else m
  end.

Definition rotate (now : Time) (m : rateMeter) : rateMeter :=
  if is_zero_time (mstart m) || (Z.of_nat meterBuckets * meterBucket <=? time_sub now (mstart m))
  then rateMeter0 <| mstart := now |>
  else rotate_loop meterBuckets now m.

Definition add (now : Time) (bytes : float) (m : rateMeter) : rateMeter :=
  let m := rotate now m in
  m <| mbuckets := alter (fun b => fadd b bytes) (mindex m) (mbuckets m) |>.

Definition rate (now : Time) (m : rateMeter) : rateMeter * float :=
  let m := rotate now m in
  (m, fdiv (highest (mbuckets m)) (Seconds meterBucket)).

(** Every bucket but the current one holds something. *)
Fixpoint no_gap (i cur : nat) (l : list float) : bool :=
  match l with
  | [] => true
  | b :: l => negb (feq b f0 && negb (i =? cur)%nat) && no_gap (S i) cur l
  end.
Definition steady (now : Time) (m : rateMeter) : rateMeter * bool :=
  let m := rotate now m in
  (m, no_gap 0 (mindex m) (mbuckets m)).

(** ** Peaks *)
Definition peakBucket : Duration := 2 * second.
Definition peakBuckets : nat := 5.

Record peak := mkPeak { pbucket : Duration; pstart : Time; pbuckets : list float; pindex : nat }.
#[export] Instance eta_peak : Eta peak := fun m => mkPeak (pbucket m) (pstart m) (pbuckets m) (pindex m).
(** [peak{bucket: b}]. *)
Definition peak0 (b : Duration) : peak := mkPeak b 0 (replicate peakBuckets f0) 0.

Definition plength (m : peak) : Duration := if pbucket m =? 0 then peakBucket else pbucket m.

Fixpoint peak_loop (n : nat) (now : Time) (bucket : Duration) (m : peak) : peak :=
  match n with
  | O => m
  | S n =>
    if bucket <=? time_sub now (pstart m) then
      let m := m <| pstart := pstart m + bucket |> in
      let m := m <| pindex := ((pindex m + 1) mod peakBuckets)%nat |> in
      peak_loop n now bucket (m <| pbuckets := <[pindex m := f0]> (pbuckets m) |>)
    else m
  end.

Definition peak_rotate (now : Time) (m : peak) : peak :=
  let bucket := plength m in
  if is_zero_time (pstart m) || (Z.of_nat peakBuckets * bucket <=? time_sub now (pstart m))
  then peak0 (pbucket m) <| pstart := now |>
  else peak_loop peakBuckets now bucket m.

Definition peak_record (now : Time) (value : float) (m : peak) : peak :=
  let m := peak_rotate now m in
  m <| pbuckets := alter (fun b => fmax b value) (pindex m) (pbuckets m) |>.

Definition peak_value (now : Time) (m : peak) : peak * float :=
  let m := peak_rotate now m in
  (m, highest (pbuckets m)).

(** ** Sustained delivery *)
Definition sustainedSpan : Duration := 500 * millisecond.
Definition sustainedMemory : Duration := 500 * millisecond.

Record deliveryMark := mkMark { dbytes : Z; delapsed : Z }.
Record sustainedDelivery := mkSustained { marks : list deliveryMark; best : peak }.
#[export] Instance eta_sustained : Eta sustainedDelivery := fun d => mkSustained (marks d) (best d).

(** The loop that keeps one mark at least a span old. *)
Fixpoint drop_marks (elapsed : Z) (l : list deliveryMark) : list deliveryMark :=
  match l with
  | a :: ((b :: _) as rest) =>
    if sustainedSpan <=? u64 (elapsed - delapsed b) then drop_marks elapsed rest else l
  | _ => l
  end.

Definition sustained_record (now : Time) (bytes elapsed : Z) (d : sustainedDelivery) : sustainedDelivery :=
  let d := d <| marks := marks d ++ [mkMark bytes elapsed] |> in
  let d := d <| marks := drop_marks elapsed (marks d) |> in
  match marks d with
  | [] => d
  | oldest :: _ =>
    if sustainedSpan <=? u64 (elapsed - delapsed oldest)
    then d <| best := peak_record now (fdiv (fofZ (u64 (bytes - dbytes oldest)))
                                         (Seconds (i64 (elapsed - delapsed oldest)))) (best d) |>
    else d
  end.

Definition sustained_value (now : Time) (d : sustainedDelivery) : sustainedDelivery * float :=
  let '(b, v) := peak_value now (best d) in (d <| best := b |>, v).

(** ** Loss *)
Definition lossHorizon : Duration := second.
Definition lossSettle : Duration := 200 * millisecond.
Definition maxLossHorizon : Duration := 4 * second.
Definition startupLossEvents : float := fofZ 3.
Definition startupLossRatio : float := fofQ 2 100.

Record lossEntry := mkLossEntry { eat : Time; eseq : Z; esent : Z; edeficit : float }.
Record lossLedger := mkLossLedger { entries : list lossEntry; lfloor : float }.
#[export] Instance eta_lossLedger : Eta lossLedger := fun l => mkLossLedger (entries l) (lfloor l).
Definition lossLedger0 : lossLedger := mkLossLedger [] f0.

Fixpoint expire (now : Time) (l : list lossEntry) : list lossEntry :=
  match l with
  | e :: rest => if maxLossHorizon + 2 * lossSettle <=? time_sub now (eat e) then expire now rest else l
  | [] => []
  end.

Definition loss_record (now : Time) (seq sent received late : Z) (l : lossLedger) : lossLedger :=
  let l := l <| entries := expire now (entries l) |> in
  match entries l !! (length (entries l) - 1)%nat with
  | Some e => if seq <=? eseq e then l
              else l <| entries := entries l ++ [mkLossEntry now seq sent
                     (fmax (lfloor l) (fsub (fsub (fofZ sent) (fofZ received)) (fofZ late)))] |>
  | None => l <| entries := entries l ++ [mkLossEntry now seq sent
              (fmax (lfloor l) (fsub (fsub (fofZ sent) (fofZ received)) (fofZ late)))] |>
  end.

(** The first entry of least deficit among those of an age in [lo, hi). *)
Definition in_age (now : Time) (lo hi : Duration) (e : lossEntry) : bool :=
  (lo <=? time_sub now (eat e)) && (time_sub now (eat e) <? hi).
Definition least (l : list lossEntry) : option lossEntry :=
  fold_left (fun r e => match r with
                        | None => Some e
                        | Some r => if flt (edeficit e) (edeficit r) then Some e else Some r
                        end) l None.

Definition settled (now : Time) (l : lossLedger) : lossLedger * float * bool :=
  match least (List.filter (fun e => time_sub now (eat e) <? lossSettle) (entries l)) with
  | None => (l, f0, false)
  | Some e => (l <| lfloor := fmax (lfloor l) (edeficit e) |>, edeficit e, true)
  end.

(** [judged] is 3 / 0.02. *)
Definition judged : float := fofZ 150.

(** The loop over horizons, [n] of them left. *)
Fixpoint lost_loop (n : nat) (horizon : Duration) (now : Time) (recent : lossEntry) (l : list lossEntry) :
    float * float * float :=
  match n with
  | O => (f0, f0, f0)
  | S n =>
    if horizon <=? maxLossHorizon then
      match least (List.filter (in_age now horizon (horizon + lossSettle)) l) with
      | None => lost_loop n (horizon + lossSettle) now recent l
      | Some old =>
        if eseq recent <=? eseq old then lost_loop n (horizon + lossSettle) now recent l
        else
          let datagrams := fofZ (u64 (eseq recent - eseq old)) in
          if fge datagrams judged || (maxLossHorizon <? horizon + lossSettle)
          then (fmax f0 (fsub (edeficit recent) (edeficit old)), fofZ (u64 (esent recent - esent old)), datagrams)
          else lost_loop n (horizon + lossSettle) now recent l
      end
    else (f0, f0, f0)
  end.

(** Sixteen horizons lie between [lossHorizon] and [maxLossHorizon]. *)
Definition lost (now : Time) (l : lossLedger) : float * float * float :=
  match least (List.filter (fun e => time_sub now (eat e) <? lossSettle) (entries l)) with
  | None => (f0, f0, f0)
  | Some recent => lost_loop 17 lossHorizon now recent (entries l)
  end.

Definition material (now : Time) (l : lossLedger) : bool :=
  let '(lost, sent, datagrams) := lost now l in
  fgt datagrams f0 && fge lost (fdiv (fmul startupLossEvents sent) datagrams) &&
  fge lost (fmul startupLossRatio sent).

End meter.
