(* ===== verification/BondLane.v ===== *)
(** * One lane of the bonding transport ([internal/bond]: bond.go's [lane] and
      its methods, link_model.go, control.go)

    The state of a lane, its liveness, timers and windows, and the controller of
    its target rate.  An attempt refers to its datagram by the sequence under
    which the transport stores it.  Counters of type uint64 wrap; ints,
    durations and instants are unbounded integers. *)

From stdpp Require Import base tactics list numbers gmap.
From S2P Require Import Prelude Float64 BondWire BondReceipt BondQueue BondMeter.

Module lanes.
Import float64.
Abbreviation class := queue.class (only parsing).
Abbreviation classRealtime := queue.classRealtime (only parsing).
Abbreviation classSmall := queue.classSmall (only parsing).
Abbreviation classBulk := queue.classBulk (only parsing).
Abbreviation PathID := Z (only parsing).
#[export] Existing Instance queue.class_eq_dec.

(** ** Constants *)
Definition initialWindowBytes : Z := 3000.
Definition initialRate : float := fofZ 125000.
Definition minimumRate : float := fofZ 16000.
Definition maximumRate : float := fofZ 1250000000.
Definition targetQueue : Duration := 10 * millisecond.
Definition jitterAllowanceFactor : Z := 2.
Definition jitterSpreadFactor : Z := 3.
Definition reorderHeadroom : float := fofQ 125 100.
Definition reorderMemory : Duration := 10 * second.
Definition lossPacingHeadroom : float := fofQ 105 100.
Definition lossRateReduction : float := fofQ 9 10.
Definition queueSendExcessRatio : float := fofQ 12 10.
Definition startupDeliveryGain : float := fofZ 2.
Definition startupPlateauGrowth : float := fofQ 125 100.
Definition startupPlateauRounds : Z := 3.
Definition startupPlateauSending : float := fofQ 75 100.
Definition maxDelaySamples : Z := 16.
Definition jitterWarmup : Z := 8.
Definition ackInterval : Duration := 25 * millisecond.
Definition maxACKInterval : Duration := 50 * millisecond.
Definition ackGapHorizon : Duration := 4 * maxACKInterval.
Definition minimumClassShare : float := fofQ 5 100.
Definition pathLease : Duration := second.
Definition minimumRTO : Duration := 60 * millisecond.
Definition maxWander : Duration := 3 * targetQueue.
Definition maxThreshold : Duration := 10 * targetQueue.
Definition repairTail : Z := 3.
Definition feedbackHorizon : Duration := 2 * second.
Definition deliveryInterval : Duration := 50 * millisecond.
Definition baselineInterval : Duration := 10 * second.
Definition baselineDrain : Duration := 200 * millisecond.
Definition baselineStagger : Duration := 500 * millisecond.
Definition maxPackets : Z := receipt.maxPackets.
Definition maxDatagram : Z := 9000.
Definition fullDatagramWireBytes : Z := 1500.
Definition wireOverhead : Z := Z.of_nat bond.Overhead + 28.
Definition transitSizeBucket : Z := 128.
Definition stallSilence : Duration := 2 * maxACKInterval.
Definition suspectACKIntervals : Z := 2.

Definition capacityHold : float := fofQ 95 100.
Definition wanderLoad : float := fofQ 5 10.
Definition capacityDrain : float := fofQ 85 100.
Definition capacityDecay : float := fofQ 97 100.
Definition capacityDrop : float := fofQ 75 100.
Definition rediscoveryGain : float := fofQ 15 10.
Definition pulseWinsToLeave : Z := 3.
Definition pulseConfirmDatagrams : Z := 30.
Definition pulseInterval : Duration := second.
Definition maxPulseInterval : Duration := 16 * second.
Definition policingMemory : Duration := 60 * second.
Definition floorTestInterval : Duration := 2 * second.
Definition maxFloorTestInterval : Duration := 16 * second.
Definition pulseStagger : Duration := 100 * millisecond.
Definition minPulse : Duration := 150 * millisecond.
Definition maxPulse : Duration := 500 * millisecond.
Definition verdictExpiry : Duration := second.
Definition maxFlush : Duration := 500 * millisecond.
Definition flushQueues : Z := 2.

Definition fsecond : float := fofZ second.

(** ** Arrays indexed by class *)
Definition cidx (c : class) : nat :=
  match c with queue.classRealtime => 0 | queue.classSmall => 1 | queue.classBulk => 2 end.
Definition cget {A} (d : A) (l : list A) (c : class) : A := default d (l !! cidx c).
Definition cset {A} (l : list A) (c : class) (v : A) : list A := <[cidx c := v]> l.

Definition maxTime (a b : Time) : Time := if b <? a then a else b.

(** ** State *)
Record Decisions := mkDecisions {
  DelaySignals : Z; LossSignals : Z;
  DiscoveryCongested : Z; DiscoveryPlateau : Z;
  CapacityRemeasured : Z; CapacityDecays : Z;
  Pulses : Z; PulseWins : Z; PulseLosses : Z; Rediscoveries : Z;
  StallSignals : Z
}.
#[export] Instance eta_Decisions : Eta Decisions := fun d =>
  mkDecisions (DelaySignals d) (LossSignals d) (DiscoveryCongested d) (DiscoveryPlateau d)
    (CapacityRemeasured d) (CapacityDecays d) (Pulses d) (PulseWins d) (PulseLosses d) (Rediscoveries d)
    (StallSignals d).
Definition Decisions0 : Decisions := mkDecisions 0 0 0 0 0 0 0 0 0 0 0.

Record linkModel := mkLinkModel { progressAt : Time; awaitingSince : Time }.
#[export] Instance eta_linkModel : Eta linkModel := fun m => mkLinkModel (progressAt m) (awaitingSince m).

Record controlState := mkControl {
  capacity : float;
  draining : bool;
  drainBy : Time;
  flushUntil : Time;
  holdSignal : bool;
  nextPulse : Time;
  pulseEvery : Duration;
  pulseEnd : Time;
  verdictAt : Time;
  pulseWins : Z;
  pendingWin : bool;
  wonAt : Time;
  wonSeq : Z;
  wonFrom : float
}.
#[export] Instance eta_controlState : Eta controlState := fun c =>
  mkControl (capacity c) (draining c) (drainBy c) (flushUntil c) (holdSignal c) (nextPulse c) (pulseEvery c)
    (pulseEnd c) (verdictAt c) (pulseWins c) (pendingWin c) (wonAt c) (wonSeq c) (wonFrom c).
(** [control{capacity: x}]. *)
Definition control0 (x : float) : controlState := mkControl x false 0 0 false 0 0 0 0 0 false 0 0 f0.

Record stallState := mkStall { slength : Duration; sthrough : Z }.
Definition stall0 : stallState := mkStall 0 0.

Record transitBaseline := mkBaseline { bdelay : Duration; bknown : bool; bobserved : Time }.
Definition transitBaseline0 : transitBaseline := mkBaseline 0 false 0.
Definition transitBuckets : nat := Z.to_nat (Z.quot (maxDatagram + wireOverhead) transitSizeBucket + 1).
Definition transitBases0 : list transitBaseline := replicate transitBuckets transitBaseline0.

Record attempt := mkAttempt {
  apacket : option Z;
  asent : Time;
  abytes : Z;
  released : bool;
  confirmed : bool;
  through : Z
}.
#[export] Instance eta_attempt : Eta attempt := fun a =>
  mkAttempt (apacket a) (asent a) (abytes a) (released a) (confirmed a) (through a).

Record lane := mkLane {
  model : linkModel;
  feedbackSent : meter.rateMeter;
  id : PathID;
  remoteID : PathID;
  lease : Time;
  rate : float;
  deliveryRate : float;
  deliverySample : float;
  sendRate : float;
  startup : bool;
  discoveryGain : float;
  startupBest : float;
  startupFlatRounds : Z;
  roundEnd : Z;
  roundDone : bool;
  losses : meter.lossLedger;
  roundLossy : bool;
  previousDelivery : float;
  control : controlState;
  peakDelivery : float;
  recentDelivery : meter.peak;
  sustained : meter.sustainedDelivery;
  reordering : meter.peak;
  newestConfirmed : Time;
  wander : Duration;
  wanderVariation : Duration;
  wanderKnown : bool;
  rtt : Duration;
  rttVariation : Duration;
  idleRTTVariation : Duration;
  idleRTT : Duration;
  idleForwardMean : Duration;
  idleForwardVariation : Duration;
  idleForwardKnown : bool;
  feedbackRTT : Duration;
  feedbackRTTVariation : Duration;
  baseRTT : Duration;
  baseAt : Time;
  nextSend : Time;
  classNext : list Time;
  reserved : list float;
  copies : float;
  guaranteed : list bool;
  shared : bool;
  decisions : Decisions;
  bulkElsewhere : bool;
  lastACK : Time;
  ackGap : Duration;
  lastAdjust : Time;
  lossMark : float;
  lossMarked : bool;
  inflight : Z;
  classInflight : list Z;
  confirmedWireBytes : Z;
  seq : Z;
  ackRevision : Z;
  receivedHigh : Z;
  receivedThrough : Z;
  stall : stallState;
  ackReceipts : receipt.receiptWindow;
  ackedBytes : Z;
  ackedElapsed : Z;
  feedbackAt : Time;
  rateBytes : Z;
  rateSentBytes : Z;
  rateElapsed : Z;
  firstSent : Time;
  transitBucket : nat;
  transitBases : list transitBaseline;
  intervalQueueDelay : Duration;
  signalDelay : Duration;
  delayJitter : Duration;
  intervalJitter : Duration;
  delayDifferences : Z;
  intervalSamples : Z;
  haveInterval : bool;
  queueDelay : Duration;
  nextBaseline : Time;
  drainUntil : Time;
  baselinePending : bool;
  floorTesting : bool;
  floorSampling : bool;
  floorTested : Time;
  floorTestEvery : Duration;
  droppedAt : Time;
  lastTransmit : Time;
  lastPayload : Time;
  attempts : gmap Z attempt;
  sent : Z;
  interactiveSent : Z;
  realtimeOriginals : Z;
  bulkOriginals : Z;
  bulkReceived : Z;
  acked : Z;
  retries : Z
}.
#[export] Instance eta_lane : Eta lane := fun p =>
  mkLane (model p) (feedbackSent p) (id p) (remoteID p) (lease p) (rate p) (deliveryRate p)
    (deliverySample p) (sendRate p) (startup p) (discoveryGain p) (startupBest p) (startupFlatRounds p)
    (roundEnd p) (roundDone p) (losses p) (roundLossy p) (previousDelivery p) (control p)
    (peakDelivery p) (recentDelivery p) (sustained p) (reordering p) (newestConfirmed p) (wander p)
    (wanderVariation p) (wanderKnown p) (rtt p) (rttVariation p) (idleRTTVariation p) (idleRTT p)
    (idleForwardMean p) (idleForwardVariation p) (idleForwardKnown p) (feedbackRTT p)
    (feedbackRTTVariation p) (baseRTT p) (baseAt p) (nextSend p) (classNext p) (reserved p) (copies p)
    (guaranteed p) (shared p) (decisions p) (bulkElsewhere p) (lastACK p) (ackGap p) (lastAdjust p)
    (lossMark p) (lossMarked p) (inflight p) (classInflight p) (confirmedWireBytes p) (seq p)
    (ackRevision p) (receivedHigh p) (receivedThrough p) (stall p) (ackReceipts p) (ackedBytes p)
    (ackedElapsed p) (feedbackAt p) (rateBytes p) (rateSentBytes p) (rateElapsed p) (firstSent p)
    (transitBucket p) (transitBases p) (intervalQueueDelay p) (signalDelay p) (delayJitter p)
    (intervalJitter p) (delayDifferences p) (intervalSamples p) (haveInterval p) (queueDelay p)
    (nextBaseline p) (drainUntil p) (baselinePending p) (floorTesting p) (floorSampling p)
    (floorTested p) (floorTestEvery p) (droppedAt p) (lastTransmit p) (lastPayload p) (attempts p)
    (sent p) (interactiveSent p) (realtimeOriginals p) (bulkOriginals p) (bulkReceived p) (acked p)
    (retries p).

(** ** Liveness ([link_model.go]) *)
Inductive LaneLiveness := LaneLive | LaneSuspect | LaneDead.
#[export] Instance LaneLiveness_eq_dec : EqDecision LaneLiveness.
Proof. solve_decision. Defined.

Definition progressAge (now : Time) (m : linkModel) : Duration :=
  if is_zero_time (progressAt m) then 0 else Z.max 0 (time_sub now (progressAt m)).

Definition up (now : Time) (p : lane) : bool :=
  negb (is_zero_time (lease p)) && (time_sub now (lease p) <? pathLease).

Definition peerACKInterval (p : lane) : Duration := Z.min maxACKInterval (Z.max ackInterval (ackGap p)).

Definition rto (p : lane) : Duration :=
  let variation := rttVariation p in
  let variation :=
    if feedbackRTT p =? 0 then
      let unknown := Z.quot (rtt p) 2 in
      let unknown := if 0 <? idleRTTVariation p then idleRTTVariation p else unknown in
      Z.max variation unknown
    else variation in
  Z.max minimumRTO (Z.max (rtt p + 4 * variation + peerACKInterval p)
                          (feedbackRTT p + 4 * feedbackRTTVariation p)).

Definition liveness (now : Time) (p : lane) : LaneLiveness :=
  if negb (up now p) then LaneDead
  else if seq p <=? receivedHigh p then LaneLive
  else
    let silence := time_sub now (maxTime (progressAt (model p)) (awaitingSince (model p))) in
    if rto p <=? silence then LaneDead
    else if suspectACKIntervals * peerACKInterval p <=? silence then LaneSuspect
    else LaneLive.

Definition eligible (c : class) (now : Time) (p : lane) : bool :=
  let state := liveness now p in
  bool_decide (state = LaneLive) || (negb (bool_decide (c = classBulk)) && bool_decide (state = LaneSuspect)).

Definition beginAttempt (now : Time) (p : lane) : lane :=
  let* p := if seq p =? receivedHigh p then p <| model := model p <| awaitingSince := now |> |> else p in
  p <| seq := u64 (seq p + 1) |>.

(** ** Windows, timers and pacing ([bond.go]) *)

(** [cls] is the class of the attempt's datagram, if it has one. *)
Definition release (a : attempt) (cls : option class) (p : lane) : lane :=
  let* p := p <| inflight := inflight p - abytes a |> in
  match cls with
  | None => p
  | Some c => p <| classInflight := cset (classInflight p) c (cget 0 (classInflight p) c - abytes a) |>
  end.

Definition passed (d : queue.packet) (p : lane) : bool :=
  (queue.lastLaneSeq d <? receivedHigh p) || (u64 (seq p - queue.lastLaneSeq d) <? repairTail).

Definition observeOrder (now sentAt : Time) (p : lane) : lane :=
  if sentAt <? newestConfirmed p
  then p <| reordering := meter.peak_record now (fofZ (time_sub (newestConfirmed p) sentAt)) (reordering p) |>
  else p.

Definition congestionThreshold (p : lane) : Duration :=
  let threshold := Z.max targetQueue (jitterAllowanceFactor * idleForwardVariation p) in
  let threshold := if wanderKnown p
                   then Z.max threshold (wander p + jitterAllowanceFactor * wanderVariation p + targetQueue)
                   else threshold in
  Z.min threshold maxThreshold.

Definition delaySamplesNeeded (p : lane) : Z :=
  let jitter := intervalJitter p in
  let jitter := if delayDifferences p <=? jitterWarmup then Z.max jitter (idleRTTVariation p) else jitter in
  let spread := jitterSpreadFactor * jitter in
  let threshold := congestionThreshold p in
  if spread <=? threshold then 1
  else Z.min maxDelaySamples (Z.quot (2 * spread) threshold).

Definition observeFeedbackRTT (sample : Duration) (p : lane) : lane :=
  if sample <=? 0 then p
  else if feedbackRTT p =? 0 then p <| feedbackRTT := sample |> <| feedbackRTTVariation := Z.quot sample 2 |>
  else
    let difference := sample - feedbackRTT p in
    let difference := if difference <? 0 then - difference else difference in
    p <| feedbackRTTVariation := Z.quot (3 * feedbackRTTVariation p + difference) 4 |>
      <| feedbackRTT := Z.quot (7 * feedbackRTT p + sample) 8 |>.

Definition window (p : lane) : Z :=
  Z.min (initialWindowBytes + confirmedWireBytes p)
    (Z.max initialWindowBytes
       (toI64 (fmul (rate p) (Seconds (idleRTT p + jitterAllowanceFactor * idleRTTVariation p +
                                       2 * targetQueue + peerACKInterval p))))).

Definition rebaseline (sample : Duration) (p : lane) : lane :=
  p <| idleRTT := idleRTT p + Z.quot (sample - idleRTT p) 2 |>.

Definition pace (now : Time) (bytes : Z) (p : lane) : lane :=
  let '(m, feedback) := meter.rate now (feedbackSent p) in
  let total := fadd (rate p) feedback in
  p <| feedbackSent := m |>
    <| nextSend := maxTime (nextSend p) (now - 2 * millisecond) +
                   toI64 (fmul (fdiv (fofZ bytes) total) fsecond) |>.

Definition latency (p : lane) : Duration := idleRTT p + jitterAllowanceFactor * idleRTTVariation p.

(** ** Shares of a lane ([schedule.go]) *)
Definition realtimeLane (p : lane) : bool :=
  if startup p && feq (capacity (control p)) f0 then false
  else bulkElsewhere p && fgt (fmul (fdiv (fofZ fullDatagramWireBytes) (rate p)) fsecond) (fofZ targetQueue).

Definition share (p : lane) : float := fmul minimumClassShare (rate p).

Definition allowed (c : class) (p : lane) : float :=
  if bool_decide (c = classBulk) && realtimeLane p then
    if cget false (guaranteed p) c then share p else f0
  else if bool_decide (c = classSmall) && shared p && negb (realtimeLane p) then
    let* r := cget f0 (reserved p) classSmall in
    if cget false (guaranteed p) c then fmax r (share p) else r
  else
    let* r := rate p in
    let* r := match c with
             | queue.classRealtime => r
             | queue.classSmall => fsub r (cget f0 (reserved p) classRealtime)
             | queue.classBulk => fsub (fsub r (cget f0 (reserved p) classRealtime)) (cget f0 (reserved p) classSmall)
             end in
    let* r := if negb (bool_decide (c = classRealtime)) then fsub r (copies p) else r in
    let lower := match c with
                 | queue.classRealtime => [classSmall; classBulk]
                 | queue.classSmall => [classBulk]
                 | queue.classBulk => []
                 end in
    let* r := fold_left (fun r l => if cget false (guaranteed p) l then fsub r (share p) else r) lower r in
    let* r := if cget false (guaranteed p) c then fmax r (share p) else r in
    fmax f0 r.

Definition classWindow (c : class) (size w : Z) (allow : float) (p : lane) : Z :=
  let part := Z.max size (toI64 (fdiv (fmul (fofZ w) allow) (rate p))) in
  if bool_decide (c = classBulk) && fgt (cget f0 (reserved p) classRealtime) f0 &&
     (fgt (capacity (control p)) f0 || fgt (fadd (cget f0 (reserved p) classRealtime) (copies p)) allow) &&
     fgt (fmul (fdiv (fofZ size) (rate p)) fsecond) (fofZ targetQueue)
  then size else part.

(** ** The controller ([control.go]) *)
Definition ctl (f : controlState -> controlState) (p : lane) : lane := p <| control := f (control p) |>.
Definition decide_ (f : Decisions -> Decisions) (p : lane) : lane := p <| decisions := f (decisions p) |>.

Definition awaitingVerdict (c : controlState) : bool := negb (is_zero_time (verdictAt c)).

Definition stagger (p : lane) (m : Z) : Z := Z.land (Z.lxor (u16 (id p)) (Z.shiftr (u16 (id p)) 8)) m.

Definition schedulePulse (now : Time) (p : lane) : lane :=
  ctl (fun c => c <| verdictAt := 0 |> <| pulseEnd := 0 |>
                  <| nextPulse := now + (Z.max pulseInterval (pulseEvery c) + stagger p 7 * pulseStagger) |>) p.

Definition measuredDelivery (p : lane) : float :=
  fmax (deliveryRate p) (fdiv (fadd (deliverySample p) (previousDelivery p)) (fofZ 2)).

Definition sustainedNow (now : Time) (p : lane) : lane * float :=
  let '(d, v) := meter.sustained_value now (sustained p) in (p <| sustained := d |>, v).

Definition demonstrated (now : Time) (p : lane) : lane * float :=
  let '(p, v) := sustainedNow now p in (p, fmax (measuredDelivery p) v).

Definition polices (now : Time) (p : lane) : bool :=
  negb (is_zero_time (droppedAt p)) && (time_sub now (droppedAt p) <? policingMemory).

Definition raiseToDelivery (now : Time) (p : lane) : lane :=
  if startup p || feq (capacity (control p)) f0 || feq (previousDelivery p) f0 || polices now p then p
  else
    let delivered := fdiv (fadd (deliverySample p) (previousDelivery p)) (fofZ 2) in
    if fgt delivered (fmul (fofQ 105 100) (capacity (control p)))
    then ctl (fun c => c <| capacity := delivered |>) p else p.

Definition recentNow (now : Time) (p : lane) : lane * float :=
  let '(m, v) := meter.peak_value now (recentDelivery p) in (p <| recentDelivery := m |>, v).

Definition lightlyLoaded (p : lane) : lane * bool :=
  let reference := capacity (control p) in
  let '(p, reference) :=
    if startup p || feq reference f0 then
      let '(p, v) := recentNow (lastACK p) p in (p, fmin (rate p) (fmax initialRate v))
    else (p, reference) in
  (p, flt (sendRate p) (fmul wanderLoad reference) && fgt (deliveryRate p) f0 &&
      fle (sendRate p) (fmul queueSendExcessRatio (deliveryRate p))).

Definition observeWander (delay : Duration) (p : lane) : lane :=
  if negb (wanderKnown p)
  then p <| wander := delay |> <| wanderVariation := Z.quot delay 2 |> <| wanderKnown := true |>
  else
    let difference := delay - wander p in
    let difference := if difference <? 0 then - difference else difference in
    p <| wanderVariation := Z.quot (3 * wanderVariation p + difference) 4 |>
      <| wander := Z.quot (7 * wander p + delay) 8 |>.

Definition stallEnded (silence : Duration) (p : lane) : lane := p <| stall := mkStall silence (seq p) |>.

Definition explains (delay threshold : Duration) (s : stallState) : bool :=
  negb (sthrough s =? 0) && (delay <=? slength s + threshold).

Definition saturating (p : lane) : bool := fge (sendRate p) (fmul capacityDrain (rate p)).

Definition cut (lost : bool) (p : lane) : float :=
  if lost then
    if negb (saturating p) then fmul lossRateReduction (rate p)
    else fmin (fmul lossRateReduction (rate p)) (fmul capacityHold (deliveryRate p))
  else
    let* r := fmul (rate p) (fofQ 9 10) in
    if fgt (deliveryRate p) f0 && fgt (sendRate p) (fmul queueSendExcessRatio (deliveryRate p))
    then fmin r (fmul lossPacingHeadroom (deliveryRate p)) else r.

Definition stalledSignal (now : Time) (p : lane) : lane :=
  let* p := decide_ (fun d => d <| StallSignals := u64 (StallSignals d + 1) |>) p in
  if startup p || feq (capacity (control p)) f0 then p
  else if awaitingVerdict (control p) then
    let* p := schedulePulse now p in
    p <| rate := fmax minimumRate (fmul capacityDrain (capacity (control p))) |>
  else p <| rate := fmax minimumRate (fmax (cut false p) (fmul capacityDrop (capacity (control p)))) |>.

Definition drainTime (queued : Duration) (p : lane) : Duration :=
  toI64 (fdiv (fmul (fofZ 2) (fofZ queued)) (fofQ 15 100)) + 2 * rtt p.

Definition floorTestPause (queued : Duration) (p : lane) : Duration * bool :=
  let bulk := allowed classBulk p in
  if fle bulk f0 then (0, false)
  else
    let needed := fdiv (fmul (fmul (fofZ 2) (fofZ queued)) (rate p)) bulk in
    if fgt needed (fofZ baselineDrain) then (0, false) else (toI64 needed, true).

Definition testFloor (now : Time) (queued : Duration) (p : lane) : lane :=
  let '(pause, _) := floorTestPause queued p in
  let* p := p <| drainUntil := now + pause |> in
  let* p := p <| baselinePending := true |> <| floorTesting := true |> in
  let* p := p <| floorTested := now |> in
  let* p := ctl (fun c => c <| holdSignal := false |>) p in
  schedulePulse now p.

Definition queueFound (p : lane) : lane :=
  let* p := ctl (fun c => c <| capacity := fmul (capacity c) capacityDecay |>) p in
  let* p := p <| rate := fmax minimumRate (fmin (rate p) (fmul capacityHold (capacity (control p)))) |> in
  p <| floorTestEvery := Z.min maxFloorTestInterval (2 * Z.max floorTestInterval (floorTestEvery p)) |>.

Definition floorMoved (sample : Duration) (p : lane) : lane :=
  let* p := rebaseline sample p in
  let* p := p <| transitBases := transitBases0 |> in
  p <| floorTestEvery := floorTestInterval |>.

Definition floorTestable (now : Time) (queued : Duration) (p : lane) : bool :=
  let '(_, short) := floorTestPause queued p in
  short && fle (rate p) (capacity (control p)) && negb (now <? drainBy (control p)) &&
  (Z.max floorTestInterval (floorTestEvery p) <=? time_sub now (floorTested p)).

Definition pulseSettled (now : Time) (p : lane) : bool :=
  (meter.lossSettle + rtt p <=? time_sub now (wonAt (control p))) &&
  ((pulseConfirmDatagrams <=? u64 (seq p - wonSeq (control p))) || negb (polices now p)).

(** *** Congestion

    [congested] in the order of the source: the verdict on a pending pulse, the
    end of draining, then one function per case of its switch. *)
Definition pulseVerdict (now : Time) (lost : bool) (p : lane) : lane :=
  if pendingWin (control p) && lost then
    let* p := decide_ (fun d => d <| PulseLosses := u64 (PulseLosses d + 1) |>) p in
    ctl (fun c => c <| capacity := fmin (capacity c) (wonFrom c) |>
                    <| pendingWin := false |> <| pulseWins := 0 |>
                    <| pulseEvery := Z.min maxPulseInterval (2 * Z.max pulseInterval (pulseEvery c)) |>) p
  else if pendingWin (control p) && pulseSettled now p then
    let* p := decide_ (fun d => d <| PulseWins := u64 (PulseWins d + 1) |>) p in
    ctl (fun c => c <| pendingWin := false |> <| pulseEvery := 0 |>) p
  else p.

Definition drainEnded (now : Time) (lost : bool) (p : lane) : lane :=
  let probed := drainBy (control p) in
  let probed := if lost then probed + meter.lossSettle else probed in
  if draining (control p) && negb (now <? probed)
  then ctl (fun c => c <| draining := false |> <| holdSignal := true |>) p else p.

Definition discoveryCongested (now : Time) (lost laneLimited : bool) (queued : Duration) (p : lane) : lane :=
  let* p := decide_ (fun d => d <| DiscoveryCongested := u64 (DiscoveryCongested d + 1) |>) p in
  let* p := p <| startup := false |> in
  let '(p, shown) := demonstrated now p in
  let shown := if negb laneLimited && negb lost then fmax shown (capacity (control p)) else shown in
  let* p := ctl (fun c => c <| capacity := shown |> <| holdSignal := false |> <| pulseWins := 0 |>
                           <| draining := true |>) p in
  let* p := ctl (fun c => c <| drainBy := now + drainTime queued p |>) p in
  let* p := ctl (fun c => c <| flushUntil := now + Z.min maxFlush (flushQueues * queued) |>) p in
  let* p := schedulePulse now p in
  if negb laneLimited then
    let* p := p <| rate := fmax minimumRate (fmax (cut lost p) (capacity (control p))) |> in
    ctl (fun c => c <| nextPulse := now |>) p
  else p <| rate := fmax minimumRate (fmax (cut lost p) (fmul capacityDrain (capacity (control p)))) |>.

Definition pulseCongested (now : Time) (lost : bool) (queued : Duration) (p : lane) : lane :=
  let* p := decide_ (fun d => d <| PulseLosses := u64 (PulseLosses d + 1) |>) p in
  let* p := ctl (fun c => c <| pulseWins := 0 |> <| draining := true |>) p in
  let* p := if lost
           then ctl (fun c => c <| pulseEvery := Z.min maxPulseInterval (2 * Z.max pulseInterval (pulseEvery c)) |>) p
           else p in
  let* p := ctl (fun c => c <| drainBy := now + drainTime queued p |>) p in
  let* p := p <| rate := fmax minimumRate (fmul capacityDrain (capacity (control p))) |> in
  schedulePulse now p.

Definition remeasured (now : Time) (lost : bool) (queued : Duration) (p : lane) : lane :=
  let* p := decide_ (fun d => d <| CapacityRemeasured := u64 (CapacityRemeasured d + 1) |>) p in
  let* p := ctl (fun c => c <| capacity := measuredDelivery p |> <| pulseWins := 0 |>) p in
  let* p := if negb lost
           then let '(p, shown) := demonstrated now p in ctl (fun c => c <| capacity := shown |>) p
           else p in
  let* p := p <| rate := fmax minimumRate (cut lost p) |> in
  let* p := ctl (fun c => c <| drainBy := now + drainTime queued p |>) p in
  let* p := schedulePulse now p in
  ctl (fun c => c <| nextPulse := now |>) p.

Definition decayedBy (now : Time) (lost : bool) (queued : Duration) (p : lane) : lane :=
  let* p := decide_ (fun d => d <| CapacityDecays := u64 (CapacityDecays d + 1) |>) p in
  let decayed := fmul capacityDecay (capacity (control p)) in
  let '(p, decayed) :=
    if negb lost
    then let '(p, s) := sustainedNow now p in (p, fmax decayed (fmin (capacity (control p)) s))
    else (p, decayed) in
  let* p := ctl (fun c => c <| capacity := decayed |>) p in
  let* p := if lost && saturating p
           then ctl (fun c => c <| capacity := fmin (capacity c) (deliveryRate p) |>) p else p in
  let* p := p <| rate := fmax minimumRate (cut lost p) |> in
  ctl (fun c => c <| drainBy := now + drainTime queued p |>) p.

Definition congested (now : Time) (lost laneLimited : bool) (p : lane) : lane :=
  let queued := queueDelay p in
  let* p := pulseVerdict now lost p in
  let* p := drainEnded now lost p in
  let c := control p in
  if startup p && feq (capacity c) f0 && negb laneLimited && negb lost then
    p <| rate := fmax minimumRate (fmul (fofQ 9 10) (rate p)) |>
  else if startup p || feq (capacity c) f0 then discoveryCongested now lost laneLimited queued p
  else if awaitingVerdict c then pulseCongested now lost queued p
  else if draining c then
    p <| rate := fmax minimumRate (fmax (cut lost p) (fmul capacityDrop (capacity c))) |>
  else if negb (holdSignal c) && negb lost then ctl (fun c => c <| holdSignal := true |>) p
  else if negb lost && floorTestable now (signalDelay p) p then testFloor now (signalDelay p) p
  else if flt (rate p) (fmul capacityDrop (capacity c)) then
    if lost then remeasured now lost queued p
    else
      let '(p, s) := sustainedNow now p in
      if flt s (fmul capacityDecay (capacity c)) then remeasured now lost queued p
      else decayedBy now lost queued p
  else decayedBy now lost queued p.

(** *** Holding, probing and discovery *)
Definition pulse (now : Time) (p : lane) : lane :=
  let* p := decide_ (fun d => d <| Pulses := u64 (Pulses d + 1) |>) p in
  let length := toI64 (fmul (fofZ 15) (fofZ (congestionThreshold p))) in
  let length := Z.min maxPulse (Z.max minPulse length) in
  let* p := ctl (fun c => c <| pulseEnd := now + length |>) p in
  let* p := ctl (fun c => c <| verdictAt := pulseEnd c + (rtt p + peerACKInterval p) |>) p in
  p <| rate := fmin maximumRate (fmul (fofQ 11 10) (capacity (control p))) |>.

Definition rediscover (p : lane) : lane :=
  p <| startup := true |> <| startupBest := f0 |> <| startupFlatRounds := 0 |> <| discoveryGain := rediscoveryGain |>.

Definition holdOrPulse (now : Time) (laneLimited : bool) (p : lane) : lane :=
  let c := control p in
  let limit := fmul capacityHold (capacity c) in
  let ready := fge (rate p) limit && laneLimited && fge (sendRate p) (fmul startupPlateauSending limit) in
  if awaitingVerdict c && (now <? pulseEnd c) then p
  else if awaitingVerdict c && (now <? verdictAt c) then p <| rate := limit |>
  else if awaitingVerdict c && (time_sub now (verdictAt c) <? verdictExpiry) then
    let* p := ctl (fun c => c <| pendingWin := true |> <| wonAt := now |> <| wonSeq := seq p |> <| wonFrom := capacity c |>) p in
    let* p := ctl (fun c => c <| capacity := fmul (capacity c) (fadd (fofZ 1)
                               (fmul (fofQ 5 100) (fofZ (i64 (Z.shiftl 1 (pulseWins c)))))) |>) p in
    let* p := schedulePulse now p in
    let* p := ctl (fun c => c <| nextPulse := now + (meter.lossSettle + rtt p) |>) p in
    p <| rate := fmul capacityHold (capacity (control p)) |>
  else if awaitingVerdict c then schedulePulse now p
  else if pendingWin c && pulseSettled now p then
    let* p := decide_ (fun d => d <| PulseWins := u64 (PulseWins d + 1) |>) p in
    let* p := ctl (fun c => c <| pendingWin := false |> <| pulseEvery := 0 |>) p in
    let* p := ctl (fun c => c <| pulseWins := pulseWins c + 1 |>) p in
    if pulseWinsToLeave <=? pulseWins (control p) then
      let* p := decide_ (fun d => d <| Rediscoveries := u64 (Rediscoveries d + 1) |>) p in
      let* p := ctl (fun c => c <| pulseWins := 0 |>) p in
      let* p := schedulePulse now p in
      rediscover p
    else if ready then pulse now p else p
  else if negb (now <? nextPulse c) && ready then pulse now p
  else if flt (rate p) limit then p <| rate := fmin limit (fadd (fmul (rate p) (fofQ 106 100)) (fofZ 1500)) |>
  else p.

Definition boundByDelivery (now : Time) (stream : bool) (p : lane) : lane * bool :=
  if negb (startup p) || negb stream || feq (cget f0 (reserved p) classRealtime) f0 then (p, false)
  else
    let '(p, delivered) := recentNow now p in
    if feq delivered f0 then (p, false)
    else (p <| rate := fmin (rate p) (fmax minimumRate (fmul rediscoveryGain delivered)) |>, true).

(** The plateau rule of [discover]; [true] when discovery ended. *)
Definition discoverRound (now : Time) (delivered : float) (p : lane) : lane * bool :=
  if roundDone p then
    let* p := p <| roundDone := false |> in
    if fge delivered (fmul startupPlateauGrowth (startupBest p))
    then (p <| startupBest := delivered |> <| startupFlatRounds := 0 |>, false)
    else if flt (sendRate p) (fmul startupPlateauSending (rate p)) then (p <| startupFlatRounds := 0 |>, false)
    else
      let* p := p <| startupFlatRounds := startupFlatRounds p + 1 |> in
      if startupPlateauRounds <=? startupFlatRounds p then
        let* p := decide_ (fun d => d <| DiscoveryPlateau := u64 (DiscoveryPlateau d + 1) |>) p in
        let* p := p <| startup := false |> in
        let '(p, shown) := demonstrated now p in
        let* p := p <| control := control0 (fmin (startupBest p) shown) |> in
        let* p := schedulePulse now p in
        (p <| rate := fmax minimumRate (fmul capacityHold (capacity (control p))) |>, true)
      else (p, false)
  else (p, false).

Definition discover (now : Time) (realtime stream laneLimited : bool) (p : lane) : lane :=
  let gain := discoveryGain p in
  let gain := if realtime then fmin gain rediscoveryGain else gain in
  let* p := p <| rate := fmin maximumRate (fadd (fmul (rate p) (fofQ 106 100)) (fofZ 1500)) |> in
  let delivered := fmax (deliveryRate p) (deliverySample p) in
  let '(p, ended) := discoverRound now delivered p in
  if ended then p
  else
    let* p := p <| rate := fmax (rate p) (fmul gain delivered) |> in
    let '(p, bounded) := boundByDelivery now stream p in
    if bounded then p
    else
      let carried := fmax delivered (sendRate p) in
      if fgt carried f0 then
        let floor := if laneLimited then minimumRate else initialRate in
        p <| rate := fmin (rate p) (fmax floor (fmul gain carried)) |>
      else p.

Definition adjust (now : Time) (lost delayed sampled laneLimited realtime stream : bool) (p : lane) : lane :=
  if startup p && lost && negb (roundLossy p) then p
  else
    let lost := lost && roundLossy p && fgt (deliveryRate p) f0 in
    if delayed && negb lost && explains (signalDelay p) (congestionThreshold p) (stall p) then stalledSignal now p
    else if lost || delayed then
      let* p := if delayed then decide_ (fun d => d <| DelaySignals := u64 (DelaySignals d + 1) |>) p else p in
      let* p := if lost then decide_ (fun d => d <| LossSignals := u64 (LossSignals d + 1) |>) p <| droppedAt := now |>
               else p in
      congested now lost laneLimited p
    else if sampled then
      let* p := ctl (fun c => c <| holdSignal := false |> <| draining := false |> <| flushUntil := 0 |>) p in
      if startup p then discover now realtime stream laneLimited p
      else if feq (capacity (control p)) f0
      then p <| rate := fmin maximumRate (fadd (fmul (rate p) (fofQ 106 100)) (fofZ 1500)) |>
      else holdOrPulse now laneLimited p
    else p.

End lanes.
