(* ===== verification/BondTransport.v ===== *)
(** * The bonding transport ([internal/bond]: bond.go and schedule.go)

    The state machine its owner drives: enqueue, receive, poll, path and epoch
    changes.  Pointers shared between structures are keys into stores: lanes are
    positions of [paths], transmitted datagrams are kept in [pkts] under their
    sequence, receivers under the peer's lane.  A datagram still in a queue is
    referenced by that queue alone and is kept there by value.

    Go iterates maps in an unspecified order, and within one acknowledgement
    that order can matter.  The order in which a map of attempts is visited is
    the parameter [iter] of the operations; the theorems hold for every one. *)

From stdpp Require Import base tactics list numbers gmap sets.
From S2P Require Import Prelude Float64 Frame BondWire BondReceipt BondQueue BondMeter BondLane.

Module transport.
Import float64 lanes.
#[local] Existing Instances meter.eta_sustained bond.Epoch_eq_dec bond.RejectionCause_eq_dec.

Definition ackShare : float := fofQ 8 100.
Definition ackStreak : Z := 3.
Definition ackWireBytes : Z := Z.of_nat bond.headerBytes + Z.of_nat bond.ackBytes + 78.
Definition ackBatchPackets : Z := 64.
Definition priorityLead : Duration := 5 * millisecond.
Definition smallClassShare : float := fofQ 5 10.
Definition reservationHeadroom : float := fofQ 11 10.
Definition ipProtocolTCP : Z := 6.
Definition maxQueueAge : Duration := 100 * millisecond.
Definition realtimeQueueTarget : Duration := 20 * millisecond.
Definition realtimeQueueInterval : Duration := 100 * millisecond.
Definition maxBulkQueueAge : Duration := 250 * millisecond.
Definition discoveryQueueAge : Duration := second.
Definition maxPacketAge : Duration := 250 * millisecond.
Definition smallPacketHeadroom : Z := 1024.
Definition smallPacket : Z := 384.
Definition redundancyRate : float := fofZ 64000.
Definition redundancyShare : float := fofQ 2 10.
Definition standingWait : Duration := 5 * millisecond.

Record Transmission := mkTransmission { TPath : PathID; TFrame : frame.Control }.
Record Delivery := mkDelivery { DSequence : Z; DInteractive : bool; DPayload : list Z }.
Record PacketMetadata := mkMetadata { MFlow : list Z; MACK : queue.TCPACK }.

Record SmallQueueDropStats := mkDropStats { Admission : Z; Deadline : Z; Stale : Z }.
#[export] Instance eta_DropStats : Eta SmallQueueDropStats := fun s =>
  mkDropStats (Admission s) (Deadline s) (Stale s).
Definition DropStats0 : SmallQueueDropStats := mkDropStats 0 0 0.

Record SmallQueueResidenceStats := mkResidence { RCount : Z; TotalSeconds : float; Buckets : list Z }.
#[export] Instance eta_Residence : Eta SmallQueueResidenceStats := fun s =>
  mkResidence (RCount s) (TotalSeconds s) (Buckets s).
Definition Residence0 : SmallQueueResidenceStats := mkResidence 0 f0 (replicate 6 0).

Definition SmallQueueResidenceBounds : list Duration :=
  [millisecond; 5 * millisecond; 10 * millisecond; 20 * millisecond; 50 * millisecond; 100 * millisecond].

Record receiver := mkReceiver {
  rpath : PathID;
  remoteLane : PathID;
  receipts : receipt.receiptWindow;
  rbytes : Z;
  rstart : Time;
  rlast : Time;
  highAt : Time;
  rpending : Z;
  ackAt : Time;
  streak : Z;
  rreceived : meter.rateMeter;
  revision : Z
}.
#[export] Instance eta_receiver : Eta receiver := fun r =>
  mkReceiver (rpath r) (remoteLane r) (receipts r) (rbytes r) (rstart r) (rlast r) (highAt r) (rpending r)
    (ackAt r) (streak r) (rreceived r) (revision r).

#[export] Instance eta_packet : Eta queue.packet := fun p =>
  queue.mkPacket (queue.flow p) (queue.ack p) (queue.seq p) (queue.order p) (queue.pclass p) (queue.interactive p)
    (queue.payload p) (queue.created p) (queue.queueDeadline p) (queue.repairDeadline p) (queue.lastSent p)
    (queue.lastPath p) (queue.lastLaneSeq p) (queue.attempts p) (queue.acked p).

Record Transport := mkTransport {
  epoch : bond.Epoch;
  remote : bond.Epoch;
  paths : list lane;
  receivers : gmap Z receiver;
  receiverOrder : list Z;
  tqueue : list queue.packet;
  bulkAQM : queue.codel;
  small : list queue.fairPacketQueue;
  demand : list meter.rateMeter;
  pkts : gmap Z queue.packet;
  pending : gset Z;
  pendingOrder : list Z;
  tseq : Z;
  bulkSeq : Z;
  interactiveSeq : Z;
  redundancyTokens : float;
  realtimeLate : Time;
  realtimeSkipping : bool;
  realtimePath : PathID;
  realtimePathKnown : bool;
  realtimeMoves : Z;
  lastPoll : Time;
  lastTime : Time;
  rejected : bond.RejectionCause -> Z;
  drops : Z;
  admissionDrops : Z;
  aqmDrops : Z;
  interactiveDrops : Z;
  smallQueueDrops : list SmallQueueDropStats;
  smallQueueResidence : list SmallQueueResidenceStats;
  coalescedACKs : Z;
  expired : Z;
  duplicates : Z;
  treceived : receipt.receiptWindow;
  unreported : receipt.receiptWindow
}.
#[export] Instance eta_Transport : Eta Transport := fun t =>
  mkTransport (epoch t) (remote t) (paths t) (receivers t) (receiverOrder t) (tqueue t) (bulkAQM t) (small t)
    (demand t) (pkts t) (pending t) (pendingOrder t) (tseq t) (bulkSeq t) (interactiveSeq t)
    (redundancyTokens t) (realtimeLate t) (realtimeSkipping t) (realtimePath t) (realtimePathKnown t)
    (realtimeMoves t) (lastPoll t) (lastTime t) (rejected t) (drops t) (admissionDrops t) (aqmDrops t)
    (interactiveDrops t) (smallQueueDrops t) (smallQueueResidence t) (coalescedACKs t) (expired t)
    (duplicates t) (treceived t) (unreported t).

(** [New] panics on a zero epoch. *)
Definition initial (ep : bond.Epoch) : Transport :=
  mkTransport ep bond.Epoch0 [] ∅ [] [] queue.codel0 (replicate 2 queue.fair0)
    (replicate 2 meter.rateMeter0) ∅ ∅ [] 0 0 0 f0 0 false 0 false 0 0 0 (fun _ => 0) 0 0 0 0
    (replicate 2 DropStats0) (replicate 2 Residence0) 0 0 0 receipt.window0 receipt.window0.

Definition New (ep : bond.Epoch) : outcome unit Transport :=
  if (bond.Boot ep =? 0) || (bond.Generation ep =? 0) then Panic else Ok (initial ep).

(** The errors of the operations: a rejection with its cause, or the plain error
    of an impossible length. *)
Inductive terror := Rejection (c : bond.RejectionCause) | InvalidLength.

(** A time before the last one is refused and changes nothing. *)
Definition checkTime (now : Time) (t : Transport) : Transport * bool :=
  if now <? lastTime t then (t, false) else (t <| lastTime := now |>, true).

Definition upd (i : nat) (f : lane -> lane) (t : Transport) : Transport := t <| paths := alter f i (paths t) |>.

(** [find]: the position of the lane of that id. *)
Fixpoint find_from (i : nat) (ident : PathID) (l : list lane) : option nat :=
  match l with
  | [] => None
  | p :: l => if id p =? ident then Some i else find_from (S i) ident l
  end.
Definition find (ident : PathID) (t : Transport) : option nat := find_from 0 ident (paths t).

Definition queued (t : Transport) : Z :=
  Z.of_nat (length (tqueue t)) + queue.qcount (cget queue.fair0 (small t) classRealtime) +
  queue.qcount (cget queue.fair0 (small t) classSmall).

(** ** Epochs and paths *)
(** Its statements in order: the window and its sequence, what was learned from
    acknowledgements, the delay samples, and the controller. *)
Definition resetWindow (p : lane) : lane :=
  let* p := p <| lease := 0 |> in
  let* p := p <| attempts := ∅ |> in
  let* p := p <| inflight := 0 |> in
  let* p := p <| classInflight := replicate 3 0 |> in
  p <| seq := 0 |>.

Definition resetFeedback (p : lane) : lane :=
  let* p := p <| roundEnd := 0 |> <| roundDone := false |> <| roundLossy := false |> in
  let* p := p <| lastACK := 0 |> <| ackGap := 0 |> in
  let* p := p <| nextSend := 0 |> in
  let* p := p <| feedbackSent := meter.rateMeter0 |> in
  let* p := p <| losses := meter.lossLedger0 |> <| lossMark := f0 |> <| lossMarked := false |> in
  let* p := p <| reordering := meter.peak0 reorderMemory |> <| newestConfirmed := 0 |> in
  p <| ackRevision := 0 |> <| receivedHigh := 0 |> <| receivedThrough := 0 |>.

Definition resetSamples (p : lane) : lane :=
  let* p := p <| model := mkLinkModel 0 0 |> <| stall := stall0 |> in
  let* p := p <| ackReceipts := receipt.window0 |> in
  let* p := p <| ackedBytes := 0 |> <| ackedElapsed := 0 |> in
  let* p := p <| transitBases := transitBases0 |> in
  let* p := p <| haveInterval := false |> <| intervalSamples := 0 |> <| delayJitter := 0 |> in
  p <| delayDifferences := 0 |> <| intervalJitter := 0 |>.

Definition resetControl (p : lane) : lane :=
  let* p := p <| floorTesting := false |> <| floorSampling := false |> <| floorTestEvery := 0 |> in
  let* p := p <| firstSent := 0 |> in
  let* p := p <| idleForwardMean := 0 |> <| idleForwardVariation := 0 |> in
  let* p := p <| idleForwardKnown := false |> in
  let* p := p <| feedbackAt := 0 |> in
  let* p := p <| sustained := sustained p <| meter.marks := [] |> |> in
  let* p := p <| control := control0 (capacity (control p)) |> in
  if feq (capacity (control p)) f0 && negb (startup p) then rediscover p else p.

Definition resetLane (p : lane) : lane :=
  let* p := resetWindow p in
  let* p := resetFeedback p in
  let* p := resetSamples p in
  resetControl p.

(** What [SetRemote] drops of the transport itself. *)
Definition forgetPeer (ep : bond.Epoch) (t : Transport) : Transport :=
  let* t := t <| remote := ep |> in
  let* t := t <| expired := u64 (expired t + Z.of_nat (size (pending t))) |> in
  let* t := t <| pending := ∅ |> <| pkts := ∅ |> in
  let* t := t <| pendingOrder := [] |> in
  let* t := t <| tseq := 0 |> <| bulkSeq := 0 |> <| interactiveSeq := 0 |> in
  let* t := t <| receivers := ∅ |> in
  let* t := t <| receiverOrder := [] |> in
  let* t := t <| treceived := receipt.window0 |> in
  t <| unreported := receipt.window0 |>.

Definition SetRemote (ep : bond.Epoch) (adopted : bool) (t : Transport) : Transport * bool :=
  if bool_decide (ep = remote t) then (t, false)
  else if (bond.Boot ep =? 0) || (bond.Generation ep =? 0) then (t, false)
  else if negb (bond.Boot (remote t) =? 0) &&
          ((bond.Boot ep =? bond.Boot (remote t)) && (bond.Generation ep <=? bond.Generation (remote t)) ||
           negb (bond.Boot ep =? bond.Boot (remote t)) && negb adopted)
  then (t, false)
  else
    let* t := forgetPeer ep t in
    (t <| paths := map resetLane (paths t) |>, true).

(** The lane [Path] creates. *)
Definition newLane (ident remoteIdent : PathID) (roundTrip : Duration) (now : Time) : lane :=
  let stag := Z.land (Z.lxor (u16 ident) (Z.shiftr (u16 ident) 8)) 255 in
  {| model := mkLinkModel 0 0; feedbackSent := meter.rateMeter0; id := ident;
     remoteID := remoteIdent; lease := 0; rate := initialRate; deliveryRate := f0;
     deliverySample := f0; sendRate := f0; startup := true; discoveryGain := startupDeliveryGain;
     startupBest := f0; startupFlatRounds := 0; roundEnd := 0; roundDone := false;
     losses := meter.lossLedger0; roundLossy := false; previousDelivery := f0;
     control := control0 f0; peakDelivery := f0; recentDelivery := meter.peak0 0;
     sustained := meter.mkSustained [] (meter.peak0 meter.sustainedMemory);
     reordering := meter.peak0 reorderMemory; newestConfirmed := 0; wander := 0;
     wanderVariation := 0; wanderKnown := false; rtt := roundTrip; rttVariation := 0;
     idleRTTVariation := 0; idleRTT := roundTrip; idleForwardMean := 0; idleForwardVariation := 0;
     idleForwardKnown := false; feedbackRTT := 0; feedbackRTTVariation := 0; baseRTT := roundTrip;
     baseAt := now; nextSend := 0; classNext := replicate 3 0; reserved := replicate 2 f0;
     copies := f0; guaranteed := replicate 3 false; shared := false; decisions := Decisions0;
     bulkElsewhere := false; lastACK := 0; ackGap := 0; lastAdjust := 0; lossMark := f0;
     lossMarked := false; inflight := 0; classInflight := replicate 3 0; confirmedWireBytes := 0;
     seq := 0; ackRevision := 0; receivedHigh := 0; receivedThrough := 0; stall := stall0;
     ackReceipts := receipt.window0; ackedBytes := 0; ackedElapsed := 0; feedbackAt := 0;
     rateBytes := 0; rateSentBytes := 0; rateElapsed := 0; firstSent := 0; transitBucket := 0%nat;
     transitBases := transitBases0; intervalQueueDelay := 0; signalDelay := 0; delayJitter := 0;
     intervalJitter := 0; delayDifferences := 0; intervalSamples := 0; haveInterval := false;
     queueDelay := 0; nextBaseline := now + (baselineInterval + stag * baselineStagger);
     drainUntil := 0; baselinePending := false; floorTesting := false; floorSampling := false;
     floorTested := 0; floorTestEvery := 0; droppedAt := 0; lastTransmit := now; lastPayload := 0;
     attempts := ∅; sent := 0; interactiveSent := 0; realtimeOriginals := 0; bulkOriginals := 0;
     bulkReceived := 0; acked := 0; retries := 0 |}.

Definition PathUp (ident remoteIdent : PathID) (roundTrip : Duration) (now : Time) (t : Transport) :
    Transport * outcome terror unit :=
  match checkTime now t with
  | (t, false) => (t, Err (Rejection bond.RejectTime))
  | (t, true) =>
    match find ident t with
    | Some i => (upd i (fun p => p <| lease := now |>) t, Ok ())
    | None =>
      let roundTrip := if roundTrip <=? 0 then 50 * millisecond else roundTrip in
      let* p := newLane ident remoteIdent roundTrip now in
      (upd (length (paths t)) (fun p => p <| lease := now |>) (t <| paths := paths t ++ [p] |>), Ok ())
    end
  end.

Definition Disable (ident : PathID) (t : Transport) : Transport :=
  match find ident t with
  | None => t
  | Some i => upd i (fun p => p <| lease := 0 |>) t
  end.

(** ** Enqueue *)
Definition classify (length : Z) (m : PacketMetadata) : class :=
  if smallPacket <? length then classBulk
  else if (default 0 (MFlow m !! 1%nat) =? ipProtocolTCP) || queue.Eligible (MACK m) then classSmall
  else classRealtime.

Definition discovering (now : Time) (t : Transport) : bool :=
  existsb (fun p => bool_decide (liveness now p = LaneLive) && startup p) (paths t).

Definition slowestRoundTrip (now : Time) (t : Transport) : Duration :=
  fold_left (fun s p => if bool_decide (liveness now p = LaneLive) then Z.max s (rtt p) else s) (paths t) 0.

Definition bulkQueueAge (now : Time) (t : Transport) : Duration :=
  if discovering now t then discoveryQueueAge
  else Z.min discoveryQueueAge (Z.max maxBulkQueueAge (queue.target (bulkAQM t) + queue.interval (bulkAQM t))).

Definition Enqueue (payload : list Z) (m : PacketMetadata) (now : Time) (t : Transport) :
    Transport * outcome terror unit :=
  match checkTime now t with
  | (t, false) => (t, Err (Rejection bond.RejectTime))
  | (t, true) =>
    let len := Z.of_nat (length payload) in
    if (len =? 0) || (maxDatagram <? len) then (t, Err InvalidLength)
    else
      let c := classify len m in
      let limit := if bool_decide (c = classBulk) then maxPackets - smallPacketHeadroom else maxPackets in
      if limit <=? queued t + Z.of_nat (size (pending t)) then
        let* t := t <| drops := u64 (drops t + 1) |> <| admissionDrops := u64 (admissionDrops t + 1) |> in
        if negb (bool_decide (c = classBulk)) then
          let* s := cget DropStats0 (smallQueueDrops t) c in
          (t <| interactiveDrops := u64 (interactiveDrops t + 1) |>
             <| smallQueueDrops := cset (smallQueueDrops t) c (s <| Admission := u64 (Admission s + 1) |>) |>, Ok ())
        else (t, Ok ())
      else
        let* p := queue.mkPacket (MFlow m) (MACK m) 0 0 c false payload now
                   (now + bulkQueueAge now t) 0 0 0 0 0 false in
        if negb (bool_decide (c = classBulk)) then
          let* p := p <| queue.interactive := true |> <| queue.queueDeadline := now + maxQueueAge |> in
          match queue.push p (cget queue.fair0 (small t) c) with
          | None => (t, Panic)
          | Some (q, coalesced) =>
            let* t := t <| small := cset (small t) c q |> in
            (if coalesced then t <| coalescedACKs := u64 (coalescedACKs t + 1) |> else t, Ok ())
          end
        else (t <| tqueue := tqueue t ++ [p] |>, Ok ())
  end.

(** ** Acknowledgements *)

(** A transmitted datagram, and its class, by reference. *)
Definition pkt_class (ps : gmap Z queue.packet) (a : attempt) : option class :=
  k ← apacket a; queue.pclass <$> ps !! k.
Definition pkt_acked (ps : gmap Z queue.packet) (k : Z) : bool :=
  match ps !! k with Some d => queue.acked d | None => false end.
Definition pkt_attempts (ps : gmap Z queue.packet) (k : Z) : Z :=
  match ps !! k with Some d => queue.attempts d | None => 0 end.
Definition set_acked (k : Z) (ps : gmap Z queue.packet) : gmap Z queue.packet :=
  alter (fun d => d <| queue.acked := true |>) k ps.

(** What the loops over a lane's attempts work on: the lane, the store of
    datagrams and the set of pending ones. *)
Record work := mkWork { wl : lane; wp : gmap Z queue.packet; wq : gset Z }.
#[export] Instance eta_work : Eta work := fun w => mkWork (wl w) (wp w) (wq w).

Definition releaseUnless (a : attempt) (ps : gmap Z queue.packet) (p : lane) : lane :=
  if negb (released a) then release a (pkt_class ps a) p else p.

(** One iteration of [confirmArrived]. *)
Definition confirmOne (a : bond.acknowledgement) (k : Z) (w : work) : work :=
  match attempts (wl w) !! k with
  | None => w
  | Some s =>
    if bond.high a <? k then w
    else
      let* p := releaseUnless s (wp w) (wl w) in
      let* p := p <| acked := u64 (acked p + abytes s) |> in
      let* w := w <| wl := p |> in
      let* w := match apacket s with
               | None => w
               | Some d =>
                 w <| wl := p <| confirmedWireBytes := Z.min (maxPackets * maxDatagram) (confirmedWireBytes p + abytes s) |> |>
                   <| wp := set_acked d (wp w) |> <| wq := wq w ∖ {[d]} |>
               end in
      w <| wl := wl w <| attempts := delete k (attempts (wl w)) |> |>
  end.

Definition confirmArrived (order : list Z) (a : bond.acknowledgement) (thr : Z) (w : work) : work :=
  if negb (thr =? bond.bytes a) then w else fold_left (fun w k => confirmOne a k w) order w.

(** The lane bitmap of an acknowledgement. *)
Definition laneBit (a : bond.acknowledgement) (k : Z) : bool :=
  (k <=? bond.high a) && (u64 (bond.high a - k) <? 64) &&
  negb (Z.land (bond.mask a) (u64 (Z.shiftl 1 (u64 (bond.high a - k)))) =? 0).

Definition lateOne (a : bond.acknowledgement) (highSent : Time) (allowance : Duration) (ps : gmap Z queue.packet)
    (m : gmap Z attempt) (late k : Z) : Z :=
  match m !! k with
  | None => late
  | Some s =>
    if (bond.high a <=? k) || (allowance <=? time_sub highSent (asent s)) then late
    else if (u64 (bond.high a - k) <? 64) &&
            negb (Z.land (bond.mask a) (u64 (Z.shiftl 1 (u64 (bond.high a - k)))) =? 0) then late
    else if match apacket s with Some d => pkt_acked ps d || bond.received a d | None => false end then late
    else u64 (late + abytes s)
  end.

Definition lateBelow (order : list Z) (a : bond.acknowledgement) (highSent now : Time) (ps : gmap Z queue.packet)
    (p : lane) : lane * Z :=
  let '(m, v) := meter.peak_value now (reordering p) in
  let* p := p <| reordering := m |> in
  let allowance := Z.max targetQueue (Z.max (jitterSpreadFactor * delayJitter p)
                     (Z.max (jitterSpreadFactor * idleForwardVariation p) (toI64 (fmul reorderHeadroom v)))) in
  (p, fold_left (lateOne a highSent allowance ps (attempts p)) order 0).

(** The locals of [ack] that its first loop sets. *)
Record scan := mkScan {
  sw : work;
  sample : Duration;
  physicalFeedback : Duration;
  newest : Time;
  highSent : Time;
  sthr : Z;
  counted : bool
}.
#[export] Instance eta_scan : Eta scan := fun s =>
  mkScan (sw s) (sample s) (physicalFeedback s) (newest s) (highSent s) (sthr s) (counted s).
Definition onLane (f : lane -> lane) (s : scan) : scan := s <| sw := sw s <| wl := f (wl (sw s)) |> |>.

(** What the acknowledged datagram's timing tells the lane. *)
Definition idleForward (now : Time) (transit : Duration) (keepalive : bool) (p : lane) : lane :=
  if keepalive && (feedbackHorizon <=? time_sub now (lastPayload p)) then
    if negb (idleForwardKnown p) then p <| idleForwardMean := transit |> <| idleForwardKnown := true |>
    else
      let difference := transit - idleForwardMean p in
      let* p := p <| idleForwardMean := idleForwardMean p + Z.quot difference 8 |> in
      let difference := if difference <? 0 then - difference else difference in
      p <| idleForwardVariation := Z.quot (3 * idleForwardVariation p + difference) 4 |>
  else p.

Definition baselineArrived (smp : Duration) (sentAt : Time) (p : lane) : lane :=
  if baselinePending p && negb (sentAt <? drainUntil p) then
    let* p := if floorTesting p then p <| floorTesting := false |> <| floorSampling := true |>
             else rebaseline smp p <| transitBases := transitBases0 |> in
    let* p := p <| haveInterval := false |> <| intervalSamples := 0 |> in
    p <| baselinePending := false |>
  else p.

Definition delayBaseline (now : Time) (transit : Duration) (bytes : Z) (p : lane) : lane :=
  let* p := p <| transitBucket := Z.to_nat (Z.quot bytes transitSizeBucket) |> in
  let baseline := default transitBaseline0 (transitBases p !! transitBucket p) in
  let baseline := if negb (bknown baseline) || (transit <? bdelay baseline)
                  then mkBaseline transit true now else baseline in
  let* p := p <| transitBases := <[transitBucket p := baseline]> (transitBases p) |> in
  p <| queueDelay := transit - bdelay baseline |>.

(** [previous] is the queueing delay of the sample before. *)
Definition delayDifference (previous : Duration) (p : lane) : lane :=
  let difference := queueDelay p - previous in
  let difference := if difference <? 0 then - difference else difference in
  let* p := if 0 <? delayDifferences p
           then p <| delayJitter := delayJitter p + Z.quot (difference - delayJitter p) 8 |> else p in
  p <| delayDifferences := Z.min (jitterWarmup + 1) (delayDifferences p + 1) |>.

Definition delaySample (now : Time) (transit : Duration) (bytes : Z) (p : lane) : lane :=
  let previous := queueDelay p in
  let* p := delayBaseline now transit bytes p in
  let* p := delayDifference previous p in
  let* p := if negb (haveInterval p) || (queueDelay p <? intervalQueueDelay p)
           then p <| intervalQueueDelay := queueDelay p |> <| haveInterval := true |> else p in
  p <| intervalSamples := intervalSamples p + 1 |>.

Definition ackTiming (a : bond.acknowledgement) (now : Time) (snt : attempt) (s : scan) : scan :=
  let smp := time_sub now (asent snt) - bond.delay a in
  let* s := s <| sample := smp |> in
  let transit := bond.elapsed a - time_sub (asent snt) (firstSent (wl (sw s))) in
  let* s := onLane (idleForward now transit (bool_decide (apacket snt = None))) s in
  let* s := onLane (baselineArrived smp (asent snt)) s in
  onLane (delaySample now transit (abytes snt)) s.

(** One attempt of the acknowledging lane. *)
Definition ackOne (a : bond.acknowledgement) (now : Time) (fresh : bool) (k : Z) (s : scan) : scan :=
  match attempts (wl (sw s)) !! k with
  | None => s
  | Some snt =>
    if laneBit a k then
      let* s := if negb (confirmed snt) then
                 let* s := s <| physicalFeedback := Z.max (physicalFeedback s) (time_sub now (asent snt)) |> in
                 let* s := onLane (observeOrder now (asent snt)) s in
                 s <| newest := maxTime (newest s) (asent snt) |>
               else s in
      let* s := match apacket snt with
               | None => s
               | Some _ => onLane (fun p => p <| confirmedWireBytes :=
                             Z.min (maxPackets * maxDatagram) (confirmedWireBytes p + abytes snt) |>) s
               end in
      let* s := onLane (releaseUnless snt (wp (sw s))) s in
      let* s := onLane (fun p => p <| acked := u64 (acked p + abytes snt) |>) s in
      let* s := match apacket snt with
               | None => s
               | Some d => s <| sw := sw s <| wp := set_acked d (wp (sw s)) |> <| wq := wq (sw s) ∖ {[d]} |> |>
               end in
      let* s := onLane (fun p => p <| attempts := delete k (attempts p) |>) s in
      let* s := if fresh && (k =? bond.high a)
               then s <| highSent := asent snt |> <| sthr := through snt |> <| counted := true |> else s in
      if fresh && (k =? bond.high a) && (bond.delay a <=? u64 (time_sub now (asent snt)))
      then ackTiming a now snt s else s
    else
      match apacket snt with
      | None => s
      | Some d =>
        if (pkt_acked (wp (sw s)) d || bond.received a d) && (k <? bond.high a) && (64 <=? u64 (bond.high a - k)) then
          let* s := onLane (releaseUnless snt (wp (sw s))) s in
          let* s := if negb (confirmed snt) && (pkt_attempts (wp (sw s)) d =? 1) then
                     let* s := s <| physicalFeedback := Z.max (physicalFeedback s) (time_sub now (asent snt)) |> in
                     onLane (observeOrder now (asent snt)) s
                   else s in
          onLane (fun p => p <| attempts := delete k (attempts p) |>) s
        else s
      end
  end.

(** One attempt of the last loop, over every lane. *)
Definition settleOne (a : bond.acknowledgement) (now : Time) (k : Z) (s : work * Duration) : work * Duration :=
  let '(w, fb) := s in
  match attempts (wl w) !! k with
  | None => s
  | Some snt =>
    match apacket snt with
    | None => s
    | Some d =>
      if (pkt_acked (wp w) d || bond.received a d) && negb (confirmed snt) then
        let* w := w <| wp := set_acked d (wp w) |> in
        let* w := w <| wl := releaseUnless snt (wp w) (wl w) |> in
        let '(w, fb) :=
          if pkt_attempts (wp w) d =? 1
          then (w <| wl := observeOrder now (asent snt) (wl w) |>, Z.max fb (time_sub now (asent snt)))
          else (w, fb) in
        let snt := snt <| released := true |> <| confirmed := true |> in
        (w <| wl := wl w <| attempts := <[k := snt]> (attempts (wl w)) |> |>, fb)
      else s
    end
  end.

Definition laneLimited (now : Time) (t : Transport) : bool :=
  existsb (fun head => match head with
                       | Some p => standingWait <=? time_sub now (queue.created p)
                       | None => false
                       end)
    [queue.peek (cget queue.fair0 (small t) classRealtime); queue.peek (cget queue.fair0 (small t) classSmall);
     queue.fifo_peek (tqueue t)].

(** Readings of the demand of the real-time class rotate its meter. *)
Definition demandSteady (now : Time) (t : Transport) : Transport * bool :=
  let '(m, b) := meter.steady now (cget meter.rateMeter0 (demand t) classRealtime) in
  (t <| demand := cset (demand t) classRealtime m |>, b).
Definition demandRate (c : class) (now : Time) (t : Transport) : Transport * float :=
  let '(m, v) := meter.rate now (cget meter.rateMeter0 (demand t) c) in
  (t <| demand := cset (demand t) c m |>, v).

(** The part of [ack] before its loops. *)
Definition ackProgress (a : bond.acknowledgement) (now : Time) (progressed : bool) (p : lane) : lane :=
  let* p := if receivedHigh p <? bond.high a then p <| receivedThrough := 0 |> else p in
  let* p := p <| receivedHigh := Z.max (receivedHigh p) (bond.high a) |> in
  if progressed then
    let* p := p <| model := model p <| progressAt := now |> |> in
    if sthrough (stall p) <? bond.high a then p <| stall := stall0 |> else p
  else p.

(** The first loop: every pending datagram the receipt bitmap reports. *)
Definition ackReceived (a : bond.acknowledgement) (w : work) : work :=
  let got := filter (fun k => bond.received a k = true) (wq w) in
  w <| wp := set_fold set_acked (wp w) got |> <| wq := wq w ∖ got |>.

(** The round trip of a fresh acknowledgement. *)
Definition ackRTT (smp : Duration) (now : Time) (p : lane) : lane :=
  if 0 <? smp then
    let difference := smp - rtt p in
    let difference := if difference <? 0 then - difference else difference in
    let* p := p <| rttVariation := Z.quot (3 * rttVariation p + difference) 4 |> in
    let* p := if feedbackHorizon <=? time_sub now (lastPayload p) then
               if idleRTT p =? 0 then p <| idleRTT := smp |>
               else
                 let difference := smp - idleRTT p in
                 let difference := if difference <? 0 then - difference else difference in
                 p <| idleRTTVariation := Z.quot (3 * idleRTTVariation p + difference) 4 |>
                   <| idleRTT := Z.quot (7 * idleRTT p + smp) 8 |>
             else p in
    let* p := p <| rtt := Z.quot (7 * rtt p + smp) 8 |> in
    if is_zero_time (lastACK p) || (smp <? baseRTT p) || (30 * second <? time_sub now (baseAt p))
    then p <| baseRTT := smp |> <| baseAt := now |> else p
  else p.

Definition smooth (old new : float) : float := fadd (fmul (fofQ 8 10) old) (fmul (fofQ 2 10) new).

Definition ackRates (a : bond.acknowledgement) (now : Time) (p : lane) : lane :=
  if is_zero_time (feedbackAt p) then
    p <| rateBytes := bond.bytes a |> <| rateElapsed := bond.elapsed a |> <| feedbackAt := now |>
      <| rateSentBytes := sent p |>
  else if (deliveryInterval <=? u64 (bond.elapsed a - rateElapsed p)) &&
          (deliveryInterval <=? time_sub now (feedbackAt p)) then
    let* r := fdiv (fofZ (u64 (bond.bytes a - rateBytes p))) (Seconds (i64 (bond.elapsed a - rateElapsed p))) in
    let sr := fdiv (fofZ (u64 (sent p - rateSentBytes p))) (Seconds (time_sub now (feedbackAt p))) in
    let* p := p <| previousDelivery := deliverySample p |> <| deliverySample := r |> in
    let* p := if feq (deliveryRate p) f0 then p <| deliveryRate := r |> <| sendRate := sr |>
             else p <| deliveryRate := smooth (deliveryRate p) r |> <| sendRate := smooth (sendRate p) sr |> in
    let* p := p <| rateBytes := bond.bytes a |> <| rateElapsed := bond.elapsed a |> <| feedbackAt := now |> in
    let* p := p <| rateSentBytes := sent p |> in
    let* p := p <| sustained := meter.sustained_record now (bond.bytes a) (bond.elapsed a) (sustained p) |> in
    raiseToDelivery now p
  else p.

Definition ackCadence (now : Time) (p : lane) : lane :=
  let gap := time_sub now (lastACK p) in
  let* p := if negb (is_zero_time (lastACK p)) && (gap <? ackGapHorizon)
           then p <| ackGap := ackGap p + Z.quot (gap - ackGap p) 8 |> else p in
  p <| lastACK := now |>.

Definition endInterval (p : lane) : lane :=
  p <| haveInterval := false |> <| intervalSamples := 0 |> <| intervalJitter := delayJitter p |>.

(** A floor test's control interval. *)
Definition floorInterval (smp queued : Duration) (p : lane) : lane :=
  if smp =? 0 then p
  else
    let late := congestionThreshold p <? queued in
    if late && (intervalSamples p <? delaySamplesNeeded p) then p
    else
      let* p := endInterval p in
      let* p := p <| floorSampling := false |> in
      if late then floorMoved smp p else queueFound p.

(** The control interval that a fresh acknowledgement may end; [true] when the
    lane's target is to be adjusted, with whether it lost and was delayed. *)
Definition ackInterval_ (smp : Duration) (now : Time) (p : lane) : lane * option (bool * bool) :=
  if (now <? drainUntil p) || baselinePending p ||
     (time_sub now (lastAdjust p) <? Z.max (Z.min (rtt p) (100 * millisecond)) (50 * millisecond))
  then (p, None)
  else
    let* p := p <| lastAdjust := now |> in
    let queued := if haveInterval p then intervalQueueDelay p else queueDelay p in
    let* p := p <| signalDelay := queued |> in
    if floorSampling p then (floorInterval smp queued p, None)
    else
      let* p := if (0 <? smp) && (queued <=? maxWander) then
                 let '(p, light) := lightlyLoaded p in
                 if light then
                   let scatter := Z.quot (jitterSpreadFactor * delayJitter p) (Z.max 1 (intervalSamples p) + 1) in
                   observeWander (Z.max 0 (queued - scatter)) p
                 else p
               else p in
      let delayed := (0 <? smp) && (congestionThreshold p <? queued) in
      if delayed && (intervalSamples p <? delaySamplesNeeded p) then (p, None)
      else
        let* p := endInterval p in
        let '(l, deficit, known) := meter.settled now (losses p) in
        let* p := p <| losses := l |> in
        if known then
          let lost := lossMarked p && fge (fsub deficit (lossMark p)) (fofZ wireOverhead) in
          (p <| lossMark := deficit |> <| lossMarked := true |>, Some (lost, delayed))
        else (p, Some (false, delayed)).

(** The end of [ack]: the control interval, and the target's adjustment. *)
Definition ackControl (i : nat) (smp : Duration) (backlogged : bool) (now : Time) (t : Transport) : Transport :=
  match paths t !! i with
  | None => t
  | Some p =>
    let '(p, verdict) := ackInterval_ smp now p in
    let* t := upd i (fun _ => p) t in
    match verdict with
    | None => t
    | Some (lost, delayed) =>
      if negb backlogged then t
      else
        let limited := laneLimited now t in
        let '(t, demanded) := demandRate classRealtime now t in
        let '(t, stream) := demandSteady now t in
        upd i (adjust now lost delayed (0 <? smp) limited (fgt demanded f0) stream) t
    end
  end.

Section Iteration.
(** The order in which a map of attempts is visited. *)
Context (iter : Time -> gmap Z attempt -> list Z).

(** The last loop of [ack], over one lane. *)
Definition settleLane (a : bond.acknowledgement) (now : Time) (fb : Duration) (w : work) : work :=
  let '(w, fb) := fold_left (fun s k => settleOne a now k s) (iter now (attempts (wl w))) (w, fb) in
  w <| wl := observeFeedbackRTT fb (wl w) |>.

Fixpoint settleLanes (a : bond.acknowledgement) (now : Time) (i : nat) (fb : Duration) (n : nat)
    (ps : gmap Z queue.packet) (q : gset Z) (l : list lane) : list lane * gmap Z queue.packet :=
  match l with
  | [] => ([], ps)
  | p :: l =>
    let* w := settleLane a now (if (n =? i)%nat then fb else 0) (mkWork p ps q) in
    let '(l, ps) := settleLanes a now i fb (S n) (wp w) q l in
    (wl w :: l, ps)
  end.

Definition ack (i : nat) (a : bond.acknowledgement) (now : Time) (fresh : bool) (t : Transport) : Transport :=
  match paths t !! i with
  | None => t
  | Some p =>
    let silence := progressAge now (model p) in
    let progressed := fresh && ((receivedHigh p <? bond.high a) || (ackedBytes p <? bond.bytes a)) in
    let* p := ackProgress a now progressed p in
    let backlogged := (0 <? queued t) || (Z.quot (window p) 2 <=? inflight p) in
    let* w := ackReceived a (mkWork p (pkts t) (pending t)) in
    let* s := fold_left (fun s k => ackOne a now fresh k s) (iter now (attempts p))
               (mkScan w 0 0 (newestConfirmed p) 0 0 false) in
    let* w := sw s in
    let* w := if fresh then
               let* w := if counted s then w <| wl := wl w <| receivedThrough := sthr s |> |> else w in
               if (0 <? receivedThrough (wl w)) && (bond.high a =? receivedHigh (wl w))
               then confirmArrived (iter now (attempts (wl w))) a (receivedThrough (wl w)) w else w
             else w in
    let '(ls, ps) := settleLanes a now i (physicalFeedback s) 0 (wp w) (wq w) (<[i := wl w]> (paths t)) in
    let* t := t <| paths := ls |> <| pkts := ps |> <| pending := wq w |> in
    let* t := upd i (fun p => p <| newestConfirmed := newest s |>) t in
    let* t := if progressed && (stallSilence <=? silence) && (silence <? pathLease) &&
                (silence <=? physicalFeedback s)
             then upd i (stallEnded silence) t else t in
    let* t := if counted s
             then upd i (fun p =>
                    let '(p, late) := lateBelow (iter now (attempts p)) a (highSent s) now (pkts t) p in
                    p <| losses := meter.loss_record now (bond.high a) (sthr s) (bond.bytes a) late (losses p) |>) t
             else t in
    let* t := upd i (fun p =>
               if fresh && (roundEnd p <=? bond.high a)
               then p <| roundEnd := u64 (seq p + 1) |> <| roundDone := true |>
                      <| roundLossy := meter.material now (losses p) |>
               else p) t in
    if negb fresh then t
    else
      let* t := upd i (ackRTT (sample s) now) t in
      let* t := upd i (ackRates a now) t in
      let* t := upd i (fun p => p <| peakDelivery := fmax (peakDelivery p) (deliveryRate p) |>) t in
      let* t := upd i (fun p => p <| ackedBytes := bond.bytes a |> <| ackedElapsed := bond.elapsed a |>) t in
      let* t := upd i (fun p => p <| recentDelivery := meter.peak_record now (deliveryRate p) (recentDelivery p) |>) t in
      let '(t, stream) := demandSteady now t in
      let* t := upd i (fun p => fst (boundByDelivery now stream p)) t in
      let* t := upd i (ackCadence now) t in
      ackControl i (sample s) backlogged now t
  end.

(** ** Receiving *)
Definition reject (c : bond.RejectionCause) : outcome terror (list Delivery) := Err (Rejection c).

(** A data frame that passed the checks of its header, on the lane at [i]. *)
Definition receiveData (path : PathID) (i : nat) (ln : PathID) (fseq : Z) (body : list Z) (dseq order : Z)
    (now : Time) (t : Transport) : Transport * outcome terror (list Delivery) :=
  let '(t, r) := match receivers t !! ln with
                 | Some r => (t, r)
                 | None =>
                   let* r := mkReceiver path ln receipt.window0 0 now 0 0 0 now 0 meter.rateMeter0 0 in
                   (t <| receivers := <[ln := r]> (receivers t) |> <| receiverOrder := receiverOrder t ++ [ln] |>, r)
                 end in
  if negb (rpath r =? path) then (t, reject bond.RejectLane)
  else
    let previousHigh := receipt.whigh (receipts r) in
    let '(rw, new) := receipt.mark fseq (receipts r) in
    let* r := r <| receipts := rw |> in
    if negb new then
      (t <| receivers := <[ln := r]> (receivers t) |> <| duplicates := u64 (duplicates t + 1) |>, Ok [])
    else
      let* r := if previousHigh <? fseq then r <| highAt := now |> else r in
      let bytes := Z.of_nat (length body) + wireOverhead in
      let* r := r <| rbytes := u64 (rbytes r + bytes) |> in
      let* r := r <| rreceived := meter.add now (fofZ bytes) (rreceived r) |> in
      let* r := r <| rlast := now |> in
      let* r := r <| rpending := rpending r + 1 |> in
      let* t := t <| receivers := <[ln := r]> (receivers t) |> in
      if dseq =? 0 then (t, Ok [])
      else
        let* t := if Z.land order bond.interactiveBit =? 0
                 then upd i (fun p => p <| bulkReceived := u64 (bulkReceived p + 1) |>) t else t in
        let '(tw, new) := receipt.mark dseq (treceived t) in
        let* t := t <| treceived := tw |> in
        if negb new then (t <| duplicates := u64 (duplicates t + 1) |>, Ok [])
        else
          let* t := t <| unreported := fst (receipt.mark dseq (unreported t)) |> in
          (t, Ok [mkDelivery (Z.land order (Z.lxor bond.interactiveBit (2 ^ 64 - 1)))
                    (negb (Z.land order bond.interactiveBit =? 0)) body]).

Definition receiveACK (path : PathID) (i : nat) (p : lane) (ln : PathID) (f : frame.Control) (now : Time)
    (t : Transport) : Transport * outcome terror (list Delivery) :=
  if negb (ln =? path) then (t, reject bond.RejectLane)
  else
    match bond.parseACK (frame.ControlPayload f) with
    | Panic => (t, Panic)
    | Err c => (t, reject c)
    | Ok a =>
      if negb (bool_decide (bond.observed a = epoch t)) then (t, reject bond.RejectEpoch)
      else
        let fresh := ackRevision p <? frame.Seq f in
        if (seq p <? bond.high a) || (tseq t <? bond.receivedHigh a) ||
           fresh && ((bond.bytes a <? ackedBytes p) || (bond.elapsed a <? ackedElapsed p)) ||
           negb fresh && ((ackedBytes p <? bond.bytes a) || (ackedElapsed p <? bond.elapsed a))
        then (t, reject bond.RejectACK)
        else
          let '(aw, new) := receipt.mark (frame.Seq f) (ackReceipts p) in
          let* t := upd i (fun p => p <| ackReceipts := aw |>) t in
          if negb new then (t, reject bond.RejectACK)
          else
            let* t := if fresh then upd i (fun p => p <| ackRevision := frame.Seq f |>) t else t in
            (ack i a now fresh t, Ok [])
    end.

(** Reads at fixed offsets of a data payload whose size was checked. *)
Definition field (o : nat) (b : list Z) : Z := be_get (take 8 (drop o b)).

Definition receive (path : PathID) (f : frame.Control) (now : Time) (t : Transport) :
    Transport * outcome terror (list Delivery) :=
  match checkTime now t with
  | (t, false) => (t, reject bond.RejectTime)
  | (t, true) =>
    let b := frame.ControlPayload f in
    match bond.parseHeader b with
    | Panic => (t, Panic)
    | Err c => (t, reject c)
    | Ok h =>
      if negb (bool_decide (bond.epoch h = remote t)) || (frame.Seq f =? 0) then (t, reject bond.RejectEpoch)
      else
        match find path t ≫= fun i => (i,.) <$> paths t !! i with
        | None => (t, reject bond.RejectPath)
        | Some (i, local) =>
          if negb (up now local) then (t, reject bond.RejectPath)
          else if frame.ControlType f =? bond.DataType then
            if negb (bond.lane h =? remoteID local) then (t, reject bond.RejectLane)
            else if (length b <? bond.headerBytes + 32)%nat ||
                    (bond.headerBytes + 32 + Z.to_nat maxDatagram <? length b)%nat then (t, reject bond.RejectMalformed)
            else
              let destination := bond.mkEpoch (field bond.headerBytes b) (field (bond.headerBytes + 8) b) in
              if negb (bool_decide (destination = epoch t)) then (t, reject bond.RejectEpoch)
              else
                let dseq := field (bond.headerBytes + 16) b in
                let order := field (bond.headerBytes + 24) b in
                if (dseq =? 0) && (negb (order =? 0) || negb (length b =? bond.headerBytes + 32)%nat)
                then (t, reject bond.RejectMalformed)
                else if negb (dseq =? 0) &&
                        ((Z.land order (Z.lxor bond.interactiveBit (2 ^ 64 - 1)) =? 0) ||
                         (length b =? bond.headerBytes + 32)%nat)
                then (t, reject bond.RejectMalformed)
                else receiveData path i (bond.lane h) (frame.Seq f) (drop (bond.headerBytes + 32) b) dseq order now t
          else if frame.ControlType f =? bond.ACKType then receiveACK path i local (bond.lane h) f now t
          else (t, reject bond.RejectType)
        end
    end
  end.

Definition Receive (path : PathID) (f : frame.Control) (now : Time) (t : Transport) :
    Transport * outcome terror (list Delivery) :=
  match receive path f now t with
  | (t, Err (Rejection c)) =>
    (t <| rejected := fun c' => if bool_decide (c' = c) then u64 (rejected t c' + 1) else rejected t c' |>,
     Err (Rejection c))
  | (t, Err InvalidLength) => (t, Panic)
  | x => x
  end.

End Iteration.

(** ** Scheduling ([schedule.go]) *)
Definition PacingRate (now : Time) (t : Transport) : float :=
  fold_left (fun r p => if eligible classRealtime now p then fadd r (rate p) else r) (paths t) f0.

Definition copyBudget (now : Time) (t : Transport) : float :=
  fmin redundancyRate (fmul redundancyShare (PacingRate now t)).

(** [sort.SliceStable] of lane positions by latency. *)
Definition lat (t : Transport) (i : nat) : Duration := match paths t !! i with Some p => latency p | None => 0 end.
Fixpoint insert_lane (t : Transport) (i : nat) (l : list nat) : list nat :=
  match l with
  | [] => [i]
  | j :: l => if lat t j <=? lat t i then j :: insert_lane t i l else i :: j :: l
  end.
Definition sort_lanes (t : Transport) (l : list nat) : list nat :=
  fold_left (fun acc i => insert_lane t i acc) l [].

Definition resetShares (bulkWaiting : bool) (p : lane) : lane :=
  p <| reserved := replicate 2 f0 |> <| guaranteed := replicate 3 false |> <| shared := bulkWaiting |>
    <| copies := f0 |> <| bulkElsewhere := false |>.

Definition nextClass (c : class) : class :=
  match c with queue.classRealtime => classSmall | _ => classBulk end.

Definition laneIs (f : lane -> bool) (t : Transport) (i : nat) : bool :=
  match paths t !! i with Some p => f p | None => false end.

(** [assignable] with the class's need; the meter of its demand was rotated to
    [now] when that need was read. *)
Fixpoint needBefore (now : Time) (c : class) (t : Transport) (need : float) (ls : list nat) (free : list float)
    (n : nat) : float :=
  match n, ls, free with
  | S n, i :: ls, f :: free =>
    needBefore now c t (if laneIs (eligible c now) t i then fsub need (fmin need f) else need) ls free n
  | _, _, _ => need
  end.
Definition assignable (now : Time) (c : class) (t : Transport) (need : float) (ls : list nat) (free : list float)
    (pos : nat) : float :=
  fmin (needBefore now c t need ls free pos) (default f0 (free !! pos)).

Definition roomLeft (now : Time) (c : class) (t : Transport) (need : float) (ls : list nat) (free : list float)
    (pos : nat) : float :=
  fsub (default f0 (free !! pos)) (assignable now c t need ls free pos).

Definition pickGuarantor (now : Time) (c : class) (t : Transport) (need : float) (ls : list nat) (free : list float) :
    option nat :=
  fold_left (fun g pos =>
    if match ls !! pos with Some i => laneIs (eligible (nextClass c) now) t i | None => false end then
      match g with
      | None => Some pos
      | Some g' => if fgt (roomLeft now c t need ls free pos) (roomLeft now c t need ls free g') then Some pos else g
      end
    else g) (List.seq 0%nat (length ls)) None.

(** The assignment of one class's need, lane by lane. *)
Fixpoint assign (now : Time) (c : class) (bulkWaiting : bool) (guarantor : option nat) (pos : nat) (need : float)
    (ls : list nat) (free : list float) (t : Transport) : Transport * list float :=
  match ls, free with
  | i :: ls, f :: free =>
    match paths t !! i with
    | Some p =>
      if negb (eligible c now p) then
        let '(t, free) := assign now c bulkWaiting guarantor (S pos) need ls free t in (t, f :: free)
      else
        let room := f in
        let room := if bool_decide (guarantor = Some pos)
                    then fsub room (fmul (fmul (fofZ (match c with queue.classRealtime => 2 | queue.classSmall => 1 | queue.classBulk => 0 end))
                                            minimumClassShare) (rate p))
                    else room in
        let room := if bool_decide (c = classSmall) && bulkWaiting && negb (realtimeLane p)
                    then fmin room (fmul smallClassShare f) else room in
        let* r := fmax f0 (fmin need room) in
        let* t := upd i (fun p => p <| reserved := cset (reserved p) c r |>) t in
        let '(t, free) := assign now c bulkWaiting guarantor (S pos) (fsub need r) ls free t in
        (t, fsub f r :: free)
    | None => (t, f :: free)
    end
  | _, _ => (t, free)
  end.

Definition reservedRT (p : lane) : float := cget f0 (reserved p) classRealtime.

Fixpoint copyShares (now : Time) (originals suspect need : float) (ls : list nat) (free : list float)
    (t : Transport) : Transport * list float :=
  match ls, free with
  | i :: ls, f :: free =>
    match paths t !! i with
    | Some p =>
      let forced := if bool_decide (liveness now p = LaneSuspect) then fsub suspect (reservedRT p) else suspect in
      let c := fmin f (fmax forced (fmul need (fsub (fofZ 1) (fdiv (reservedRT p) originals)))) in
      let* t := upd i (fun p => p <| copies := c |>) t in
      let '(t, free) := copyShares now originals suspect need ls free t in
      (t, fsub f c :: free)
    | None => (t, f :: free)
    end
  | _, _ => (t, free)
  end.

Definition sumLanes (f : lane -> bool) (ls : list nat) (t : Transport) : float :=
  fold_left (fun s i => match paths t !! i with
                        | Some p => if f p then fadd s (reservedRT p) else s
                        | None => s
                        end) ls f0.

Definition reserveCopies (now : Time) (ls : list nat) (free : list float) (t : Transport) : Transport * list float :=
  let originals := sumLanes (fun _ => true) ls t in
  let suspect := sumLanes (fun p => bool_decide (liveness now p = LaneSuspect)) ls t in
  if feq originals f0 || (length ls <? 2)%nat then (t, free)
  else copyShares now originals suspect (fmin (copyBudget now t) originals) ls free t.

Definition markBulkElsewhere (now : Time) (ls : list nat) (t : Transport) : Transport :=
  let quiet := existsb (laneIs (fun p => eligible classBulk now p && feq (reservedRT p) f0) t) ls in
  fold_left (fun t i => upd i (fun p => p <| bulkElsewhere := quiet && fgt (reservedRT p) f0 |>) t) ls t.

Definition reserveClass (now : Time) (bulkWaiting : bool) (ls : list nat) (c : class)
    (s : Transport * list float) : Transport * list float :=
  let '(t, free) := s in
  let '(t, d) := demandRate c now t in
  let need := fmul reservationHeadroom d in
  let guarantor := pickGuarantor now c t need ls free in
  let '(t, free) := assign now c bulkWaiting guarantor 0 need ls free t in
  let* t := match guarantor ≫= (ls !!.) with
           | Some i => upd i (fun p => p <| guaranteed := cset (guaranteed p) (nextClass c) true |>) t
           | None => t
           end in
  if bool_decide (c = classRealtime) then
    let '(t, free) := reserveCopies now ls free t in
    (markBulkElsewhere now ls t, free)
  else (t, free).

Definition reserve (now : Time) (t : Transport) : Transport :=
  let bulkWaiting := (0 <? length (tqueue t))%nat in
  let* t := t <| paths := map (resetShares bulkWaiting) (paths t) |> in
  let ls := List.filter (laneIs (eligible classRealtime now) t) (List.seq 0%nat (length (paths t))) in
  if (length ls =? 0)%nat then t
  else
    let ls := sort_lanes t ls in
    let free := map (fun i => match paths t !! i with Some p => rate p | None => f0 end) ls in
    fst (reserveClass now bulkWaiting ls classSmall (reserveClass now bulkWaiting ls classRealtime (t, free))).

(** Whether the lane may take the datagram, and when it would arrive. *)
Definition laneArrival (now : Time) (c : class) (size : Z) (contended : bool) (leased : Z) (avoid : bool) (p : lane) :
    option Duration :=
  if (now <? flushUntil (control p)) && negb (bool_decide (c = classRealtime)) then None
  else
    let* w := window p in
    let lead := if bool_decide (c = classBulk) && negb contended then 0 else priorityLead in
    let classLead := lead in
    let inflightOf c := cget 0 (classInflight p) c in
    let check :=
      if bool_decide (c = classRealtime) then
        if (w <? inflight p) &&
           fgt (fofZ (inflightOf c))
             (fdiv (fmul (fofZ w) (fadd (cget f0 (reserved p) c) (copies p))) (rate p))
        then None
        else
          let borrow := if (leased =? 1) || (0 <? inflightOf classBulk) || (0 <? inflightOf classSmall) ||
                           avoid && fgt (copies p) f0
                        then fullDatagramWireBytes else size in
          Some (lead + toI64 (fmul (fdiv (fofZ borrow) (rate p)) fsecond))
      else
        let allow := allowed c p in
        if feq allow f0 || (Z.max size w <? inflight p + size) ||
           (classWindow c size w allow p <? inflightOf c + size)
        then None else Some lead in
    match check with
    | None => None
    | Some lead =>
      if (now + classLead <? cget 0 (classNext p) c) || (now + lead <? nextSend p) then None
      else Some (Z.max 0 (time_sub (nextSend p) now) + Z.quot (latency p) 2)
    end.

Definition chooseLane (now : Time) (c : class) (size : Z) (exclude : PathID) (avoid : bool) (t : Transport) :
    option nat :=
  let contended := 0 <? queue.qcount (cget queue.fair0 (small t) classRealtime) +
                        queue.qcount (cget queue.fair0 (small t) classSmall) in
  let leased := if bool_decide (c = classRealtime) then count (up now) (paths t) else 0 in
  fst <$> fold_left (fun best i =>
    match paths t !! i with
    | None => best
    | Some p =>
      if negb (eligible c now p) || (now <? drainUntil p) && bool_decide (c = classBulk) ||
         avoid && (id p =? exclude) then best
      else
        match laneArrival now c size contended leased avoid p with
        | None => best
        | Some arrival =>
          match best with
          | Some (_, b) => if arrival <? b then Some (i, arrival) else best
          | None => Some (i, arrival)
          end
        end
    end) (List.seq 0%nat (length (paths t))) None.

Definition stale (now : Time) (head : queue.packet) (t : Transport) : Transport * bool :=
  if time_sub now (queue.created head) <=? realtimeQueueTarget
  then (t <| realtimeLate := 0 |> <| realtimeSkipping := false |>, false)
  else if realtimeSkipping t then (t, true)
  else
    let* t := if is_zero_time (realtimeLate t) then t <| realtimeLate := now |> else t in
    let* t := t <| realtimeSkipping := realtimeQueueInterval <=? time_sub now (realtimeLate t) |> in
    (t, realtimeSkipping t).

(** ** Sending *)
Fixpoint bumpBuckets (wait : Duration) (bounds : list Duration) (bs : list Z) : list Z :=
  match bounds, bs with
  | b :: bounds, n :: bs => (if wait <=? b then u64 (n + 1) else n) :: bumpBuckets wait bounds bs
  | _, _ => bs
  end.

Definition wireSize (p : queue.packet) : Z := Z.of_nat (length (queue.payload p)) + wireOverhead.

(** The first transmission of a datagram on the lane at [i]: its statistics. *)
Definition firstStatistics (now : Time) (size : Z) (i : nat) (ident : PathID) (p : queue.packet) (t : Transport) : Transport :=
  let c := queue.pclass p in
  let bulk := bool_decide (c = classBulk) in
  let* t := if negb bulk then
             let wait := time_sub now (queue.created p) in
             let* r := cget Residence0 (smallQueueResidence t) c in
             let* r := r <| RCount := u64 (RCount r + 1) |> <| TotalSeconds := fadd (TotalSeconds r) (Seconds wait) |>
                        <| Buckets := bumpBuckets wait SmallQueueResidenceBounds (Buckets r) |> in
             t <| smallQueueResidence := cset (smallQueueResidence t) c r |>
           else t in
  let* t := if bool_decide (c = classRealtime) then
             let* t := upd i (fun l => l <| realtimeOriginals := u64 (realtimeOriginals l + 1) |>) t in
             let* t := if realtimePathKnown t && negb (realtimePath t =? ident)
                      then t <| realtimeMoves := u64 (realtimeMoves t + 1) |> else t in
             t <| realtimePath := ident |> <| realtimePathKnown := true |>
           else t in
  let* t := if bulk then upd i (fun l => l <| bulkOriginals := u64 (bulkOriginals l + 1) |>) t else t in
  if negb bulk
  then t <| demand := cset (demand t) c (meter.add now (fofZ size) (cget meter.rateMeter0 (demand t) c)) |>
  else t.

(** Its repair deadline. *)
Definition firstDeadline (now : Time) (p : queue.packet) : queue.packet :=
  let* p := p <| queue.repairDeadline := now + maxPacketAge |> in
  if queue.interactive p then p <| queue.repairDeadline := queue.created p + maxPacketAge |> else p.

(** Its place in the two sequence spaces. *)
Definition firstSequence (p : queue.packet) (t : Transport) : Transport * queue.packet :=
  let* t := t <| tseq := u64 (tseq t + 1) |> in
  let* p := p <| queue.seq := tseq t |> in
  let '(t, p) :=
    if queue.interactive p then
      let* t := t <| interactiveSeq := u64 (interactiveSeq t + 1) |> in
      (t, p <| queue.order := Z.lor (interactiveSeq t) bond.interactiveBit |>)
    else
      let* t := t <| bulkSeq := u64 (bulkSeq t + 1) |> in
      (t, p <| queue.order := bulkSeq t |>) in
  (t <| pendingOrder := pendingOrder t ++ [queue.seq p] |>, p).

Definition firstTransmission (now : Time) (size : Z) (i : nat) (ident : PathID) (p : queue.packet) (t : Transport) :
    Transport * queue.packet :=
  let* t := firstStatistics now size i ident p t in
  let* p := firstDeadline now p in
  firstSequence p t.

(** What the lane does with the attempt: it enters the window, and the lane is
    paced. *)
Definition enterWindow (now : Time) (size : Z) (p : queue.packet) (l : lane) : lane :=
  let c := queue.pclass p in
  let* l := l <| attempts := <[seq l := mkAttempt (Some (queue.seq p)) now size false false (u64 (sent l + size))]> (attempts l) |> in
  let* l := l <| inflight := inflight l + size |> in
  l <| classInflight := cset (classInflight l) c (cget 0 (classInflight l) c + size) |>.

Definition laneTransmit (now : Time) (size : Z) (p : queue.packet) (l : lane) : lane :=
  let c := queue.pclass p in
  let* l := beginAttempt now l in
  let* l := if is_zero_time (firstSent l) then l <| firstSent := now |> else l in
  let* l := enterWindow now size p l in
  let* l := l <| sent := u64 (sent l + size) |> in
  let* l := if queue.interactive p then l <| interactiveSent := u64 (interactiveSent l + size) |> else l in
  let* l := pace now size l in
  let allow := allowed c l in
  let* l := if fgt allow f0
           then l <| classNext := cset (classNext l) c
                       (maxTime (cget 0 (classNext l) c) (now - 2 * millisecond) +
                        toI64 (fmul (fdiv (fofZ size) allow) fsecond)) |>
           else l in
  let* l := if 0 <? queue.attempts p then l <| retries := u64 (retries l + 1) |> else l in
  let* l := l <| lastTransmit := now |> in
  l <| lastPayload := now |>.

(** [transmit] on the lane at [i], with the datagram as it is stored afterwards. *)
Definition transmit (now : Time) (p : queue.packet) (i : nat) (t : Transport) :
    Transport * queue.packet * list Transmission :=
  match paths t !! i with
  | None => (t, p, [])
  | Some l =>
    let size := wireSize p in
    let '(t, p) := if queue.seq p =? 0 then firstTransmission now size i (id l) p t else (t, p) in
    let* t := upd i (laneTransmit now size p) t in
    let laneSeq := match paths t !! i with Some l => seq l | None => 0 end in
    let* p := p <| queue.attempts := queue.attempts p + 1 |> in
    let* p := p <| queue.lastSent := now |> <| queue.lastPath := id l |> <| queue.lastLaneSeq := laneSeq |> in
    let* t := t <| pkts := <[queue.seq p := p]> (pkts t) |> <| pending := {[queue.seq p]} ∪ pending t |> in
    (t, p, [mkTransmission (id l) (bond.dataFrame (epoch t) (remote t) (id l) laneSeq (queue.seq p)
                                     (queue.order p) (queue.payload p))])
  end.

(** ** Polling *)
Definition ackIntervalFor (received : float) : Duration :=
  if fle received f0 then maxACKInterval
  else
    let interval := toI64 (fmul (fdiv (fofZ ackWireBytes) (fmul ackShare received)) fsecond) in
    Z.min maxACKInterval (Z.max ackInterval interval).

Definition ackDue (now : Time) (r : receiver) : receiver * bool :=
  if ackBatchPackets <=? rpending r then (r, true)
  else
    let '(r, interval) :=
      if ackStreak <=? streak r then
        let '(m, v) := meter.rate now (rreceived r) in (r <| rreceived := m |>, ackIntervalFor v)
      else (r, ackInterval) in
    (r, interval <=? time_sub now (ackAt r)).

(** The acknowledgement one receiver owes, if it is due. *)
Definition pollReceiver (now : Time) (key : Z) (s : Transport * list Transmission) : Transport * list Transmission :=
  let '(t, out) := s in
  match receivers t !! key with
  | None => s
  | Some r =>
    match find (rpath r) t ≫= fun i => (i,.) <$> paths t !! i with
    | None => s
    | Some (i, path) =>
      if negb (up now path) then s
      else
        let o := receipt.oldest (unreported t) in
        if (0 <? rpending r) || negb (o =? 0) then
          let '(r, due) := ackDue now r in
          if due then
            let* r := if time_sub now (ackAt r) <? ackGapHorizon then r <| streak := streak r + 1 |>
                     else r <| streak := 0 |> in
            let* r := r <| revision := u64 (revision r + 1) |> in
            let hi := receipt.reportHigh (treceived t) (unreported t) in
            let a := bond.mkAck (remote t) (receipt.whigh (receipts r)) (receipt.word (receipt.wmask (receipts r)) 0)
                       (rbytes r) (u64 (time_sub (highAt r) (rstart r))) (u64 (time_sub now (highAt r)))
                       hi (receipt.bitmap hi (treceived t)) in
            let out := out ++ [mkTransmission (rpath r) (bond.ackFrame (epoch t) (remoteLane r) (revision r) a)] in
            let* t := upd i (fun p => p <| feedbackSent := meter.add now (fofZ ackWireBytes) (feedbackSent p) |>) t in
            let* t := upd i (pace now ackWireBytes) t in
            let* t := t <| unreported := receipt.forgetThrough hi (unreported t) |> in
            let* r := r <| rpending := 0 |> <| ackAt := now |> in
            (t <| receivers := <[key := r]> (receivers t) |>, out)
          else (t <| receivers := <[key := r]> (receivers t) |>, out)
        else s
    end
  end.

(** The periodic drain that re-measures a slow lane's baseline. *)
Definition pollBaseline (now : Time) (p : lane) : lane :=
  if negb (now <? nextBaseline p) && (targetQueue <? queueDelay p) &&
     fle (rate p) (fmax (fofZ 17600) (fdiv (peakDelivery p) (fofZ 2)))
  then p <| drainUntil := now + Z.max baselineDrain (2 * rtt p) |> <| nextBaseline := now + baselineInterval |>
         <| baselinePending := true |>
  else p.

(** One attempt of the timeout loop. *)
Definition timeoutOne (now : Time) (ps : gmap Z queue.packet) (p : lane) (k : Z) : lane :=
  match attempts p !! k with
  | None => p
  | Some a =>
    let '(p, a) :=
      if negb (released a) && (rto p <=? time_sub now (asent a)) then
        let* p := release a (pkt_class ps a) p in
        let a := a <| released := true |> in
        (p <| attempts := <[k := a]> (attempts p) |>, a)
      else (p, a) in
    if feedbackHorizon <=? time_sub now (asent a) then
      let* p := releaseUnless a ps p in
      p <| attempts := delete k (attempts p) |>
    else p
  end.

Definition pingDue (now : Time) (p : lane) : bool :=
  let interval := if bool_decide (liveness now p = LaneDead) then 50 * millisecond else 200 * millisecond in
  up now p && (interval <=? time_sub now (lastTransmit p)).

Definition lanePing (now : Time) (p : lane) : lane :=
  let* p := beginAttempt now p in
  let* p := p <| lastTransmit := now |> in
  let* p := if is_zero_time (firstSent p) then p <| firstSent := now |> else p in
  let* p := p <| attempts := <[seq p := mkAttempt None now wireOverhead false false (u64 (sent p + wireOverhead))]> (attempts p) |> in
  let* p := p <| inflight := inflight p + wireOverhead |> in
  let* p := p <| sent := u64 (sent p + wireOverhead) |> in
  pace now wireOverhead p.

Section Poll.
Context (iter : Time -> gmap Z attempt -> list Z).

Definition pollLane (now : Time) (i : nat) (s : Transport * list Transmission) : Transport * list Transmission :=
  let '(t, out) := s in
  let* t := upd i (pollBaseline now) t in
  let* t := upd i (fun p => fold_left (timeoutOne now (pkts t)) (iter now (attempts p)) p) t in
  match paths t !! i with
  | None => (t, out)
  | Some p =>
    if pingDue now p then
      let* p := lanePing now p in
      (upd i (fun _ => p) t,
       out ++ [mkTransmission (id p) (bond.dataFrame (epoch t) (remote t) (id p) (seq p) 0 0 [])])
    else (t, out)
  end.

(** One pending datagram: confirmed, expired, or perhaps sent again. *)
Definition pollPending (now : Time) (s : Transport * list Z * list Transmission) (k : Z) :
    Transport * list Z * list Transmission :=
  let '(t, retained, out) := s in
  match pkts t !! k with
  | None => s
  | Some p =>
    if queue.acked p then (t <| pending := pending t ∖ {[k]} |>, retained, out)
    else if queue.repairDeadline p <? now
    then (t <| pending := pending t ∖ {[k]} |> <| expired := u64 (expired t + 1) |>, retained, out)
    else
      let retained := retained ++ [k] in
      let previous := find (queue.lastPath p) t ≫= (paths t !!.) in
      let timeout := match previous with Some l => rto l | None => minimumRTO end in
      let size := wireSize p in
      let early :=
        if bool_decide (queue.pclass p = classRealtime) && (queue.attempts p =? 1) &&
           match previous with Some l => negb (bool_decide (liveness now l = LaneLive)) | None => false end
        then chooseLane now (queue.pclass p) size (queue.lastPath p) true t else None in
      match early with
      | Some i => let '(t, _, x) := transmit now p i t in (t, retained, out ++ x)
      | None =>
        if (time_sub now (queue.lastSent p) <? timeout) || (4 <=? queue.attempts p) then (t, retained, out)
        else
          let path := chooseLane now classBulk size (queue.lastPath p) true t in
          let path := match path with
                      | Some _ => path
                      | None => if match previous with Some l => passed p l | None => true end
                                then chooseLane now classBulk size 0 false t else None
                      end in
          match path with
          | Some i => let '(t, _, x) := transmit now p i t in (t, retained, out ++ x)
          | None => (t, retained, out)
          end
      end
  end.

Definition dropSmall (c : class) (late : bool) (t : Transport) : Transport :=
  let* s := cget DropStats0 (smallQueueDrops t) c in
  t <| drops := u64 (drops t + 1) |> <| interactiveDrops := u64 (interactiveDrops t + 1) |>
    <| smallQueueDrops := cset (smallQueueDrops t) c
         (if late then s <| Deadline := u64 (Deadline s + 1) |> else s <| Stale := u64 (Stale s + 1) |>) |>.

Definition popSmall (c : class) (t : Transport) : option Transport :=
  q ← queue.pop (cget queue.fair0 (small t) c); Some (t <| small := cset (small t) c q |>).

(** A real-time datagram's copy on another lane. *)
Definition sendCopy (now : Time) (c : class) (size : Z) (i : nat) (p : queue.packet) (t : Transport) :
    Transport * list Transmission :=
  match paths t !! i with
  | None => (t, [])
  | Some path =>
    let forced := bool_decide (liveness now path = LaneSuspect) in
    if bool_decide (c = classRealtime) && (forced || fge (redundancyTokens t) (fofZ size)) then
      match chooseLane now c size (id path) true t with
      | None => (t, [])
      | Some j =>
        let* t := if negb forced then t <| redundancyTokens := fsub (redundancyTokens t) (fofZ size) |> else t in
        let '(t, _, x) := transmit now p j t in (t, x)
      end
    else (t, [])
  end.

(** The loop over one small class; every iteration takes a datagram from the
    queue or ends it, so its count of datagrams bounds them.  [None] is the
    queue's nil dereference. *)
Fixpoint sendSmall (n : nat) (now : Time) (c : class) (t : Transport) (out : list Transmission) :
    option (Transport * list Transmission) :=
  match queue.peek (cget queue.fair0 (small t) c) with
  | None => Some (t, out)
  | Some p =>
    match n with
    | O => None
    | S n =>
      let late := queue.queueDeadline p <? now in
      let '(t, drop) := if late then (t, true)
                        else if bool_decide (c = classRealtime) then stale now p t else (t, false) in
      if drop then
        match popSmall c t with
        | None => None
        | Some t => sendSmall n now c (dropSmall c late t) out
        end
      else
        let size := wireSize p in
        match chooseLane now c size 0 false t with
        | None => Some (t, out)
        | Some i =>
          match popSmall c t with
          | None => None
          | Some t =>
            let '(t, p, x) := transmit now p i t in
            let '(t, y) := sendCopy now c size i p t in
            sendSmall n now c t (out ++ x ++ y)
          end
        end
    end
  end.

Definition sendClass (now : Time) (c : class) (t : Transport) (out : list Transmission) :
    option (Transport * list Transmission) :=
  let* t := match c, queue.peek (cget queue.fair0 (small t) c) with
           | queue.classRealtime, None => t <| realtimeLate := 0 |> <| realtimeSkipping := false |>
           | _, _ => t
           end in
  sendSmall (Z.to_nat (queue.qcount (cget queue.fair0 (small t) c))) now c t out.

(** The loop over the bulk queue, whose length bounds it. *)
Fixpoint sendBulk (n : nat) (now : Time) (t : Transport) (out : list Transmission) : Transport * list Transmission :=
  match n, tqueue t with
  | S n, p :: rest =>
    if queue.queueDeadline p <? now
    then sendBulk n now (t <| tqueue := rest |> <| drops := u64 (drops t + 1) |>) out
    else
      match chooseLane now classBulk (wireSize p) 0 false t with
      | None => (t, out)
      | Some i =>
        let* t := t <| tqueue := rest |> in
        let '(t, dropped) :=
          if negb (discovering now t) then
            let '(c, d) := queue.codelDrop now (time_sub now (queue.created p)) (Z.of_nat (length rest))
                             (slowestRoundTrip now t) (bulkAQM t) in
            (t <| bulkAQM := c |>, d)
          else (t, false) in
        if dropped
        then sendBulk n now (t <| drops := u64 (drops t + 1) |> <| aqmDrops := u64 (aqmDrops t + 1) |>) out
        else let '(t, _, x) := transmit now p i t in sendBulk n now t (out ++ x)
      end
  | _, _ => (t, out)
  end.

Definition send (now : Time) (t : Transport) (out : list Transmission) : option (Transport * list Transmission) :=
  '(t, out) ← sendClass now classRealtime t out;
  '(t, out) ← sendClass now classSmall t out;
  Some (sendBulk (length (tqueue t)) now t out).

Definition Poll (now : Time) (t : Transport) : Transport * outcome terror (list Transmission) :=
  match checkTime now t with
  | (t, false) => (t, Err (Rejection bond.RejectTime))
  | (t, true) =>
    let* t := if negb (is_zero_time (lastPoll t)) then
               let budget := copyBudget now t in
               t <| redundancyTokens := fmin (fdiv budget (fofZ 10))
                      (fadd (redundancyTokens t) (fmul (Seconds (time_sub now (lastPoll t))) budget)) |>
             else t in
    let* t := t <| lastPoll := now |> in
    let '(t, out) := fold_left (fun s key => pollReceiver now key s) (receiverOrder t) (t, []) in
    let '(t, out) := fold_left (fun s i => pollLane now i s) (List.seq 0%nat (length (paths t))) (t, out) in
    let* t := reserve now t in
    let '(t, retained, out) := fold_left (pollPending now) (pendingOrder t) (t, [], out) in
    let* t := t <| pendingOrder := retained |> in
    match send now t out with
    | None => (t, Panic)
    | Some (t, out) => (t, Ok out)
    end
  end.

End Poll.

End transport.
