(* ===== verification/BondWindow.v ===== *)
(** * Window accounting of a lane

    What the functions of a lane leave alone, and the sums that its in-flight
    counters stand for.  The controller, the timers and the samplers of a lane
    never touch its attempts, its counters of bytes in flight or its sequence:
    they keep its [view].  The functions that do are shown to keep the counters
    equal to the sums over the attempts that still occupy the window. *)

From stdpp Require Import base tactics list numbers gmap.
From S2P Require Import Prelude Float64 BondReceipt BondQueue BondMeter BondLane BondTransport.

Module window.
Import float64 lanes transport.

(** ** The view of a lane *)
Definition lview (p : lane) : PathID * Time := (id p, lease p).
Definition view (p : lane) : gmap Z attempt * Z * list Z * Z * (PathID * Time) :=
  (attempts p, inflight p, classInflight p, seq p, lview p).
Definition keeps (p q : lane) : Prop := view q = view p.

#[export] Instance keeps_equiv : Equivalence keeps.
Proof. split; unfold keeps; congruence. Qed.

Lemma keeps_let p (v : lane) (k : lane -> lane) :
  keeps p v -> (forall q, keeps p q -> keeps p (k q)) -> keeps p (seq_let v k).
Proof. intros Hv Hk. apply Hk, Hv. Qed.
Lemma keeps_let_any {A} p (v : A) (k : A -> lane) : (forall x, keeps p (k x)) -> keeps p (let x := v in k x).
Proof. intros H. apply H. Qed.
Lemma keeps_let_pair {A} p (v : lane * A) (k : lane -> A -> lane) :
  keeps p (fst v) -> (forall q x, keeps p q -> keeps p (k q x)) -> keeps p (let '(q, x) := v in k q x).
Proof. destruct v as [q x]. cbn. auto. Qed.
Lemma keeps_fst_let {A} p (v : lane) (k : lane -> lane * A) :
  keeps p v -> (forall q, keeps p q -> keeps p (fst (k q))) -> keeps p (fst (seq_let v k)).
Proof. intros Hv Hk. apply Hk, Hv. Qed.
Lemma keeps_fst_let_any {A B} p (v : A) (k : A -> lane * B) :
  (forall x, keeps p (fst (k x))) -> keeps p (fst (let x := v in k x)).
Proof. intros H. apply H. Qed.
Lemma keeps_fst_let_pair {A B} p (v : lane * A) (k : lane -> A -> lane * B) :
  keeps p (fst v) -> (forall q x, keeps p q -> keeps p (fst (k q x))) ->
  keeps p (fst (let '(q, x) := v in k q x)).
Proof. destruct v as [q x]. cbn. auto. Qed.

Create HintDb keeps.

(** Through the statements of a function, in order: a new value of the lane is
    abstract but for its view, a conditional splits, and a write to a field
    outside the view is skipped. *)
Ltac keeps_step :=
  lazymatch goal with
  | |- keeps ?p ?p => reflexivity
  | H : keeps ?p ?q |- keeps ?p ?q => exact H
  | |- keeps ?p (seq_let (A := lane) ?v ?k) => apply (keeps_let p v k); [|intros ? ?; cbv beta]
  | |- keeps ?p (fst (seq_let (A := lane) ?v ?k)) => apply (keeps_fst_let p v k); [|intros ? ?; cbv beta]
  | |- keeps ?p (seq_let ?v ?k) => apply (keeps_let_any p v k); intros ?; cbv beta
  | |- keeps ?p (fst (seq_let ?v ?k)) => apply (keeps_fst_let_any p v k); intros ?; cbv beta
  | |- keeps ?p (let x := ?v in @?k x) => apply (keeps_let_any p v k); intros ?; cbv beta
  | |- keeps ?p (fst (let x := ?v in @?k x)) => apply (keeps_fst_let_any p v k); intros ?; cbv beta
  | |- keeps _ (if ?b then _ else _) => destruct b
  | |- keeps _ (fst (if ?b then _ else _)) => destruct b
  | |- keeps _ (fst (_, _)) => cbn [fst]
  | |- keeps _ (update _ _ ?q) => transitivity q; [|generalize q; intros ?; reflexivity]
  | |- keeps _ (match ?v with _ => _ end) =>
    let T := type of v in
    lazymatch T with
    | (lane * _)%type => apply keeps_let_pair; [|intros ? ? ?]
    | _ => destruct v
    end
  | |- keeps _ (fst (match ?v with _ => _ end)) =>
    let T := type of v in
    lazymatch T with
    | (lane * _)%type => apply keeps_fst_let_pair; [|intros ? ? ?]
    | _ => destruct v
    end
  | |- keeps _ _ => etransitivity; [|solve [eauto 2 with keeps nocore]]
  end.
Ltac keeps_tac := repeat keeps_step.

(** ** The controller keeps the view *)
Lemma keeps_ctl f p : keeps p (ctl f p). Proof. reflexivity. Qed.
Lemma keeps_decide f p : keeps p (decide_ f p). Proof. reflexivity. Qed.
#[export] Hint Resolve keeps_ctl keeps_decide : keeps.
Lemma keeps_schedulePulse now p : keeps p (schedulePulse now p). Proof. apply keeps_ctl. Qed.
Lemma keeps_sustainedNow now p : keeps p (fst (sustainedNow now p)).
Proof. unfold sustainedNow. keeps_tac. Qed.
Lemma keeps_recentNow now p : keeps p (fst (recentNow now p)).
Proof. unfold recentNow. keeps_tac. Qed.
#[export] Hint Resolve keeps_schedulePulse keeps_sustainedNow keeps_recentNow : keeps.
Lemma keeps_demonstrated now p : keeps p (fst (demonstrated now p)).
Proof. unfold demonstrated. keeps_tac. Qed.
Lemma keeps_raiseToDelivery now p : keeps p (raiseToDelivery now p).
Proof. unfold raiseToDelivery. keeps_tac. Qed.
Lemma keeps_lightlyLoaded p : keeps p (fst (lightlyLoaded p)).
Proof. unfold lightlyLoaded. keeps_tac. Qed.
Lemma keeps_observeWander d p : keeps p (observeWander d p).
Proof. unfold observeWander. keeps_tac. Qed.
#[export] Hint Resolve keeps_demonstrated keeps_raiseToDelivery keeps_lightlyLoaded keeps_observeWander : keeps.
Lemma keeps_stalledSignal now p : keeps p (stalledSignal now p).
Proof. unfold stalledSignal. keeps_tac. Qed.
Lemma keeps_testFloor now d p : keeps p (testFloor now d p).
Proof. unfold testFloor. keeps_tac. Qed.
Lemma keeps_queueFound p : keeps p (queueFound p).
Proof. unfold queueFound. keeps_tac. Qed.
Lemma keeps_floorMoved d p : keeps p (floorMoved d p).
Proof. unfold floorMoved, rebaseline. keeps_tac. Qed.
Lemma keeps_pulseVerdict now l p : keeps p (pulseVerdict now l p).
Proof. unfold pulseVerdict. keeps_tac. Qed.
Lemma keeps_drainEnded now l p : keeps p (drainEnded now l p).
Proof. unfold drainEnded. keeps_tac. Qed.
Lemma keeps_discoveryCongested now l b d p : keeps p (discoveryCongested now l b d p).
Proof. unfold discoveryCongested. keeps_tac. Qed.
Lemma keeps_pulseCongested now l d p : keeps p (pulseCongested now l d p).
Proof. unfold pulseCongested. keeps_tac. Qed.
Lemma keeps_remeasured now l d p : keeps p (remeasured now l d p).
Proof. unfold remeasured. keeps_tac. Qed.
Lemma keeps_decayedBy now l d p : keeps p (decayedBy now l d p).
Proof. unfold decayedBy. keeps_tac. Qed.
#[export] Hint Resolve keeps_stalledSignal keeps_testFloor keeps_queueFound keeps_floorMoved keeps_pulseVerdict
  keeps_drainEnded keeps_discoveryCongested keeps_pulseCongested keeps_remeasured keeps_decayedBy : keeps.
Lemma keeps_congested now l b p : keeps p (congested now l b p).
Proof. unfold congested. keeps_tac. Qed.
Lemma keeps_pulse now p : keeps p (pulse now p).
Proof. unfold pulse. keeps_tac. Qed.
Lemma keeps_rediscover p : keeps p (rediscover p). Proof. reflexivity. Qed.
#[export] Hint Resolve keeps_congested keeps_pulse keeps_rediscover : keeps.
Lemma keeps_holdOrPulse now b p : keeps p (holdOrPulse now b p).
Proof. unfold holdOrPulse. keeps_tac. Qed.
Lemma keeps_boundByDelivery now b p : keeps p (fst (boundByDelivery now b p)).
Proof. unfold boundByDelivery. keeps_tac. Qed.
Lemma keeps_discoverRound now d p : keeps p (fst (discoverRound now d p)).
Proof. unfold discoverRound. keeps_tac. Qed.
#[export] Hint Resolve keeps_holdOrPulse keeps_boundByDelivery keeps_discoverRound : keeps.
Lemma keeps_discover now r s b p : keeps p (discover now r s b p).
Proof. unfold discover. keeps_tac. Qed.
#[export] Hint Resolve keeps_discover : keeps.
Lemma keeps_adjust now l d s b r m p : keeps p (adjust now l d s b r m p).
Proof. unfold adjust. keeps_tac. Qed.

(** ** The samplers and timers keep the view *)
Lemma keeps_observeOrder now x p : keeps p (observeOrder now x p).
Proof. unfold observeOrder. keeps_tac. Qed.
Lemma keeps_observeFeedbackRTT d p : keeps p (observeFeedbackRTT d p).
Proof. unfold observeFeedbackRTT. keeps_tac. Qed.
Lemma keeps_pace now n p : keeps p (pace now n p).
Proof. unfold pace. keeps_tac. Qed.
Lemma keeps_idleForward now d b p : keeps p (idleForward now d b p).
Proof. unfold idleForward. keeps_tac. Qed.
Lemma keeps_baselineArrived d x p : keeps p (baselineArrived d x p).
Proof. unfold baselineArrived, rebaseline. keeps_tac. Qed.
Lemma keeps_delayBaseline now d n p : keeps p (delayBaseline now d n p).
Proof. unfold delayBaseline. keeps_tac. Qed.
Lemma keeps_delayDifference d p : keeps p (delayDifference d p).
Proof. unfold delayDifference. keeps_tac. Qed.
#[export] Hint Resolve keeps_delayBaseline keeps_delayDifference : keeps.
Lemma keeps_delaySample now d n p : keeps p (delaySample now d n p).
Proof. unfold delaySample. keeps_tac. Qed.
Lemma keeps_ackProgress a now b p : keeps p (ackProgress a now b p).
Proof. unfold ackProgress. keeps_tac. Qed.
Lemma keeps_ackRTT d now p : keeps p (ackRTT d now p).
Proof. unfold ackRTT. keeps_tac. Qed.
Lemma keeps_ackRates a now p : keeps p (ackRates a now p).
Proof. unfold ackRates. keeps_tac. Qed.
Lemma keeps_ackCadence now p : keeps p (ackCadence now p).
Proof. unfold ackCadence. keeps_tac. Qed.
Lemma keeps_endInterval p : keeps p (endInterval p). Proof. reflexivity. Qed.
#[export] Hint Resolve keeps_endInterval : keeps.
Lemma keeps_floorInterval d e p : keeps p (floorInterval d e p).
Proof. unfold floorInterval. keeps_tac. Qed.
#[export] Hint Resolve keeps_floorInterval : keeps.
Lemma keeps_ackInterval d now p : keeps p (fst (ackInterval_ d now p)).
Proof. unfold ackInterval_. keeps_tac. Qed.
Lemma keeps_lateBelow l a h now ps p : keeps p (fst (lateBelow l a h now ps p)).
Proof. unfold lateBelow. keeps_tac. Qed.
Lemma keeps_pollBaseline now p : keeps p (pollBaseline now p).
Proof. unfold pollBaseline. keeps_tac. Qed.
Lemma keeps_stallEnded d p : keeps p (stallEnded d p). Proof. reflexivity. Qed.
Lemma keeps_resetFeedback p : keeps p (resetFeedback p).
Proof. unfold resetFeedback. keeps_tac. Qed.
Lemma keeps_resetSamples p : keeps p (resetSamples p).
Proof. unfold resetSamples. keeps_tac. Qed.
Lemma keeps_resetControl p : keeps p (resetControl p).
Proof. unfold resetControl. keeps_tac. Qed.
#[export] Hint Resolve keeps_resetFeedback keeps_resetSamples keeps_resetControl : keeps.
Lemma keeps_resetShares b p : keeps p (resetShares b p). Proof. reflexivity. Qed.

(** ** Sums over attempts *)
Definition wsum (f : attempt -> Z) (m : gmap Z attempt) : Z := map_fold (fun _ a s => f a + s) 0 m.

Section Sums.
Context (f : attempt -> Z).
Implicit Types m : gmap Z attempt.

Lemma wsum_empty : wsum f ∅ = 0.
Proof. apply map_fold_empty. Qed.

Lemma wsum_insert m k a : m !! k = None -> wsum f (<[k := a]> m) = f a + wsum f m.
Proof. intros H. unfold wsum. rewrite map_fold_insert_L; [done| |done]. intros. lia. Qed.

Lemma wsum_delete m k a : m !! k = Some a -> wsum f (delete k m) = wsum f m - f a.
Proof.
  intros H. rewrite <- (insert_delete_id m k a H) at 2.
  rewrite wsum_insert by apply lookup_delete_eq. lia.
Qed.

Lemma wsum_replace m k a b : m !! k = Some a -> wsum f (<[k := b]> m) = wsum f m - f a + f b.
Proof.
  intros H. rewrite <- insert_delete_eq, wsum_insert by apply lookup_delete_eq.
  rewrite (wsum_delete _ _ _ H). lia.
Qed.
End Sums.

Lemma wsum_ext f g m : (forall k a, m !! k = Some a -> f a = g a) -> wsum f m = wsum g m.
Proof.
  induction m as [|k a m Hk IH] using map_ind; intros H; [done|].
  rewrite !wsum_insert by done. rewrite (H k a) by apply lookup_insert_eq. rewrite IH; [done|].
  intros j b Hb. apply (H j). rewrite lookup_insert_ne; [done|]. congruence.
Qed.

Lemma wsum_nonneg f m : (forall k a, m !! k = Some a -> 0 <= f a) -> 0 <= wsum f m.
Proof.
  induction m as [|k a m Hk IH] using map_ind; intros H; [done|].
  rewrite wsum_insert by done. pose proof (H k a (lookup_insert_eq _ _ _)).
  assert (0 <= wsum f m); [|lia]. apply IH. intros j b Hb. apply (H j).
  rewrite lookup_insert_ne; [done|]. congruence.
Qed.

(** ** Arrays indexed by class *)
Lemma cget_cset {A} (d : A) l c c' v :
  length l = 3%nat -> cget d (cset l c v) c' = if bool_decide (c = c') then v else cget d l c'.
Proof.
  intros Hl. unfold cget, cset. case_bool_decide as E.
  - subst. rewrite list_lookup_insert_eq; [done|]. destruct c'; cbn; lia.
  - rewrite list_lookup_insert_ne; [done|]. destruct c, c'; cbn; congruence.
Qed.
Lemma length_cset {A} (l : list A) c v : length (cset l c v) = length l.
Proof. apply length_insert. Qed.

(** ** What a lane's counters stand for

    An attempt occupies the window until it is released. *)
Definition occupies (a : attempt) : Z := if released a then 0 else abytes a.
Definition occupies_class (ps : gmap Z queue.packet) (c : class) (a : attempt) : Z :=
  if bool_decide (pkt_class ps a = Some c) then occupies a else 0.

Record accounted (n : Z) (ps : gmap Z queue.packet) (p : lane) : Prop := mkAccounted {
  ac_inflight : inflight p = wsum occupies (attempts p);
  ac_class_len : length (classInflight p) = 3%nat;
  ac_class : forall c, cget 0 (classInflight p) c = wsum (occupies_class ps c) (attempts p);
  ac_seq : 0 <= seq p <= n;
  ac_keys : forall k a, attempts p !! k = Some a -> 1 <= k <= seq p /\ 0 <= abytes a;
  ac_pkts : forall k a d, attempts p !! k = Some a -> apacket a = Some d -> is_Some (ps !! d)
}.

Lemma accounted_keeps n ps p q : keeps p q -> accounted n ps p -> accounted n ps q.
Proof.
  unfold keeps, view. intros [= E1 E2 E3 E4 E5] [H1 H2 H3 H4 H5 H6].
  split; rewrite ?E1, ?E2, ?E3, ?E4; done.
Qed.
#[export] Instance accounted_proper n ps : Proper (keeps ==> iff) (accounted n ps).
Proof. intros p q E. split; apply accounted_keeps; [done|by symmetry]. Qed.

(** The store of datagrams may grow, and what it holds keeps its class. *)
Definition grows (ps ps' : gmap Z queue.packet) : Prop :=
  forall k d, ps !! k = Some d -> exists d', ps' !! k = Some d' /\ queue.pclass d' = queue.pclass d.

#[export] Instance grows_preorder : PreOrder grows.
Proof.
  split; [intros ps k d H; by exists d|].
  intros a b c Hab Hbc k d H. destruct (Hab k d H) as (e & He & E1). destruct (Hbc k e He) as (g & Hg & E2).
  exists g. split; [done|congruence].
Qed.

Lemma grows_class ps ps' a d :
  grows ps ps' -> apacket a = Some d -> is_Some (ps !! d) -> pkt_class ps' a = pkt_class ps a.
Proof.
  intros G E [x Hx]. unfold pkt_class. rewrite E. cbn. rewrite Hx.
  destruct (G d x Hx) as (y & -> & Ey). cbn. by rewrite Ey.
Qed.

Lemma accounted_grows n n' ps ps' p : grows ps ps' -> n <= n' -> accounted n ps p -> accounted n' ps' p.
Proof.
  intros G Hn [H1 H2 H3 H4 H5 H6]. split; [done|done| |lia|done|].
  - intros c. rewrite H3. apply wsum_ext. intros k a Ha. unfold occupies_class.
    destruct (apacket a) as [d|] eqn:E; [|unfold pkt_class; by rewrite E].
    by rewrite (grows_class ps ps' a d G E (H6 k a d Ha E)).
  - intros k a d Ha E. destruct (H6 k a d Ha E) as [x Hx]. destruct (G d x Hx) as (y & -> & _). eauto.
Qed.

Lemma grows_set_acked k ps : grows ps (set_acked k ps).
Proof.
  intros j d H. unfold set_acked. destruct (decide (k = j)) as [->|Hne].
  - rewrite lookup_alter_eq, H. by eexists.
  - rewrite lookup_alter_ne by done. by eexists.
Qed.

(** ** Release *)
Lemma releaseUnless_inflight a ps p : inflight (releaseUnless a ps p) = inflight p - occupies a.
Proof.
  unfold releaseUnless, release, occupies. destruct (released a); cbn [negb]; [lia|].
  destruct (pkt_class ps a); reflexivity.
Qed.
Lemma releaseUnless_class a ps p c :
  length (classInflight p) = 3%nat ->
  cget 0 (classInflight (releaseUnless a ps p)) c = cget 0 (classInflight p) c - occupies_class ps c a.
Proof.
  intros Hl. unfold releaseUnless, release, occupies_class, occupies.
  destruct (released a); cbn [negb]; [case_bool_decide; lia|].
  destruct (pkt_class ps a) as [c'|]; unfold seq_let.
  - transitivity (cget 0 (cset (classInflight p) c' (cget 0 (classInflight p) c' - abytes a)) c); [reflexivity|].
    rewrite cget_cset by done. destruct (decide (c' = c)) as [->|Hne].
    + by rewrite !bool_decide_true by done.
    + rewrite !bool_decide_false by congruence. lia.
  - rewrite bool_decide_false by done. cbn. lia.
Qed.
Lemma releaseUnless_rest a ps p :
  attempts (releaseUnless a ps p) = attempts p /\ seq (releaseUnless a ps p) = seq p /\
  id (releaseUnless a ps p) = id p /\ length (classInflight (releaseUnless a ps p)) = length (classInflight p).
Proof.
  unfold releaseUnless, release. destruct (released a); cbn [negb]; [done|].
  destruct (pkt_class ps a); unfold seq_let; split_and!; try reflexivity. apply length_cset.
Qed.

(** An attempt leaves the window: it is forgotten, or kept as released. *)
Lemma accounted_settle n ps p q k a :
  accounted n ps p -> attempts p !! k = Some a -> keeps (releaseUnless a ps p) q ->
  forall m, m = delete k (attempts p) \/
            (exists b, m = <[k := b]> (attempts p) /\ released b = true /\ apacket b = apacket a /\ abytes b = abytes a) ->
  accounted n ps (q <| attempts := m |>).
Proof.
  intros [H1 H2 H3 H4 H5 H6] Ha K m Hm.
  destruct (releaseUnless_rest a ps p) as (R1 & R2 & R3 & R4).
  pose proof (releaseUnless_inflight a ps p) as Ri.
  pose proof (fun c => releaseUnless_class a ps p c H2) as Rc.
  unfold keeps, view in K. injection K as E1 E2 E3 E4 E5. rewrite <- E2 in Ri. rewrite <- E3 in Rc, R4.
  rewrite R2 in E4.
  assert (W : forall f : attempt -> Z, (forall b, released b = true -> f b = 0) -> wsum f m = wsum f (attempts p) - f a).
  { intros f Hf. destruct Hm as [->|(b & -> & Hb & _)]; [by apply wsum_delete|].
    rewrite (wsum_replace _ _ _ _ _ Ha), (Hf b Hb). lia. }
  split; cbn [attempts inflight classInflight seq update].
  - rewrite Ri, H1, W; [done|]. intros b Hb. unfold occupies. by rewrite Hb.
  - by rewrite R4.
  - intros c. rewrite Rc, H3, W; [done|]. intros b Hb. unfold occupies_class, occupies. rewrite Hb. by case_bool_decide.
  - by rewrite E4.
  - intros j b Hj. rewrite E4. destruct Hm as [->|(b' & -> & _ & _ & Eb)].
    + apply lookup_delete_Some in Hj as [_ Hj]. by apply H5.
    + apply lookup_insert_Some in Hj as [[<- <-]|[_ Hj]]; [|by apply H5]. rewrite Eb. by apply (H5 k a).
  - intros j b d Hj Hd. destruct Hm as [->|(b' & -> & _ & Ep & _)].
    + apply lookup_delete_Some in Hj as [_ Hj]. by apply (H6 j b).
    + apply lookup_insert_Some in Hj as [[<- <-]|[_ Hj]]; [|by apply (H6 j b)]. apply (H6 k a); congruence.
Qed.

(** An attempt enters it. *)
Lemma accounted_enter n ps p q a cls :
  accounted n ps p -> n + 1 < 2 ^ 64 -> 0 <= abytes a -> released a = false ->
  (forall d, apacket a = Some d -> is_Some (ps !! d)) -> pkt_class ps a = cls ->
  attempts q = <[u64 (seq p + 1) := a]> (attempts p) -> seq q = u64 (seq p + 1) ->
  inflight q = inflight p + abytes a ->
  classInflight q = match cls with
                    | Some c => cset (classInflight p) c (cget 0 (classInflight p) c + abytes a)
                    | None => classInflight p
                    end ->
  accounted (n + 1) ps q.
Proof.
  intros [H1 H2 H3 H4 H5 H6] Hn Hb Hr Hd Hc Ea Es Ei Ec.
  rewrite u64_small in Ea, Es by lia.
  assert (Hf : attempts p !! (seq p + 1) = None).
  { destruct (attempts p !! (seq p + 1)) as [b|] eqn:E; [|done]. apply H5 in E. lia. }
  split; rewrite ?Ea, ?Es, ?Ei.
  - rewrite wsum_insert by done. rewrite H1. unfold occupies. rewrite Hr. lia.
  - rewrite Ec. destruct cls; rewrite ?length_cset; done.
  - intros c. rewrite wsum_insert by done. rewrite <- H3. unfold occupies_class, occupies. rewrite Hc, Hr, Ec.
    destruct cls as [c'|].
    + rewrite cget_cset by done. destruct (decide (c' = c)) as [->|Hne].
      * rewrite !bool_decide_true by done. lia.
      * rewrite !bool_decide_false by congruence. lia.
    + rewrite bool_decide_false by done. lia.
  - lia.
  - intros k b Hk. apply lookup_insert_Some in Hk as [[<- <-]|[_ Hk]]; [lia|]. apply H5 in Hk. lia.
  - intros k b d Hk E. apply lookup_insert_Some in Hk as [[<- <-]|[_ Hk]]; [by apply Hd|by apply (H6 k b)].
Qed.

(** A lane with nothing in flight. *)
Lemma accounted_empty n ps p :
  attempts p = ∅ -> inflight p = 0 -> classInflight p = replicate 3 0 -> seq p = 0 -> 0 <= n -> accounted n ps p.
Proof.
  intros Ea Ei Ec Es Hn. split; rewrite ?Ea, ?Ei, ?Ec, ?Es; try done.
  intros c. rewrite wsum_empty. by destruct c.
Qed.

End window.
