(* ===== verification/BondTransportTheory.v ===== *)
(** * The transport's invariant

    One invariant ties the stores of the bonding transport together: the
    counters of every lane are the sums over its attempts, every attempt refers
    to a stored datagram, a datagram waits unconfirmed exactly while it is
    listed, sequences are fresh, the queues are well formed and admission holds.
    [n] bounds the frames sent so far; sequences stay below it, so below 2^64
    they never wrap.  Each operation is shown to keep the invariant. *)

From stdpp Require Import base tactics list numbers gmap sets.
From S2P Require Import Prelude Float64 Frame BondWire BondWireProps BondReceipt.
From S2P Require Import BondQueue BondQueueProps BondMeter BondLane BondTransport BondWindow.

Module transport_ok.
Import float64 lanes transport window.

(** ** Queues of waiting datagrams *)
Definition waiting (p : queue.packet) : Prop := queue.seq p = 0.
Definition turns_waiting (r : list (list Z * list queue.packet)) : Prop := Forall (fun x => Forall waiting (snd x)) r.
Definition small_ok (q : queue.fairPacketQueue) : Prop := exists r, queue_props.Rep q r /\ turns_waiting r.

Lemma small_ok_fair0 : small_ok queue.fair0.
Proof. exists []. split; [apply queue_props.fair0_rep|constructor]. Qed.

Lemma t_put_waiting p r : waiting p -> turns_waiting r -> turns_waiting (fst (queue_props.t_put p r)).
Proof.
  intros Hp. induction 1 as [|[id ps] r H Hr IH]; cbn [queue_props.t_put fst].
  - repeat constructor. exact Hp.
  - cbn [snd] in H. case_bool_decide.
    + destruct (queue.coalesces p ps); cbn [fst]; constructor; try done; cbn [snd].
      * by apply Forall_insert.
      * apply Forall_app. by repeat constructor.
    + destruct (queue_props.t_put p r) as [r' b]. by constructor.
Qed.

Lemma t_pop_waiting r : turns_waiting r -> turns_waiting (queue_props.t_pop r).
Proof.
  intros H. destruct H as [|[id ps] r H Hr]; [constructor|]. cbn [queue_props.t_pop].
  destruct ps as [|x [|y ps]]; [done|done|]. apply Forall_app. split; [done|].
  cbn [snd] in H. apply Forall_cons_1 in H as [_ H]. apply Forall_cons. split; [exact H|constructor].
Qed.

Lemma t_put_total p r : queue_props.total (fst (queue_props.t_put p r)) <= queue_props.total r + 1.
Proof.
  induction r as [|[id ps] r IH]; [done|]. cbn [queue_props.t_put]. unfold queue_props.total in *.
  case_bool_decide.
  - destruct (queue.coalesces p ps); cbn [fst fold_right snd]; rewrite ?length_insert, ?length_app; cbn [length]; lia.
  - destruct (queue_props.t_put p r) as [r' b]. cbn [fst fold_right snd] in *. lia.
Qed.

Lemma push_ok p q : waiting p -> small_ok q ->
  exists q' b, queue.push p q = Some (q', b) /\ small_ok q' /\ queue.qcount q' <= queue.qcount q + 1.
Proof.
  intros Hp (r & R & W). destruct (queue_props.push_rep p q r R) as (q' & E & R'). exists q', (snd (queue_props.t_put p r)).
  split; [done|]. split; [exists (fst (queue_props.t_put p r)); split; [done|by apply t_put_waiting]|].
  rewrite (queue_props.rp_count _ _ R), (queue_props.rp_count _ _ R'). apply t_put_total.
Qed.

Lemma peek_ok q p : small_ok q -> queue.peek q = Some p ->
  waiting p /\ 1 <= queue.qcount q /\
  exists q', queue.pop q = Some q' /\ small_ok q' /\ queue.qcount q' = queue.qcount q - 1.
Proof.
  intros (r & R & W). rewrite (queue_props.peek_rep q r R). destruct r as [|[id ps] r]; [done|].
  cbn [queue_props.t_peek]. intros E. inversion W as [|? ? Wp Wr]; subst. cbn [snd] in Wp.
  destruct ps as [|x ps]; [done|]. injection E as ->.
  destruct (queue_props.pop_rep q _ R) as (q' & Eq & R'); [done|].
  split; [by inversion Wp|]. rewrite (queue_props.rp_count _ _ R). split.
  - assert (0 <= queue_props.total r) by (clear; induction r; unfold queue_props.total in *; cbn [fold_right]; lia).
    unfold queue_props.total in *. cbn [fold_right snd length]. lia.
  - exists q'. split; [done|]. split; [exists (queue_props.t_pop ((id, p :: ps) :: r)); split; [done|by apply t_pop_waiting]|].
    rewrite (queue_props.rp_count _ _ R'). cbn [queue_props.t_pop]. destruct ps as [|y ps].
    + unfold queue_props.total. cbn [fold_right snd length]. lia.
    + rewrite queue_props.total_app. unfold queue_props.total. cbn [fold_right snd length]. lia.
Qed.

Lemma peek_none q : small_ok q -> queue.peek q = None -> queue.qcount q = 0.
Proof.
  intros (r & R & W). rewrite (queue_props.peek_rep q r R), (queue_props.rp_count _ _ R). destruct r as [|[id ps] r]; [done|].
  cbn. destruct ps; [|done]. by destruct (queue_props.rp_nonempty _ _ R id []); [left|].
Qed.

Lemma qcount_nonneg q : small_ok q -> 0 <= queue.qcount q.
Proof.
  intros H. destruct (queue.peek q) as [p|] eqn:E; [apply (peek_ok q p H) in E; lia|]. by rewrite (peek_none q H E).
Qed.

(** ** The view of a transport *)
Definition core (t : Transport) :=
  (map view (paths t), pkts t, pending t, pendingOrder t, tqueue t, small t, tseq t).
(** The peers' epochs, the time of the last call, and the lanes with the times of
    their leases; then what was received. *)
Definition cview (t : Transport) := (epoch t, remote t, lastTime t, map lview (paths t)).
Definition eview (t : Transport) := (treceived t, cview t).
Definition tview (t : Transport) := (core t, eview t).
Definition tkeeps (t t' : Transport) : Prop := tview t' = tview t.

#[export] Instance tkeeps_equiv : Equivalence tkeeps.
Proof. split; unfold tkeeps; congruence. Qed.

Lemma map_view_alter f i l : (forall p, keeps p (f p)) -> map view (alter f i l) = map view l.
Proof.
  intros Hf. revert i. induction l as [|p l IH]; intros [|i]; [done|done| |].
  - cbn. f_equal. apply Hf.
  - change (alter f (S i) (p :: l)) with (p :: alter f i l). cbn [map]. by rewrite IH.
Qed.

(** A transport whose lanes were replaced by ones of the same view. *)
Lemma tkeeps_lanes ls t : map view ls = map view (paths t) -> tkeeps t (t <| paths := ls |>).
Proof.
  intros E. assert (E' : map lview ls = map lview (paths t)) by (apply (f_equal (map snd)) in E; by rewrite !map_map in E).
  unfold tkeeps, tview, core, eview, cview. cbn. by rewrite E, E'.
Qed.
Lemma tkeeps_upd i f t : (forall p, keeps p (f p)) -> tkeeps t (upd i f t).
Proof. intros Hf. by apply tkeeps_lanes, map_view_alter. Qed.

Lemma tkeeps_fold {A} (g : Transport -> A -> Transport) l t :
  (forall t a, tkeeps t (g t a)) -> tkeeps t (fold_left g l t).
Proof.
  intros H. revert t. induction l as [|a l IH]; intros t; [reflexivity|]. cbn. etransitivity; [apply H|apply IH].
Qed.

Lemma tkeeps_let t (v : Transport) (k : Transport -> Transport) :
  tkeeps t v -> (forall q, tkeeps t q -> tkeeps t (k q)) -> tkeeps t (seq_let v k).
Proof. intros Hv Hk. apply Hk, Hv. Qed.
Lemma tkeeps_fst_let {A} t (v : Transport) (k : Transport -> Transport * A) :
  tkeeps t v -> (forall q, tkeeps t q -> tkeeps t (fst (k q))) -> tkeeps t (fst (seq_let v k)).
Proof. intros Hv Hk. apply Hk, Hv. Qed.
Lemma tkeeps_any {A} t (v : A) (k : A -> Transport) : (forall x, tkeeps t (k x)) -> tkeeps t (let x := v in k x).
Proof. intros H. apply H. Qed.
Lemma tkeeps_fst_any {A B} t (v : A) (k : A -> Transport * B) :
  (forall x, tkeeps t (fst (k x))) -> tkeeps t (fst (let x := v in k x)).
Proof. intros H. apply H. Qed.
Lemma tkeeps_pair {A} t (v : Transport * A) (k : Transport -> A -> Transport) :
  tkeeps t (fst v) -> (forall q x, tkeeps t q -> tkeeps t (k q x)) -> tkeeps t (let '(q, x) := v in k q x).
Proof. destruct v as [q x]. cbn. auto. Qed.
Lemma tkeeps_fst_pair {A B} t (v : Transport * A) (k : Transport -> A -> Transport * B) :
  tkeeps t (fst v) -> (forall q x, tkeeps t q -> tkeeps t (fst (k q x))) ->
  tkeeps t (fst (let '(q, x) := v in k q x)).
Proof. destruct v as [q x]. cbn. auto. Qed.

Create HintDb tkeeps.
#[export] Hint Resolve keeps_adjust keeps_observeOrder keeps_observeFeedbackRTT keeps_pace keeps_ackRTT keeps_ackRates
  keeps_ackCadence keeps_boundByDelivery keeps_pollBaseline keeps_resetShares keeps_stallEnded : keeps.

(** Statement by statement, as [keeps_step] does for a lane. *)
Ltac tkeeps_step :=
  lazymatch goal with
  | |- tkeeps ?t ?t => reflexivity
  | H : tkeeps ?t ?u |- tkeeps ?t ?u => exact H
  | |- tkeeps ?t (seq_let (A := Transport) ?v ?k) => apply (tkeeps_let t v k); [|intros ? ?; cbv beta]
  | |- tkeeps ?t (fst (seq_let (A := Transport) ?v ?k)) => apply (tkeeps_fst_let t v k); [|intros ? ?; cbv beta]
  | |- tkeeps ?t (seq_let ?v ?k) => apply (tkeeps_any t v k); intros ?; cbv beta
  | |- tkeeps ?t (fst (seq_let ?v ?k)) => apply (tkeeps_fst_any t v k); intros ?; cbv beta
  | |- tkeeps ?t (let x := ?v in @?k x) => apply (tkeeps_any t v k); intros ?; cbv beta
  | |- tkeeps ?t (fst (let x := ?v in @?k x)) => apply (tkeeps_fst_any t v k); intros ?; cbv beta
  | |- tkeeps _ (if ?b then _ else _) => destruct b
  | |- tkeeps _ (fst (if ?b then _ else _)) => destruct b
  | |- tkeeps _ (fst (_, _)) => cbn [fst]
  | |- tkeeps _ (update _ _ ?q) => transitivity q; [|generalize q; intros ?; reflexivity]
  | |- tkeeps ?t (upd _ _ ?q) => transitivity q; [|apply tkeeps_upd; intros ?; try (solve [keeps_tac | auto with keeps])]
  | |- tkeeps _ (match ?v with _ => _ end) =>
    let T := type of v in
    lazymatch T with
    | (Transport * _)%type => apply tkeeps_pair; [|intros ? ? ?]
    | _ => destruct v
    end
  | |- tkeeps _ (fst (match ?v with _ => _ end)) =>
    let T := type of v in
    lazymatch T with
    | (Transport * _)%type => apply tkeeps_fst_pair; [|intros ? ? ?]
    | _ => destruct v
    end
  | |- tkeeps _ _ => etransitivity; [|solve [eauto 2 with tkeeps nocore]]
  end.
Ltac tkeeps_tac := repeat tkeeps_step.

(** *** What scheduling leaves alone *)
Lemma tkeeps_demandSteady now t : tkeeps t (fst (demandSteady now t)).
Proof. unfold demandSteady. tkeeps_tac. Qed.
Lemma tkeeps_demandRate c now t : tkeeps t (fst (demandRate c now t)).
Proof. unfold demandRate. tkeeps_tac. Qed.
#[export] Hint Resolve tkeeps_demandSteady tkeeps_demandRate : tkeeps.

Lemma tkeeps_assign now c b g pos need ls free t : tkeeps t (fst (assign now c b g pos need ls free t)).
Proof.
  revert pos need free t. induction ls as [|i ls IH]; intros pos need [|f free] t; cbn [assign]; try reflexivity.
  tkeeps_tac; apply IH.
Qed.
Lemma tkeeps_copyShares now o s need ls free t : tkeeps t (fst (copyShares now o s need ls free t)).
Proof.
  revert free t. induction ls as [|i ls IH]; intros [|f free] t; cbn [copyShares]; try reflexivity.
  tkeeps_tac; apply IH.
Qed.
Lemma tkeeps_markBulkElsewhere now ls t : tkeeps t (markBulkElsewhere now ls t).
Proof. unfold markBulkElsewhere. apply tkeeps_fold. intros u i. tkeeps_tac. Qed.
#[export] Hint Resolve tkeeps_assign tkeeps_copyShares tkeeps_markBulkElsewhere : tkeeps.
Lemma tkeeps_reserveCopies now ls free t : tkeeps t (fst (reserveCopies now ls free t)).
Proof. unfold reserveCopies. tkeeps_tac. Qed.
#[export] Hint Resolve tkeeps_reserveCopies : tkeeps.
Lemma tkeeps_reserveClass now b ls c s : tkeeps (fst s) (fst (reserveClass now b ls c s)).
Proof. destruct s as [t free]. unfold reserveClass. cbn [fst]. tkeeps_tac. Qed.
Lemma tkeeps_map f t : (forall p, keeps p (f p)) -> tkeeps t (t <| paths := map f (paths t) |>).
Proof.
  intros Hf. apply tkeeps_lanes. rewrite map_map. apply map_ext. intros p. apply Hf.
Qed.
Lemma tkeeps_reserve now t : tkeeps t (reserve now t).
Proof.
  unfold reserve. tkeeps_step; [apply tkeeps_map; intros p; apply keeps_resetShares|].
  tkeeps_step; [done|].
  etransitivity; [|apply tkeeps_reserveClass]. etransitivity; [|apply tkeeps_reserveClass]. done.
Qed.
Lemma tkeeps_stale now p t : tkeeps t (fst (stale now p t)).
Proof. unfold stale. tkeeps_tac. Qed.
#[export] Hint Resolve tkeeps_reserve tkeeps_stale : tkeeps.

(** ** The invariant *)
Record ok (n : Z) (ord : list Z) (t : Transport) : Prop := mkOk {
  ok_lanes : Forall (accounted n (pkts t)) (paths t);
  ok_tseq : 0 <= tseq t <= n;
  ok_pkts : forall k d, pkts t !! k = Some d -> queue.seq d = k /\ 1 <= k <= tseq t;
  ok_ord : forall k, k ∈ ord -> is_Some (pkts t !! k);
  ok_nodup : NoDup ord;
  ok_pending : forall k d, k ∈ ord -> pkts t !! k = Some d -> queue.acked d = false -> k ∈ pending t;
  ok_listed : forall k, k ∈ pending t -> k ∈ ord;
  ok_bulk : Forall waiting (tqueue t);
  ok_small : length (small t) = 2%nat /\ forall c, small_ok (cget queue.fair0 (small t) c);
  ok_bound : queued t + Z.of_nat (size (pending t)) <= maxPackets
}.
Definition inv (n : Z) (t : Transport) : Prop := ok n (pendingOrder t) t.

Lemma Forall_view n ps l l' : map view l' = map view l -> Forall (accounted n ps) l -> Forall (accounted n ps) l'.
Proof.
  intros E F. revert l' E. induction F as [|p l Hp F IH]; intros [|p' l'] E; [done|done|done|].
  cbn [map] in E. assert (E1 : view p' = view p) by congruence. assert (E2 : map view l' = map view l) by congruence.
  constructor; [|by apply IH]. by apply (accounted_keeps n ps p p').
Qed.

Lemma ok_core n ord t t' : core t' = core t -> ok n ord t -> ok n ord t'.
Proof.
  unfold core. intros E [H1 H2 H3 H4 H5 H6 H7 H8 H9 H10].
  apply pair_equal_spec in E as [E E7]. apply pair_equal_spec in E as [E E6]. apply pair_equal_spec in E as [E E5].
  apply pair_equal_spec in E as [E E4]. apply pair_equal_spec in E as [E E3]. apply pair_equal_spec in E as [E1 E2].
  split; rewrite ?E2, ?E3, ?E5, ?E6, ?E7; try done; [by eapply Forall_view|].
  unfold queued. by rewrite E5, E6.
Qed.
Lemma tkeeps_core t t' : tkeeps t t' -> core t' = core t.
Proof. unfold tkeeps, tview. congruence. Qed.
Lemma ok_tkeeps n ord t t' : tkeeps t t' -> ok n ord t -> ok n ord t'.
Proof. intros K. by apply ok_core, tkeeps_core. Qed.
Lemma core_order t t' : core t' = core t -> pendingOrder t' = pendingOrder t.
Proof. unfold core. congruence. Qed.
Lemma tkeeps_order t t' : tkeeps t t' -> pendingOrder t' = pendingOrder t.
Proof. intros K. by apply core_order, tkeeps_core. Qed.
Lemma inv_core n t t' : core t' = core t -> ok n (pendingOrder t) t -> ok n (pendingOrder t') t'.
Proof. intros E H. rewrite (core_order _ _ E). by apply (ok_core n _ t). Qed.
Lemma inv_checkTime n now t : inv n t -> inv n (fst (checkTime now t)).
Proof. apply inv_core. unfold checkTime. by destruct (_ <? _). Qed.
Lemma inv_tkeeps n t t' : tkeeps t t' -> inv n t -> inv n t'.
Proof. intros K H. unfold inv. rewrite (tkeeps_order _ _ K). by apply (ok_tkeeps n _ t). Qed.

Lemma queued_nonneg n ord t : ok n ord t -> 0 <= queued t.
Proof.
  intros H. destruct (ok_small _ _ _ H) as [_ S]. unfold queued.
  pose proof (qcount_nonneg _ (S queue.classRealtime)). pose proof (qcount_nonneg _ (S queue.classSmall)). lia.
Qed.

(** ** Acknowledgements *)

(** What the loops over attempts preserve, for the datagrams listed in [ord]. *)
Record work_ok (n : Z) (ord : list Z) (ps0 : gmap Z queue.packet) (q0 : gset Z) (w : work) : Prop := mkWorkOk {
  wk_lane : accounted n (wp w) (wl w);
  wk_grows : grows ps0 (wp w);
  wk_dom : forall k d, wp w !! k = Some d -> exists d0, ps0 !! k = Some d0 /\ queue.seq d = queue.seq d0;
  wk_pending : forall k d, k ∈ ord -> wp w !! k = Some d -> queue.acked d = false -> k ∈ wq w;
  wk_sub : wq w ⊆ q0
}.

Lemma set_acked_Some k ps j d :
  set_acked k ps !! j = Some d ->
  exists d0, ps !! j = Some d0 /\ queue.seq d = queue.seq d0 /\
             (queue.acked d = false -> queue.acked d0 = false /\ j <> k).
Proof.
  unfold set_acked. destruct (decide (k = j)) as [->|Hne].
  - rewrite lookup_alter_eq. destruct (ps !! j) as [d0|]; [|done]. cbn. intros [= <-]. by exists d0.
  - rewrite lookup_alter_ne by done. intros H. exists d. by split_and!.
Qed.

(** The store marks a datagram confirmed; it may stop waiting. *)
Lemma work_acked n ord ps0 q0 w k q :
  work_ok n ord ps0 q0 w -> q ⊆ wq w -> wq w ⊆ {[k]} ∪ q -> work_ok n ord ps0 q0 (w <| wp := set_acked k (wp w) |> <| wq := q |>).
Proof.
  intros [H1 H2 H3 H4 H5] Hq Hq'. split; cbn [wl wp wq update].
  - eapply accounted_grows; [apply grows_set_acked|reflexivity|done].
  - etransitivity; [done|apply grows_set_acked].
  - intros j d Hj. destruct (set_acked_Some _ _ _ _ Hj) as (d0 & Hj0 & -> & _). by apply H3.
  - intros j d Ho Hj Ha. destruct (set_acked_Some _ _ _ _ Hj) as (d0 & Hj0 & _ & Hn). destruct (Hn Ha) as [Ha0 Hne].
    specialize (H4 j d0 Ho Hj0 Ha0). apply Hq' in H4. set_solver.
  - set_solver.
Qed.

Lemma work_lane n ord ps0 q0 w p :
  accounted n (wp w) p -> work_ok n ord ps0 q0 w -> work_ok n ord ps0 q0 (w <| wl := p |>).
Proof. intros Hp [H1 H2 H3 H4 H5]. by split. Qed.
Lemma work_keeps n ord ps0 q0 w p : keeps (wl w) p -> work_ok n ord ps0 q0 w -> work_ok n ord ps0 q0 (w <| wl := p |>).
Proof. intros K H. apply work_lane; [|done]. eapply accounted_keeps; [done|apply H]. Qed.

Lemma ackReceived_acked got ps j d :
  set_fold set_acked ps (got : gset Z) !! j = Some d ->
  exists d0, ps !! j = Some d0 /\ queue.seq d = queue.seq d0 /\ queue.pclass d = queue.pclass d0 /\
             (queue.acked d = false -> queue.acked d0 = false /\ j ∉ got).
Proof.
  revert j d. refine (set_fold_ind_L (fun r X => forall j d, r !! j = Some d -> exists d0, ps !! j = Some d0 /\
    queue.seq d = queue.seq d0 /\ queue.pclass d = queue.pclass d0 /\
    (queue.acked d = false -> queue.acked d0 = false /\ j ∉ X)) set_acked ps _ _ got).
  - intros j d H. exists d. set_solver.
  - intros x X r Hx IH j d H. unfold set_acked in H. destruct (decide (x = j)) as [->|Hne].
    + rewrite lookup_alter_eq in H. destruct (r !! j) as [e|] eqn:E; [|done]. injection H as <-.
      destruct (IH j e E) as (d0 & ? & ? & ? & _). exists d0. by split_and!.
    + rewrite lookup_alter_ne in H by done. destruct (IH j d H) as (d0 & ? & ? & ? & Hn). exists d0.
      split_and!; try done. intros Ha. destruct (Hn Ha). set_solver.
Qed.
Lemma ackReceived_grows (got : gset Z) ps : grows ps (set_fold set_acked ps got).
Proof.
  refine (set_fold_ind_L (fun r _ => grows ps r) set_acked ps _ _ got); [reflexivity|].
  intros x X r _ IH. etransitivity; [exact IH|apply grows_set_acked].
Qed.

Lemma ackReceived_ok n ord a p ps q :
  accounted n ps p -> (forall k d, k ∈ ord -> ps !! k = Some d -> queue.acked d = false -> k ∈ q) ->
  work_ok n ord ps q (ackReceived a (mkWork p ps q)).
Proof.
  intros Hp Hq. unfold ackReceived. cbn [wp wq]. set (got := filter _ q). split; cbn [wl wp wq update].
  - eapply accounted_grows; [apply ackReceived_grows|reflexivity|done].
  - apply ackReceived_grows.
  - intros k d H. destruct (ackReceived_acked _ _ _ _ H) as (d0 & ? & ? & _). eauto.
  - intros k d Ho H Ha. destruct (ackReceived_acked _ _ _ _ H) as (d0 & H0 & _ & _ & Hn). destruct (Hn Ha) as [Ha0 Hg].
    specialize (Hq k d0 Ho H0 Ha0). set_solver.
  - set_solver.
Qed.

(** An attempt leaves the window of the lane at work. *)
Lemma work_settle n ord ps0 q0 w k a q m :
  work_ok n ord ps0 q0 w -> attempts (wl w) !! k = Some a -> keeps (releaseUnless a (wp w) (wl w)) q ->
  m = delete k (attempts (wl w)) \/
  (exists b, m = <[k := b]> (attempts (wl w)) /\ released b = true /\ apacket b = apacket a /\ abytes b = abytes a) ->
  work_ok n ord ps0 q0 (w <| wl := q <| attempts := m |> |>).
Proof. intros H Ha K Hm. apply work_lane; [|done]. eapply accounted_settle; [apply H|done..]. Qed.

(** Between the release of an attempt and the write that records it. *)
Definition leaving n ord ps0 q0 (k : Z) (a : attempt) (w : work) : Prop :=
  exists w0, work_ok n ord ps0 q0 w0 /\ attempts (wl w0) !! k = Some a /\
    keeps (releaseUnless a (wp w0) (wl w0)) (wl w) /\
    ((wp w = wp w0 /\ wq w = wq w0) \/ exists d, wp w = set_acked d (wp w0) /\ wq w = wq w0 ∖ {[d]}).

Lemma leaving_settle n ord ps0 q0 k a w m :
  leaving n ord ps0 q0 k a w ->
  m = delete k (attempts (wl w)) \/
  (exists b, m = <[k := b]> (attempts (wl w)) /\ released b = true /\ apacket b = apacket a /\ abytes b = abytes a) ->
  work_ok n ord ps0 q0 (w <| wl := wl w <| attempts := m |> |>).
Proof.
  intros (w0 & H0 & Ha & K & Hst) Hm. destruct w as [l ps q]. cbn [wl wp wq update] in *.
  assert (E : attempts l = attempts (wl w0)).
  { unfold keeps, view in K. destruct (releaseUnless_rest a (wp w0) (wl w0)) as (<- & _). congruence. }
  rewrite E in Hm. pose proof (work_settle _ _ _ _ _ _ _ _ _ H0 Ha K Hm) as H.
  destruct Hst as [[-> ->]|(d & -> & ->)].
  - destruct w0. exact H.
  - destruct w0 as [l0 ps1 q1]. apply (work_acked _ _ _ _ _ d (q1 ∖ {[d]})) in H; [exact H|set_solver|].
    cbn. intros x Hx. destruct (decide (x = d)); set_solver.
Qed.

Lemma leaving_keeps n ord ps0 q0 k a w p :
  keeps (wl w) p -> leaving n ord ps0 q0 k a w -> leaving n ord ps0 q0 k a (w <| wl := p |>).
Proof. intros K (w0 & H0 & Ha & K0 & H). exists w0. split_and!; try done. by transitivity (wl w). Qed.

(** Proof rule of a statement. *)
Lemma seq_rule {A B} (Q : A -> Prop) (P : B -> Prop) v k : Q v -> (forall x, Q x -> P (k x)) -> P (seq_let v k).
Proof. intros Hv Hk. apply Hk, Hv. Qed.

Lemma confirmOne_ok n ord ps0 q0 a k w : work_ok n ord ps0 q0 w -> work_ok n ord ps0 q0 (confirmOne a k w).
Proof.
  intros H. unfold confirmOne. destruct (attempts (wl w) !! k) as [s|] eqn:E; [|done].
  destruct (bond.high a <? k); [done|]. set (P := keeps (releaseUnless s (wp w) (wl w))).
  apply (seq_rule P); [reflexivity|]. intros p Hp. apply (seq_rule P); [exact Hp|]. clear p Hp. intros p Hp.
  apply (seq_rule (fun w' => wl w' = p /\ wp w' = wp w /\ wq w' = wq w)); [done|]. intros w1 (E1 & E2 & E3).
  apply (seq_rule (leaving n ord ps0 q0 k s)).
  - exists w. destruct (apacket s) as [d|]; cbn [wl wp wq update]; (split; [done|]; split; [done|]).
    + split; [exact Hp|]. right. exists d. by rewrite E2, E3.
    + rewrite E1. split; [exact Hp|]. left. done.
  - intros w2 H2. eapply leaving_settle; [done|by left].
Qed.

Lemma fold_ok {A S} (P : S -> Prop) (f : S -> A -> S) l s : (forall s x, P s -> P (f s x)) -> P s -> P (fold_left f l s).
Proof. intros Hf. revert s. induction l as [|x l IH]; intros s Hs; [done|]. cbn. by apply IH, Hf. Qed.

Lemma confirmArrived_ok n ord ps0 q0 l a thr w :
  work_ok n ord ps0 q0 w -> work_ok n ord ps0 q0 (confirmArrived l a thr w).
Proof.
  intros H. unfold confirmArrived. destruct (negb _); [done|].
  apply (fold_ok (work_ok n ord ps0 q0)); [|done]. intros. by apply confirmOne_ok.
Qed.

Lemma onLane_ok n ord ps0 q0 f s :
  (forall p, keeps p (f p)) -> work_ok n ord ps0 q0 (sw s) -> work_ok n ord ps0 q0 (sw (onLane f s)).
Proof. intros Hf H. unfold onLane. cbn [sw update]. apply work_keeps; [apply Hf|done]. Qed.
Lemma onLane_leaving n ord ps0 q0 k a f s :
  (forall p, keeps p (f p)) -> leaving n ord ps0 q0 k a (sw s) -> leaving n ord ps0 q0 k a (sw (onLane f s)).
Proof. intros Hf H. unfold onLane. cbn [sw update]. apply leaving_keeps; [apply Hf|done]. Qed.

#[local] Hint Resolve keeps_idleForward keeps_baselineArrived keeps_delaySample : keeps.

Lemma ackTiming_ok n ord ps0 q0 a now snt s :
  work_ok n ord ps0 q0 (sw s) -> work_ok n ord ps0 q0 (sw (ackTiming a now snt s)).
Proof.
  intros H. unfold ackTiming. cbv zeta.
  apply (seq_rule (fun s => work_ok n ord ps0 q0 (sw s))); [done|]. intros s1 H1. cbv zeta.
  apply (seq_rule (fun s => work_ok n ord ps0 q0 (sw s))); [apply onLane_ok; [auto with keeps|done]|]. intros s2 H2.
  apply (seq_rule (fun s => work_ok n ord ps0 q0 (sw s))); [apply onLane_ok; [auto with keeps|done]|]. intros s3 H3.
  apply onLane_ok; [auto with keeps|done].
Qed.

(** The first statements of either branch sample the attempt's order. *)
Lemma ackOrder_attempts now x s :
  attempts (wl (sw (onLane (observeOrder now x) s))) = attempts (wl (sw s)) /\ wp (sw (onLane (observeOrder now x) s)) = wp (sw s).
Proof.
  split; [|done]. pose proof (keeps_observeOrder now x (wl (sw s))) as K. unfold keeps, view in K.
  unfold onLane. cbn [sw wl update]. congruence.
Qed.

Lemma ackOne_ok n ord ps0 q0 a now fresh k s :
  work_ok n ord ps0 q0 (sw s) -> work_ok n ord ps0 q0 (sw (ackOne a now fresh k s)).
Proof.
  intros H. unfold ackOne. destruct (attempts (wl (sw s)) !! k) as [snt|] eqn:E; [|done].
  set (here := fun s => work_ok n ord ps0 q0 (sw s) /\ attempts (wl (sw s)) !! k = Some snt).
  set (gone := fun s => leaving n ord ps0 q0 k snt (sw s)).
  assert (Hrel : forall s, here s -> gone (onLane (releaseUnless snt (wp (sw s))) s)).
  { intros x [Hx Ex]. exists (sw x). split_and!; [done|done|reflexivity|by left]. }
  assert (Hdel : forall s, gone s -> work_ok n ord ps0 q0 (sw (onLane (fun p => p <| attempts := delete k (attempts p) |>) s))).
  { intros x Hx. unfold onLane. cbn [sw update]. eapply leaving_settle; [exact Hx|by left]. }
  assert (Hord : forall s x, here s -> here (onLane (observeOrder now x) s)).
  { intros y x [Hy Ey]. split; [apply onLane_ok; [auto with keeps|done]|]. by rewrite (proj1 (ackOrder_attempts now x y)). }
  destruct (laneBit a k).
  - apply (seq_rule here). { destruct (negb _); [|done]. unfold seq_let. by apply (Hord s). }
    intros s1 H1. apply (seq_rule here).
    { destruct (apacket snt); [|done]. destruct H1 as [H1 E1]. split; [by apply onLane_ok|done]. }
    intros s2 H2. apply (seq_rule gone); [by apply Hrel|].
    intros s3 H3. apply (seq_rule gone); [by apply onLane_leaving|].
    intros s4 H4. clear Hrel Hord H1 H2 H3. apply (seq_rule (fun s => work_ok n ord ps0 q0 (sw (onLane (fun p => p <| attempts := delete k (attempts p) |>) s)))).
    { destruct (apacket snt) as [d|]; [|by apply Hdel]. unfold onLane. cbn [sw update].
      eapply (work_acked _ _ _ _ _ d (wq (sw s4) ∖ {[d]})) in Hdel as H5; [exact H5|exact H4|set_solver|].
      cbn. intros x Hx. destruct (decide (x = d)); set_solver. }
    intros s5 H5. apply (seq_rule (fun s => work_ok n ord ps0 q0 (sw s))); [exact H5|]. intros s6 H6.
    apply (seq_rule (fun s => work_ok n ord ps0 q0 (sw s))); [by destruct (_ && _)|]. intros s7 H7.
    destruct (_ && _); [by apply ackTiming_ok|done].
  - destruct (apacket snt) as [d|]; [|done]. destruct (_ && _); [|done].
    apply (seq_rule gone); [by apply Hrel|]. intros s1 H1. apply (seq_rule gone).
    { destruct (negb _ && _); [|done]. unfold seq_let. by apply onLane_leaving; [auto with keeps|]. }
    intros s2 H2. by apply Hdel.
Qed.

Lemma settleOne_ok n ord ps0 q0 a now k s :
  work_ok n ord ps0 q0 (fst s) -> work_ok n ord ps0 q0 (fst (settleOne a now k s)).
Proof.
  intros H. destruct s as [w fb]. cbn [fst] in H. unfold settleOne.
  destruct (attempts (wl w) !! k) as [snt|] eqn:E; [|done]. destruct (apacket snt) as [d|] eqn:Ed; [|done].
  destruct (_ && _); [|done]. set (P := fun s : work * Duration => work_ok n ord ps0 q0 (fst s)).
  apply (seq_rule (fun w => work_ok n ord ps0 q0 w /\ attempts (wl w) !! k = Some snt) P).
  { split; [|done]. apply (work_acked _ _ _ _ _ d (wq w)) in H; [by destruct w|done|set_solver]. }
  intros w1 [H1 E1]. apply (seq_rule (leaving n ord ps0 q0 k snt) P).
  { exists w1. split_and!; [done|done|reflexivity|by left]. }
  intros w2 H2. destruct (pkt_attempts (wp w2) d =? 1); unfold P, seq_let; cbn [fst].
  - eapply (leaving_settle _ _ _ _ _ _ (w2 <| wl := observeOrder now (asent snt) (wl w2) |>)).
    + apply leaving_keeps; [apply keeps_observeOrder|done].
    + right. by eexists.
  - eapply (leaving_settle _ _ _ _ _ _ w2); [done|]. right. by eexists.
Qed.

Section Iteration.
Context (iter : Time -> gmap Z attempt -> list Z).

Lemma settleLane_ok n ord ps0 q0 a now fb w :
  work_ok n ord ps0 q0 w -> work_ok n ord ps0 q0 (settleLane iter a now fb w).
Proof.
  intros H. unfold settleLane.
  assert (F : work_ok n ord ps0 q0 (fst (fold_left (fun s k => settleOne a now k s) (iter now (attempts (wl w))) (w, fb)))).
  { apply (fold_ok (fun s => work_ok n ord ps0 q0 (fst s))); [|done]. intros s k Hs. by apply settleOne_ok. }
  destruct (fold_left _ _ _) as [w' fb']. cbn [fst] in F. apply work_keeps; [apply keeps_observeFeedbackRTT|done].
Qed.

(** The last loop over the lanes: all of them stay accounted in the store it
    leaves. *)
Lemma settleLanes_ok n (ord : list Z) a now i fb k ps0 ps (q : gset Z) l :
  grows ps0 ps -> (forall k d, ps !! k = Some d -> exists d0, ps0 !! k = Some d0 /\ queue.seq d = queue.seq d0) ->
  (forall k d, k ∈ ord -> ps !! k = Some d -> queue.acked d = false -> k ∈ q) ->
  Forall (accounted n ps) l ->
  let '(l', ps') := settleLanes iter a now i fb k ps q l in
  grows ps ps' /\ Forall (accounted n ps') l' /\
  (forall k d, ps' !! k = Some d -> exists d0, ps0 !! k = Some d0 /\ queue.seq d = queue.seq d0) /\
  (forall k d, k ∈ ord -> ps' !! k = Some d -> queue.acked d = false -> k ∈ q).
Proof.
  revert k ps. induction l as [|p l IH]; intros k ps Hg Hd Hq F; [by cbn|]. cbn [settleLanes].
  apply Forall_cons_1 in F as [Fp F].
  assert (W : work_ok n ord ps0 q (mkWork p ps q)) by (by split).
  assert (W1 : work_ok n ord ps q (settleLane iter a now (if (k =? i)%nat then fb else 0) (mkWork p ps q))).
  { apply settleLane_ok. split; try done. intros j d Hj. by exists d. }
  apply (settleLane_ok n ord ps0 q a now (if (k =? i)%nat then fb else 0)) in W.
  apply (seq_rule (fun w => work_ok n ord ps0 q w /\ work_ok n ord ps q w /\ wq w ⊆ q)
           (fun r => let '(l', ps') := r in _)); [split_and!; [done|done|apply W]|].
  clear W W1. intros w (W & W1 & Hs). specialize (IH (S k) (wp w)).
  destruct (settleLanes iter a now i fb (S k) (wp w) q l) as [l' ps'].
  destruct IH as (G & F' & D & Q).
  - apply W.
  - apply W.
  - intros j d Ho Hj Ha. apply Hs. by apply (wk_pending _ _ _ _ _ W j d).
  - eapply Forall_impl; [exact F|]. intros x Hx. eapply accounted_grows; [apply W1|reflexivity|done].
  - split_and!; try done.
    + etransitivity; [apply W1|done].
    + constructor; [|done]. eapply accounted_grows; [exact G|reflexivity|apply W].
Qed.

Lemma Forall_lane {P : lane -> Prop} l i p : Forall P l -> l !! i = Some p -> P p.
Proof. intros F H. by apply (proj1 (Forall_lookup P l) F i). Qed.

Lemma tkeeps_put t i p q : paths t !! i = Some p -> keeps p q -> tkeeps t (upd i (fun _ => q) t).
Proof.
  intros Hi K. apply tkeeps_lanes, list_eq. intros j. rewrite !list_lookup_fmap.
  destruct (decide (i = j)) as [->|Hne].
  - rewrite list_lookup_alter_eq, Hi. cbn. by rewrite K.
  - by rewrite list_lookup_alter_ne.
Qed.
Lemma tkeeps_ackControl i smp b now t : tkeeps t (ackControl i smp b now t).
Proof.
  unfold ackControl. destruct (paths t !! i) as [p|] eqn:E; [|done].
  pose proof (keeps_ackInterval smp now p) as K. destruct (ackInterval_ smp now p) as [q v]. cbn [fst] in K.
  tkeeps_step; [by apply (tkeeps_put t i p)|]. tkeeps_tac.
Qed.
#[local] Hint Resolve tkeeps_ackControl : tkeeps.
#[local] Hint Resolve keeps_lateBelow : keeps.

Lemma ack_inv n i a now fresh t : inv n t -> inv n (ack iter i a now fresh t).
Proof.
  unfold inv. set (ord := pendingOrder t). intros H.
  enough (ok n ord (ack iter i a now fresh t) /\ pendingOrder (ack iter i a now fresh t) = ord) as [Hok ->] by done.
  set (P := fun t' => ok n ord t' /\ pendingOrder t' = ord). change (P (ack iter i a now fresh t)). unfold ack. destruct (paths t !! i) as [p|] eqn:Ei; [|done]. cbv zeta.
  apply (seq_rule (keeps p) P); [apply keeps_ackProgress|]. intros p1 K1.
  apply (seq_rule (work_ok n ord (pkts t) (pending t)) P).
  { apply ackReceived_ok; [|apply H]. eapply accounted_keeps; [exact K1|]. exact (Forall_lane _ _ _ (ok_lanes _ _ _ H) Ei). }
  intros w Hw.
  apply (seq_rule (fun s => work_ok n ord (pkts t) (pending t) (sw s)) P).
  { apply (fold_ok (fun s => work_ok n ord (pkts t) (pending t) (sw s))); [|done]. intros s k Hs. by apply ackOne_ok. }
  clear w Hw. intros s Hs.
  apply (seq_rule (work_ok n ord (pkts t) (pending t)) P); [exact Hs|]. intros w Hw.
  apply (seq_rule (work_ok n ord (pkts t) (pending t)) P).
  { destruct fresh; [|done]. apply (seq_rule (work_ok n ord (pkts t) (pending t))); [destruct (counted s); [by apply work_keeps|done]|].
    intros w1 H1. destruct (_ && _); [by apply confirmArrived_ok|done]. }
  clear w Hw. intros w Hw.
  assert (Hl : Forall (accounted n (wp w)) (<[i := wl w]> (paths t))).
  { apply Forall_insert; [|apply Hw]. eapply Forall_impl; [apply H|]. intros x Hx.
    eapply accounted_grows; [apply Hw|reflexivity|done]. }
  pose proof (settleLanes_ok n ord a now i (physicalFeedback s) 0 (pkts t) (wp w) (wq w) _ (wk_grows _ _ _ _ _ Hw)
                (wk_dom _ _ _ _ _ Hw) (wk_pending _ _ _ _ _ Hw) Hl) as S.
  destruct (settleLanes _ _ _ _ _ _ _ _ _) as [ls ps]. destruct S as (G & F & D & Q).
  pose proof (wk_sub _ _ _ _ _ Hw) as Hsub.
  assert (H1 : ok n ord (t <| paths := ls |> <| pkts := ps |> <| pending := wq w |>)).
  { pose proof (transitivity (wk_grows _ _ _ _ _ Hw) G) as G'.
    destruct H as [A1 A2 A3 A4 A5 A6 A7 A8 A9 A10]. split; cbn; try done.
    - intros k d Hk. destruct (D k d Hk) as (d0 & Hk0 & E). rewrite E. by apply A3.
    - intros k Hk. destruct (A4 k Hk) as [d Hd]. destruct (G' k d Hd) as (d' & E & _). by exists d'.
    - intros k Hk. apply A7. set_solver.
    - change (queued _) with (queued t). pose proof (subseteq_size _ _ Hsub). lia. }
  assert (H2 : P (t <| paths := ls |> <| pkts := ps |> <| pending := wq w |>)) by done.
  set (t1 := t <| paths := ls |> <| pkts := ps |> <| pending := wq w |>) in *.
  assert (HP : forall t', tkeeps t1 t' -> P t').
  { intros t' K. split; [by eapply ok_tkeeps|]. by rewrite (tkeeps_order _ _ K). }
  apply HP. clear. clearbody t1. tkeeps_tac.
Qed.

(** ** Receiving *)
Lemma core_upd i f t : (forall p, keeps p (f p)) -> core (upd i f t) = core t.
Proof. intros Hf. by apply tkeeps_core, tkeeps_upd. Qed.

Lemma core_receiveData path i ln fseq body dseq order now t :
  core (fst (receiveData path i ln fseq body dseq order now t)) = core t.
Proof.
  unfold receiveData. destruct (match receivers t !! ln with Some r => _ | None => _ end) as [t1 r] eqn:E.
  assert (C : core t1 = core t) by (destruct (receivers t !! ln); by injection E as <- <-). clear E.
  set (P := fun x : Transport * outcome terror (list Delivery) => core (fst x) = core t).
  set (Q := fun u : Transport => core u = core t). change (Q t1) in C.
  destruct (negb _); [exact C|]. cbv zeta. destruct (receipt.mark fseq _) as [rw new].
  apply (seq_rule (fun _ => True) P); [done|]. intros r1 _. destruct (negb new); [exact C|].
  do 5 (apply (seq_rule (fun _ => True) P); [done|]; intros ? _).
  apply (seq_rule Q P); [exact C|]. clear t1 C. intros t1 C. destruct (dseq =? 0); [exact C|].
  apply (seq_rule Q P). { destruct (_ =? 0); [|exact C]. unfold Q. by rewrite core_upd. }
  clear t1 C. intros t1 C. destruct (receipt.mark dseq (treceived t1)) as [tw new'].
  apply (seq_rule Q P); [exact C|]. clear t1 C. intros t1 C. destruct (negb new'); [exact C|].
  apply (seq_rule Q P); [exact C|]. clear t1 C. intros t1 C. exact C.
Qed.

Lemma receiveACK_inv n path i p ln f now t : inv n t -> inv n (fst (receiveACK iter path i p ln f now t)).
Proof.
  intros H. unfold receiveACK. destruct (negb _); [done|]. destruct (bond.parseACK _) as [a|c|]; [|done|done].
  destruct (negb _); [done|]. cbv zeta. destruct (_ || _); [done|]. destruct (receipt.mark _ _) as [aw new].
  apply (seq_rule (inv n) (fun r => inv n (fst r))); [eapply inv_tkeeps; [|exact H]; tkeeps_tac|]. intros t1 H1.
  destruct (negb new); [done|].
  apply (seq_rule (inv n) (fun r => inv n (fst r))); [eapply inv_tkeeps; [|exact H1]; tkeeps_tac|]. intros t2 H2.
  by apply ack_inv.
Qed.

Lemma receive_inv n path f now t : inv n t -> inv n (fst (receive iter path f now t)).
Proof.
  intros H. unfold receive. apply (inv_checkTime n now) in H. destruct (checkTime now t) as [t1 []]; cbn [fst] in H; [|done].
  cbv zeta. destruct (bond.parseHeader _) as [h|c|]; [|done|done]. destruct (_ || _); [done|].
  destruct (find path t1 ≫= _) as [[i p]|]; [|done]. destruct (negb _); [done|].
  destruct (_ =? bond.DataType).
  - destruct (negb _); [done|]. destruct (_ || _)%nat; [done|]. destruct (negb _); [done|].
    destruct (_ && _); [done|]. destruct (_ && _); [done|]. eapply inv_core; [apply core_receiveData|done].
  - destruct (_ =? bond.ACKType); [by apply receiveACK_inv|done].
Qed.

Lemma Receive_inv n path f now t : inv n t -> inv n (fst (Receive iter path f now t)).
Proof.
  intros H%(receive_inv n path f now). unfold Receive. destruct (receive _ _ _ _ _) as [t' [ds|[c|]|]]; try done.
  eapply inv_tkeeps; [|exact H]. reflexivity.
Qed.
End Iteration.

(** ** Admission, paths and epochs *)
Lemma ok_weaken n n' ord t : n <= n' -> ok n ord t -> ok n' ord t.
Proof.
  intros Hn [H1 H2 H3 H4 H5 H6 H7 H8 H9 H10]. split; try done; [|lia].
  eapply Forall_impl; [exact H1|]. intros p Hp. by eapply accounted_grows.
Qed.

Lemma cget_small {A} (d : A) (l : list A) c c' v :
  length l = 2%nat -> c <> queue.classBulk -> cget d (cset l c v) c' = if bool_decide (c = c') then v else cget d l c'.
Proof.
  intros Hl Hc. unfold cget, cset. case_bool_decide as E.
  - subst. rewrite list_lookup_insert_eq; [done|]. destruct c'; cbn; [lia|lia|done].
  - rewrite list_lookup_insert_ne; [done|]. destruct c, c'; cbn; congruence.
Qed.

(** Replacing the queue of a small class. *)
Lemma small_ok_cset (l : list queue.fairPacketQueue) c q :
  c <> queue.classBulk -> (length l = 2%nat /\ forall c, small_ok (cget queue.fair0 l c)) -> small_ok q ->
  length (cset l c q) = 2%nat /\ forall c', small_ok (cget queue.fair0 (cset l c q) c').
Proof.
  intros Hc [Hl H] Hq. split; [by rewrite length_cset|]. intros c'. rewrite cget_small by done. by case_bool_decide.
Qed.
Lemma queued_cset t c q :
  c <> queue.classBulk -> length (small t) = 2%nat ->
  queued (t <| small := cset (small t) c q |>) =
  queued t - queue.qcount (cget queue.fair0 (small t) c) + queue.qcount q.
Proof.
  intros Hc Hl. unfold queued. cbn [tqueue small update]. rewrite !cget_small by done.
  destruct c; [| |done]; repeat case_bool_decide; try congruence; lia.
Qed.

Lemma Enqueue_inv n payload m now t :
  inv n t -> inv n (fst (Enqueue payload m now t)) /\ snd (Enqueue payload m now t) <> Panic.
Proof.
  intros H. unfold Enqueue. apply (inv_checkTime n now) in H. destruct (checkTime now t) as [t1 []]; cbn [fst] in H; [|done].
  clear t. rename t1 into t. cbv zeta.
  destruct (_ || _); [done|]. set (c := classify _ _). destruct (Z.leb_spec (if bool_decide (c = queue.classBulk) then
    maxPackets - smallPacketHeadroom else maxPackets) (queued t + Z.of_nat (size (pending t)))) as [Hle|Hlt].
  { unfold seq_let. destruct (negb _); cbn [fst snd]; (split; [|done]); (eapply inv_tkeeps; [|exact H]; reflexivity). }
  assert (Hroom : queued t + Z.of_nat (size (pending t)) + 1 <= maxPackets).
  { case_bool_decide; unfold smallPacketHeadroom in *; lia. }
  clear Hlt. unfold seq_let. destruct H as [A1 A2 A3 A4 A5 A6 A7 A8 A9 A10]. case_bool_decide as Ec; cbn [negb].
  - cbn [fst snd]. split; [|done]. unfold inv. split; cbn; try done.
    + apply Forall_app. split; [done|]. by repeat constructor.
    + unfold queued in *. cbn [tqueue small update] in *. rewrite length_app. cbn [length]. lia.
  - match goal with |- context [queue.push ?x _] => set (p := x) end.
    destruct (push_ok p (cget queue.fair0 (small t) c)) as (q & b & -> & Hq & Hc); [done|apply A9|].
    assert (I : inv n (t <| small := cset (small t) c q |>)).
    { unfold inv. split; cbn; try done; [by apply small_ok_cset|].
      change (queued _) with (queued (t <| small := cset (small t) c q |>)).
      rewrite queued_cset by (done || apply A9). lia. }
    split; [|by destruct b]. destruct b; [|exact I]. eapply inv_tkeeps; [|exact I]. reflexivity.
Qed.

(** The lease is not part of the accounts. *)
Lemma inv_lease n i now t : inv n t -> inv n (upd i (fun p => p <| lease := now |>) t).
Proof.
  intros [A1 A2 A3 A4 A5 A6 A7 A8 A9 A10]. split; cbn; try done. apply Forall_alter; [done|]. intros p _ [].
  split; done.
Qed.

Lemma PathUp_inv n ident rid rt now t : inv n t -> inv n (fst (PathUp ident rid rt now t)).
Proof.
  intros H. unfold PathUp. apply (inv_checkTime n now) in H. destruct (checkTime now t) as [t1 []]; cbn [fst] in H; [|done].
  clear t. rename t1 into t.
  destruct (find ident t) as [i|]; cbn [fst].
  - by apply inv_lease.
  - unfold seq_let. apply inv_lease.
    destruct H as [A1 A2 A3 A4 A5 A6 A7 A8 A9 A10]. split; cbn; try done.
    apply Forall_app. split; [done|]. apply Forall_cons. split; [|constructor]. apply accounted_empty; try done. lia.
Qed.

Lemma Disable_inv n ident t : inv n t -> inv n (Disable ident t).
Proof.
  intros H. unfold Disable. destruct (find ident t); [|done]. by apply inv_lease.
Qed.

Definition cleared (p : lane) : Prop :=
  attempts p = ∅ /\ inflight p = 0 /\ classInflight p = replicate 3 0 /\ seq p = 0.
Lemma cleared_keeps p q : keeps p q -> cleared p -> cleared q.
Proof. unfold keeps, view, cleared. intros [= -> -> -> -> _ _] H. exact H. Qed.

Lemma resetWindow_cleared p : cleared (resetWindow p).
Proof. by unfold resetWindow, seq_let. Qed.
Lemma resetLane_cleared p : cleared (resetLane p).
Proof.
  unfold resetLane. apply (seq_rule cleared cleared); [apply resetWindow_cleared|]. intros q Hq.
  unfold seq_let. eapply cleared_keeps; [apply keeps_resetControl|]. eapply cleared_keeps; [apply keeps_resetSamples|].
  eapply cleared_keeps; [apply keeps_resetFeedback|exact Hq].
Qed.

(** The transport of a new peer epoch, whatever its lanes become. *)
Lemma forgetPeer_ok n ep t ls :
  inv n t -> Forall (accounted n ∅) ls -> inv n (forgetPeer ep t <| paths := ls |>).
Proof.
  intros H F. pose proof (queued_nonneg _ _ _ H) as Hq. destruct H as [A1 A2 A3 A4 A5 A6 A7 A8 A9 A10].
  assert (E : pkts (forgetPeer ep t) = ∅ /\ pending (forgetPeer ep t) = ∅ /\ pendingOrder (forgetPeer ep t) = [] /\
              tseq (forgetPeer ep t) = 0 /\ tqueue (forgetPeer ep t) = tqueue t /\ small (forgetPeer ep t) = small t)
    by (unfold forgetPeer, seq_let; split_and!; reflexivity).
  revert E. generalize (forgetPeer ep t). intros u (E1 & E2 & E3 & E4 & E5 & E6). unfold inv.
  split; cbn [pkts paths tseq pending pendingOrder tqueue small update]; rewrite ?E1, ?E2, ?E3, ?E4, ?E5, ?E6; try done; try lia.
  - intros k Hk. by apply elem_of_nil in Hk.
  - constructor.
  - change (queued _) with (queued t). rewrite size_empty. lia.
Qed.

Lemma resetLanes_ok n l : 0 <= n -> Forall (accounted n ∅) (map resetLane l).
Proof.
  intros Hn. apply Forall_fmap, Forall_true. intros p. destruct (resetLane_cleared p) as (E1 & E2 & E3 & E4).
  apply accounted_empty; [exact E1|exact E2|exact E3|exact E4|exact Hn].
Qed.

Lemma SetRemote_inv n ep adopted t : inv n t -> inv n (fst (SetRemote ep adopted t)).
Proof.
  intros H. unfold SetRemote. destruct (bool_decide _); [done|]. destruct (_ || _); [done|]. destruct (_ && _); [done|].
  unfold seq_let. apply (forgetPeer_ok n ep t (map resetLane (paths (forgetPeer ep t))) H), resetLanes_ok.
  destruct (ok_tseq _ _ _ H). lia.
Qed.

(** ** Transmission *)
Lemma view_beginAttempt now l :
  view (beginAttempt now l) = (attempts l, inflight l, classInflight l, u64 (seq l + 1), lview l).
Proof. unfold beginAttempt, seq_let. by destruct (_ =? _). Qed.

Lemma keeps_firstSent (now : Time) l : keeps l (if is_zero_time (firstSent l) then l <| firstSent := now |> else l).
Proof. keeps_tac. Qed.

Lemma keeps_lview p q : keeps p q -> lview q = lview p.
Proof. unfold keeps, view. congruence. Qed.
Lemma beginAttempt_lview now l : lview (beginAttempt now l) = lview l.
Proof. pose proof (view_beginAttempt now l) as E. unfold view in E. congruence. Qed.
Lemma lview_rule (l v : lane) (k : lane -> lane) :
  lview v = lview l -> (forall q, lview q = lview l -> lview (k q) = lview l) -> lview (seq_let v k) = lview l.
Proof. intros Hv Hk. apply Hk, Hv. Qed.
Lemma laneTransmit_lview now size p l : lview (laneTransmit now size p l) = lview l.
Proof.
  unfold laneTransmit. apply lview_rule; [apply beginAttempt_lview|]. intros l1 E1. rewrite <- E1.
  apply lview_rule; [apply keeps_lview, keeps_firstSent|]. intros l2 E2. rewrite <- E2.
  apply lview_rule; [reflexivity|]. intros l3 E3. rewrite <- E3. apply keeps_lview. keeps_tac.
Qed.
Lemma lanePing_lview now l : lview (lanePing now l) = lview l.
Proof.
  unfold lanePing. apply lview_rule; [apply beginAttempt_lview|]. intros l1 E1. rewrite <- E1.
  apply lview_rule; [reflexivity|]. intros l2 E2. rewrite <- E2.
  apply lview_rule; [apply keeps_lview, keeps_firstSent|]. intros l3 E3. rewrite <- E3.
  apply lview_rule; [reflexivity|]. intros l4 E4. rewrite <- E4.
  apply lview_rule; [reflexivity|]. intros l5 E5. rewrite <- E5. apply keeps_lview. keeps_tac.
Qed.

Lemma laneTransmit_ok n ps now size p l d :
  accounted n ps l -> n + 1 < 2 ^ 64 -> 0 <= size -> ps !! queue.seq p = Some d -> queue.pclass d = queue.pclass p ->
  accounted (n + 1) ps (laneTransmit now size p l).
Proof.
  intros H Hn Hs Hd Hc. unfold laneTransmit.
  set (P := accounted (n + 1) ps).
  set (begun := fun q => view q = (attempts l, inflight l, classInflight l, u64 (seq l + 1), lview l)).
  apply (seq_rule begun P); [apply view_beginAttempt|]. intros l1 E1.
  apply (seq_rule begun P); [unfold begun; rewrite <- E1; apply keeps_firstSent|]. clear l1 E1. intros l1 E1.
  apply (seq_rule P P).
  - unfold begun, view in E1. injection E1 as E1 E2 E3 E4 _ _. unfold enterWindow, seq_let.
    eapply (accounted_enter n ps l _ (mkAttempt (Some (queue.seq p)) now size false false (u64 (sent l1 + size)))
              (Some (queue.pclass p)) H Hn); cbn [abytes released apacket]; try done.
    + intros e [= <-]. by exists d.
    + unfold pkt_class. cbn. rewrite Hd. cbn. by rewrite Hc.
    + cbn. by rewrite E1, E4.
    + cbn. by rewrite E2.
    + cbn. by rewrite E3.
  - intros l2 H2. eapply accounted_keeps; [|exact H2]. keeps_tac.
Qed.

Lemma lanePing_ok n ps now l :
  accounted n ps l -> n + 1 < 2 ^ 64 -> accounted (n + 1) ps (lanePing now l).
Proof.
  intros H Hn. unfold lanePing. set (P := accounted (n + 1) ps).
  set (begun := fun q => view q = (attempts l, inflight l, classInflight l, u64 (seq l + 1), lview l)).
  apply (seq_rule begun P); [apply view_beginAttempt|]. intros l1 E1.
  apply (seq_rule begun P); [exact E1|]. clear l1 E1. intros l1 E1.
  apply (seq_rule begun P); [unfold begun; rewrite <- E1; apply keeps_firstSent|]. clear l1 E1. intros l1 E1.
  unfold begun, view in E1. injection E1 as E1 E2 E3 E4 _ _.
  set (a := mkAttempt None now wireOverhead false false (u64 (sent l1 + wireOverhead))).
  apply (seq_rule (fun q => attempts q = <[u64 (seq l + 1) := a]> (attempts l) /\ inflight q = inflight l /\
           classInflight q = classInflight l /\ seq q = u64 (seq l + 1)) P).
  { cbn. by rewrite E1, E2, E3, E4. }
  intros l2 (F1 & F2 & F3 & F4).
  apply (seq_rule P P).
  - by eapply (accounted_enter n ps l _ a None H Hn); try done; cbn; rewrite ?F1, ?F2, ?F3, ?F4.
  - intros l3 H3. apply (seq_rule P P); [eapply accounted_keeps; [|exact H3]; reflexivity|].
    intros l4 H4. eapply accounted_keeps; [apply keeps_pace|exact H4].
Qed.

Lemma tkeeps_firstStatistics now size i ident p t : tkeeps t (firstStatistics now size i ident p t).
Proof. unfold firstStatistics. tkeeps_tac. Qed.

(** A datagram got the next sequence and its place in the order of repairs. *)
Definition sequenced (t : Transport) (p : queue.packet) (r : Transport * queue.packet) : Prop :=
  let '(t', p') := r in
  map view (paths t') = map view (paths t) /\ pkts t' = pkts t /\ pending t' = pending t /\ tqueue t' = tqueue t /\
  small t' = small t /\ tseq t' = u64 (tseq t + 1) /\ pendingOrder t' = pendingOrder t ++ [tseq t'] /\
  queue.seq p' = tseq t' /\ queue.pclass p' = queue.pclass p /\ eview t' = eview t.

Lemma firstSequence_spec p t : sequenced t p (firstSequence p t).
Proof. unfold sequenced, firstSequence, seq_let. cbn [queue.interactive update]. destruct (queue.interactive p); by cbn. Qed.

Lemma firstTransmission_spec now size i ident p t : sequenced t p (firstTransmission now size i ident p t).
Proof.
  unfold firstTransmission. apply (seq_rule (tkeeps t) (sequenced t p)); [apply tkeeps_firstStatistics|]. intros u K.
  apply (seq_rule (fun q => queue.pclass q = queue.pclass p) (sequenced t p)).
  { unfold firstDeadline, seq_let. by destruct (queue.interactive _). }
  intros q Eq. pose proof (firstSequence_spec q u) as F. unfold sequenced in *. destruct (firstSequence q u) as [t' p'].
  rewrite <- Eq. unfold tkeeps, tview in K. assert (Ev : eview u = eview t) by congruence.
  assert (Ec : core u = core t) by congruence. unfold core in Ec. injection Ec as <- <- <- <- <- <- <-. rewrite <- Ev. exact F.
Qed.

Lemma alter_ok {P Q : lane -> Prop} f i l :
  Forall P l -> (forall p, P p -> Q (f p)) -> (forall p, P p -> Q p) -> Forall Q (alter f i l).
Proof.
  intros F Hf Hq. revert i. induction F as [|p l Hp F IH]; intros i; [by destruct i|]. destruct i as [|i].
  - change (Forall Q (f p :: l)). constructor; [by apply Hf|]. eapply Forall_impl; [exact F|exact Hq].
  - change (Forall Q (p :: alter f i l)). constructor; [by apply Hq|apply IH].
Qed.

Lemma wireSize_nonneg p : 0 <= wireSize p.
Proof. unfold wireSize, wireOverhead. lia. Qed.

(** ** Acknowledgements leave every lane its id and its lease *)
Lemma releaseUnless_lview a ps p : lview (releaseUnless a ps p) = lview p.
Proof. unfold releaseUnless, release. destruct (negb _); [|done]. by destruct (pkt_class ps a). Qed.

Section Leases.
Context (iter : Time -> gmap Z attempt -> list Z) (v : PathID * Time).
Definition held (p : lane) : Prop := lview p = v.

Lemma held_keeps p q : keeps p q -> held p -> held q.
Proof. intros K H. unfold held. by rewrite (keeps_lview _ _ K). Qed.

Lemma confirmOne_held a k w : held (wl w) -> held (wl (confirmOne a k w)).
Proof.
  intros H. unfold confirmOne. destruct (attempts (wl w) !! k) as [x|]; [|done]. destruct (_ <? _); [done|].
  apply (seq_rule held (fun w => held (wl w))); [unfold held; by rewrite releaseUnless_lview|]. intros p Hp. unfold seq_let.
  by destruct (apacket x).
Qed.
Lemma onLane_held f s : (forall p, held p -> held (f p)) -> held (wl (sw s)) -> held (wl (sw (onLane f s))).
Proof. intros Hf H. by apply Hf. Qed.
#[local] Hint Resolve keeps_idleForward keeps_baselineArrived keeps_delaySample : keeps.

Lemma ackOne_held a now fresh k s : held (wl (sw s)) -> held (wl (sw (ackOne a now fresh k s))).
Proof.
  intros H. unfold ackOne. destruct (attempts (wl (sw s)) !! k) as [snt|]; [|done].
  set (P := fun s => held (wl (sw s))).
  assert (K : forall f s, (forall p, keeps p (f p)) -> P s -> P (onLane f s)).
  { intros f x Hf Hx. apply onLane_held; [|exact Hx]. intros p. by apply held_keeps. }
  assert (R : forall s, P s -> P (onLane (releaseUnless snt (wp (sw s))) s)).
  { intros x Hx. apply onLane_held; [|exact Hx]. intros p Hp. unfold held. by rewrite releaseUnless_lview. }
  change (P s) in H. destruct (laneBit a k).
  - apply (seq_rule P P). { destruct (negb _); [|done]. unfold seq_let. apply (K _ s); [apply keeps_observeOrder|exact H]. }
    intros s1 H1. apply (seq_rule P P); [by destruct (apacket snt)|].
    intros s2 H2. apply (seq_rule P P); [by apply R|]. intros s3 H3. apply (seq_rule P P); [exact H3|].
    intros s4 H4. apply (seq_rule P P); [by destruct (apacket snt)|]. intros s5 H5. apply (seq_rule P P); [exact H5|].
    intros s6 H6. apply (seq_rule P P); [by destruct (_ && _)|]. intros s7 H7. destruct (_ && _); [|done].
    unfold ackTiming. apply (seq_rule P P); [exact H7|]. intros s8 H8. cbv zeta.
    do 2 (apply (seq_rule P P); [apply K; [auto with keeps|done]|]; intros ? ?). apply K; [auto with keeps|done].
  - destruct (apacket snt) as [d|]; [|done]. destruct (_ && _); [|done].
    apply (seq_rule P P); [by apply R|]. intros s1 H1. apply (seq_rule P P); [|intros s2 H2; exact H2].
    destruct (negb _ && _); [|done]. unfold seq_let. by apply K; [apply keeps_observeOrder|].
Qed.

Lemma settleOne_held a now k s : held (wl (fst s)) -> held (wl (fst (settleOne a now k s))).
Proof.
  intros H. destruct s as [w fb]. cbn [fst] in H. unfold settleOne. destruct (attempts (wl w) !! k) as [snt|]; [|done].
  destruct (apacket snt) as [d|]; [|done]. destruct (_ && _); [|done].
  set (P := fun w => held (wl w)). set (PP := fun s : work * Duration => P (fst s)).
  apply (seq_rule P PP); [exact H|]. intros w1 H1.
  apply (seq_rule P PP); [unfold P, held; cbn; by rewrite releaseUnless_lview|]. intros w2 H2.
  destruct (_ =? 1); [|exact H2]. exact (held_keeps _ _ (keeps_observeOrder now (asent snt) (wl w2)) H2).
Qed.
Lemma settleLane_held a now fb w : held (wl w) -> held (wl (settleLane iter a now fb w)).
Proof.
  intros H. unfold settleLane.
  assert (F : held (wl (fst (fold_left (fun s k => settleOne a now k s) (iter now (attempts (wl w))) (w, fb))))).
  { apply (fold_ok (fun s => held (wl (fst s)))); [|done]. intros s k Hs. by apply settleOne_held. }
  destruct (fold_left _ _ _) as [w' fb']. exact (held_keeps _ _ (keeps_observeFeedbackRTT fb' (wl w')) F).
Qed.
End Leases.

Lemma settleLanes_lview iter a now i fb k ps q l :
  map lview (settleLanes iter a now i fb k ps q l).1 = map lview l.
Proof.
  revert k ps. induction l as [|p l IH]; intros k ps; [done|]. cbn [settleLanes]. unfold seq_let.
  pose proof (settleLane_held iter (lview p) a now (if (k =? i)%nat then fb else 0) (mkWork p ps q) eq_refl) as H.
  revert H. generalize (settleLane iter a now (if (k =? i)%nat then fb else 0) (mkWork p ps q)). intros w H.
  specialize (IH (S k) (wp w)). destruct (settleLanes iter a now i fb (S k) (wp w) q l) as [l' ps']. cbn in IH |- *. by rewrite IH, H.
Qed.

Lemma map_lview_insert i p q l : l !! i = Some p -> lview q = lview p -> map lview (<[i := q]> l) = map lview l.
Proof. intros Hi E. rewrite list_fmap_insert. apply list_insert_id. rewrite list_lookup_fmap, Hi. cbn. by rewrite E. Qed.
Lemma map_lview_alter f i l : (forall p, lview (f p) = lview p) -> map lview (alter f i l) = map lview l.
Proof. intros Hf. revert i. induction l as [|p l IH]; intros [|i]; cbn; [done|done|by rewrite Hf|]. f_equal. apply IH. Qed.

End transport_ok.
