(* ===== verification/BondPollTheory.v ===== *)
(** * Polling keeps the transport's invariant

    Transmission, repair and the sending loops of [Poll]: every frame they emit
    is counted, and the invariant holds for the count. *)

From stdpp Require Import base tactics list numbers gmap sets.
From S2P Require Import Prelude Float64 Frame BondWire BondReceipt.
From S2P Require Import BondQueue BondMeter BondLane BondTransport BondWindow BondTransportTheory.

Module poll_ok.
Import float64 lanes transport window transport_ok.
#[local] Hint Resolve tkeeps_ackControl : tkeeps.
#[local] Hint Resolve keeps_lateBelow : keeps.

(** The end of [transmit], for a datagram in its sequence [k]. *)
Lemma store_ok n ord t i now sz p p' :
  let k := queue.seq p in
  Forall (accounted n (pkts t)) (paths t) -> n + 1 < 2 ^ 64 -> 0 <= sz ->
  queue.seq p' = k -> queue.pclass p' = queue.pclass p ->
  (forall d, pkts t !! k = Some d -> queue.pclass d = queue.pclass p) ->
  1 <= k <= tseq t -> tseq t <= n + 1 -> (forall j d, pkts t !! j = Some d -> queue.seq d = j /\ 1 <= j <= tseq t) ->
  NoDup ord -> k ∈ ord -> (forall j, j ∈ ord -> j = k \/ is_Some (pkts t !! j)) ->
  (forall j d, j ∈ ord -> pkts t !! j = Some d -> queue.acked d = false -> j ∈ pending t) ->
  (forall j, j ∈ pending t -> j ∈ ord) -> Forall waiting (tqueue t) ->
  (length (small t) = 2%nat /\ forall c, small_ok (cget queue.fair0 (small t) c)) ->
  queued t + Z.of_nat (size (({[k]} : gset Z) ∪ pending t)) <= maxPackets ->
  ok (n + 1) ord (upd i (laneTransmit now sz p) t <| pkts := <[k := p']> (pkts t) |> <| pending := {[k]} ∪ pending t |>).
Proof.
  intros k F Hn Hs Ek Ec Hc Hk Ht Hp Hnd Ho Hin Hpe Hl Hb Hsm Hq.
  assert (G : grows (pkts t) (<[k := p']> (pkts t))).
  { intros j d Hj. destruct (decide (k = j)) as [<-|Hne].
    - exists p'. rewrite lookup_insert_eq. split; [done|]. by rewrite Ec, (Hc d).
    - exists d. by rewrite lookup_insert_ne. }
  split; cbn [pkts paths tseq pending pendingOrder tqueue small upd update]; try done.
  - eapply alter_ok; [exact F| |].
    + intros l Hl'. eapply (laneTransmit_ok n _ now sz p l p'); [|done|done|apply lookup_insert_eq|done].
      by apply (accounted_grows n n (pkts t)).
    + intros l Hl'. apply (accounted_grows n (n + 1) (pkts t)); [done|lia|done].
  - lia.
  - intros j d Hj. apply lookup_insert_Some in Hj as [[<- <-]|[_ Hj]]; [by rewrite Ek|by apply Hp].
  - intros j Hj. destruct (Hin j Hj) as [->|Hs']; [rewrite lookup_insert_eq; eauto|].
    destruct (decide (k = j)) as [<-|Hne]; [rewrite lookup_insert_eq; eauto|by rewrite lookup_insert_ne].
  - intros j d Hj Hjd Ha. apply lookup_insert_Some in Hjd as [[<- <-]|[_ Hjd]]; [set_solver|].
    apply elem_of_union_r. by apply (Hpe j d).
  - intros j [Hj%elem_of_singleton|Hj]%elem_of_union; [by subst|by apply Hl].
Qed.

Definition sent_by (now : Time) (n : Z) (ord : list Z) (i : nat) (t : Transport) (p : queue.packet)
    (r : Transport * queue.packet * list Transmission) : Prop :=
  let '(t', p', x) := r in
  ok (n + 1) ord t' /\ pkts t' !! queue.seq p' = Some p' /\ queue.seq p' ∈ pending t' /\
  1 <= queue.seq p' /\ length x = 1%nat /\ tqueue t' = tqueue t /\ small t' = small t /\ queue.pclass p' = queue.pclass p.

(** [transmit] of a datagram the store already holds. *)
Lemma transmit_again now n ord i l t p :
  ok n ord t -> n + 1 < 2 ^ 64 -> paths t !! i = Some l -> pkts t !! queue.seq p = Some p -> queue.seq p ∈ pending t ->
  sent_by now n ord i t p (transmit now p i t) /\ pendingOrder (transmit now p i t).1.1 = pendingOrder t /\
  queue.seq (transmit now p i t).1.2 = queue.seq p.
Proof.
  intros H Hn Hi Hp Hpe. destruct (ok_pkts _ _ _ H _ _ Hp) as [_ Hk]. unfold transmit. rewrite Hi. cbv zeta.
  rewrite (proj2 (Z.eqb_neq _ _)) by lia. unfold seq_let. split; [|done].
  assert (Hsz : ({[queue.seq p]} : gset Z) ∪ pending t = pending t) by set_solver.
  split_and!; cbn; try done.
  - apply store_ok; try done; try apply H.
    + apply wireSize_nonneg.
    + intros d Hd. congruence.
    + destruct (ok_tseq _ _ _ H). lia.
    + exact Hpe.
    + intros j Hj. right. by apply (ok_ord _ _ _ H).
    + rewrite Hsz. apply H.
  - by rewrite lookup_insert_eq.
  - set_solver.
  - lia.
Qed.

(** [transmit] of a datagram that waited in a queue. *)
Lemma transmit_first now n ord i l t p :
  ok n ord t -> n + 1 < 2 ^ 64 -> paths t !! i = Some l -> waiting p ->
  queued t + Z.of_nat (size (pending t)) + 1 <= maxPackets ->
  let r := transmit now p i t in
  sent_by now n (ord ++ [queue.seq r.1.2]) i t p r /\ pendingOrder r.1.1 = pendingOrder t ++ [queue.seq r.1.2].
Proof.
  intros H Hn Hi Hw Hroom. unfold transmit. rewrite Hi. cbv zeta. rewrite (proj2 (Z.eqb_eq _ _)) by exact Hw.
  pose proof (firstTransmission_spec now (wireSize p) i (id l) p t) as S.
  destruct (firstTransmission _ _ _ _ _ _) as [t1 p1]. destruct S as (S1 & S2 & S3 & S4 & S5 & S6 & S7 & S8 & S9 & _).
  destruct H as [A1 A2 A3 A4 A5 A6 A7 A8 A9 A10].
  rewrite u64_small in S6 by lia.
  assert (Hf : pkts t !! (tseq t + 1) = None).
  { destruct (pkts t !! (tseq t + 1)) as [d|] eqn:E; [|done]. destruct (A3 _ _ E). lia. }
  assert (Hno : tseq t + 1 ∉ ord). { intros Hin. destruct (A4 _ Hin) as [d Hd]. congruence. }
  assert (Hq : queued t1 = queued t) by (unfold queued; by rewrite S4, S5).
  assert (Ek : queue.seq p1 = tseq t + 1) by congruence.
  unfold seq_let. cbn. split; [|by rewrite S7, S8]. split_and!; cbn; try done.
  - apply store_ok; rewrite ?S2, ?S3, ?S4, ?S5, ?Ek, ?S6, ?Hq; try done; try lia.
    + eapply Forall_view; [exact S1|exact A1].
    + apply wireSize_nonneg.
    + intros d Hd. congruence.
    + intros j d Hd. destruct (A3 j d Hd). split; [done|lia].
    + apply NoDup_app. split_and!; [done| |by apply NoDup_singleton]. set_solver.
    + set_solver.
    + intros j [Hj|Hj]%elem_of_app; [right; by apply A4|left; set_solver].
    + intros j d [Hj|Hj]%elem_of_app Hd Ha; [by apply (A6 j d)|]. apply list_elem_of_singleton in Hj. congruence.
    + intros j Hj. apply elem_of_app. left. by apply A7.
    + rewrite size_union_alt, size_singleton.
      assert (pending t ∖ {[tseq t + 1]} ⊆ pending t) as Hsub by set_solver. apply subseteq_size in Hsub. lia.
  - by rewrite lookup_insert_eq.
  - set_solver.
  - lia.
Qed.

(** ** The loops of [Poll]

    [n] frames were sent before the poll; the invariant holds for [n] and what
    the poll has emitted so far, as long as that is below 2^64. *)
Definition total_sent (n : Z) (out : list Transmission) : Z := n + Z.of_nat (length out).
Definition sound (n : Z) (s : Transport * list Transmission) : Prop :=
  total_sent n (snd s) < 2 ^ 64 -> inv (total_sent n (snd s)) (fst s).
(** While the pending datagrams are visited: those kept and those to come. *)
Definition sound_at (n : Z) (rest : list Z) (s : Transport * list Z * list Transmission) : Prop :=
  let '(t, retained, out) := s in
  total_sent n out < 2 ^ 64 -> ok (total_sent n out) (retained ++ rest) t.

Lemma total_sent_app n a b : total_sent n (a ++ b) = total_sent n a + Z.of_nat (length b).
Proof. unfold total_sent. rewrite length_app. lia. Qed.

Lemma sound_tkeeps n t out t' x : tkeeps t t' -> sound n (t, out) -> sound n (t', out ++ x).
Proof.
  unfold sound. cbn [fst snd]. intros K H Hn. rewrite total_sent_app in *. eapply inv_tkeeps; [exact K|].
  eapply ok_weaken; [|apply H; lia]. lia.
Qed.
Lemma sound_same n t out t' : tkeeps t t' -> sound n (t, out) -> sound n (t', out).
Proof. intros K H Hn. eapply inv_tkeeps; [exact K|by apply H]. Qed.

Lemma pollReceiver_sound n now key s : sound n s -> sound n (pollReceiver now key s).
Proof.
  intros H. destruct s as [t out]. unfold pollReceiver. destruct (receivers t !! key) as [r|]; [|done].
  destruct (find (rpath r) t ≫= _) as [[i p]|]; [|done]. destruct (negb _); [done|]. cbv zeta.
  destruct (_ || _); [|done]. destruct (ackDue now r) as [r1 []]; [|eapply sound_same; [|exact H]; reflexivity].
  unfold seq_let. eapply sound_tkeeps; [|exact H]. tkeeps_tac.
Qed.

Lemma timeoutOne_ok n now ps p k : accounted n ps p -> accounted n ps (timeoutOne now ps p k).
Proof.
  intros H. unfold timeoutOne. destruct (attempts p !! k) as [a|] eqn:E; [|done].
  assert (D : forall b q, accounted n ps q -> attempts q !! k = Some b ->
    accounted n ps (let* q := releaseUnless b ps q in q <| attempts := delete k (attempts q) |>)).
  { intros b q Hq Eq. unfold seq_let. destruct (releaseUnless_rest b ps q) as (-> & _).
    eapply accounted_settle; [exact Hq|exact Eq|reflexivity|by left]. }
  destruct (negb (released a) && _) eqn:Er.
  - apply andb_true_iff in Er as [Er _]. unfold seq_let at 2. unfold seq_let at 1.
    assert (Eu : release a (pkt_class ps a) p = releaseUnless a ps p) by (unfold releaseUnless; by rewrite Er).
    rewrite Eu. destruct (releaseUnless_rest a ps p) as (Ea & _). rewrite Ea.
    assert (H1 : accounted n ps (releaseUnless a ps p <| attempts := <[k := a <| released := true |>]> (attempts p) |>)).
    { eapply accounted_settle; [exact H|exact E|reflexivity|]. right. by eexists. }
    destruct (_ <=? _); [|exact H1]. apply (D _ _ H1). cbn. by rewrite lookup_insert_eq.
  - destruct (_ <=? _) in |- *; [apply (D a p H E)|exact H].
Qed.

Lemma inv_upd n i f t :
  (forall p, paths t !! i = Some p -> accounted n (pkts t) p -> accounted n (pkts t) (f p)) -> inv n t -> inv n (upd i f t).
Proof.
  intros Hf [A1 A2 A3 A4 A5 A6 A7 A8 A9 A10]. split; cbn; try done.
  apply Forall_lookup. intros j q Hj. destruct (decide (i = j)) as [->|Hne].
  - rewrite list_lookup_alter_eq in Hj. destruct (paths t !! j) as [p|] eqn:E; [|done]. injection Hj as <-.
    apply (Hf p eq_refl). by apply (Forall_lane _ _ _ A1 E).
  - rewrite list_lookup_alter_ne in Hj by done. by apply (Forall_lane _ _ _ A1 Hj).
Qed.

Lemma pollLane_sound iter n now i s : sound n s -> sound n (pollLane iter now i s).
Proof.
  intros H. destruct s as [t out]. unfold pollLane.
  apply (seq_rule (fun u => sound n (u, out)) (sound n)); [eapply sound_same; [|exact H]; tkeeps_tac|]. intros t1 H1.
  apply (seq_rule (fun u => sound n (u, out)) (sound n)).
  { intros Hn. apply inv_upd; [|by apply H1]. intros p _ Hp.
    apply (fold_ok (accounted (total_sent n out) (pkts t1))); [|exact Hp]. intros q k Hq. by apply timeoutOne_ok. }
  intros t2 H2. destruct (paths t2 !! i) as [p|] eqn:Ei; [|done]. destruct (pingDue now p); [|done].
  unfold seq_let, sound. cbn [fst snd]. intros Hn. rewrite total_sent_app in *. cbn [length] in *.
  specialize (H2 ltac:(cbn [snd]; lia)). cbn [fst snd] in H2.
  apply inv_upd; [|eapply ok_weaken; [|exact H2]; lia]. intros q Eq _. assert (q = p) as -> by congruence.
  apply lanePing_ok; [|lia]. exact (Forall_lane _ _ _ (ok_lanes _ _ _ H2) Ei).
Qed.

Lemma chooseLane_Some now c size ex av t i : chooseLane now c size ex av t = Some i -> is_Some (paths t !! i).
Proof.
  unfold chooseLane. cbv zeta. intros (x & E & ->)%fmap_Some. revert E.
  match goal with |- fold_left ?f ?l None = _ -> _ =>
    assert (F : forall b, fold_left f l None = Some b -> is_Some (paths t !! b.1)) end; [|by apply F].
  apply (fold_ok (fun o => forall b, o = Some b -> is_Some (paths t !! b.1))); [|done].
  intros best j Hb b. destruct (paths t !! j) as [p|] eqn:Ej; [|by apply Hb].
  destruct (_ || _); [by apply Hb|]. destruct (laneArrival _ _ _ _ _ _ p); [|by apply Hb].
  destruct best as [[bi ba]|].
  - destruct (_ <? _); [|by apply Hb]. intros [= <-]. cbn. rewrite Ej. eauto.
  - intros [= <-]. cbn. rewrite Ej. eauto.
Qed.

(** A transmission from the store, within the visit of the pending datagrams. *)
Lemma sound_again n now t p i retained rest out :
  sound_at n rest (t, retained, out) -> is_Some (paths t !! i) -> pkts t !! queue.seq p = Some p ->
  (total_sent n out < 2 ^ 64 -> queue.seq p ∈ pending t) ->
  sound_at n rest (let '(t, _, x) := transmit now p i t in (t, retained, out ++ x)).
Proof.
  intros H [l Hi] Hp Hpe. pose proof (transmit_again now (total_sent n out) (retained ++ rest) i l t p) as T.
  destruct (transmit now p i t) as [[t' p'] x] eqn:Et. unfold sound_at in *. intros Hn. rewrite total_sent_app in *.
  destruct (decide (length x = 1%nat)) as [Ex|Ex].
  - rewrite Ex in *. destruct T as ((T & _) & _); [apply H; lia|lia|done|done|apply Hpe; lia|]. exact T.
  - exfalso. revert Et Ex. unfold transmit. rewrite Hi. cbv zeta.
    match goal with |- context [if ?b then ?u else ?v] => destruct (if b then u else v) as [t1 p1] end. unfold seq_let. intros [= <- <- <-] Ex. done.
Qed.

Lemma ok_unlist n k rest retained t :
  ok n (retained ++ k :: rest) t -> ok n (retained ++ rest) (t <| pending := pending t ∖ {[k]} |>).
Proof.
  intros [A1 A2 A3 A4 A5 A6 A7 A8 A9 A10]. split; cbn; try done.
  - intros j Hj. apply A4. set_solver.
  - apply NoDup_app in A5 as (? & Hd & Hn). apply NoDup_cons in Hn as [? ?]. apply NoDup_app. set_solver.
  - intros j d Hj Hjd Ha. apply elem_of_difference. split; [apply (A6 j d); [set_solver|done|done]|].
    apply NoDup_app in A5 as (_ & Hd & Hn). apply NoDup_cons in Hn as [Hn _]. set_solver.
  - intros j [Hj Hne]%elem_of_difference. apply A7 in Hj. set_solver.
  - change (queued _) with (queued t). assert (pending t ∖ {[k]} ⊆ pending t) as Hs by set_solver.
    apply subseteq_size in Hs. lia.
Qed.

Lemma pollPending_sound n now k rest s : sound_at n (k :: rest) s -> sound_at n rest (pollPending now s k).
Proof.
  destruct s as [[t retained] out]. intros H. unfold pollPending.
  destruct (pkts t !! k) as [p|] eqn:Ek.
  2:{ intros Hn. specialize (H Hn). exfalso. destruct (ok_ord _ _ _ H k) as [d Hd]; [set_solver|congruence]. }
  destruct (queue.acked p) eqn:Ea; [intros Hn; by apply ok_unlist, H|].
  destruct (queue.repairDeadline p <? now).
  { intros Hn. eapply ok_tkeeps; [|apply ok_unlist, H, Hn]. reflexivity. }
  assert (H' : sound_at n rest (t, retained ++ [k], out)).
  { intros Hn. rewrite <- app_assoc. by apply H. }
  assert (Hp : pkts t !! queue.seq p = Some p \/ 2 ^ 64 <= total_sent n out).
  { destruct (Z.lt_ge_cases (total_sent n out) (2 ^ 64)) as [Hl|]; [left|by right].
    by rewrite (proj1 (ok_pkts _ _ _ (H Hl) _ _ Ek)). }
  destruct Hp as [Hp|Hbig].
  2:{ unfold sound_at. repeat case_match; intros Hn; simplify_eq; rewrite ?total_sent_app in Hn; exfalso; lia. }
  assert (Hpe : total_sent n out < 2 ^ 64 -> queue.seq p ∈ pending t).
  { intros Hl. apply (ok_pending _ _ _ (H Hl) _ p); [|done|done].
    rewrite (proj1 (ok_pkts _ _ _ (H Hl) _ _ Ek)). set_solver. }
  cbv zeta. match goal with |- sound_at _ _ (match ?e with _ => _ end) => destruct e as [i|] eqn:Ee end.
  { apply sound_again; [done| |done|done]. destruct (_ && _); [|done]. by apply (chooseLane_Some _ _ _ _ _ _ _ Ee). }
  clear Ee. destruct (_ || _); [done|].
  match goal with |- sound_at _ _ (match ?e with _ => _ end) => destruct e as [i|] eqn:Ee end; [|done].
  apply sound_again; [done| |done|done].
  destruct (chooseLane now queue.classBulk (wireSize p) (queue.lastPath p) true t) as [j|] eqn:Ej.
  - injection Ee as ->. by apply (chooseLane_Some _ _ _ _ _ _ _ Ej).
  - match type of Ee with (if ?b then _ else _) = _ => destruct b; [|done] end. by apply (chooseLane_Some _ _ _ _ _ _ _ Ee).
Qed.

Lemma pollPendings_sound n now l s : sound_at n l s -> sound_at n [] (fold_left (pollPending now) l s).
Proof.
  revert s. induction l as [|k l IH]; intros s H; [done|]. cbn [fold_left]. by apply IH, pollPending_sound.
Qed.

(** ** The queues alone

    That the queues are well formed does not depend on the count of frames, so
    following a pointer of theirs never fails. *)
Definition qview (t : Transport) := (tqueue t, small t).
(** With the epochs and what was received. *)
Definition sview (t : Transport) := (qview t, eview t).
Definition queues (t : Transport) : Prop :=
  Forall waiting (tqueue t) /\ length (small t) = 2%nat /\ forall c, small_ok (cget queue.fair0 (small t) c).

Lemma queues_view t t' : qview t' = qview t -> queues t -> queues t'.
Proof. unfold qview, queues. by intros [= -> ->]. Qed.
Lemma sview_q t t' : sview t' = sview t -> qview t' = qview t.
Proof. unfold sview. congruence. Qed.
Lemma tkeeps_sview t t' : tkeeps t t' -> sview t' = sview t.
Proof. unfold tkeeps, tview, core, sview, qview. congruence. Qed.
Lemma tkeeps_qview t t' : tkeeps t t' -> qview t' = qview t.
Proof. unfold tkeeps, tview, core, qview. congruence. Qed.
Lemma checkTime_qview now t : qview (fst (checkTime now t)) = qview t.
Proof. unfold checkTime. by destruct (_ <? _). Qed.
Lemma ok_queues n ord t : ok n ord t -> queues t.
Proof. intros H. split; apply H. Qed.

Lemma sview_upd i f t : (forall p, lview (f p) = lview p) -> sview (upd i f t) = sview t.
Proof. intros Hf. unfold sview, eview, cview, upd. cbn. by rewrite map_lview_alter. Qed.
Lemma sview_put i p q t : paths t !! i = Some p -> lview q = lview p -> sview (upd i (fun _ => q) t) = sview t.
Proof.
  intros Hi E. unfold sview, eview, cview, upd. cbn. do 3 f_equal. apply list_eq. intros j. rewrite !list_lookup_fmap.
  destruct (decide (i = j)) as [->|Hne]; [|by rewrite list_lookup_alter_ne].
  rewrite list_lookup_alter_eq, Hi. cbn. by rewrite E.
Qed.
Lemma transmit_sview now p i t : sview (transmit now p i t).1.1 = sview t.
Proof.
  unfold transmit. destruct (paths t !! i) as [l|]; [|done]. cbv zeta.
  assert (T : forall t1 p1, sview t1 = sview t -> sview (upd i (laneTransmit now (wireSize p) p1) t1) = sview t).
  { intros t1 p1 E. by rewrite sview_upd by apply laneTransmit_lview. }
  destruct (queue.seq p =? 0); [|by apply (T t p)].
  pose proof (firstTransmission_spec now (wireSize p) i (id l) p t) as S.
  destruct (firstTransmission _ _ _ _ _ _) as [t1 p1]. destruct S as (_ & _ & _ & S4 & S5 & _ & _ & _ & _ & S10).
  apply (T t1 p1). unfold sview, qview. congruence.
Qed.

Lemma pollReceiver_sview now key s : sview (pollReceiver now key s).1 = sview s.1.
Proof.
  destruct s as [t out]. unfold pollReceiver. destruct (receivers t !! key) as [r|]; [|done].
  destruct (find (rpath r) t ≫= _) as [[i p]|]; [|done]. destruct (negb _); [done|]. cbv zeta.
  destruct (_ || _); [|done]. destruct (ackDue now r) as [r1 []]; [|reflexivity]. unfold seq_let. cbn [fst].
  match goal with |- sview ?x = _ => change (sview x) with (sview (upd i (pace now ackWireBytes)
    (upd i (fun p => p <| feedbackSent := meter.add now (fofZ ackWireBytes) (feedbackSent p) |>) t))) end.
  rewrite !sview_upd; [done|done|]. intros q. apply keeps_lview, keeps_pace.
Qed.
Lemma pollPending_sview now k s : sview (pollPending now s k).1.1 = sview s.1.1.
Proof.
  destruct s as [[t retained] out]. unfold pollPending. destruct (pkts t !! k) as [p|]; [|done].
  destruct (queue.acked p); [done|]. destruct (_ <? _); [done|]. cbv zeta.
  assert (T : forall i, sview (let '(t, _, x) := transmit now p i t in (t, retained ++ [k], out ++ x)).1.1 = sview t).
  { intros i. pose proof (transmit_sview now p i t) as E. by destruct (transmit now p i t) as [[? ?] ?]. }
  match goal with |- sview (match ?e with _ => _ end).1.1 = _ => destruct e as [i|] end; [apply T|].
  destruct (_ || _); [done|].
  match goal with |- sview (match ?e with _ => _ end).1.1 = _ => destruct e as [i|] end; [apply T|done].
Qed.
Lemma timeoutOne_lview now ps p k : lview (timeoutOne now ps p k) = lview p.
Proof.
  unfold timeoutOne. destruct (attempts p !! k) as [a|]; [|done].
  set (P := fun x : lane * attempt => lview x.1 = lview p).
  match goal with |- lview (let '(_, _) := ?e in _) = _ => assert (E : P e); [|destruct e as [q b]; unfold P in E; cbn [fst] in E] end.
  - destruct (_ && _); [|done]. unfold seq_let, P, release. by destruct (pkt_class ps a).
  - destruct (_ <=? _); [|done]. unfold seq_let. rewrite <- E. exact (releaseUnless_lview b ps q).
Qed.
Lemma pollLane_sview iter now i s : sview (pollLane iter now i s).1 = sview s.1.
Proof.
  destruct s as [t out]. unfold pollLane, seq_let. cbn [fst].
  assert (E : forall g, sview (upd i (fun p => fold_left (timeoutOne now g) (iter now (attempts p)) p) (upd i (pollBaseline now) t)) = sview t).
  { intros g. rewrite !sview_upd; [done| |].
    - intros p. apply keeps_lview, keeps_pollBaseline.
    - intros p. apply (fold_ok (fun q => lview q = lview p)); [|done]. intros q k <-. apply timeoutOne_lview. }
  set (u := upd i _ _). specialize (E (pkts (upd i (pollBaseline now) t))). fold u in E. rewrite <- E. clearbody u.
  destruct (paths u !! i) as [p|] eqn:Ei; [|done]. destruct (pingDue now p); [|done]. cbn [fst].
  apply (sview_put i p); [done|apply lanePing_lview].
Qed.
Lemma fold_view {A S B} (v : S -> B) (f : S -> A -> S) l s :
  (forall s x, v (f s x) = v s) -> v (fold_left f l s) = v s.
Proof. intros Hf. revert s. induction l as [|x l IH]; intros s; [done|]. cbn. by rewrite IH. Qed.

(** ** Sending *)
Lemma ok_popped n ord t c q :
  ok n ord t -> c <> queue.classBulk -> small_ok q -> queue.qcount q = queue.qcount (cget queue.fair0 (small t) c) - 1 ->
  let t' := t <| small := cset (small t) c q |> in
  ok n ord t' /\ queued t' + Z.of_nat (size (pending t')) + 1 <= maxPackets.
Proof.
  intros [A1 A2 A3 A4 A5 A6 A7 A8 A9 A10] Hc Hq Eq. cbv zeta.
  pose proof (queued_cset t c q Hc (proj1 A9)) as E. set (t' := t <| small := cset (small t) c q |>) in *.
  split; [|change (pending t') with (pending t); lia].
  split; try done; [by apply small_ok_cset|]. change (pending t') with (pending t). lia.
Qed.

Lemma queues_popped t c q :
  queues t -> c <> queue.classBulk -> small_ok q -> queues (t <| small := cset (small t) c q |>).
Proof. intros (H1 & H2 & H3) Hc Hq. split; [done|]. by apply small_ok_cset. Qed.

Lemma transmit_length now p i t : is_Some (paths t !! i) -> length (transmit now p i t).2 = 1%nat.
Proof.
  intros [l Hi]. unfold transmit. rewrite Hi. cbv zeta.
  match goal with |- context [if ?b then ?u else ?v] => destruct (if b then u else v) as [t1 p1] end. done.
Qed.

(** The first transmission of a datagram just taken from a queue. *)
Lemma sound_first n now t out p i :
  is_Some (paths t !! i) -> waiting p ->
  (total_sent n out < 2 ^ 64 -> inv (total_sent n out) t /\ queued t + Z.of_nat (size (pending t)) + 1 <= maxPackets) ->
  let r := transmit now p i t in
  sound n (r.1.1, out ++ r.2) /\
  (total_sent n (out ++ r.2) < 2 ^ 64 -> pkts r.1.1 !! queue.seq r.1.2 = Some r.1.2 /\ queue.seq r.1.2 ∈ pending r.1.1).
Proof.
  intros Hi Hw H. cbv zeta. pose proof (transmit_length now p i t Hi) as El. destruct Hi as [l Hi].
  pose proof (fun Ho => transmit_first now (total_sent n out) (pendingOrder t) i l t p Ho) as T.
  assert (Hb : total_sent n (out ++ (transmit now p i t).2) < 2 ^ 64 -> total_sent n out + 1 < 2 ^ 64)
    by (rewrite total_sent_app, El; lia).
  destruct (transmit now p i t) as [[t' p'] x]. cbv zeta in T. unfold sent_by in T. cbn [fst snd] in *. split.
  - intros Hn. cbn [fst snd] in *. specialize (Hb Hn). destruct H as [Ho Hr]; [lia|].
    destruct (T Ho Hb Hi Hw Hr) as [(S & _) E]. rewrite total_sent_app, El. unfold inv. rewrite E. exact S.
  - intros Hn. specialize (Hb Hn). destruct H as [Ho Hr]; [lia|].
    destruct (T Ho Hb Hi Hw Hr) as [(_ & S1 & S2 & _) _]. done.
Qed.

Lemma sendCopy_sound n now c size i p t out :
  sound n (t, out) -> (total_sent n out < 2 ^ 64 -> pkts t !! queue.seq p = Some p /\ queue.seq p ∈ pending t) ->
  let r := sendCopy now c size i p t in sound n (r.1, out ++ r.2) /\ qview r.1 = qview t.
Proof.
  intros H Hp. cbv zeta. unfold sendCopy.
  assert (Hnil : sound n (t, out ++ [])) by (by rewrite app_nil_r).
  destruct (paths t !! i) as [path|]; [|done]. cbv zeta. destruct (_ && _); [|done].
  destruct (chooseLane _ _ _ _ _ t) as [j|] eqn:Ej; [|done]. apply chooseLane_Some in Ej.
  set (P := fun r : Transport * list Transmission => sound n (r.1, out ++ r.2) /\ qview r.1 = qview t).
  apply (seq_rule (fun u => sound n (u, out) /\ tkeeps t u) P).
  { assert (K : forall b : bool, tkeeps t (if b then t <| redundancyTokens := fsub (redundancyTokens t) (fofZ size) |> else t))
      by (intros []; reflexivity). split; [|apply K]. eapply sound_same; [apply K|exact H]. }
  intros u [Hu K]. unfold P.
  assert (Hj : is_Some (paths u !! j)).
  { assert (E : map view (paths u) = map view (paths t)) by (unfold tkeeps, tview, core in K; congruence).
    apply (f_equal (.!! j)) in E. rewrite !list_lookup_fmap in E. destruct Ej as [l El]. rewrite El in E.
    destruct (paths u !! j); [eauto|done]. }
  assert (Hp' : total_sent n out < 2 ^ 64 -> pkts u !! queue.seq p = Some p /\ queue.seq p ∈ pending u).
  { unfold tkeeps, tview, core in K. assert (pkts u = pkts t) as -> by congruence. assert (pending u = pending t) as -> by congruence.
    exact Hp. }
  pose proof (transmit_length now p j u Hj) as El. pose proof (sview_q _ _ (transmit_sview now p j u)) as Eq. destruct Hj as [l Hl].
  pose proof (fun Ho => transmit_again now (total_sent n out) (pendingOrder u) j l u p Ho) as T.
  destruct (transmit now p j u) as [[t' p'] x]. unfold sent_by in T. cbn [fst snd] in *. split; [|rewrite Eq; by apply tkeeps_qview].
  intros Hn. cbn [fst snd] in *. rewrite total_sent_app, El in *. specialize (Hu ltac:(cbn [snd]; lia)).
  destruct (Hp' ltac:(lia)) as [Hp1 Hp2]. destruct (T Hu ltac:(lia) Hl Hp1 Hp2) as ((S & _) & E & _).
  unfold inv. rewrite E. exact S.
Qed.

Lemma popSmall_ok c t p :
  queues t -> c <> queue.classBulk -> queue.peek (cget queue.fair0 (small t) c) = Some p ->
  exists q, popSmall c t = Some (t <| small := cset (small t) c q |>) /\ small_ok q /\ waiting p /\
    queue.qcount q = queue.qcount (cget queue.fair0 (small t) c) - 1 /\ 1 <= queue.qcount (cget queue.fair0 (small t) c).
Proof.
  intros (H1 & H2 & H3) Hc Hp. destruct (peek_ok _ _ (H3 c) Hp) as (Hw & Hge & q & Eq & Hq & Ec).
  exists q. unfold popSmall. rewrite Eq. cbn. done.
Qed.

Lemma tkeeps_stale_if (late : bool) c now p t :
  tkeeps t (if late then (t, true) else if bool_decide (c = queue.classRealtime) then stale now p t else (t, false)).1.
Proof. tkeeps_tac. Qed.
Lemma tkeeps_dropSmall c late t : tkeeps t (dropSmall c late t).
Proof. unfold dropSmall. tkeeps_tac. Qed.

Lemma inv_popped n t c q :
  inv n t -> c <> queue.classBulk -> small_ok q -> queue.qcount q = queue.qcount (cget queue.fair0 (small t) c) - 1 ->
  let t' := t <| small := cset (small t) c q |> in
  inv n t' /\ queued t' + Z.of_nat (size (pending t')) + 1 <= maxPackets.
Proof. exact (ok_popped n (pendingOrder t) t c q). Qed.

Lemma sendSmall_sound k n now c t out :
  c <> queue.classBulk -> queues t -> sound n (t, out) -> queue.qcount (cget queue.fair0 (small t) c) <= Z.of_nat k ->
  exists s, sendSmall k now c t out = Some s /\ sound n s /\ queues s.1.
Proof.
  intros Hc. revert t out. induction k as [|k IH]; intros t out Hq Hs Hk; cbn [sendSmall];
    (destruct (queue.peek (cget queue.fair0 (small t) c)) as [p|] eqn:Ep; [|by eexists]);
    destruct (popSmall_ok c t p Hq Hc Ep) as (q & Epop & Hqq & Hw & Ecnt & Hge); [lia|].
  set (late := queue.queueDeadline p <? now). pose proof (tkeeps_stale_if late c now p t) as K.
  match goal with |- context [let '(_, _) := ?e in _] => set (sd := e) in * end.
  destruct sd as [t1 drop]. cbn [fst] in K. clearbody late.
  assert (Em : small t1 = small t) by (unfold tkeeps, tview, core in K; congruence).
  apply (sound_same n t out t1 K) in Hs. apply (queues_view t t1 (tkeeps_qview _ _ K)) in Hq. clear K.
  rewrite <- Em in Hk, Ep. clear q Epop Hqq Ecnt Hge Em t. rename t1 into t.
  destruct (popSmall_ok c t p Hq Hc Ep) as (q' & Epop' & Hqq' & _ & Ecnt' & _). rewrite Epop'.
  set (t' := t <| small := cset (small t) c q' |>).
  assert (Hq' : queues t') by (by apply queues_popped).
  assert (Hs' : total_sent n out < 2 ^ 64 ->
    inv (total_sent n out) t' /\ queued t' + Z.of_nat (size (pending t')) + 1 <= maxPackets).
  { intros Hn. apply inv_popped; [by apply Hs|done|done|done]. }
  assert (Hk' : queue.qcount (cget queue.fair0 (small t') c) <= Z.of_nat k).
  { change (small t') with (cset (small t) c q'). rewrite cget_small, bool_decide_true; [lia|done|apply Hq|done]. }
  assert (Ht' : paths t' = paths t) by done. clearbody t'. destruct drop.
  - apply IH.
    + eapply queues_view; [apply tkeeps_qview, tkeeps_dropSmall|exact Hq'].
    + eapply sound_same; [apply tkeeps_dropSmall|]. intros Hn. by apply Hs'.
    + pose proof (tkeeps_qview _ _ (tkeeps_dropSmall c late t')) as E. unfold qview in E.
      assert (small (dropSmall c late t') = small t') as -> by congruence. exact Hk'.
  - destruct (chooseLane now c (wireSize p) 0 false t) as [i|] eqn:Ei; [|by eexists]. apply chooseLane_Some in Ei.
    rewrite <- Ht' in Ei. destruct (sound_first n now t' out p i Ei Hw Hs') as [S1 S2].
    pose proof (sview_q _ _ (transmit_sview now p i t')) as E1. destruct (transmit now p i t') as [[t1 p1] x]. cbn [fst snd] in *.
    destruct (sendCopy_sound n now c (wireSize p) i p1 t1 (out ++ x) S1 S2) as [S3 E2].
    destruct (sendCopy now c (wireSize p) i p1 t1) as [t2 y]. cbn [fst snd] in *. rewrite app_assoc.
    apply IH; [eapply queues_view; [|exact Hq']; congruence|exact S3|].
    unfold qview in *. assert (small t2 = small t') as -> by congruence. exact Hk'.
Qed.

Lemma sendClass_sound n now c t out :
  c <> queue.classBulk -> queues t -> sound n (t, out) ->
  exists s, sendClass now c t out = Some s /\ sound n s /\ queues s.1.
Proof.
  intros Hc Hq Hs. unfold sendClass.
  match goal with |- context [seq_let ?v _] => assert (K : tkeeps t v) end.
  { destruct c; try reflexivity. destruct (queue.peek _); reflexivity. }
  match goal with |- context [seq_let ?v ?k] =>
    change (exists s, k v = Some s /\ sound n s /\ queues s.1); set (u := v) in * end. clearbody u. cbv beta.
  apply sendSmall_sound; [done|by apply (queues_view t u (tkeeps_qview _ _ K))|by apply (sound_same n t out u K)|].
  pose proof (queues_view t u (tkeeps_qview _ _ K) Hq) as (_ & _ & Hall).
  pose proof (qcount_nonneg _ (Hall c)). lia.
Qed.

Lemma ok_bulk_popped n ord t p rest :
  ok n ord t -> tqueue t = p :: rest ->
  let t' := t <| tqueue := rest |> in
  ok n ord t' /\ queued t' + Z.of_nat (size (pending t')) + 1 <= maxPackets.
Proof.
  intros [A1 A2 A3 A4 A5 A6 A7 A8 A9 A10] Ep. rewrite Ep in A8. apply Forall_cons_1 in A8 as [_ A8].
  unfold queued in *. rewrite Ep in A10. cbn [length] in A10.
  split; [|cbn; lia]. split; try done. unfold queued. cbn [tqueue small pending update]. lia.
Qed.

Lemma sendBulk_sound k n now t out :
  queues t -> sound n (t, out) -> sound n (sendBulk k now t out) /\ queues (sendBulk k now t out).1.
Proof.
  revert t out. induction k as [|k IH]; intros t out Hq Hs; cbn [sendBulk]; [done|].
  destruct (tqueue t) as [|p rest] eqn:Ep; [done|].
  assert (Hw : waiting p /\ queues (t <| tqueue := rest |>)).
  { destruct Hq as (H1 & H2 & H3). rewrite Ep in H1. apply Forall_cons_1 in H1 as [? ?]. done. }
  destruct Hw as [Hw Hq'].
  assert (Hs' : total_sent n out < 2 ^ 64 -> inv (total_sent n out) (t <| tqueue := rest |>) /\
    queued (t <| tqueue := rest |>) + Z.of_nat (size (pending (t <| tqueue := rest |>))) + 1 <= maxPackets).
  { intros Hn. exact (ok_bulk_popped _ _ t p rest (Hs Hn) Ep). }
  destruct (_ <? _).
  { apply IH; [exact Hq'|]. intros Hn. eapply inv_tkeeps; [|exact (proj1 (Hs' Hn))]. reflexivity. }
  destruct (chooseLane _ _ _ _ _ t) as [i|] eqn:Ei; [|done]. apply chooseLane_Some in Ei.
  set (t' := t <| tqueue := rest |>) in *. assert (Hi : paths t' = paths t) by done. rewrite <- Hi in Ei. clear Hi.
  match goal with |- context [seq_let ?v ?k] => change (seq_let v k) with (k v) end. cbv beta. clearbody t'.
  match goal with |- context [let '(_, _) := ?e in _] => assert (K : tkeeps t' e.1); [|destruct e as [t1 dropped]] end.
  { destruct (negb _); [|reflexivity]. destruct (queue.codelDrop _ _ _ _ _); reflexivity. }
  cbn [fst] in K. apply (queues_view t' t1 (tkeeps_qview _ _ K)) in Hq'.
  assert (Hi : is_Some (paths t1 !! i)).
  { assert (E : map view (paths t1) = map view (paths t')) by (unfold tkeeps, tview, core in K; congruence).
    apply (f_equal (.!! i)) in E. rewrite !list_lookup_fmap in E. destruct Ei as [l El]. rewrite El in E.
    destruct (paths t1 !! i); [eauto|done]. }
  assert (Hs1 : total_sent n out < 2 ^ 64 ->
    inv (total_sent n out) t1 /\ queued t1 + Z.of_nat (size (pending t1)) + 1 <= maxPackets).
  { intros Hn. destruct (Hs' Hn) as [I R]. split; [by eapply inv_tkeeps|]. unfold tkeeps, tview, core in K.
    assert (pending t1 = pending t') as -> by congruence.
    assert (queued t1 = queued t') as ->; [|done]. unfold queued.
    assert (tqueue t1 = tqueue t') as -> by congruence. by assert (small t1 = small t') as -> by congruence. }
  destruct dropped.
  { apply IH; [exact Hq'|]. intros Hn. eapply inv_tkeeps; [|exact (proj1 (Hs1 Hn))]. reflexivity. }
  destruct (sound_first n now t1 out p i Hi Hw Hs1) as [S1 _]. pose proof (sview_q _ _ (transmit_sview now p i t1)) as E1.
  destruct (transmit now p i t1) as [[t2 p2] x]. cbn [fst snd] in *.
  apply IH; [by apply (queues_view t1)|exact S1].
Qed.

Lemma send_sound n now t out :
  queues t -> sound n (t, out) -> exists s, send now t out = Some s /\ sound n s /\ queues s.1.
Proof.
  intros Hq Hs. unfold send.
  destruct (sendClass_sound n now queue.classRealtime t out) as ([t1 o1] & -> & S1 & Q1); [done..|]. cbn.
  destruct (sendClass_sound n now queue.classSmall t1 o1) as ([t2 o2] & -> & S2 & Q2); [done..|]. cbn.
  eexists. split; [reflexivity|]. by apply sendBulk_sound.
Qed.

(** [Poll]: it never fails on its queues, and the invariant holds for the
    frames it returns. *)
Definition emitted_by {E} (o : outcome E (list Transmission)) : Z :=
  match o with Ok out => Z.of_nat (length out) | _ => 0 end.

Lemma poll_prefix_sound iter n now t :
  queues t -> (n < 2 ^ 64 -> inv n t) ->
  let s1 := fold_left (fun s key => pollReceiver now key s) (receiverOrder t) (t, []) in
  let s2 := fold_left (fun s i => pollLane iter now i s) (List.seq 0%nat (length (paths s1.1))) s1 in
  sound n s2 /\ sview s2.1 = sview t.
Proof.
  intros Hq H. cbv zeta. split.
  - apply fold_ok; [intros s i Hs; by apply pollLane_sound|]. apply fold_ok; [intros s i Hs; by apply pollReceiver_sound|].
    unfold sound, total_sent. cbn. by rewrite Z.add_0_r.
  - rewrite (fold_view (fun s => sview s.1)) by (intros; apply pollLane_sview).
    by rewrite (fold_view (fun s => sview s.1)) by (intros; apply pollReceiver_sview).
Qed.

Lemma Poll_inv iter n now t :
  queues t -> (n < 2 ^ 64 -> inv n t) ->
  (Poll iter now t).2 <> Panic /\ queues (Poll iter now t).1 /\
  (n + emitted_by (Poll iter now t).2 < 2 ^ 64 -> inv (n + emitted_by (Poll iter now t).2) (Poll iter now t).1).
Proof.
  intros Hq H. unfold Poll. pose proof (fun Hn => inv_checkTime n now t (H Hn)) as H1.
  apply (queues_view _ _ (checkTime_qview now t)) in Hq.
  destruct (checkTime now t) as [t1 []]; cbn [fst] in H1, Hq; [|cbn; by rewrite Z.add_0_r].
  clear H t. rename t1 into t, H1 into H.
  set (P := fun r : Transport * outcome terror (list Transmission) =>
    r.2 <> Panic /\ queues r.1 /\ (n + emitted_by r.2 < 2 ^ 64 -> inv (n + emitted_by r.2) r.1)).
  set (Q := fun u => queues u /\ (n < 2 ^ 64 -> inv n u)).
  assert (QK : forall u u', tkeeps u u' -> Q u -> Q u').
  { intros u u' K [A B]. split; [by apply (queues_view u u' (tkeeps_qview _ _ K))|intros Hn; apply (inv_tkeeps n u u' K), B, Hn]. }
  apply (seq_rule Q P); [apply (QK t); [tkeeps_tac|done]|]. clear t Hq H. intros t HQ.
  apply (seq_rule Q P); [by apply (QK t)|]. clear t HQ. intros t [Hq H].
  destruct (poll_prefix_sound iter n now t Hq H) as [S1 E1].
  destruct (fold_left (fun s key => pollReceiver now key s) (receiverOrder t) (t, [])) as [t1 o1]. cbn [fst] in S1, E1.
  destruct (fold_left (fun s i => pollLane iter now i s) _ (t1, o1)) as [t2 o2]. cbn [fst] in E1.
  apply (queues_view t t2 (sview_q _ _ E1)) in Hq. clear H E1.
  apply (seq_rule (fun u => queues u /\ sound n (u, o2)) P).
  { pose proof (tkeeps_reserve now t2) as K. split; [by apply (queues_view t2 _ (tkeeps_qview _ _ K))|by apply (sound_same n t2)]. }
  clear t t1 t2 Hq S1. intros t [Hq Hs].
  pose proof (pollPendings_sound n now (pendingOrder t) (t, [], o2) Hs) as S2.
  pose proof (fold_view (fun s => sview s.1.1) (pollPending now) (pendingOrder t) (t, [], o2)
                (fun s k => pollPending_sview now k s)) as E2. cbn [fst] in E2.
  destruct (fold_left (pollPending now) (pendingOrder t) (t, [], o2)) as [[t3 retained] o3]. cbn [fst] in E2.
  unfold sound_at in S2. rewrite app_nil_r in S2.
  apply (seq_rule (fun u => queues u /\ sound n (u, o3)) P).
  { split; [apply (queues_view t); [exact (sview_q _ _ E2)|exact Hq]|]. intros Hn. specialize (S2 Hn). by destruct S2. }
  clear t Hq Hs E2 S2. intros t4 [Hq Hs].
  destruct (send_sound n now t4 o3 Hq Hs) as ([t5 o5] & -> & S5 & Q5). unfold P. cbn [fst snd emitted_by]. split_and!; [done|done|].
  intros Hn. by apply (S5 Hn).
Qed.

(** ** The other operations and the queues *)
Lemma Enqueue_queues payload m now t :
  queues t -> queues (fst (Enqueue payload m now t)) /\ snd (Enqueue payload m now t) <> Panic.
Proof.
  intros H. unfold Enqueue. apply (queues_view _ _ (checkTime_qview now t)) in H.
  destruct (checkTime now t) as [t1 []]; cbn [fst] in H; [|done]. clear t. rename t1 into t. cbv zeta.
  destruct (_ || _); [done|]. set (c := classify _ _). destruct (_ <=? _).
  { unfold seq_let. destruct (negb _); done. }
  unfold seq_let. destruct H as (A1 & A2 & A3). case_bool_decide as Ec; cbn [negb].
  - split; [|done]. split; [|done]. cbn. apply Forall_app. split; [done|]. by repeat constructor.
  - match goal with |- context [queue.push ?x _] => set (p := x) end.
    destruct (push_ok p (cget queue.fair0 (small t) c)) as (q & b & -> & Hq & _); [done|apply A3|].
    assert (I : queues (t <| small := cset (small t) c q |>)) by (by apply queues_popped).
    split; [|by destruct b]. by destruct b.
Qed.

Lemma ack_sview iter i a now fresh t : sview (ack iter i a now fresh t) = sview t.
Proof.
  unfold ack. destruct (paths t !! i) as [p|] eqn:Ei; [|done]. cbv zeta.
  set (P := fun u => sview u = sview t). set (H := held (lview p)). set (W := fun w => H (wl w)). set (S := fun s => W (sw s)).
  apply (seq_rule H P); [by apply (held_keeps _ p); [apply keeps_ackProgress|]|]. intros p1 H1.
  apply (seq_rule W P); [exact H1|]. intros w1 W1.
  apply (seq_rule S P); [by apply (fold_ok S); [intros s k; apply ackOne_held|]|]. intros s1 S1.
  apply (seq_rule W P); [exact S1|]. intros w2 W2. apply (seq_rule W P).
  { destruct fresh; [|done]. apply (seq_rule W W); [by destruct (counted s1)|]. intros w3 W3.
    destruct (_ && _); [|done]. unfold confirmArrived. destruct (negb _); [done|].
    by apply (fold_ok W); [intros w k; apply confirmOne_held|]. }
  clear w2 W2. intros w2 W2.
  pose proof (settleLanes_lview iter a now i (physicalFeedback s1) 0 (wp w2) (wq w2) (<[i := wl w2]> (paths t))) as E.
  rewrite (map_lview_insert i p) in E by done.
  destruct (settleLanes _ _ _ _ _ _ _ _ _) as [ls ps]. cbn [fst] in E.
  match goal with |- P (seq_let ?v _) => assert (E1 : P v) by (unfold P, sview, eview, cview; cbn; by rewrite E); revert E1; generalize v end.
  intros t1 E1. unfold P. rewrite <- E1. apply tkeeps_sview. tkeeps_tac.
Qed.

Lemma receive_qview iter path f now t : qview (fst (receive iter path f now t)) = qview t.
Proof.
  unfold receive. pose proof (checkTime_qview now t) as K.
  destruct (checkTime now t) as [t1 []]; cbn [fst] in K; rewrite <- K; [|done].
  cbv zeta. destruct (bond.parseHeader _) as [h|c|]; [|done|done]. destruct (_ || _); [done|].
  destruct (find path t1 ≫= _) as [[i p]|]; [|done]. destruct (negb _); [done|].
  destruct (_ =? bond.DataType).
  - destruct (negb _); [done|]. destruct (_ || _)%nat; [done|]. destruct (negb _); [done|].
    destruct (_ && _); [done|]. destruct (_ && _); [done|]. pose proof (core_receiveData path i (bond.lane h) (frame.Seq f) (drop (bond.headerBytes + 32) (frame.ControlPayload f)) (field (bond.headerBytes + 16) (frame.ControlPayload f)) (field (bond.headerBytes + 24) (frame.ControlPayload f)) now t1) as E.
    unfold core in E. unfold qview. congruence.
  - destruct (_ =? bond.ACKType); [|done]. unfold receiveACK. destruct (negb _); [done|].
    destruct (bond.parseACK _) as [a|c|]; [|done|done]. destruct (negb _); [done|]. cbv zeta. destruct (_ || _); [done|].
    destruct (receipt.mark _ _) as [aw new]. unfold seq_let. destruct (negb new); [done|]. cbn [fst].
    rewrite (sview_q _ _ (ack_sview _ _ _ _ _ _)). by destruct (_ <? _).
Qed.
Lemma Receive_qview iter path f now t : qview (fst (Receive iter path f now t)) = qview t.
Proof.
  rewrite <- (receive_qview iter path f now t). unfold Receive. by destruct (receive _ _ _ _ _) as [t' [ds|[c|]|]].
Qed.
Lemma PathUp_qview ident rid rt now t : qview (fst (PathUp ident rid rt now t)) = qview t.
Proof.
  unfold PathUp, checkTime. destruct (_ <? _); [done|]. destruct (find _ _); [done|]. by unfold seq_let.
Qed.
Lemma SetRemote_qview ep adopted t : qview (fst (SetRemote ep adopted t)) = qview t.
Proof.
  unfold SetRemote. destruct (bool_decide _); [done|]. destruct (_ || _); [done|]. destruct (_ && _); [done|].
  unfold seq_let, forgetPeer. reflexivity.
Qed.

(** ** What was received changes only by receiving *)
Lemma sendCopy_eview now c size i p t : eview (sendCopy now c size i p t).1 = eview t.
Proof.
  unfold sendCopy. destruct (paths t !! i) as [path|]; [|done]. cbv zeta. destruct (_ && _); [|done].
  destruct (chooseLane _ _ _ _ _ t) as [j|]; [|done].
  set (P := fun r : Transport * list Transmission => eview r.1 = eview t).
  apply (seq_rule (fun u => eview u = eview t) P); [by destruct (negb _)|]. intros u Hu. unfold P.
  pose proof (transmit_sview now p j u) as E. destruct (transmit now p j u) as [[t' p'] x]. unfold sview in E. cbn in *. congruence.
Qed.

Lemma popSmall_eview c t t' : popSmall c t = Some t' -> eview t' = eview t.
Proof. unfold popSmall. destruct (queue.pop _); [|done]. by intros [= <-]. Qed.

Lemma sendSmall_eview k now c t out s : sendSmall k now c t out = Some s -> eview s.1 = eview t.
Proof.
  revert t out. induction k as [|k IH]; intros t out; cbn [sendSmall];
    (destruct (queue.peek (cget queue.fair0 (small t) c)) as [p|]; [|by intros [= <-]]); [done|].
  set (late := queue.queueDeadline p <? now). pose proof (tkeeps_stale_if late c now p t) as K.
  match goal with |- context [let '(_, _) := ?e in _] => set (sd := e) in * end.
  destruct sd as [t1 drop]. cbn [fst] in K. clearbody late.
  assert (Em : eview t1 = eview t) by (unfold tkeeps, tview in K; congruence). rewrite <- Em. clear K.
  destruct drop.
  - destruct (popSmall c t1) as [t2|] eqn:E2; [|done]. apply popSmall_eview in E2. rewrite <- E2. intros H.
    rewrite (IH _ _ H). pose proof (tkeeps_dropSmall c late t2) as K. unfold tkeeps, tview in K. congruence.
  - destruct (chooseLane _ _ _ _ _ t1) as [i|]; [|by intros [= <-]].
    destruct (popSmall c t1) as [t2|] eqn:E2; [|done]. apply popSmall_eview in E2. rewrite <- E2.
    pose proof (transmit_sview now p i t2) as E3. destruct (transmit now p i t2) as [[t3 p3] x].
    pose proof (sendCopy_eview now c (wireSize p) i p3 t3) as E4. destruct (sendCopy now c (wireSize p) i p3 t3) as [t4 y].
    unfold sview in E3. cbn [fst] in *. intros H. rewrite (IH _ _ H). congruence.
Qed.

Lemma sendClass_eview now c t out s : sendClass now c t out = Some s -> eview s.1 = eview t.
Proof.
  unfold sendClass. match goal with |- context [seq_let ?v ?k] => change (seq_let v k) with (k v); set (u := v) end.
  assert (E : eview u = eview t) by (destruct c; try reflexivity; unfold u; destruct (queue.peek _); reflexivity).
  clearbody u. cbv beta. rewrite <- E. apply sendSmall_eview.
Qed.

Lemma sendBulk_eview k now t out : eview (sendBulk k now t out).1 = eview t.
Proof.
  revert t out. induction k as [|k IH]; intros t out; cbn [sendBulk]; [done|].
  destruct (tqueue t) as [|p rest]; [done|]. destruct (_ <? _); [by rewrite IH|].
  destruct (chooseLane _ _ _ _ _ t) as [i|]; [|done].
  set (P := fun r : Transport * list Transmission => eview r.1 = eview t).
  apply (seq_rule (fun u => eview u = eview t) P); [done|]. intros u Hu. unfold P. rewrite <- Hu.
  match goal with |- context [let '(_, _) := ?e in _] => assert (K : eview e.1 = eview u); [|destruct e as [t1 dropped]] end.
  { destruct (negb _); [|reflexivity]. destruct (queue.codelDrop _ _ _ _ _); reflexivity. }
  cbn [fst] in K. rewrite <- K. destruct dropped; [by rewrite IH|].
  pose proof (transmit_sview now p i t1) as E. destruct (transmit now p i t1) as [[t2 p2] x]. unfold sview in E. cbn [fst] in E.
  rewrite IH. congruence.
Qed.

Lemma Poll_eview iter now t : eview (Poll iter now t).1 = eview (fst (checkTime now t)).
Proof.
  unfold Poll. destruct (checkTime now t) as [t0 []]; [|done]. cbn [fst]. clear t. rename t0 into t.
  set (P := fun r : Transport * outcome terror (list Transmission) => eview (fst r) = eview t).
  set (Q := fun u => eview u = eview t).
  apply (seq_rule Q P); [by destruct (negb _)|]. intros t1 Q1. apply (seq_rule Q P); [done|]. clear t1 Q1. intros t1 Q1.
  pose proof (fold_view (fun s => sview s.1) (fun s key => pollReceiver now key s) (receiverOrder t1) (t1, [])
                (fun s k => pollReceiver_sview now k s)) as E1.
  destruct (fold_left _ (receiverOrder t1) _) as [t2 o2].
  pose proof (fold_view (fun s => sview s.1) (fun s i => pollLane iter now i s) (List.seq 0%nat (length (paths t2))) (t2, o2)
                (fun s k => pollLane_sview iter now k s)) as E2.
  destruct (fold_left _ (List.seq 0%nat (length (paths t2))) _) as [t3 o3]. unfold sview in E1, E2. cbn [fst] in E1, E2.
  apply (seq_rule Q P).
  { pose proof (tkeeps_reserve now t3) as K. unfold tkeeps, tview in K. unfold Q in *. congruence. }
  intros t4 Q4.
  pose proof (fold_view (fun s => sview s.1.1) (pollPending now) (pendingOrder t4) (t4, [], o3)
                (fun s k => pollPending_sview now k s)) as E3.
  destruct (fold_left _ (pendingOrder t4) _) as [[t5 ret] o5]. unfold sview in E3. cbn [fst] in E3.
  apply (seq_rule Q P); [unfold Q in *; change (eview t5 = eview t); congruence|]. intros t6 Q6.
  destruct (send now t6 o5) as [[t7 o7]|] eqn:Es; [|exact Q6]. unfold send in Es.
  apply bind_Some in Es as ([u1 v1] & H1 & Es). apply bind_Some in Es as ([u2 v2] & H2 & Es). injection Es as E7.
  apply sendClass_eview in H1, H2. pose proof (sendBulk_eview (length (tqueue u2)) now u2 v2) as E8. rewrite E7 in E8.
  unfold P, Q in *. cbn [fst] in *. congruence.
Qed.

Lemma Enqueue_eview payload m now t : eview (fst (Enqueue payload m now t)) = eview (fst (checkTime now t)).
Proof.
  unfold Enqueue. destruct (checkTime now t) as [t1 []]; [|done]. cbv zeta. cbn [fst]. destruct (_ || _); [done|]. destruct (_ <=? _).
  { unfold seq_let. by destruct (negb _). }
  unfold seq_let. destruct (negb _); [|done]. destruct (queue.push _ _) as [[q []]|]; done.
Qed.
Lemma checkTime_received now t : treceived (fst (checkTime now t)) = treceived t.
Proof. unfold checkTime. by destruct (_ <? _). Qed.
Lemma PathUp_received ident rid rt now t : treceived (fst (PathUp ident rid rt now t)) = treceived t.
Proof.
  unfold PathUp. rewrite <- (checkTime_received now t). destruct (checkTime now t) as [t1 []]; [|done].
  destruct (find _ _); [done|]. by unfold seq_let.
Qed.
Lemma Disable_received ident t : treceived (Disable ident t) = treceived t.
Proof. unfold Disable. by destruct (find ident t). Qed.
Lemma Disable_qview ident t : qview (Disable ident t) = qview t.
Proof. unfold Disable. by destruct (find ident t). Qed.

End poll_ok.
