(* ===== verification/BondTransportProps.v ===== *)
(** * What the bonding transport guarantees

    Over every sequence of the owner's calls, with any order of map iteration:
    window accounting, bounded memory, exactly-once delivery, and how a lost
    datagram stops occupying its window. *)

From stdpp Require Import base tactics list numbers gmap sets.
From S2P Require Import Prelude Float64 Frame BondWire BondWireProps BondReceipt BondReceiptProps.
From S2P Require Import BondQueue BondMeter BondLane BondTransport BondWindow BondTransportTheory BondPollTheory.

Module transport_props.
Import float64 lanes transport window transport_ok poll_ok.
#[local] Existing Instances bond.Epoch_eq_dec bond.RejectionCause_eq_dec.

(** ** Runs of the owner *)
Inductive op :=
  | OEnqueue (payload : list Z) (m : PacketMetadata) (now : Time)
  | OReceive (path : PathID) (f : frame.Control) (now : Time)
  | OPoll (now : Time)
  | OPath (ident remoteIdent : PathID) (roundTrip : Duration) (now : Time)
  | ODisable (ident : PathID)
  | OSetRemote (ep : bond.Epoch) (adopted : bool).

Inductive event :=
  | EDone
  | EError (e : terror)
  | EPanic
  | ESent (out : list Transmission)
  | EDelivered (ds : list Delivery)
  | ESwitched (b : bool).

Definition event_of {A} (f : A -> event) (o : outcome terror A) : event :=
  match o with Ok a => f a | Err e => EError e | Panic => EPanic end.

Section Runs.
Context (iter : Time -> gmap Z attempt -> list Z).

Definition exec (o : op) (t : Transport) : Transport * event :=
  match o with
  | OEnqueue payload m now => let '(t, r) := Enqueue payload m now t in (t, event_of (fun _ => EDone) r)
  | OReceive path f now => let '(t, r) := Receive iter path f now t in (t, event_of EDelivered r)
  | OPoll now => let '(t, r) := Poll iter now t in (t, event_of ESent r)
  | OPath ident rid rt now => let '(t, r) := PathUp ident rid rt now t in (t, event_of (fun _ => EDone) r)
  | ODisable ident => (Disable ident t, EDone)
  | OSetRemote ep adopted => let '(t, b) := SetRemote ep adopted t in (t, ESwitched b)
  end.

Fixpoint run (ops : list op) (t : Transport) : Transport * list event :=
  match ops with
  | [] => (t, [])
  | o :: ops => let '(t, e) := exec o t in let '(t, es) := run ops t in (t, e :: es)
  end.

Definition frames_of (e : event) : Z := match e with ESent out => Z.of_nat (length out) | _ => 0 end.
Definition frames (es : list event) : Z := fold_right (fun e n => frames_of e + n) 0 es.

(** ** The invariant along a run *)
Definition state_ok (n : Z) (t : Transport) : Prop := queues t /\ (n < 2 ^ 64 -> inv n t).

Lemma parseHeader_nopanic b : bond.parseHeader b <> Panic.
Proof.
  unfold bond.parseHeader. destruct (Nat.ltb_spec (length b) bond.headerBytes) as [|Hl]; [done|].
  unfold bond.headerBytes in Hl. destruct (_ || _); [done|]. rewrite !bond_wire_props.get_ok by lia.
  cbn [mbind outcome_bind]. by destruct (_ || _).
Qed.
Lemma parseACK_nopanic b : bond.parseACK b <> Panic.
Proof.
  unfold bond.parseACK. destruct (Nat.eqb_spec (length b) (bond.headerBytes + bond.ackBytes)) as [Hl|]; [|done]. cbn [negb].
  assert (length (drop bond.headerBytes b) = 96%nat) as Hd by (rewrite length_drop, Hl; done).
  cbv zeta. rewrite !bond_wire_props.get_ok by lia. cbn [mbind outcome_bind]. by destruct (_ || _).
Qed.

Lemma receive_error path f now t e : (receive iter path f now t).2 = e -> e <> Panic /\ e <> Err InvalidLength.
Proof.
  intros <-. unfold receive. destruct (checkTime now t) as [t1 []]; [|done]. cbv zeta.
  pose proof (parseHeader_nopanic (frame.ControlPayload f)) as Hp. destruct (bond.parseHeader _) as [h|c|]; [|done|done].
  destruct (_ || _); [done|]. destruct (find path t1 ≫= _) as [[i p]|]; [|done]. destruct (negb _); [done|].
  destruct (_ =? bond.DataType).
  - destruct (negb _); [done|]. destruct (_ || _)%nat; [done|]. destruct (negb _); [done|].
    destruct (_ && _); [done|]. destruct (_ && _); [done|]. unfold receiveData.
    destruct (match receivers t1 !! bond.lane h with Some r => _ | None => _ end) as [t2 r].
    destruct (negb _); [done|]. cbv zeta. destruct (receipt.mark _ _) as [rw new]. unfold seq_let.
    destruct (negb new); [done|]. destruct (_ =? 0); [done|]. destruct (receipt.mark _ _) as [tw new']. by destruct (negb new').
  - destruct (_ =? bond.ACKType); [|done]. unfold receiveACK. destruct (negb _); [done|].
    pose proof (parseACK_nopanic (frame.ControlPayload f)) as Ha. destruct (bond.parseACK _) as [a|c|]; [|done|done].
    destruct (negb _); [done|]. cbv zeta. destruct (_ || _); [done|]. destruct (receipt.mark _ _) as [aw new]. unfold seq_let.
    by destruct (negb new).
Qed.
Lemma Receive_nopanic path f now t : (Receive iter path f now t).2 <> Panic.
Proof.
  unfold Receive. pose proof (receive_error path f now t _ eq_refl) as [H1 H2].
  by destruct (receive iter path f now t) as [t' [ds|[c|]|]].
Qed.

Lemma exec_ok n o t :
  state_ok n t -> state_ok (n + frames_of (exec o t).2) (exec o t).1 /\ (exec o t).2 <> EPanic.
Proof.
  intros [Hq Hi]. unfold state_ok. destruct o as [payload m now|path f now|now|ident rid rt now|ident|ep adopted]; cbn [exec].
  - destruct (Enqueue_queues payload m now t Hq) as [Q N].
    assert (I : n < 2 ^ 64 -> inv n (Enqueue payload m now t).1) by (intros Hn; by apply Enqueue_inv, Hi).
    destruct (Enqueue payload m now t) as [t' [?|?|]]; cbn [fst snd event_of frames_of] in *; rewrite ?Z.add_0_r; done.
  - pose proof (queues_view _ _ (Receive_qview iter path f now t) Hq) as Q.
    assert (I : n < 2 ^ 64 -> inv n (Receive iter path f now t).1) by (intros Hn; by apply Receive_inv, Hi).
    pose proof (Receive_nopanic path f now t) as N.
    destruct (Receive iter path f now t) as [t' [?|?|]]; cbn [fst snd event_of frames_of] in *; rewrite ?Z.add_0_r; done.
  - destruct (Poll_inv iter n now t Hq Hi) as (N & Q & I).
    destruct (Poll iter now t) as [t' [?|?|]]; cbn [fst snd event_of frames_of emitted_by] in *; rewrite ?Z.add_0_r in *; done.
  - pose proof (queues_view _ _ (PathUp_qview ident rid rt now t) Hq) as Q.
    assert (I : n < 2 ^ 64 -> inv n (PathUp ident rid rt now t).1) by (intros Hn; by apply PathUp_inv, Hi).
    assert (N : (PathUp ident rid rt now t).2 <> Panic)
      by (unfold PathUp; destruct (checkTime now t) as [? []]; [by destruct (find _ _)|done]).
    destruct (PathUp ident rid rt now t) as [t' [?|?|]]; cbn [fst snd event_of frames_of] in *; rewrite ?Z.add_0_r; done.
  - cbn [fst snd frames_of]. rewrite Z.add_0_r. split; [|done].
    split; [by apply (queues_view t _ (Disable_qview ident t))|intros Hn; by apply Disable_inv, Hi].
  - pose proof (queues_view _ _ (SetRemote_qview ep adopted t) Hq) as Q.
    assert (I : n < 2 ^ 64 -> inv n (SetRemote ep adopted t).1) by (intros Hn; by apply SetRemote_inv, Hi).
    destruct (SetRemote ep adopted t) as [t' b]. cbn [fst snd frames_of] in *. by rewrite Z.add_0_r.
Qed.

Lemma run_ok n ops t :
  state_ok n t -> state_ok (n + frames (run ops t).2) (run ops t).1 /\ EPanic ∉ (run ops t).2.
Proof.
  revert n t. induction ops as [|o ops IH]; intros n t H; cbn [run].
  - cbn. rewrite Z.add_0_r. split; [done|]. apply not_elem_of_nil.
  - destruct (exec_ok n o t H) as [H1 N1]. destruct (exec o t) as [t1 e]. cbn [fst snd] in *.
    destruct (IH _ _ H1) as [H2 N2]. destruct (run ops t1) as [t2 es]. cbn [fst snd frames fold_right] in *.
    rewrite Z.add_assoc. split; [done|]. by apply not_elem_of_cons.
Qed.

Lemma New_ok ep t : New ep = Ok t -> state_ok 0 t.
Proof.
  unfold New. destruct (_ || _); [done|]. intros [= <-].
  assert (Q : forall c, small_ok (cget queue.fair0 (replicate 2 queue.fair0) c)) by (intros []; apply small_ok_fair0).
  split; [by repeat split|]. intros _. split; cbn; try done.
  - intros k H. by apply elem_of_nil in H.
  - constructor.
Qed.

(** ** Delivery *)
Definition dataSeq (f : frame.Control) : Z := field (bond.headerBytes + 16) (frame.ControlPayload f).

(** The sequences that were handed up, each with the number of the peer session
    it was received in. *)
Fixpoint delivered (s : nat) (ops : list op) (es : list event) : list (nat * Z) :=
  match ops, es with
  | OReceive _ f _ :: ops, EDelivered ds :: es => map (fun _ => (s, dataSeq f)) ds ++ delivered s ops es
  | OSetRemote _ _ :: ops, ESwitched true :: es => delivered (S s) ops es
  | _ :: ops, _ :: es => delivered s ops es
  | _, _ => []
  end.

(** The frames a run is given are bytes. *)
Definition op_bytes (o : op) : Prop :=
  match o with OReceive _ f _ => bytes_ok (frame.ControlPayload f) | _ => True end.

Lemma field_u64 o b : bytes_ok b -> is_u64 (field o b).
Proof.
  intros Hb. unfold field. pose proof (be_get_range (take 8 (drop o b))) as H.
  specialize (H ltac:(by apply Forall_take, Forall_drop)).
  assert (256 ^ Z.of_nat (length (take 8 (drop o b))) <= 256 ^ 8) by (apply Z.pow_le_mono_r; [lia|rewrite length_take; lia]).
  unfold is_u64. lia.
Qed.

(** What a data frame does to the record of received sequences: nothing, or
    marking its sequence, which is then handed up at most once. *)
Lemma receiveData_received path i ln fseq body dseq order now t :
  let r := receiveData path i ln fseq body dseq order now t in
  (treceived r.1 = treceived t /\ forall ds, r.2 = Ok ds -> ds = []) \/
  (treceived r.1 = fst (receipt.mark dseq (treceived t)) /\
   exists ds, r.2 = Ok ds /\ length ds = if snd (receipt.mark dseq (treceived t)) then 1%nat else 0%nat).
Proof.
  cbv zeta. unfold receiveData.
  destruct (match receivers t !! ln with Some r => _ | None => _ end) as [t1 r] eqn:E.
  assert (C : treceived t1 = treceived t) by (destruct (receivers t !! ln); by injection E as <- <-). clear E.
  set (P := fun x : Transport * outcome terror (list Delivery) =>
    (treceived x.1 = treceived t /\ forall ds, x.2 = Ok ds -> ds = []) \/
    (treceived x.1 = fst (receipt.mark dseq (treceived t)) /\
     exists ds, x.2 = Ok ds /\ length ds = if snd (receipt.mark dseq (treceived t)) then 1%nat else 0%nat)).
  set (Q := fun u : Transport => treceived u = treceived t).
  destruct (negb _); [by left|]. cbv zeta. destruct (receipt.mark fseq _) as [rw new].
  apply (seq_rule (fun _ => True) P); [done|]. intros r1 _. destruct (negb new); [left; split; [exact C|by intros ds [= <-]]|].
  do 5 (apply (seq_rule (fun _ => True) P); [done|]; intros ? _).
  apply (seq_rule Q P); [exact C|]. clear t1 C. intros t1 C.
  destruct (dseq =? 0); [left; split; [exact C|by intros ds [= <-]]|].
  apply (seq_rule Q P); [by destruct (_ =? 0)|]. clear t1 C. intros t1 C. rewrite C.
  destruct (receipt.mark dseq (treceived t)) as [tw new'] eqn:Em. cbn [fst snd] in P.
  apply (seq_rule (fun u => treceived u = tw) P); [done|]. clear t1 C. intros t1 C.
  destruct new'; cbn [negb]; right; (split; [exact C|]); by eexists.
Qed.

Lemma receiveACK_eview path i p ln f now t : eview (receiveACK iter path i p ln f now t).1 = eview t /\
  forall ds, (receiveACK iter path i p ln f now t).2 = Ok ds -> ds = [].
Proof.
  unfold receiveACK. destruct (negb _); [done|]. destruct (bond.parseACK _) as [a|c|]; [|done|done].
  destruct (negb _); [done|]. cbv zeta. destruct (_ || _); [done|]. destruct (receipt.mark _ _) as [aw new]. unfold seq_let.
  set (u1 := upd i _ t). assert (K : tkeeps t u1) by (by apply tkeeps_upd). clearbody u1.
  destruct (negb new); [unfold tkeeps, tview in K; split; [cbn; congruence|done]|]. cbn [fst snd]. split; [|by intros ds [= <-]].
  set (u := (if _ <? _ then _ else _)).
  assert (E : tkeeps t u) by (etransitivity; [exact K|]; unfold u; destruct (_ <? _); [by apply tkeeps_upd|done]).
  pose proof (ack_sview iter i a now (ackRevision p <? frame.Seq f) u) as E'. unfold sview in E'. unfold tkeeps, tview in E. congruence.
Qed.

(** How an operation moves the record of received sequences on. *)
Definition advances (h : receipt_props.history) (x : Z) (h' : receipt_props.history) (ds : list Delivery) : Prop :=
  receipt_props.seen h ⊆ receipt_props.seen h' /\
  (ds = [] \/ (length ds = 1%nat /\ (x ∉ receipt_props.seen h) /\ (x ∈ receipt_props.seen h'))).

Lemma receive_received path f now t h :
  bytes_ok (frame.ControlPayload f) -> receipt_props.refines (treceived t) h ->
  let r := receive iter path f now t in
  exists h', receipt_props.refines (treceived r.1) h' /\ advances h (dataSeq f) h' (match r.2 with Ok ds => ds | _ => [] end).
Proof.
  intros Hb Hr. cbv zeta. unfold receive.
  assert (Hsame : forall t' (o : outcome terror (list Delivery)), treceived t' = treceived t -> (forall ds, o = Ok ds -> ds = []) ->
    exists h', receipt_props.refines (treceived (t', o).1) h' /\
      advances h (dataSeq f) h' (match (t', o).2 with Ok ds => ds | _ => [] end)).
  { intros t' o E Ho. exists h. cbn [fst snd]. rewrite E. split; [done|]. split; [done|]. left.
    destruct o as [ds|e|]; [by apply Ho|done|done]. }
  assert (Ht : treceived (fst (checkTime now t)) = treceived t) by (unfold checkTime; by destruct (_ <? _)).
  destruct (checkTime now t) as [t1 []]; cbn [fst] in Ht; [|by apply Hsame]. cbv zeta.
  destruct (bond.parseHeader _) as [hd|c|]; [|by apply Hsame|by apply Hsame].
  destruct (_ || _); [by apply Hsame|]. destruct (find path t1 ≫= _) as [[i p]|]; [|by apply Hsame].
  destruct (negb _); [by apply Hsame|]. destruct (_ =? bond.DataType).
  - destruct (negb _); [by apply Hsame|]. destruct (_ || _)%nat; [by apply Hsame|]. destruct (negb _); [by apply Hsame|].
    destruct (_ && _); [by apply Hsame|]. destruct (_ && _); [by apply Hsame|]. fold (dataSeq f).
    set (r := receiveData _ _ _ _ _ _ _ _ _).
    destruct (receiveData_received path i (bond.lane hd) (frame.Seq f) (drop (bond.headerBytes + 32) (frame.ControlPayload f))
                (dataSeq f) (field (bond.headerBytes + 24) (frame.ControlPayload f)) now t1) as [[E1 E2]|(E1 & ds & E2 & E3)];
      fold r in E1, E2.
    + destruct r as [t' o]. cbn [fst snd] in *. apply Hsame; [congruence|exact E2].
    + rewrite Ht in *. assert (Hu : is_u64 (dataSeq f)) by (by apply field_u64).
      destruct (receipt_props.mark_refines (dataSeq f) (treceived t) h Hu Hr) as [R1 R2].
      exists (fst (receipt_props.spec_mark (dataSeq f) h)). rewrite E1, E2. split; [done|].
      rewrite R2 in E3. clear - E3. unfold advances, receipt_props.spec_mark in *. destruct (_ && _) eqn:Eb; cbn [fst snd receipt_props.seen] in *.
      * apply andb_true_iff in Eb as [_ Eb]. apply bool_decide_eq_true in Eb. split; [set_solver|]. right. set_solver.
      * split; [done|]. left. by destruct ds.
  - destruct (_ =? bond.ACKType); [|by apply Hsame].
    destruct (receiveACK_eview path i p (bond.lane hd) f now t1) as [E1 E2].
    destruct (receiveACK iter path i p (bond.lane hd) f now t1) as [t' o]. cbn [fst snd] in *. apply Hsame; [|done].
    unfold eview in E1. congruence.
Qed.

Lemma Receive_received path f now t h :
  bytes_ok (frame.ControlPayload f) -> receipt_props.refines (treceived t) h ->
  let r := Receive iter path f now t in
  exists h', receipt_props.refines (treceived r.1) h' /\ advances h (dataSeq f) h' (match r.2 with Ok ds => ds | _ => [] end).
Proof.
  intros Hb Hr. destruct (receive_received path f now t h Hb Hr) as (h' & R & A). exists h'. unfold Receive.
  by destruct (receive iter path f now t) as [t' [ds|[c|]|]].
Qed.

Lemma SetRemote_received ep adopted t :
  treceived (SetRemote ep adopted t).1 = (if (SetRemote ep adopted t).2 then receipt.window0 else treceived t).
Proof.
  unfold SetRemote. destruct (bool_decide _); [done|]. destruct (_ || _); [done|]. destruct (_ && _); [done|].
  unfold seq_let. reflexivity.
Qed.

(** Sessions that start with [h] received never repeat a sequence. *)
Lemma run_delivers_once s ops t h :
  Forall op_bytes ops -> receipt_props.refines (treceived t) h ->
  let es := (run ops t).2 in
  NoDup (delivered s ops es) /\
  forall s' x, (s', x) ∈ delivered s ops es -> (s <= s')%nat /\ (s' = s -> x ∉ receipt_props.seen h).
Proof.
  intros F. revert s t h. induction F as [|o ops Ho F IH]; intros s t h Hr; cbn [run].
  { cbn. split; [constructor|]. intros s' x Hx. by apply elem_of_nil in Hx. }
  assert (Hskip : forall t', (exists h', receipt_props.refines (treceived t') h' /\ receipt_props.seen h ⊆ receipt_props.seen h') ->
    NoDup (delivered s ops (run ops t').2) /\
    forall s' x, (s', x) ∈ delivered s ops (run ops t').2 -> (s <= s')%nat /\ (s' = s -> x ∉ receipt_props.seen h)).
  { intros t' (h' & R' & Hsub). destruct (IH s t' h' R') as [N B]. split; [done|]. intros s' x Hx.
    destruct (B s' x Hx) as [? B']. split; [done|]. intros E. specialize (B' E). set_solver. }
  assert (Hkeep : forall t', treceived t' = treceived t ->
    exists h', receipt_props.refines (treceived t') h' /\ receipt_props.seen h ⊆ receipt_props.seen h').
  { intros t' ->. by exists h. }
  assert (Hck : forall now t', eview t' = eview (fst (checkTime now t)) -> treceived t' = treceived t).
  { intros now t' E. rewrite <- (checkTime_received now t). unfold eview in E. congruence. }
  destruct o as [payload m now|path f now|now|ident rid rt now|ident|ep adopted]; cbn [exec].
  - pose proof (Hskip _ (Hkeep _ (Hck _ _ (Enqueue_eview payload m now t)))) as H.
    destruct (Enqueue payload m now t) as [t' r]. cbn [fst] in *. by destruct (run ops t') as [t2 es].
  - destruct (Receive_received path f now t h Ho Hr) as (h' & R' & Hsub & Hd).
    pose proof (Hskip (Receive iter path f now t).1) as H. specialize (H ltac:(eauto)).
    destruct (IH s _ h' R') as [N B].
    destruct (Receive iter path f now t) as [t' [ds|e|]]; cbn [fst snd event_of] in *;
      destruct (run ops t') as [t2 es]; cbn [snd delivered] in *; [|exact H|exact H].
    destruct Hd as [->|(Hl & Hn & Hin)]; [exact H|]. destruct ds as [|d [|]]; [done| |done]. cbn [map app].
    destruct H as [_ H]. split.
    + apply NoDup_cons. split; [|done]. intros Hx. by apply (proj2 (B _ _ Hx)).
    + intros s' x [E|Hx]%elem_of_cons; [injection E as -> ->; split; [lia|done]|by apply H].
  - pose proof (Hskip _ (Hkeep _ (Hck _ _ (Poll_eview iter now t)))) as H.
    destruct (Poll iter now t) as [t' r]. cbn [fst] in *. by destruct (run ops t') as [t2 es].
  - pose proof (Hskip _ (Hkeep _ (PathUp_received ident rid rt now t))) as H.
    destruct (PathUp ident rid rt now t) as [t' r]. cbn [fst] in *. by destruct (run ops t') as [t2 es].
  - pose proof (Hskip _ (Hkeep _ (Disable_received ident t))) as H. by destruct (run ops (Disable ident t)) as [t2 es].
  - pose proof (SetRemote_received ep adopted t) as E. pose proof (Hskip (SetRemote ep adopted t).1) as H.
    destruct (SetRemote ep adopted t) as [t' []]; cbn [fst snd] in *.
    + destruct (IH (S s) t' receipt_props.history0) as [N B]; [rewrite E; apply receipt_props.window0_refines|].
      destruct (run ops t') as [t2 es]. cbn [snd delivered] in *. split; [done|]. intros s' x Hx. destruct (B s' x Hx). lia.
    + specialize (H ltac:(exists h; by rewrite E)). by destruct (run ops t') as [t2 es].
Qed.

(** ** A datagram's way from one transport to the other *)
Definition counter_of (p : queue.packet) (t : Transport) : Z :=
  if queue.interactive p then interactiveSeq t + 1 else bulkSeq t + 1.
Definition order_of (p : queue.packet) (t : Transport) : Z :=
  if queue.interactive p then Z.lor (u64 (interactiveSeq t + 1)) bond.interactiveBit else u64 (bulkSeq t + 1).

Lemma firstStatistics_counters now size i ident p t :
  let u := firstStatistics now size i ident p t in
  interactiveSeq u = interactiveSeq t /\ bulkSeq u = bulkSeq t /\ eview u = eview t /\ tseq u = tseq t /\
  map view (paths u) = map view (paths t).
Proof.
  cbv zeta. pose proof (tkeeps_firstStatistics now size i ident p t) as K. unfold tkeeps, tview, core in K.
  assert (C : interactiveSeq (firstStatistics now size i ident p t) = interactiveSeq t /\
              bulkSeq (firstStatistics now size i ident p t) = bulkSeq t); [|split_and!; try congruence; apply C].
  clear K. set (Q := fun u => interactiveSeq u = interactiveSeq t /\ bulkSeq u = bulkSeq t).
  change (Q (firstStatistics now size i ident p t)). unfold firstStatistics.
  apply (seq_rule Q Q); [by destruct (negb _)|]. intros u1 H1. apply (seq_rule Q Q).
  { destruct (bool_decide _); [|exact H1]. apply (seq_rule Q Q); [exact H1|]. intros u2 H2.
    apply (seq_rule Q Q); [by destruct (_ && _)|]. intros u3 H3. exact H3. }
  intros u4 H4. apply (seq_rule Q Q); [by destruct (bool_decide _)|]. intros u5 H5. by destruct (negb _).
Qed.

(** The frame of a first transmission. *)
Lemma transmit_frame now p i l t :
  paths t !! i = Some l -> waiting p ->
  (transmit now p i t).2 =
    [mkTransmission (id l) (bond.dataFrame (epoch t) (remote t) (id l) (u64 (seq l + 1)) (u64 (tseq t + 1))
       (order_of p t) (queue.payload p))].
Proof.
  intros Hi Hw. unfold transmit. rewrite Hi. cbv zeta. rewrite (proj2 (Z.eqb_eq _ _)) by exact Hw.
  unfold firstTransmission.
  match goal with |- context [seq_let ?v _] => set (u := v) end.
  pose proof (firstStatistics_counters now (wireSize p) i (id l) p t) as C. fold u in C. clearbody u.
  destruct C as (C1 & C2 & C3 & C4 & C5).
  assert (D : forall q, q = firstDeadline now p -> queue.payload q = queue.payload p /\ queue.interactive q = queue.interactive p).
  { intros q ->. unfold firstDeadline, seq_let. cbn. by destruct (queue.interactive p). }
  unfold seq_let at 1. unfold seq_let at 1. set (q := firstDeadline now p). destruct (D q eq_refl) as [D1 D2]. clearbody q. clear D.
  assert (F : firstSequence q u = (u <| tseq := u64 (tseq t + 1) |>
      <| interactiveSeq := if queue.interactive p then u64 (interactiveSeq t + 1) else interactiveSeq t |>
      <| bulkSeq := if queue.interactive p then bulkSeq t else u64 (bulkSeq t + 1) |>
      <| pendingOrder := pendingOrder u ++ [u64 (tseq t + 1)] |>,
    q <| queue.seq := u64 (tseq t + 1) |> <| queue.order := order_of p t |>)).
  { unfold firstSequence, seq_let, order_of. cbn. rewrite D2, C4, C1, C2. destruct (queue.interactive p); cbn; by rewrite ?C1, ?C2. }
  rewrite F. clear F. unfold seq_let. cbn [snd].
  assert (Hl : exists l1, paths u !! i = Some l1 /\ view l1 = view l).
  { apply (f_equal (.!! i)) in C5. rewrite !list_lookup_fmap, Hi in C5. destruct (paths u !! i) as [l1|]; [|done].
    exists l1. split; [done|]. cbn in C5. congruence. }
  destruct Hl as (l1 & Hl1 & Hv).
  do 2 f_equal. cbn [epoch remote pkts paths update upd queue.seq queue.order queue.payload].
  rewrite list_lookup_alter_eq, Hl1. cbn [fmap option_fmap option_map].
  assert (Es : forall d, seq (laneTransmit now (wireSize p) d l1) = u64 (seq l + 1)).
  { intros d. unfold laneTransmit.
    set (P := fun q => seq q = u64 (seq l + 1)). assert (PK : forall a b, keeps a b -> P a -> P b)
      by (unfold keeps, view, P; congruence).
    apply (seq_rule P P).
    { pose proof (view_beginAttempt now l1) as E. unfold P, view in *. congruence. }
    intros l2 H2. apply (seq_rule P P); [eapply PK; [apply keeps_firstSent|exact H2]|]. intros l3 H3.
    apply (seq_rule P P); [exact H3|]. intros l4 H4. eapply PK; [|exact H4]. keeps_tac. }
  unfold eview, cview in C3. injection C3 as _ C31 C32 _ _. by rewrite Es, C31, C32, D1.
Qed.

Lemma get_field o b v : bond.get 8 o b = Ok v -> field o b = v.
Proof.
  intros H. destruct (decide (o + 8 <= length b)%nat) as [Hl|Hl].
  - rewrite bond_wire_props.get_ok in H by done. by injection H.
  - unfold bond.get in H. rewrite (proj2 (Nat.ltb_lt _ _)) in H by lia. done.
Qed.

Lemma order_bits p t :
  0 <= counter_of p t < 2 ^ 63 ->
  is_u64 (order_of p t) /\ Z.land (order_of p t) (Z.lxor bond.interactiveBit (2 ^ 64 - 1)) = counter_of p t /\
  (Z.land (order_of p t) bond.interactiveBit =? 0) = negb (queue.interactive p).
Proof.
  unfold counter_of, order_of. change (Z.lxor bond.interactiveBit (2 ^ 64 - 1)) with (Z.ones 63).
  change bond.interactiveBit with (2 ^ 63). intros H.
  assert (L : forall x, 0 <= x < 2 ^ 63 -> Z.land x (2 ^ 63) = 0).
  { intros x Hx. apply Z.bits_inj_0. intros n. rewrite Z.land_spec, Z.pow2_bits_eqb by lia.
    destruct (Z.eqb_spec 63 n) as [<-|]; [|by rewrite andb_false_r]. rewrite Z.bits_above_log2; [done|lia|].
    destruct (Z.eq_dec x 0) as [->|]; [done|]. apply Z.log2_lt_pow2; lia. }
  destruct (queue.interactive p); rewrite u64_small by lia.
  - set (x := interactiveSeq t + 1) in *. assert (E : Z.lor x (2 ^ 63) = x + 2 ^ 63).
    { rewrite <- Z.lxor_lor by (by apply L). rewrite <- Z.add_nocarry_lxor by (by apply L). done. }
    split_and!.
    + unfold is_u64. lia.
    + rewrite Z.land_ones, E by lia. rewrite <- (Z.mul_1_l (2 ^ 63)) at 1. rewrite Z_mod_plus_full. apply Z.mod_small. lia.
    + rewrite Z.land_lor_distr_l, L, Z.land_diag by done. done.
  - split_and!; [unfold is_u64; lia| |by rewrite L]. rewrite Z.land_ones by lia. apply Z.mod_small. lia.
Qed.

(** What the receiver needs to know about the lane and the sequence. *)
Definition fresh_in (w : receipt.receiptWindow) (s : Z) : Prop :=
  receipt_props.window_ok w /\ receipt_props.has w s = false /\ Z.max (receipt.whigh w) s - s < receipt.maxPackets.

Lemma mark_fresh w s :
  is_u64 s -> fresh_in w s -> snd (receipt.mark s w) = true /\ receipt_props.has (fst (receipt.mark s w)) s = true.
Proof.
  intros Hs (Ho & Hh & Hd). pose proof (receipt_props.mark_ok s w Ho Hs) as M. destruct (receipt.mark s w) as [w' b].
  destruct M as (_ & Et & Eb & Eh). cbn [fst snd]. rewrite Et, Hh in Eb.
  rewrite (proj2 (Z.ltb_lt _ _)) in Eb by exact Hd. cbn in Eb. subst b.
  split; [done|]. rewrite Eh, Z.eqb_refl, Et. rewrite (proj2 (Z.ltb_lt _ _)) by exact Hd. done.
Qed.

(** The receiver's side: a data frame of the peer's epoch on a leased lane,
    whose attempt and sequence are new, is handed up. *)
Lemma receive_dataFrame r path j m ep dst ln att sq ord pl now :
  bond_wire_props.epoch_ok ep -> bond_wire_props.epoch_ok dst -> is_u16 ln -> is_u64 att -> is_u64 sq -> is_u64 ord ->
  att <> 0 -> sq <> 0 -> Z.land ord (Z.lxor bond.interactiveBit (2 ^ 64 - 1)) <> 0 ->
  (0 < length pl)%nat -> Z.of_nat (length pl) <= maxDatagram ->
  epoch r = dst -> remote r = ep -> lastTime r <= now ->
  find path r = Some j -> paths r !! j = Some m -> up now m = true -> remoteID m = ln ->
  match receivers r !! ln with None => True | Some e => rpath e = path /\ fresh_in (receipts e) att end ->
  fresh_in (treceived r) sq ->
  let x := Receive iter path (bond.dataFrame ep dst ln att sq ord pl) now r in
  x.2 = Ok [mkDelivery (Z.land ord (Z.lxor bond.interactiveBit (2 ^ 64 - 1))) (negb (Z.land ord bond.interactiveBit =? 0)) pl] /\
  receipt_props.has (treceived x.1) sq = true.
Proof.
  intros He Hd Hl Ha Hs Ho Ha0 Hs0 Ho0 Hp0 Hp9 Ed Ee Ht Hf Hm Hu Hr Hln Hsq. cbv zeta.
  destruct (bond_wire_props.dataFrame_fields ep dst ln att sq ord pl He Hl Hd Hs Ho) as (W1 & W2 & W3 & W4 & W5 & W6 & W7).
  set (f := bond.dataFrame ep dst ln att sq ord pl) in *.
  assert (Ef : frame.Seq f = att /\ frame.ControlType f = bond.DataType) by done. destruct Ef as [Ef1 Ef2].
  set (b := frame.ControlPayload f) in *. apply get_field in W3, W4, W5, W6.
  assert (Hb : length b = (bond.headerBytes + 32 + length pl)%nat)
    by (unfold bond.Overhead, bond.dataFieldBytes in W2; unfold frame.ControlOverhead in *; lia).
  assert (Eepoch : bond.mkEpoch (bond.Boot dst) (bond.Generation dst) = dst) by (by destruct dst).
  unfold Receive, receive, checkTime. rewrite (proj2 (Z.ltb_ge _ _)) by done. fold b. rewrite W1.
  cbn [bond.epoch bond.lane]. set (r1 := r <| lastTime := now |>).
  change (remote r1) with (remote r). change (epoch r1) with (epoch r). change (find path r1) with (find path r).
  change (paths r1) with (paths r). rewrite Ee, bool_decide_true, Ef1, (proj2 (Z.eqb_neq att 0)) by done. cbn [negb orb].
  rewrite Hf. cbn [mbind option_bind]. rewrite Hm. cbn [fmap option_fmap option_map]. rewrite Hu, Ef2. cbn [negb].
  change (bond.DataType =? bond.DataType) with true. cbn iota. rewrite Hr, Z.eqb_refl. cbn [negb].
  rewrite Hb, (proj2 (Nat.ltb_ge _ _)), (proj2 (Nat.ltb_ge _ _)) by lia. cbn [orb]. cbv zeta.
  rewrite W3, W4, W5, W6, Eepoch, Ed, bool_decide_true by done. cbn [negb].
  rewrite (proj2 (Z.eqb_neq sq 0)) by done. cbn [negb andb orb]. rewrite (proj2 (Z.eqb_neq _ 0) Ho0). cbn [negb andb orb].
  rewrite (proj2 (Nat.eqb_neq _ _)) by lia. change (bond.headerBytes + 32)%nat with (bond.headerBytes + bond.dataFieldBytes)%nat.
  rewrite W7. clear W1 W2 W3 W4 W5 W6 W7 Hb.
  enough (D : let x := receiveData path j ln att pl sq ord now r1 in
    x.2 = Ok [mkDelivery (Z.land ord (Z.lxor bond.interactiveBit (2 ^ 64 - 1))) (negb (Z.land ord bond.interactiveBit =? 0)) pl] /\
    receipt_props.has (treceived x.1) sq = true).
  { destruct (receiveData path j ln att pl sq ord now r1) as [t' o]. destruct D as [D1 D2]. cbn [fst snd] in *. by subst o. }
  cbv zeta. unfold receiveData. change (receivers r1) with (receivers r).
  destruct (match receivers r !! ln with Some e => (r1, e) | None => _ end) as [t1 e] eqn:E.
  assert (He1 : rpath e = path /\ fresh_in (receipts e) att /\ treceived t1 = treceived r).
  { destruct (receivers r !! ln) as [e0|]; injection E as <- <-; [by destruct Hln|]. split; [done|]. split; [|done].
    split; [apply receipt_props.window0_refines|]. cbn. unfold is_u64 in Ha. split; [|unfold receipt.maxPackets; lia].
    unfold receipt_props.has. cbn [receipt.whigh receipt.window0]. by rewrite (proj2 (Z.leb_gt _ _)) by lia. }
  destruct He1 as (He1 & He2 & He3). clear E. rewrite He1, Z.eqb_refl. cbn [negb]. cbv zeta.
  destruct (mark_fresh _ _ Ha He2) as [Ma _]. destruct (receipt.mark att (receipts e)) as [rw new]. cbn [snd] in Ma. subst new. cbn [negb].
  set (P := fun x : Transport * outcome terror (list Delivery) =>
    x.2 = Ok [mkDelivery (Z.land ord (Z.lxor bond.interactiveBit (2 ^ 64 - 1))) (negb (Z.land ord bond.interactiveBit =? 0)) pl] /\
    receipt_props.has (treceived x.1) sq = true).
  set (Q := fun u : Transport => treceived u = treceived r).
  do 6 (apply (seq_rule (fun _ => True) P); [done|]; intros ? _).
  apply (seq_rule Q P); [exact He3|]. clear t1 He3. intros t1 C. rewrite (proj2 (Z.eqb_neq sq 0)) by done.
  apply (seq_rule Q P); [by destruct (_ =? 0)|]. clear t1 C. intros t1 C. rewrite C.
  destruct (mark_fresh _ _ Hs Hsq) as [Mb Mh]. destruct (receipt.mark sq (treceived r)) as [tw new]. cbn [fst snd] in Mb, Mh. subst new.
  apply (seq_rule (fun u => treceived u = tw) P); [done|]. clear t1 C. intros t1 C. cbn [negb].
  apply (seq_rule (fun u => treceived u = tw) P); [exact C|]. clear t1 C. intros t1 C. split; [done|]. cbn [fst]. by rewrite C.
Qed.

(** ** The guarantees *)

(** C13. Window accounting.  After any sequence of calls on a new transport
    that emitted fewer than 2^64 frames, whatever the order of map iteration,
    every lane's bytes in flight are the sum over its unreleased attempts, each
    class's bytes the sum over those of that class, and neither is negative. *)
Theorem bond_window_accounting ep t0 ops :
  New ep = Ok t0 ->
  let '(t, es) := run ops t0 in
  frames es < 2 ^ 64 ->
  forall i p, paths t !! i = Some p ->
    inflight p = wsum occupies (attempts p) /\ 0 <= inflight p /\
    forall c, cget 0 (classInflight p) c = wsum (occupies_class (pkts t) c) (attempts p) /\ 0 <= cget 0 (classInflight p) c.
Proof.
  intros E. destruct (run_ok 0 ops t0 (New_ok ep t0 E)) as [[_ I] _]. destruct (run ops t0) as [t es]. cbn [fst snd] in *.
  intros Hn i p Hp. specialize (I Hn). pose proof (Forall_lane _ _ _ (ok_lanes _ _ _ I) Hp) as A.
  assert (Hb : forall k a, attempts p !! k = Some a -> 0 <= occupies a).
  { intros k a Ha. unfold occupies. destruct (released a); [lia|]. by apply (ac_keys _ _ _ A k a). }
  split_and!.
  - apply A.
  - rewrite (ac_inflight _ _ _ A). by apply wsum_nonneg.
  - intros c. rewrite (ac_class _ _ _ A). split; [done|]. apply wsum_nonneg. intros k a Ha. unfold occupies_class.
    case_bool_decide; [by apply (Hb k)|lia].
Qed.

(** C17. Bounded memory, no nil dereference.  Along any sequence of calls on a
    new transport no call follows a missing queue node or reads past a frame,
    and while fewer than 2^64 frames were emitted the datagrams queued and
    awaiting confirmation are at most [maxPackets] (8192); each one awaiting
    confirmation is listed for repair, and none is listed twice. *)
Theorem bond_memory_bounded ep t0 ops :
  New ep = Ok t0 ->
  let '(t, es) := run ops t0 in
  (EPanic ∉ es) /\
  (frames es < 2 ^ 64 ->
   queued t + Z.of_nat (size (pending t)) <= maxPackets /\ NoDup (pendingOrder t) /\
   forall k, k ∈ pending t -> k ∈ pendingOrder t /\ exists d, pkts t !! k = Some d /\ queue.seq d = k).
Proof.
  intros E. destruct (run_ok 0 ops t0 (New_ok ep t0 E)) as [[_ I] N]. destruct (run ops t0) as [t es]. cbn [fst snd] in *.
  split; [done|]. intros Hn. specialize (I Hn). split_and!; [apply I|apply I|]. intros k Hk.
  pose proof (ok_listed _ _ _ I k Hk) as Ho. split; [done|]. destruct (ok_ord _ _ _ I k Ho) as [d Hd]. exists d.
  split; [done|]. by apply (ok_pkts _ _ _ I).
Qed.

(** C2. Exactly-once delivery.  Over any sequence of calls and any frames from
    the wire, on any lanes and in any order, a datagram's sequence is handed up
    at most once within one session with a peer. *)
Theorem bond_delivers_once ep t0 ops :
  New ep = Ok t0 -> Forall op_bytes ops -> NoDup (delivered 0 ops (run ops t0).2).
Proof.
  intros E F. apply (run_delivers_once 0 ops t0 receipt_props.history0 F).
  unfold New in E. destruct (_ || _); [done|]. injection E as <-. apply receipt_props.window0_refines.
Qed.

(** C16. A datagram arrives.  The frame a transport emits for a datagram it
    transmits the first time, received by the peer it is meant for on a leased
    lane that is paired with the sender's, hands the peer exactly the payload,
    its class and its place in the order, if the peer has not received that
    attempt or that sequence yet; and from then on the peer remembers the
    sequence. *)
Theorem bond_datagram_arrives t i l p now r path j m now' :
  paths t !! i = Some l -> waiting p ->
  bond_wire_props.epoch_ok (epoch t) -> bond_wire_props.epoch_ok (remote t) -> is_u16 (id l) ->
  0 <= seq l < 2 ^ 64 - 1 -> 0 <= tseq t < 2 ^ 64 - 1 -> 1 <= counter_of p t < 2 ^ 63 ->
  (0 < length (queue.payload p))%nat -> Z.of_nat (length (queue.payload p)) <= maxDatagram ->
  epoch r = remote t -> remote r = epoch t -> lastTime r <= now' ->
  find path r = Some j -> paths r !! j = Some m -> up now' m = true -> remoteID m = id l ->
  match receivers r !! id l with None => True | Some e => rpath e = path /\ fresh_in (receipts e) (seq l + 1) end ->
  fresh_in (treceived r) (tseq t + 1) ->
  exists f, (transmit now p i t).2 = [mkTransmission (id l) f] /\
    (Receive iter path f now' r).2 = Ok [mkDelivery (counter_of p t) (queue.interactive p) (queue.payload p)] /\
    receipt_props.has (treceived (Receive iter path f now' r).1) (tseq t + 1) = true.
Proof.
  intros Hi Hw He Hd Hu16 Hs Ht Hc Hp0 Hp9 Er Err Hnow Hf Hm Hup Hrid Hrec Hfr.
  eexists. split; [by apply transmit_frame|]. rewrite !u64_small by lia.
  destruct (order_bits p t ltac:(lia)) as (O1 & O2 & O3).
  destruct (receive_dataFrame r path j m (epoch t) (remote t) (id l) (seq l + 1) (tseq t + 1) (order_of p t)
    (queue.payload p) now') as [D1 D2]; try done; try (unfold is_u64; lia).
  rewrite O2, O3, negb_involutive in D1. done.
Qed.

(** C36. Rejected frames are inert.  A frame that [Receive] refuses, whatever
    its bytes, changes neither the lanes' windows and leases, nor the queues, nor
    the datagrams awaiting confirmation, nor the epochs, nor what was received;
    it only moves the time of the last call. *)
Theorem bond_rejection_inert path f now t t' c :
  Receive iter path f now t = (t', Err (Rejection c)) -> tkeeps (fst (checkTime now t)) t'.
Proof.
  unfold Receive. destruct (receive iter path f now t) as [t1 o] eqn:E.
  destruct o as [ds|[c0|]|]; [done| |done|done]. intros [= <- ->]. change (tkeeps (fst (checkTime now t)) t1). revert E.
  unfold receive. destruct (checkTime now t) as [t2 b]. cbn [fst].
  assert (Hk : forall (x : Transport * outcome terror (list Delivery)), x = (t2, x.2) -> x = (t1, Err (Rejection c)) -> tkeeps t2 t1).
  { intros [u o] [= <-] [= <- _]. reflexivity. }
  destruct b; [|by apply Hk]. cbv zeta.
  destruct (bond.parseHeader _) as [h|e|]; [|by apply Hk|by apply Hk]. destruct (_ || _); [by apply Hk|].
  destruct (find path t2 ≫= _) as [[i p]|]; [|by apply Hk]. destruct (negb _); [by apply Hk|].
  destruct (_ =? bond.DataType).
  - destruct (negb _); [by apply Hk|]. destruct (_ || _)%nat; [by apply Hk|]. destruct (negb _); [by apply Hk|].
    destruct (_ && _); [by apply Hk|]. destruct (_ && _); [by apply Hk|]. unfold receiveData.
    destruct (receivers t2 !! bond.lane h) as [r|] eqn:Er.
    + destruct (negb _); [by apply Hk|]. cbv zeta. destruct (receipt.mark _ _) as [rw new]. unfold seq_let.
      destruct (negb new); [done|]. destruct (_ =? 0); [done|]. destruct (receipt.mark _ _) as [tw new']. by destruct (negb new').
    + unfold seq_let. cbn [rpath]. rewrite Z.eqb_refl. cbn [negb]. cbv zeta. destruct (receipt.mark _ _) as [rw new].
      destruct (negb new); [done|]. destruct (_ =? 0); [done|]. destruct (receipt.mark _ _) as [tw new']. by destruct (negb new').
  - destruct (_ =? bond.ACKType); [|by apply Hk]. unfold receiveACK. destruct (negb _); [by apply Hk|].
    destruct (bond.parseACK _) as [a|e|]; [|by apply Hk|by apply Hk]. destruct (negb _); [by apply Hk|]. cbv zeta.
    destruct (_ || _); [by apply Hk|]. destruct (receipt.mark _ _) as [aw new]. unfold seq_let. destruct (negb new); [|done].
    intros [= <- _]. apply tkeeps_upd. reflexivity.
Qed.
End Runs.

(** ** Timeouts *)
Section Timeouts.
Context (now : Time) (ps : gmap Z queue.packet).

(** What the timeout of an attempt never changes. *)
Lemma release_rest a c q : rto (release a c q) = rto q /\ attempts (release a c q) = attempts q.
Proof. unfold release, seq_let. by destruct c. Qed.
Lemma releaseUnless_kept a q : rto (releaseUnless a ps q) = rto q /\ attempts (releaseUnless a ps q) = attempts q.
Proof. unfold releaseUnless. destruct (negb _); [apply release_rest|done]. Qed.

(** One attempt: the others stay, and what is left of it is young enough. *)
Definition young (r : Duration) (a : attempt) : Prop :=
  (released a = false -> time_sub now (asent a) < r) /\ time_sub now (asent a) < feedbackHorizon.

Lemma timeoutOne_spec p k :
  let q := timeoutOne now ps p k in
  rto q = rto p /\ (forall j, j <> k -> attempts q !! j = attempts p !! j) /\
  (forall a, attempts q !! k = Some a -> young (rto p) a /\ exists a0, attempts p !! k = Some a0 /\ asent a0 = asent a).
Proof.
  cbv zeta. unfold timeoutOne. destruct (attempts p !! k) as [a|] eqn:E; [|split_and!; congruence].
  match goal with |- context [let '(_, _) := ?e in _] => set (e0 := e) end.
  assert (H : rto e0.1 = rto p /\ (forall j, j <> k -> attempts e0.1 !! j = attempts p !! j) /\
    attempts e0.1 !! k = Some e0.2 /\ asent e0.2 = asent a /\
    (released e0.2 = false -> time_sub now (asent a) < rto p)).
  { unfold e0. destruct (negb (released a)) eqn:Er; cbn [andb].
    - destruct (Z.leb_spec (rto p) (time_sub now (asent a))) as [Hl|Hl]; [|done]. unfold seq_let.
      destruct (release_rest a (pkt_class ps a) p) as [R1 R2]. cbn [fst snd]. split_and!; try done.
      + intros j Hj. cbn. rewrite R2. by apply lookup_insert_ne.
      + cbn. by rewrite lookup_insert_eq.
    - split_and!; try done. cbn [snd]. intros Hr. by rewrite Hr in Er. }
  destruct e0 as [q b]. cbn [fst snd] in H. destruct H as (H1 & H2 & H3 & H4 & H5).
  destruct (Z.leb_spec feedbackHorizon (time_sub now (asent b))) as [Hl|Hl].
  - destruct (releaseUnless_kept b q) as [U1 U2]. unfold seq_let. cbn [attempts update]. rewrite U2. split_and!.
    + by rewrite <- H1.
    + intros j Hj. rewrite lookup_delete_ne by done. by apply H2.
    + intros x. by rewrite lookup_delete_eq.
  - split_and!; [done|done|]. intros x Hx. assert (x = b) as -> by congruence. split; [|by exists a].
    split; [|done]. rewrite H4. exact H5.
Qed.

(** The loop over a lane's attempts. *)
Lemma timeouts_spec l p :
  let q := fold_left (timeoutOne now ps) l p in
  rto q = rto p /\ forall k a, attempts q !! k = Some a -> (k ∈ l -> young (rto p) a) /\ (k ∉ l -> attempts p !! k = Some a).
Proof.
  revert p. induction l as [|k l IH]; intros p; cbn [fold_left].
  { split; [done|]. intros k a Ha. split; [|done]. intros Hk. by apply elem_of_nil in Hk. }
  destruct (timeoutOne_spec p k) as (T1 & T2 & T3). destruct (IH (timeoutOne now ps p k)) as [I1 I2].
  split; [by rewrite I1|]. intros j a Ha. destruct (I2 j a Ha) as [J1 J2]. rewrite T1 in J1. split.
  - intros Hj. destruct (decide (j ∈ l)) as [Hin|Hni]; [by apply J1|]. specialize (J2 Hni).
    apply elem_of_cons in Hj as [->|Hj]; [by apply T3|done].
  - intros Hj. rewrite not_elem_of_cons in Hj. rewrite <- T2 by apply Hj. apply J2, Hj.
Qed.

End Timeouts.

(** A lost datagram does not hold its window.  When a poll's timeout loop
    has visited a lane's attempts, every attempt still in the window was sent
    less than one retransmission timeout ago and every attempt still remembered
    less than the feedback horizon ago; the bytes in flight are the sum of the
    former alone, so a lane whose attempts are all older has an empty window. *)
Theorem bond_timeout_frees_window n now ps p l :
  accounted n ps p -> (forall k, is_Some (attempts p !! k) -> k ∈ l) ->
  let q := fold_left (timeoutOne now ps) l p in
  rto q = rto p /\ inflight q = wsum occupies (attempts q) /\
  (forall k a, attempts q !! k = Some a -> time_sub now (asent a) < feedbackHorizon /\
     (released a = false -> time_sub now (asent a) < rto q)) /\
  ((forall k a, attempts p !! k = Some a -> feedbackHorizon <= time_sub now (asent a)) -> attempts q = ∅ /\ inflight q = 0).
Proof.
  intros Hp Hl. cbv zeta. destruct (timeouts_spec now ps l p) as [T1 T2].
  assert (A : accounted n ps (fold_left (timeoutOne now ps) l p)).
  { apply fold_ok; [|done]. intros q k Hq. by apply timeoutOne_ok. }
  assert (D : forall l p k a, attempts (fold_left (timeoutOne now ps) l p) !! k = Some a ->
    exists a0, attempts p !! k = Some a0 /\ asent a0 = asent a).
  { clear. intros l. induction l as [|j l IH]; intros p k a H; [eauto|]. cbn in H. destruct (IH _ _ _ H) as (b & Hb & E).
    destruct (timeoutOne_spec now ps p j) as (_ & S2 & S3). destruct (decide (k = j)) as [->|Hne].
    - destruct (S3 b Hb) as (_ & a0 & ? & ?). exists a0. split; [done|congruence].
    - rewrite S2 in Hb by done. eauto. }
  split_and!; [done|apply A| |].
  - intros k a Ha. destruct (D l p k a Ha) as (a0 & Ha0 & _). destruct (T2 k a Ha) as [Y _].
    destruct (Y (Hl k ltac:(eauto))) as [Y1 Y2]. rewrite T1. done.
  - intros Hold. assert (E : attempts (fold_left (timeoutOne now ps) l p) = ∅).
    { apply map_empty. intros k. destruct (attempts (fold_left (timeoutOne now ps) l p) !! k) as [a|] eqn:Ha; [|done].
      destruct (D l p k a Ha) as (a0 & Ha0 & Es). specialize (Hold k a0 Ha0). destruct (T2 k a Ha) as [Y _].
      destruct (Y (Hl k ltac:(eauto))) as [_ Y2]. rewrite Es in Hold. lia. }
    split; [done|]. rewrite (ac_inflight _ _ _ A), E. apply wsum_empty.
Qed.

(** ** Witnesses: two transports on one lane *)
Definition iter0 (now : Time) (m : gmap Z attempt) : list Z := (map_to_list m).*1.
Definition ms (n : Z) : Time := 62135596800 * second + n * millisecond.
Definition epA : bond.Epoch := bond.mkEpoch 1 1.
Definition epB : bond.Epoch := bond.mkEpoch 2 1.
Definition noFlow : PacketMetadata := mkMetadata (replicate 40 0) queue.TCPACK0.
Definition opsA : list op :=
  [OSetRemote epB true; OPath 1 1 (20 * millisecond) (ms 0); OEnqueue [1; 2; 3] noFlow (ms 1);
   OEnqueue (replicate 500 7) noFlow (ms 1); OPoll (ms 2)].
Definition frameA (sq : Z) : frame.Control := bond.dataFrame epA epB 1 sq 1 1 [9; 9].
Definition opsB : list op :=
  [OSetRemote epA true; OPath 1 1 (20 * millisecond) (ms 0); OReceive 1 (frameA 1) (ms 5); OReceive 1 (frameA 2) (ms 6)].

Lemma bond_window_accounting_witness :
  New epA = Ok (initial epA) /\ frames (run iter0 opsA (initial epA)).2 = 2 /\
  forall i p, paths (run iter0 opsA (initial epA)).1 !! i = Some p ->
    inflight p = wsum occupies (attempts p) /\ 0 <= inflight p /\
    forall c, cget 0 (classInflight p) c = wsum (occupies_class (pkts (run iter0 opsA (initial epA)).1) c) (attempts p) /\
              0 <= cget 0 (classInflight p) c.
Proof.
  assert (E : frames (run iter0 opsA (initial epA)).2 = 2) by (vm_compute; reflexivity).
  pose proof (bond_window_accounting iter0 epA (initial epA) opsA eq_refl) as H.
  split; [reflexivity|]. split; [exact E|]. destruct (run iter0 opsA (initial epA)) as [t es]. apply H. cbn [snd] in E. lia.
Defined.

Lemma bond_memory_bounded_witness :
  New epA = Ok (initial epA) /\ frames (run iter0 opsA (initial epA)).2 = 2 /\
  let '(t, es) := run iter0 opsA (initial epA) in
  (EPanic ∉ es) /\ queued t + Z.of_nat (size (pending t)) <= maxPackets /\ NoDup (pendingOrder t) /\
  forall k, k ∈ pending t -> k ∈ pendingOrder t /\ exists d, pkts t !! k = Some d /\ queue.seq d = k.
Proof.
  assert (E : frames (run iter0 opsA (initial epA)).2 = 2) by (vm_compute; reflexivity).
  pose proof (bond_memory_bounded iter0 epA (initial epA) opsA eq_refl) as H.
  split; [reflexivity|]. split; [exact E|]. destruct (run iter0 opsA (initial epA)) as [t es].
  destruct H as [H1 H2]. split; [exact H1|]. apply H2. cbn [snd] in E. lia.
Defined.

Lemma bond_delivers_once_witness :
  delivered 0 opsB (run iter0 opsB (initial epB)).2 = [(1%nat, 1)] /\
  NoDup (delivered 0 opsB (run iter0 opsB (initial epB)).2).
Proof.
  split; [vm_compute; reflexivity|]. apply (bond_delivers_once iter0 epB (initial epB) opsB); [reflexivity|].
  do 2 (apply Forall_cons_2; [exact I|]).
  do 2 (apply Forall_cons_2; [apply bytes_check; vm_compute; reflexivity|]). apply Forall_nil_2.
Defined.

(** The sender with its lane, a datagram, and the receiver with the paired lane. *)
Definition stA : Transport := (run iter0 [OSetRemote epB true; OPath 1 1 (20 * millisecond) (ms 0)] (initial epA)).1.
Definition stB : Transport := (run iter0 [OSetRemote epA true; OPath 1 1 (20 * millisecond) (ms 0)] (initial epB)).1.
Definition laneA : lane := newLane 1 1 (20 * millisecond) (ms 0) <| lease := ms 0 |>.
Definition dgram : queue.packet := queue.mkPacket (replicate 40 0) queue.TCPACK0 0 0 queue.classRealtime true [1; 2; 3]
  (ms 1) (ms 101) 0 0 0 0 0 false.

Lemma fresh_window0 s : 1 <= s -> fresh_in receipt.window0 s.
Proof.
  intros Hs. split; [apply receipt_props.window0_refines|]. cbn. split; [|unfold receipt.maxPackets; lia].
  unfold receipt_props.has. cbn [receipt.whigh receipt.window0]. by rewrite (proj2 (Z.leb_gt _ _)) by lia.
Qed.

Lemma bond_datagram_arrives_witness :
  exists f, (transmit (ms 2) dgram 0 stA).2 = [mkTransmission 1 f] /\
    (Receive iter0 1 f (ms 12) stB).2 = Ok [mkDelivery 1 true [1; 2; 3]] /\
    receipt_props.has (treceived (Receive iter0 1 f (ms 12) stB).1) 1 = true.
Proof.
  apply (bond_datagram_arrives iter0 stA 0 laneA dgram (ms 2) stB 1 0 laneA (ms 12));
    try (vm_compute; reflexivity); try exact I.
  1-2: split; split; apply Z.ltb_lt; vm_compute; reflexivity.
  1-4: split; (apply Z.leb_le || apply Z.ltb_lt); vm_compute; reflexivity.
  - apply Nat.ltb_lt. vm_compute. reflexivity.
  - apply Z.leb_le. vm_compute. reflexivity.
  - apply Z.leb_le. vm_compute. reflexivity.
  - assert (E : treceived stB = receipt.window0) by (vm_compute; reflexivity).
    assert (E' : tseq stA + 1 = 1) by (vm_compute; reflexivity). rewrite E, E'. apply fresh_window0. lia.
Defined.

Definition garbage : frame.Control := frame.mkControl bond.DataType 7 [1; 2; 3].

Lemma bond_rejection_inert_witness :
  exists t', Receive iter0 1 garbage (ms 12) stB = (t', Err (Rejection bond.RejectMalformed)) /\ tkeeps (fst (checkTime (ms 12) stB)) t'.
Proof.
  assert (E : (Receive iter0 1 garbage (ms 12) stB).2 = Err (Rejection bond.RejectMalformed)) by (vm_compute; reflexivity).
  destruct (Receive iter0 1 garbage (ms 12) stB) as [t' o] eqn:R. cbn [snd] in E. subst o. exists t'.
  split; [reflexivity|]. exact (bond_rejection_inert iter0 1 garbage (ms 12) stB t' _ R).
Defined.

(** The lane of [opsA], three seconds after it sent two datagrams. *)
Lemma bond_timeout_frees_window_witness :
  exists p ps, paths (run iter0 opsA (initial epA)).1 !! 0%nat = Some p /\ inflight p = 761 /\
    inflight (fold_left (timeoutOne (ms 3002) ps) (iter0 (ms 3002) (attempts p)) p) = 0.
Proof.
  destruct (run_ok iter0 0 opsA (initial epA) (New_ok epA _ eq_refl)) as [[_ I] _].
  assert (E : frames (run iter0 opsA (initial epA)).2 = 2) by (vm_compute; reflexivity). rewrite E in I.
  specialize (I ltac:(lia)).
  assert (Ep : exists p, paths (run iter0 opsA (initial epA)).1 !! 0%nat = Some p /\ inflight p = 761 /\
    forallb (fun x => feedbackHorizon <=? time_sub (ms 3002) (asent (snd x))) (map_to_list (attempts p)) = true).
  { eexists. split; [vm_compute; reflexivity|]. split; vm_compute; reflexivity. }
  destruct Ep as (p & Hp & Hi & Hold). exists p, (pkts (run iter0 opsA (initial epA)).1). split; [exact Hp|]. split; [exact Hi|].
  pose proof (Forall_lane _ _ _ (ok_lanes _ _ _ I) Hp) as A.
  destruct (bond_timeout_frees_window _ (ms 3002) _ p (iter0 (ms 3002) (attempts p)) A) as (_ & _ & _ & H).
  - intros k [a Ha]. unfold iter0. apply list_elem_of_fmap. exists (k, a). split; [reflexivity|]. by apply elem_of_map_to_list.
  - apply H. intros k a Ha. rewrite forallb_forall in Hold. apply Z.leb_le, (Hold (k, a)).
    by apply list_elem_of_In, elem_of_map_to_list.
Defined.


End transport_props.
