(* ===== verification/BondEmitTheory.v ===== *)
(** * Which lanes a poll sends on

    Every frame [Poll] returns is for a lane that exists and whose lease is
    running, whatever the state of the queues and windows. *)

From stdpp Require Import base tactics list numbers gmap sets.
From S2P Require Import Prelude Float64 Frame BondWire BondReceipt BondQueue BondMeter BondLane BondTransport BondWindow.
From S2P Require Import BondTransportTheory BondPollTheory BondTransportProps.

Module emit_ok.
Import float64 lanes transport window transport_ok poll_ok.

(** The lane [x] is among [v] with a running lease. *)
Definition leased (now : Time) (v : list (PathID * Time)) (x : PathID) : Prop :=
  exists at_, (x, at_) ∈ v /\ negb (is_zero_time at_) && (time_sub now at_ <? pathLease) = true.

Lemma up_leased now t i p : paths t !! i = Some p -> up now p = true -> leased now (map lview (paths t)) (id p).
Proof.
  intros Hi Hu. exists (lease p). split; [|exact Hu]. apply list_elem_of_fmap. exists p. split; [done|].
  by apply list_elem_of_lookup_2 in Hi.
Qed.

Lemma find_from_spec k ident l i :
  find_from k ident l = Some i -> exists j p, i = (k + j)%nat /\ l !! j = Some p /\ id p = ident.
Proof.
  revert k. induction l as [|q l IH]; intros k; cbn; [done|]. destruct (Z.eqb_spec (id q) ident) as [E|E].
  - intros [= <-]. exists 0%nat, q. split_and!; [lia|done|done].
  - intros H. destruct (IH _ H) as (j & p & -> & Hj & Hp). exists (S j), p. split_and!; [lia|done|done].
Qed.
Lemma find_spec ident t i : find ident t = Some i -> exists p, paths t !! i = Some p /\ id p = ident.
Proof. intros H. destruct (find_from_spec _ _ _ _ H) as (j & p & -> & Hj & Hp). by exists p. Qed.

Lemma eligible_up c now p : eligible c now p = true -> up now p = true.
Proof.
  unfold eligible, liveness. destruct (up now p); [done|]. cbn [negb]. intros H.
  by rewrite !bool_decide_false, andb_false_r in H by done.
Qed.

Lemma chooseLane_up now c size ex av t i :
  chooseLane now c size ex av t = Some i -> exists p, paths t !! i = Some p /\ up now p = true.
Proof.
  unfold chooseLane. match goal with |- context [fold_left ?f _ _] => set (g := f) end.
  set (P := fun o : option (nat * Duration) => forall i d, o = Some (i, d) -> exists p, paths t !! i = Some p /\ up now p = true).
  enough (H : P (fold_left g (List.seq 0%nat (length (paths t))) None)).
  { destruct (fold_left g _ _) as [[j d]|]; [|done]. cbn. intros [= <-]. by apply (H j d). }
  apply (fold_ok P); [|done]. intros o j Ho. unfold g. destruct (paths t !! j) as [p|] eqn:Ej; [|done].
  destruct (eligible c now p) eqn:Ee; cbn [negb orb]; [|done]. apply eligible_up in Ee.
  destruct (_ || _); [done|]. destruct (laneArrival _ _ _ _ _ _ p) as [a|]; [|done].
  assert (H1 : P (Some (j, a))) by (intros i0 d [= <- _]; by exists p).
  destruct o as [[k b]|]; [by destruct (a <? b)|done].
Qed.

(** ** Through the loops of a poll

    [v] are the lanes the poll started with; none of its steps adds one or
    touches a lease. *)
Section Emit.
Context (now : Time) (v : list (PathID * Time)).
Definition lanes_are (t : Transport) : Prop := map lview (paths t) = v.
Definition aimed (out : list Transmission) : Prop := Forall (fun x => leased now v (TPath x)) out.
Definition emits (t : Transport) (out : list Transmission) : Prop := lanes_are t /\ aimed out.

Lemma lanes_sview t t' : sview t' = sview t -> lanes_are t -> lanes_are t'.
Proof. unfold sview, eview, cview, lanes_are. congruence. Qed.
Lemma lanes_eview t t' : eview t' = eview t -> lanes_are t -> lanes_are t'.
Proof. unfold eview, cview, lanes_are. congruence. Qed.
Lemma aimed_app a b : aimed a -> aimed b -> aimed (a ++ b).
Proof. intros. by apply Forall_app. Qed.

Lemma transmit_emits p i l t :
  lanes_are t -> paths t !! i = Some l -> up now l = true ->
  let r := transmit now p i t in emits r.1.1 r.2.
Proof.
  intros Hv Hi Hu. split; [by apply (lanes_sview t); [apply transmit_sview|]|].
  assert (Hl : leased now v (id l)) by (rewrite <- Hv; by apply (up_leased now t i)).
  unfold transmit. rewrite Hi. cbv zeta.
  match goal with |- context [if ?b then ?x else ?y] => destruct (if b then x else y) as [t1 p1] end.
  by repeat constructor.
Qed.
(** On the lane the scheduler chose. *)
Lemma chosen_emits c size ex av p i t u :
  lanes_are u -> lanes_are t -> chooseLane now c size ex av u = Some i -> paths t = paths u ->
  let r := transmit now p i t in emits r.1.1 r.2.
Proof. intros Hu Ht Hc E. destruct (chooseLane_up _ _ _ _ _ _ _ Hc) as (l & Hl & Hup). rewrite <- E in Hl. by apply (transmit_emits p i l). Qed.

Lemma pollReceiver_emits key s : emits s.1 s.2 -> emits (pollReceiver now key s).1 (pollReceiver now key s).2.
Proof.
  intros [Hv Ho]. split; [by apply (lanes_sview s.1); [apply pollReceiver_sview|]|]. destruct s as [t out]. unfold pollReceiver.
  destruct (receivers t !! key) as [r|]; [|done]. destruct (find (rpath r) t) as [i|] eqn:Ef; [|done]. cbn [mbind option_bind].
  destruct (find_spec _ _ _ Ef) as (p & Hp & Ei). rewrite Hp. cbn. destruct (up now p) eqn:Hu; [|done]. cbn [negb].
  destruct (_ || _); [|done]. destruct (ackDue now r) as [r1 due] eqn:Er. destruct due; [|done]. unfold seq_let. cbn [snd].
  apply aimed_app; [done|]. constructor; [|constructor]. cbn [TPath].
  assert (E : rpath r1 = rpath r).
  { unfold ackDue in Er. destruct (_ <=? _); [by injection Er as <-|]. destruct (ackStreak <=? streak r); [|by injection Er as <-].
    destruct (meter.rate now (rreceived r)). by injection Er as <-. }
  destruct (_ <? _); cbn [rpath update]; rewrite E, <- Ei, <- Hv; by apply (up_leased now t i).
Qed.

Lemma pollLane_emits iter i s : emits s.1 s.2 -> emits (pollLane iter now i s).1 (pollLane iter now i s).2.
Proof.
  intros [Hv Ho]. split; [by apply (lanes_sview s.1); [apply pollLane_sview|]|]. destruct s as [t out].
  unfold pollLane, seq_let.
  match goal with |- context [paths ?x !! i] => set (u := x) end.
  assert (Hu : lanes_are u).
  { unfold lanes_are, u, upd. cbn [paths update]. rewrite !map_lview_alter; [done| |].
    - intros p. apply keeps_lview, keeps_pollBaseline.
    - intros p. apply (fold_ok (fun q => lview q = lview p)); [|done]. intros q k <-. apply timeoutOne_lview. }
  clearbody u. destruct (paths u !! i) as [p|] eqn:Ei; [|done]. destruct (pingDue now p) eqn:Ep; [|done]. cbn [snd].
  apply aimed_app; [done|]. constructor; [|constructor]. cbn [TPath].
  assert (E : id (lanePing now p) = id p) by exact (f_equal fst (lanePing_lview now p)). rewrite E. clear E.
  unfold pingDue in Ep. apply andb_true_iff in Ep as [Hup _]. rewrite <- Hu. by apply (up_leased now u i).
Qed.

Lemma pollPending_emits k s : emits s.1.1 s.2 -> emits (pollPending now s k).1.1 (pollPending now s k).2.
Proof.
  destruct s as [[t retained] out]. cbn [fst snd]. intros [Hv Ho]. unfold pollPending.
  destruct (pkts t !! k) as [p|]; [|done]. destruct (queue.acked p); [done|]. destruct (_ <? _); [done|]. cbv zeta.
  assert (T : forall c ex av i, chooseLane now c (wireSize p) ex av t = Some i ->
    let r := (let '(t, _, x) := transmit now p i t in (t, retained ++ [k], out ++ x)) in emits r.1.1 r.2).
  { intros c ex av i Hc. pose proof (chosen_emits c _ ex av p i t t Hv Hv Hc eq_refl) as [H1 H2].
    destruct (transmit now p i t) as [[t1 p1] x]. split; [done|by apply aimed_app]. }
  match goal with |- emits (match ?e with _ => _ end).1.1 _ => destruct e as [i|] eqn:E1 end.
  { destruct (_ && _) in E1; [|done]. by apply (T _ _ _ i E1). }
  destruct (_ || _); [done|].
  destruct (chooseLane now queue.classBulk (wireSize p) (queue.lastPath p) true t) as [i|] eqn:E2; [by apply (T _ _ _ i E2)|].
  match goal with |- emits (match ?e with _ => _ end).1.1 _ => destruct e as [i|] eqn:E3 end; [|done].
  match type of E3 with (if ?b then _ else _) = _ => destruct b end; [|done]. by apply (T _ _ _ i E3).
Qed.

Lemma sendCopy_emits c size i p t : lanes_are t -> let r := sendCopy now c size i p t in emits r.1 r.2.
Proof.
  intros Hv. split; [by apply (lanes_eview t); [apply sendCopy_eview|]|]. unfold sendCopy.
  destruct (paths t !! i) as [path|]; [|constructor]. destruct (_ && _); [|constructor].
  destruct (chooseLane now c size (id path) true t) as [j|] eqn:Ec; [|constructor].
  apply (seq_rule (fun u => lanes_are u /\ paths u = paths t) (fun r : Transport * list Transmission => aimed r.2));
    [by destruct (negb _)|]. intros u [Hu E].
  pose proof (chosen_emits c size _ _ p j u t Hv Hu Ec E) as [_ H]. by destruct (transmit now p j u) as [[t1 p1] x].
Qed.

Lemma sendSmall_emits k c t out s :
  emits t out -> sendSmall k now c t out = Some s -> emits s.1 s.2.
Proof.
  revert t out. induction k as [|k IH]; intros t out [Hv Ho]; cbn [sendSmall];
    (destruct (queue.peek (cget queue.fair0 (small t) c)) as [p|]; [|by intros [= <-]]); [done|].
  set (late := queue.queueDeadline p <? now). pose proof (tkeeps_stale_if late c now p t) as K.
  match goal with |- context [let '(_, _) := ?e in _] => set (sd := e) in * end.
  destruct sd as [t1 drop]. cbn [fst] in K. clearbody late. apply tkeeps_sview in K.
  apply (lanes_sview t t1 K) in Hv. clear K t. destruct drop.
  - destruct (popSmall c t1) as [t2|] eqn:E2; [|done]. apply popSmall_eview in E2. apply IH. split; [|done].
    apply (lanes_sview t2); [apply tkeeps_sview, tkeeps_dropSmall|]. by apply (lanes_eview t1).
  - destruct (chooseLane now c (wireSize p) 0 false t1) as [i|] eqn:Ec; [|by intros [= <-]].
    destruct (popSmall c t1) as [t2|] eqn:E2; [|done].
    assert (Hp : paths t2 = paths t1) by (unfold popSmall in E2; destruct (queue.pop _); [|done]; by injection E2 as <-).
    apply popSmall_eview in E2. apply (lanes_eview t1 t2 E2) in Hv as Hv2.
    pose proof (chosen_emits c _ _ _ p i t2 t1 Hv Hv2 Ec Hp) as [H1 H2]. destruct (transmit now p i t2) as [[t3 p3] x].
    pose proof (sendCopy_emits c (wireSize p) i p3 t3 H1) as [H3 H4]. destruct (sendCopy now c (wireSize p) i p3 t3) as [t4 y].
    cbn [fst snd] in *. apply IH. split; [done|]. by repeat apply aimed_app.
Qed.

Lemma sendClass_emits c t out s : emits t out -> sendClass now c t out = Some s -> emits s.1 s.2.
Proof.
  intros H. unfold sendClass.
  match goal with |- context [seq_let ?x ?k] => change (seq_let x k) with (k x); set (u := x) end.
  assert (E : eview u = eview t) by (destruct c; try reflexivity; unfold u; destruct (queue.peek _); reflexivity).
  clearbody u. cbv beta. apply sendSmall_emits. destruct H. split; [by apply (lanes_eview t)|done].
Qed.

Lemma sendBulk_emits k t out : emits t out -> let s := sendBulk k now t out in emits s.1 s.2.
Proof.
  revert t out. induction k as [|k IH]; intros t out [Hv Ho]; cbn [sendBulk]; [done|].
  destruct (tqueue t) as [|p rest]; [done|]. destruct (_ <? _); [by apply IH|].
  destruct (chooseLane now queue.classBulk (wireSize p) 0 false t) as [i|] eqn:Ec; [|done].
  apply (seq_rule (fun u => paths u = paths t) (fun s : Transport * list Transmission => emits s.1 s.2)); [done|]. intros u Hu.
  match goal with |- context [let '(_, _) := ?e in _] => assert (K : paths e.1 = paths u); [|destruct e as [t1 dropped]] end.
  { destruct (negb _); [|done]. by destruct (queue.codelDrop _ _ _ _ _). }
  cbn [fst] in K. assert (Hv1 : lanes_are t1) by (unfold lanes_are; by rewrite K, Hu).
  destruct dropped; [by apply IH|].
  pose proof (chosen_emits _ _ _ _ p i t1 t Hv Hv1 Ec ltac:(congruence)) as [H1 H2].
  destruct (transmit now p i t1) as [[t2 p2] x]. cbn [fst snd] in *. apply IH. split; [done|by apply aimed_app].
Qed.
End Emit.

(** Every frame of a poll is for a lane whose lease runs at the time of the poll. *)
Lemma Poll_leased iter now t t' out :
  Poll iter now t = (t', Ok out) -> aimed now (map lview (paths t)) out.
Proof.
  unfold Poll, checkTime. destruct (_ <? _); [done|].
  set (v := map lview (paths t)). set (P := fun r : Transport * outcome terror (list Transmission) =>
    forall t' out, r = (t', Ok out) -> aimed now v out). set (Q := lanes_are v).
  intros E. refine ((_ : P _) t' out E). clear E t' out.
  apply (seq_rule Q P); [by destruct (negb _)|]. intros t1 Q1. apply (seq_rule Q P); [done|]. clear t1 Q1. intros t1 Q1.
  assert (E2 : let s := fold_left (fun s key => pollReceiver now key s) (receiverOrder t1) (t1, []) in emits now v s.1 s.2).
  { apply (fold_ok (fun s => emits now v s.1 s.2)); [intros s k; apply pollReceiver_emits|]. split; [done|constructor]. }
  destruct (fold_left _ (receiverOrder t1) _) as [t2 o2].
  assert (E3 : let s := fold_left (fun s i => pollLane iter now i s) (List.seq 0%nat (length (paths t2))) (t2, o2) in emits now v s.1 s.2).
  { apply (fold_ok (fun s => emits now v s.1 s.2)); [intros s k; apply pollLane_emits|done]. }
  destruct (fold_left _ (List.seq 0%nat (length (paths t2))) _) as [t3 o3]. destruct E3 as [Q3 A3]. cbn [fst snd] in Q3, A3.
  apply (seq_rule Q P); [by apply (lanes_sview _ t3); [apply tkeeps_sview, tkeeps_reserve|]|]. intros t4 Q4.
  assert (E5 : let s := fold_left (pollPending now) (pendingOrder t4) (t4, [], o3) in emits now v s.1.1 s.2).
  { apply (fold_ok (fun s => emits now v s.1.1 s.2)); [intros s k; apply pollPending_emits|done]. }
  destruct (fold_left _ (pendingOrder t4) _) as [[t5 ret] o5]. destruct E5 as [Q5 A5]. cbn [fst snd] in Q5, A5.
  apply (seq_rule Q P); [exact Q5|]. intros t6 Q6.
  destruct (send now t6 o5) as [[t7 o7]|] eqn:Es; [|done]. unfold send in Es.
  apply bind_Some in Es as ([u1 v1] & H1 & Es). apply bind_Some in Es as ([u2 v2] & H2 & Es). injection Es as E7.
  apply (sendClass_emits now v) in H1; [|done]. apply (sendClass_emits now v) in H2; [|done].
  pose proof (sendBulk_emits now v (length (tqueue u2)) u2 v2 H2) as [_ H7]. rewrite E7 in H7. by intros t' out [= _ <-].
Qed.

(** ** What each call does to the clock, the epochs and the lanes *)
Lemma checkTime_ok now t : lastTime t <= now -> checkTime now t = (t <| lastTime := now |>, true).
Proof. intros H. unfold checkTime. by rewrite (proj2 (Z.ltb_ge _ _)). Qed.

(** Only a clock that ran backwards makes a poll fail. *)
Lemma Poll_error iter now t e : (Poll iter now t).2 = Err e -> now < lastTime t.
Proof.
  unfold Poll, checkTime. destruct (Z.ltb_spec now (lastTime t)) as [|_]; [done|]. unfold seq_let.
  destruct (fold_left _ (receiverOrder _) _) as [t2 o2]. destruct (fold_left _ (List.seq _ _) _) as [t3 o3].
  destruct (fold_left _ (pendingOrder _) _) as [[t4 ret] o4]. by destruct (send _ _ _) as [[t5 o5]|].
Qed.

Lemma receiveData_cview path i ln fseq body dseq order now t :
  cview (fst (receiveData path i ln fseq body dseq order now t)) = cview t.
Proof.
  unfold receiveData. destruct (match receivers t !! ln with Some r => _ | None => _ end) as [t1 r] eqn:E.
  assert (C : cview t1 = cview t) by (destruct (receivers t !! ln); by injection E as <- <-). clear E.
  set (P := fun x : Transport * outcome terror (list Delivery) => cview (fst x) = cview t).
  set (Q := fun u : Transport => cview u = cview t). change (Q t1) in C.
  destruct (negb _); [exact C|]. cbv zeta. destruct (receipt.mark fseq _) as [rw new].
  apply (seq_rule (fun _ => True) P); [done|]. intros r1 _. destruct (negb new); [exact C|].
  do 5 (apply (seq_rule (fun _ => True) P); [done|]; intros ? _).
  apply (seq_rule Q P); [exact C|]. clear t1 C. intros t1 C. destruct (dseq =? 0); [exact C|].
  apply (seq_rule Q P).
  { destruct (_ =? 0); [|exact C]. unfold Q, cview, upd in *. cbn. by rewrite map_lview_alter. }
  clear t1 C. intros t1 C. destruct (receipt.mark dseq (treceived t1)) as [tw new'].
  apply (seq_rule Q P); [exact C|]. clear t1 C. intros t1 C. destruct (negb new'); [exact C|].
  apply (seq_rule Q P); [exact C|]. clear t1 C. intros t1 C. exact C.
Qed.

Lemma Receive_cview iter path f now t :
  cview (Receive iter path f now t).1 = cview (fst (checkTime now t)).
Proof.
  transitivity (cview (receive iter path f now t).1).
  { unfold Receive. by destruct (receive iter path f now t) as [t' [ds|[c|]|]]. }
  unfold receive. destruct (checkTime now t) as [t1 []]; cbn [fst]; [|done]. cbv zeta.
  destruct (bond.parseHeader _) as [h|c|]; [|done|done]. destruct (_ || _); [done|].
  destruct (find path t1 ≫= _) as [[i p]|]; [|done]. destruct (negb _); [done|]. destruct (_ =? bond.DataType).
  - destruct (negb _); [done|]. destruct (_ || _)%nat; [done|]. destruct (negb _); [done|].
    destruct (_ && _); [done|]. destruct (_ && _); [done|]. apply receiveData_cview.
  - destruct (_ =? bond.ACKType); [|done].
    pose proof (proj1 (transport_props.receiveACK_eview iter path i p (bond.lane h) f now t1)) as E. unfold eview in E. congruence.
Qed.

(** The lanes by id: no id twice. *)
Definition ids (t : Transport) : list PathID := map fst (map lview (paths t)).

Lemma ids_lookup t i p : paths t !! i = Some p -> ids t !! i = Some (id p).
Proof. intros H. unfold ids. by rewrite !list_lookup_fmap, H. Qed.

Lemma find_from_None k ident l : find_from k ident l = None -> ident ∉ map id l.
Proof.
  revert k. induction l as [|q l IH]; intros k; cbn; [by intros _ ?%elem_of_nil|].
  destruct (Z.eqb_spec (id q) ident) as [|E]; [done|]. intros H. apply not_elem_of_cons. split; [done|]. by apply (IH (S k)).
Qed.
Lemma find_None ident t : find ident t = None -> ident ∉ ids t.
Proof. intros H. unfold ids. rewrite map_map. by apply (find_from_None 0). Qed.

Lemma map_fst_alter (f : lane -> lane) i l : (forall p, id (f p) = id p) -> map fst (map lview (alter f i l)) = map fst (map lview l).
Proof. intros Hf. rewrite !map_map. revert i. induction l as [|p l IH]; intros [|i]; cbn; [done|done|by rewrite Hf|]. f_equal. apply IH. Qed.

Lemma lease_elem i at_ t x y :
  (x, y) ∈ map lview (paths (upd i (fun p => p <| lease := at_ |>) t)) ->
  (x, y) ∈ map lview (paths t) \/ exists p, paths t !! i = Some p /\ x = id p /\ y = at_.
Proof.
  intros (p & E & Hp)%list_elem_of_fmap. apply list_elem_of_lookup in Hp as [j Hj]. cbn in Hj.
  destruct (decide (i = j)) as [->|Hne].
  - rewrite list_lookup_alter_eq in Hj. destruct (paths t !! j) as [q|] eqn:Eq; [|done]. injection Hj as <-.
    right. exists q. by injection E as -> ->.
  - rewrite list_lookup_alter_ne in Hj by done. left. apply list_elem_of_fmap. exists p. split; [done|].
    by apply list_elem_of_lookup_2 in Hj.
Qed.

Lemma PathUp_ok ident rid rt now t :
  lastTime t <= now -> NoDup (ids t) ->
  exists t', PathUp ident rid rt now t = (t', Ok ()) /\ lastTime t' = now /\ epoch t' = epoch t /\ remote t' = remote t /\
    NoDup (ids t') /\
    forall x y, (x, y) ∈ map lview (paths t') -> (x, y) ∈ map lview (paths t) \/ x = ident.
Proof.
  intros Ht Hn. unfold PathUp. rewrite checkTime_ok by done. set (u := t <| lastTime := now |>).
  destruct (find ident u) as [i|] eqn:Ef; eexists; (split; [done|]); (split; [done|]); (split; [done|]); (split; [done|]).
  - destruct (find_spec _ _ _ Ef) as (p & Hp & Ei). split.
    + unfold ids, upd. cbn [paths update]. rewrite map_fst_alter by done. exact Hn.
    + intros x y [H|(q & Hq & -> & _)]%lease_elem; [by left|]. right. congruence.
  - apply find_None in Ef. unfold seq_let.
    set (l := newLane _ _ _ _). assert (El : id l = ident) by reflexivity. clearbody l. split.
    + unfold ids, upd. cbn [paths update]. rewrite map_fst_alter by done. rewrite !map_app. cbn. rewrite El.
      apply NoDup_app. split_and!; [exact Hn| |apply NoDup_singleton].
      intros x Hx ->%list_elem_of_singleton. exact (Ef Hx).
    + intros x y H. apply lease_elem in H as [H|(q & Hq & -> & _)].
      * cbn [paths update] in H. rewrite map_app in H. apply elem_of_app in H as [H|H]; [by left|]. right.
        apply list_elem_of_singleton in H. unfold lview in H. congruence.
      * right. cbn [paths update] in Hq. rewrite lookup_app_r in Hq by done. rewrite Nat.sub_diag in Hq. cbn in Hq. congruence.
Qed.

Lemma NoDup_ids_lookup t i j p q : NoDup (ids t) -> paths t !! i = Some p -> paths t !! j = Some q -> id p = id q -> i = j.
Proof. intros Hn Hi Hj E. apply (NoDup_lookup (ids t) i j (id p) Hn); [by apply ids_lookup|rewrite E; by apply ids_lookup]. Qed.

Lemma Disable_ok ident t :
  NoDup (ids t) ->
  ids (Disable ident t) = ids t /\ lastTime (Disable ident t) = lastTime t /\ epoch (Disable ident t) = epoch t /\
  remote (Disable ident t) = remote t /\
  forall x y, (x, y) ∈ map lview (paths (Disable ident t)) -> y <> 0 -> (x, y) ∈ map lview (paths t) /\ x <> ident.
Proof.
  intros Hn. unfold Disable. destruct (find ident t) as [i|] eqn:Ef; (split; [|split_and!; try done]).
  - unfold ids, upd. cbn [paths update]. by rewrite map_fst_alter.
  - destruct (find_spec _ _ _ Ef) as (p & Hp & Ei). intros x y H Hy. split.
    + apply lease_elem in H as [H|(q & Hq & -> & ->)]; done.
    + intros ->. apply list_elem_of_fmap in H as (q & E & Hq). apply list_elem_of_lookup in Hq as [j Hj]. cbn in Hj.
      destruct (decide (i = j)) as [->|Hne].
      * rewrite list_lookup_alter_eq, Hp in Hj. injection Hj as <-. unfold lview in E. cbn in E. congruence.
      * rewrite list_lookup_alter_ne in Hj by done. apply Hne, (NoDup_ids_lookup t i j p q Hn Hp Hj). unfold lview in E. congruence.
  - done.
  - intros x y H Hy. split; [done|]. intros ->. apply (find_None _ _ Ef). unfold ids. apply list_elem_of_fmap. by exists (ident, y).
Qed.

Lemma SetRemote_lanes ep adopted t :
  let '(t', b) := SetRemote ep adopted t in
  ids t' = ids t /\ lastTime t' = lastTime t /\ epoch t' = epoch t /\
  (if b then remote t' = ep /\ forall x y, (x, y) ∈ map lview (paths t') -> y = 0 else t' = t).
Proof.
  unfold SetRemote. destruct (bool_decide _); [done|]. destruct (_ || _); [done|]. destruct (_ && _); [done|]. unfold seq_let.
  assert (R : forall p, lview (resetLane p) = (id p, 0)).
  { intros p. unfold resetLane, seq_let.
    rewrite (keeps_lview _ _ (keeps_resetControl _)), (keeps_lview _ _ (keeps_resetSamples _)), (keeps_lview _ _ (keeps_resetFeedback _)).
    reflexivity. }
  split_and!; try done.
  - unfold ids. cbn [paths update]. rewrite !map_map. apply map_ext. intros p. by rewrite R.
  - intros x y (p & E & Hp)%list_elem_of_fmap. cbn [paths update] in Hp. apply list_elem_of_fmap in Hp as (q & -> & _).
    rewrite R in E. congruence.
Qed.

End emit_ok.
