(* ===== verification/Netip.v ===== *)
(** * Addresses and their textual forms

    The parts of Go's [net/netip], [net], [strconv] and [time] the configuration
    and the endpoint code use, on byte strings: [ParseAddr], [ParseAddrPort],
    [ParsePrefix], [Prefix.Overlaps], [net.SplitHostPort], [strconv.ParseUint]
    and [time.ParseDuration].  Errors carry no text: [None] is any error. *)

From Stdlib Require Import Ascii String.
From stdpp Require Import base tactics list numbers strings.
From S2P Require Import Prelude Float64.

Module netip.
Import float64.

(** ** Byte strings *)
Definition bytes (s : string) : list Z := map (fun c => Z.of_N (N_of_ascii c)) (list_ascii_of_string s).
Definition of_bytes (l : list Z) : string :=
  string_of_list_ascii (map (fun b => ascii_of_N (Z.to_N b)) l).

Definition chr (c : ascii) : Z := Z.of_N (N_of_ascii c).
Definition is_digit (b : Z) : bool := (chr "0" <=? b) && (b <=? chr "9").

(** The index of the first, and of the last, occurrence of a byte. *)
Fixpoint index_byte (c : Z) (l : list Z) : option nat :=
  match l with
  | [] => None
  | b :: l => if b =? c then Some 0%nat else S <$> index_byte c l
  end.
Fixpoint last_index (c : Z) (l : list Z) : option nat :=
  match l with
  | [] => None
  | b :: l => match last_index c l with
              | Some i => Some (S i)
              | None => if b =? c then Some 0%nat else None
              end
  end.
Definition contains (c : Z) (l : list Z) : bool :=
  match index_byte c l with Some _ => true | None => false end.

(** ** Addresses

    No bytes for the zero value, 4 or 16 otherwise. *)
Record Addr := mkAddr { abytes : list Z; azone : list Z }.
#[export] Instance Addr_eq_dec : EqDecision Addr.
Proof. solve_decision. Defined.

Definition Addr0 : Addr := mkAddr [] [].
Definition IsValid (a : Addr) : bool := negb (length (abytes a) =? 0)%nat.
Definition Is4 (a : Addr) : bool := (length (abytes a) =? 4)%nat.
Definition Is6 (a : Addr) : bool := (length (abytes a) =? 16)%nat.
Definition Is4In6 (a : Addr) : bool :=
  (length (abytes a) =? 16)%nat &&
  bool_decide (take 12 (abytes a) = [0; 0; 0; 0; 0; 0; 0; 0; 0; 0; 255; 255]).
Definition Unmap (a : Addr) : Addr := if Is4In6 a then mkAddr (drop 12 (abytes a)) [] else a.
Definition AddrPortFrom (a : Addr) (port : Z) : AddrPort := mkAddrPort (abytes a) (azone a) port.

(** Go 1.23 and later classify a mapped address by the IPv4 one. *)
Definition IsLoopback (a : Addr) : bool :=
  let a := Unmap a in
  if Is4 a then bool_decide (take 1 (abytes a) = [127])
  else Is6 a && bool_decide (abytes a = [0; 0; 0; 0; 0; 0; 0; 0; 0; 0; 0; 0; 0; 0; 0; 1]).

Definition IsUnspecified (a : Addr) : bool :=
  bool_decide (a = mkAddr (replicate 4 0) []) || bool_decide (a = mkAddr (replicate 16 0) []).
Definition IsLinkLocalUnicast (a : Addr) : bool :=
  let a := Unmap a in
  if Is4 a then bool_decide (take 2 (abytes a) = [169; 254])
  else Is6 a && (nth 0 (abytes a) 0 =? 254) && (Z.land (nth 1 (abytes a) 0) 192 =? 128).
Definition AddrFromSlice (b : list Z) : option Addr :=
  if (length b =? 4)%nat || (length b =? 16)%nat then Some (mkAddr b []) else None.

(** ** IPv4 text

    [parseIPv4Fields]: the fields so far (last first), the value and the number
    of digits of the current one, and whether the previous byte was a dot. *)
Fixpoint ipv4_loop (fields : list Z) (val digLen : Z) (first dot : bool) (s : list Z) : option (list Z) :=
  match s with
  | [] => if (length fields <? 3)%nat then None else Some (rev (val :: fields))
  | b :: s =>
      if is_digit b then
        if (digLen =? 1) && (val =? 0) then None
        else
          let val := val * 10 + b - chr "0" in
          if 255 <? val then None else ipv4_loop fields val (digLen + 1) false false s
      else if b =? chr "." then
        if first || (length s =? 0)%nat || dot then None
        else if (length fields =? 3)%nat then None
        else ipv4_loop (val :: fields) 0 0 false true s
      else None
  end.
Definition parseIPv4Fields (s : list Z) : option (list Z) := ipv4_loop [] 0 0 true false s.

Definition parseIPv4 (s : list Z) : option Addr :=
  fields ← parseIPv4Fields s; Some (mkAddr fields []).

(** ** IPv6 text *)
Definition hex_digit (b : Z) : option Z :=
  if is_digit b then Some (b - chr "0")
  else if (chr "a" <=? b) && (b <=? chr "f") then Some (b - chr "a" + 10)
  else if (chr "A" <=? b) && (b <=? chr "F") then Some (b - chr "A" + 10)
  else None.

(** The number at the front: [None] if it has more than four digits, else its
    value, its length and the rest. *)
Fixpoint hex_group (off : nat) (acc : Z) (s : list Z) : option (nat * Z * list Z) :=
  match s with
  | [] => Some (off, acc, [])
  | b :: s' =>
      match hex_digit b with
      | None => Some (off, acc, s)
      | Some d => if (3 <? off)%nat then None else hex_group (S off) (acc * 16 + d) s'
      end
  end.

(** The loop of [parseIPv6] over the groups: [ip] holds the bytes so far, the
    result is the bytes, the place of the ellipsis and the unparsed rest.  Each
    round adds two bytes, so eight rounds suffice. *)
Fixpoint ipv6_loop (fuel : nat) (ip : list Z) (ellipsis : option nat) (s : list Z)
    : option (list Z * option nat * list Z) :=
  match fuel with
  | O => Some (ip, ellipsis, s)
  | S fuel =>
      if (16 <=? length ip)%nat then Some (ip, ellipsis, s)
      else
        match hex_group 0 0 s with
        | None => None
        | Some (off, acc, rest) =>
            if (off =? 0)%nat then None
            else
              match rest with
              | [] => Some (ip ++ [acc / 256; acc mod 256], ellipsis, [])
              | c :: rest' =>
                  if c =? chr "." then
                    if bool_decide (ellipsis = None) && negb (length ip =? 12)%nat then None
                    else if (16 <? length ip + 4)%nat then None
                    else fields ← parseIPv4Fields s; Some (ip ++ fields, ellipsis, [])
                  else
                    let ip := ip ++ [acc / 256; acc mod 256] in
                    if negb (c =? chr ":") then None
                    else
                      match rest' with
                      | [] => None
                      | c2 :: rest'' =>
                          if c2 =? chr ":" then
                            match ellipsis with
                            | Some _ => None
                            | None =>
                                match rest'' with
                                | [] => Some (ip, Some (length ip), [])
                                | _ => ipv6_loop fuel ip (Some (length ip)) rest''
                                end
                            end
                          else ipv6_loop fuel ip ellipsis rest'
                      end
              end
        end
  end.

Definition parseIPv6 (input : list Z) : option Addr :=
  let '(s, zone, badZone) :=
    match index_byte (chr "%") input with
    | Some i => (take i input, drop (S i) input, (length (drop (S i) input) =? 0)%nat)
    | None => (input, [], false)
    end in
  if badZone then None
  else
    let leading := bool_decide (take 2 s = [chr ":"; chr ":"]) in
    let s := if leading then drop 2 s else s in
    if leading && (length s =? 0)%nat then Some (mkAddr (replicate 16 0) zone)
    else
      '(ip, ellipsis, rest) ← ipv6_loop 8 [] (if leading then Some 0%nat else None) s;
      if negb (length rest =? 0)%nat then None
      else if (length ip <? 16)%nat then
        match ellipsis with
        | None => None
        | Some e => Some (mkAddr (take e ip ++ replicate (16 - length ip) 0 ++ drop e ip) zone)
        end
      else match ellipsis with Some _ => None | None => Some (mkAddr ip zone) end.

Fixpoint parseAddr_loop (s rest : list Z) : option Addr :=
  match rest with
  | [] => None
  | b :: rest =>
      if b =? chr "." then parseIPv4 s
      else if b =? chr ":" then parseIPv6 s
      else if b =? chr "%" then None
      else parseAddr_loop s rest
  end.
Definition ParseAddr (s : string) : option Addr := parseAddr_loop (bytes s) (bytes s).
Definition ParseAddrB (s : list Z) : option Addr := parseAddr_loop s s.

(** ** Numbers

    [strconv.ParseUint(s, 10, bits)]: decimal digits only, in range. *)
Fixpoint parseUint_loop (acc limit : Z) (s : list Z) : option Z :=
  match s with
  | [] => Some acc
  | b :: s =>
      if is_digit b then
        let acc := acc * 10 + (b - chr "0") in
        if limit <? acc then None else parseUint_loop acc limit s
      else None
  end.
Definition ParseUint (bits : Z) (s : list Z) : option Z :=
  match s with [] => None | _ => parseUint_loop 0 (2 ^ bits - 1) s end.

(** ** Address and port *)
Definition splitAddrPort (s : list Z) : option (list Z * list Z * bool) :=
  i ← last_index (chr ":") s;
  let ip := take i s in
  let port := drop (S i) s in
  if (length ip =? 0)%nat || (length port =? 0)%nat then None
  else if bool_decide (head ip = Some (chr "[")) then
    if (length ip <? 2)%nat || negb (bool_decide (last ip = Some (chr "]"))) then None
    else Some (take (length ip - 2) (drop 1 ip), port, true)
  else Some (ip, port, false).

Definition ParseAddrPort (s : string) : option AddrPort :=
  '(ip, port, v6) ← splitAddrPort (bytes s);
  port16 ← ParseUint 16 port;
  a ← ParseAddrB ip;
  if v6 && Is4 a then None
  else if negb v6 && Is6 a then None
  else Some (AddrPortFrom a port16).

(** ** Prefixes *)
Record Prefix := mkPrefix { paddr : Addr; Bits : Z }.
#[export] Instance Prefix_eq_dec : EqDecision Prefix.
Proof. solve_decision. Defined.

Definition ParsePrefix (s : string) : option Prefix :=
  let s := bytes s in
  i ← last_index (chr "/") s;
  ip ← ParseAddrB (take i s);
  if Is6 ip && negb (length (azone ip) =? 0)%nat then None
  else
    let bitsStr := drop (S i) s in
    if (1 <? length bitsStr)%nat &&
       negb (from_option (fun b => (chr "1" <=? b) && (b <=? chr "9")) false (head bitsStr)) then None
    else
      bits ← ParseUint 63 bitsStr;
      if (if Is6 ip then 128 else 32) <? bits then None else Some (mkPrefix ip bits).

(** The value of an address, and its leading bits. *)
Definition leading_bits (n : Z) (a : Addr) : Z :=
  be_get (abytes a) / 2 ^ (8 * Z.of_nat (length (abytes a)) - n).

(** [Prefix.Overlaps] of two prefixes that parse. *)
Definition Overlaps (p q : Prefix) : bool :=
  if bool_decide (p = q) then true
  else if negb (bool_decide (length (abytes (paddr p)) = length (abytes (paddr q)))) then false
  else
    let n := Z.min (Bits p) (Bits q) in
    leading_bits n (paddr p) =? leading_bits n (paddr q).

(** ** Host and port ([net.SplitHostPort]) *)
Definition SplitHostPort (hostport : string) : option (string * string) :=
  let s := bytes hostport in
  i ← last_index (chr ":") s;
  '(host, j, k) ←
    (if bool_decide (head s = Some (chr "[")) then
       e ← index_byte (chr "]") s;
       if (S e =? length s)%nat then None
       else if (S e =? i)%nat then Some (take (e - 1) (drop 1 s), 1%nat, S e)
       else None
     else
       let host := take i s in
       if contains (chr ":") host then None else Some (host, 0%nat, 0%nat));
  if contains (chr "[") (drop j s) then None
  else if contains (chr "]") (drop k s) then None
  else Some (of_bytes host, of_bytes (drop (S i) s)).

(** ** Durations ([time.ParseDuration])

    [leadingInt]: the digits at the front; [None] on overflow past [2^63]. *)
Fixpoint leadingInt (x : Z) (s : list Z) : option (Z * list Z) :=
  match s with
  | [] => Some (x, [])
  | b :: s' =>
      if is_digit b then
        if 2 ^ 63 / 10 <? x then None
        else
          let x := x * 10 + (b - chr "0") in
          if 2 ^ 63 <? x then None else leadingInt x s'
      else Some (x, s)
  end.

(** [leadingFraction]: the digits as a numerator over [scale], those that do not
    fit dropped. *)
Fixpoint leadingFraction (x : Z) (scale : float) (overflow : bool) (s : list Z)
    : Z * float * list Z :=
  match s with
  | [] => (x, scale, [])
  | b :: s' =>
      if is_digit b then
        if overflow then leadingFraction x scale true s'
        else if (2 ^ 63 - 1) / 10 <? x then leadingFraction x scale true s'
        else
          let y := x * 10 + (b - chr "0") in
          if 2 ^ 63 <? y then leadingFraction x scale true s'
          else leadingFraction y (fmul scale (fofZ 10)) false s'
      else (x, scale, s)
  end.

Definition unitMap (u : list Z) : option Z :=
  if bool_decide (u = bytes "ns") then Some 1
  else if bool_decide (u = bytes "us") || bool_decide (u = [194; 181; 115]) ||
          bool_decide (u = [206; 188; 115]) then Some 1000
  else if bool_decide (u = bytes "ms") then Some millisecond
  else if bool_decide (u = bytes "s") then Some second
  else if bool_decide (u = bytes "m") then Some (60 * second)
  else if bool_decide (u = bytes "h") then Some (3600 * second)
  else None.

(** The unit at the front: everything up to a digit or a dot. *)
Fixpoint leadingUnit (s : list Z) : list Z * list Z :=
  match s with
  | [] => ([], [])
  | b :: s' => if (b =? chr ".") || is_digit b then ([], s)
               else let '(u, r) := leadingUnit s' in (b :: u, r)
  end.

(** One round of the loop: a number, a fraction, a unit. *)
Definition duration_term (s : list Z) : option (Z * list Z) :=
  if negb (from_option (fun b => (b =? chr ".") || is_digit b) false (head s)) then None
  else
    '(v, s1) ← leadingInt 0 s;
    let pre := negb (length s =? length s1)%nat in
    let '(f, scale, s2, post) :=
      if bool_decide (head s1 = Some (chr ".")) then
        let s1 := drop 1 s1 in
        let '(f, scale, s2) := leadingFraction 0 (fofZ 1) false s1 in
        (f, scale, s2, negb (length s1 =? length s2)%nat)
      else (0, fofZ 1, s1, false) in
    if negb pre && negb post then None
    else
      let '(u, rest) := leadingUnit s2 in
      if (length u =? 0)%nat then None
      else
        unit ← unitMap u;
        if 2 ^ 63 / unit <? v then None
        else
          let v := v * unit in
          let v := if 0 <? f then v + toI64 (fmul (fofZ f) (fdiv (fofZ unit) scale)) else v in
          if 2 ^ 63 <? v then None else Some (v, rest).

(** Every round consumes a byte, so the length of the text is enough fuel. *)
Fixpoint duration_loop (fuel : nat) (d : Z) (s : list Z) : option Z :=
  match s with
  | [] => Some d
  | _ =>
      match fuel with
      | O => None
      | S fuel =>
          '(v, rest) ← duration_term s;
          let d := u64 (d + v) in
          if 2 ^ 63 <? d then None else duration_loop fuel d rest
      end
  end.

Definition ParseDuration (str : string) : option Duration :=
  let s := bytes str in
  let signed := bool_decide (head s = Some (chr "-")) || bool_decide (head s = Some (chr "+")) in
  let neg := bool_decide (head s = Some (chr "-")) in
  let s := if signed then drop 1 s else s in
  if bool_decide (s = [chr "0"]) then Some 0
  else if (length s =? 0)%nat then None
  else
    d ← duration_loop (length s) 0 s;
    if neg then Some (- d)
    else if 2 ^ 63 - 1 <? d then None else Some d.

#[global] Arguments ParseAddr _ : simpl never.
#[global] Arguments ParseAddrPort _ : simpl never.
#[global] Arguments ParsePrefix _ : simpl never.
#[global] Arguments SplitHostPort _ : simpl never.
#[global] Arguments ParseDuration _ : simpl never.

End netip.
