(* ===== verification/Config.v ===== *)
(** * Configuration ([internal/config], [internal/netutil])

    The configuration as the TOML decoder leaves it, its normalisation (raw
    strings parsed, defaults applied) and its validation, check by check in the
    order of the code.  An error is a value of [cfgError]; its text is not
    modelled.  [net.LookupIP] and [url.Parse] are arguments. *)

From Stdlib Require Import Ascii String.
From stdpp Require Import base tactics list numbers strings.
From S2P Require Import Prelude Netip.

Module endpoint.
(** ** Endpoint entries *)
Record EndpointSpec := mkEndpointSpec {
  Host : string;
  Port : Z;
  Addr : AddrPort;
  IsName : bool
}.
End endpoint.

Module config.
Import netip.
Export endpoint.

(** ** The configuration *)
Definition RoleEdge : string := "edge".
Definition RoleConcentrator : string := "concentrator".
Definition roleValid (r : string) : bool := bool_decide (r = RoleEdge) || bool_decide (r = RoleConcentrator).

Definition keyLen : Z := 32.
Record Key := mkKey { kbytes : list Z; kset : bool }.
#[export] Instance Key_eq_dec : EqDecision Key.
Proof. solve_decision. Defined.
Definition IsSet (k : Key) : bool := kset k.

Definition BindModeSource : string := "source".
Definition BindModeDevice : string := "device".
Definition BindModeAuto : string := "auto".
Definition bindValid (b : string) : bool :=
  bool_decide (b = BindModeSource) || bool_decide (b = BindModeDevice) || bool_decide (b = BindModeAuto).

Definition PolicyAdaptive : string := "adaptive".
Record SchedulerConfig := mkSchedulerConfig { Policy : string }.

Definition outerPathOverheadBytes : Z := 161.
Definition minPathMTU : Z := 1280.
Definition maxPathMTU : Z := 9000.
Definition minInnerMTU : Z := 576.

Record Path := mkPath {
  pathName : string;
  SourceAddr : netip.Addr;
  SourceAddrRaw : string;
  DestAddr : AddrPort;
  DestAddrRaw : string;
  pathBind : string;
  MTU : Z;
  RideThrough : Duration;
  RideThroughRaw : string
}.
#[export] Instance eta_Path : Eta Path := fun p =>
  mkPath (pathName p) (SourceAddr p) (SourceAddrRaw p) (DestAddr p) (DestAddrRaw p) (pathBind p)
    (MTU p) (RideThrough p) (RideThroughRaw p).

Definition PeerModeDefaultRoute : string := "default-route".
Definition modeValid (m : string) : bool :=
  bool_decide (m = EmptyString) || bool_decide (m = PeerModeDefaultRoute).

Record Peer := mkPeer {
  PublicKey : Key;
  Endpoint : string;
  EndpointsRaw : list string;
  Endpoints : list AddrPort;
  peerDNS : bool;
  EndpointSpecs : list EndpointSpec;
  AllowedIPs : list string;
  Mode : string;
  peerPSK : Key;
  peerName : string
}.
#[export] Instance eta_Peer : Eta Peer := fun p =>
  mkPeer (PublicKey p) (Endpoint p) (EndpointsRaw p) (Endpoints p) (peerDNS p) (EndpointSpecs p)
    (AllowedIPs p) (Mode p) (peerPSK p) (peerName p).

Record WireGuard := mkWireGuard { PrivateKey : Key; Peers : list Peer; ListenPort : Z }.
#[export] Instance eta_WireGuard : Eta WireGuard := fun w =>
  mkWireGuard (PrivateKey w) (Peers w) (ListenPort w).

Record Amnezia := mkAmnezia {
  Jc : Z; Jmin : Z; Jmax : Z; S1 : Z; S2 : Z; H1 : Z; H2 : Z; H3 : Z; H4 : Z
}.
#[export] Instance eta_Amnezia : Eta Amnezia := fun a =>
  mkAmnezia (Jc a) (Jmin a) (Jmax a) (S1 a) (S2 a) (H1 a) (H2 a) (H3 a) (H4 a).

Record Monitor := mkMonitor {
  monListen : string; Token : string; AllowedHosts : list string; RevealAddressing : bool
}.

Record DNS := mkDNS {
  dnsResolver : string;
  DoHURL : string;
  DoTServer : string;
  BootstrapIP : string;
  PollInterval : Duration;
  PollIntervalRaw : string;
  dnsTimeout : Duration;
  TimeoutRaw : string
}.
#[export] Instance eta_DNS : Eta DNS := fun d =>
  mkDNS (dnsResolver d) (DoHURL d) (DoTServer d) (BootstrapIP d) (PollInterval d) (PollIntervalRaw d)
    (dnsTimeout d) (TimeoutRaw d).

Record Liveness := mkLiveness { DownAfter : Duration; DownAfterRaw : string }.

Record Config := mkConfig {
  Role : string;
  Exit : string;
  Paths : list Path;
  wireGuard : WireGuard;
  amnezia : Amnezia;
  PSK : Key;
  metricsListen : string;
  monitor : Monitor;
  logLevel : string;
  scheduler : SchedulerConfig;
  dns : DNS;
  liveness : Liveness;
  Bind : string;
  TUNPersist : bool;
  LivenessBudgetSane : option bool
}.
#[export] Instance eta_Config : Eta Config := fun c =>
  mkConfig (Role c) (Exit c) (Paths c) (wireGuard c) (amnezia c) (PSK c) (metricsListen c) (monitor c)
    (logLevel c) (scheduler c) (dns c) (liveness c) (Bind c) (TUNPersist c) (LivenessBudgetSane c).

Definition peers (c : Config) : list Peer := Peers (wireGuard c).

(** ** Errors, in the order the code can report them *)
Inductive cfgError :=
  (* normalize *)
  | ErrSourceAddr (path : string) | ErrDestAddr (path : string) | ErrRideThrough (path : string)
  | ErrEndpointForms | ErrDuplicateEndpoint (s : string) | ErrEndpoint (s : string)
  | ErrEndpointNeedsDNS (s : string) | ErrEndpointPort (s : string) | ErrHostname (s : string)
  | ErrPollInterval | ErrTimeout | ErrDownAfter
  (* validate *)
  | ErrRole | ErrNoPath | ErrBind | ErrPathName (i : Z) | ErrDuplicatePath (path : string)
  | ErrNoSource (path : string) | ErrSharedSource (prev path : string) | ErrPathBind (path : string)
  | ErrPathMTU (path : string) | ErrInnerMTU (path : string) | ErrNegativeRide (path : string)
  | ErrNoPrivateKey | ErrNoPeer
  | ErrNoPublicKey (i : Z) | ErrNoEndpoint (i : Z) | ErrConcEndpoint (i : Z) | ErrConcDNS (i : Z)
  | ErrMode (i : Z) | ErrConcMode (i : Z) | ErrAllowedIP (i : Z) (s : string)
  | ErrDupDefault4 (i : Z) | ErrDupDefault6 (i : Z)
  | ErrFanout | ErrDefaultOnNonExit (i : Z) | ErrExitMask (i j : Z) | ErrExitOnlyDefault (i : Z)
  | ErrOverlap (i j : Z) | ErrSharedEndpoint (i j : Z) | ErrSharedDefault4 (i j : Z) | ErrSharedDefault6 (i j : Z)
  | ErrExitRole | ErrReservedName (i : Z) | ErrExitUnknown (s : string)
  | ErrSinglePSK | ErrPeerName (i : Z) | ErrSharedName (i j : Z) | ErrPeerPSK (i : Z) | ErrSharedPSK (i j : Z)
  | ErrListenPort | ErrNoPSK
  | ErrAmneziaIncomplete | ErrAmneziaJunk | ErrAmneziaCollide | ErrAmneziaHeaders | ErrPolicy
  | ErrResolverMode | ErrPollPositive | ErrTimeoutPositive | ErrStrayDoH | ErrStrayDoT | ErrStrayBootstrap
  | ErrNoDoH | ErrNoDoT | ErrDoHURL | ErrDoTServer | ErrBootstrapLiteral | ErrNoBootstrap | ErrBootstrapIP
  | ErrDownPositive | ErrDownFloor
  | ErrAllowedHost (s : string) | ErrListen | ErrMonitorNonLoopbackWithoutAuth.

Abbreviation checked := (outcome cfgError).

(** [fail_if b with e ;; k]: the early return [if b { return e }]. *)
Definition reject {A} (b : bool) (e : cfgError) (k : checked A) : checked A := if b then Err e else k.
Notation "'fail_if' b 'with' e ';;' k" := (reject b e k)
  (at level 100, b at level 99, e at level 99, k at level 200, right associativity,
   format "'fail_if'  b  'with'  e  ';;' '//' k").
Definition or_else {A} (o : option A) (e : cfgError) : checked A :=
  match o with Some a => Ok a | None => Err e end.
Definition nonempty (s : string) : bool := negb (bool_decide (s = EmptyString)).

(** ** Endpoints of a peer *)
Fixpoint split_on (c : Z) (l : list Z) : list (list Z) :=
  match l with
  | [] => [[]]
  | b :: l => if b =? c then [] :: split_on c l
              else match split_on c l with w :: ws => (b :: w) :: ws | [] => [[b]] end
  end.

(** A byte of a multi-byte rune is no letter, digit or hyphen. *)
Definition label_char (b : Z) : bool :=
  ((chr "a" <=? b) && (b <=? chr "z")) || ((chr "A" <=? b) && (b <=? chr "Z")) || is_digit b ||
  (b =? chr "-").
Definition label_ok (l : list Z) : bool :=
  negb ((length l =? 0)%nat || (63 <? length l)%nat) &&
  negb (bool_decide (head l = Some (chr "-")) || bool_decide (last l = Some (chr "-"))) &&
  forallb label_char l.
(** [true] is a nil error. *)
Definition validateHostname (host : string) : bool :=
  let h := bytes host in
  negb ((length h =? 0)%nat || (253 <? length h)%nat) && forallb label_ok (split_on (chr ".") h).

Fixpoint resolve_loop (dns : bool) (seen : list AddrPort) (seenNames : list string)
    (endpoints : list AddrPort) (specs : list EndpointSpec) (raw : list string)
    : checked (list AddrPort * list EndpointSpec) :=
  match raw with
  | [] => Ok (endpoints, specs)
  | s :: raw =>
      match ParseAddrPort s with
      | Some ap =>
          fail_if bool_decide (ap ∈ seen) with ErrDuplicateEndpoint s ;;
          resolve_loop dns (ap :: seen) seenNames (endpoints ++ [ap])
            (specs ++ [mkEndpointSpec EmptyString 0 ap false]) raw
      | None =>
          match SplitHostPort s with
          | None => Err (ErrEndpoint s)
          | Some (host, portStr) =>
              fail_if (match ParseAddr host with Some _ => true | None => false end) with ErrEndpoint s ;;
              fail_if negb dns with ErrEndpointNeedsDNS s ;;
              match ParseUint 16 (bytes portStr) with
              | None => Err (ErrEndpointPort s)
              | Some port =>
                  fail_if (port =? 0) with ErrEndpointPort s ;;
                  fail_if negb (validateHostname host) with ErrHostname s ;;
                  let nameKey := (host ++ ":" ++ portStr)%string in
                  fail_if bool_decide (nameKey ∈ seenNames) with ErrDuplicateEndpoint s ;;
                  resolve_loop dns seen (nameKey :: seenNames) endpoints
                    (specs ++ [mkEndpointSpec host port AddrPort0 true]) raw
              end
          end
      end
  end.

Definition resolveEndpoints (p : Peer) : checked Peer :=
  fail_if nonempty (Endpoint p) && negb (length (EndpointsRaw p) =? 0)%nat with ErrEndpointForms ;;
  let raw := if nonempty (Endpoint p) then [Endpoint p] else EndpointsRaw p in
  '(endpoints, specs) ← resolve_loop (peerDNS p) [] [] [] [] raw;
  Ok (p <| Endpoints := endpoints |> <| EndpointSpecs := specs |>).

(** ** Peer identities *)
Definition hex_char (d : Z) : ascii := ascii_of_N (Z.to_N (if d <? 10 then d + 48 else d + 87)).
Fixpoint hex (l : list Z) : string :=
  match l with
  | [] => EmptyString
  | b :: l => String (hex_char (b / 16)) (String (hex_char (b mod 16)) (hex l))
  end.

Record PeerIdentity := mkPeerIdentity { idPSK : Key; idName : string }.
Definition PeerIdentities (c : Config) : list PeerIdentity :=
  map (fun p =>
    mkPeerIdentity (if (length (peers c) =? 1)%nat then PSK c else peerPSK p)
      (if bool_decide (peerName p = EmptyString) then hex (take 8 (kbytes (PublicKey p))) else peerName p))
    (peers c).

(** ** Obfuscation *)
Definition Configured (a : Amnezia) : bool :=
  negb (Jc a =? 0) || negb (Jmin a =? 0) || negb (Jmax a =? 0) || negb (S1 a =? 0) || negb (S2 a =? 0) ||
  negb (H1 a =? 0) || negb (H2 a =? 0) || negb (H3 a =? 0) || negb (H4 a =? 0).

Definition MaxJunkPrefix (a : Amnezia) : Z :=
  let m := S1 a in
  let m := if m <? S2 a then S2 a else m in
  if m <? 0 then 0 else m.

Definition amneziaDefaults (a : Amnezia) : Amnezia :=
  if negb (Configured a) then a
  else if (H1 a =? 0) && (H2 a =? 0) && (H3 a =? 0) && (H4 a =? 0)
  then a <| H1 := 1 |> <| H2 := 2 |> <| H3 := 3 |> <| H4 := 4 |>
  else a.

(** The engine's constants. *)
Definition MessageInitiationSize : Z := 148.
Definition MessageResponseSize : Z := 92.

Definition amneziaValidate (a : Amnezia) : checked unit :=
  if negb (Configured a) then Ok tt
  else
    fail_if (Jc a <=? 0) || (Jmin a <=? 0) || (Jmax a <=? 0) || (S1 a <=? 0) || (S2 a <=? 0)
      with ErrAmneziaIncomplete ;;
    fail_if (Jmax a <? Jmin a) with ErrAmneziaJunk ;;
    fail_if (MessageInitiationSize + S1 a =? MessageResponseSize + S2 a) with ErrAmneziaCollide ;;
    fail_if (negb (H1 a =? 0) || negb (H2 a =? 0) || negb (H3 a =? 0) || negb (H4 a =? 0)) &&
            ((H1 a =? H2 a) || (H1 a =? H3 a) || (H1 a =? H4 a) || (H2 a =? H3 a) || (H2 a =? H4 a) ||
             (H3 a =? H4 a))
      with ErrAmneziaHeaders ;;
    Ok tt.

(** ** Scheduler *)
Definition schedulerDefaults (s : SchedulerConfig) : SchedulerConfig :=
  if bool_decide (Policy s = EmptyString) then mkSchedulerConfig PolicyAdaptive else s.
Definition schedulerValidate (s : SchedulerConfig) : checked unit :=
  fail_if negb (bool_decide (Policy s = PolicyAdaptive)) with ErrPolicy ;; Ok tt.

(** ** Resolver *)
Definition DNSResolverSystem : string := "system".
Definition DNSResolverDoH : string := "doh".
Definition DNSResolverDoT : string := "dot".
Definition resolverValid (m : string) : bool :=
  bool_decide (m = DNSResolverSystem) || bool_decide (m = DNSResolverDoH) || bool_decide (m = DNSResolverDoT).
Definition defaultDNSPollInterval : Duration := 30 * second.
Definition defaultDNSTimeout : Duration := 5 * second.
Definition dotDefaultPort : string := "853".

Definition duration_or (raw : string) (dflt : Duration) (e : cfgError) : checked Duration :=
  if bool_decide (raw = EmptyString) then Ok dflt else or_else (ParseDuration raw) e.

Definition dnsDefaults (d : DNS) : checked DNS :=
  let d := if bool_decide (dnsResolver d = EmptyString) then d <| dnsResolver := DNSResolverSystem |> else d in
  p ← duration_or (PollIntervalRaw d) defaultDNSPollInterval ErrPollInterval;
  t ← duration_or (TimeoutRaw d) defaultDNSTimeout ErrTimeout;
  Ok (d <| PollInterval := p |> <| dnsTimeout := t |>).

Definition requireBootstrapForHost (host : string) (d : DNS) : checked unit :=
  match ParseAddr host with
  | Some _ => fail_if nonempty (BootstrapIP d) with ErrBootstrapLiteral ;; Ok tt
  | None =>
      fail_if bool_decide (BootstrapIP d = EmptyString) with ErrNoBootstrap ;;
      match ParseAddr (BootstrapIP d) with Some _ => Ok tt | None => Err ErrBootstrapIP end
  end.

Definition dotServerHost (raw : string) : option string :=
  if bool_decide (raw = EmptyString) then None
  else match ParseAddr raw with
       | Some _ => Some raw
       | None =>
           if negb (contains (chr ":") (bytes raw)) then Some raw
           else '(host, port) ← SplitHostPort raw;
                if bool_decide (port = dotDefaultPort) then Some host else None
       end.

(** ** Liveness *)
Definition defaultLivenessDownAfter : Duration := 1200 * millisecond.
Definition livenessProbeInterval : Duration := 200 * millisecond.
Definition minLivenessDownAfter : Duration := 2 * livenessProbeInterval.
Definition livenessRecoveryBudget : Duration := 3 * second.
Definition livenessFailoverBudget (downAfter rideThrough probeInterval : Duration) : Duration :=
  i64 (downAfter + rideThrough + 2 * probeInterval).

Definition livenessDefaults (l : Liveness) : checked Liveness :=
  d ← duration_or (DownAfterRaw l) defaultLivenessDownAfter ErrDownAfter;
  Ok (mkLiveness d (DownAfterRaw l)).

Definition livenessValidate (l : Liveness) : checked unit :=
  fail_if DownAfter l <=? 0 with ErrDownPositive ;;
  fail_if DownAfter l <? minLivenessDownAfter with ErrDownFloor ;;
  Ok tt.

Definition livenessBudgetSane (c : Config) : bool :=
  let maxRide := fold_left (fun m p => if m <? RideThrough p then RideThrough p else m) (Paths c) 0 in
  livenessFailoverBudget (DownAfter (liveness c)) maxRide livenessProbeInterval <=? livenessRecoveryBudget.

(** ** Normalisation *)
Definition normalizePath (dflt : string) (p : Path) : checked Path :=
  let p := if bool_decide (pathBind p = EmptyString) then p <| pathBind := dflt |> else p in
  src ← (if nonempty (SourceAddrRaw p)
         then or_else (ParseAddr (SourceAddrRaw p)) (ErrSourceAddr (pathName p)) else Ok (SourceAddr p));
  dst ← (if nonempty (DestAddrRaw p)
         then or_else (ParseAddrPort (DestAddrRaw p)) (ErrDestAddr (pathName p)) else Ok (DestAddr p));
  rt ← (if nonempty (RideThroughRaw p)
        then or_else (ParseDuration (RideThroughRaw p)) (ErrRideThrough (pathName p)) else Ok (RideThrough p));
  Ok (p <| SourceAddr := src |> <| DestAddr := dst |> <| RideThrough := rt |>).

(** A loop that may return early, over the elements in order. *)
Fixpoint each {A B} (f : A -> checked B) (l : list A) : checked (list B) :=
  match l with
  | [] => Ok []
  | x :: l => y ← f x; ys ← each f l; Ok (y :: ys)
  end.

Definition normalizeDefaults (c : Config) : Config :=
  let c := if bool_decide (Exit c = EmptyString) && bool_decide (Role c = RoleEdge)
           then c <| Exit := "auto"%string |> else c in
  if bool_decide (Bind c = EmptyString) then c <| Bind := BindModeAuto |> else c.

Definition normalize (c : Config) : checked Config :=
  let* c := normalizeDefaults c in
  ps ← each (normalizePath (Bind c)) (Paths c);
  let c := c <| Paths := ps |> in
  prs ← each resolveEndpoints (peers c);
  let c := c <| wireGuard := (wireGuard c) <| Peers := prs |> |> in
  let c := c <| amnezia := amneziaDefaults (amnezia c) |>
             <| scheduler := schedulerDefaults (scheduler c) |> in
  d ← dnsDefaults (dns c);
  let c := c <| dns := d |> in
  l ← livenessDefaults (liveness c);
  let c := c <| liveness := l |> in
  Ok (c <| LivenessBudgetSane := Some (livenessBudgetSane c) |>).
#[global] Arguments duration_or _ _ _ : simpl never.
#[global] Arguments dnsDefaults _ : simpl never.
#[global] Arguments livenessDefaults _ : simpl never.
#[global] Arguments amneziaDefaults _ : simpl never.
#[global] Arguments schedulerDefaults _ : simpl never.
#[global] Arguments livenessBudgetSane _ : simpl never.
#[global] Arguments normalizePath _ _ : simpl never.
#[global] Arguments resolveEndpoints _ : simpl never.

(** ** Validation *)
Fixpoint validatePaths (i : Z) (seen : list string) (seenSrc : list (netip.Addr * string)) (ps : list Path)
    : checked unit :=
  match ps with
  | [] => Ok tt
  | p :: ps =>
      fail_if bool_decide (pathName p = EmptyString) with ErrPathName i ;;
      fail_if bool_decide (pathName p ∈ seen) with ErrDuplicatePath (pathName p) ;;
      fail_if negb (IsValid (SourceAddr p)) with ErrNoSource (pathName p) ;;
      let src := Unmap (SourceAddr p) in
      match List.find (fun e => bool_decide (fst e = src)) seenSrc with
      | Some (_, prev) => Err (ErrSharedSource prev (pathName p))
      | None =>
          fail_if negb (bindValid (pathBind p)) with ErrPathBind (pathName p) ;;
          fail_if negb (MTU p =? 0) && ((MTU p <? minPathMTU) || (maxPathMTU <? MTU p))
            with ErrPathMTU (pathName p) ;;
          fail_if negb (MTU p =? 0) && (MTU p - outerPathOverheadBytes <? minInnerMTU)
            with ErrInnerMTU (pathName p) ;;
          fail_if RideThrough p <? 0 with ErrNegativeRide (pathName p) ;;
          validatePaths (i + 1) (pathName p :: seen) ((src, pathName p) :: seenSrc) ps
      end
  end.

(** The allowed_ips of a peer, parsed. *)
Fixpoint parseAllowed (i : Z) (v4Seen v6Seen : bool) (l : list string) : checked (list Prefix) :=
  match l with
  | [] => Ok []
  | raw :: l =>
      p ← or_else (ParsePrefix raw) (ErrAllowedIP i raw);
      if Bits p =? 0 then
        if Is4 (paddr p) then
          fail_if v4Seen with ErrDupDefault4 i ;;
          ps ← parseAllowed i true v6Seen l; Ok (p :: ps)
        else
          fail_if v6Seen with ErrDupDefault6 i ;;
          ps ← parseAllowed i v4Seen true l; Ok (p :: ps)
      else ps ← parseAllowed i v4Seen v6Seen l; Ok (p :: ps)
  end.

Definition validatePeer (role : string) (i : Z) (p : Peer) : checked (list Prefix) :=
  let edge := bool_decide (role = RoleEdge) in
  let conc := bool_decide (role = RoleConcentrator) in
  fail_if negb (IsSet (PublicKey p)) with ErrNoPublicKey i ;;
  fail_if edge && (length (EndpointSpecs p) =? 0)%nat with ErrNoEndpoint i ;;
  fail_if conc && negb (length (EndpointSpecs p) =? 0)%nat with ErrConcEndpoint i ;;
  fail_if conc && peerDNS p with ErrConcDNS i ;;
  fail_if negb (modeValid (Mode p)) with ErrMode i ;;
  fail_if conc && bool_decide (Mode p = PeerModeDefaultRoute) with ErrConcMode i ;;
  parseAllowed i false false (AllowedIPs p).

Fixpoint validatePeers (role : string) (i : Z) (ps : list Peer) : checked (list (list Prefix)) :=
  match ps with
  | [] => Ok []
  | p :: ps => x ← validatePeer role i p; xs ← validatePeers role (i + 1) ps; Ok (x :: xs)
  end.

(** *** Several peers of an edge *)
Definition maxProbeFanout : Z := 32.

Record defaultRouteMask := mkMask { m4 : bool; m6 : bool }.
#[export] Instance eta_mask : Eta defaultRouteMask := fun m => mkMask (m4 m) (m6 m).
#[export] Instance mask_eq_dec : EqDecision defaultRouteMask.
Proof. solve_decision. Defined.
Definition defaultRouteMaskOf (ps : list Prefix) : defaultRouteMask :=
  fold_left (fun m p => if negb (Bits p =? 0) then m
                        else if Is4 (paddr p) then m <| m4 := true |> else m <| m6 := true |>)
    ps (mkMask false false).
Definition hasNonDefaultAllowedIP (ps : list Prefix) : bool := existsb (fun p => negb (Bits p =? 0)) ps.

Definition isExit (p : Peer) : bool := bool_decide (Mode p = PeerModeDefaultRoute).

(** The exit-capable peers, or a default route on another one. *)
Fixpoint collectExits (i : Z) (ps : list (Peer * list Prefix)) : checked (list (Z * list Prefix)) :=
  match ps with
  | [] => Ok []
  | (p, pre) :: ps =>
      fail_if existsb (fun x => Bits x =? 0) pre && negb (isExit p) with ErrDefaultOnNonExit i ;;
      rest ← collectExits (i + 1) ps;
      Ok (if isExit p then (i, pre) :: rest else rest)
  end.

Fixpoint exitAlternates (first : Z) (mask : defaultRouteMask) (es : list (Z * list Prefix)) : checked unit :=
  match es with
  | [] => Ok tt
  | (i, pre) :: es =>
      fail_if negb (bool_decide (defaultRouteMaskOf pre = mask)) with ErrExitMask first i ;;
      fail_if negb (hasNonDefaultAllowedIP pre) with ErrExitOnlyDefault i ;;
      exitAlternates first mask es
  end.

(** Non-default ranges must not overlap across peers. *)
Fixpoint overlapIn (pa : Prefix) (b : Z) (rest : list (list Prefix)) : option Z :=
  match rest with
  | [] => None
  | pbs :: rest =>
      if existsb (fun pb => negb (Bits pb =? 0) && Overlaps pa pb) pbs then Some b
      else overlapIn pa (b + 1) rest
  end.
Fixpoint overlapOf (a : Z) (pas : list Prefix) (rest : list (list Prefix)) : checked unit :=
  match pas with
  | [] => Ok tt
  | pa :: pas =>
      if Bits pa =? 0 then overlapOf a pas rest
      else match overlapIn pa (a + 1) rest with
           | Some b => Err (ErrOverlap a b)
           | None => overlapOf a pas rest
           end
  end.
Fixpoint overlaps (a : Z) (pres : list (list Prefix)) : checked unit :=
  match pres with
  | [] => Ok tt
  | pas :: rest => _ ← overlapOf a pas rest; overlaps (a + 1) rest
  end.

(** A literal endpoint belongs to one peer. *)
Fixpoint seenSpecs (i : Z) (seen : list (AddrPort * Z)) (ss : list EndpointSpec) : checked (list (AddrPort * Z)) :=
  match ss with
  | [] => Ok seen
  | s :: ss =>
      if IsName s then seenSpecs i seen ss
      else match List.find (fun e => bool_decide (fst e = endpoint.Addr s)) seen with
           | Some (_, prev) => Err (ErrSharedEndpoint prev i)
           | None => seenSpecs i ((endpoint.Addr s, i) :: seen) ss
           end
  end.
Fixpoint distinctEndpoints (i : Z) (seen : list (AddrPort * Z)) (ps : list Peer) : checked unit :=
  match ps with
  | [] => Ok tt
  | p :: ps => seen ← seenSpecs i seen (EndpointSpecs p); distinctEndpoints (i + 1) seen ps
  end.

Definition validateEdgePeerSet (c : Config) (pres : list (list Prefix)) : checked unit :=
  fail_if maxProbeFanout <? Z.of_nat (length (peers c)) * Z.of_nat (length (Paths c)) with ErrFanout ;;
  if (length (peers c) =? 1)%nat then Ok tt
  else
    exits ← collectExits 0 (zip (peers c) pres);
    _ ← match exits with
        | (first, pre) :: _ :: _ => exitAlternates first (defaultRouteMaskOf pre) exits
        | _ => Ok tt
        end;
    _ ← overlaps 0 pres;
    distinctEndpoints 0 [] (peers c).

(** *** The concentrator: at most one default route per family *)
Fixpoint concDefaults1 (i : Z) (d4 d6 : Z) (pre : list Prefix) : checked (Z * Z) :=
  match pre with
  | [] => Ok (d4, d6)
  | p :: pre =>
      if negb (Bits p =? 0) then concDefaults1 i d4 d6 pre
      else if Is4 (paddr p) then
        fail_if negb (d4 =? -1) with ErrSharedDefault4 d4 i ;; concDefaults1 i i d6 pre
      else
        fail_if negb (d6 =? -1) with ErrSharedDefault6 d6 i ;; concDefaults1 i d4 i pre
  end.
Fixpoint concDefaults (i : Z) (d4 d6 : Z) (pres : list (list Prefix)) : checked unit :=
  match pres with
  | [] => Ok tt
  | pre :: pres => '(d4, d6) ← concDefaults1 i d4 d6 pre; concDefaults (i + 1) d4 d6 pres
  end.
Definition validateConcentratorDefaultRoutes (pres : list (list Prefix)) : checked unit :=
  concDefaults 0 (-1) (-1) pres.

(** *** Names and keys of several peers *)
Fixpoint reservedNames (i : Z) (ps : list Peer) : checked unit :=
  match ps with
  | [] => Ok tt
  | p :: ps =>
      fail_if isExit p && bool_decide (peerName p = "auto"%string) with ErrReservedName i ;;
      reservedNames (i + 1) ps
  end.

Fixpoint distinctPeers (i : Z) (names : list (string * Z)) (psks : list (list Z * Z)) (ps : list Peer)
    : checked unit :=
  match ps with
  | [] => Ok tt
  | p :: ps =>
      fail_if bool_decide (peerName p = EmptyString) with ErrPeerName i ;;
      match List.find (fun e => bool_decide (fst e = peerName p)) names with
      | Some (_, prev) => Err (ErrSharedName prev i)
      | None =>
          fail_if negb (IsSet (peerPSK p)) with ErrPeerPSK i ;;
          match List.find (fun e => bool_decide (fst e = kbytes (peerPSK p))) psks with
          | Some (_, prev) => Err (ErrSharedPSK prev i)
          | None => distinctPeers (i + 1) ((peerName p, i) :: names) ((kbytes (peerPSK p), i) :: psks) ps
          end
      end
  end.

Definition peerKeys (c : Config) : checked unit :=
  match peers c with
  | [p] => fail_if IsSet (peerPSK p) with ErrSinglePSK ;; Ok tt
  | ps => distinctPeers 0 [] [] ps
  end.

(** *** The monitor *)

(** [strings.TrimSpace(s) == s]: neither end is one of Unicode's spaces. *)
Definition spaces : list (list Z) :=
  [[9]; [10]; [11]; [12]; [13]; [32]; [194; 133]; [194; 160]; [225; 154; 128];
   [226; 128; 168]; [226; 128; 169]; [226; 128; 175]; [226; 129; 159]; [227; 128; 128]] ++
  map (fun k => [226; 128; 128 + k]) (seqZ 0 11).
Definition trimmed (s : list Z) : bool :=
  negb (existsb (fun w => bool_decide (take (length w) s = w) ||
                          bool_decide (drop (length s - length w) s = w)) spaces).

Section External.
Context (LookupIP : string -> option (list netip.Addr)) (urlParse : string -> option (string * string)).

Definition IsLoopbackHost (addr : string) : option bool :=
  '(host, _) ← SplitHostPort addr;
  if bool_decide (host = EmptyString) then Some false
  else match ParseAddr host with
       | Some ip => Some (IsLoopback ip)
       | None =>
           ips ← LookupIP host;
           if (length ips =? 0)%nat then None else Some (forallb IsLoopback ips)
       end.

Definition monitorValidate (m : Monitor) : checked unit :=
  _ ← each (fun host =>
        fail_if bool_decide (host = EmptyString) || negb (trimmed (bytes host)) ||
                existsb (fun b => (b =? chr "/") || (b =? chr ":") || (b =? chr "@")) (bytes host)
          with ErrAllowedHost host ;; Ok tt) (AllowedHosts m);
  if bool_decide (monListen m = EmptyString) then Ok tt
  else
    loopback ← or_else (IsLoopbackHost (monListen m)) ErrListen;
    fail_if negb loopback && bool_decide (Token m = EmptyString) with ErrMonitorNonLoopbackWithoutAuth ;;
    Ok tt.

(** [urlParse] gives the scheme and the host name of a well-formed URL. *)
Definition dohURLHost (rawURL : string) : option string :=
  '(scheme, host) ← urlParse rawURL;
  if bool_decide (scheme = "https"%string) && nonempty host then Some host else None.

Definition dnsValidate (d : DNS) : checked unit :=
  fail_if negb (resolverValid (dnsResolver d)) with ErrResolverMode ;;
  fail_if PollInterval d <=? 0 with ErrPollPositive ;;
  fail_if dnsTimeout d <=? 0 with ErrTimeoutPositive ;;
  if bool_decide (dnsResolver d = DNSResolverSystem) then
    fail_if nonempty (DoHURL d) with ErrStrayDoH ;;
    fail_if nonempty (DoTServer d) with ErrStrayDoT ;;
    fail_if nonempty (BootstrapIP d) with ErrStrayBootstrap ;;
    Ok tt
  else if bool_decide (dnsResolver d = DNSResolverDoH) then
    fail_if nonempty (DoTServer d) with ErrStrayDoT ;;
    fail_if bool_decide (DoHURL d = EmptyString) with ErrNoDoH ;;
    host ← or_else (dohURLHost (DoHURL d)) ErrDoHURL;
    requireBootstrapForHost host d
  else
    fail_if nonempty (DoHURL d) with ErrStrayDoH ;;
    fail_if bool_decide (DoTServer d = EmptyString) with ErrNoDoT ;;
    host ← or_else (dotServerHost (DoTServer d)) ErrDoTServer;
    requireBootstrapForHost host d.

Definition exitKnown (c : Config) : bool :=
  existsb (fun p => bool_decide (peerName p = Exit c) && isExit p) (peers c).

Definition validate (c : Config) : checked unit :=
  fail_if negb (roleValid (Role c)) with ErrRole ;;
  fail_if (length (Paths c) =? 0)%nat with ErrNoPath ;;
  fail_if negb (bindValid (Bind c)) with ErrBind ;;
  _ ← validatePaths 0 [] [] (Paths c);
  fail_if negb (IsSet (PrivateKey (wireGuard c))) with ErrNoPrivateKey ;;
  fail_if (length (peers c) =? 0)%nat with ErrNoPeer ;;
  pres ← validatePeers (Role c) 0 (peers c);
  _ ← (if bool_decide (Role c = RoleEdge) then validateEdgePeerSet c pres
       else validateConcentratorDefaultRoutes pres);
  fail_if negb (bool_decide (Role c = RoleEdge)) && nonempty (Exit c) with ErrExitRole ;;
  _ ← reservedNames 0 (peers c);
  fail_if nonempty (Exit c) && negb (bool_decide (Exit c = "auto"%string)) && negb (exitKnown c)
    with ErrExitUnknown (Exit c) ;;
  _ ← peerKeys c;
  fail_if bool_decide (Role c = RoleConcentrator) && (ListenPort (wireGuard c) =? 0) with ErrListenPort ;;
  fail_if negb (IsSet (PSK c)) with ErrNoPSK ;;
  _ ← amneziaValidate (amnezia c);
  _ ← schedulerValidate (scheduler c);
  _ ← dnsValidate (dns c);
  _ ← livenessValidate (liveness c);
  monitorValidate (monitor c).

(** What [Load] does with a decoded file. *)
Definition load (c : Config) : checked Config :=
  c ← normalize c;
  _ ← validate c;
  Ok c.
End External.
End config.
