(* ===== verification/ConfigProps.v ===== *)
(** * Configuration: what an accepted file guarantees *)

From Stdlib Require Import Ascii String.
From stdpp Require Import base tactics list numbers strings sets.
From S2P Require Import Prelude Netip Config.

Module config_props.
Import netip config.

(** ** Inverting a successful check *)
Lemma reject_ok {A} b e (k : checked A) y : (fail_if b with e ;; k) = Ok y <-> b = false /\ k = Ok y.
Proof. unfold reject. destruct b; naive_solver. Qed.

Lemma bind_ok {A B} (m : checked A) (k : A -> checked B) y :
  (m ≫= k) = Ok y <-> exists x, m = Ok x /\ k x = Ok y.
Proof. destruct m as [a|e|]; cbn; naive_solver. Qed.

Lemma or_else_ok {A} (o : option A) e y : or_else o e = Ok y <-> o = Some y.
Proof. destruct o; cbn; naive_solver. Qed.

(** Takes a successful function apart, check by check. *)
Ltac ok_inv H :=
  repeat match type of H with
  | (fail_if _ with _ ;; _) = Ok _ => let E := fresh "Hc" in apply reject_ok in H as [E H]
  | (_ ≫= _) = Ok _ => let x := fresh "x" in let E := fresh "Hb" in apply bind_ok in H as (x & E & H)
  | or_else _ _ = Ok _ => apply or_else_ok in H
  end.

Lemma each_ok {A B} (f : A -> checked B) l ys : each f l = Ok ys -> Forall2 (fun x y => f x = Ok y) l ys.
Proof.
  revert ys. induction l as [|x l IH]; intros ys H; cbn in H.
  - injection H as <-. constructor.
  - ok_inv H. injection H as <-. constructor; [done|]. by apply IH.
Qed.

Lemma find_none_nin {K V} `{EqDecision K} (k : K) (l : list (K * V)) :
  List.find (fun e => bool_decide (fst e = k)) l = None -> k ∉ map fst l.
Proof.
  intros H Hin. apply list_elem_of_fmap in Hin as ([k' v] & -> & Hin). apply list_elem_of_In in Hin.
  pose proof (List.find_none _ _ H _ Hin) as E. cbn in E. rewrite bool_decide_eq_true_2 in E; done.
Qed.

(** ** Paths *)
Definition path_ok (p : Path) : Prop :=
  pathName p <> EmptyString /\ IsValid (SourceAddr p) = true /\ bindValid (pathBind p) = true /\
  (MTU p = 0 \/ minPathMTU <= MTU p <= maxPathMTU) /\ 0 <= RideThrough p.

Lemma validatePaths_ok i seen seenSrc ps :
  validatePaths i seen seenSrc ps = Ok tt ->
  Forall path_ok ps /\
  NoDup (map pathName ps) /\ (forall p, p ∈ ps -> pathName p ∉ seen) /\
  NoDup (map (fun p => Unmap (SourceAddr p)) ps) /\
  (forall p, p ∈ ps -> Unmap (SourceAddr p) ∉ map fst seenSrc).
Proof.
  revert i seen seenSrc. induction ps as [|p ps IH]; intros i seen seenSrc H; cbn [validatePaths map] in *.
  - split_and!; try constructor; set_solver.
  - ok_inv H. destruct (List.find _ seenSrc) as [[a n]|] eqn:F; [done|]. ok_inv H.
    apply find_none_nin in F.
    apply IH in H as (I1 & I2 & I3 & I4 & I5).
    rewrite ?bool_decide_eq_false, ?negb_false_iff in *.
    split_and!.
    + constructor; [|done]. split_and!; try done; [|lia].
      destruct (Z.eqb_spec (MTU p) 0); [by left|right]. cbn in *. lia.
    + constructor; [|done]. intros (q & E & Hq)%list_elem_of_fmap. apply (I3 q Hq). rewrite <- E. apply list_elem_of_here.
    + intros q [-> |Hq]%elem_of_cons; [done|]. intros Hs. apply (I3 q Hq). by apply list_elem_of_further.
    + constructor; [|done]. intros (q & E & Hq)%list_elem_of_fmap. apply (I5 q Hq). cbn. rewrite <- E. apply list_elem_of_here.
    + intros q [-> |Hq]%elem_of_cons; [done|]. intros Hs. apply (I5 q Hq). by apply list_elem_of_further.
Qed.

(** ** Peers *)
Lemma parseAllowed_ok i v4 v6 l ps : parseAllowed i v4 v6 l = Ok ps -> Forall2 (fun s p => ParsePrefix s = Some p) l ps.
Proof.
  revert v4 v6 ps. induction l as [|s l IH]; intros v4 v6 ps H; cbn in H.
  - injection H as <-. constructor.
  - ok_inv H. apply or_else_ok in Hb.
    destruct (Bits x =? 0); [destruct (Is4 (paddr x))|]; ok_inv H; injection H as <-;
      (constructor; [done|]); by eapply IH.
Qed.

Definition peer_ok (role : string) (p : Peer) : Prop :=
  IsSet (PublicKey p) = true /\ modeValid (Mode p) = true /\
  (role = RoleEdge -> EndpointSpecs p <> []) /\
  (role = RoleConcentrator -> EndpointSpecs p = [] /\ peerDNS p = false /\ Mode p <> PeerModeDefaultRoute).

Definition parsed (p : Peer) (ps : list Prefix) : Prop :=
  Forall2 (fun s x => ParsePrefix s = Some x) (AllowedIPs p) ps.

Lemma length_nil {A} (l : list A) : (length l =? 0)%nat = true <-> l = [].
Proof. destruct l; cbn; naive_solver. Qed.

Lemma validatePeer_ok role i p ps :
  validatePeer role i p = Ok ps -> peer_ok role p /\ parsed p ps.
Proof.
  intros H. unfold validatePeer in H. ok_inv H. apply parseAllowed_ok in H. split; [|done].
  rewrite ?negb_false_iff in *. split_and!; try done.
  - intros ->. rewrite bool_decide_eq_true_2 in * by done. cbn in *. by intros E%length_nil; rewrite E in *.
  - intros ->. rewrite bool_decide_eq_true_2 in * by done. cbn in *.
    rewrite negb_false_iff in *. rewrite length_nil in *. rewrite bool_decide_eq_false in *. done.
Qed.

Lemma validatePeers_ok role i ps pres :
  validatePeers role i ps = Ok pres -> Forall2 (fun p pre => peer_ok role p /\ parsed p pre) ps pres.
Proof.
  revert i pres. induction ps as [|p ps IH]; intros i pres H; cbn in H.
  - injection H as <-. constructor.
  - ok_inv H. injection H as <-. constructor; [by eapply validatePeer_ok|]. by eapply IH.
Qed.

(** *** Several peers of an edge *)
Lemma collectExits_ok i ps es :
  collectExits i ps = Ok es ->
  map snd es = map snd (List.filter (fun x => isExit (fst x)) ps) /\
  Forall (fun x => isExit (fst x) = true \/ forallb (fun q => negb (Bits q =? 0)) (snd x) = true) ps.
Proof.
  revert i es. induction ps as [|[p pre] ps IH]; intros i es H; cbn [collectExits List.filter fst] in *.
  - injection H as <-. done.
  - ok_inv H. injection H as <-. destruct (IH _ _ Hb) as [I1 I2].
    assert (isExit p = true \/ forallb (fun q => negb (Bits q =? 0)) pre = true) as Hp.
    { destruct (isExit p); [by left|right]. rewrite andb_true_r in Hc. clear -Hc.
      induction pre as [|q pre IH]; cbn [existsb forallb] in *; [done|]. apply orb_false_iff in Hc as [-> Hc]. by apply IH. }
    split; [|by constructor]. destruct (isExit p); cbn [map snd]; congruence.
Qed.

Lemma exitAlternates_ok first mask es :
  exitAlternates first mask es = Ok tt ->
  Forall (fun pre => defaultRouteMaskOf pre = mask /\ hasNonDefaultAllowedIP pre = true) (map snd es).
Proof.
  induction es as [|[i pre] es IH]; intros H; cbn in *; [constructor|].
  ok_inv H. rewrite ?negb_false_iff, ?bool_decide_eq_true in *. constructor; [done|]. by apply IH.
Qed.

(** The exit-capable peers of an accepted edge, with their parsed ranges. *)
Definition exitsOf (c : Config) (pres : list (list Prefix)) : list (Peer * list Prefix) :=
  List.filter (fun x => isExit (fst x)) (zip (peers c) pres).

Lemma edgePeerSet_ok c pres :
  validateEdgePeerSet c pres = Ok tt ->
  Z.of_nat (length (peers c)) * Z.of_nat (length (Paths c)) <= maxProbeFanout /\
  (length (peers c) <> 1%nat ->
     Forall (fun x => isExit (fst x) = true \/ forallb (fun q => negb (Bits q =? 0)) (snd x) = true)
       (zip (peers c) pres) /\
     ((2 <= length (exitsOf c pres))%nat ->
        exists mask, Forall (fun x => defaultRouteMaskOf (snd x) = mask /\ hasNonDefaultAllowedIP (snd x) = true)
                       (exitsOf c pres))).
Proof.
  intros H. unfold validateEdgePeerSet in H. ok_inv H. split; [lia|]. intros Hne.
  rewrite (proj2 (Nat.eqb_neq _ _) Hne) in H. ok_inv H.
  destruct (collectExits_ok _ _ _ Hb) as [E F]. split; [done|]. intros H2.
  unfold exitsOf in *. assert (length x = length (List.filter (fun y => isExit (fst y)) (zip (peers c) pres))) as L.
  { rewrite <- (length_map snd x), E. apply length_map. }
  destruct x as [|[i pre] [|y x]]; cbn in L; try lia.
  destruct x0. apply exitAlternates_ok in Hb0. rewrite E in Hb0. exists (defaultRouteMaskOf pre).
  by apply Forall_map in Hb0.
Qed.

(** ** Names and keys *)
Lemma distinctPeers_ok i names psks ps :
  distinctPeers i names psks ps = Ok tt ->
  NoDup (map peerName ps) /\ NoDup (map (fun p => kbytes (peerPSK p)) ps) /\
  Forall (fun p => peerName p <> EmptyString /\ IsSet (peerPSK p) = true) ps /\
  (forall p, p ∈ ps -> (peerName p ∉ map fst names) /\ kbytes (peerPSK p) ∉ map fst psks).
Proof.
  revert i names psks. induction ps as [|p ps IH]; intros i names psks H; cbn [distinctPeers map] in *.
  - split_and!; try constructor; set_solver.
  - ok_inv H. destruct (List.find _ names) as [[a n]|] eqn:F; [done|]. ok_inv H.
    destruct (List.find _ psks) as [[a n]|] eqn:G; [done|]. apply find_none_nin in F, G.
    apply IH in H as (I1 & I2 & I3 & I4). rewrite ?bool_decide_eq_false, ?negb_false_iff in *.
    split_and!.
    + constructor; [|done]. intros (q & E & Hq)%list_elem_of_fmap. destruct (I4 q Hq) as [X _]. apply X. cbn.
      rewrite <- E. apply list_elem_of_here.
    + constructor; [|done]. intros (q & E & Hq)%list_elem_of_fmap. destruct (I4 q Hq) as [_ X]. apply X. cbn.
      rewrite <- E. apply list_elem_of_here.
    + by constructor.
    + intros q [-> |Hq]%elem_of_cons; [done|]. destruct (I4 q Hq) as [X Y].
      split; intros Hs; [apply X|apply Y]; by apply list_elem_of_further.
Qed.
Lemma peerKeys_ok c :
  peers c <> [] -> IsSet (PSK c) = true -> peerKeys c = Ok tt ->
  NoDup (map idName (PeerIdentities c)) /\ NoDup (map (fun x => kbytes (idPSK x)) (PeerIdentities c)) /\
  Forall (fun x => IsSet (idPSK x) = true) (PeerIdentities c) /\
  (length (peers c) <> 1%nat -> map idName (PeerIdentities c) = map peerName (peers c)).
Proof.
  intros Hne Hpsk H. unfold peerKeys, PeerIdentities in *.
  destruct (peers c) as [|p [|q ps]] eqn:E; [done| |].
  - cbn. split_and!; try apply NoDup_singleton; [by repeat constructor|done].
  - change (length (p :: q :: ps) =? 1)%nat with false. cbn [negb].
    set (l := p :: q :: ps) in *. apply distinctPeers_ok in H as (H1 & H2 & H3 & _).
    rewrite !List.map_map. cbn [idPSK idName].
    assert (map (fun x => if bool_decide (peerName x = EmptyString) then hex (take 8 (kbytes (PublicKey x))) else peerName x) l
            = map peerName l) as En.
    { apply list_fmap_ext. intros i x Hx. apply list_elem_of_lookup_2 in Hx.
      rewrite Forall_forall in H3. destruct (H3 x Hx) as [Hn _]. by rewrite bool_decide_eq_false_2. }
    split_and!; [by rewrite En|done| |done].
    apply Forall_map. eapply Forall_impl; [exact H3|]. by intros x [_ ?].
Qed.

(** ** Endpoint entries *)

(** A parsed entry against its text. *)
Definition spec_of (dns : bool) (s : string) (e : EndpointSpec) : Prop :=
  match ParseAddrPort s with
  | Some ap => e = mkEndpointSpec EmptyString 0 ap false
  | None => exists host portStr port, SplitHostPort s = Some (host, portStr) /\ dns = true /\
              ParseUint 16 (bytes portStr) = Some port /\ 0 < port /\ validateHostname host = true /\
              e = mkEndpointSpec host port AddrPort0 true
  end.

Definition literals (l : list EndpointSpec) : list AddrPort :=
  map endpoint.Addr (List.filter (fun e => negb (IsName e)) l).

Lemma parseUint_loop_nonneg acc limit s v : 0 <= acc -> parseUint_loop acc limit s = Some v -> 0 <= v.
Proof.
  revert acc. induction s as [|b s IH]; intros acc Ha H; cbn [parseUint_loop] in H; [injection H as <-; done|].
  destruct (is_digit b) eqn:E; [|done]. destruct (limit <? _); [done|]. eapply IH; [|exact H].
  unfold is_digit in E. lia.
Qed.

Lemma resolve_loop_ok dns seen names eps specs raw eps' specs' :
  (forall a, a ∈ seen <-> a ∈ eps) -> NoDup eps -> literals specs = eps ->
  resolve_loop dns seen names eps specs raw = Ok (eps', specs') ->
  exists l, specs' = specs ++ l /\ Forall2 (spec_of dns) raw l /\ literals specs' = eps' /\ NoDup eps'.
Proof.
  revert seen names eps specs. induction raw as [|s raw IH]; intros seen names eps specs Hs Hn Hl H;
    cbn [resolve_loop] in H.
  - injection H as <- <-. exists []. rewrite app_nil_r. by split_and!.
  - assert (forall e, spec_of dns s e -> forall l, specs' = (specs ++ [e]) ++ l /\ Forall2 (spec_of dns) raw l ->
      exists l', specs' = specs ++ l' /\ Forall2 (spec_of dns) (s :: raw) l') as Hcons.
    { intros e He l [-> Hf]. exists (e :: l). split; [by rewrite <- app_assoc|by constructor]. }
    destruct (ParseAddrPort s) as [ap|] eqn:P.
    + ok_inv H. rewrite bool_decide_eq_false in Hc.
      apply IH in H as (l & E & F & G & N).
      * destruct (Hcons (mkEndpointSpec EmptyString 0 ap false) ltac:(unfold spec_of; by rewrite P) l (conj E F)) as (l' & ? & ?).
        by exists l'.
      * intros a. rewrite elem_of_cons, elem_of_app, list_elem_of_singleton, Hs. naive_solver.
      * apply NoDup_app. split; [done|]. split; [|apply NoDup_singleton]. intros x Hx ->%list_elem_of_singleton. by apply Hc, Hs.
      * unfold literals in *. rewrite List.filter_app, map_app, Hl. done.
    + destruct (SplitHostPort s) as [[host portStr]|] eqn:S; [|done]. ok_inv H.
      destruct (ParseUint 16 (bytes portStr)) as [port|] eqn:U; [|done]. ok_inv H.
      rewrite ?negb_false_iff in *.
      apply IH in H as (l & E & F & G & N); [|done|done|].
      * destruct (Hcons (mkEndpointSpec host port AddrPort0 true)) with (l := l) as (l' & ? & ?); [|done|by exists l'].
        unfold spec_of. rewrite P. exists host, portStr, port. split_and!; try done.
        assert (0 <= port); [|lia]. unfold ParseUint in U. destruct (bytes portStr); [done|].
        by eapply parseUint_loop_nonneg; [|exact U].
      * unfold literals in *. rewrite List.filter_app, map_app, Hl. cbn. by rewrite app_nil_r.
Qed.

Definition raw_entries (p : Peer) : list string :=
  if nonempty (Endpoint p) then [Endpoint p] else EndpointsRaw p.

(** What normalisation makes of a peer's endpoint entries. *)
Definition endpoints_ok (p : Peer) : Prop :=
  Forall2 (spec_of (peerDNS p)) (raw_entries p) (EndpointSpecs p) /\
  Endpoints p = literals (EndpointSpecs p) /\ NoDup (Endpoints p).

Lemma resolveEndpoints_ok p q : resolveEndpoints p = Ok q -> endpoints_ok q.
Proof.
  intros H. unfold resolveEndpoints in H. ok_inv H. destruct x as [eps specs]. injection H as <-.
  apply resolve_loop_ok in Hb as (l & -> & F & G & N); [|done|constructor|done].
  split; [done|]. split; [by symmetry|done].
Qed.

Lemma normalize_peers c c' : normalize c = Ok c' -> Forall endpoints_ok (peers c').
Proof.
  intros H. unfold normalize, seq_let in H. cbv zeta in H. ok_inv H. injection H as <-. cbn.
  apply each_ok in Hb0. apply Forall_forall. intros q Hq. apply list_elem_of_lookup in Hq as [i Hi].
  destruct (Forall2_lookup_r _ _ _ _ _ Hb0 Hi) as (p & _ & Hp). by eapply resolveEndpoints_ok.
Qed.

(** ** Normalisation is idempotent *)
Lemma each_idem {A} (f : A -> checked A) l l' :
  (forall x y, f x = Ok y -> f y = Ok y) -> each f l = Ok l' -> each f l' = Ok l'.
Proof.
  intros Hf. revert l'. induction l as [|x l IH]; intros l' H; cbn in H; [by injection H as <-|].
  ok_inv H. injection H as <-. cbn. rewrite (Hf _ _ Hb). cbn. by rewrite (IH _ Hb0).
Qed.

Lemma normalizePath_idem b p q :
  b <> EmptyString -> normalizePath b p = Ok q -> normalizePath b q = Ok q.
Proof.
  intros Hb0 H. unfold normalizePath in H. cbv zeta in H.
  set (p1 := if bool_decide (pathBind p = EmptyString) then p <| pathBind := b |> else p) in *.
  assert (pathBind p1 <> EmptyString) as Hp1.
  { unfold p1. by case_bool_decide. }
  clearbody p1. ok_inv H. injection H as <-.
  unfold normalizePath. cbv zeta. destruct p1 as [nm sa sar da dar bd mtu rt rtr].
  cbn [pathBind SourceAddrRaw DestAddrRaw RideThroughRaw pathName SourceAddr DestAddr RideThrough update eta eta_Path] in *.
  rewrite (bool_decide_eq_false_2 _ Hp1).
  cbn [pathBind SourceAddrRaw DestAddrRaw RideThroughRaw pathName SourceAddr DestAddr RideThrough update eta eta_Path].
  destruct (nonempty sar); [rewrite Hb|]; cbn [mbind outcome_bind];
  (destruct (nonempty dar); [rewrite Hb1|]; cbn [mbind outcome_bind]);
  (destruct (nonempty rtr); [rewrite Hb2|]; cbn [mbind outcome_bind]); done.
Qed.

Lemma resolveEndpoints_idem p q : resolveEndpoints p = Ok q -> resolveEndpoints q = Ok q.
Proof.
  intros H. unfold resolveEndpoints in *. ok_inv H. destruct x as [eps specs]. injection H as <-.
  cbn [Endpoint EndpointsRaw peerDNS update]. destruct p; cbn in *. rewrite Hc. cbn. by rewrite Hb.
Qed.

Lemma amneziaDefaults_idem a : amneziaDefaults (amneziaDefaults a) = amneziaDefaults a.
Proof.
  unfold amneziaDefaults at 2 3. destruct (Configured a) eqn:C; cbn [negb].
  - destruct (_ && _) eqn:Z; [|unfold amneziaDefaults; by rewrite C, Z].
    unfold amneziaDefaults. cbn. by destruct (negb _).
  - unfold amneziaDefaults. by rewrite C.
Qed.

Lemma schedulerDefaults_idem s : schedulerDefaults (schedulerDefaults s) = schedulerDefaults s.
Proof. unfold schedulerDefaults. repeat case_bool_decide; done. Qed.

Lemma dnsDefaults_idem d d' : dnsDefaults d = Ok d' -> dnsDefaults d' = Ok d'.
Proof.
  intros H. unfold dnsDefaults in H. cbv zeta in H.
  set (d1 := if bool_decide (dnsResolver d = EmptyString) then d <| dnsResolver := DNSResolverSystem |> else d) in *.
  assert (dnsResolver d1 <> EmptyString) as Hd by (unfold d1; by case_bool_decide).
  clearbody d1. ok_inv H. injection H as <-. destruct d1 as [r u t b pi pr tm tr]. cbn in *.
  unfold dnsDefaults. cbn [dnsResolver]. rewrite (bool_decide_eq_false_2 _ Hd). cbn. by rewrite Hb, Hb0.
Qed.

Lemma livenessDefaults_idem l l' : livenessDefaults l = Ok l' -> livenessDefaults l' = Ok l'.
Proof. intros H. unfold livenessDefaults in *. ok_inv H. injection H as <-. cbn. by rewrite Hb. Qed.

Lemma normalizeDefaults_spec c :
  Bind (normalizeDefaults c) <> EmptyString /\
  (bool_decide (Exit (normalizeDefaults c) = EmptyString) &&
   bool_decide (Role (normalizeDefaults c) = RoleEdge)) = false.
Proof.
  unfold normalizeDefaults. destruct (bool_decide (Exit c = EmptyString) && _) eqn:E; cbv zeta;
    match goal with |- context [bool_decide (Bind ?x = EmptyString)] =>
      change (Bind x) with (Bind c) end;
    destruct (decide (Bind c = EmptyString)) as [B|B];
    [rewrite (bool_decide_eq_true_2 _ B)|rewrite (bool_decide_eq_false_2 _ B)
    |rewrite (bool_decide_eq_true_2 _ B)|rewrite (bool_decide_eq_false_2 _ B)];
    split; try exact B; try exact E; done.
Qed.

Lemma normalizeDefaults_fix c :
  Bind c <> EmptyString -> (bool_decide (Exit c = EmptyString) && bool_decide (Role c = RoleEdge)) = false ->
  normalizeDefaults c = c.
Proof. intros H1 H2. unfold normalizeDefaults. rewrite H2. cbv zeta. by rewrite (bool_decide_eq_false_2 _ H1). Qed.

Lemma normalize_idem c c' : normalize c = Ok c' -> normalize c' = Ok c'.
Proof.
  intros H. unfold normalize, seq_let in H. destruct (normalizeDefaults_spec c) as [N1 N2].
  revert N1 N2 H. generalize (normalizeDefaults c). clear c. intros c N1 N2 H.
  cbv zeta in H. ok_inv H. injection H as <-. unfold normalize.
  destruct c as [role ex paths [pk prs lp] am psk ml mon lg sch dn lv bd tp lbs]. cbn in *.
  rewrite normalizeDefaults_fix by done. unfold seq_let. cbn.
  rewrite (each_idem _ _ _ (fun x y => normalizePath_idem _ x y N1) Hb). cbn.
  rewrite (each_idem _ _ _ resolveEndpoints_idem Hb0). cbn.
  rewrite amneziaDefaults_idem, schedulerDefaults_idem, (dnsDefaults_idem _ _ Hb1). cbn.
  rewrite (livenessDefaults_idem _ _ Hb2). done.
Qed.

(** ** Accepted configurations *)
Record wellformed (c : Config) : Prop := {
  wf_role : Role c = RoleEdge \/ Role c = RoleConcentrator;
  wf_paths : Paths c <> [] /\ Forall path_ok (Paths c);
  wf_path_names : NoDup (map pathName (Paths c));
  wf_path_sources : NoDup (map (fun p => Unmap (SourceAddr p)) (Paths c));
  wf_peers : peers c <> [] /\ Forall (peer_ok (Role c)) (peers c) /\ Forall endpoints_ok (peers c);
  wf_allowed : forall p s, p ∈ peers c -> s ∈ AllowedIPs p -> is_Some (ParsePrefix s);
  wf_fanout : Role c = RoleEdge -> Z.of_nat (length (peers c)) * Z.of_nat (length (Paths c)) <= maxProbeFanout;
  wf_exit : (Role c <> RoleEdge -> Exit c = EmptyString) /\
            (Exit c = EmptyString \/ Exit c = "auto"%string \/
             exists p, p ∈ peers c /\ peerName p = Exit c /\ isExit p = true);
  wf_names : NoDup (map idName (PeerIdentities c));
  wf_keys : NoDup (map (fun x => kbytes (idPSK x)) (PeerIdentities c)) /\
            Forall (fun x => IsSet (idPSK x) = true) (PeerIdentities c);
  wf_port : Role c = RoleConcentrator -> ListenPort (wireGuard c) <> 0;
  wf_amnezia : Configured (amnezia c) = true ->
    0 < S1 (amnezia c) /\ 0 < S2 (amnezia c) /\ Jmin (amnezia c) <= Jmax (amnezia c) /\
    MessageInitiationSize + S1 (amnezia c) <> MessageResponseSize + S2 (amnezia c) /\
    ((H1 (amnezia c) = 0 /\ H2 (amnezia c) = 0 /\ H3 (amnezia c) = 0 /\ H4 (amnezia c) = 0) \/
     NoDup [H1 (amnezia c); H2 (amnezia c); H3 (amnezia c); H4 (amnezia c)]);
  wf_dns : 0 < PollInterval (dns c) /\ 0 < dnsTimeout (dns c);
  wf_liveness : minLivenessDownAfter <= DownAfter (liveness c)
}.

Section Validate.
Context (LookupIP : string -> option (list netip.Addr)) (urlParse : string -> option (string * string)).

Lemma amneziaValidate_ok a u :
  amneziaValidate a = Ok u -> Configured a = true ->
  0 < S1 a /\ 0 < S2 a /\ Jmin a <= Jmax a /\
  MessageInitiationSize + S1 a <> MessageResponseSize + S2 a /\
  ((H1 a = 0 /\ H2 a = 0 /\ H3 a = 0 /\ H4 a = 0) \/ NoDup [H1 a; H2 a; H3 a; H4 a]).
Proof.
  intros H C. unfold amneziaValidate in H. rewrite C in H. cbn [negb] in H. ok_inv H.
  repeat match goal with E : (_ || _) = false |- _ => apply orb_false_iff in E as [? ?] end.
  split_and!; try lia. apply andb_false_iff in Hc2 as [E|E]; [left|right];
    repeat match goal with E : (_ || _) = false |- _ => apply orb_false_iff in E as [? ?] end.
  - rewrite ?negb_false_iff in *. split_and!; lia.
  - rewrite !NoDup_cons, !not_elem_of_cons. split_and!; try lia; try apply not_elem_of_nil. apply NoDup_nil_2.
Qed.

Lemma dnsValidate_ok d u : dnsValidate urlParse d = Ok u -> 0 < PollInterval d /\ 0 < dnsTimeout d.
Proof. intros H. unfold dnsValidate in H. ok_inv H. lia. Qed.

Lemma exitKnown_ok c : exitKnown c = true -> exists p, p ∈ peers c /\ peerName p = Exit c /\ isExit p = true.
Proof.
  intros (p & Hp & E)%existsb_exists. apply andb_true_iff in E as [E1 E2].
  apply bool_decide_eq_true in E1. exists p. split_and!; try done. by apply list_elem_of_In.
Qed.

Lemma validate_ok c :
  Forall endpoints_ok (peers c) -> validate LookupIP urlParse c = Ok tt ->
  wellformed c /\ exists pres, Forall2 parsed (peers c) pres /\
    (Role c = RoleEdge -> validateEdgePeerSet c pres = Ok tt).
Proof.
  intros He H. unfold validate in H. ok_inv H. destruct x, x1, x2, x3, x4, x5, x6, x7.
  apply validatePaths_ok in Hb as (P1 & P2 & _ & P3 & _).
  pose proof (validatePeers_ok _ _ _ _ Hb0) as Q.
  assert (peers c <> []) as Hp by (intros F; rewrite F in *; done).
  rewrite ?negb_false_iff in *.
  apply peerKeys_ok in Hb3 as (K1 & K2 & K3 & _); [|done|done].
  apply dnsValidate_ok in Hb6.
  split; [constructor|exists x0; split; [by eapply Forall2_impl; [exact Q|]; intros ? ? [_ ?]|]].
  - unfold roleValid in Hc. apply orb_true_iff in Hc as [E|E]; apply bool_decide_eq_true in E; auto.
  - split; [|done]. intros F. rewrite F in *. done.
  - done.
  - done.
  - split_and!; try done. apply Forall_forall. intros p Hin. apply list_elem_of_lookup in Hin as [i Hi].
    destruct (Forall2_lookup_l _ _ _ _ _ Q Hi) as (pre & _ & Hok & _). done.
  - intros p s Hin Hs. apply list_elem_of_lookup in Hin as [i Hi]. apply list_elem_of_lookup in Hs as [j Hj].
    destruct (Forall2_lookup_l _ _ _ _ _ Q Hi) as (pre & _ & _ & Hpar).
    destruct (Forall2_lookup_l _ _ _ _ _ Hpar Hj) as (q & _ & Hq). eauto.
  - intros E. rewrite bool_decide_eq_true_2 in Hb1 by done. by apply edgePeerSet_ok in Hb1 as [? _].
  - split.
    + intros E. rewrite bool_decide_eq_false_2 in Hc4 by done. cbn in Hc4. unfold nonempty in Hc4.
      rewrite negb_false_iff in Hc4. by apply bool_decide_eq_true in Hc4.
    + destruct (decide (Exit c = EmptyString)) as [E|E]; [by left|right].
      destruct (decide (Exit c = "auto"%string)) as [E'|E']; [by left|right].
      unfold nonempty in Hc5. rewrite !bool_decide_eq_false_2 in Hc5 by done. cbn in Hc5.
      rewrite negb_false_iff in Hc5. by apply exitKnown_ok.
  - done.
  - done.
  - intros E. rewrite bool_decide_eq_true_2 in Hc6 by done. cbn in Hc6. lia.
  - by eapply amneziaValidate_ok.
  - done.
  - unfold livenessValidate in Hb7. ok_inv Hb7. lia.
  - intros E. by rewrite bool_decide_eq_true_2 in Hb1 by done.
Qed.

Lemma load_ok c c' :
  load LookupIP urlParse c = Ok c' ->
  wellformed c' /\ exists pres, Forall2 parsed (peers c') pres /\
    (Role c' = RoleEdge -> validateEdgePeerSet c' pres = Ok tt).
Proof.
  intros H. unfold load in H. ok_inv H. destruct x0. injection H as <-.
  apply validate_ok; [|done]. by eapply normalize_peers.
Qed.
End Validate.

(** Several peers are all named. *)
Lemma peerKeys_named c :
  peerKeys c = Ok tt -> length (peers c) <> 1%nat -> Forall (fun p => peerName p <> EmptyString) (peers c).
Proof.
  unfold peerKeys. intros H Hl.
  assert (distinctPeers 0 [] [] (peers c) = Ok tt) as D by (by destruct (peers c) as [|p [|q ps]]).
  apply distinctPeers_ok in D as (_ & _ & D & _). eapply Forall_impl; [exact D|]. by intros p [? _].
Qed.

Lemma load_names LookupIP urlParse c c' :
  load LookupIP urlParse c = Ok c' -> length (peers c') <> 1%nat ->
  Forall (fun x => idName x <> EmptyString) (PeerIdentities c').
Proof.
  intros H Hl. unfold load in H. ok_inv H. destruct x0. injection H as ->. unfold validate in Hb0. ok_inv Hb0.
  match goal with E : peerKeys c' = Ok ?u |- _ => destruct u; apply peerKeys_named in E; [|done];
    unfold PeerIdentities; apply Forall_map; eapply Forall_impl; [exact E|] end.
  intros p Hp. cbn. by rewrite bool_decide_eq_false_2.
Qed.

(** C33. A configuration that loads is well-formed: paths with distinct names and
    distinct (unmapped) valid sources, MTUs in range; peers whose ranges all
    parse and whose endpoint entries are, in order, the literals and names
    written; a probe fan-out within budget; effective peer names and keys
    pairwise distinct and keys set; an exit that is automatic or names an
    exit-capable peer; obfuscation sizes and headers that keep message types
    apart; and normalising it again changes nothing. *)
Theorem config_accepted_wellformed LookupIP urlParse c c' :
  load LookupIP urlParse c = Ok c' -> wellformed c' /\ normalize c' = Ok c'.
Proof.
  intros H. split; [by eapply load_ok|]. unfold load in H. ok_inv H. injection H as <-.
  by eapply normalize_idem.
Qed.

(** ** A two-exit edge *)
Definition keyW (b : Z) : Key := mkKey (replicate 32 b) true.
Definition noKey : Key := mkKey (replicate 32 0) false.
Definition pathW (name src : string) (mtu : Z) : Path :=
  mkPath name Addr0 src AddrPort0 EmptyString EmptyString mtu 0 EmptyString.
Definition peerW (b : Z) (name : string) (eps : list string) (dns : bool) (allowed : list string) : Peer :=
  mkPeer (keyW b) EmptyString eps [] dns [] allowed PeerModeDefaultRoute (keyW (b + 100)) name.
Definition rawW : Config :=
  mkConfig RoleEdge EmptyString [pathW "lte" "192.0.2.10" 0; pathW "starlink" "198.51.100.7" 1400]
    (mkWireGuard (keyW 1)
       [peerW 2 "fra" ["203.0.113.1:51820"; "203.0.113.2:51820"] false ["0.0.0.0/0"; "10.0.0.1/32"];
        peerW 3 "ams" ["hub.example:51820"] true ["10.0.0.2/32"; "0.0.0.0/0"]] 0)
    (mkAmnezia 0 0 0 0 0 0 0 0 0) (keyW 4) EmptyString (mkMonitor EmptyString EmptyString [] false) EmptyString
    (mkSchedulerConfig EmptyString) (mkDNS EmptyString EmptyString EmptyString EmptyString 0 "60s" 0 EmptyString)
    (mkLiveness 0 EmptyString) EmptyString false None.
Definition noLookup (_ : string) : option (list netip.Addr) := None.
Definition noURL (_ : string) : option (string * string) := None.
Definition loadedW : Config := match load noLookup noURL rawW with Ok c => c | _ => rawW end.

Lemma loadedW_eq : load noLookup noURL rawW = Ok loadedW.
Proof. vm_compute. reflexivity. Defined.

Lemma config_accepted_wellformed_witness :
  (wellformed loadedW /\ normalize loadedW = Ok loadedW) /\ map idName (PeerIdentities loadedW) = ["fra"%string; "ams"%string].
Proof.
  split; [|vm_compute; reflexivity].
  apply (config_accepted_wellformed noLookup noURL rawW loadedW). exact loadedW_eq.
Defined.

End config_props.
