(* ===== verification/Failover.v ===== *)
(** * Hub failover ([internal/device/failover.go])

    The edge keeps, per concentrator, an ordered list of endpoint entries, each
    with its current expansion into addresses, and the identity of the active
    one.  Calls on the collaborators (the bind, the engine peer) are returned as
    a list of [action]s in the order the code makes them; the liveness readings
    and the clock reading of a call are its arguments.  A subscriber of the
    exhaustion signal is the exit peer's name its closure captures
    (exitselector.go registers no other function). *)

From stdpp Require Import base tactics list numbers strings.
From S2P Require Import Prelude Frame Telemetry Netip Config.

Module failover.
Import telemetry.
Export endpoint.

Definition hubFailoverSettle : Duration := 3 * second.

(** ** Endpoint entries with their expansions *)
Record failoverSpec := mkFailoverSpec { spec : EndpointSpec; addrs : list AddrPort }.
#[export] Instance eta_failoverSpec : Eta failoverSpec := fun s =>
  mkFailoverSpec (spec s) (addrs s).

(** What the controller asks of the bind and of the engine peer. *)
Inductive action :=
  | SetPeerRemote (ap : AddrPort)
  | Install (ap : AddrPort)
  | Rehandshake.

Record hubFailover := mkHubFailover {
  specs : list failoverSpec;
  rehandshake : bool;          (* the collaborator is not nil *)
  settle : Duration;
  activeSpec : Z;
  activeAddr : AddrPort;
  idx : Z;
  lastSwitch : Time;
  onExhausted : option string;
  exhaustedLatched : bool;
  downAdvances : Z;
  downSince : Time
}.
#[export] Instance eta_hubFailover : Eta hubFailover := fun h =>
  mkHubFailover (specs h) (rehandshake h) (settle h) (activeSpec h) (activeAddr h) (idx h)
    (lastSwitch h) (onExhausted h) (exhaustedLatched h) (downAdvances h) (downSince h).

(** ** The flattened list *)
Fixpoint flatLen_loop (n : Z) (ss : list failoverSpec) : Z :=
  match ss with
  | [] => n
  | s :: ss => flatLen_loop (n + Z.of_nat (length (addrs s))) ss
  end.
Definition flatLenLocked (h : hubFailover) : Z := flatLen_loop 0 (specs h).

Fixpoint anyName (ss : list failoverSpec) : bool :=
  match ss with
  | [] => false
  | s :: ss => if IsName (spec s) then true else anyName ss
  end.
Definition canFailoverLocked (h : hubFailover) : bool :=
  if 2 <=? flatLenLocked h then true else anyName (specs h).

(** The inner loop of [flatIndexLocked]: [inl] is an early return, [inr] the
    counter after the loop. *)
Fixpoint flatIndex_addrs (here : bool) (addr : AddrPort) (flat : Z) (l : list AddrPort) : Z + Z :=
  match l with
  | [] => inr flat
  | a :: l => if here && bool_decide (a = addr) then inl flat
              else flatIndex_addrs here addr (flat + 1) l
  end.
Fixpoint flatIndex_specs (si specIdx : Z) (addr : AddrPort) (flat : Z) (ss : list failoverSpec) : Z :=
  match ss with
  | [] => -1
  | s :: ss =>
      match flatIndex_addrs (si =? specIdx) addr flat (addrs s) with
      | inl i => i
      | inr flat => flatIndex_specs (si + 1) specIdx addr flat ss
      end
  end.
Definition flatIndexLocked (specIdx : Z) (addr : AddrPort) (h : hubFailover) : Z :=
  flatIndex_specs 0 specIdx addr 0 (specs h).

Fixpoint entryAt_addrs (flatIdx n : Z) (l : list AddrPort) : AddrPort + Z :=
  match l with
  | [] => inr n
  | a :: l => if n =? flatIdx then inl a else entryAt_addrs flatIdx (n + 1) l
  end.
Fixpoint entryAt_specs (flatIdx n si : Z) (ss : list failoverSpec) : Z * AddrPort :=
  match ss with
  | [] => (-1, AddrPort0)
  | s :: ss =>
      match entryAt_addrs flatIdx n (addrs s) with
      | inl a => (si, a)
      | inr n => entryAt_specs flatIdx n (si + 1) ss
      end
  end.
Definition entryAtLocked (flatIdx : Z) (h : hubFailover) : Z * AddrPort :=
  if flatIdx <? 0 then (-1, AddrPort0) else entryAt_specs flatIdx 0 0 (specs h).

Fixpoint containsAddrPort (l : list AddrPort) (target : AddrPort) : bool :=
  match l with
  | [] => false
  | a :: l => if bool_decide (a = target) then true else containsAddrPort l target
  end.

(** ** Construction *)
Definition newHubFailoverFromSpecs (ss : list failoverSpec) (rh : bool) (settle : Duration)
    (now : Time) : hubFailover :=
  let h := mkHubFailover ss rh settle 0 AddrPort0 0 now None false 0 0 in
  let '(as_, aa) := entryAtLocked 0 h in
  let h := h <| activeSpec := as_ |> <| activeAddr := aa |> in
  h <| idx := flatIndexLocked (activeSpec h) (activeAddr h) h |>.

Definition newHubFailover (endpoints : list AddrPort) (rh : bool) (settle : Duration)
    (now : Time) : hubFailover :=
  newHubFailoverFromSpecs
    (map (fun ap => mkFailoverSpec (mkEndpointSpec EmptyString 0 ap false) [ap]) endpoints)
    rh settle now.

(** ** Re-resolution *)
Definition rehandshakes (h : hubFailover) : list action :=
  if rehandshake h then [Rehandshake] else [].

Definition updateResolution (specIdx : Z) (l : list AddrPort) (now : Time) (h : hubFailover)
    : hubFailover * list action :=
  if (specIdx <? 0) || (Z.of_nat (length (specs h)) <=? specIdx) then (h, [])
  else
    let h := h <| specs := alter (fun s => s <| addrs := l |>) (Z.to_nat specIdx) (specs h) |> in
    let '(h, acts) :=
      if activeSpec h =? -1 then
        let '(adoptSpec, adoptAddr) := entryAtLocked 0 h in
        if adoptSpec =? -1 then (h, [])
        else (h <| activeSpec := adoptSpec |> <| activeAddr := adoptAddr |> <| lastSwitch := now |>,
              Install adoptAddr :: rehandshakes h)
      else if specIdx =? activeSpec h then
        match l with
        | first :: _ =>
            if negb (containsAddrPort l (activeAddr h))
            then (h <| activeAddr := first |> <| lastSwitch := now |>,
                  SetPeerRemote first :: rehandshakes h)
            else (h, [])
        | [] => (h, [])
        end
      else (h, []) in
    (h <| idx := flatIndexLocked (activeSpec h) (activeAddr h) h |>, acts).

(** ** Hub loss *)
Fixpoint allDown_loop (health : list PathState) : bool :=
  match health with
  | [] => true
  | s :: health => if negb (bool_decide (s = StateDown)) then false else allDown_loop health
  end.
Definition allDownLocked (health : list PathState) : bool :=
  if (length health =? 0)%nat then false else allDown_loop health.

Definition allPathsDown (health : list PathState) : bool := allDownLocked health.
Definition activeSpecIndex (h : hubFailover) : Z := activeSpec h.
Definition SetOnExhausted (cb : option string) (h : hubFailover) : hubFailover :=
  h <| onExhausted := cb |>.
Definition Exhausted (health : list PathState) (h : hubFailover) : bool :=
  exhaustedLatched h && allDownLocked health.

Definition raiseExhaustedLocked (h : hubFailover) : hubFailover * bool :=
  if exhaustedLatched h then (h, false) else (h <| exhaustedLatched := true |>, true).

(** The part of [checkLocked] after the dwell: switch to the next entry. *)
Definition advance (total : Z) (now : Time) (h : hubFailover) : hubFailover * list action * bool :=
  let prev := flatIndexLocked (activeSpec h) (activeAddr h) h in
  let nextIdx := if prev <? 0 then 0 else Z.rem (prev + 1) total in
  let '(nextSpec, next) := entryAtLocked nextIdx h in
  let h := h <| activeSpec := nextSpec |> <| activeAddr := next |> <| idx := nextIdx |>
             <| lastSwitch := now |> in
  let acts := SetPeerRemote next :: rehandshakes h in
  let h := h <| downAdvances := downAdvances h + 1 |> in
  if total <=? downAdvances h then
    let h := h <| downAdvances := 0 |> in
    let '(h, raised) := raiseExhaustedLocked h in (h, acts, raised)
  else (h, acts, false).

Definition checkLocked (health : list PathState) (now : Time) (h : hubFailover)
    : hubFailover * list action * bool :=
  let total := flatLenLocked h in
  if total =? 0 then (h, [], false)
  else if negb (allDownLocked health) then
    (h <| downAdvances := 0 |> <| exhaustedLatched := false |> <| downSince := 0 |>, [], false)
  else
    let h := if is_zero_time (downSince h) then h <| downSince := now |> else h in
    if total <? 2 then
      if time_sub now (downSince h) <? settle h then (h, [], false)
      else let '(h, raised) := raiseExhaustedLocked h in (h, [], raised)
    else if time_sub now (lastSwitch h) <? settle h then (h, [], false)
    else advance total now h.

(** [check] returns the subscriber to call once the lock is released. *)
Definition check (health : list PathState) (now : Time) (h : hubFailover)
    : hubFailover * list action * option string :=
  let '(h, acts, raised) := checkLocked health now h in
  (h, acts, if raised then onExhausted h else None).

(** ** Observation *)
Record EndpointState := mkEndpointState { es_addr : AddrPort; es_active : bool }.

Fixpoint snapshot_addrs (i flat : Z) (l : list AddrPort) : list EndpointState :=
  match l with
  | [] => []
  | a :: l => mkEndpointState a (flat =? i) :: snapshot_addrs i (flat + 1) l
  end.
Fixpoint snapshot_specs (i flat : Z) (ss : list failoverSpec) : list EndpointState :=
  match ss with
  | [] => []
  | s :: ss => snapshot_addrs i flat (addrs s) ++
               snapshot_specs i (flat + Z.of_nat (length (addrs s))) ss
  end.
Definition EndpointsSnapshot (h : hubFailover) : list EndpointState :=
  snapshot_specs (idx h) 0 (specs h).

(** ** Which controllers poll ([startHubFailoverLoop]) *)
Definition polls (interval : Duration) (exhaustionOnly : bool) (h : hubFailover) : bool :=
  let run := canFailoverLocked h || (exhaustionOnly && (1 <=? flatLenLocked h)) in
  negb (negb run || (interval <=? 0)).

End failover.
