(* ===== verification/FailoverTheory.v ===== *)
(** * Hub failover: the flattened list and the controller's invariant

    The nested loops over specs and expansions are lookups in one flat list of
    (spec index, address) entries; the active entry is an element of it. *)

From stdpp Require Import base tactics list numbers strings sets.
From S2P Require Import Prelude Frame Telemetry Netip Config Failover.

Module failover_ok.
Import telemetry failover.

(** ** The flattened list *)
Fixpoint flat_from (si : Z) (ss : list failoverSpec) : list (Z * AddrPort) :=
  match ss with
  | [] => []
  | s :: ss => map (pair si) (addrs s) ++ flat_from (si + 1) ss
  end.
Definition flat (h : hubFailover) : list (Z * AddrPort) := flat_from 0 (specs h).

(** The entry at a position, and the first position of an entry. *)
Definition entry (l : list (Z * AddrPort)) (i : Z) : Z * AddrPort :=
  default (-1, AddrPort0) (l !! Z.to_nat i).
Definition position (l : list (Z * AddrPort)) (e : Z * AddrPort) : Z :=
  match list_find (e =.) l with Some (i, _) => Z.of_nat i | None => -1 end.

Lemma position_app l1 l2 e :
  position (l1 ++ l2) e =
    if decide (e ∈ l1) then position l1 e
    else if decide (e ∈ l2) then Z.of_nat (length l1) + position l2 e else -1.
Proof.
  unfold position. destruct (decide (e ∈ l1)) as [H1|H1].
  - destruct (list_find_elem_of (e =.) l1 e H1 eq_refl) as [[i x] E].
    by rewrite (list_find_app_l _ _ _ _ _ E), E.
  - assert (list_find (e =.) l1 = None) as E.
    { apply list_find_None, Forall_forall. intros x Hx ->. done. }
    rewrite list_find_app_r by done.
    destruct (decide (e ∈ l2)) as [H2|H2].
    + destruct (list_find_elem_of (e =.) l2 e H2 eq_refl) as [[i x] E2].
      rewrite E2. cbn. lia.
    + assert (list_find (e =.) l2 = None) as E2.
      { apply list_find_None, Forall_forall. intros x Hx ->. done. }
      by rewrite E2.
Qed.

Lemma position_none l e : e ∉ l -> position l e = -1.
Proof.
  intros H. unfold position. assert (list_find (e =.) l = None) as ->; [|done].
  apply list_find_None, Forall_forall. intros x Hx ->. done.
Qed.

Lemma position_lookup l e : e ∈ l -> 0 <= position l e /\ l !! Z.to_nat (position l e) = Some e.
Proof.
  intros H. unfold position. destruct (list_find_elem_of (e =.) l e H eq_refl) as [[i x] E].
  rewrite E. apply list_find_Some in E as (E & -> & _). rewrite Nat2Z.id. split; [lia|done].
Qed.

Lemma position_nodup l e i : NoDup l -> l !! i = Some e -> position l e = Z.of_nat i.
Proof.
  intros Hn Hi. assert (e ∈ l) as Hin by (apply list_elem_of_lookup; eauto).
  destruct (position_lookup l e Hin) as [H0 H1].
  pose proof (NoDup_lookup _ _ _ _ Hn Hi H1). lia.
Qed.

Lemma position_range l e : -1 <= position l e < Z.of_nat (length l) \/ l = [].
Proof.
  destruct (decide (e ∈ l)) as [H|H].
  - destruct (position_lookup l e H) as [? E]. apply lookup_lt_Some in E. left. lia.
  - rewrite position_none by done. destruct l; [by right|left; cbn; lia].
Qed.

(** ** The loops *)
Lemma flatLen_loop_spec n si ss :
  flatLen_loop n ss = n + Z.of_nat (length (flat_from si ss)).
Proof.
  revert n si. induction ss as [|s ss IH]; intros n si; cbn; [lia|].
  rewrite (IH _ (si + 1)), length_app, length_map. lia.
Qed.

Lemma flatLen_flat h : flatLenLocked h = Z.of_nat (length (flat h)).
Proof. unfold flatLenLocked. by rewrite (flatLen_loop_spec _ 0). Qed.

Lemma entryAt_addrs_spec i n l :
  n <= i ->
  entryAt_addrs i n l =
    match l !! Z.to_nat (i - n) with Some a => inl a | None => inr (n + Z.of_nat (length l)) end.
Proof.
  revert n. induction l as [|a l IH]; intros n Hn; cbn.
  - f_equal. lia.
  - destruct (Z.eqb_spec n i) as [->|Hne].
    + by rewrite Z.sub_diag.
    + rewrite IH by lia. replace (Z.to_nat (i - n)) with (S (Z.to_nat (i - (n + 1)))) by lia.
      cbn. destruct (l !! _); [done|]. f_equal. lia.
Qed.

Lemma entryAt_specs_spec i n si ss :
  n <= i -> entryAt_specs i n si ss = entry (flat_from si ss) (i - n).
Proof.
  revert n si. induction ss as [|s ss IH]; intros n si Hn; cbn [entryAt_specs flat_from].
  - done.
  - rewrite entryAt_addrs_spec by done. unfold entry.
    destruct (addrs s !! Z.to_nat (i - n)) as [a|] eqn:E.
    + rewrite lookup_app_l by (rewrite length_map; by eapply lookup_lt_Some).
      by rewrite list_lookup_fmap, E.
    + apply lookup_ge_None in E. rewrite IH by lia. unfold entry.
      rewrite lookup_app_r by (rewrite length_map; lia). rewrite length_map.
      do 2 f_equal. lia.
Qed.

Lemma entryAt_flat i h : 0 <= i -> entryAtLocked i h = entry (flat h) i.
Proof.
  intros H. unfold entryAtLocked. rewrite (proj2 (Z.ltb_ge i 0)) by lia.
  rewrite entryAt_specs_spec by lia. f_equal. lia.
Qed.

Lemma flatIndex_addrs_spec here addr n si l :
  flatIndex_addrs here addr n l =
    if here && bool_decide (addr ∈ l)
    then inl (n + position (map (pair si) l) (si, addr))
    else inr (n + Z.of_nat (length l)).
Proof.
  revert n. induction l as [|a l IH]; intros n; cbn [flatIndex_addrs map length].
  - rewrite bool_decide_eq_false_2 by apply not_elem_of_nil. rewrite andb_false_r. f_equal. lia.
  - rewrite IH. destruct here; cbn [andb]; [|f_equal; lia].
    rewrite !bool_decide_decide. change ((si, a) :: map (pair si) l) with ([(si, a)] ++ map (pair si) l).
    rewrite position_app.
    destruct (decide (a = addr)) as [->|Hne].
    + rewrite (decide_True (P := (si, addr) ∈ [_])) by apply list_elem_of_here.
      rewrite decide_True by apply list_elem_of_here. unfold position. cbn.
      rewrite decide_True by done. cbn. f_equal. lia.
    + rewrite (decide_False (P := (si, addr) ∈ [_])) by (rewrite list_elem_of_singleton; congruence).
      destruct (decide (addr ∈ l)) as [Hin|Hin].
      * rewrite decide_True by (by apply list_elem_of_further).
        rewrite decide_True by (apply list_elem_of_fmap; eauto). cbn. f_equal. lia.
      * rewrite decide_False by (rewrite elem_of_cons; intros [|]; congruence).
        f_equal. lia.
Qed.

Lemma flat_from_fst si ss s a : (s, a) ∈ flat_from si ss -> si <= s.
Proof.
  revert si. induction ss as [|x ss IH]; intros si; cbn; [by intros ?%elem_of_nil|].
  rewrite elem_of_app, list_elem_of_fmap. intros [(? & [= -> ->] & _)|H]; [lia|].
  apply IH in H. lia.
Qed.

Lemma flatIndex_specs_spec si i a n ss :
  flatIndex_specs si i a n ss =
    if decide ((i, a) ∈ flat_from si ss) then n + position (flat_from si ss) (i, a) else -1.
Proof.
  revert si n. induction ss as [|s ss IH]; intros si n; cbn [flatIndex_specs flat_from].
  - by rewrite decide_False by apply not_elem_of_nil.
  - rewrite (flatIndex_addrs_spec _ _ _ si), position_app.
    assert ((i, a) ∈ map (pair si) (addrs s) <-> i = si /\ a ∈ addrs s) as Hm.
    { rewrite list_elem_of_fmap. naive_solver. }
    destruct (Z.eqb_spec si i) as [<-|Hne]; cbn [andb];
      [rewrite bool_decide_decide; destruct (decide (a ∈ addrs s)) as [Hin|Hin]|].
    + rewrite (decide_True (P := _ ∈ map _ _)) by (by apply Hm).
      by rewrite decide_True by (apply elem_of_app; left; by apply Hm).
    + rewrite IH. rewrite (decide_False (P := _ ∈ map _ _)) by naive_solver.
      rewrite length_map. destruct (decide (_ ∈ flat_from _ _)) as [Hr|Hr].
      * rewrite decide_True by (apply elem_of_app; by right). lia.
      * by rewrite decide_False by (rewrite elem_of_app; naive_solver).
    + rewrite IH. rewrite (decide_False (P := _ ∈ map _ _)) by naive_solver.
      rewrite length_map. destruct (decide (_ ∈ flat_from _ _)) as [Hr|Hr].
      * rewrite decide_True by (apply elem_of_app; by right). lia.
      * by rewrite decide_False by (rewrite elem_of_app; naive_solver).
Qed.

Lemma flatIndex_flat i a h : flatIndexLocked i a h = position (flat h) (i, a).
Proof.
  unfold flatIndexLocked. rewrite flatIndex_specs_spec. fold (flat h).
  destruct (decide _) as [H|H]; [lia|]. by rewrite position_none.
Qed.

Lemma contains_elem l a : containsAddrPort l a = bool_decide (a ∈ l).
Proof.
  induction l as [|b l IH]; cbn.
  - by rewrite bool_decide_eq_false_2 by apply not_elem_of_nil.
  - rewrite IH. repeat case_bool_decide; set_solver.
Qed.

Lemma allDown_spec hs : allDownLocked hs = bool_decide (hs <> [] /\ Forall (StateDown =.) hs).
Proof.
  unfold allDownLocked. destruct hs as [|s hs].
  - by rewrite bool_decide_eq_false_2 by naive_solver.
  - cbn [length Nat.eqb].
    assert (forall l, allDown_loop l = bool_decide (Forall (StateDown =.) l)) as ->.
    { induction l as [|x l IH]; cbn; [done|]. rewrite IH.
      repeat case_bool_decide; cbn; try done; exfalso; rewrite Forall_cons in *; naive_solver. }
    apply bool_decide_ext. naive_solver.
Qed.

Lemma snapshot_addrs_app i n l k :
  (k < length l)%nat ->
  snapshot_addrs i n l !! k = (fun a => mkEndpointState a (n + Z.of_nat k =? i)) <$> (l !! k).
Proof.
  revert n k. induction l as [|a l IH]; intros n [|k] Hk; cbn in *; try lia.
  - by rewrite Z.add_0_r.
  - rewrite IH by lia. destruct (l !! k); [|done]. cbn. do 2 f_equal. f_equal. lia.
Qed.

Lemma snapshot_addrs_length i n l : length (snapshot_addrs i n l) = length l.
Proof. revert n. induction l; intros; cbn; [done|]. by rewrite IHl. Qed.

Lemma snapshot_flat i n si ss :
  snapshot_specs i n ss =
    imap (fun k e => mkEndpointState (snd e) (n + Z.of_nat k =? i)) (flat_from si ss).
Proof.
  revert n si. induction ss as [|s ss IH]; intros n si; cbn [snapshot_specs flat_from]; [done|].
  rewrite imap_app, (IH _ (si + 1)). f_equal.
  - apply list_eq. intros k. rewrite list_lookup_imap, list_lookup_fmap.
    destruct (decide (k < length (addrs s))%nat) as [Hk|Hk].
    + rewrite snapshot_addrs_app by done. by destruct (addrs s !! k).
    + rewrite (lookup_ge_None_2 (snapshot_addrs _ _ _)) by (rewrite snapshot_addrs_length; lia).
      by rewrite lookup_ge_None_2 by lia.
  - apply imap_ext. intros k e _. cbn. rewrite length_map. do 2 f_equal. lia.
Qed.
(** ** Membership, and what a re-resolution does to the list *)
Lemma elem_flat si ss s a :
  (s, a) ∈ flat_from si ss <->
  exists k sp, ss !! k = Some sp /\ s = si + Z.of_nat k /\ a ∈ addrs sp.
Proof.
  revert si. induction ss as [|x ss IH]; intros si; cbn [flat_from].
  - split; [by intros ?%elem_of_nil|]. intros (k & sp & H & _). by rewrite lookup_nil in H.
  - rewrite elem_of_app, list_elem_of_fmap, IH. split.
    + intros [(? & [= -> ->] & H)|(k & sp & H & -> & Ha)].
      * exists 0%nat, x. split; [done|]. split; [lia|done].
      * exists (S k), sp. split; [done|]. split; [lia|done].
    + intros ([|k] & sp & H & -> & Ha); cbn in H.
      * injection H as ->. left. exists a. split; [|done]. f_equal. lia.
      * right. exists k, sp. split; [done|]. split; [lia|done].
Qed.

Definition specs_ok (ss : list failoverSpec) : Prop := Forall (fun s => NoDup (addrs s)) ss.

Lemma flat_nodup si ss : specs_ok ss -> NoDup (flat_from si ss).
Proof.
  intros H. revert si. induction H as [|s ss Hs _ IH]; intros si; cbn; [constructor|].
  apply NoDup_app. split; [apply NoDup_fmap_2; [intros x y [= ->]; done|done]|]. split; [|done].
  intros [j a] (? & [= -> ->] & _)%list_elem_of_fmap Hr. apply flat_from_fst in Hr. lia.
Qed.

Definition republish (i : Z) (l : list AddrPort) (ss : list failoverSpec) : list failoverSpec :=
  alter (fun s => s <| addrs := l |>) (Z.to_nat i) ss.

Lemma republish_ok i l ss : NoDup l -> specs_ok ss -> specs_ok (republish i l ss).
Proof. intros Hl H. apply Forall_alter; [done|]. intros x _ _. exact Hl. Qed.

Lemma elem_republish i l ss s a :
  0 <= i < Z.of_nat (length ss) ->
  (s, a) ∈ flat_from 0 (republish i l ss) <->
  (s = i /\ a ∈ l) \/ (s <> i /\ (s, a) ∈ flat_from 0 ss).
Proof.
  intros Hi. rewrite !elem_flat. unfold republish. split.
  - intros (k & sp & H & -> & Ha). destruct (decide (k = Z.to_nat i)) as [->|Hne].
    + left. rewrite list_lookup_alter_eq in H. destruct (ss !! Z.to_nat i); [|done].
      injection H as <-. split; [lia|done].
    + right. rewrite list_lookup_alter_ne in H by done. split; [lia|]. eauto.
  - intros [[-> Ha]|[Hne (k & sp & H & -> & Ha)]].
    + destruct (lookup_lt_is_Some_2 ss (Z.to_nat i)) as [x Hx]; [lia|].
      exists (Z.to_nat i), (x <| addrs := l |>). rewrite list_lookup_alter_eq, Hx.
      split; [done|]. split; [lia|done].
    + exists k, sp. rewrite list_lookup_alter_ne by lia. done.
Qed.

(** ** The controller's invariant

    Expansions hold no address twice, [idx] is the place of the active entry,
    and there is one as soon as the list is not empty. *)
Definition active (h : hubFailover) : Z * AddrPort := (activeSpec h, activeAddr h).
Definition located (h : hubFailover) : Prop := idx h = position (flat h) (active h).
Definition ok (h : hubFailover) : Prop :=
  specs_ok (specs h) /\ located h /\
  ((activeSpec h = -1 /\ flat h = []) \/ active h ∈ flat h).

Lemma entry_elem l i : 0 <= i < Z.of_nat (length l) -> entry l i ∈ l.
Proof.
  intros H. unfold entry. destruct (lookup_lt_is_Some_2 l (Z.to_nat i)) as [e He]; [lia|].
  rewrite He. cbn. apply list_elem_of_lookup. eauto.
Qed.

Lemma position_entry l i : NoDup l -> 0 <= i < Z.of_nat (length l) -> position l (entry l i) = i.
Proof.
  intros Hn H. unfold entry. destruct (lookup_lt_is_Some_2 l (Z.to_nat i)) as [e He]; [lia|].
  rewrite He. cbn. rewrite (position_nodup _ _ _ Hn He). lia.
Qed.

Lemma active_nonneg h : active h ∈ flat h -> 0 <= activeSpec h.
Proof. apply flat_from_fst. Qed.

Lemma ok_active h : ok h -> flat h <> [] -> active h ∈ flat h.
Proof. intros (_ & _ & [[_ H]|H]) Hne; done. Qed.

(** Re-mapping [idx] establishes its part of the invariant. *)
Definition remap (h : hubFailover) : hubFailover :=
  h <| idx := flatIndexLocked (activeSpec h) (activeAddr h) h |>.

Lemma remap_ok h :
  specs_ok (specs h) ->
  ((activeSpec h = -1 /\ flat h = []) \/ active h ∈ flat h) ->
  ok (remap h).
Proof. intros H1 H2. split; [done|]. split; [exact (flatIndex_flat (activeSpec h) (activeAddr h) h)|done]. Qed.

Lemma new_ok ss rh st now : specs_ok ss -> ok (newHubFailoverFromSpecs ss rh st now).
Proof.
  intros Hs. unfold newHubFailoverFromSpecs. rewrite entryAt_flat by lia.
  unfold flat at 1. cbn [specs]. destruct (entry (flat_from 0 ss) 0) as [i a] eqn:E.
  cbv zeta. apply remap_ok; [done|].
  unfold active, flat. cbn. destruct (flat_from 0 ss) as [|e l] eqn:F.
  - left. cbn in E. by injection E as <- <-.
  - right. change (e = (i, a)) in E. rewrite E. apply list_elem_of_here.
Qed.

(** A list of addresses a re-resolution may publish: not empty, no repeats. *)
Definition publishable (l : list AddrPort) : Prop := l <> [] /\ NoDup l.

(** *** What [updateResolution] does, by case *)
Inductive update_case (i : Z) (l : list AddrPort) (now : Time) (h : hubFailover) :
    hubFailover -> list action -> Prop :=
  | upd_none : (i < 0 \/ Z.of_nat (length (specs h)) <= i) -> update_case i l now h h []
  | upd_adopt h' s a : activeSpec h = -1 ->
      entry (flat_from 0 (republish i l (specs h))) 0 = (s, a) -> s <> -1 ->
      h' = h <| specs := republish i l (specs h) |> <| activeSpec := s |> <| activeAddr := a |>
             <| lastSwitch := now |> ->
      update_case i l now h (remap h') (Install a :: rehandshakes h)
  | upd_move h' a rest : activeSpec h = i -> l = a :: rest -> activeAddr h ∉ l ->
      0 <= i < Z.of_nat (length (specs h)) ->
      h' = h <| specs := republish i l (specs h) |> <| activeAddr := a |> <| lastSwitch := now |> ->
      update_case i l now h (remap h') (SetPeerRemote a :: rehandshakes h)
  | upd_keep h' : 0 <= i < Z.of_nat (length (specs h)) ->
      (activeSpec h = i -> l = [] \/ activeAddr h ∈ l) ->
      (activeSpec h = -1 -> fst (entry (flat_from 0 (republish i l (specs h))) 0) = -1) ->
      h' = h <| specs := republish i l (specs h) |> ->
      update_case i l now h (remap h') [].

Lemma updateResolution_case i l now h :
  update_case i l now h (fst (updateResolution i l now h)) (snd (updateResolution i l now h)).
Proof.
  unfold updateResolution.
  destruct (Z.ltb_spec i 0) as [Hi|Hi]; cbn [orb fst snd]; [by apply upd_none; left|].
  destruct (Z.leb_spec (Z.of_nat (length (specs h))) i) as [Hn|Hn]; cbn [fst snd];
    [by apply upd_none; right|].
  fold (republish i l (specs h)). cbv zeta.
  set (h1 := h <| specs := republish i l (specs h) |>).
  change (activeSpec h1) with (activeSpec h). change (activeAddr h1) with (activeAddr h).
  destruct (Z.eqb_spec (activeSpec h) (-1)) as [E1|E1].
  - rewrite entryAt_flat by lia. change (flat h1) with (flat_from 0 (republish i l (specs h))).
    destruct (entry _ 0) as [s a] eqn:E. destruct (Z.eqb_spec s (-1)) as [->|Hs]; cbn [fst snd].
    + apply (upd_keep i l now h h1); [done|lia| |done]. by rewrite E.
    + by eapply (upd_adopt i l now h
        (h1 <| activeSpec := s |> <| activeAddr := a |> <| lastSwitch := now |>) s a).
  - destruct (Z.eqb_spec i (activeSpec h)) as [E2|E2].
    + destruct l as [|first rest].
      * by apply (upd_keep i [] now h h1); [|left| |].
      * rewrite contains_elem. case_bool_decide as Hin; cbn [negb fst snd].
        -- by apply (upd_keep i (first :: rest) now h h1); [|right| |].
        -- by apply (upd_move i (first :: rest) now h
             (h1 <| activeAddr := first |> <| lastSwitch := now |>) first rest).
    + by apply (upd_keep i l now h h1).
Qed.

Lemma update_ok i l now h :
  publishable l -> ok h -> ok (fst (updateResolution i l now h)).
Proof.
  intros [Hne Hnd] (Hs & Hl & Ha).
  destruct (updateResolution_case i l now h) as
    [Hi|h' s a E1 E2 Hs' ->|h' a rest E1 -> Hin Hi ->|h' Hi Hk H1 ->].
  - done.
  - apply remap_ok; [by apply republish_ok|].
    right. unfold active, flat. cbn. destruct (flat_from 0 (republish i l (specs h))) as [|e fl].
    + by injection E2 as <- <-.
    + change (e = (s, a)) in E2. rewrite E2. apply list_elem_of_here.
  - apply remap_ok; [by apply republish_ok|].
    right. apply elem_republish; [done|]. left. split; [done|apply list_elem_of_here].
  - apply remap_ok; [by apply republish_ok|].
    right. apply elem_republish; [done|]. change (activeSpec (h <| specs := _ |>)) with (activeSpec h).
    change (activeAddr (h <| specs := _ |>)) with (activeAddr h).
    destruct Ha as [[E Hf]|Ha].
    + specialize (H1 E). destruct l as [|x l]; [done|]. exfalso.
      assert ((i, x) ∈ flat_from 0 (republish i (x :: l) (specs h))) as Hx.
      { apply elem_republish; [done|]. left. split; [done|apply list_elem_of_here]. }
      destruct (flat_from 0 (republish i (x :: l) (specs h))) as [|[s a] fl] eqn:F;
        [by apply elem_of_nil in Hx|].
      change (s = -1) in H1. rewrite H1 in F.
      assert ((-1, a) ∈ flat_from 0 (republish i (x :: l) (specs h))) as Hm.
      { rewrite F. apply list_elem_of_here. }
      apply flat_from_fst in Hm. lia.
    + destruct (decide (activeSpec h = i)) as [E|E]; [left|right; done].
      split; [done|]. by destruct (Hk E).
Qed.

(** *** What [checkLocked] does, by case *)
Definition onset (now : Time) (h : hubFailover) : hubFailover :=
  if is_zero_time (downSince h) then h <| downSince := now |> else h.
Definition total (h : hubFailover) : Z := Z.of_nat (length (flat h)).
Definition latch (h : hubFailover) : hubFailover := h <| exhaustedLatched := true |>.
Definition next (h : hubFailover) : Z := (position (flat h) (active h) + 1) mod total h.
Definition moved (now : Time) (h : hubFailover) : hubFailover :=
  h <| activeSpec := fst (entry (flat h) (next h)) |>
    <| activeAddr := snd (entry (flat h) (next h)) |> <| idx := next h |> <| lastSwitch := now |>.

Inductive check_case (hs : list PathState) (now : Time) (h : hubFailover) :
    hubFailover -> list action -> bool -> Prop :=
  | chk_none : flat h = [] -> check_case hs now h h [] false
  | chk_up : flat h <> [] -> allDownLocked hs = false ->
      check_case hs now h
        (h <| downAdvances := 0 |> <| exhaustedLatched := false |> <| downSince := 0 |>) [] false
  | chk_wait : flat h <> [] -> allDownLocked hs = true ->
      (2 <= total h -> time_sub now (lastSwitch h) < settle h) ->
      check_case hs now h (onset now h) [] false
  | chk_single : total h = 1 -> allDownLocked hs = true ->
      settle h <= time_sub now (downSince (onset now h)) ->
      check_case hs now h (latch (onset now h)) [] (negb (exhaustedLatched h))
  | chk_move : 2 <= total h -> allDownLocked hs = true ->
      settle h <= time_sub now (lastSwitch h) -> downAdvances h + 1 < total h ->
      check_case hs now h
        (moved now (onset now h) <| downAdvances := downAdvances h + 1 |>)
        (SetPeerRemote (snd (entry (flat h) (next h))) :: rehandshakes h) false
  | chk_wrap : 2 <= total h -> allDownLocked hs = true ->
      settle h <= time_sub now (lastSwitch h) -> total h <= downAdvances h + 1 ->
      check_case hs now h
        (latch (moved now (onset now h) <| downAdvances := 0 |>))
        (SetPeerRemote (snd (entry (flat h) (next h))) :: rehandshakes h)
        (negb (exhaustedLatched h)).

Lemma onset_keeps now h :
  specs (onset now h) = specs h /\ flat (onset now h) = flat h /\ active (onset now h) = active h /\
  idx (onset now h) = idx h /\ lastSwitch (onset now h) = lastSwitch h /\
  settle (onset now h) = settle h /\ exhaustedLatched (onset now h) = exhaustedLatched h /\
  downAdvances (onset now h) = downAdvances h /\ rehandshake (onset now h) = rehandshake h /\
  onExhausted (onset now h) = onExhausted h.
Proof. unfold onset. destruct (is_zero_time _); done. Qed.

Lemma raise_spec h : raiseExhaustedLocked h = (latch h, negb (exhaustedLatched h)).
Proof. unfold raiseExhaustedLocked, latch. destruct h as [????????[] ??]; done. Qed.

Lemma next_range h : flat h <> [] -> 0 <= next h < total h.
Proof. intros H. apply Z.mod_pos_bound. unfold total. destruct (flat h); [done|cbn; lia]. Qed.

Lemma advance_spec now h :
  active h ∈ flat h ->
  advance (total h) now h =
    let h' := moved now h in
    if total h <=? downAdvances h + 1
    then (latch (h' <| downAdvances := 0 |>),
          SetPeerRemote (snd (entry (flat h) (next h))) :: rehandshakes h, negb (exhaustedLatched h))
    else (h' <| downAdvances := downAdvances h + 1 |>,
          SetPeerRemote (snd (entry (flat h) (next h))) :: rehandshakes h, false).
Proof.
  intros Ha. unfold advance. rewrite flatIndex_flat. fold (active h).
  destruct (position_lookup _ _ Ha) as [Hp Hl]. apply lookup_lt_Some in Hl.
  assert (flat h <> []) as Hne by (intros E; rewrite E in Ha; by apply elem_of_nil in Ha).
  rewrite (proj2 (Z.ltb_ge _ 0)) by lia.
  rewrite Z.rem_mod_nonneg by (unfold total; lia). fold (next h).
  pose proof (next_range h Hne). rewrite entryAt_flat by lia. cbv zeta.
  destruct (entry (flat h) (next h)) as [s a] eqn:E.
  unfold moved. rewrite E. cbn [fst snd].
  match goal with |- context [if total h <=? ?x then _ else _] =>
    change x with (downAdvances h + 1) end.
  destruct (total h <=? downAdvances h + 1); [rewrite raise_spec|]; reflexivity.
Qed.

Lemma checkLocked_case hs now h :
  ok h ->
  check_case hs now h (fst (fst (checkLocked hs now h))) (snd (fst (checkLocked hs now h)))
    (snd (checkLocked hs now h)).
Proof.
  intros Hok. unfold checkLocked. rewrite flatLen_flat. fold (total h).
  destruct (Z.eqb_spec (total h) 0) as [E|E].
  { cbn [fst snd]. apply chk_none. unfold total in E. destruct (flat h); [done|cbn in E; lia]. }
  assert (flat h <> []) as Hne by (intros F; apply E; unfold total; by rewrite F).
  destruct (allDownLocked hs) eqn:Hd; cbn [negb]; [|by apply chk_up].
  fold (onset now h). cbv zeta.
  destruct (onset_keeps now h) as (K1 & K2 & K3 & K4 & K5 & K6 & K7 & K8 & K9 & K10).
  destruct (Z.ltb_spec (total h) 2) as [H2|H2].
  - destruct (Z.ltb_spec (time_sub now (downSince (onset now h))) (settle (onset now h))) as [Hs|Hs].
    + apply chk_wait; [done|done|lia].
    + rewrite raise_spec, K7. apply chk_single; [|done|by rewrite <- K6].
      unfold total in *. destruct (flat h); [done|cbn in *; lia].
  - rewrite K5, K6. destruct (Z.ltb_spec (time_sub now (lastSwitch h)) (settle h)) as [Hs|Hs].
    + by apply chk_wait.
    + assert (total h = total (onset now h)) as T by (unfold total; by rewrite K2).
      assert (next (onset now h) = next h) as N by (unfold next, total; by rewrite K2, K3).
      rewrite T, advance_spec by (rewrite K2, K3; by apply ok_active). rewrite <- T. cbv zeta.
      assert (rehandshakes (onset now h) = rehandshakes h) as R by (unfold rehandshakes; by rewrite K9).
      rewrite K8, K7, K2, N, R.
      destruct (Z.leb_spec (total h) (downAdvances h + 1)); cbn [fst snd];
        [by apply chk_wrap|by apply chk_move].
Qed.

Lemma moved_ok now h : ok h -> flat h <> [] -> ok (moved now h).
Proof.
  intros (Hs & _ & _) Hne. pose proof (next_range h Hne) as Hr. fold (total h) in Hr.
  assert (NoDup (flat h)) as Hn by (by apply flat_nodup).
  split; [done|]. split.
  - change (next h = position (flat h) (fst (entry (flat h) (next h)), snd (entry (flat h) (next h)))).
    rewrite <- surjective_pairing. by rewrite position_entry.
  - right. change ((fst (entry (flat h) (next h)), snd (entry (flat h) (next h))) ∈ flat h).
    rewrite <- surjective_pairing. by apply entry_elem.
Qed.

(** The invariant reads only the entries and the active one. *)
Lemma ok_ext h h' :
  specs h' = specs h -> active h' = active h -> idx h' = idx h -> ok h -> ok h'.
Proof.
  intros E1 E2 E3 (Hs & Hl & Ha). unfold ok, located, flat in *. rewrite E1, E2, E3.
  injection E2 as -> _. done.
Qed.

Lemma onset_ok now h : ok h -> ok (onset now h).
Proof. pose proof (onset_keeps now h). apply ok_ext; intuition. Qed.

Lemma check_ok hs now h : ok h -> ok (fst (fst (checkLocked hs now h))).
Proof.
  intros Hok. destruct (checkLocked_case hs now h Hok) as [Hf|Hf Hd|Hf Hd Hw|Ht Hd Hs|Ht Hd Hs Hm|Ht Hd Hs Hm];
    try done.
  - by apply onset_ok.
  - by apply (ok_ext (onset now h)), onset_ok.
  - apply (ok_ext (moved now (onset now h))); [done..|]. apply moved_ok; [by apply onset_ok|].
    rewrite (proj1 (proj2 (onset_keeps now h))). intros F. unfold total in Ht. rewrite F in Ht. cbn in Ht. lia.
  - apply (ok_ext (moved now (onset now h))); [done..|]. apply moved_ok; [by apply onset_ok|].
    rewrite (proj1 (proj2 (onset_keeps now h))). intros F. unfold total in Ht. rewrite F in Ht. cbn in Ht. lia.
Qed.

End failover_ok.
