(* ===== verification/FailoverProps.v ===== *)
(** * Hub failover: what the controller guarantees

    Runs are arbitrary interleavings of re-resolutions, checks and
    (un)subscriptions; each call holds the controller's lock throughout. *)

From stdpp Require Import base tactics list numbers strings sets.
From S2P Require Import Prelude Frame Telemetry Netip Config Failover FailoverTheory.

Module failover_props.
Import telemetry failover failover_ok.

(** ** Runs *)
Inductive event :=
  | Update (specIdx : Z) (l : list AddrPort) (now : Time)
  | Check (health : list PathState) (now : Time)
  | Subscribe (cb : option string).

Definition exec (ev : event) (h : hubFailover) : hubFailover * list action * bool :=
  match ev with
  | Update i l now => let '(h, acts) := updateResolution i l now h in (h, acts, false)
  | Check hs now => checkLocked hs now h
  | Subscribe cb => (SetOnExhausted cb h, [], false)
  end.
Definition after (ev : event) (h : hubFailover) : hubFailover := fst (fst (exec ev h)).
Definition acts (ev : event) (h : hubFailover) : list action := snd (fst (exec ev h)).
Definition raised (ev : event) (h : hubFailover) : bool := snd (exec ev h).

Definition state (evs : list event) (h : hubFailover) : hubFailover :=
  fold_left (fun h ev => after ev h) evs h.
Fixpoint actions (evs : list event) (h : hubFailover) : list action :=
  match evs with
  | [] => []
  | ev :: evs => acts ev h ++ actions evs (after ev h)
  end.
Fixpoint trace (evs : list event) (h : hubFailover) : list (list action * bool) :=
  match evs with
  | [] => []
  | ev :: evs => (acts ev h, raised ev h) :: trace evs (after ev h)
  end.

(** A re-resolution publishes a list without repeats that is not empty
    (what [resolution] guarantees). *)
Definition event_ok (ev : event) : Prop :=
  match ev with Update _ l _ => publishable l | _ => True end.

Lemma after_update i l now h : after (Update i l now) h = fst (updateResolution i l now h).
Proof. unfold after. cbn. by destruct (updateResolution i l now h). Qed.

Lemma acts_update i l now h : acts (Update i l now) h = snd (updateResolution i l now h).
Proof. unfold acts. cbn. by destruct (updateResolution i l now h). Qed.

Lemma after_ok ev h : event_ok ev -> ok h -> ok (after ev h).
Proof.
  destruct ev as [i l now|hs now|cb]; intros He Hok.
  - rewrite after_update. by apply update_ok.
  - by apply check_ok.
  - by apply (ok_ext h).
Qed.

Lemma state_ok evs h : Forall event_ok evs -> ok h -> ok (state evs h).
Proof.
  intros H. revert h. induction H as [|ev evs He _ IH]; intros h Hok; [done|].
  apply IH. by apply after_ok.
Qed.

(** ** The bond follows the active entry *)

(** The endpoint the bond points at after the given calls. *)
Definition target1 (a : AddrPort) (x : action) : AddrPort :=
  match x with SetPeerRemote b | Install b => b | Rehandshake => a end.
Definition target (a : AddrPort) (l : list action) : AddrPort := fold_left target1 l a.

(** The calls of one step: none, or one move and, where wired, one handshake. *)
Definition one_move (h : hubFailover) (l : list action) : Prop :=
  l = [] \/ exists a, (l = SetPeerRemote a :: rehandshakes h \/ l = Install a :: rehandshakes h).

Lemma target_move h b l : one_move h l -> l <> [] -> forall a, target a l = target b l.
Proof.
  intros [->|(x & [-> | ->])] Hne a; [done| |]; unfold target, rehandshakes; by destruct (rehandshake h).
Qed.

Lemma after_move ev h :
  ok h -> one_move h (acts ev h) /\
  activeAddr (after ev h) = target (activeAddr h) (acts ev h) /\
  (activeSpec h <> -1 \/ activeSpec (after ev h) = -1 \/ acts ev h <> []).
Proof.
  intros Hok. destruct ev as [i l now|hs now|cb].
  - rewrite after_update, acts_update. destruct (updateResolution_case i l now h) as
      [Hi|h' s a E1 E2 Hs ->|h' a rest E1 -> Hin Hi ->|h' Hi Hk H1 ->]; unfold target, rehandshakes, one_move.
    + split; [by left|]. split; [done|]. destruct (decide (activeSpec h = -1)); auto.
    + split; [right; exists a; by right|]. split; [by destruct (rehandshake h)|]. by right; right.
    + split; [right; exists a; by left|]. split; [by destruct (rehandshake h)|]. by right; right.
    + split; [by left|]. split; [done|]. destruct (decide (activeSpec h = -1)) as [E|E]; auto.
  - destruct (onset_keeps now h) as (_ & K2 & K3 & _). unfold acts, after. cbn [exec].
    assert (next (onset now h) = next h) as N by (unfold next, total; by rewrite K2, K3).
    destruct (checkLocked_case hs now h Hok); unfold target, rehandshakes, one_move.
    + split; [by left|]. split; [done|]. destruct (decide (activeSpec h = -1)); auto.
    + split; [by left|]. split; [done|]. destruct (decide (activeSpec h = -1)); auto.
    + injection K3 as K3 K3'. split; [by left|]. split; [done|].
      rewrite K3. destruct (decide (activeSpec h = -1)); auto.
    + injection K3 as K3 K3'. split; [by left|]. split; [done|].
      change (activeSpec (latch (onset now h))) with (activeSpec (onset now h)).
      rewrite K3. destruct (decide (activeSpec h = -1)); auto.
    + split; [right; eexists; by left|]. split; [|by right; right].
      transitivity (snd (entry (flat (onset now h)) (next (onset now h)))); [done|].
      rewrite K2, N. by destruct (rehandshake h).
    + split; [right; eexists; by left|]. split; [|by right; right].
      transitivity (snd (entry (flat (onset now h)) (next (onset now h)))); [done|].
      rewrite K2, N. by destruct (rehandshake h).
  - split; [by left|]. split; [done|]. destruct (decide (activeSpec h = -1)); auto.
Qed.

Lemma actions_target evs h :
  Forall event_ok evs -> ok h ->
  activeAddr (state evs h) = target (activeAddr h) (actions evs h).
Proof.
  intros H. revert h. induction H as [|ev evs He _ IH]; intros h Hok; [done|].
  cbn [state fold_left actions]. fold (state evs (after ev h)).
  rewrite IH by (by apply after_ok). unfold target. rewrite fold_left_app.
  f_equal. by apply after_move.
Qed.

Lemma imap_filter_one {A} (f : A -> AddrPort) n i l :
  (i < length l)%nat ->
  List.filter es_active (imap (fun k e => mkEndpointState (f e) (Z.of_nat n + Z.of_nat k =? Z.of_nat (n + i))) l)
  = from_option (fun e => [mkEndpointState (f e) true]) [] (l !! i).
Proof.
  revert n i. induction l as [|x l IH]; intros n i Hi; cbn in Hi; [lia|].
  rewrite imap_cons. cbn [List.filter es_active].
  assert (forall j, imap ((fun k e => mkEndpointState (f e) (Z.of_nat n + Z.of_nat k =? j)) ∘ S) l
          = imap (fun k e => mkEndpointState (f e) (Z.of_nat (S n) + Z.of_nat k =? j)) l) as ->.
  { intros j. apply imap_ext. intros k e _. cbn. f_equal. f_equal. lia. }
  destruct i as [|i].
  - rewrite (proj2 (Z.eqb_eq _ _)) by lia. cbn. f_equal.
    assert (forall m (l : list A), (m > n)%nat ->
      List.filter es_active (imap (fun k e => mkEndpointState (f e) (Z.of_nat m + Z.of_nat k =? Z.of_nat (n + 0))) l) = [])
      as H; [|by apply H; lia].
    clear. intros m l. revert m. induction l as [|y l IH]; intros m Hm; [done|].
    rewrite imap_cons. cbn [List.filter es_active]. rewrite (proj2 (Z.eqb_neq _ _)) by lia.
    rewrite <- (IH (S m)) by lia. f_equal. apply imap_ext. intros k e _. cbn. f_equal. f_equal. lia.
  - rewrite (proj2 (Z.eqb_neq _ _)) by lia.
    change ((x :: l) !! S i) with (l !! i). rewrite <- (IH (S n) i) by lia. f_equal. apply imap_ext. intros k e _. f_equal. f_equal. lia.
Qed.

(** The snapshot marks the active entry and no other. *)
Lemma snapshot_active h :
  ok h -> flat h <> [] ->
  map es_addr (EndpointsSnapshot h) = map snd (flat h) /\
  List.filter es_active (EndpointsSnapshot h) = [mkEndpointState (activeAddr h) true].
Proof.
  intros Hok Hne. pose proof (ok_active h Hok Hne) as Ha. destruct Hok as (_ & Hl & _).
  unfold EndpointsSnapshot. rewrite (snapshot_flat _ _ 0), Hl. fold (flat h).
  destruct (position_lookup _ _ Ha) as [Hp He].
  replace (position (flat h) (active h)) with (Z.of_nat (0 + Z.to_nat (position (flat h) (active h)))) by lia.
  split.
  - change (@map ?A ?B) with (@fmap list _ A B). rewrite fmap_imap, <- imap_const. done.
  - change 0 with (Z.of_nat 0) at 1. rewrite imap_filter_one by (by eapply lookup_lt_Some).
    by rewrite He.
Qed.

(** ** Round robin *)

(** Some paths are monitored and every one of them is down. *)
Definition all_down (hs : list PathState) : Prop := hs <> [] /\ Forall (StateDown =.) hs.
#[local] Instance all_down_dec hs : Decision (all_down hs).
Proof. unfold all_down. apply _. Defined.

Lemma allDown_all hs : allDownLocked hs = bool_decide (all_down hs).
Proof. rewrite allDown_spec. apply bool_decide_ext. done. Qed.

(** The moves an outage still has to see before it is signalled; [None] when it was. *)
Definition needs (h : hubFailover) : option Z :=
  if exhaustedLatched h then None else Some (total h - downAdvances h).

(** The reference: starting after position [p] of the list, each check that finds
    every path down, [st] or more after the last move, moves one place on,
    cyclically, and signals when it is the last move [w] asks for; a check that
    finds a path up only starts the count again, at the length of the list. *)
Fixpoint robin (l : list (Z * AddrPort)) (rh : list action) (st last p : Z) (w : option Z)
    (cs : list (list PathState * Time)) : list (list action * bool) :=
  match cs with
  | [] => []
  | (hs, t) :: cs =>
      let n := Z.of_nat (length l) in
      if decide (all_down hs) then
        if st <=? time_sub t last then
          let p := (p + 1) mod n in
          let now := match w with Some w => w <=? 1 | None => false end in
          (SetPeerRemote (snd (entry l p)) :: rh, now)
            :: robin l rh st t p (if now then None else Z.pred <$> w) cs
        else ([], false) :: robin l rh st last p w cs
      else ([], false) :: robin l rh st last p (Some n) cs
  end.

(** The moves of a run of checks, and the signals. *)
Definition moves (tr : list (list action * bool)) : nat :=
  length (List.filter (fun x => negb (bool_decide (fst x = []))) tr).
Definition signals (tr : list (list action * bool)) : nat := length (List.filter snd tr).

Lemma check_up hs t h : ok h -> 2 <= total h -> ~ all_down hs ->
  checkLocked hs t h = (h <| downAdvances := 0 |> <| exhaustedLatched := false |> <| downSince := 0 |>, [], false).
Proof.
  intros Hok H2 Hd. assert (allDownLocked hs = false) as D by (rewrite allDown_all; by apply bool_decide_eq_false_2).
  rewrite (surjective_pairing (checkLocked hs t h)), (surjective_pairing (checkLocked hs t h).1).
  destruct (checkLocked_case hs t h Hok) as [Hf| | | | |]; try done; try congruence.
  unfold total in H2. rewrite Hf in H2. cbn in H2. lia.
Qed.

Lemma check_down hs t h :
  ok h -> 2 <= total h -> all_down hs ->
  let ev := Check hs t in
  let due := settle h <=? time_sub t (lastSwitch h) in
  let now := match needs h with Some w => w <=? 1 | None => false end in
  acts ev h = (if due then SetPeerRemote (snd (entry (flat h) (next h))) :: rehandshakes h else []) /\
  raised ev h = due && now /\
  needs (after ev h) = (if due then if now then None else Z.pred <$> needs h else needs h) /\
  lastSwitch (after ev h) = (if due then t else lastSwitch h) /\
  position (flat h) (active (after ev h)) = (if due then next h else position (flat h) (active h)) /\
  flat (after ev h) = flat h /\ settle (after ev h) = settle h /\ rehandshake (after ev h) = rehandshake h.
Proof.
  intros Hok H2 Hd. apply (bool_decide_eq_true_2 (all_down hs)) in Hd. rewrite <- allDown_all in Hd.
  cbv zeta. unfold acts, raised, after, needs. cbn [exec].
  destruct (onset_keeps t h) as (_ & K2 & K3 & _ & K5 & K6 & K7 & K8 & K9 & _).
  assert (next (onset t h) = next h) as N by (unfold next, total; by rewrite K2, K3).
  assert (flat h <> []) as Hne by (intros F; unfold total in H2; rewrite F in H2; cbn in H2; lia).
  assert (position (flat h) (entry (flat h) (next h)) = next h) as P.
  { apply position_entry; [apply flat_nodup, Hok|]. apply next_range, Hne. }
  assert (position (flat h) (active (moved t (onset t h))) = next h) as P'.
  { transitivity (position (flat h) (entry (flat (onset t h)) (next (onset t h))));
      [by unfold active; cbn; rewrite <- surjective_pairing|]. by rewrite K2, N. }
  destruct (checkLocked_case hs t h Hok) as [Hf|Hf Hu|Hf _ Hw|Ht _ Hs|Ht _ Hs Hm|Ht _ Hs Hm];
    try done; try congruence; try lia.
  - rewrite (proj2 (Z.leb_gt _ _)) by (by apply Hw). cbn [andb fst snd].
    unfold total. rewrite K2, K3, K8, K7, K9. auto 10.
  - rewrite (proj2 (Z.leb_le _ _)) by done. cbn [andb fst snd].
    split; [done|]. split; [by destruct (exhaustedLatched h); [|rewrite (proj2 (Z.leb_gt _ _)) by lia]|].
    split; [|by split_and!].
    change (exhaustedLatched (moved t (onset t h) <| downAdvances := downAdvances h + 1 |>)) with (exhaustedLatched (onset t h)).
    rewrite K7. destruct (exhaustedLatched h); [done|]. rewrite (proj2 (Z.leb_gt _ _)) by lia. 
    change (Some (total (onset t h) - (downAdvances h + 1)) = Some (Z.pred (total h - downAdvances h))).
    f_equal. unfold total. rewrite K2. lia.
  - rewrite (proj2 (Z.leb_le _ _)) by done. cbn [andb fst snd].
    split; [done|]. split; [by destruct (exhaustedLatched h); [|rewrite (proj2 (Z.leb_le _ _)) by lia]|].
    split; [|by split_and!]. cbn. destruct (exhaustedLatched h); [done|]. by rewrite (proj2 (Z.leb_le _ _)) by lia.
Qed.

Definition checks (cs : list (list PathState * Time)) : list event :=
  map (fun c => Check (fst c) (snd c)) cs.

Lemma trace_robin cs h :
  ok h -> 2 <= total h ->
  trace (checks cs) h =
    robin (flat h) (rehandshakes h) (settle h) (lastSwitch h) (position (flat h) (active h)) (needs h) cs.
Proof.
  revert h. induction cs as [|[hs t] cs IH]; intros h Hok H2; [done|].
  cbn [checks map trace robin fst snd]. fold (checks cs). fold (total h).
  pose proof (after_ok (Check hs t) h I Hok) as Hok'. specialize (IH (after (Check hs t) h) Hok').
  destruct (decide (all_down hs)) as [Hd|Hd].
  - destruct (check_down hs t h Hok H2 Hd) as (E1 & E2 & E3 & E4 & E5 & E6 & E7 & E8).
    rewrite E1, E2. change ((position (flat h) (active h) + 1) mod total h) with (next h).
    unfold total at 1, rehandshakes at 1 in IH. rewrite E3, E4, E6, E7, E8, E5 in IH.
    fold (total h) (rehandshakes h) in IH.
    destruct (settle h <=? time_sub t (lastSwitch h)); cbn [andb]; f_equal; by apply IH.
  - unfold acts, raised. unfold after in IH |- *. cbn [exec] in *. rewrite check_up in * by done. cbn [fst snd] in *.
    rewrite IH by done. unfold needs at 1. cbn [exhaustedLatched downAdvances update]. rewrite Z.sub_0_r. done.
Qed.

(** *** Facts about the reference *)
Definition remotes (l : list action) : list AddrPort :=
  omap (fun x => match x with SetPeerRemote a => Some a | _ => None end) l.

Lemma moves_cons x tr : moves (x :: tr) = ((if decide (fst x = []) then 0 else 1) + moves tr)%nat.
Proof. unfold moves. cbn [List.filter]. by destruct (decide (fst x = [])) as [E|E]; [rewrite bool_decide_eq_true_2|rewrite bool_decide_eq_false_2]. Qed.
Lemma signals_cons x tr : signals (x :: tr) = ((if snd x then 1 else 0) + signals tr)%nat.
Proof. unfold signals. cbn [List.filter]. by destruct (snd x). Qed.

Lemma robin_remotes l rh st last p w cs :
  remotes rh = [] -> l <> [] ->
  let tr := robin l rh st last p w cs in
  concat (map (fun x => remotes (fst x)) tr) =
    map (fun j => snd (entry l ((p + 1 + Z.of_nat j) mod Z.of_nat (length l)))) (List.seq 0 (moves tr)).
Proof.
  intros Hrh Hl. revert last p w. induction cs as [|[hs t] cs IH]; intros last p w; [done|].
  cbn [robin]. destruct (decide (all_down hs)); [destruct (st <=? time_sub t last)|]; cbv zeta; cbn [map concat fst];
    rewrite moves_cons; cbn [fst]; [|apply IH..].
  rewrite IH, decide_False by done. cbn [Nat.add List.seq map]. cbn [remotes omap list_omap]. fold (remotes rh). rewrite Hrh.
  cbn [app]. rewrite Z.add_0_r. f_equal.
  rewrite <- List.seq_shift, List.map_map. apply List.map_ext. intros j.
  do 2 f_equal. rewrite Nat2Z.inj_succ.
  rewrite <- !Z.add_assoc. rewrite Zplus_mod_idemp_l. f_equal. lia.
Qed.

(** During an outage: one signal, at the move that is the last asked for. *)
Lemma robin_signals l rh st last p w cs :
  Forall (fun c => all_down (fst c)) cs -> match w with Some w => 1 <= w | None => True end ->
  let tr := robin l rh st last p w cs in
  Z.of_nat (signals tr) = match w with Some w => if w <=? Z.of_nat (moves tr) then 1 else 0 | None => 0 end.
Proof.
  intros Hd. cbv zeta. revert last p w. induction Hd as [|[hs t] cs Hd _ IH]; intros last p w Hw.
  { destruct w as [w|]; [|done]. change (0 = if w <=? 0 then 1 else 0). by rewrite (proj2 (Z.leb_gt _ _)) by lia. }
  cbn [robin]. rewrite decide_True by done. destruct (st <=? time_sub t last); cbv zeta; rewrite moves_cons, signals_cons; cbn [fst snd]; [|by apply IH].
  rewrite decide_False by done. destruct w as [w|]; cbn [Z.pred fmap option_fmap option_map]; [|by rewrite Nat2Z.inj_add, (IH _ _ None)].
  destruct (Z.leb_spec w 1); rewrite Nat2Z.inj_add.
  - rewrite (IH _ _ None) by done. by rewrite (proj2 (Z.leb_le _ _)) by lia.
  - rewrite (IH _ _ (Some (Z.pred w))) by lia. rewrite Nat2Z.inj_add.
    destruct (Z.leb_spec (Z.pred w) (Z.of_nat (moves (robin l rh st t ((p + 1) mod Z.of_nat (length l)) (Some (Z.pred w)) cs)))), (Z.leb_spec w (Z.of_nat 1 + Z.of_nat (moves (robin l rh st t ((p + 1) mod Z.of_nat (length l)) (Some (Z.pred w)) cs)))); lia.
Qed.

Lemma robin_drop l rh st last p w pre cs :
  exists last' p' w', drop (length pre) (robin l rh st last p w (pre ++ cs)) = robin l rh st last' p' w' cs.
Proof.
  revert last p w. induction pre as [|[hs t] pre IH]; intros last p w; [by eexists _, _, _|].
  cbn [length app robin]. destruct (decide (all_down hs)); [destruct (st <=? time_sub t last)|]; apply IH.
Qed.

Lemma robin_visits l rh st last p w cs e :
  remotes rh = [] -> 0 <= p -> e ∈ l ->
  let tr := robin l rh st last p w cs in
  Z.of_nat (length l) <= Z.of_nat (moves tr) ->
  snd e ∈ concat (map (fun x => remotes (fst x)) tr).
Proof.
  intros Hrh Hp He tr Hm. assert (l <> []) as Hl by (intros ->; by apply elem_of_nil in He).
  unfold tr in *. rewrite robin_remotes by done.
  apply list_elem_of_lookup in He as [i Hi]. pose proof (lookup_lt_Some _ _ _ Hi) as Hlt.
  set (n := Z.of_nat (length l)) in *.
  apply list_elem_of_fmap. exists (Z.to_nat ((Z.of_nat i - p - 1) mod n)).
  pose proof (Z.mod_pos_bound (Z.of_nat i - p - 1) n ltac:(lia)) as Hb. split.
  - rewrite Z2Nat.id by lia. rewrite Zplus_mod_idemp_r.
    replace (p + 1 + (Z.of_nat i - p - 1)) with (Z.of_nat i) by lia.
    rewrite Z.mod_small by lia. unfold entry. by rewrite Nat2Z.id, Hi.
  - apply list_elem_of_In, List.in_seq. lia.
Qed.

(** ** How long an outage lasts before exhaustion is signalled *)
Definition time_of (ev : event) : option Time :=
  match ev with Update _ _ t | Check _ t => Some t | Subscribe _ => None end.

(** Clock readings do not decrease and stay far from the end of time. *)
Fixpoint clocked (lo : Time) (evs : list event) : Prop :=
  match evs with
  | [] => True
  | ev :: evs =>
      match time_of ev with
      | Some t => lo <= t <= 2 ^ 62 /\ clocked t evs
      | None => clocked lo evs
      end
  end.

(** The event is no check, or one that read every path down. *)
Definition down_read (ev : event) : Prop :=
  match ev with Check hs _ => allDownLocked hs = true | _ => True end.

(** What the controller remembers of the outage it is in, against the events
    so far: when it began, and how many dwells have passed since. *)
Definition outage (past : list event) (lo : Time) (h : hubFailover) : Prop :=
  0 < lo <= 2 ^ 62 /\ 0 <= lastSwitch h <= lo /\ 0 <= settle h /\ 0 <= downAdvances h /\
  (downSince h = 0 -> downAdvances h = 0) /\
  (downSince h <> 0 ->
     0 < downSince h <= lo /\ flat h <> [] /\
     exists pre hs mid, past = pre ++ Check hs (downSince h) :: mid /\
       Forall down_read (Check hs (downSince h) :: mid)) /\
  (0 < downAdvances h -> (downAdvances h - 1) * settle h <= lastSwitch h - downSince h).

Lemma outage_later past lo h ev :
  down_read ev -> outage past lo h -> outage (past ++ [ev]) lo h.
Proof.
  intros Hd (A & B & C & D & E & F & G). split_and!; try done; try lia. intros Hn.
  destruct (F Hn) as (F1 & F2 & pre & hs & mid & -> & Hf). split_and!; try done; try lia.
  exists pre, hs, (mid ++ [ev]). split; [by rewrite <- app_assoc|].
  apply (Forall_app down_read (Check hs (downSince h) :: mid) [ev]). split; [done|].
  by apply Forall_singleton.
Qed.

Lemma outage_lo past lo lo' h : lo <= lo' <= 2 ^ 62 -> outage past lo h -> outage past lo' h.
Proof. intros H (A & B & C & D & E & F & G). split_and!; try done; try lia. intros Hn. destruct (F Hn) as (? & ?). split; [lia|done]. Qed.

(** A controller that differs only in what the outage does not depend on. *)
Lemma outage_ext past lo h h' :
  settle h' = settle h -> downAdvances h' = downAdvances h -> downSince h' = downSince h ->
  lastSwitch h <= lastSwitch h' <= lo -> (flat h <> [] -> flat h' <> []) ->
  outage past lo h -> outage past lo h'.
Proof.
  intros E1 E2 E3 Hl Hf (A & B & C & D & E & F & G). unfold outage. rewrite E1, E2, E3.
  split_and!; try done; try lia. intros Hn. destruct (F Hn) as (F1 & F2 & F3). split; [lia|]. split; [auto|done].
Qed.

Lemma update_outage past lo i l t h :
  publishable l -> ok h -> lo <= t <= 2 ^ 62 -> outage past lo h ->
  outage (past ++ [Update i l t]) t (after (Update i l t) h).
Proof.
  intros Hp Hok Ht Ho. apply outage_later; [done|]. apply (outage_lo _ lo t) in Ho; [|done].
  assert (0 <= lastSwitch h <= t) as Hl by apply Ho.
  assert (flat h <> [] -> flat (after (Update i l t) h) <> []) as Hne.
  { intros Hf. pose proof (ok_active h Hok Hf) as Ha. apply active_nonneg in Ha.
    pose proof (after_ok (Update i l t) h Hp Hok) as (_ & _ & [[E _]|E]);
      [|intros F; rewrite F in E; by apply elem_of_nil in E].
    exfalso. rewrite after_update in E. revert E.
    destruct (updateResolution_case i l t h) as
      [Hi|h' s a E1 E2 Hs ->|h' a rest E1 -> Hin Hi ->|h' Hi Hk H1 ->]; unfold remap; cbn [activeSpec update];
      cbn; lia. }
  rewrite after_update in *.
  destruct (updateResolution_case i l t h) as
    [Hi|h' s a E1 E2 Hs ->|h' a rest E1 -> Hin Hi ->|h' Hi Hk H1 ->]; [done|..];
    (apply (outage_ext _ _ h); [done..| |done|done]); cbn; lia.
Qed.

Lemma onset_outage past lo hs t h :
  flat h <> [] -> allDownLocked hs = true -> lo <= t <= 2 ^ 62 -> outage past lo h ->
  outage (past ++ [Check hs t]) t (onset t h).
Proof.
  intros Hf Hd Ht Ho. unfold onset, is_zero_time. destruct (Z.eqb_spec (downSince h) 0) as [E|E].
  - destruct Ho as (A & B & C & D & F & G & K). specialize (F E).
    split_and!; cbn; try done; try lia. intros _. split; [lia|]. split; [done|].
    exists past, hs, []. split; [done|]. by repeat constructor.
  - apply outage_later; [done|]. by apply (outage_lo _ lo).
Qed.

Lemma outage_since past lo hs t h :
  flat h <> [] -> allDownLocked hs = true -> lo <= t <= 2 ^ 62 -> outage past lo h ->
  0 < downSince (onset t h) <= t.
Proof.
  intros Hf Hd Ht Ho. unfold onset, is_zero_time. destruct (Z.eqb_spec (downSince h) 0) as [E|E].
  - cbn. destruct Ho. lia.
  - destruct Ho as (A & B & C & D & F & G & K). destruct (G E) as (G1 & _). lia.
Qed.

Lemma check_outage past lo hs t h :
  ok h -> lo <= t <= 2 ^ 62 -> outage past lo h ->
  outage (past ++ [Check hs t]) t (after (Check hs t) h) /\
  (raised (Check hs t) h = true ->
     settle h * Z.max 1 (total h - 1) <= t - downSince (onset t h) /\
     exists pre hs0 mid, past ++ [Check hs t] = pre ++ Check hs0 (downSince (onset t h)) :: mid /\
       Forall down_read (Check hs0 (downSince (onset t h)) :: mid)).
Proof.
  intros Hok Ht Ho. unfold after, raised. cbn [exec].
  pose proof (onset_outage past lo hs t h) as Hon. pose proof (outage_since past lo hs t h) as Hsi.
  destruct (onset_keeps t h) as (_ & K2 & K3 & _ & K5 & K6 & K7 & K8 & _).
  assert (0 <= lastSwitch h <= lo /\ 0 <= settle h /\ 0 <= downAdvances h) as (Hl & Hst & Hda)
    by (destruct Ho; naive_solver).
  assert (2 <= total h -> flat h <> []) as H2f
    by (intros H F; unfold total in H; rewrite F in H; cbn in H; lia).
  destruct (checkLocked_case hs t h Hok) as [Hf|Hf Hu|Hf Hd Hw|H1 Hd Hs|H2 Hd Hs Hm|H2 Hd Hs Hm].
  - split; [|done]. destruct Ho as (A & B & C & D & F & G & K). split_and!; try done; try lia.
    intros Hn. by destruct (G Hn) as (_ & ? & _).
  - split; [|done]. destruct Ho as (A & B & C & D & F & G & K). split_and!; cbn; try done; try lia.
  - split; [|done]. by apply Hon.
  - assert (flat h <> []) as Hf by (intros F; unfold total in H1; rewrite F in H1; cbn in H1; lia).
    specialize (Hon Hf Hd Ht Ho). specialize (Hsi Hf Hd Ht Ho). split.
    { apply (outage_ext _ _ (onset t h)); [done..| |done|done]. rewrite K5. cbn. lia. }
    intros _. split; [|apply Hon; lia]. rewrite H1. rewrite time_sub_small in Hs by lia. lia.
  - specialize (Hon (H2f H2) Hd Ht Ho). specialize (Hsi (H2f H2) Hd Ht Ho). split; [|done].
    rewrite time_sub_small in Hs by lia. destruct Hon as (A & B & C & D & F & G & K).
    rewrite K5, K6, K8 in *.
    split_and!; try done; cbn; try lia.
  - specialize (Hon (H2f H2) Hd Ht Ho). specialize (Hsi (H2f H2) Hd Ht Ho).
    rewrite time_sub_small in Hs by lia. destruct Hon as (A & B & C & D & F & G & K).
    rewrite K5, K6, K8 in *. split.
    + split_and!; try done; cbn; try lia.
    + intros _. split; [|apply G; lia]. nia.
Qed.

Lemma state_outage evs past lo h :
  Forall event_ok evs -> ok h -> clocked lo evs -> outage past lo h ->
  exists lo', outage (past ++ evs) lo' (state evs h) /\ lo <= lo' /\
    forall t, clocked lo (evs ++ [Check [] t]) -> lo' <= t <= 2 ^ 62.
Proof.
  intros He. revert past lo h. induction He as [|ev evs He _ IH]; intros past lo h Hok Hc Ho.
  { exists lo. rewrite app_nil_r. split; [done|]. split; [lia|]. cbn. intros t [? _]. done. }
  assert (exists lo', lo <= lo' /\ outage (past ++ [ev]) lo' (after ev h) /\ clocked lo' evs /\
    forall t, clocked lo (ev :: evs ++ [Check [] t]) -> clocked lo' (evs ++ [Check [] t]))
    as (lo1 & Hlo & Ho1 & Hc1 & Hn).
  { destruct ev as [i l t|hs t|cb]; cbn in Hc.
    - exists t. destruct Hc as [Ht Hc]. split_and!; [lia|by apply (update_outage _ lo)|done|]. by intros t' [_ ?].
    - exists t. destruct Hc as [Ht Hc]. split_and!; [lia|by apply (check_outage _ lo)|done|]. by intros t' [_ ?].
    - exists lo. split_and!; [lia| |done|done]. by apply outage_later. }
  destruct (IH _ _ _ (after_ok _ _ He Hok) Hc1 Ho1) as (lo2 & Ho2 & Hl2 & Hn2).
  exists lo2. rewrite <- app_assoc in Ho2. split; [done|]. split; [lia|]. auto.
Qed.

Lemma state_settle evs h : Forall event_ok evs -> ok h -> settle (state evs h) = settle h.
Proof.
  intros He. revert h. induction He as [|ev evs He _ IH]; intros h Hok; [done|].
  cbn. fold (state evs (after ev h)). rewrite IH by (by apply after_ok).
  destruct ev as [i l t|hs t|cb]; [| |done].
  - rewrite after_update.
    by destruct (updateResolution_case i l t h) as [|? ? ? ? ? ? ->|? ? ? ? ? ? ? ->|? ? ? ? ->].
  - destruct (onset_keeps t h) as (_ & _ & _ & _ & _ & K & _). unfold after. cbn [exec].
    by destruct (checkLocked_case hs t h Hok).
Qed.

Lemma clocked_last lo evs hs hs' t :
  clocked lo (evs ++ [Check hs t]) -> clocked lo evs /\ clocked lo (evs ++ [Check hs' t]).
Proof.
  revert lo. induction evs as [|ev evs IH]; intros lo Hc; [done|].
  cbn in *. destruct (time_of ev); [destruct Hc as [? Hc]|]; apply IH in Hc; naive_solver.
Qed.

(** ** Reachable controllers *)
Section Reachable.
Context (ss : list failoverSpec) (rh : bool) (st : Duration) (boot : Time).
Definition start : hubFailover := newHubFailoverFromSpecs ss rh st boot.

Lemma reach_ok evs : specs_ok ss -> Forall event_ok evs -> ok (state evs start).
Proof. intros H He. apply state_ok; [done|]. by apply new_ok. Qed.
End Reachable.

(** C31. Over any interleaving of re-resolutions (of lists without repeats that
    are not empty), checks under any liveness readings and subscriptions, the
    endpoint last pushed to the bind or the engine peer is the controller's
    active address; once any endpoint is known, the active entry is in the
    flattened list at the cached index, and the snapshot lists every endpoint in
    order with exactly that one marked; each call makes no move, or one move
    followed by the handshake. *)
Theorem failover_bond_follows_active ss rh st boot evs :
  specs_ok ss -> Forall event_ok evs ->
  let h0 := start ss rh st boot in
  let h := state evs h0 in
  activeAddr h = target (activeAddr h0) (actions evs h0) /\
  (flat h <> [] ->
     flat h !! Z.to_nat (idx h) = Some (activeSpec h, activeAddr h) /\
     map es_addr (EndpointsSnapshot h) = map snd (flat h) /\
     List.filter es_active (EndpointsSnapshot h) = [mkEndpointState (activeAddr h) true]) /\
  (forall ev, event_ok ev -> one_move h (acts ev h)).
Proof.
  intros Hs He h0 h. assert (ok h) as Hok by (by apply reach_ok).
  split; [apply actions_target; [done|by apply new_ok]|]. split.
  - intros Hne. split; [|by apply snapshot_active]. destruct Hok as (Hs' & Hl & Ha).
    rewrite Hl. apply position_lookup. apply ok_active; [by split|done].
  - intros ev _. by apply after_move.
Qed.

(** C28. Over any checks, from any state a controller with two or more endpoints
    reaches, while its list does not change, it behaves as the reference round
    robin: a check moves the bond exactly when it finds every monitored path down,
    at least the dwell after the last move, and then to the next entry of the
    flattened list, cyclically; a run with as many moves as endpoints tries every
    endpoint; and in the checks after one that found a path up, as long as they find
    every path down, exhaustion is signalled once, at the move that completes the
    first full wrap. *)
Theorem failover_round_robin ss rh st boot evs cs :
  specs_ok ss -> Forall event_ok evs ->
  let h := state evs (start ss rh st boot) in
  2 <= total h ->
  let tr := trace (checks cs) h in
  tr = robin (flat h) (rehandshakes h) (settle h) (lastSwitch h) (position (flat h) (active h)) (needs h) cs /\
  (total h <= Z.of_nat (moves tr) ->
     forall e, e ∈ flat h -> snd e ∈ concat (map (fun x => remotes (fst x)) tr)) /\
  (forall pre hs t mid, cs = pre ++ (hs, t) :: mid -> ~ all_down hs -> Forall (fun c => all_down (fst c)) mid ->
     let tm := drop (S (length pre)) tr in
     Z.of_nat (signals tm) = (if total h <=? Z.of_nat (moves tm) then 1 else 0)).
Proof.
  intros Hs He h H2 tr. assert (ok h) as Hok by (by apply reach_ok).
  assert (active h ∈ flat h) as Ha.
  { apply ok_active; [done|]. intros F. unfold total in H2. rewrite F in H2. cbn in H2. lia. }
  assert (tr = robin (flat h) (rehandshakes h) (settle h) (lastSwitch h) (position (flat h) (active h)) (needs h) cs) as E
    by (by apply trace_robin).
  split; [done|]. rewrite E. split.
  - intros Hm e Hin. apply robin_visits; [|by apply position_lookup|done|done].
    unfold rehandshakes. by destruct (rehandshake h).
  - intros pre hs t mid Hc Hu Hd. rewrite Hc. replace (S (length pre)) with (length pre + 1)%nat by lia. rewrite <- drop_drop.
    destruct (robin_drop (flat h) (rehandshakes h) (settle h) (lastSwitch h) (position (flat h) (active h)) (needs h) pre ((hs, t) :: mid)) as (l' & p' & w' & ->).
    cbn [robin]. rewrite decide_False by done. cbn [drop]. fold (total h).
    exact (robin_signals _ _ _ _ _ (Some (total h)) mid Hd ltac:(cbn; lia)).
Qed.

(** Exhaustion is signalled by a check only after an unbroken outage: going
    back from it there is a check such that every check from it on read every
    path down, at least the dwell earlier and, with [n] endpoints, at least
    [n - 1] dwells earlier.  Clock readings do not decrease. *)
Theorem failover_exhaustion_dwell ss rh st boot evs hs t :
  specs_ok ss -> Forall event_ok evs -> 0 < boot <= 2 ^ 62 -> 0 <= st ->
  clocked boot (evs ++ [Check hs t]) ->
  let h := state evs (start ss rh st boot) in
  raised (Check hs t) h = true ->
  exists pre hs0 t0 mid,
    evs ++ [Check hs t] = pre ++ Check hs0 t0 :: mid /\
    Forall down_read (Check hs0 t0 :: mid) /\
    st * Z.max 1 (total h - 1) <= t - t0.
Proof.
  intros Hs He Hb Hst Hc h Hr. pose proof (new_ok ss rh st boot Hs) as Hok. fold (start ss rh st boot) in Hok.
  assert (lastSwitch (start ss rh st boot) = boot /\ settle (start ss rh st boot) = st /\
    downAdvances (start ss rh st boot) = 0 /\ downSince (start ss rh st boot) = 0) as (B1 & B2 & B3 & B4).
  { unfold start, newHubFailoverFromSpecs. by destruct (entryAtLocked _ _). }
  assert (outage [] boot (start ss rh st boot)) as Ho.
  { unfold outage. rewrite B1, B2, B3, B4. split_and!; try done; lia. }
  assert (settle h = st) as Hst'.
  { unfold h. rewrite <- B2 at 2. by apply state_settle. }
  assert (clocked boot evs /\ clocked boot (evs ++ [Check [] t])) as [Hc1 Hc2].
  { by apply (clocked_last _ _ hs). }
  destruct (state_outage evs [] boot _ He Hok Hc1 Ho) as (lo & Ho' & Hl & Hn).
  destruct (check_outage evs lo hs t h (reach_ok _ _ _ _ _ Hs He) (Hn t Hc2) Ho') as [_ Hx].
  destruct (Hx Hr) as (Hd & pre & hs0 & mid & E & F). rewrite Hst' in Hd. eauto 10.
Qed.

(** ** Witnesses

    A literal endpoint and a name that resolves to two addresses; the paths go
    down at 100 s, long after the last move. *)
Definition ap (n : Z) : AddrPort := mkAddrPort [192; 0; 2; n] [] 51820.
Definition specsW : list failoverSpec :=
  [ mkFailoverSpec (mkEndpointSpec EmptyString 0 (ap 1) false) [ap 1];
    mkFailoverSpec (mkEndpointSpec "hub.example" 51820 AddrPort0 true) [] ].
Definition resolvedW : list event := [Update 1 [ap 2; ap 3] (2 * second); Subscribe (Some "a"%string)].
Definition downW (t : Z) : list PathState * Time := ([StateDown; StateDown], t * second).
Definition outageW : list (list PathState * Time) :=
  [downW 100; downW 101; downW 103; downW 106; downW 109].

Lemma specsW_ok : specs_ok specsW.
Proof. apply (bool_decide_unpack _). vm_compute. exact I. Defined.

Lemma resolvedW_ok : Forall event_ok resolvedW.
Proof.
  repeat apply Forall_cons_2; try exact I; try apply Forall_nil_2.
  split; [discriminate|]. apply (bool_decide_unpack _). vm_compute. exact I.
Defined.

Lemma checksW_ok cs : Forall event_ok (checks cs).
Proof. induction cs; cbn; constructor; [exact I|done]. Defined.

Lemma failover_bond_follows_active_witness :
  let h0 := start specsW true hubFailoverSettle second in
  let evs := resolvedW ++ checks outageW in
  activeAddr (state evs h0) = target (activeAddr h0) (actions evs h0) /\
  activeAddr (state evs h0) = ap 2.
Proof.
  split; [|vm_compute; reflexivity].
  apply (failover_bond_follows_active specsW true hubFailoverSettle second (resolvedW ++ checks outageW)).
  - exact specsW_ok.
  - apply Forall_app. split; [exact resolvedW_ok|apply checksW_ok].
Defined.

(** A check finds a path up before the outage, whose signal comes at the third move. *)
Definition upW : list PathState * Time := ([StateUp; StateDown], 99 * second).
Lemma failover_round_robin_witness :
  let h := state resolvedW (start specsW true hubFailoverSettle second) in
  let tr := trace (checks (downW 96 :: upW :: outageW)) h in
  Z.of_nat (signals (drop 2 tr)) = 1 /\
  map (fun x => (remotes (fst x), snd x)) tr =
    [([ap 2], false); ([], false); ([ap 3], false); ([], false); ([ap 1], false); ([ap 2], true); ([ap 3], false)].
Proof.
  split; [|vm_compute; reflexivity].
  assert (H2 : 2 <= total (state resolvedW (start specsW true hubFailoverSettle second))) by (vm_compute; discriminate).
  destruct (failover_round_robin specsW true hubFailoverSettle second resolvedW (downW 96 :: upW :: outageW)
    specsW_ok resolvedW_ok H2) as (_ & _ & H).
  etrans; [apply (H [downW 96] [StateUp; StateDown] (99 * second) outageW eq_refl)|vm_compute; reflexivity].
  - intros [_ F]. apply Forall_cons in F as [F _]. discriminate.
  - apply (bool_decide_unpack _). vm_compute. exact I.
Defined.

(** Three endpoints: the signal comes two dwells after the outage began. *)
Lemma failover_exhaustion_dwell_witness :
  exists pre hs0 t0 mid,
    resolvedW ++ checks (take 3 outageW) ++ checks [downW 106] = pre ++ Check hs0 t0 :: mid /\
    Forall down_read (Check hs0 t0 :: mid) /\
    hubFailoverSettle * 2 <= 106 * second - t0.
Proof.
  apply (failover_exhaustion_dwell specsW true hubFailoverSettle second
    (resolvedW ++ checks (take 3 outageW)) [StateDown; StateDown] (106 * second)).
  - exact specsW_ok.
  - apply Forall_app. split; [exact resolvedW_ok|apply checksW_ok].
  - vm_compute. split; [reflexivity|discriminate].
  - vm_compute. discriminate.
  - vm_compute. repeat split; discriminate.
  - reflexivity.
Defined.

End failover_props.
