(* ===== verification/Resolution.v ===== *)
(** * Endpoint resolution ([internal/device/resolution.go], the boot resolve of
    device.go)

    The re-resolution controller reads the clock, the liveness plane, the active
    entry and the resolver through the interface [Outside], and publishes record
    sets through it.  The other goroutines run between its calls: every
    operation of the interface may change the world. *)

From stdpp Require Import base tactics list numbers strings gmap.
From S2P Require Import Prelude Frame Telemetry Netip Config Failover.

Module resolution.
Import telemetry failover.
Export netip.

(** ** Families *)
Record pathFamilies := mkPathFamilies { v4 : bool; v6 : bool }.
#[export] Instance eta_pathFamilies : Eta pathFamilies := fun f => mkPathFamilies (v4 f) (v6 f).

Definition allows (a : Addr) (f : pathFamilies) : bool :=
  if Is4 (Unmap a) then v4 f else v6 f.

Definition pathFamiliesFromPaths (sources : list Addr) : pathFamilies :=
  fold_left (fun f src => if Is4 (Unmap src) then f <| v4 := true |> else f <| v6 := true |>)
    sources (mkPathFamilies false false).

(** ** Record sets *)
Fixpoint order_loop (port : Z) (fams : pathFamilies) (seen : list Addr) (l4 l6 : list AddrPort)
    (l : list Addr) : list AddrPort :=
  match l with
  | [] => l4 ++ l6
  | a :: l =>
      if negb (IsValid a) || negb (allows a fams) then order_loop port fams seen l4 l6 l
      else
        let canon := Unmap a in
        if bool_decide (canon ∈ seen) then order_loop port fams seen l4 l6 l
        else
          let seen := canon :: seen in
          let ap := AddrPortFrom canon port in
          if Is4 canon then order_loop port fams seen (l4 ++ [ap]) l6 l
          else order_loop port fams seen l4 (l6 ++ [ap]) l
  end.
Definition orderAddrPorts (l : list Addr) (port : Z) (fams : pathFamilies) : list AddrPort :=
  order_loop port fams [] [] [] l.

(** ** The controller *)
Record nameTarget := mkNameTarget { specIdx : Z; host : string; port : Z }.

Fixpoint nameTargets_loop (i : Z) (ss : list EndpointSpec) : list nameTarget :=
  match ss with
  | [] => []
  | s :: ss => if IsName s then mkNameTarget i (Host s) (Port s) :: nameTargets_loop (i + 1) ss
               else nameTargets_loop (i + 1) ss
  end.
Definition nameTargetsFromSpecs (ss : list EndpointSpec) : list nameTarget := nameTargets_loop 0 ss.

Record resolution := mkResolution {
  targets : list nameTarget;
  families : pathFamilies;
  pollInterval : Duration;
  timeout : Duration;
  nextPollAt : Time;
  lastAllDown : bool
}.
#[export] Instance eta_resolution : Eta resolution := fun r =>
  mkResolution (targets r) (families r) (pollInterval r) (timeout r) (nextPollAt r) (lastAllDown r).

Definition newResolution (ts : list nameTarget) (fams : pathFamilies) (poll timeout : Duration)
    (now : Time) : resolution :=
  mkResolution ts fams poll timeout now false.

(** A successful lookup: the records, their smallest TTL, whether it means
    anything.  An error, a timeout or a denial is [None]. *)
Record answer := mkAnswer { records : list Addr; minTTL : Duration; ttlOk : bool }.

Class Outside (W : Type) := {
  Lookup : option Duration -> string -> W -> W * option answer;
  Now : W -> W * Time;
  allPathsDown : W -> W * bool;
  activeSpecIndex : W -> W * Z;
  updateResolution : Z -> list AddrPort -> W -> W
}.

Definition lookupContext (r : resolution) : option Duration :=
  if timeout r <=? 0 then None else Some (timeout r).

Definition clampPollDelay (ttl : Duration * bool) (r : resolution) : Duration :=
  if snd ttl && (0 <? fst ttl) && (fst ttl <? pollInterval r) then fst ttl else pollInterval r.

Definition targetFor (i : Z) (r : resolution) : option nameTarget :=
  if i <? 0 then None else List.find (fun t => specIdx t =? i) (targets r).

Section Controller.
Context {W : Type} `{Outside W}.

Definition resolveTarget (t : nameTarget) (r : resolution) (w : W) : W * (Duration * bool) :=
  let '(w, res) := Lookup (lookupContext r) (host t) w in
  match res with
  | None => (w, (0, false))
  | Some a =>
      let eps := orderAddrPorts (records a) (port t) (families r) in
      if (length eps =? 0)%nat then (w, (0, false))
      else (updateResolution (specIdx t) eps w, (minTTL a, ttlOk a))
  end.

Fixpoint pollAll_loop (delay : Duration) (ts : list nameTarget) (r : resolution) (w : W) : W * Duration :=
  match ts with
  | [] => (w, delay)
  | t :: ts =>
      let '(w, ttl) := resolveTarget t r w in
      let d := clampPollDelay ttl r in
      pollAll_loop (if d <? delay then d else delay) ts r w
  end.
Definition pollAll (r : resolution) (w : W) : W * Duration :=
  pollAll_loop (pollInterval r) (targets r) r w.

Definition checkLivenessLoss (r : resolution) (w : W) : W * resolution :=
  let '(w, down) := allPathsDown w in
  let edge := down && negb (lastAllDown r) in
  let r := r <| lastAllDown := down |> in
  if negb edge then (w, r)
  else
    let '(w, active) := activeSpecIndex w in
    match targetFor active r with
    | None => (w, r)
    | Some t =>
        let '(w, ttl) := resolveTarget t r w in
        let '(w, now) := Now w in
        (w, r <| nextPollAt := now + clampPollDelay ttl r |>)
    end.

Definition step (r : resolution) (w : W) : W * resolution :=
  let '(w, r) := checkLivenessLoss r w in
  let '(w, now) := Now w in
  if now <? nextPollAt r then (w, r)
  else
    let '(w, delay) := pollAll r w in
    let '(w, now) := Now w in
    (w, r <| nextPollAt := now + delay |>).

(** ** Boot ([resolveBootEndpoints]) *)
Definition bootResolveHostname (s : EndpointSpec) (fams : pathFamilies) (timeout : Duration) (w : W)
    : W * list AddrPort :=
  let '(w, res) := Lookup (if 0 <? timeout then Some timeout else None) (Host s) w in
  match res with
  | None => (w, [])
  | Some a => (w, orderAddrPorts (records a) (Port s) fams)
  end.

Fixpoint bootSpecs (resolver : bool) (fams : pathFamilies) (timeout : Duration)
    (ss : list EndpointSpec) (w : W) : W * list failoverSpec :=
  match ss with
  | [] => (w, [])
  | s :: ss =>
      let '(w, sp) :=
        if negb (IsName s) then (w, mkFailoverSpec s [endpoint.Addr s])
        else if resolver then
          let '(w, l) := bootResolveHostname s fams timeout w in (w, mkFailoverSpec s l)
        else (w, mkFailoverSpec s []) in
      let '(w, sps) := bootSpecs resolver fams timeout ss w in
      (w, sp :: sps)
  end.

(** The flattened head of a peer's specs: its endpoint at boot, if valid. *)
Fixpoint bootEndpoint (sps : list failoverSpec) : option AddrPort :=
  match sps with
  | [] => None
  | sp :: sps => match addrs sp with a :: _ => Some a | [] => bootEndpoint sps end
  end.

Fixpoint bootPeers (resolver : bool) (fams : pathFamilies) (timeout : Duration)
    (peers : list (list EndpointSpec)) (w : W) : W * list (list failoverSpec * option AddrPort) :=
  match peers with
  | [] => (w, [])
  | ss :: peers =>
      let '(w, sps) := bootSpecs resolver fams timeout ss w in
      let '(w, rest) := bootPeers resolver fams timeout peers w in
      (w, (sps, bootEndpoint sps) :: rest)
  end.

(** [newResolver] is called only when some peer has a name; the result says
    whether there is a resolver. *)
Definition resolveBootEndpoints (newResolver : W -> W * bool) (sources : list Addr)
    (timeout : Duration) (peers : list (list EndpointSpec)) (w : W)
    : W * bool * list (list failoverSpec * option AddrPort) :=
  let hasName := existsb (existsb IsName) peers in
  let '(w, resolver) := if hasName then newResolver w else (w, false) in
  let '(w, out) := bootPeers resolver (pathFamiliesFromPaths sources) timeout peers w in
  (w, resolver, out).
End Controller.

End resolution.
