(* ===== verification/ResolutionProps.v ===== *)
(** * Endpoint resolution: what is published, and what is kept

    The controller's steps are proved against the [Outside] interface; the hub
    failover controller, with the other goroutines running between any two
    calls, is an instance of it. *)

From stdpp Require Import base tactics list numbers strings sets gmap.
From S2P Require Import Prelude Frame Telemetry Netip Config Failover FailoverTheory FailoverProps Resolution.

Module resolution_props.
Import telemetry failover failover_ok failover_props.
Import resolution.

(** ** Record sets *)

(** The first occurrence of each element, in order. *)
Fixpoint firsts (seen l : list Addr) : list Addr :=
  match l with
  | [] => []
  | a :: l => if bool_decide (a ∈ seen) then firsts seen l else a :: firsts (a :: seen) l
  end.

Definition usable (fams : pathFamilies) (a : Addr) : bool := IsValid a && allows a fams.
Definition canonical (fams : pathFamilies) (l : list Addr) : list Addr :=
  firsts [] (map Unmap (List.filter (usable fams) l)).

(** The reference: the usable records, unmapped and without repeats, IPv4 ones
    first. *)
Definition ordered (l : list Addr) (p : Z) (fams : pathFamilies) : list AddrPort :=
  map (fun a => AddrPortFrom a p)
    (List.filter Is4 (canonical fams l) ++ List.filter (fun a => negb (Is4 a)) (canonical fams l)).

Lemma order_loop_spec p fams seen l4 l6 l :
  order_loop p fams seen l4 l6 l =
    let c := firsts seen (map Unmap (List.filter (usable fams) l)) in
    (l4 ++ map (fun a => AddrPortFrom a p) (List.filter Is4 c)) ++
    (l6 ++ map (fun a => AddrPortFrom a p) (List.filter (fun a => negb (Is4 a)) c)).
Proof.
  cbv zeta. revert seen l4 l6. induction l as [|a l IH]; intros seen l4 l6; cbn [order_loop List.filter].
  - cbn. by rewrite !app_nil_r.
  - rewrite <- negb_andb. fold (usable fams a). destruct (usable fams a); cbn [negb]; [|apply IH].
    cbn [map firsts]. case_bool_decide as Hin; [apply IH|].
    cbn [List.filter]. destruct (Is4 (Unmap a)); cbn [negb map]; rewrite IH; by rewrite <- !app_assoc.
Qed.

Lemma orderAddrPorts_ordered l p fams : orderAddrPorts l p fams = ordered l p fams.
Proof. unfold orderAddrPorts, ordered. rewrite order_loop_spec, map_app. done. Qed.

Lemma firsts_spec seen l :
  NoDup (firsts seen l) /\ forall a, a ∈ firsts seen l <-> a ∈ l /\ a ∉ seen.
Proof.
  revert seen. induction l as [|x l IH]; intros seen; cbn.
  - split; [constructor|]. set_solver.
  - case_bool_decide as Hx; [destruct (IH seen) as [H1 H2]|destruct (IH (x :: seen)) as [H1 H2]].
    + split; [done|]. intros a. rewrite H2. set_solver.
    + split.
      * constructor; [|done]. rewrite H2. set_solver.
      * intros a. rewrite elem_of_cons, H2. destruct (decide (a = x)); set_solver.
Qed.

Lemma NoDup_filter_split {A} (f : A -> bool) (l : list A) :
  NoDup l -> NoDup (List.filter f l ++ List.filter (fun a => negb (f a)) l).
Proof.
  intros H. apply NoDup_app. rewrite !NoDup_ListNoDup in *. split; [by apply List.NoDup_filter|].
  split; [|by apply List.NoDup_filter].
  intros x [_ H1]%list_elem_of_In%List.filter_In [_ H2]%list_elem_of_In%List.filter_In.
  rewrite H1 in H2. done.
Qed.

Lemma ordered_nodup l p fams : NoDup (orderAddrPorts l p fams).
Proof.
  rewrite orderAddrPorts_ordered. unfold ordered. apply NoDup_fmap_2_strong; [|apply NoDup_filter_split, firsts_spec].
  intros [] [] _ _ [= -> ->]. done.
Qed.

(** An address of a published list is one a local path can reach. *)
Definition reachable_from (fams : pathFamilies) (ap : AddrPort) : bool :=
  allows (mkAddr (ap_addr ap) (ap_zone ap)) fams.

Lemma Unmap_idem a : Is4In6 (Unmap a) = false.
Proof.
  unfold Unmap. destruct (Is4In6 a) eqn:E; [|done]. unfold Is4In6 in *. cbn [abytes].
  rewrite length_drop. apply andb_true_iff in E as [E _]. apply Nat.eqb_eq in E. by rewrite E.
Qed.

Lemma ordered_reachable l p fams ap :
  ap ∈ orderAddrPorts l p fams -> reachable_from fams ap = true.
Proof.
  rewrite orderAddrPorts_ordered. unfold ordered, reachable_from.
  intros (c & -> & Hc)%list_elem_of_fmap. cbn.
  assert (c ∈ canonical fams l) as Hin.
  { apply elem_of_app in Hc as [Hc|Hc]; apply list_elem_of_In, List.filter_In in Hc as [Hc _];
      by apply list_elem_of_In. }
  apply (proj1 (proj2 (firsts_spec _ _) c)) in Hin as [Hin _].
  apply list_elem_of_fmap in Hin as (a & -> & Ha).
  apply list_elem_of_In, List.filter_In in Ha as [_ Ha]. apply andb_true_iff in Ha as [_ Ha].
  destruct (Unmap a) as [b z] eqn:E. cbn [abytes azone]. unfold allows in *. rewrite <- E.
  unfold Unmap at 1. by rewrite Unmap_idem.
Qed.

Definition fit (fams : pathFamilies) (l : list AddrPort) : Prop :=
  publishable l /\ Forall (fun ap => reachable_from fams ap = true) l.

(** ** A step preserves what every call preserves *)
Section Preserve.
Context {W : Type} `{Outside W} (r0 : resolution) (P : W -> Prop).
Context (HLookup : forall d s w, P w -> P (fst (Lookup d s w)))
        (HNow : forall w, P w -> P (fst (Now w)))
        (HDown : forall w, P w -> P (fst (resolution.allPathsDown w)))
        (HActive : forall w, P w -> P (fst (resolution.activeSpecIndex w)))
        (HUpdate : forall t l w, t ∈ targets r0 -> fit (families r0) l -> P w ->
                   P (resolution.updateResolution (specIdx t) l w)).

(** The part of the controller that never changes. *)
Definition same_setup (r : resolution) : Prop :=
  targets r = targets r0 /\ families r = families r0 /\ pollInterval r = pollInterval r0.

Lemma resolveTarget_preserves t r w :
  same_setup r -> t ∈ targets r0 -> P w -> P (fst (resolveTarget t r w)).
Proof.
  intros (_ & Hf & _) Ht Hw. unfold resolveTarget. specialize (HLookup (lookupContext r) (host t) w Hw).
  destruct (Lookup _ _ w) as [w1 [a|]]; [|done]. cbn in HLookup.
  destruct (Nat.eqb_spec (length (orderAddrPorts (records a) (port t) (families r))) 0) as [E|E]; [done|].
  apply HUpdate; [done| |done]. rewrite Hf in *. split; [split|].
  - by intros F; rewrite F in E.
  - apply ordered_nodup.
  - apply Forall_forall. intros ap. apply ordered_reachable.
Qed.

Lemma pollAll_preserves ts d r w :
  same_setup r -> (forall t, t ∈ ts -> t ∈ targets r0) -> P w -> P (fst (pollAll_loop d ts r w)).
Proof.
  intros Hr. revert d w. induction ts as [|t ts IH]; intros d w Ht Hw; cbn [pollAll_loop]; [done|].
  pose proof (resolveTarget_preserves t r w Hr (Ht t (list_elem_of_here _ _)) Hw) as Hw1.
  destruct (resolveTarget t r w) as [w1 ttl]. apply IH; [|done]. intros t' Hin. apply Ht. by apply list_elem_of_further.
Qed.

Lemma targetFor_in i r t : same_setup r -> targetFor i r = Some t -> t ∈ targets r0.
Proof.
  intros (E & _) H0. unfold targetFor in H0. destruct (i <? 0); [done|].
  apply List.find_some in H0 as [Hin _]. rewrite <- E. by apply list_elem_of_In.
Qed.

Lemma checkLivenessLoss_preserves r w :
  same_setup r -> P w ->
  P (fst (checkLivenessLoss r w)) /\ same_setup (snd (checkLivenessLoss r w)).
Proof.
  intros Hr Hw. unfold checkLivenessLoss. specialize (HDown w Hw).
  destruct (resolution.allPathsDown w) as [w1 down]. cbn in HDown. cbv zeta.
  destruct (negb (down && negb (lastAllDown r))); [done|].
  specialize (HActive w1 HDown). destruct (resolution.activeSpecIndex w1) as [w2 i]. cbn in HActive.
  destruct (targetFor i _) as [t|] eqn:E; [|done].
  apply targetFor_in in E; [|done].
  pose proof (resolveTarget_preserves t (r <| lastAllDown := down |>) w2 Hr E HActive) as Hw3.
  destruct (resolveTarget _ _ w2) as [w3 ttl]. cbn in Hw3.
  specialize (HNow w3 Hw3). by destruct (Now w3).
Qed.

Lemma step_preserves r w :
  same_setup r -> P w -> P (fst (step r w)) /\ same_setup (snd (step r w)).
Proof.
  intros Hr Hw. unfold step. destruct (checkLivenessLoss_preserves r w Hr Hw) as [Hw1 Hr1].
  destruct (checkLivenessLoss r w) as [w1 r1]. cbn in *. pose proof (HNow w1 Hw1) as Hw2.
  destruct (Now w1) as [w2 now]. cbn in *. destruct (now <? nextPollAt r1); [done|].
  assert (P (fst (pollAll r1 w2))) as Hw3.
  { apply pollAll_preserves; [done| |done]. intros t Ht. destruct Hr1 as (E & _). by rewrite <- E. }
  destruct (pollAll r1 w2) as [w3 delay]. cbn in Hw3. pose proof (HNow w3 Hw3). by destruct (Now w3).
Qed.

Fixpoint steps (n : nat) (r : resolution) (w : W) : W * resolution :=
  match n with
  | O => (w, r)
  | S n => let '(w, r) := step r w in steps n r w
  end.

Lemma steps_preserves n r w :
  same_setup r -> P w -> P (fst (steps n r w)).
Proof.
  revert r w. induction n as [|n IH]; intros r w Hr Hw; cbn; [done|].
  destruct (step_preserves r w Hr Hw). destruct (step r w) as [w1 r1]. by apply IH.
Qed.
End Preserve.

(** ** The hub failover controller as the outside world

    [others] is what the rest of the process does between two calls: checks of
    the failover loop and subscriptions of the exit selector, any number of
    them. *)
Inductive foreign :=
  | OtherCheck (health : list PathState) (now : Time)
  | OtherSubscribe (cb : option string).
Definition as_event (f : foreign) : event :=
  match f with OtherCheck hs now => Check hs now | OtherSubscribe cb => Subscribe cb end.

Section Shared.
Context {E : Type}
  (lookup : option Duration -> string -> E -> E * option answer)
  (clock : E -> E * Time) (health : E -> E * list PathState) (others : E -> E * list foreign).

Definition interleave (w : hubFailover * E) : hubFailover * E :=
  let '(e, fs) := others (snd w) in (state (map as_event fs) (fst w), e).

#[local] Instance shared : Outside (hubFailover * E) := {
  Lookup d s w := let '(h, e) := interleave w in let '(e, a) := lookup d s e in ((h, e), a);
  Now w := let '(h, e) := interleave w in let '(e, t) := clock e in ((h, e), t);
  allPathsDown w :=
    let '(h, e) := interleave w in
    let '(e, hs) := health e in ((h, e), failover.allPathsDown hs);
  activeSpecIndex w := let '(h, e) := interleave w in ((h, e), failover.activeSpecIndex h);
  updateResolution i l w :=
    let '(h, e) := interleave w in
    let '(e, t) := clock e in (fst (failover.updateResolution i l t h), e)
}.

Definition resolved (n : nat) (r : resolution) (h : hubFailover) (e : E) : hubFailover :=
  fst (fst (steps n r (h, e))).
End Shared.

(** *** Retention *)

(** What may become of an entry: a literal stays as it is; a name that has
    addresses keeps having some, the old ones or ones the paths can reach. *)
Definition kept_spec (fams : pathFamilies) (s s' : failoverSpec) : Prop :=
  spec s' = spec s /\ (IsName (spec s) = false -> addrs s' = addrs s) /\
  (addrs s <> [] -> addrs s' <> []) /\
  (addrs s' = addrs s \/ Forall (fun ap => reachable_from fams ap = true) (addrs s')).
Definition kept (fams : pathFamilies) : list failoverSpec -> list failoverSpec -> Prop :=
  Forall2 (kept_spec fams).

Lemma kept_refl fams ss : kept fams ss ss.
Proof. induction ss as [|s ss IH]; constructor; [|done]. split_and!; try done. by left. Qed.

Lemma nameTargets_spec i ss t :
  t ∈ nameTargets_loop i ss ->
  exists s, i <= specIdx t /\ ss !! Z.to_nat (specIdx t - i) = Some s /\ IsName s = true.
Proof.
  revert i. induction ss as [|s ss IH]; intros i; cbn [nameTargets_loop]; [by intros ?%elem_of_nil|].
  assert (t ∈ nameTargets_loop (i + 1) ss ->
    exists s', i <= specIdx t /\ (s :: ss) !! Z.to_nat (specIdx t - i) = Some s' /\ IsName s' = true) as Hn.
  { intros (s' & Hle & Hl & Hs)%IH. exists s'. split; [lia|].
    replace (Z.to_nat (specIdx t - i)) with (S (Z.to_nat (specIdx t - (i + 1)))) by lia. done. }
  destruct (IsName s) eqn:E; [|done]. intros [-> |Ht]%elem_of_cons; [|by apply Hn].
  exists s. cbn. split; [lia|]. by rewrite Z.sub_diag.
Qed.

Lemma update_specs i l t h :
  specs (fst (failover.updateResolution i l t h)) = specs h \/
  specs (fst (failover.updateResolution i l t h)) = republish i l (specs h).
Proof.
  destruct (updateResolution_case i l t h) as [|? ? ? ? ? ? ->|? ? ? ? ? ? ? ->|? ? ? ? ->];
    [by left|by right..].
Qed.

Lemma foreign_keeps fs h :
  ok h -> ok (state (map as_event fs) h) /\ specs (state (map as_event fs) h) = specs h.
Proof.
  revert h. induction fs as [|f fs IH]; intros h Hok; [done|].
  change (state (map as_event (f :: fs)) h) with (state (map as_event fs) (after (as_event f) h)).
  assert (ok (after (as_event f) h) /\ specs (after (as_event f) h) = specs h) as [H1 H2].
  { destruct f as [hs t|cb]; [|by split; [apply (ok_ext h)|]]. split; [by apply check_ok|].
    destruct (onset_keeps t h) as (K & _). unfold after. cbn [exec as_event].
    by destruct (checkLocked_case hs t h Hok). }
  destruct (IH _ H1) as [H3 H4]. split; [done|]. by rewrite H4.
Qed.

Lemma kept_republish fams ss ss' t l :
  t ∈ nameTargetsFromSpecs (map spec ss) -> fit fams l -> kept fams ss ss' ->
  kept fams ss (republish (specIdx t) l ss').
Proof.
  intros (s & Hi & Hs & Hn)%nameTargets_spec [[Hne _] Hf] Hk.
  rewrite Z.sub_0_r, list_lookup_fmap in Hs.
  apply Forall2_alter_r; [done|]. intros x x' Hx _ (K1 & K2 & K3 & K4).
  rewrite Hx in Hs. injection Hs as <-. split; [done|]. split; [congruence|]. split; [done|]. by right.
Qed.

(** However lookups fail, answer nothing or answer anything, and whatever
    checks and subscriptions run between any two calls, the re-resolution
    controller leaves a literal endpoint as configured, never takes the last
    address from a name that had one, and publishes only addresses of a family
    some local path can source, without repeats; the failover controller's
    invariant holds throughout. *)
Theorem resolution_retains_endpoints {E} lookup clock health others (e : E)
    ss rh st boot fams poll timeout now n :
  specs_ok ss ->
  let r := newResolution (nameTargetsFromSpecs (map spec ss)) fams poll timeout now in
  let h := resolved lookup clock health others n r (start ss rh st boot) e in
  ok h /\ kept fams ss (specs h).
Proof.
  intros Hs r h. unfold h, resolved.
  set (P := fun w : hubFailover * E => ok (fst w) /\ kept fams ss (specs (fst w))).
  assert (forall w, P w -> P (interleave others w)) as Hi.
  { intros [h1 e1] [Hok Hk]. unfold interleave. cbn. destruct (others e1) as [e2 fs].
    destruct (foreign_keeps fs h1 Hok) as [K1 K2]. split; cbn; [done|]. by rewrite K2. }
  apply (steps_preserves (H := shared lookup clock health others) r P).
  1-4: intros; cbn; specialize (Hi w ltac:(done)); destruct (interleave others w) as [h1 e1];
    repeat case_match; done.
  - intros t l w Ht Hl Hw. cbn. apply Hi in Hw. destruct (interleave others w) as [h1 e1], Hw as [Hok Hk].
    destruct (clock e1) as [e2 t2]. split; cbn; [by apply update_ok; [apply Hl|]|].
    destruct (update_specs (specIdx t) l t2 h1) as [-> | ->]; [done|]. by apply kept_republish.
  - done.
  - split; cbn; [by apply new_ok|]. unfold start, newHubFailoverFromSpecs.
    destruct (entryAtLocked _ _). apply kept_refl.
Qed.

(** The expansion computed from a resolver's records is the reference one:
    the valid records of a family some path can source, with IPv4-mapped ones
    unmapped and repeats dropped, IPv4 before IPv6 and otherwise in resolver
    order.  It has no repeats, and the same records in the same order always give
    the same expansion. *)
Theorem order_addr_ports_reference l p fams :
  orderAddrPorts l p fams = ordered l p fams /\ NoDup (orderAddrPorts l p fams) /\
  (forall c, AddrPortFrom c p ∈ orderAddrPorts l p fams <->
     exists a, a ∈ l /\ IsValid a = true /\ allows a fams = true /\ Unmap a = c).
Proof.
  split; [apply orderAddrPorts_ordered|]. split; [apply ordered_nodup|]. intros c.
  rewrite orderAddrPorts_ordered. unfold ordered. rewrite list_elem_of_fmap.
  assert (forall a, a ∈ List.filter Is4 (canonical fams l) ++ List.filter (fun a => negb (Is4 a)) (canonical fams l)
          <-> exists b, b ∈ l /\ IsValid b = true /\ allows b fams = true /\ Unmap b = a) as Hc.
  { intros a. rewrite elem_of_app, !list_elem_of_In, !List.filter_In, <- list_elem_of_In.
    unfold canonical. rewrite (proj2 (firsts_spec _ _)), list_elem_of_fmap.
    setoid_rewrite list_elem_of_In. setoid_rewrite List.filter_In. unfold usable.
    setoid_rewrite andb_true_iff. destruct (Is4 a); set_solver. }
  setoid_rewrite Hc. split.
  - intros ([ab az] & E & Hx). injection E as E1 E2. destruct c. cbn in *. by subst.
  - intros Hx. by exists c.
Qed.

(** ** Boot *)

(** What the boot resolve makes of a configured entry. *)
Definition seeded (fams : pathFamilies) (s : EndpointSpec) (sp : failoverSpec) : Prop :=
  spec sp = s /\ NoDup (addrs sp) /\ (IsName s = false -> addrs sp = [endpoint.Addr s]) /\
  (IsName s = true -> Forall (fun ap => reachable_from fams ap = true) (addrs sp)).

Section Boot.
Context {W : Type} `{Outside W}.

Lemma bootResolve_fit s fams d (w : W) :
  NoDup (snd (bootResolveHostname s fams d w)) /\
  Forall (fun ap => reachable_from fams ap = true) (snd (bootResolveHostname s fams d w)).
Proof.
  unfold bootResolveHostname. destruct (Lookup _ _ w) as [w1 [a|]]; cbn; [|split; constructor].
  split; [apply ordered_nodup|]. apply Forall_forall. intros ap. apply ordered_reachable.
Qed.

Lemma bootSpecs_seeded resolver fams d ss (w : W) :
  Forall2 (seeded fams) ss (snd (bootSpecs resolver fams d ss w)).
Proof.
  revert w. induction ss as [|s ss IH]; intros w; cbn [bootSpecs]; [constructor|].
  destruct (IsName s) eqn:En; cbn [negb]; [destruct resolver|].
  - pose proof (bootResolve_fit s fams d w) as [F1 F2]. destruct (bootResolveHostname s fams d w) as [w1 l].
    specialize (IH w1). destruct (bootSpecs _ _ _ ss w1) as [w2 sps]. constructor; [|done].
    split_and!; try done. congruence.
  - specialize (IH w). destruct (bootSpecs _ _ _ ss w) as [w2 sps]. constructor; [|done].
    split_and!; try done; [constructor|congruence].
  - specialize (IH w). destruct (bootSpecs _ _ _ ss w) as [w2 sps]. constructor; [|done].
    split_and!; try done; [|congruence]. apply NoDup_singleton.
Qed.

Lemma bootEndpoint_head si sps : bootEndpoint sps = snd <$> head (flat_from si sps).
Proof.
  revert si. induction sps as [|sp sps IH]; intros si; cbn; [done|].
  destruct (addrs sp); cbn; [apply IH|done].
Qed.

Lemma seeded_ok fams ss sps : Forall2 (seeded fams) ss sps -> specs_ok sps.
Proof. induction 1 as [|s sp ss sps (_ & Hn & _) _ IH]; by constructor. Qed.

Lemma new_active sps rh st now :
  specs_ok sps ->
  let h := newHubFailoverFromSpecs sps rh st now in
  bootEndpoint sps = (if activeSpec h =? -1 then None else Some (activeAddr h)).
Proof.
  intros Hs. cbv zeta. rewrite (bootEndpoint_head 0). unfold newHubFailoverFromSpecs.
  rewrite entryAt_flat by lia. unfold flat. cbn [specs]. destruct (flat_from 0 sps) as [|[i a] l] eqn:F; [done|].
  assert ((i, a) ∈ flat_from 0 sps) as Hin by (rewrite F; apply list_elem_of_here).
  apply flat_from_fst in Hin. change (entry ((i, a) :: l) 0) with (i, a). cbn [update activeSpec activeAddr].
  cbn. by rewrite (proj2 (Z.eqb_neq i (-1))) by lia.
Qed.

Lemma bootPeers_seeded resolver fams d peers (w : W) :
  Forall2 (fun ss out => Forall2 (seeded fams) ss (fst out) /\ snd out = bootEndpoint (fst out))
    peers (snd (bootPeers resolver fams d peers w)).
Proof.
  revert w. induction peers as [|ss peers IH]; intros w; cbn [bootPeers]; [constructor|].
  pose proof (bootSpecs_seeded resolver fams d ss w) as Hs.
  destruct (bootSpecs resolver fams d ss w) as [w1 sps]. specialize (IH w1).
  destruct (bootPeers _ _ _ peers w1) as [w2 rest]. by constructor.
Qed.

(** Whatever the resolver answers at boot, each peer's entries keep the
    configured order, literals are seeded with their address and names with
    addresses a local path can source, without repeats; and the endpoint rendered
    into the engine's configuration is exactly the one the peer's failover
    controller starts with as active, none if it starts with none. *)
Theorem boot_endpoint_is_active newResolver sources d peers (w : W) :
  Forall2 (fun ss out =>
      Forall2 (seeded (pathFamiliesFromPaths sources)) ss (fst out) /\ specs_ok (fst out) /\
      forall rh st now,
        let h := newHubFailoverFromSpecs (fst out) rh st now in
        snd out = (if activeSpec h =? -1 then None else Some (activeAddr h)))
    peers (snd (resolveBootEndpoints newResolver sources d peers w)).
Proof.
  unfold resolveBootEndpoints. destruct (if existsb (existsb IsName) peers then newResolver w else (w, false)) as [w1 resolver].
  pose proof (bootPeers_seeded resolver (pathFamiliesFromPaths sources) d peers w1) as Hp.
  destruct (bootPeers _ _ _ peers w1) as [w2 out]. cbn [snd].
  eapply Forall2_impl; [exact Hp|]. intros ss [sps ep] [Hs ->]. cbn [fst snd] in *.
  pose proof (seeded_ok _ _ _ Hs) as Hok. split; [done|]. split; [done|]. intros rh st now. by apply new_active.
Qed.
End Boot.

(** ** A witness: lookups fail every other time *)
Definition flaky (_ : option Duration) (_ : string) (e : nat) : nat * option answer :=
  (S e, if Nat.even e then None else Some (mkAnswer [mkAddr [192; 0; 2; 9] []] (60 * second) true)).
Definition ticking (e : nat) : nat * Time := (S e, Z.of_nat e * second).
Definition silent (e : nat) : nat * list PathState := (S e, [StateDown]).
Definition checking (e : nat) : nat * list foreign :=
  (S e, [OtherCheck [StateDown] (Z.of_nat e * second)]).

Lemma resolution_retains_endpoints_witness :
  let r := newResolution (nameTargetsFromSpecs (map spec specsW)) (mkPathFamilies true false)
             (30 * second) second second in
  let h := resolved flaky ticking silent checking 6 r (start specsW true hubFailoverSettle second) 1%nat in
  (ok h /\ kept (mkPathFamilies true false) specsW (specs h)) /\
  map addrs (specs h) = [[ap 1]; [mkAddrPort [192; 0; 2; 9] [] 51820]].
Proof.
  split; [|vm_compute; reflexivity].
  apply (resolution_retains_endpoints flaky ticking silent checking 1%nat specsW true hubFailoverSettle second
    (mkPathFamilies true false) (30 * second) second second 6).
  exact specsW_ok.
Defined.

End resolution_props.
