(* ===== verification/Device.v ===== *)
(** * The device layer's decisions ([internal/device]: device.go, failover.go's
    wiring, tunresize.go, pmtudiscovery.go; [internal/bind/mtu.go])

    Tunnel sizing, the engine's boot configuration, which peers carry the
    default route, the reload diff and the runtime resizing of the link.  Calls
    that can fail (the engine, netlink, the bind) are given by their results. *)

From Stdlib Require Import Ascii String.
From stdpp Require Import base tactics list numbers strings.
From S2P Require Import Prelude Frame BondWire Telemetry Pmtu Netip Config Failover Resolution.

Module device.
Import netip config.
Import telemetry (PathState, StateUp, StateDown).
#[local] Existing Instances telemetry.PathState_eq_dec.

(** ** Sizes ([bind/mtu.go]) *)
Definition DefaultPathMTU : Z := 1500.
Definition IPv4UDPOverhead : Z := 20 + 8.
Definition IPv6UDPOverhead : Z := 40 + 8.
Definition WGTransportOverhead : Z := 16 + 16.
Definition InnerMTU (pathMTU : Z) : Z :=
  pathMTU - IPv4UDPOverhead - Z.of_nat bond.Overhead - WGTransportOverhead.
Definition InnerMTU6 (pathMTU : Z) : Z :=
  pathMTU - IPv6UDPOverhead - Z.of_nat bond.Overhead - WGTransportOverhead.

Definition outerHeadroom (c : Config) : Z := MaxJunkPrefix (amnezia c).

Fixpoint tunMTU_loop (headroom min : Z) (ps : list Path) : Z :=
  match ps with
  | [] => min
  | p :: ps =>
      let pathMTU := if MTU p =? 0 then DefaultPathMTU else MTU p in
      let inner := InnerMTU (pathMTU - headroom) in
      tunMTU_loop headroom (if (min =? 0) || (inner <? min) then inner else min) ps
  end.
Definition tunMTU (c : Config) : Z :=
  let headroom := outerHeadroom c in
  if (length (Paths c) =? 0)%nat then InnerMTU (DefaultPathMTU - headroom)
  else tunMTU_loop headroom 0 (Paths c).

(** ** Default routes *)
Definition isDefaultRoute (cidr : string) : bool :=
  match ParsePrefix cidr with Some p => Bits p =? 0 | None => false end.

Definition splitDefaultRoute (cidr : string) : list string :=
  match ParsePrefix cidr with
  | None => [cidr]
  | Some p =>
      if negb (Bits p =? 0) then [cidr]
      else if Is4 (paddr p) then ["0.0.0.0/1"%string; "128.0.0.0/1"%string]
      else ["::/1"%string; "8000::/1"%string]
  end.

Definition defaultRouteSplits (allowedIPs : list string) : list string :=
  concat (map splitDefaultRoute (List.filter isDefaultRoute allowedIPs)).

(** The prefix with the bits past its length cleared. *)
Definition Masked (p : Prefix) : Prefix :=
  let b := abytes (paddr p) in
  let w := 8 * Z.of_nat (length b) in
  mkPrefix (mkAddr (be_put (length b) (be_get b / 2 ^ (w - Bits p) * 2 ^ (w - Bits p))) []) (Bits p).

Definition defaultRoutePrefixes (c : Config) : list Prefix :=
  concat (map (fun peer =>
    if negb (isExit peer) then []
    else concat (map (fun cidr => omap (fun s => Masked <$> ParsePrefix s) (splitDefaultRoute cidr))
                   (AllowedIPs peer))) (peers c)).

(** ** Exit-capable peers *)
Fixpoint exits_loop (i : nat) (ps : list Peer) : list nat :=
  match ps with
  | [] => []
  | p :: ps => if isExit p then i :: exits_loop (S i) ps else exits_loop (S i) ps
  end.
Definition exitCapablePeerIndices (c : Config) : list nat :=
  if negb (bool_decide (Role c = RoleEdge)) then [] else exits_loop 0 (peers c).

Definition exitCapablePeerNames (c : Config) (ids : list PeerIdentity) : list string :=
  omap (fun i => idName <$> ids !! i) (exitCapablePeerIndices c).

Definition standbyExitPeers (c : Config) : list nat :=
  match exitCapablePeerIndices c with
  | _ :: j :: standby => j :: standby
  | _ => []
  end.

(** The smallest positive round trip of a path that is up. *)
Fixpoint bestRTT_loop (best : Duration) (ps : list (PathState * Duration)) : Duration :=
  match ps with
  | [] => best
  | (st, rtt) :: ps =>
      if negb (bool_decide (st = StateUp)) || (rtt <=? 0) then bestRTT_loop best ps
      else bestRTT_loop (if (best =? 0) || (rtt <? best) then rtt else best) ps
  end.
Definition bestUpPathRTT (ps : list (PathState * Duration)) : Duration * bool :=
  let best := bestRTT_loop 0 ps in (best, 0 <? best).

(** ** The engine's boot configuration ([uapiConfig])

    One constructor per [key=value] line. *)
Inductive uapiLine :=
  | UPrivateKey (k : list Z) | UListenPort (p : Z) | UAmnezia (a : Amnezia)
  | UPublicKey (k : string) | UEndpoint (ap : AddrPort) | UKeepalive (s : Z) | UAllowedIP (cidr : string).
#[export] Instance Amnezia_eq_dec : EqDecision Amnezia.
Proof. solve_decision. Defined.
#[export] Instance uapiLine_eq_dec : EqDecision uapiLine.
Proof. solve_decision. Defined.

Definition keepaliveSeconds : Z := 25.

Definition writeAmnezia (a : Amnezia) : list uapiLine := if negb (Configured a) then [] else [UAmnezia a].

(** The allowed_ip lines of one peer. *)
Definition allowedLines (standby : bool) (allowed : list string) : list string :=
  concat (map (fun cidr => if standby && isDefaultRoute cidr then [] else splitDefaultRoute cidr) allowed).

Definition peerLines (standby : bool) (p : Peer) (ep : option AddrPort) : list uapiLine :=
  UPublicKey (hex (kbytes (PublicKey p))) ::
  match ep with Some ap => [UEndpoint ap; UKeepalive keepaliveSeconds] | None => [] end ++
  map UAllowedIP (allowedLines standby (AllowedIPs p)).

(** The error is the peer without an allowed_ip line. *)
Fixpoint uapiPeers (standby : list nat) (i : nat) (ps : list (Peer * option AddrPort))
    : outcome nat (list uapiLine) :=
  match ps with
  | [] => Ok []
  | (p, ep) :: ps =>
      let sb := bool_decide (i ∈ standby) in
      if (length (allowedLines sb (AllowedIPs p)) =? 0)%nat then Err i
      else rest ← uapiPeers standby (S i) ps; Ok (peerLines sb p ep ++ rest)
  end.

Definition uapiConfig (c : Config) (boot : list (option AddrPort)) : outcome nat (list uapiLine) :=
  let head := UPrivateKey (kbytes (PrivateKey (wireGuard c))) ::
              (if bool_decide (Role c = RoleConcentrator) then [UListenPort (ListenPort (wireGuard c))] else []) ++
              writeAmnezia (amnezia c) in
  rest ← uapiPeers (standbyExitPeers c) 0 (zip (peers c) boot);
  Ok (head ++ rest).

(** ** Which peers get a failover controller *)
Definition peerNeedsHubFailover (p : Peer) : bool :=
  existsb IsName (EndpointSpecs p) || (2 <=? length (Endpoints p))%nat.

Record wiring := mkWiring { wPeer : nat; wName : string; wExhaustionOnly : bool; wTargets : list resolution.nameTarget }.

(** [probers i] says that peer [i] has a probe transport. *)
Fixpoint wire_loop (multiExit : bool) (exits : list nat) (probers : nat -> bool) (ids : list PeerIdentity)
    (i : nat) (ps : list Peer) : list wiring :=
  match ps with
  | [] => []
  | p :: ps =>
      let rest := wire_loop multiExit exits probers ids (S i) ps in
      let exhaustionOnly := negb (peerNeedsHubFailover p) && (multiExit && bool_decide (i ∈ exits)) in
      if negb (peerNeedsHubFailover p) && negb exhaustionOnly then rest
      else if negb (probers i) then rest
      else mkWiring i (default EmptyString (idName <$> ids !! i)) exhaustionOnly
             (resolution.nameTargetsFromSpecs (EndpointSpecs p)) :: rest
  end.
Definition startFailoverAndResolution (c : Config) (probers : nat -> bool) (ids : list PeerIdentity) : list wiring :=
  if negb (bool_decide (Role c = RoleEdge)) then []
  else wire_loop (1 <? length (peers c))%nat (exitCapablePeerIndices c) probers ids 0 (peers c).

(** ** Reload *)
Definition diffPaths (live : list string) (desired : list Path) : list Path * list string :=
  (List.filter (fun p => negb (bool_decide (pathName p ∈ live))) desired,
   List.filter (fun n => negb (bool_decide (n ∈ map pathName desired))) live).

Definition reordered (live desired : list Path) : bool :=
  let common (l other : list Path) :=
    List.filter (fun n => bool_decide (n ∈ map pathName other)) (map pathName l) in
  existsb (fun i => negb (bool_decide (common live desired !! i = common desired live !! i)))
    (List.seq 0 (length (common live desired))).

Definition runningConfig (live : Config) (add : list Path) (remove : list string) : Config :=
  live <| Paths := List.filter (fun p => negb (bool_decide (pathName p ∈ remove))) (Paths live) ++ add |>.

#[export] Instance EndpointSpec_eq_dec : EqDecision EndpointSpec.
Proof. solve_decision. Defined.
#[export] Instance Peer_eq_dec : EqDecision Peer.
Proof. solve_decision. Defined.
#[export] Instance WireGuard_eq_dec : EqDecision WireGuard.
Proof. solve_decision. Defined.
#[export] Instance DNS_eq_dec : EqDecision DNS.
Proof. solve_decision. Defined.
#[export] Instance Liveness_eq_dec : EqDecision Liveness.
Proof. solve_decision. Defined.
#[export] Instance Scheduler_eq_dec : EqDecision SchedulerConfig.
Proof. solve_decision. Defined.

Inductive warning :=
  | WRole | WExit | WPSK | WWireGuard | WAmnezia | WLog | WTUNPersist | WDNS | WLiveness | WBind
  | WPathAddr (path : string) | WPathBind (path : string) | WReorder | WOther.

Definition warn_if (b : bool) (w : warning) : list warning := if b then [w] else [].

(** The last path of a name, as the map built from the slice holds it. *)
Definition liveByName (n : string) (live : list Path) : option Path :=
  List.find (fun p => bool_decide (pathName p = n)) (rev live).

Definition pathWarnings (live : list Path) (d : Path) : list warning :=
  match liveByName (pathName d) live with
  | None => []
  | Some l =>
      warn_if (negb (bool_decide (SourceAddr l = SourceAddr d)) || negb (bool_decide (DestAddr l = DestAddr d)))
        (WPathAddr (pathName d)) ++
      warn_if (negb (bool_decide (pathBind l = pathBind d))) (WPathBind (pathName d))
  end.

(** After the compared fields are zeroed, the scheduler is what is left. *)
Definition reloadWarnings (live desired : Config) : list warning :=
  warn_if (negb (bool_decide (Role live = Role desired))) WRole ++
  warn_if (negb (bool_decide (Exit live = Exit desired))) WExit ++
  warn_if (negb (bool_decide (PSK live = PSK desired))) WPSK ++
  warn_if (negb (bool_decide (wireGuard live = wireGuard desired))) WWireGuard ++
  warn_if (negb (bool_decide (amnezia live = amnezia desired))) WAmnezia ++
  warn_if (negb (bool_decide (logLevel live = logLevel desired))) WLog ++
  warn_if (negb (Bool.eqb (TUNPersist live) (TUNPersist desired))) WTUNPersist ++
  warn_if (negb (bool_decide (dns live = dns desired))) WDNS ++
  warn_if (negb (bool_decide (liveness live = liveness desired))) WLiveness ++
  warn_if (negb (bool_decide (Bind live = Bind desired))) WBind ++
  concat (map (pathWarnings (Paths live)) (Paths desired)) ++
  warn_if (reordered (Paths live) (Paths desired)) WReorder ++
  warn_if (negb (bool_decide (scheduler live = scheduler desired))) WOther.

(** The tunnel's state a reload reads and writes: the running configuration,
    the bind's [PathNames], and the two endpoints with what they serve. *)
Record Tunnel := mkTunnel {
  tcfg : Config;
  bound : list string;
  metricsUp : bool;
  tmetrics : string;
  monitorUp : bool;
  tmonitor : Monitor;
  tgauge : option bool
}.
#[export] Instance eta_Tunnel : Eta Tunnel := fun t =>
  mkTunnel (tcfg t) (bound t) (metricsUp t) (tmetrics t) (monitorUp t) (tmonitor t) (tgauge t).
#[export] Instance Monitor_eq_dec : EqDecision Monitor.
Proof. solve_decision. Defined.

(** How the calls of a reload turn out. *)
Record outcomes := mkOutcomes {
  metricsOk : bool; monitorOk : bool; addOk : Path -> bool; removeOk : string -> bool
}.

Inductive reloadError := ErrMetrics | ErrMonitor | ErrAdd (path : string) | ErrRemove (path : string).

Definition stopMetricsLocked (t : Tunnel) : Tunnel :=
  if negb (metricsUp t) then t else t <| metricsUp := false |> <| tmetrics := EmptyString |>.
(** [false] is an error. *)
Definition applyMetricsLocked (ok : bool) (listen : string) (t : Tunnel) : Tunnel * bool :=
  if bool_decide (listen = tmetrics t) then (t, true)
  else if bool_decide (listen = EmptyString) then (stopMetricsLocked t, true)
  else if negb ok then (t, false)
  else (stopMetricsLocked t <| metricsUp := true |> <| tmetrics := listen |>, true).

Definition Monitor0 : Monitor := mkMonitor EmptyString EmptyString [] false.
Definition stopMonitorLocked (t : Tunnel) : Tunnel :=
  if negb (monitorUp t) then t else t <| monitorUp := false |> <| tmonitor := Monitor0 |>.
Definition applyMonitorLocked (ok : bool) (m : Monitor) (t : Tunnel) : Tunnel * bool :=
  if bool_decide (m = tmonitor t) then (t, true)
  else if bool_decide (monListen m = EmptyString) then (stopMonitorLocked t, true)
  else
    let sameAddr := bool_decide (monListen m = monListen (tmonitor t)) in
    let t := if sameAddr then stopMonitorLocked t else t in
    if negb ok then (t, false)
    else
      let t := if negb sameAddr then stopMonitorLocked t else t in
      (t <| monitorUp := true |> <| tmonitor := m |>, true).

Fixpoint addPaths (ok : Path -> bool) (add : list Path) (t : Tunnel) : Tunnel * option reloadError :=
  match add with
  | [] => (t, None)
  | p :: add =>
      if ok p then addPaths ok add (t <| bound := bound t ++ [pathName p] |>)
      else (t, Some (ErrAdd (pathName p)))
  end.
Fixpoint removePaths (ok : string -> bool) (remove : list string) (t : Tunnel) : Tunnel * option reloadError :=
  match remove with
  | [] => (t, None)
  | n :: remove =>
      if ok n then removePaths ok remove (t <| bound := List.filter (fun m => negb (bool_decide (m = n))) (bound t) |>)
      else (t, Some (ErrRemove n))
  end.

Definition Reload (o : outcomes) (c : Config) (t : Tunnel) : Tunnel * option reloadError :=
  let '(t, ok) := if negb (bool_decide (metricsListen c = tmetrics t))
                  then applyMetricsLocked (metricsOk o) (metricsListen c) t else (t, true) in
  if negb ok then (t, Some ErrMetrics)
  else
    let '(t, ok) := if negb (bool_decide (monitor c = tmonitor t))
                    then applyMonitorLocked (monitorOk o) (monitor c) t else (t, true) in
    if negb ok then (t, Some ErrMonitor)
    else
      let '(add, remove) := diffPaths (bound t) (Paths c) in
      let '(t, e) := addPaths (addOk o) add t in
      match e with
      | Some e => (t, Some e)
      | None =>
          let '(t, e) := removePaths (removeOk o) remove t in
          match e with
          | Some e => (t, Some e)
          | None =>
              let t := match LivenessBudgetSane c with
                       | Some b => if metricsUp t then t <| tgauge := Some b |> else t
                       | None => t
                       end in
              let run := runningConfig (tcfg t) add remove in
              let run := run <| metricsListen := tmetrics t |> <| monitor := tmonitor t |>
                             <| LivenessBudgetSane := LivenessBudgetSane c |> in
              (t <| tcfg := run |>, None)
          end
      end.

(** ** Path MTU discovery per path *)
Definition pmtuRefreshInterval : Duration := 300 * second.
Definition pmtuConfigFor (p : Path) (junk : Z) : pmtu.PMTUConfig :=
  pmtu.mkPMTUConfig (MTU p) DefaultPathMTU pmtuRefreshInterval junk 0 0.

(** ** Runtime resizing of the link *)
Definition mtuResizeDwell : Duration := 5 * second.

Record pathMTUSample := mkSample { sstate : PathState; spmtu : Z }.
#[export] Instance eta_sample : Eta pathMTUSample := fun s => mkSample (sstate s) (spmtu s).

Fixpoint minInner_loop (min : Z) (ok : bool) (l : list pathMTUSample) : Z * bool :=
  match l with
  | [] => (min, ok)
  | s :: l =>
      if negb (bool_decide (sstate s = StateUp)) then minInner_loop min ok l
      else
        let inner := InnerMTU (spmtu s) in
        if negb ok || (inner <? min) then minInner_loop inner true l else minInner_loop min ok l
  end.
Definition minInnerMTU (l : list pathMTUSample) : Z * bool := minInner_loop 0 false l.

Record mtuResizer := mkResizer { dwell : Duration; applied : Z; pending : Z; pendingSince : Time }.
#[export] Instance eta_resizer : Eta mtuResizer := fun r =>
  mkResizer (dwell r) (applied r) (pending r) (pendingSince r).

Definition newMTUResizer (bootMTU : Z) (d : Duration) : mtuResizer := mkResizer d bootMTU 0 0.

(** [apply] says whether setting the link's MTU succeeds.  The result is the
    new applied value and whether it changed. *)
Definition resizer_decide (apply : Z -> bool) (l : list pathMTUSample) (now : Time) (r : mtuResizer)
    : mtuResizer * (Z * bool) :=
  let '(target, ok) := minInnerMTU l in
  if negb ok || (target =? applied r) then (r <| pending := 0 |>, (applied r, false))
  else
    let set (r : mtuResizer) :=
      let r := r <| pending := 0 |> in
      if negb (apply target) then (r, (applied r, false))
      else (r <| applied := target |>, (target, true)) in
    if applied r <? target then
      let r := if negb (pending r =? target) then r <| pending := target |> <| pendingSince := now |> else r in
      if time_sub now (pendingSince r) <? dwell r then (r, (applied r, false)) else set r
    else set r.

(** One entry of the metrics source: a path as one bound peer sees it. *)
Record pathSnapshot := mkSnapshot { snName : string; snState : PathState; snPMTU : Z }.

Definition configuredMTU (c : Config) (n : string) : Z :=
  match List.find (fun p => bool_decide (pathName p = n)) (rev (Paths c)) with
  | Some p => if MTU p =? 0 then DefaultPathMTU else MTU p
  | None => 0
  end.

Definition effectiveMTU (c : Config) (s : pathSnapshot) : Z :=
  let pmtu := if snPMTU s <=? 0 then configuredMTU c (snName s) else snPMTU s in
  let pmtu := if pmtu <=? 0 then DefaultPathMTU else pmtu in
  pmtu - outerHeadroom c.

(** The samples by name, in order of first appearance. *)
Fixpoint foldSample (n : string) (st : PathState) (pmtu : Z) (l : list (string * pathMTUSample))
    : list (string * pathMTUSample) :=
  match l with
  | [] => [(n, mkSample st pmtu)]
  | (m, cur) :: l =>
      if bool_decide (m = n) then
        let cur := if bool_decide (st = StateUp) then cur <| sstate := StateUp |> else cur in
        let cur := if spmtu cur <=? 0 then cur <| spmtu := pmtu |> else cur in
        (m, cur) :: l
      else (m, cur) :: foldSample n st pmtu l
  end.
Definition sampleMTU (c : Config) (src : list pathSnapshot) : list pathMTUSample :=
  map snd (fold_left (fun l s => foldSample (snName s) (snState s) (effectiveMTU c s) l) src []).

End device.
