(* ===== verification/DeviceProps.v ===== *)
(** * The device layer: the boot render, the link's size, the reload *)

From Stdlib Require Import Ascii String.
From stdpp Require Import base tactics list numbers strings sets.
From S2P Require Import Prelude Frame BondWire Telemetry Pmtu Netip Config ConfigProps Failover Resolution Device.

Module device_props.
Import netip config config_props device.
Import telemetry (PathState, StateUp, StateDown).

(** ** Default routes *)
Definition v4Splits : list string := ["0.0.0.0/1"%string; "128.0.0.0/1"%string].
Definition v6Splits : list string := ["::/1"%string; "8000::/1"%string].

(** A split is a route of one bit that parses. *)
Definition one_bit (s : string) : bool :=
  match ParsePrefix s with Some p => Bits p =? 1 | None => false end.

Lemma splits_one_bit s : s ∈ v4Splits ++ v6Splits -> one_bit s = true.
Proof. intros H. repeat (apply elem_of_cons in H as [-> |H]; [vm_compute; reflexivity|]). by apply elem_of_nil in H. Qed.

Lemma split_default s p : ParsePrefix s = Some p -> Bits p = 0 ->
  splitDefaultRoute s = if Is4 (paddr p) then v4Splits else v6Splits.
Proof. intros Hp Hb. unfold splitDefaultRoute. rewrite Hp, Hb. done. Qed.

Lemma split_other s p : ParsePrefix s = Some p -> Bits p <> 0 -> splitDefaultRoute s = [s].
Proof. intros Hp Hb. unfold splitDefaultRoute. rewrite Hp. by rewrite (proj2 (Z.eqb_neq _ _) Hb). Qed.

Lemma isDefault_bits s p : ParsePrefix s = Some p -> isDefaultRoute s = (Bits p =? 0).
Proof. intros Hp. unfold isDefaultRoute. by rewrite Hp. Qed.

Lemma mask_fold ps m :
  fold_left (fun m p => if negb (Bits p =? 0) then m
                        else if Is4 (paddr p) then m <| m4 := true |> else m <| m6 := true |>) ps m =
  mkMask (m4 m || existsb (fun p => (Bits p =? 0) && Is4 (paddr p)) ps)
         (m6 m || existsb (fun p => (Bits p =? 0) && negb (Is4 (paddr p))) ps).
Proof.
  revert m. induction ps as [|p ps IH]; intros m; cbn [fold_left existsb].
  - rewrite !orb_false_r. by destruct m.
  - rewrite IH. destruct (Bits p =? 0), (Is4 (paddr p)), m as [a b]; cbn; rewrite ?orb_true_r, ?orb_false_r; done.
Qed.

Lemma mask_spec ps :
  defaultRouteMaskOf ps = mkMask (existsb (fun p => (Bits p =? 0) && Is4 (paddr p)) ps)
                                 (existsb (fun p => (Bits p =? 0) && negb (Is4 (paddr p))) ps).
Proof. unfold defaultRouteMaskOf. by rewrite mask_fold. Qed.

(** The routes a peer's ranges split into depend only on its mask. *)
Lemma splits_mask l ps s :
  Forall2 (fun s p => ParsePrefix s = Some p) l ps ->
  s ∈ defaultRouteSplits l <->
  (m4 (defaultRouteMaskOf ps) = true /\ s ∈ v4Splits) \/ (m6 (defaultRouteMaskOf ps) = true /\ s ∈ v6Splits).
Proof.
  intros H. rewrite mask_spec. cbn [m4 m6]. unfold defaultRouteSplits.
  induction H as [|x p l ps Hx _ IH]; cbn [List.filter map concat existsb]; [set_solver|].
  rewrite (isDefault_bits _ _ Hx). destruct (Z.eqb_spec (Bits p) 0) as [E|E]; cbn [andb orb]; [|exact IH].
  cbn [map concat]. rewrite elem_of_app, IH, (split_default _ _ Hx E).
  destruct (Is4 (paddr p)); cbn [negb orb]; naive_solver.
Qed.

Lemma splits_are_splits l ps s :
  Forall2 (fun s p => ParsePrefix s = Some p) l ps -> s ∈ defaultRouteSplits l -> s ∈ v4Splits ++ v6Splits.
Proof. intros H Hs. apply (splits_mask _ _ _ H) in Hs. set_solver. Qed.

(** ** Exit-capable peers *)
Lemma exits_loop_spec k ps i :
  i ∈ exits_loop k ps <-> exists j p, i = (k + j)%nat /\ ps !! j = Some p /\ isExit p = true.
Proof.
  revert k. induction ps as [|p ps IH]; intros k; cbn [exits_loop].
  - split; [by intros ?%elem_of_nil|]. intros (j & p & _ & H & _). by rewrite lookup_nil in H.
  - assert (i ∈ exits_loop (S k) ps <-> exists j q, i = (k + S j)%nat /\ ps !! j = Some q /\ isExit q = true) as IH'.
    { rewrite IH. split; intros (j & q & -> & Hq); exists j, q; (split; [lia|done]). }
    destruct (isExit p) eqn:E; [rewrite elem_of_cons|]; rewrite IH'; split.
    + intros [-> |(j & q & -> & Hq)]; [exists 0%nat, p; split; [lia|done]|by exists (S j), q].
    + intros ([|j] & q & -> & Hq); [left; lia|right; by exists j, q].
    + intros (j & q & -> & Hq). by exists (S j), q.
    + intros ([|j] & q & -> & Hq & Hx); [injection Hq as <-; congruence|]. by exists j, q.
Qed.

Lemma exits_loop_nodup k ps : NoDup (exits_loop k ps).
Proof.
  revert k. induction ps as [|p ps IH]; intros k; cbn; [constructor|]. destruct (isExit p); [|done].
  constructor; [|done]. intros (j & q & E & _)%exits_loop_spec. lia.
Qed.

Lemma standby_spec c i :
  i ∈ standbyExitPeers c <->
  (2 <= length (exitCapablePeerIndices c))%nat /\ i ∈ exitCapablePeerIndices c /\ Some i <> head (exitCapablePeerIndices c).
Proof.
  assert (NoDup (exitCapablePeerIndices c)) as Hn.
  { unfold exitCapablePeerIndices. destruct (negb _); [constructor|apply exits_loop_nodup]. }
  unfold standbyExitPeers. destruct (exitCapablePeerIndices c) as [|a [|b l]]; cbn [length head].
  - set_solver.
  - split; [set_solver|]. intros [? _]. lia.
  - apply NoDup_cons in Hn as [Ha _]. split; [|set_solver].
    intros Hi. split; [lia|]. split; [by apply list_elem_of_further|]. by intros [= ->].
Qed.

(** ** The boot render *)
Lemma length_zero_iff {A} (l : list A) : (length l =? 0)%nat = true <-> l = [].
Proof. destruct l; cbn; naive_solver. Qed.

Lemma concat_nil_iff {A B} (f : A -> list B) l : concat (map f l) = [] <-> Forall (fun x => f x = []) l.
Proof.
  induction l as [|x l IH]; cbn; [split; [constructor|done]|]. rewrite Forall_cons, <- IH.
  split; [by intros [? ?]%app_eq_nil|by intros [-> ->]].
Qed.

Lemma split_nonempty s : splitDefaultRoute s <> [].
Proof. unfold splitDefaultRoute. repeat case_match; done. Qed.

(** What a peer renders is empty only without ranges, or for a standby with
    nothing but default routes. *)
Lemma allowedLines_nil sb l :
  allowedLines sb l = [] <-> Forall (fun s => sb = true /\ isDefaultRoute s = true) l.
Proof.
  unfold allowedLines. rewrite concat_nil_iff. apply Forall_iff. intros s.
  destruct (sb && isDefaultRoute s) eqn:E; [apply andb_true_iff in E; naive_solver|].
  apply andb_false_iff in E. pose proof (split_nonempty s).
  split; [done|]. intros [-> D]. rewrite D in E. by destruct E.
Qed.

Lemma uapiPeers_spec standby i ps :
  match uapiPeers standby i ps with
  | Ok _ => forall k p ep, ps !! k = Some (p, ep) -> allowedLines (bool_decide ((i + k)%nat ∈ standby)) (AllowedIPs p) <> []
  | Err j => exists k p ep, j = (i + k)%nat /\ ps !! k = Some (p, ep) /\
               allowedLines (bool_decide ((i + k)%nat ∈ standby)) (AllowedIPs p) = []
  | Panic => False
  end.
Proof.
  revert i. induction ps as [|[p ep] ps IH]; intros i; cbn [uapiPeers]; [intros k p ep Hk; by rewrite lookup_nil in Hk|].
  destruct (Nat.eqb_spec (length (allowedLines (bool_decide (i ∈ standby)) (AllowedIPs p))) 0) as [E|E].
  - exists 0%nat, p, ep. rewrite Nat.add_0_r. split_and!; try done. by apply nil_length_inv.
  - specialize (IH (S i)). destruct (uapiPeers standby (S i) ps) as [l|j|]; cbn [mbind outcome_bind]; [|by destruct IH as (k & q & eq & -> & Hk & Hq); exists (S k), q, eq; rewrite Nat.add_succ_r|done].
    intros [|k] q eq Hq; [|rewrite Nat.add_succ_r; by apply (IH k q eq)].
    injection Hq as <- <-. rewrite Nat.add_0_r. intros F. by rewrite F in E.
Qed.

Lemma exits_lookup c i :
  i ∈ exitCapablePeerIndices c -> exists p, peers c !! i = Some p /\ isExit p = true /\ Role c = RoleEdge.
Proof.
  unfold exitCapablePeerIndices. case_bool_decide as R; cbn [negb]; [|by intros ?%elem_of_nil].
  intros (j & p & -> & Hp & Hx)%exits_loop_spec. by exists p.
Qed.

Lemma exits_loop_length k ps : length (exits_loop k ps) = length (List.filter isExit ps).
Proof. revert k. induction ps as [|p ps IH]; intros k; cbn; [done|]. by destruct (isExit p); cbn; rewrite IH. Qed.

Lemma exitsOf_length c pres : Forall2 parsed (peers c) pres ->
  length (exitsOf c pres) = length (List.filter isExit (peers c)).
Proof.
  unfold exitsOf. intros H. induction H as [|p pre ps pres _ _ IH]; cbn; [done|]. by destruct (isExit p); cbn; rewrite IH.
Qed.

(** Once there is more than one exit: every exit has the same default routes and
    a range of its own, and no other peer has a default route. *)
Lemma accepted_exits c pres :
  Forall2 parsed (peers c) pres -> validateEdgePeerSet c pres = Ok tt ->
  (2 <= length (exitCapablePeerIndices c))%nat ->
  exists mask, forall i p pre, peers c !! i = Some p -> pres !! i = Some pre ->
    if isExit p then defaultRouteMaskOf pre = mask /\ hasNonDefaultAllowedIP pre = true
    else Forall (fun q => Bits q <> 0) pre.
Proof.
  intros Hp Hv Hl. apply edgePeerSet_ok in Hv as [_ Hv]. unfold exitCapablePeerIndices in Hl.
  destruct (negb _) in Hl; [cbn in Hl; lia|]. rewrite exits_loop_length in Hl.
  assert (length (peers c) <> 1%nat) as Hne.
  { pose proof (List.filter_length_le isExit (peers c)). lia. }
  destruct (Hv Hne) as [Ha Hb]. destruct Hb as [mask Hm]; [by rewrite (exitsOf_length _ _ Hp)|].
  exists mask. intros i p pre Hi Hpre.
  assert ((p, pre) ∈ zip (peers c) pres) as Hz.
  { apply list_elem_of_lookup. exists i. apply lookup_zip_Some. done. }
  destruct (isExit p) eqn:E.
  - rewrite Forall_forall in Hm. apply (Hm (p, pre)). unfold exitsOf. apply list_elem_of_In, List.filter_In.
    split; [by apply list_elem_of_In|done].
  - rewrite Forall_forall in Ha. destruct (Ha _ Hz) as [F|F]; cbn in F; [congruence|].
    apply Forall_forall. intros q Hq. rewrite forallb_forall in F. apply list_elem_of_In in Hq.
    specialize (F q Hq). lia.
Qed.

Lemma nondefault_lines l ps sb :
  Forall2 (fun s p => ParsePrefix s = Some p) l ps -> hasNonDefaultAllowedIP ps = true -> allowedLines sb l <> [].
Proof.
  intros H (q & Hq & Hb)%existsb_exists F. apply allowedLines_nil in F. apply list_elem_of_In in Hq.
  apply list_elem_of_lookup in Hq as [i Hi]. destruct (Forall2_lookup_r _ _ _ _ _ H Hi) as (s & Hs & Hps).
  rewrite Forall_forall in F. destruct (F s) as [_ D]; [by eapply list_elem_of_lookup_2|].
  rewrite (isDefault_bits _ _ Hps) in D. by rewrite D in Hb.
Qed.

(** The standbys of a loaded configuration keep a range. *)
Lemma standby_lines LookupIP urlParse c c' i p :
  load LookupIP urlParse c = Ok c' -> i ∈ standbyExitPeers c' -> peers c' !! i = Some p ->
  allowedLines true (AllowedIPs p) <> [].
Proof.
  intros H (Hl & Hi & _)%standby_spec Hp. apply load_ok in H as (_ & pres & Hpar & Hv).
  destruct (exits_lookup _ _ Hi) as (q & Hq & Hx & R). rewrite Hp in Hq. injection Hq as <-.
  destruct (accepted_exits _ _ Hpar (Hv R) Hl) as [mask Hm].
  destruct (Forall2_lookup_l _ _ _ _ _ Hpar Hp) as (pre & Hpre & Hps).
  specialize (Hm i p pre Hp Hpre). rewrite Hx in Hm. eapply nondefault_lines; [exact Hps|apply Hm].
Qed.

(** Booting a loaded configuration with one endpoint slot per peer fails to
    render exactly when some peer has an empty list of ranges, and the error is
    the first such peer: a standby exit, whose default routes are withheld,
    always keeps a range of its own. *)
Theorem boot_render_total LookupIP urlParse c c' boot :
  load LookupIP urlParse c = Ok c' -> length boot = length (peers c') ->
  match uapiConfig c' boot with
  | Ok _ => Forall (fun p => AllowedIPs p <> []) (peers c')
  | Err i => exists p, peers c' !! i = Some p /\ AllowedIPs p = []
  | Panic => False
  end.
Proof.
  intros H Hl. pose proof (uapiPeers_spec (standbyExitPeers c') 0 (zip (peers c') boot)) as S.
  unfold uapiConfig. cbv zeta. destruct (uapiPeers _ _ _) as [l|j|]; cbn [mbind outcome_bind]; [| |done].
  - apply Forall_forall. intros p Hp E. apply list_elem_of_lookup in Hp as [k Hk].
    destruct (lookup_lt_is_Some_2 boot k) as [ep He]; [rewrite Hl; by eapply lookup_lt_Some|].
    apply (S k p ep); [by apply lookup_zip_Some|]. by rewrite E.
  - destruct S as (k & p & ep & -> & [Hp He]%lookup_zip_Some & Hn). exists p. split; [done|].
    cbn [Nat.add] in *. destruct (decide (k ∈ standbyExitPeers c')) as [D|D].
    + rewrite bool_decide_eq_true_2 in Hn by done. by destruct (standby_lines _ _ _ _ _ _ H D Hp).
    + rewrite bool_decide_eq_false_2 in Hn by done. apply allowedLines_nil in Hn.
      destruct (AllowedIPs p) as [|s l]; [done|]. apply Forall_cons in Hn as [[? _] _]. done.
Qed.

(** A peer without ranges loads, and fails to boot. *)
Definition emptyRanges : Config :=
  rawW <| wireGuard := (wireGuard rawW) <| Peers :=
    [peerW 2 "fra" ["203.0.113.1:51820"] false ["10.0.0.1/32"] <| Mode := EmptyString |>;
     peerW 3 "ams" ["203.0.113.2:51820"] false [] <| Mode := EmptyString |>] |> |>.

Lemma boot_render_total_witness :
  Forall (fun p => AllowedIPs p <> []) (peers loadedW) /\
  match load noLookup noURL emptyRanges with Ok c => uapiConfig c [None; None] = Err 1%nat | _ => False end.
Proof.
  split; [|vm_compute; reflexivity].
  pose proof (boot_render_total noLookup noURL rawW loadedW [None; None] loadedW_eq eq_refl) as H.
  destruct (uapiConfig loadedW [None; None]) as [l|i|] eqn:E; [exact H| |destruct H].
  vm_compute in E. discriminate E.
Defined.

(** ** The link's size *)
Definition pathMTU (p : Path) : Z := if MTU p =? 0 then DefaultPathMTU else MTU p.

(** The size on the wire of a full packet of the link. *)
Definition outer (c : Config) (udp : Z) : Z :=
  tunMTU c + WGTransportOverhead + Z.of_nat bond.Overhead + outerHeadroom c + udp.

Lemma tunMTU_loop_min headroom m ps :
  (m = 0 /\ ps <> [] \/ 0 < m) -> Forall (fun p => 0 < InnerMTU (pathMTU p - headroom)) ps ->
  let r := tunMTU_loop headroom m ps in
  (0 < m -> r <= m) /\ Forall (fun p => r <= InnerMTU (pathMTU p - headroom)) ps /\
  (r = m /\ 0 < m \/ exists p, p ∈ ps /\ r = InnerMTU (pathMTU p - headroom)).
Proof.
  revert m. induction ps as [|p ps IH]; intros m Hm H; cbn [tunMTU_loop]; cbv zeta.
  - destruct Hm as [[_ ?]|Hm]; [done|]. split_and!; [lia|constructor|by left].
  - apply Forall_cons in H as [Hp H]. change (if MTU p =? 0 then DefaultPathMTU else MTU p) with (pathMTU p).
    set (a := InnerMTU (pathMTU p - headroom)) in *.
    set (m' := if (m =? 0) || (a <? m) then a else m).
    assert (0 < m' /\ m' <= a /\ (0 < m -> m' <= m) /\ (m' = a \/ m' = m /\ 0 < m)) as (M1 & M2 & M3 & M4).
    { unfold m'. destruct (Z.eqb_spec m 0), (Z.ltb_spec a m); cbn; lia. }
    destruct (IH m' (or_intror M1) H) as (I1 & I2 & I3). cbv zeta in *.
    split_and!; [lia|constructor; [fold a; lia|done]|].
    destruct I3 as [[I3 _]|(q & Hq & I3)]; [|right; exists q; split; [by apply list_elem_of_further|done]].
    destruct M4 as [M4|[M4 M5]]; [right; exists p; split; [apply list_elem_of_here|fold a; lia]|left; lia].
Qed.

(** A loaded configuration whose junk prefix leaves room sizes the link so
    that a full packet, with every header and the largest junk prefix, fits
    every path over IPv4 and fills the smallest one exactly; over IPv6 that
    same packet is 20 bytes too long for that path. *)
Theorem tun_mtu_fits LookupIP urlParse c c' :
  load LookupIP urlParse c = Ok c' ->
  outerHeadroom c' < InnerMTU minPathMTU ->
  Forall (fun p => outer c' IPv4UDPOverhead <= pathMTU p) (Paths c') /\
  exists p, p ∈ Paths c' /\ outer c' IPv4UDPOverhead = pathMTU p /\ outer c' IPv6UDPOverhead = pathMTU p + 20.
Proof.
  intros H Hj. apply load_ok in H as [W _]. destruct (wf_paths _ W) as [Hne Hok].
  assert (tunMTU c' = tunMTU_loop (outerHeadroom c') 0 (Paths c')) as E.
  { unfold tunMTU. cbv zeta. destruct (Paths c'); [done|]. reflexivity. }
  destruct (tunMTU_loop_min (outerHeadroom c') 0 (Paths c')) as (_ & I2 & I3); [by left| |].
  { eapply Forall_impl; [exact Hok|]. intros p (_ & _ & _ & Hm & _). unfold pathMTU.
    unfold InnerMTU, IPv4UDPOverhead, WGTransportOverhead, DefaultPathMTU, minPathMTU, maxPathMTU in *.
    destruct (Z.eqb_spec (MTU p) 0); lia. }
  cbv zeta in *. rewrite <- E in *. unfold outer, InnerMTU, IPv4UDPOverhead, IPv6UDPOverhead in *. split.
  - eapply Forall_impl; [exact I2|]. intros p Hp; cbv beta in *; lia.
  - destruct I3 as [[_ ?]|(p & Hp & I3)]; [lia|]. exists p. split; [done|]. lia.
Qed.

Lemma tun_mtu_fits_witness :
  outer loadedW IPv4UDPOverhead = 1400 /\
  (Forall (fun p => outer loadedW IPv4UDPOverhead <= pathMTU p) (Paths loadedW) /\
   exists p, p ∈ Paths loadedW /\ outer loadedW IPv4UDPOverhead = pathMTU p /\ outer loadedW IPv6UDPOverhead = pathMTU p + 20).
Proof.
  split; [vm_compute; reflexivity|].
  apply (tun_mtu_fits noLookup noURL rawW loadedW); [exact loadedW_eq|vm_compute; reflexivity].
Defined.

(** ** Resizing the link *)

(** One tick: the samples, the time, whether setting the link succeeds. *)
Record tick := mkTick { tsamples : list pathMTUSample; tnow : Time; tapply : bool }.

Definition target (e : tick) : Z * bool := minInnerMTU (tsamples e).
Definition resize1 (r : mtuResizer) (e : tick) : mtuResizer :=
  fst (resizer_decide (fun _ => tapply e) (tsamples e) (tnow e) r).
Definition resize (es : list tick) (r : mtuResizer) : mtuResizer := fold_left resize1 es r.

(** [T] has been the target of every tick of a suffix, the first one at [t0]. *)
Definition held (T : Z) (t0 : Time) (es : list tick) : Prop :=
  exists pre e suf, es = pre ++ e :: suf /\ tnow e = t0 /\ Forall (fun e => target e = (T, true)) (e :: suf).

Lemma held_snoc T t0 es e : held T t0 es -> target e = (T, true) -> held T t0 (es ++ [e]).
Proof.
  intros (pre & x & suf & -> & Ht & H) E. exists pre, x, (suf ++ [e]). rewrite <- app_assoc. split_and!; try done.
  rewrite app_comm_cons. apply Forall_app. by split; [|constructor].
Qed.

Lemma held_one T es e : target e = (T, true) -> held T (tnow e) (es ++ [e]).
Proof. intros E. exists es, e, []. split_and!; try done. by constructor. Qed.

(** What one tick does, by the comparison of the target with the link. *)
Lemma resize1_spec r e :
  let r' := resize1 r e in
  dwell r' = dwell r /\
  match target e with
  | (_, false) => applied r' = applied r /\ pending r' = 0
  | (T, true) =>
      if T =? applied r then applied r' = applied r /\ pending r' = 0
      else if T <? applied r then applied r' = (if tapply e then T else applied r) /\ pending r' = 0
      else let since := if pending r =? T then pendingSince r else tnow e in
           if time_sub (tnow e) since <? dwell r
           then applied r' = applied r /\ pending r' = T /\ pendingSince r' = since
           else applied r' = (if tapply e then T else applied r) /\ pending r' = 0
  end.
Proof.
  cbv zeta. unfold resize1, resizer_decide, target. destruct (minInnerMTU (tsamples e)) as [T [|]]; cbn [negb orb].
  2: done.
  destruct (Z.eqb_spec T (applied r)) as [E|E]; [done|].
  destruct (Z.ltb_spec (applied r) T) as [L|L], (Z.ltb_spec T (applied r)) as [L'|L']; try lia.
  - destruct (Z.eqb_spec (pending r) T) as [P|P]; cbn [negb].
    + destruct (_ <? _); [done|]. by destruct (tapply e).
    + cbn [pendingSince update eta eta_resizer dwell]. destruct (_ <? _); [done|]. by destruct (tapply e).
  - by destruct (tapply e).
Qed.

Lemma resize_snoc es e r : resize (es ++ [e]) r = resize1 (resize es r) e.
Proof. unfold resize. by rewrite fold_left_app. Qed.

Lemma resize_dwell es r : dwell (resize es r) = dwell r.
Proof.
  induction es as [|e es IH] using rev_ind; [done|]. rewrite resize_snoc.
  destruct (resize1_spec (resize es r) e) as [-> _]. exact IH.
Qed.

(** A pending target has been the target since its time stamp. *)
Lemma pending_held es r :
  pending r = 0 -> pending (resize es r) <> 0 ->
  held (pending (resize es r)) (pendingSince (resize es r)) es.
Proof.
  intros H0. induction es as [|e es IH] using rev_ind; [done|]. rewrite resize_snoc.
  destruct (resize1_spec (resize es r) e) as [_ S]. destruct (target e) as [T [|]] eqn:ET; [|by destruct S as [_ ->]].
  destruct (T =? _); [by destruct S as [_ ->]|]. destruct (T <? _); [by destruct S as [_ ->]|].
  cbv zeta in S. destruct (Z.eqb_spec (pending (resize es r)) T) as [P|P];
    (destruct (_ <? _); [|by destruct S as [_ ->]]); destruct S as (_ & -> & ->); intros Hz.
  - rewrite <- P in *. apply held_snoc; [by apply IH|done].
  - by apply held_one.
Qed.

(** A target reported from [e0] on, with a link that accepts, is reached or has
    been pending since [e0] or earlier. *)
Lemma reported_pending boot d T pre e0 suf :
  T <> 0 -> Forall (fun x => tnow x <= tnow e0) pre ->
  Forall (fun x => target x = (T, true) /\ tapply x = true) (e0 :: suf) ->
  let r := resize (pre ++ e0 :: suf) (newMTUResizer boot d) in
  applied r = T \/ (applied r < T /\ pending r = T /\ pendingSince r <= tnow e0).
Proof.
  intros Hz Hpre. cbv zeta. induction suf as [|e suf IH] using rev_ind; intros H.
  - apply Forall_cons in H as [[Ht Ha] _]. rewrite resize_snoc.
    set (r := resize pre (newMTUResizer boot d)). destruct (resize1_spec r e0) as [_ S]. rewrite Ht, Ha in S.
    destruct (Z.eqb_spec T (applied r)) as [E|E]; [left; lia|].
    destruct (Z.ltb_spec T (applied r)) as [L|L]; [left; lia|].
    cbv zeta in S. destruct (Z.eqb_spec (pending r) T) as [P|P];
      match type of S with context [?a <? ?b] => destruct (Z.ltb_spec a b) as [W|W] end; try (left; lia);
      destruct S as (S1 & S2 & S3); right; rewrite S1, S2, S3; (split; [lia|split; [done|]]); [|lia].
    destruct (pending_held pre (newMTUResizer boot d) eq_refl) as (a & x & b & -> & Hx & _); [fold r; lia|].
    fold r in Hx. rewrite <- Hx. rewrite Forall_app, Forall_cons in Hpre. apply Hpre.
  - rewrite app_comm_cons, Forall_app in H. destruct H as [H [[Ht Ha] _]%Forall_cons].
    rewrite app_comm_cons, app_assoc, resize_snoc. specialize (IH H).
    set (r := resize (pre ++ e0 :: suf) (newMTUResizer boot d)) in *. destruct (resize1_spec r e) as [_ S]. rewrite Ht, Ha in S.
    destruct IH as [IH|(I1 & I2 & I3)].
    { left. rewrite IH, Z.eqb_refl in S. lia. }
    rewrite (proj2 (Z.eqb_neq T (applied r))), (proj2 (Z.ltb_ge T (applied r))) in S by lia.
    cbv zeta in S. rewrite I2, Z.eqb_refl in S. destruct (_ <? _); [|left; lia].
    destruct S as (S1 & S2 & S3). right. rewrite S1, S2, S3. done.
Qed.

(** A target reported for the dwell by every tick is reached. *)
Lemma reported_reached boot d T pre e0 suf e :
  T <> 0 -> Forall (fun x => tnow x <= tnow e0) pre -> d <= time_sub (tnow e) (tnow e0) ->
  Forall (fun x => target x = (T, true) /\ tapply x = true) (e0 :: suf ++ [e]) ->
  applied (resize (pre ++ e0 :: suf ++ [e]) (newMTUResizer boot d)) = T.
Proof.
  intros Hz Hpre Hd H. rewrite app_comm_cons, Forall_app in H. destruct H as [H [[Ht Ha] _]%Forall_cons].
  pose proof (reported_pending boot d T pre e0 suf Hz Hpre H) as IH. cbv zeta in IH.
  rewrite app_comm_cons, app_assoc, resize_snoc. set (r := resize (pre ++ e0 :: suf) (newMTUResizer boot d)) in *.
  assert (dwell r = d) as Hdw by (unfold r; by rewrite resize_dwell).
  destruct (resize1_spec r e) as [_ S]. rewrite Ht, Ha in S. destruct IH as [IH|(I1 & I2 & I3)].
  { rewrite IH, Z.eqb_refl in S. lia. }
  rewrite (proj2 (Z.eqb_neq T (applied r))), (proj2 (Z.ltb_ge T (applied r))) in S by lia.
  cbv zeta in S. rewrite I2, Z.eqb_refl, Hdw in S.
  rewrite (proj2 (Z.ltb_ge _ d)) in S; [lia|]. unfold time_sub in *. lia.
Qed.

(** The link is widened only to a target that every tick has reported for at
    least the dwell, ending now, and narrowed at once: after any ticks from
    boot, a tick that raises the link's MTU raises it to that tick's target,
    held since a time at least [dwell] ago; a tick whose target is smaller sets
    it (when the link accepts); every other tick leaves it alone.  Conversely a
    target reported by every tick over the dwell, on a link that accepts, is
    reached. *)
Theorem resize_debounced boot d es e :
  let r := resize es (newMTUResizer boot d) in
  let r' := resize1 r e in
  (applied r < applied r' ->
     target e = (applied r', true) /\ tapply e = true /\
     (applied r' = 0 \/ exists t0, held (applied r') t0 (es ++ [e]) /\ d <= time_sub (tnow e) t0)) /\
  (forall T, target e = (T, true) -> T < applied r -> tapply e = true -> applied r' = T) /\
  (applied r' <> applied r -> target e = (applied r', true)) /\
  (forall T pre e0 suf, es = pre ++ e0 :: suf -> T <> 0 ->
     Forall (fun x => tnow x <= tnow e0) pre -> d <= time_sub (tnow e) (tnow e0) ->
     Forall (fun x => target x = (T, true) /\ tapply x = true) (e0 :: suf ++ [e]) -> applied r' = T).
Proof.
  cbv zeta. enough (forall A B C D : Prop, A /\ B /\ C -> D -> A /\ B /\ C /\ D) as Hsplit; [apply Hsplit|tauto].
  2: { intros T pre e0 suf -> Hz Hpre Hd H. rewrite <- resize_snoc, <- app_assoc. by apply reported_reached. }
 set (r := resize es (newMTUResizer boot d)).
  assert (dwell r = d) as Hd by (unfold r; by rewrite resize_dwell).
  pose proof (pending_held es (newMTUResizer boot d) eq_refl) as Hp. fold r in Hp.
  destruct (resize1_spec r e) as [_ S]. destruct (target e) as [T [|]] eqn:ET.
  2: { destruct S as [-> _]. split_and!; [lia|done|done]. }
  destruct (Z.eqb_spec T (applied r)) as [E|E]; [destruct S as [-> _]; split_and!; [lia| |done]; intros ? [= <-]; lia|].
  destruct (Z.ltb_spec T (applied r)) as [L|L].
  { destruct S as [-> _]. destruct (tapply e); split_and!; try lia; naive_solver. }
  cbv zeta in S. split_and!.
  - intros Hr. destruct (Z.eqb_spec (pending r) T) as [P|P];
      match type of S with context [?a <? ?b] => destruct (Z.ltb_spec a b) as [W|W] end;
      destruct S as [S _]; rewrite S in *; try lia; (destruct (tapply e); [|lia]); split_and!; try done.
    + destruct (decide (T = 0)) as [-> |Hz]; [by left|right]. exists (pendingSince r). rewrite Hd in W. split; [|done].
      rewrite <- P in *. apply held_snoc; [by apply Hp|done].
    + right. exists (tnow e). split; [by apply held_one|lia].
  - intros T' [= <-] ?. lia.
  - destruct (_ <? _); destruct S as [-> _]; [done|]. by destruct (tapply e).
Qed.

End device_props.
