(* ===== verification/ReloadProps.v ===== *)
(** * Reload: which paths and endpoints a running tunnel ends up with *)

From Stdlib Require Import Ascii String.
From stdpp Require Import base tactics list numbers strings sets.
From S2P Require Import Prelude Frame BondWire Telemetry Pmtu Netip Config ConfigProps Failover Resolution Device.

Module reload_props.
Import config config_props device.

(** ** Adding and removing *)
Lemma addPaths_spec ok add t :
  exists added rest, add = added ++ rest /\
    fst (addPaths ok add t) = t <| bound := bound t ++ map pathName added |> /\
    snd (addPaths ok add t) = match rest with [] => None | p :: _ => Some (ErrAdd (pathName p)) end.
Proof.
  revert t. induction add as [|p add IH]; intros t; cbn [addPaths].
  - exists [], []. split_and!; try done. cbn. rewrite app_nil_r. by destruct t.
  - destruct (ok p); [|exists [], (p :: add); cbn; rewrite app_nil_r; by destruct t].
    destruct (IH (t <| bound := bound t ++ [pathName p] |>)) as (added & rest & -> & -> & ->).
    exists (p :: added), rest. split_and!; try done. cbn. by rewrite <- app_assoc.
Qed.

Lemma removePaths_spec ok remove t :
  exists removed rest, remove = removed ++ rest /\
    fst (removePaths ok remove t) =
      t <| bound := List.filter (fun n => negb (bool_decide (n ∈ removed))) (bound t) |> /\
    snd (removePaths ok remove t) = match rest with [] => None | n :: _ => Some (ErrRemove n) end.
Proof.
  assert (forall b : list string, List.filter (fun n => negb (bool_decide (n ∈ ([] : list string)))) b = b) as Hnil.
  { induction b as [|x b IH]; cbn; [done|]. by rewrite IH. }
  revert t. induction remove as [|m remove IH]; intros t; cbn [removePaths].
  - exists [], []. split_and!; try done. cbn. rewrite Hnil. by destruct t.
  - destruct (ok m); [|exists [], (m :: remove); cbn; rewrite Hnil; by destruct t].
    destruct (IH (t <| bound := List.filter (fun n => negb (bool_decide (n = m))) (bound t) |>))
      as (removed & rest & -> & -> & ->).
    exists (m :: removed), rest. split_and!; try done. cbn [bound update eta eta_Tunnel]. f_equal.
    clear. induction (bound t) as [|x b IH]; cbn; [done|].
    destruct (decide (x = m)) as [-> |Hn].
    + rewrite (bool_decide_eq_true_2 (m = m)), (bool_decide_eq_true_2 (m ∈ m :: removed)) by set_solver. exact IH.
    + rewrite (bool_decide_eq_false_2 (x = m)) by done. cbn.
      rewrite (bool_decide_ext (x ∈ m :: removed) (x ∈ removed)) by set_solver. by rewrite IH.
Qed.

Abbreviation names ps := (map pathName ps).
Definition mem (l : list string) (n : string) : bool := bool_decide (n ∈ l).

Lemma filter_ext_in {A} (f g : A -> bool) l : (forall x, x ∈ l -> f x = g x) -> List.filter f l = List.filter g l.
Proof.
  intros H. induction l as [|x l IH]; cbn; [done|]. rewrite (H x) by apply list_elem_of_here.
  rewrite IH; [done|]. intros y Hy. apply H. by apply list_elem_of_further.
Qed.

Lemma filter_all {A} (f : A -> bool) l : (forall x, x ∈ l -> f x = true) -> List.filter f l = l.
Proof.
  intros H. induction l as [|x l IH]; cbn; [done|]. rewrite (H x) by apply list_elem_of_here.
  rewrite IH; [done|]. intros y Hy. apply H. by apply list_elem_of_further.
Qed.

Lemma elem_of_bfilter {A} (f : A -> bool) l x : x ∈ List.filter f l <-> x ∈ l /\ f x = true.
Proof. rewrite !list_elem_of_In. apply List.filter_In. Qed.

Lemma filter_map {A B} (g : A -> B) (f : B -> bool) l : List.filter f (map g l) = map g (List.filter (fun x => f (g x)) l).
Proof. induction l as [|x l IH]; cbn; [done|]. destruct (f (g x)); cbn; by rewrite IH. Qed.

(** The paths a reload keeps and those it adds. *)
Definition survivors (b : list string) (c : Config) : list string := List.filter (mem (names (Paths c))) b.
Definition newcomers (b : list string) (c : Config) : list Path := List.filter (fun p => negb (mem b (pathName p))) (Paths c).

Lemma diff_eq b c : diffPaths b (Paths c) = (newcomers b c, List.filter (fun n => negb (mem (names (Paths c)) n)) b).
Proof. done. Qed.

Lemma survivors_filter b c l :
  (forall n, n ∈ l -> n ∈ b \/ n ∈ names (Paths c)) ->
  List.filter (fun n => negb (bool_decide (n ∈ List.filter (fun n => negb (mem (names (Paths c)) n)) b))) l =
  List.filter (mem (names (Paths c))) l.
Proof.
  intros Hl. apply filter_ext_in. intros n Hn. unfold mem. destruct (decide (n ∈ names (Paths c))) as [D|D].
  - rewrite (bool_decide_eq_true_2 (n ∈ _) D), (bool_decide_eq_false_2 _); [done|].
    intros [_ F]%elem_of_bfilter. rewrite (bool_decide_eq_true_2 _ D) in F. done.
  - rewrite (bool_decide_eq_false_2 (n ∈ _) D), bool_decide_eq_true_2; [done|]. apply elem_of_bfilter.
    rewrite (bool_decide_eq_false_2 _ D). destruct (Hl n Hn); done.
Qed.

Lemma newcomers_names b c n : n ∈ names (newcomers b c) <-> n ∈ names (Paths c) /\ n ∉ b.
Proof.
  unfold newcomers. rewrite !list_elem_of_fmap. split.
  - intros (p & -> & [Hp F]%elem_of_bfilter). split; [by exists p|]. unfold mem in F. intros D. by rewrite bool_decide_eq_true_2 in F.
  - intros [(p & -> & Hp) F]. exists p. split; [done|]. apply elem_of_bfilter. unfold mem. by rewrite bool_decide_eq_false_2.
Qed.

Lemma nodup_bfilter {A} (f : A -> bool) l : NoDup l -> NoDup (List.filter f l).
Proof. rewrite !NoDup_ListNoDup. apply List.NoDup_filter. Qed.

Lemma newcomers_nodup b c : NoDup (names (Paths c)) -> NoDup (names (newcomers b c)).
Proof. intros H. unfold newcomers. rewrite <- (filter_map pathName (fun n => negb (mem b n))). by apply nodup_bfilter. Qed.

(** An endpoint is up exactly when it has an address. *)
Definition served (t : Tunnel) : Prop :=
  metricsUp t = nonempty (tmetrics t) /\ monitorUp t = nonempty (monListen (tmonitor t)).

Lemma stopMetrics_spec t : metricsUp t = nonempty (tmetrics t) ->
  stopMetricsLocked t = t <| metricsUp := false |> <| tmetrics := EmptyString |>.
Proof.
  unfold stopMetricsLocked, nonempty. intros H. destruct t as [a b mu tm d e g]. cbn in *.
  destruct mu; [done|]. cbn. case_bool_decide; [by subst|done].
Qed.

Lemma applyMetrics_spec ok l t : served t ->
  (applyMetricsLocked ok l t = (t, false)) \/
  (exists t', applyMetricsLocked ok l t = (t', true) /\ t' = t <| metricsUp := nonempty l |> <| tmetrics := l |>).
Proof.
  intros [S _]. unfold applyMetricsLocked. case_bool_decide as E.
  - right. exists t. split; [done|]. subst. destruct t. cbn in *. by subst.
  - case_bool_decide as E'; [right; eexists; split; [done|]; subst; by rewrite stopMetrics_spec|].
    destruct ok; [right|by left]. eexists. split; [done|]. rewrite stopMetrics_spec by done. cbn.
    unfold nonempty. by rewrite bool_decide_eq_false_2.
Qed.

Lemma stopMonitor_served t : served t -> served (stopMonitorLocked t).
Proof. intros [A B]. unfold stopMonitorLocked. destruct (monitorUp t) eqn:E; [done|]. split; [done|]. cbn. by rewrite E. Qed.

Lemma stopMonitor_same t : tcfg (stopMonitorLocked t) = tcfg t /\ bound (stopMonitorLocked t) = bound t /\
  tmetrics (stopMonitorLocked t) = tmetrics t /\ metricsUp (stopMonitorLocked t) = metricsUp t.
Proof. unfold stopMonitorLocked. by destruct (negb _). Qed.

Lemma applyMonitor_spec ok m t : served t ->
  let t' := fst (applyMonitorLocked ok m t) in
  served t' /\ tcfg t' = tcfg t /\ bound t' = bound t /\ tmetrics t' = tmetrics t /\
  (snd (applyMonitorLocked ok m t) = true -> monListen (tmonitor t') = monListen m).
Proof.
  intros S. cbv zeta. unfold applyMonitorLocked. case_bool_decide as E; [by subst|].
  destruct (stopMonitor_same t) as (M1 & M2 & M3 & M4). pose proof (stopMonitor_served t S) as MS.
  case_bool_decide as E'; cbn [fst snd].
  - split_and!; try done. intros _. unfold stopMonitorLocked, nonempty in *. destruct (monitorUp t) eqn:U; cbn; [done|].
    destruct S as [_ S]. rewrite U in S. unfold nonempty in S. symmetry in S. apply negb_false_iff, bool_decide_eq_true in S. congruence.
  - cbv zeta. destruct S as [S1 S2]. case_bool_decide as E2; destruct ok; cbn [negb fst snd]; split_and!; try done;
      (split; [|unfold nonempty; by rewrite bool_decide_eq_false_2]);
      change (metricsUp (stopMonitorLocked t) = nonempty (tmetrics (stopMonitorLocked t))); by rewrite M3, M4.
Qed.

(** What a reload that got through records. *)
Definition finish (c : Config) (add : list Path) (remove : list string) (t : Tunnel) : Tunnel :=
  let t := match LivenessBudgetSane c with
           | Some b => if metricsUp t then t <| tgauge := Some b |> else t
           | None => t
           end in
  t <| tcfg := (runningConfig (tcfg t) add remove) <| metricsListen := tmetrics t |>
                 <| monitor := tmonitor t |> <| LivenessBudgetSane := LivenessBudgetSane c |> |>.

(** Nothing but the bound paths changed, to [b]. *)
Record rebound (b : list string) (t t' : Tunnel) : Prop := {
  rb_bound : bound t' = b;
  rb_cfg : tcfg t' = tcfg t;
  rb_mup : metricsUp t' = metricsUp t;
  rb_met : tmetrics t' = tmetrics t;
  rb_oup : monitorUp t' = monitorUp t;
  rb_mon : tmonitor t' = tmonitor t
}.

Lemma bound_only b t t' : t' = t <| bound := b |> -> rebound b t t'.
Proof. intros ->. by constructor. Qed.

Lemma rebound_served b t t' : rebound b t t' -> served t -> served t'.
Proof. intros [_ _ A B C D] [E F]. split; congruence. Qed.

Lemma finish_spec c add remove t :
  let t' := finish c add remove t in
  metricsUp t' = metricsUp t /\ tmetrics t' = tmetrics t /\ monitorUp t' = monitorUp t /\ tmonitor t' = tmonitor t /\
  bound t' = bound t /\ Paths (tcfg t') = Paths (runningConfig (tcfg t) add remove).
Proof.
  cbv zeta. unfold finish. destruct t as [cf b mu tm ou to g]. cbn [metricsUp].
  destruct (LivenessBudgetSane c) as [v|]; [destruct mu|]; cbv zeta; split_and!; reflexivity.
Qed.

Lemma reload_front o c t : served t ->
  exists t1, served t1 /\ tcfg t1 = tcfg t /\ bound t1 = bound t /\
  ((Reload o c t = (t, Some ErrMetrics)) \/
   (Reload o c t = (t1, Some ErrMonitor)) \/
   (tmetrics t1 = metricsListen c /\ monListen (tmonitor t1) = monListen (monitor c) /\
    Reload o c t =
      let add := newcomers (bound t) c in
      let remove := List.filter (fun n => negb (mem (names (Paths c)) n)) (bound t) in
      let '(t, e) := addPaths (addOk o) add t1 in
      match e with
      | Some e => (t, Some e)
      | None =>
          let '(t, e) := removePaths (removeOk o) remove t in
          match e with
          | Some e => (t, Some e)
          | None => (finish c add remove t, None)
          end
      end)).
Proof.
  intros S. unfold Reload.
  set (x := if negb (bool_decide (metricsListen c = tmetrics t)) then _ else (t, true)).
  assert (x = (t, false) \/ exists t1, x = (t1, true) /\ served t1 /\ tcfg t1 = tcfg t /\ bound t1 = bound t /\
                                    tmetrics t1 = metricsListen c) as Hx.
  { unfold x. case_bool_decide as E; cbn [negb]; [right; by exists t|].
    destruct (applyMetrics_spec (metricsOk o) (metricsListen c) t S) as [F|(t1 & F & G)]; [by left|right].
    exists t1. rewrite G. split; [by rewrite <- G|]. split_and!; try done. split; [done|]. apply S. }
  destruct Hx as [-> |(t1 & -> & S1 & C1 & B1 & M1)]; cbn [negb]; [exists t; split_and!; try done; by left|].
  set (y := if negb (bool_decide (monitor c = tmonitor t1)) then _ else (t1, true)).
  assert (exists t2 b, y = (t2, b) /\ served t2 /\ tcfg t2 = tcfg t1 /\ bound t2 = bound t1 /\ tmetrics t2 = tmetrics t1 /\
    (b = true -> monListen (tmonitor t2) = monListen (monitor c))) as (t2 & b & -> & S2 & C2 & B2 & M2 & N2).
  { unfold y. case_bool_decide as E; cbn [negb]; [exists t1, true; by rewrite E|].
    pose proof (applyMonitor_spec (monitorOk o) (monitor c) t1 S1) as F. cbv zeta in F.
    destruct (applyMonitorLocked _ _ t1) as [t2 b]. by exists t2, b. }
  exists t2. split; [done|]. split; [congruence|]. split; [congruence|]. right.
  destruct b; cbn [negb]; [right|by left]. split; [congruence|]. split; [by apply N2|].
  rewrite B2, B1, diff_eq. reflexivity.
Qed.

(** Removal that stopped at [m], after [removed]. *)
Lemma stopped_removal b c removed m rest :
  NoDup b -> List.filter (fun n => negb (mem (names (Paths c)) n)) b = removed ++ m :: rest ->
  let l := List.filter (fun n => negb (bool_decide (n ∈ removed))) (b ++ names (newcomers b c)) in
  (m ∉ names (Paths c)) /\ m ∈ l /\ forall n, n ∈ names (Paths c) -> n ∈ l.
Proof.
  intros Hb Er. cbv zeta.
  assert (NoDup (removed ++ m :: rest)) as Hn by (rewrite <- Er; by apply nodup_bfilter).
  assert (forall n, n ∈ removed ++ m :: rest -> n ∈ b /\ n ∉ names (Paths c)) as Hr.
  { intros n. rewrite <- Er. intros [H1 H2]%elem_of_bfilter. split; [done|]. unfold mem in H2. intros D.
    by rewrite bool_decide_eq_true_2 in H2. }
  apply NoDup_app in Hn as (_ & Hn & _). destruct (Hr m) as [Hm1 Hm2]; [set_solver|]. split; [done|]. split.
  - apply elem_of_bfilter. split; [set_solver|]. rewrite bool_decide_eq_false_2; [done|]. intros F. apply (Hn m F). set_solver.
  - intros n Hn'. apply elem_of_bfilter. split.
    + rewrite elem_of_app, newcomers_names. destruct (decide (n ∈ b)); auto.
    + rewrite bool_decide_eq_false_2; [done|]. intros F. destruct (Hr n) as [_ Q]; [set_solver|done].
Qed.

(** Removal that finished. *)
Lemma finished_removal b c :
  List.filter (fun n => negb (bool_decide (n ∈ List.filter (fun n => negb (mem (names (Paths c)) n)) b)))
    (b ++ names (newcomers b c)) = survivors b c ++ names (newcomers b c).
Proof.
  rewrite survivors_filter, List.filter_app.
  - f_equal. apply filter_all. intros n [Hn _]%newcomers_names. unfold mem. by apply bool_decide_eq_true_2.
  - intros n [Hn|Hn]%elem_of_app; [by left|right]. apply newcomers_names in Hn. apply Hn.
Qed.

Lemma survivors_all b c n :
  n ∈ survivors b c ++ names (newcomers b c) <-> n ∈ names (Paths c).
Proof.
  rewrite elem_of_app, newcomers_names. unfold survivors. rewrite elem_of_bfilter. unfold mem. rewrite bool_decide_eq_true.
  destruct (decide (n ∈ b)); naive_solver.
Qed.

Lemma kept_paths b c ps :
  List.filter (fun p => negb (bool_decide (pathName p ∈ List.filter (fun n => negb (mem (names (Paths c)) n)) b))) ps =
  List.filter (fun p => negb (mem b (pathName p)) || mem (names (Paths c)) (pathName p)) ps.
Proof.
  apply filter_ext_in. intros p _. apply Bool.eq_true_iff_eq. unfold mem.
  rewrite orb_true_iff, !negb_true_iff, !bool_decide_eq_false, bool_decide_eq_true, elem_of_bfilter, negb_true_iff, bool_decide_eq_false.
  destruct (decide (pathName p ∈ b)), (decide (pathName p ∈ names (Paths c))); naive_solver.
Qed.

Lemma kept_names c ps :
  names (List.filter (fun p => negb (mem (names ps) (pathName p)) || mem (names (Paths c)) (pathName p)) ps) = survivors (names ps) c.
Proof.
  unfold survivors. rewrite filter_map. f_equal. apply filter_ext_in. intros p Hp. unfold mem at 1.
  rewrite bool_decide_eq_true_2; [done|]. apply list_elem_of_fmap. by exists p.
Qed.

(** A reload that succeeds binds exactly the configured paths: those already
    bound keep their place and their parameters, new ones follow in
    configuration order, and the running configuration names exactly the bound
    paths if it did before; the two endpoints listen where configured.  A
    failed endpoint leaves paths and configuration alone; a failed addition has
    removed nothing; a failed removal has bound every configured path; no
    failure changes the running configuration, and a later reload starts from
    what is bound. *)
Theorem reload_applies_membership o c t :
  NoDup (names (Paths c)) -> NoDup (bound t) -> served t ->
  let '(t', e) := Reload o c t in
  served t' /\ NoDup (bound t') /\
  match e with
  | None =>
      bound t' = survivors (bound t) c ++ names (newcomers (bound t) c) /\
      (forall n, n ∈ bound t' <-> n ∈ names (Paths c)) /\
      tmetrics t' = metricsListen c /\ monListen (tmonitor t') = monListen (monitor c) /\
      Paths (tcfg t') = List.filter (fun p => negb (mem (bound t) (pathName p)) || mem (names (Paths c)) (pathName p))
                          (Paths (tcfg t)) ++ newcomers (bound t) c /\
      (bound t = names (Paths (tcfg t)) -> bound t' = names (Paths (tcfg t')))
  | Some ErrMetrics => t' = t
  | Some ErrMonitor => bound t' = bound t /\ tcfg t' = tcfg t
  | Some (ErrAdd n) =>
      tcfg t' = tcfg t /\ (n ∈ names (Paths c)) /\ (n ∉ bound t') /\ bound t `prefix_of` bound t'
  | Some (ErrRemove n) =>
      tcfg t' = tcfg t /\ (n ∉ names (Paths c)) /\ (n ∈ bound t') /\ forall m, m ∈ names (Paths c) -> m ∈ bound t'
  end.
Proof.
  intros Hc Hb S. destruct (reload_front o c t S) as (t1 & S1 & C1 & B1 & [-> |[-> |(M1 & M2 & ->)]]).
  { done. }
  { rewrite B1. done. }
  cbv zeta. set (add := newcomers (bound t) c). set (remove := List.filter _ (bound t)).
  destruct (addPaths_spec (addOk o) add t1) as (added & rest & Ea & F1 & F2).
  destruct (addPaths (addOk o) add t1) as [t2 e2]. cbn [fst snd] in F1, F2. subst e2.
  apply bound_only in F1. rewrite B1 in F1. pose proof (rebound_served _ _ _ F1 S1) as S2. destruct F1 as [R1 R2 _ R3 _ R4].
  pose proof (newcomers_nodup (bound t) c Hc) as Hn. fold add in Hn.
  assert (NoDup (bound t ++ names add)) as Hnd.
  { apply NoDup_app. split_and!; try done. intros n Hn1 [_ Hn2]%newcomers_names. done. }
  destruct rest as [|p rest].
  { rewrite app_nil_r in Ea. subst added.
    destruct (removePaths_spec (removeOk o) remove t2) as (removed & rest & Er & F1 & F2).
    destruct (removePaths (removeOk o) remove _) as [t3 e3]. cbn [fst snd] in F1, F2. subst e3.
    apply bound_only in F1. rewrite R1 in F1. pose proof (rebound_served _ _ _ F1 S2) as S3. destruct F1 as [Q1 Q2 _ Q3 _ Q4].
    destruct rest as [|m rest].
    - rewrite app_nil_r in Er. subst removed. unfold add, remove in *. rewrite finished_removal in Q1.
      pose proof (finish_spec c (newcomers (bound t) c) (List.filter (fun n => negb (mem (names (Paths c)) n)) (bound t)) t3) as F.
      cbv zeta in F. revert F. generalize (finish c (newcomers (bound t) c) (List.filter (fun n => negb (mem (names (Paths c)) n)) (bound t)) t3).
      intros t4 (F1 & F2 & F3 & F4 & F5 & F6).
      rewrite Q2, R2, C1 in F6. unfold runningConfig in F6. change (Paths (_ <| Paths := ?x |>)) with x in F6.
      rewrite kept_paths in F6. rewrite F5, Q1, F6. split_and!.
      + destruct S3. split; congruence.
      + rewrite <- finished_removal. by apply nodup_bfilter.
      + done.
      + intros n. apply survivors_all.
      + congruence.
      + congruence.
      + done.
      + intros E. rewrite map_app, E at 1. by rewrite E, kept_names.
    - split; [done|]. rewrite Q1. split; [by apply nodup_bfilter|]. split; [congruence|].
      by apply stopped_removal with (rest := rest). }
  rewrite Ea, map_app, app_assoc in Hnd. cbn in Hnd. apply NoDup_app in Hnd as (N1 & N2 & _).
  rewrite R1. split_and!; try done.
  - congruence.
  - apply (newcomers_names (bound t)). fold add. rewrite Ea, map_app, elem_of_app. right. apply list_elem_of_here.
  - intros F. apply (N2 _ F). apply list_elem_of_here.
  - by eexists.
Qed.

(** ** A tunnel on two paths *)
Definition runningW : Tunnel := mkTunnel loadedW (names (Paths loadedW)) false EmptyString false Monitor0 None.
Definition desiredW : Config :=
  loadedW <| Paths := List.filter (fun p => bool_decide (pathName p = "starlink"%string)) (Paths loadedW) ++
                      [pathW "dsl" "192.0.2.30" 0; pathW "cable" "192.0.2.40" 0] |>.
Definition allOk : outcomes := mkOutcomes true true (fun _ => true) (fun _ => true).
Definition cableFails : outcomes :=
  mkOutcomes true true (fun p => negb (bool_decide (pathName p = "cable"%string))) (fun _ => true).

(** The reload goes through; and after one that failed at its last addition, the
    next one binds the same paths but leaves the path added by the first out of
    the running configuration. *)
Lemma reload_applies_membership_witness :
  (served (fst (Reload allOk desiredW runningW)) /\
   bound (fst (Reload allOk desiredW runningW)) = ["starlink"; "dsl"; "cable"]%string) /\
  (let t1 := fst (Reload cableFails desiredW runningW) in
   let t2 := fst (Reload allOk desiredW t1) in
   bound t1 = ["lte"; "starlink"; "dsl"]%string /\ bound t2 = ["starlink"; "dsl"; "cable"]%string /\
   names (Paths (tcfg t2)) = ["starlink"; "cable"]%string).
Proof.
  split; [|vm_compute; split_and!; reflexivity].
  pose proof (reload_applies_membership allOk desiredW runningW) as H.
  destruct (Reload allOk desiredW runningW) as [t' e] eqn:E.
  destruct H as (S & _ & H).
  - apply (bool_decide_unpack _). vm_compute. exact I.
  - apply (bool_decide_unpack _). vm_compute. exact I.
  - vm_compute. split; reflexivity.
  - assert (e = None) as He.
    { assert (snd (Reload allOk desiredW runningW) = None) as Hs by (vm_compute; reflexivity). by rewrite E in Hs. }
    subst e. destruct H as (B & _). cbn [fst]. split; [exact S|]. rewrite B. vm_compute. reflexivity.
Defined.

End reload_props.
