(* ===== verification/ExitSelector.v ===== *)
(** * The active-exit selector ([internal/device/exitselector.go])

    One exit-capable peer owns the default route in the engine.  The selector
    moves ownership by inserting the peer's routes, and subscribes to the
    exhaustion signal of the active exit's failover controller; the controllers
    it holds are the shared ones, by name.  The engine's answers, the health and
    the round trips of the candidates and the clock are arguments of a call. *)

From Stdlib Require Import Ascii String.
From stdpp Require Import base tactics list numbers strings gmap.
From S2P Require Import Prelude Frame Telemetry Netip Config Failover Resolution Device.

Module exitselector.
Import config device.

Record exitPeer := mkExitPeer { publicKeyHex : string; splits : list string }.

Record exitSelector := mkExitSelector {
  active : string;
  mode : string;
  lastSwitch : Time;
  rttWired : bool;
  healthWired : bool;
  exits : gmap string exitPeer;
  order : list string;
  ctrls : gset string
}.
#[export] Instance eta_exitSelector : Eta exitSelector := fun s =>
  mkExitSelector (active s) (mode s) (lastSwitch s) (rttWired s) (healthWired s) (exits s) (order s) (ctrls s).

Definition autoExitCooldown : Duration := 300 * second.
Definition autoExitPollInterval : Duration := 5 * second.

(** The selector and the controllers it shares with the failover loops. *)
Record world := mkWorld { sel : exitSelector; fos : gmap string failover.hubFailover }.
#[export] Instance eta_world : Eta world := fun w => mkWorld (sel w) (fos w).

(** One [IpcSet]: the peer and the routes inserted onto it. *)
Record request := mkRequest { rqKey : string; rqAllowed : list string }.

Inductive exitError := unknownExitError (name : string) | engineError (from to : string).

(** What a call leaves: the world, the engine calls with their answers, the
    error if any. *)
Abbreviation effect := (world * list (request * bool) * option exitError)%type (only parsing).

Fixpoint newExits_loop (ids : list PeerIdentity) (ps : list Peer) (idx : list nat)
    : gmap string exitPeer * list string :=
  match idx with
  | [] => (∅, [])
  | i :: idx =>
      let '(m, o) := newExits_loop ids ps idx in
      match ps !! i, ids !! i with
      | Some p, Some id =>
          (* a later peer of the same name overwrites, as the loop's last write does *)
          (match m !! idName id with
           | Some _ => m
           | None => <[idName id := mkExitPeer (hex (kbytes (PublicKey p))) (defaultRouteSplits (AllowedIPs p))]> m
           end, idName id :: o)
      | _, _ => (m, o)
      end
  end.

Definition newExitSelector (c : Config) : option exitSelector :=
  let idx := exitCapablePeerIndices c in
  if (length idx <? 2)%nat then None
  else
    let '(m, o) := newExits_loop (PeerIdentities c) (peers c) idx in
    Some (mkExitSelector (default EmptyString (head o)) "auto" 0 false false m o ∅).

Definition ActiveExit (w : world) : string := active (sel w).
Definition Mode (w : world) : string := mode (sel w).

(** ** Subscriptions *)
Definition subscribe (n : string) (cb : option string) (w : world) : world :=
  if bool_decide (n ∈ ctrls (sel w)) then w <| fos := alter (failover.SetOnExhausted cb) n (fos w) |> else w.

Definition subscribeActiveLocked (w : world) : world :=
  subscribe (active (sel w)) (Some (active (sel w))) w.

Definition resubscribeLocked (from to : string) (w : world) : world :=
  subscribe to (Some to) (subscribe from None w).

(** ** Switching *)
Definition switchLocked (accept : request -> bool) (now : Time) (name : string) (w : world) : effect :=
  match exits (sel w) !! name with
  | None => (w, [], Some (unknownExitError name))
  | Some target =>
      if bool_decide (name = active (sel w)) then (w, [], None)
      else
        let from := active (sel w) in
        let rq := mkRequest (publicKeyHex target) (splits target) in
        if negb (accept rq) then (w, [(rq, false)], Some (engineError from name))
        else
          let w := w <| sel := (sel w) <| active := name |> <| lastSwitch := now |> |> in
          (resubscribeLocked from name w, [(rq, true)], None)
  end.

Definition setMode (accept : request -> bool) (now : Time) (m : string) (w : world) : effect :=
  if bool_decide (m = "auto"%string) then
    if bool_decide (mode (sel w) = "auto"%string) then (w, [], None)
    else (w <| sel := (sel w) <| mode := m |> <| lastSwitch := 0 |> |>, [], None)
  else
    match exits (sel w) !! m with
    | None => (w, [], Some (unknownExitError m))
    | Some _ =>
        let '(w, log, e) := switchLocked accept now m w in
        match e with
        | Some e => (w, log, Some e)
        | None => (w <| sel := (sel w) <| mode := m |> |>, log, None)
        end
    end.
Definition SetMode := setMode.
Definition Switch := setMode.

(** ** Choosing by round trip *)
Fixpoint best_loop (healthy : string -> bool) (rtt : string -> option Duration)
    (best : string) (bestRTT : Duration) (l : list string) : string :=
  match l with
  | [] => best
  | n :: l =>
      if negb (healthy n) then best_loop healthy rtt best bestRTT l
      else match rtt n with
           | None => best_loop healthy rtt best bestRTT l
           | Some d =>
               if d <=? 0 then best_loop healthy rtt best bestRTT l
               else if bool_decide (best = EmptyString) || (d <? bestRTT)
                    then best_loop healthy rtt n d l
                    else best_loop healthy rtt best bestRTT l
           end
  end.

(** A failed switch is logged, not returned. *)
Definition evaluateAuto (accept : request -> bool) (healthy : string -> bool) (rtt : string -> option Duration)
    (now : Time) (w : world) : effect :=
  let s := sel w in
  if negb (bool_decide (mode s = "auto"%string)) || negb (rttWired s) || negb (healthWired s) then (w, [], None)
  else if negb (is_zero_time (lastSwitch s)) && (time_sub now (lastSwitch s) <? autoExitCooldown) then (w, [], None)
  else
    let best := best_loop healthy rtt EmptyString 0 (order s) in
    if negb (bool_decide (best = EmptyString)) && negb (bool_decide (best = active s)) then
      let '(w, log, _) := switchLocked accept now best w in (w, log, None)
    else (w, [], None).

Definition enableRTTSelection (w : world) : world := w <| sel := (sel w) <| rttWired := true |> |>.

(** ** Promotion on exhaustion *)
Definition enableAutoPromotion (cs : gset string) (w : world) : world :=
  subscribeActiveLocked (w <| sel := (sel w) <| ctrls := cs |> <| healthWired := true |> |>).

Fixpoint standby_loop (healthy : string -> bool) (act : string) (l : list string) : string :=
  match l with
  | [] => EmptyString
  | n :: l =>
      if bool_decide (n = act) then standby_loop healthy act l
      else if healthy n then n else standby_loop healthy act l
  end.
Definition firstHealthyStandbyLocked (healthy : string -> bool) (w : world) : string :=
  if negb (healthWired (sel w)) then EmptyString else standby_loop healthy (active (sel w)) (order (sel w)).

Definition promote (accept : request -> bool) (healthy : string -> bool) (now : Time) (w : world) : effect :=
  let target := firstHealthyStandbyLocked healthy w in
  if bool_decide (target = EmptyString) then (w, [], None)
  else let '(w, log, _) := switchLocked accept now target w in (w, log, None).

Definition onActiveExhausted (accept : request -> bool) (healthy : string -> bool) (now : Time)
    (exhausted : string) (w : world) : effect :=
  if negb (bool_decide (active (sel w) = exhausted)) then (w, [], None)
  else promote accept healthy now w.

Definition retryExhaustedPromotion (accept : request -> bool) (healthy : string -> bool)
    (health : string -> list telemetry.PathState) (now : Time) (w : world) : effect :=
  let a := active (sel w) in
  match (if bool_decide (a ∈ ctrls (sel w)) then fos w !! a else None) with
  | None => (w, [], None)
  | Some h => if negb (failover.Exhausted (health a) h) then (w, [], None)
              else promote accept healthy now w
  end.

(** ** A failover tick of one peer and the callback it fires

    [hubFailover.check] of the controller named [n]: the subscriber runs after
    the controller's lock is released. *)
Definition checkPeer (accept : request -> bool) (healthy : string -> bool)
    (health : list telemetry.PathState) (now : Time) (n : string) (w : world)
    : effect * list failover.action :=
  match fos w !! n with
  | None => ((w, [], None), [])
  | Some h =>
      let '(h, acts, cb) := failover.check health now h in
      let w := w <| fos := <[n := h]> (fos w) |> in
      match cb with
      | None => ((w, [], None), acts)
      | Some name => (onActiveExhausted accept healthy now name w, acts)
      end
  end.

End exitselector.
