(* ===== verification/ExitProps.v ===== *)
(** * The active-exit selector: ownership, promotion and choice *)

From Stdlib Require Import Ascii String.
From stdpp Require Import base tactics list numbers strings sets gmap.
From S2P Require Import Prelude Frame Telemetry Netip Config ConfigProps Failover FailoverTheory.
From S2P Require Import Resolution Device DeviceProps ExitSelector.

Module exit_props.
Import netip config config_props device device_props exitselector.

(** ** Runs

    Every call of the selector and of the controllers, in any order and with any
    answers from the engine.  A callback may run long after the signal that
    caused it, so any name can be called back at any time. *)
Inductive event :=
  | ESetMode (accept : request -> bool) (now : Time) (m : string)
  | EExhausted (accept : request -> bool) (healthy : string -> bool) (now : Time) (name : string)
  | ERetry (accept : request -> bool) (healthy : string -> bool) (health : string -> list telemetry.PathState) (now : Time)
  | EAuto (accept : request -> bool) (healthy : string -> bool) (rtt : string -> option Duration) (now : Time)
  | ECheck (n : string) (health : list telemetry.PathState) (now : Time)
  | EUpdate (n : string) (i : Z) (l : list AddrPort) (now : Time).

Definition exec (ev : event) (w : world) : world * list (request * bool) :=
  match ev with
  | ESetMode accept now m => fst (setMode accept now m w)
  | EExhausted accept healthy now name => fst (onActiveExhausted accept healthy now name w)
  | ERetry accept healthy health now => fst (retryExhaustedPromotion accept healthy health now w)
  | EAuto accept healthy rtt now => fst (evaluateAuto accept healthy rtt now w)
  | ECheck n health now =>
      (w <| fos := alter (fun h => fst (fst (failover.checkLocked health now h))) n (fos w) |>, [])
  | EUpdate n i l now =>
      (w <| fos := alter (fun h => fst (failover.updateResolution i l now h)) n (fos w) |>, [])
  end.

Fixpoint run (evs : list event) (w : world) : world * list (request * bool) :=
  match evs with
  | [] => (w, [])
  | ev :: evs =>
      let '(w, l1) := exec ev w in
      let '(w, l2) := run evs w in (w, l1 ++ l2)
  end.

(** ** What a switch does *)
Lemma switchLocked_spec accept now name w :
  (exits (sel w) !! name = None /\ switchLocked accept now name w = (w, [], Some (unknownExitError name))) \/
  (exists t, exits (sel w) !! name = Some t /\
    let rq := mkRequest (publicKeyHex t) (splits t) in
    ((name = active (sel w) /\ switchLocked accept now name w = (w, [], None)) \/
     (name <> active (sel w) /\ accept rq = false /\
        switchLocked accept now name w = (w, [(rq, false)], Some (engineError (active (sel w)) name))) \/
     (name <> active (sel w) /\ accept rq = true /\
        switchLocked accept now name w =
          (resubscribeLocked (active (sel w)) name
             (w <| sel := (sel w) <| active := name |> <| lastSwitch := now |> |>), [(rq, true)], None)))).
Proof.
  unfold switchLocked. destruct (exits (sel w) !! name) as [t|]; [right|by left].
  exists t. split; [done|]. cbv zeta. case_bool_decide as E; [by left|right].
  destruct (accept _) eqn:A; cbn [negb]; [right|left]; done.
Qed.

(** ** The invariant *)
Definition same_setup (w0 w : world) : Prop :=
  exits (sel w) = exits (sel w0) /\ order (sel w) = order (sel w0) /\ ctrls (sel w) = ctrls (sel w0) /\
  healthWired (sel w) = healthWired (sel w0) /\ rttWired (sel w) = rttWired (sel w0).

(** Only the active exit's controller is subscribed, with its own name. *)
Definition subscribed (w : world) : Prop :=
  forall n h, fos w !! n = Some h ->
    failover.onExhausted h =
      (if bool_decide (n = active (sel w) /\ n ∈ ctrls (sel w)) then Some n else None).

(** The request a switch to the named exit makes. *)
Definition request_of (w : world) (n : string) : option request :=
  (fun t => mkRequest (publicKeyHex t) (splits t)) <$> exits (sel w) !! n.

(** The last request the engine accepted. *)
Definition accepted (log : list (request * bool)) : list request :=
  map fst (List.filter snd log).

Definition inv (w0 : world) (log : list (request * bool)) (w : world) : Prop :=
  same_setup w0 w /\ is_Some (exits (sel w0) !! active (sel w)) /\ subscribed w /\
  Forall (fun r => exists n, request_of w0 n = Some (fst r)) log /\
  match last (accepted log) with
  | Some rq => request_of w0 (active (sel w)) = Some rq
  | None => active (sel w) = active (sel w0)
  end.

Lemma subscribe_sel n cb w : sel (subscribe n cb w) = sel w.
Proof. unfold subscribe. by case_bool_decide. Qed.

Lemma subscribe_fos n cb w m :
  fos (subscribe n cb w) !! m =
    (if bool_decide (m = n /\ n ∈ ctrls (sel w)) then failover.SetOnExhausted cb <$> fos w !! m else fos w !! m).
Proof.
  unfold subscribe. case_bool_decide as E; cbn [fos update].
  - rewrite lookup_alter. repeat case_decide; case_bool_decide; naive_solver.
  - rewrite bool_decide_eq_false_2 by naive_solver. done.
Qed.

Lemma subscribed_switch w name now :
  name <> active (sel w) -> subscribed w ->
  subscribed (resubscribeLocked (active (sel w)) name
    (w <| sel := (sel w) <| active := name |> <| lastSwitch := now |> |>)).
Proof.
  intros Hne Hs n h. unfold resubscribeLocked.
  rewrite !subscribe_fos, !subscribe_sel. cbn [sel active ctrls update fos].
  specialize (Hs n). intros Hn. change (active _) with name.
  destruct (fos w !! n) as [h0|] eqn:F; [|repeat case_bool_decide; done].
  specialize (Hs h0 eq_refl).
  repeat case_bool_decide; naive_solver.
Qed.
Lemma accepted_app l1 l2 : accepted (l1 ++ l2) = accepted l1 ++ accepted l2.
Proof. unfold accepted. by rewrite List.filter_app, map_app. Qed.

(** A step that only changes controllers, keeping their subscribers. *)
Lemma inv_controllers w0 log w (f : failover.hubFailover -> failover.hubFailover) n :
  (forall h, failover.onExhausted (f h) = failover.onExhausted h) ->
  inv w0 log w -> inv w0 log (w <| fos := alter f n (fos w) |>).
Proof.
  intros Hf (A & B & C & D & E). split; [exact A|]. split; [exact B|]. split; [|split; [exact D|exact E]].
  intros m h. cbn [fos update sel].
  rewrite lookup_alter. case_decide as Hm; [|apply C].
  intros (h0 & F & ->)%fmap_Some. rewrite Hf. apply C. by subst.
Qed.

(** A change of the mode or of the switching time. *)
Lemma inv_sel w0 log w s :
  active s = active (sel w) -> exits s = exits (sel w) -> order s = order (sel w) -> ctrls s = ctrls (sel w) ->
  healthWired s = healthWired (sel w) -> rttWired s = rttWired (sel w) ->
  inv w0 log w -> inv w0 log (w <| sel := s |>).
Proof.
  intros E1 E2 E3 E4 E5 E6 ((A1 & A2 & A3 & A4 & A5) & B & C & D & E). unfold inv, same_setup, subscribed.
  cbn [sel fos update]. rewrite E1, E2, E3, E4, E5, E6. split_and!; done.
Qed.

Lemma inv_switch w0 log accept now name w :
  inv w0 log w ->
  inv w0 (log ++ snd (fst (switchLocked accept now name w))) (fst (fst (switchLocked accept now name w))).
Proof.
  intros Hi. destruct (switchLocked_spec accept now name w) as [[_ ->]|(t & Ht & [[_ ->]|[(_ & _ & ->)|(Hne & _ & ->)]])];
    cbn [fst snd]; rewrite ?app_nil_r; try done.
  - destruct Hi as (A & B & C & D & E). split_and!; try done.
    + apply Forall_app. split; [done|]. apply Forall_singleton. exists name. unfold request_of. cbn.
      destruct A as (<- & _). by rewrite Ht.
    + rewrite accepted_app. cbn. by rewrite app_nil_r.
  - destruct Hi as ((A1 & A2 & A3 & A4 & A5) & B & C & D & E).
    assert (request_of w0 name = Some (mkRequest (publicKeyHex t) (splits t))) as Hr.
    { unfold request_of. by rewrite <- A1, Ht. }
    assert (sel (resubscribeLocked (active (sel w)) name (w <| sel := (sel w) <| active := name |> <| lastSwitch := now |> |>))
      = (sel w) <| active := name |> <| lastSwitch := now |>) as Hs
      by (unfold resubscribeLocked; by rewrite !subscribe_sel).
    split_and!.
    + unfold same_setup. rewrite Hs. done.
    + rewrite Hs. change (is_Some (exits (sel w0) !! name)). rewrite <- A1, Ht. done.
    + by apply subscribed_switch.
    + apply Forall_app. split; [done|]. apply Forall_singleton. by exists name.
    + rewrite accepted_app, last_app, Hs. done.
Qed.

Lemma inv_promote w0 log accept healthy now w :
  inv w0 log w ->
  inv w0 (log ++ snd (fst (promote accept healthy now w))) (fst (fst (promote accept healthy now w))).
Proof.
  intros Hi. unfold promote. case_bool_decide; cbn [fst snd]; [by rewrite app_nil_r|].
  pose proof (inv_switch w0 log accept now (firstHealthyStandbyLocked healthy w) w Hi) as H1.
  by destruct (switchLocked _ _ _ w) as [[w1 l1] e1].
Qed.

Lemma onExhausted_check hs t h :
  failover.onExhausted (fst (fst (failover.checkLocked hs t h))) = failover.onExhausted h.
Proof.
  unfold failover.checkLocked, failover.advance, failover.raiseExhaustedLocked.
  repeat case_match; simplify_eq; try done; cbn in *; simplify_eq; done.
Qed.

Lemma onExhausted_update i l t h :
  failover.onExhausted (fst (failover.updateResolution i l t h)) = failover.onExhausted h.
Proof.
  by destruct (failover_ok.updateResolution_case i l t h) as [|? ? ? ? ? ? ->|? ? ? ? ? ? ? ->|? ? ? ? ->].
Qed.

Lemma inv_exec w0 log ev w : inv w0 log w -> inv w0 (log ++ snd (exec ev w)) (fst (exec ev w)).
Proof.
  intros Hi. destruct ev as [accept now m|accept healthy now name|accept healthy health now|accept healthy rtt now|n health now|n i l now];
    cbn [exec].
  - unfold setMode. case_bool_decide; [case_bool_decide; cbn [fst snd]; rewrite app_nil_r; [done|by apply inv_sel]|].
    destruct (exits (sel w) !! m) as [t|]; cbn [fst snd]; [|by rewrite app_nil_r].
    pose proof (inv_switch w0 log accept now m w Hi) as H1.
    destruct (switchLocked accept now m w) as [[w1 l1] [e|]]; [done|]. by apply inv_sel.
  - unfold onActiveExhausted. case_bool_decide; cbn [negb]; [by apply inv_promote|]. cbn. by rewrite app_nil_r.
  - unfold retryExhaustedPromotion. destruct (if bool_decide _ then _ else _) as [h|]; [|cbn; by rewrite app_nil_r].
    destruct (failover.Exhausted _ _); cbn [negb]; [by apply inv_promote|]. cbn. by rewrite app_nil_r.
  - unfold evaluateAuto. destruct (negb _ || _ || _); [cbn; by rewrite app_nil_r|].
    destruct (negb _ && _); [cbn; by rewrite app_nil_r|].
    destruct (negb _ && _); [|cbn; by rewrite app_nil_r].
    pose proof (inv_switch w0 log accept now (best_loop healthy rtt EmptyString 0 (order (sel w))) w Hi) as H1.
    by destruct (switchLocked _ _ _ w) as [[w1 l1] e1].
  - cbn [fst snd]. rewrite app_nil_r. apply inv_controllers; [|done]. intros h. apply onExhausted_check.
  - cbn [fst snd]. rewrite app_nil_r. apply inv_controllers; [|done]. intros h. apply onExhausted_update.
Qed.

Lemma inv_run w0 log evs w : inv w0 log w -> inv w0 (log ++ snd (run evs w)) (fst (run evs w)).
Proof.
  revert log w. induction evs as [|ev evs IH]; intros log w Hi; cbn [run fst snd]; [by rewrite app_nil_r|].
  pose proof (inv_exec w0 log ev w Hi) as H1. destruct (exec ev w) as [w1 l1]. cbn [fst snd] in H1.
  specialize (IH _ _ H1). destruct (run evs w1) as [w2 l2]. cbn [fst snd] in *. by rewrite app_assoc.
Qed.

(** ** Boot *)
Definition booted (s : exitSelector) (cs : gset string) (fs : gmap string failover.hubFailover) : world :=
  enableRTTSelection (enableAutoPromotion cs (mkWorld s fs)).

Definition unsubscribed (fs : gmap string failover.hubFailover) : Prop :=
  forall n h, fs !! n = Some h -> failover.onExhausted h = None.

Lemma booted_sel s cs fs :
  exits (sel (booted s cs fs)) = exits s /\ active (sel (booted s cs fs)) = active s /\
  order (sel (booted s cs fs)) = order s /\ ctrls (sel (booted s cs fs)) = cs.
Proof.
  unfold booted, enableRTTSelection, enableAutoPromotion, subscribeActiveLocked. cbn [sel update].
  rewrite !subscribe_sel. done.
Qed.

Lemma newExits_keys ids ps idx n :
  n ∈ snd (newExits_loop ids ps idx) <-> is_Some (fst (newExits_loop ids ps idx) !! n).
Proof.
  induction idx as [|i idx IH]; cbn; [rewrite lookup_empty; split; [by intros ?%elem_of_nil|by intros [? ?]]|].
  destruct (newExits_loop ids ps idx) as [m o]. cbn in IH.
  destruct (ps !! i) as [p|]; [|done]. destruct (ids !! i) as [id|]; [|done]. cbn [fst snd].
  rewrite elem_of_cons, IH. destruct (m !! idName id) as [x|] eqn:E.
  - split; [intros [-> |?]; [rewrite E|]; done|by right].
  - rewrite lookup_insert_is_Some. destruct (decide (n = idName id)) as [-> |Hne]; naive_solver.
Qed.

Lemma new_active_exit c s : newExitSelector c = Some s -> (2 <= length (order s))%nat ->
  is_Some (exits s !! active s).
Proof.
  unfold newExitSelector. destruct (length (exitCapablePeerIndices c) <? 2)%nat; [done|].
  destruct (newExits_loop _ _ _) as [m o] eqn:E. intros [= <-]. cbn [order exits active]. intros Ho.
  pose proof (newExits_keys (PeerIdentities c) (peers c) (exitCapablePeerIndices c)) as Hk.
  rewrite E in Hk. cbn in Hk. destruct o as [|n o]; [cbn in Ho; lia|]. apply Hk, list_elem_of_here.
Qed.

Lemma exits_loop_lt k ps i : i ∈ exits_loop k ps -> (k <= i < k + length ps)%nat.
Proof.
  revert k. induction ps as [|p ps IH]; intros k; cbn; [by intros ?%elem_of_nil|].
  destruct (isExit p); [intros [-> |H]%elem_of_cons; [lia|]|intros H]; apply IH in H; lia.
Qed.

Lemma newExits_length ids ps idx :
  (forall i, i ∈ idx -> is_Some (ps !! i) /\ is_Some (ids !! i)) ->
  length (snd (newExits_loop ids ps idx)) = length idx.
Proof.
  induction idx as [|i idx IH]; intros H; cbn; [done|].
  destruct (newExits_loop ids ps idx) as [m o]. cbn in IH.
  destruct (H i (list_elem_of_here _ _)) as [[p ->] [id ->]]. cbn. f_equal. apply IH.
  intros j Hj. apply H. by apply list_elem_of_further.
Qed.

Lemma new_order c s : newExitSelector c = Some s -> (2 <= length (order s))%nat.
Proof.
  unfold newExitSelector. destruct (Nat.ltb_spec (length (exitCapablePeerIndices c)) 2) as [|Hl]; [done|].
  destruct (newExits_loop _ _ _) as [m o] eqn:E. intros [= <-]. cbn [order].
  pose proof (newExits_length (PeerIdentities c) (peers c) (exitCapablePeerIndices c)) as Hn.
  rewrite E in Hn. cbn in Hn. rewrite Hn; [done|]. intros i Hi. unfold exitCapablePeerIndices in Hi.
  destruct (negb _); [by apply elem_of_nil in Hi|]. apply exits_loop_lt in Hi.
  split; apply lookup_lt_is_Some_2; [lia|]. unfold PeerIdentities. rewrite length_map. lia.
Qed.

Lemma booted_inv c s cs fs :
  newExitSelector c = Some s -> unsubscribed fs ->
  inv (booted s cs fs) [] (booted s cs fs).
Proof.
  intros Hs Hu. pose proof (new_active_exit c s Hs (new_order c s Hs)) as Ha.
  split_and!; try done.
  - unfold booted, enableRTTSelection, enableAutoPromotion, subscribeActiveLocked. cbn [sel update].
    rewrite !subscribe_sel. done.
  - intros n h. unfold booted, enableRTTSelection, enableAutoPromotion, subscribeActiveLocked.
    cbn [sel fos update]. rewrite !subscribe_fos, !subscribe_sel. cbn. specialize (Hu n).
    destruct (fs !! n) as [h0|] eqn:F; [|by case_bool_decide]. specialize (Hu h0 eq_refl).
    repeat case_bool_decide; naive_solver.
Qed.

(** ** Which exits there are *)

(** An exit's entry comes from an exit-capable peer of that name. *)
Lemma newExits_sound ids ps idx n x :
  fst (newExits_loop ids ps idx) !! n = Some x ->
  exists i p id, i ∈ idx /\ ps !! i = Some p /\ ids !! i = Some id /\ idName id = n /\
    x = mkExitPeer (hex (kbytes (PublicKey p))) (defaultRouteSplits (AllowedIPs p)).
Proof.
  induction idx as [|i idx IH]; cbn; [by rewrite lookup_empty|].
  destruct (newExits_loop ids ps idx) as [m o]. cbn [fst] in IH.
  assert (m !! n = Some x -> exists j p id, j ∈ i :: idx /\ ps !! j = Some p /\ ids !! j = Some id /\ idName id = n /\
    x = mkExitPeer (hex (kbytes (PublicKey p))) (defaultRouteSplits (AllowedIPs p))) as IH'.
  { intros (j & p & id & Hj & R)%IH. exists j, p, id. split; [by apply list_elem_of_further|done]. }
  destruct (ps !! i) as [p|] eqn:P; [|done]. destruct (ids !! i) as [id|] eqn:D; [|done]. cbn [fst].
  destruct (m !! idName id); [done|]. intros [[<- <-]|[_ H]]%lookup_insert_Some; [|by apply IH'].
  exists i, p, id. split; [apply list_elem_of_here|done].
Qed.

Lemma newExits_order ids ps idx :
  (forall i, i ∈ idx -> is_Some (ps !! i) /\ is_Some (ids !! i)) ->
  snd (newExits_loop ids ps idx) = omap (fun i => idName <$> ids !! i) idx.
Proof.
  induction idx as [|i idx IH]; intros H; cbn; [done|].
  destruct (newExits_loop ids ps idx) as [m o]. cbn in IH.
  destruct (H i (list_elem_of_here _ _)) as [[p ->] [id ->]]. cbn. f_equal. apply IH.
  intros j Hj. apply H. by apply list_elem_of_further.
Qed.

Lemma exitIndices_valid c i : i ∈ exitCapablePeerIndices c ->
  is_Some (peers c !! i) /\ is_Some (PeerIdentities c !! i).
Proof.
  intros Hi. unfold exitCapablePeerIndices in Hi. destruct (negb _); [by apply elem_of_nil in Hi|].
  apply exits_loop_lt in Hi. split; apply lookup_lt_is_Some_2; [lia|]. unfold PeerIdentities. rewrite length_map. lia.
Qed.

Lemma new_fields c s : newExitSelector c = Some s ->
  exits s = fst (newExits_loop (PeerIdentities c) (peers c) (exitCapablePeerIndices c)) /\
  order s = exitCapablePeerNames c (PeerIdentities c) /\ active s = default EmptyString (head (order s)) /\
  (2 <= length (exitCapablePeerIndices c))%nat.
Proof.
  unfold newExitSelector. destruct (Nat.ltb_spec (length (exitCapablePeerIndices c)) 2) as [|Hl]; [done|].
  pose proof (newExits_order (PeerIdentities c) (peers c) (exitCapablePeerIndices c) (exitIndices_valid c)) as Ho.
  destruct (newExits_loop _ _ _) as [m o]. intros [= <-]. cbn in *. by subst o.
Qed.

Lemma new_keys c s n : newExitSelector c = Some s -> n ∈ order s <-> is_Some (exits s !! n).
Proof.
  unfold newExitSelector. destruct (_ <? 2)%nat; [done|].
  pose proof (newExits_keys (PeerIdentities c) (peers c) (exitCapablePeerIndices c) n) as Hk.
  destruct (newExits_loop _ _ _) as [m o]. by intros [= <-].
Qed.

(** Exits of a loaded configuration have names. *)
Lemma order_named LookupIP urlParse c c' s :
  load LookupIP urlParse c = Ok c' -> newExitSelector c' = Some s -> EmptyString ∉ order s.
Proof.
  intros H Hs. pose proof (load_names _ _ _ _ H) as Hn0. destruct (new_fields _ _ Hs) as (_ & -> & _ & Hl).
  unfold exitCapablePeerNames. intros (i & Hi & Hn)%list_elem_of_omap.
  destruct (PeerIdentities c' !! i) as [id|] eqn:E; [|done]. injection Hn as Hn.
  enough (length (peers c') <> 1%nat) as Hne.
  { specialize (Hn0 Hne). rewrite Forall_forall in Hn0. apply (Hn0 id); [by eapply list_elem_of_lookup_2|done]. }
  unfold exitCapablePeerIndices in Hl. destruct (negb _); [cbn in Hl; lia|].
  pose proof (device_props.exits_loop_length 0 (peers c')). pose proof (List.filter_length_le isExit (peers c')). lia.
Qed.

(** ** The invariant of a run *)

(** However the engine answers and in whatever order the calls, ticks and
    callbacks come, the selector's active exit is the target of the last
    request the engine accepted, or the first exit-capable peer when it accepted
    none; every request names an exit with that exit's own default routes; and
    exactly the active exit's controller, if it has one, is subscribed, under
    that exit's name. *)
Theorem exit_tracks_engine c s cs fs evs :
  newExitSelector c = Some s -> unsubscribed fs ->
  let '(w, log) := run evs (booted s cs fs) in
  (active (sel w) ∈ order s) /\
  match last (accepted log) with
  | Some rq => exists t, exits s !! active (sel w) = Some t /\ rq = mkRequest (publicKeyHex t) (splits t)
  | None => Some (active (sel w)) = head (order s)
  end /\
  Forall (fun r => exists n t, exits s !! n = Some t /\ fst r = mkRequest (publicKeyHex t) (splits t)) log /\
  forall n h, fos w !! n = Some h ->
    failover.onExhausted h = if bool_decide (n = active (sel w) /\ n ∈ cs) then Some n else None.
Proof.
  intros Hs Hu. pose proof (inv_run _ [] evs _ (booted_inv c s cs fs Hs Hu)) as Hi. cbn [app] in Hi.
  destruct (run evs (booted s cs fs)) as [w log]. cbn [fst snd] in Hi. destruct Hi as ((_ & _ & Hc & _) & A & S & F & L).
  destruct (booted_sel s cs fs) as (Ex & Ac & Or & Ct). unfold subscribed in S. rewrite Hc, Ct in S.
  rewrite Ex in A. split; [by apply (new_keys c s)|]. split; [|split; [|exact S]].
  - destruct (last (accepted log)) as [rq|].
    + unfold request_of in L. rewrite Ex in L. apply fmap_Some in L as (t & Ht & ->). by exists t.
    + rewrite L, Ac. destruct (new_fields c s Hs) as (_ & _ & -> & _). pose proof (new_order c s Hs).
      destruct (order s); [cbn in *; lia|done].
  - eapply Forall_impl; [exact F|]. intros r (n & Hn). exists n. unfold request_of in Hn. rewrite Ex in Hn.
    apply fmap_Some in Hn as (t & Ht & ->). by exists t.
Qed.

(** ** Promotion *)
Lemma standby_loop_spec healthy act l :
  EmptyString ∉ l ->
  standby_loop healthy act l =
    default EmptyString (List.find (fun n => negb (bool_decide (n = act)) && healthy n) l).
Proof.
  induction l as [|n l IH]; intros H; cbn; [done|]. apply not_elem_of_cons in H as [_ H]. specialize (IH H).
  case_bool_decide; cbn; [done|]. by destruct (healthy n).
Qed.

(** The first healthy exit after the active one is ruled out, in configuration order. *)
Definition standby (healthy : string -> bool) (w : world) : option string :=
  List.find (fun n => negb (bool_decide (n = active (sel w))) && healthy n) (order (sel w)).

Lemma standby_some healthy w n : standby healthy w = Some n ->
  n ∈ order (sel w) /\ n <> active (sel w) /\ healthy n = true.
Proof.
  intros [Hn H]%List.find_some. apply andb_true_iff in H as [H1 H2]. apply negb_true_iff, bool_decide_eq_false in H1.
  by rewrite list_elem_of_In.
Qed.

Lemma promote_spec (accept : request -> bool) healthy now w :
  EmptyString ∉ order (sel w) -> healthWired (sel w) = true -> (forall n, n ∈ order (sel w) -> is_Some (exits (sel w) !! n)) ->
  match standby healthy w with
  | None => promote accept healthy now w = (w, [], None)
  | Some n => exists t, exits (sel w) !! n = Some t /\
      let rq := mkRequest (publicKeyHex t) (splits t) in
      if accept rq
      then exists w', promote accept healthy now w = (w', [(rq, true)], None) /\ active (sel w') = n /\
             exitselector.lastSwitch (sel w') = now /\ mode (sel w') = mode (sel w)
      else promote accept healthy now w = (w, [(rq, false)], None)
  end.
Proof.
  intros He Hw Hx. unfold promote, firstHealthyStandbyLocked. rewrite Hw. cbn [negb].
  rewrite standby_loop_spec by done. fold (standby healthy w).
  destruct (standby healthy w) as [n|] eqn:E; [|done]; change (default EmptyString (Some n)) with n. apply standby_some in E as (Hn & Hne & _).
  rewrite bool_decide_eq_false_2 by (intros ->; done).
  destruct (switchLocked_spec accept now n w) as [[F _]|(t & Ht & S)].
  { destruct (Hx n Hn) as [t Ht]. congruence. }
  exists t. split; [done|]. cbv zeta in *. destruct S as [[? _]|[(_ & A & ->)|(_ & A & ->)]]; [done|by rewrite A|].
  rewrite A. eexists. split; [reflexivity|]. unfold resubscribeLocked. rewrite !subscribe_sel. done.
Qed.

Lemma raised_latched hs now h :
  snd (failover.checkLocked hs now h) = true ->
  failover.exhaustedLatched (fst (fst (failover.checkLocked hs now h))) = true.
Proof.
  unfold failover.checkLocked, failover.advance, failover.raiseExhaustedLocked.
  repeat case_match; simplify_eq; try done; cbn in *; simplify_eq; done.
Qed.

(** What holds of the selector after any run from a loaded configuration. *)
Lemma reached LookupIP urlParse c c' s cs fs evs :
  load LookupIP urlParse c = Ok c' -> newExitSelector c' = Some s -> unsubscribed fs ->
  let w := fst (run evs (booted s cs fs)) in
  (EmptyString ∉ order (sel w)) /\ healthWired (sel w) = true /\ order (sel w) = order s /\ exits (sel w) = exits s /\
  ctrls (sel w) = cs /\ (forall n, n ∈ order (sel w) -> is_Some (exits (sel w) !! n)) /\ subscribed w.
Proof.
  intros H Hs Hu. pose proof (inv_run _ [] evs _ (booted_inv c' s cs fs Hs Hu)) as Hi. cbn [app] in Hi.
  cbv zeta. destruct (run evs (booted s cs fs)) as [w log]. cbn [fst snd] in *.
  destruct Hi as ((E1 & E2 & E3 & E4 & _) & A & S & _). destruct (booted_sel s cs fs) as (Ex & Ac & Or & Ct).
  rewrite E1, E2, E3, E4, Ex, Or, Ct. split_and!; try done.
  - by eapply order_named.
  - unfold booted, enableRTTSelection, enableAutoPromotion, subscribeActiveLocked. cbn [sel update].
    change (healthWired (_ <| rttWired := true |>)) with (healthWired (sel (subscribe (active s) (Some (active s))
      (mkWorld s fs <| sel := s <| ctrls := cs |> <| healthWired := true |> |>)))). by rewrite subscribe_sel.
  - intros n Hn. by apply (new_keys c' s).
Qed.

Lemma checkPeer_spec accept healthy hs now n w h :
  fos w !! n = Some h ->
  let r := failover.checkLocked hs now h in
  let w1 := w <| fos := <[n := fst (fst r)]> (fos w) |> in
  fst (checkPeer accept healthy hs now n w) =
    if snd r then match failover.onExhausted h with
                  | Some m => onActiveExhausted accept healthy now m w1
                  | None => (w1, [], None)
                  end
    else (w1, [], None).
Proof.
  intros Hh. cbv zeta. unfold checkPeer, failover.check. rewrite Hh.
  pose proof (onExhausted_check hs now h) as Ho. destruct (failover.checkLocked hs now h) as [[h' acts] raised].
  cbn [fst snd] in *. rewrite Ho. destruct raised; [|done]. by destruct (failover.onExhausted h).
Qed.

(** The retry moves off an active exit whose latch is set and whose paths are down. *)
Lemma retry_moves healthy health now w h n :
  EmptyString ∉ order (sel w) -> healthWired (sel w) = true -> (forall n, n ∈ order (sel w) -> is_Some (exits (sel w) !! n)) ->
  active (sel w) ∈ ctrls (sel w) -> fos w !! active (sel w) = Some h -> failover.exhaustedLatched h = true ->
  failover.allDownLocked (health (active (sel w))) = true -> standby healthy w = Some n ->
  active (sel (fst (fst (retryExhaustedPromotion (fun _ => true) healthy health now w)))) = n.
Proof.
  intros R1 R2 R6 Hc Hh Hlat Hd Hn. unfold retryExhaustedPromotion. rewrite bool_decide_eq_true_2, Hh by done.
  unfold failover.Exhausted. rewrite Hlat, Hd. cbn [andb negb].
  pose proof (promote_spec (fun _ => true) healthy now w R1 R2 R6) as Q. rewrite Hn in Q.
  destruct Q as (t & _ & (w2 & -> & Q & _)). exact Q.
Qed.

(** C32. When the active exit's controller raises its exhaustion signal, in any
    reachable state, the selector asks the engine to move the default route to
    the first healthy other exit in configuration order, and moves if the
    engine accepts; with none healthy it stays.  Whenever it stayed, the
    periodic retry moves it as soon as an exit is healthy and the engine
    accepts, while the active exit's paths are all down.  A signal of any other
    controller does not move it. *)
Theorem exit_promotes LookupIP urlParse c c' s cs fs evs (accept : request -> bool) healthy hs now h :
  load LookupIP urlParse c = Ok c' -> newExitSelector c' = Some s -> unsubscribed fs ->
  let w := fst (run evs (booted s cs fs)) in
  let a := active (sel w) in
  fos w !! a = Some h -> a ∈ cs -> snd (failover.checkLocked hs now h) = true ->
  let '(w', log, _) := fst (checkPeer accept healthy hs now a w) in
  match standby healthy w with
  | None => active (sel w') = a /\ log = []
  | Some n => exists t, exits s !! n = Some t /\ let rq := mkRequest (publicKeyHex t) (splits t) in
                log = [(rq, accept rq)] /\ active (sel w') = if accept rq then n else a
  end /\
  (active (sel w') = a -> forall healthy' health now' n,
     failover.allDownLocked (health a) = true -> standby healthy' w' = Some n ->
     active (sel (fst (fst (retryExhaustedPromotion (fun _ => true) healthy' health now' w')))) = n) /\
  (forall m, m <> a -> sel (fst (fst (fst (checkPeer accept healthy hs now m w)))) = sel w).
Proof.
  intros H Hs Hu w a Hh Ha Hr. pose proof (reached _ _ _ _ _ cs fs evs H Hs Hu) as R. cbv zeta in R. fold w in R.
  destruct R as (R1 & R2 & R3 & R4 & R5 & R6 & R7).
  assert (failover.onExhausted h = Some a) as Ho.
  { rewrite (R7 a h Hh), R5. by rewrite bool_decide_eq_true_2. }
  rewrite (checkPeer_spec _ _ _ _ _ _ _ Hh), Hr, Ho. cbv zeta.
  unfold onActiveExhausted. cbn [sel update]. rewrite bool_decide_eq_true_2 by done. cbn [negb].
  set (h1 := fst (fst (failover.checkLocked hs now h))). set (w1 := w <| fos := <[a := h1]> (fos w) |>).
  change (promote accept healthy now _) with (promote accept healthy now w1).
  assert (failover.exhaustedLatched h1 = true) as Hlat by (by apply raised_latched).
  assert (fos w1 !! a = Some h1) as Hh1 by (cbn; apply lookup_insert_eq).
  pose proof (promote_spec accept healthy now w1 R1 R2 R6) as P.
  assert (standby healthy w1 = standby healthy w) as Es by done. rewrite Es in P.
  assert (forall m, m <> a -> sel (fst (fst (fst (checkPeer accept healthy hs now m w)))) = sel w) as Hother.
  { intros m Hm. destruct (fos w !! m) as [hm|] eqn:Em; [|unfold checkPeer; by rewrite Em].
    rewrite (checkPeer_spec _ _ _ _ _ _ _ Em). cbv zeta. rewrite (R7 m hm Em), bool_decide_eq_false_2 by naive_solver.
    by destruct (snd (failover.checkLocked hs now hm)). }
  assert (forall healthy' health now' n, failover.allDownLocked (health a) = true -> standby healthy' w1 = Some n ->
    active (sel (fst (fst (retryExhaustedPromotion (fun _ => true) healthy' health now' w1)))) = n) as Hretry.
  { intros healthy' health now' n Hd Hn. apply retry_moves with (h := h1); try done. cbn. by rewrite R5. }
  destruct (standby healthy w) as [n|] eqn:En.
  - destruct P as (t & Ht & P). cbv zeta in P. change (exits (sel w1)) with (exits (sel w)) in Ht. rewrite R4 in Ht.
    destruct (accept (mkRequest (publicKeyHex t) (splits t))) eqn:A.
    + destruct P as (w2 & -> & P & _). split; [|split; [|done]].
      * exists t. rewrite A. done.
      * intros E. apply standby_some in En as (_ & En & _). destruct En. rewrite <- P. exact E.
    + rewrite P. split; [|split; [|done]]; [exists t; by rewrite A|]. intros _. exact Hretry.
  - rewrite P. split; [done|]. split; [|done]. intros _. exact Hretry.
Qed.

(** ** Choice by round trip *)
Definition candidate (healthy : string -> bool) (rtt : string -> option Duration) (n : string) (d : Duration) : Prop :=
  healthy n = true /\ rtt n = Some d /\ 0 < d.

(** [n], with round trip [d], is the first of the fastest candidates of [l]. *)
Definition fastest healthy rtt (l : list string) (n : string) (d : Duration) : Prop :=
  candidate healthy rtt n d /\ exists pre post, l = pre ++ n :: post /\
    (forall m e, m ∈ pre -> candidate healthy rtt m e -> d < e) /\
    (forall m e, m ∈ post -> candidate healthy rtt m e -> d <= e).

(** What the loop holds after the exits of [l]. *)
Definition best_of healthy rtt (l : list string) (best : string) (d : Duration) : Prop :=
  if bool_decide (best = EmptyString) then forall m e, m ∈ l -> ~ candidate healthy rtt m e
  else fastest healthy rtt l best d.

Lemma fastest_snoc_old healthy rtt l n d m :
  fastest healthy rtt l n d -> (forall e, candidate healthy rtt m e -> d <= e) -> fastest healthy rtt (l ++ [m]) n d.
Proof.
  intros [C (pre & post & -> & H1 & H2)] Hm. split; [done|]. exists pre, (post ++ [m]). rewrite <- app_assoc.
  split_and!; try done. intros x e [Hx| ->%list_elem_of_singleton]%elem_of_app; eauto.
Qed.

Lemma fastest_snoc_new healthy rtt l m d :
  candidate healthy rtt m d -> (forall x e, x ∈ l -> candidate healthy rtt x e -> d < e) -> fastest healthy rtt (l ++ [m]) m d.
Proof. intros C H. split; [done|]. exists l, []. split_and!; try done. by intros ? ? ?%elem_of_nil. Qed.

Lemma fastest_least healthy rtt l n d m e :
  fastest healthy rtt l n d -> m ∈ l -> candidate healthy rtt m e -> d <= e.
Proof.
  intros [C (pre & post & -> & H1 & H2)] [Hm|[-> |Hm]%elem_of_cons]%elem_of_app Ce.
  - specialize (H1 m e Hm Ce). lia.
  - destruct C as (_ & C & _), Ce as (_ & Ce & _). rewrite C in Ce. injection Ce as <-. lia.
  - eauto.
Qed.

Lemma best_loop_spec healthy rtt l pre best d :
  EmptyString ∉ l -> best_of healthy rtt pre best d ->
  exists d', best_of healthy rtt (pre ++ l) (best_loop healthy rtt best d l) d'.
Proof.
  revert pre best d. induction l as [|n l IH]; intros pre best d He Hb; cbn [best_loop].
  - rewrite app_nil_r. by exists d.
  - apply not_elem_of_cons in He as [Hn He].
    assert ((forall e, ~ candidate healthy rtt n e) -> best_of healthy rtt (pre ++ [n]) best d) as Hskip.
    { intros Hno. unfold best_of in *. case_bool_decide.
      - intros m e [Hm| ->%list_elem_of_singleton]%elem_of_app; eauto.
      - apply fastest_snoc_old; [done|]. intros e Ce. by destruct (Hno e). }
    assert (pre ++ n :: l = (pre ++ [n]) ++ l) as -> by (by rewrite <- app_assoc).
    destruct (healthy n) eqn:Hh; cbn [negb]; [|apply IH; [done|]; apply Hskip; intros e (F & _); congruence].
    destruct (rtt n) as [x|] eqn:Hr; [|apply IH; [done|]; apply Hskip; intros e (_ & F & _); congruence].
    destruct (Z.leb_spec x 0); [apply IH; [done|]; apply Hskip; intros e (_ & F & G); rewrite Hr in F; injection F as <-; lia|].
    assert (candidate healthy rtt n x) as Cn by done.
    destruct (bool_decide (best = EmptyString) || (x <? d)) eqn:E; (apply IH; [done|]); unfold best_of in *.
    + rewrite (bool_decide_eq_false_2 (n = EmptyString)) by done. apply fastest_snoc_new; [done|]. intros m e Hm Ce.
      case_bool_decide; [by destruct (Hb m e Hm)|]. cbn in E. pose proof (fastest_least _ _ _ _ _ _ _ Hb Hm Ce). lia.
    + apply orb_false_iff in E as [E1 E2]. rewrite E1 in *. apply fastest_snoc_old; [done|].
      intros e (_ & F & _). rewrite Hr in F. injection F as <-. lia.
Qed.

Lemma best_loop_choice healthy rtt l :
  EmptyString ∉ l -> exists d, best_of healthy rtt l (best_loop healthy rtt EmptyString 0 l) d.
Proof. intros H. apply (best_loop_spec healthy rtt l [] EmptyString 0); [done|]. cbn. by intros ? ? ?%elem_of_nil. Qed.

(** When round trips may move the exit. *)
Definition may_choose (now : Time) (w : world) : bool :=
  bool_decide (mode (sel w) = "auto"%string) && rttWired (sel w) &&
  (is_zero_time (exitselector.lastSwitch (sel w)) || (autoExitCooldown <=? time_sub now (exitselector.lastSwitch (sel w)))).

(** The periodic choice by round trip is the reference one, in any reachable
    state: outside automatic mode, or within five minutes of the last switch,
    nothing happens; otherwise the exit asked for is the first of the healthy
    exits with the least measured round trip, unless it is the active one or no
    healthy exit has a measurement; the engine's refusal leaves the active exit
    and does not start the five minutes, its acceptance does both. *)
Theorem exit_rtt_choice LookupIP urlParse c c' s cs fs evs (accept : request -> bool) healthy rtt now :
  load LookupIP urlParse c = Ok c' -> newExitSelector c' = Some s -> unsubscribed fs ->
  let w := fst (run evs (booted s cs fs)) in
  let '(w', log, e) := evaluateAuto accept healthy rtt now w in
  e = None /\ mode (sel w') = mode (sel w) /\
  ((w' = w /\ log = [] /\
     (may_choose now w = false \/ (forall n d, n ∈ order s -> ~ candidate healthy rtt n d) \/
      exists d, fastest healthy rtt (order s) (active (sel w)) d)) \/
   (may_choose now w = true /\ exists n d t, fastest healthy rtt (order s) n d /\ n <> active (sel w) /\
      exits s !! n = Some t /\ let rq := mkRequest (publicKeyHex t) (splits t) in
      log = [(rq, accept rq)] /\
      if accept rq then active (sel w') = n /\ exitselector.lastSwitch (sel w') = now else w' = w)).
Proof.
  intros H Hs Hu w. pose proof (reached _ _ _ _ _ cs fs evs H Hs Hu) as R. cbv zeta in R. fold w in R.
  destruct R as (R1 & R2 & R3 & R4 & R5 & R6 & R7). unfold evaluateAuto. cbv zeta. rewrite R2.
  assert (forall X Y : bool, may_choose now w = X && Y -> X = false \/ Y = false -> may_choose now w = false) as Hmay.
  { intros X Y -> [-> | ->]; [done|apply andb_false_r]. }
  destruct (negb (bool_decide _) || negb (rttWired _) || negb true) eqn:E1.
  { split_and!; try done. left. split_and!; try done. left. eapply Hmay; [reflexivity|left].
    destruct (bool_decide _), (rttWired _); done. }
  destruct (negb (is_zero_time _) && _) eqn:E2.
  { split_and!; try done. left. split_and!; try done. left. eapply Hmay; [reflexivity|right].
    destruct (is_zero_time _); [done|]. cbn in *. lia. }
  assert (may_choose now w = true) as Hm.
  { unfold may_choose. destruct (bool_decide _), (rttWired _); try done. cbn. destruct (is_zero_time _); [done|]. cbn in *. lia. }
  destruct (best_loop_choice healthy rtt (order (sel w)) R1) as [d Hb]. unfold best_of in Hb. rewrite R3 in *.
  destruct (bool_decide (best_loop healthy rtt EmptyString 0 (order s) = EmptyString)) eqn:Eb; cbn [negb andb].
  { split_and!; try done. left. split_and!; try done. right. by left. }
  set (n := best_loop healthy rtt EmptyString 0 (order s)) in *.
  destruct (bool_decide_reflect (n = active (sel w))) as [Ea|Ea]; cbn [negb].
  { split_and!; try done. left. split_and!; try done. right. right. exists d. by rewrite <- Ea. }
  destruct (switchLocked_spec accept now n w) as [[F _]|(t & Ht & S)].
  { destruct Hb as [_ (pre & post & Ho & _)]. destruct (R6 n) as [t Ht]; [rewrite Ho; set_solver|]. congruence. }
  cbv zeta in S. rewrite R4 in Ht. destruct S as [[? _]|[(_ & A & ->)|(_ & A & ->)]]; [done| |]; (split; [done|]).
  - split; [done|]. right. split; [done|]. exists n, d, t. rewrite A. split_and!; done.
  - unfold resubscribeLocked. rewrite !subscribe_sel. split; [done|]. right. split; [done|]. exists n, d, t. rewrite A.
    split_and!; done.
Qed.

(** ** The two-exit edge *)
Definition selW : exitSelector :=
  match newExitSelector loadedW with Some s => s | None => mkExitSelector EmptyString EmptyString 0 false false ∅ [] ∅ end.
Lemma selW_eq : newExitSelector loadedW = Some selW.
Proof. vm_compute. reflexivity. Defined.

Definition hubW : failover.hubFailover :=
  failover.newHubFailover [AddrPortFrom (mkAddr [203; 0; 113; 1] []) 51820] true failover.hubFailoverSettle second.
Definition fosW : gmap string failover.hubFailover := {[ "fra"%string := hubW ]}.
Definition ctrlsW : gset string := {[ "fra"%string ]}.
Lemma fosW_fresh : unsubscribed fosW.
Proof. intros n h H. unfold fosW in H. apply lookup_singleton_Some in H as [_ <-]. reflexivity. Defined.

Definition yes (_ : request) : bool := true.

Lemma exit_tracks_engine_witness :
  let '(w, log) := run [ESetMode yes second "ams"%string] (booted selW ctrlsW fosW) in
  (active (sel w) ∈ order selW) /\ map (fun r => rqAllowed (fst r)) log = [v4Splits].
Proof.
  pose proof (exit_tracks_engine loadedW selW ctrlsW fosW [ESetMode yes second "ams"%string] selW_eq fosW_fresh) as H.
  destruct (run [ESetMode yes second "ams"%string] (booted selW ctrlsW fosW)) as [w log] eqn:E.
  destruct H as [H _]. split; [exact H|].
  assert (map (fun r => rqAllowed (fst r)) (snd (run [ESetMode yes second "ams"%string] (booted selW ctrlsW fosW))) = [v4Splits]) as L
    by (vm_compute; reflexivity).
  rewrite E in L. exact L.
Defined.

(** One endpoint, down from one second to five. *)
Definition downW : list event := [ECheck "fra"%string [telemetry.StateDown] (2 * second)].
Definition hubDownW : failover.hubFailover :=
  failover.SetOnExhausted (Some "fra"%string) (fst (fst (failover.checkLocked [telemetry.StateDown] (2 * second) hubW))).

Lemma exit_promotes_witness :
  active (sel (fst (fst (fst (checkPeer yes (fun _ => true) [telemetry.StateDown] (6 * second) "fra"
    (fst (run downW (booted selW ctrlsW fosW)))))))) = "ams"%string.
Proof.
  pose proof (exit_promotes noLookup noURL rawW loadedW selW ctrlsW fosW downW yes (fun _ => true)
    [telemetry.StateDown] (6 * second) hubDownW loadedW_eq selW_eq fosW_fresh) as H. cbv zeta in H.
  assert (active (sel (fst (run downW (booted selW ctrlsW fosW)))) = "fra"%string) as A by (vm_compute; reflexivity).
  rewrite A in H.
  specialize (H ltac:(vm_compute; reflexivity) ltac:(apply (bool_decide_unpack _); vm_compute; exact I) ltac:(vm_compute; reflexivity)).
  destruct (fst (checkPeer yes (fun _ => true) [telemetry.StateDown] (6 * second) "fra" (fst (run downW (booted selW ctrlsW fosW)))))
    as [[w' log] e].
  assert (standby (fun _ => true) (fst (run downW (booted selW ctrlsW fosW))) = Some "ams"%string) as Hs by (vm_compute; reflexivity).
  rewrite Hs in H. destruct H as [(t & _ & _ & H) _]. exact H.
Defined.

Definition rttW (n : string) : option Duration := if bool_decide (n = "ams"%string) then Some 20 else Some 30.

Lemma exit_rtt_choice_witness :
  exists d, fastest (fun _ => true) rttW (order selW) "ams" d.
Proof.
  pose proof (exit_rtt_choice noLookup noURL rawW loadedW selW ctrlsW fosW [] yes (fun _ => true) rttW second
    loadedW_eq selW_eq fosW_fresh) as H. cbv zeta in H.
  assert (active (sel (fst (fst (evaluateAuto yes (fun _ => true) rttW second (fst (run [] (booted selW ctrlsW fosW))))))) = "ams"%string)
    as A by (vm_compute; reflexivity).
  destruct (evaluateAuto yes (fun _ => true) rttW second (fst (run [] (booted selW ctrlsW fosW)))) as [[w' log] e].
  destruct H as (_ & _ & [(-> & _)|(_ & n & d & t & F & _ & _ & _ & H & _)]).
  - vm_compute in A. discriminate A.
  - cbn [fst] in A. rewrite A in H. subst n. exists d. exact F.
Defined.

End exit_props.
