(* ===== verification/ExitRouteProps.v ===== *)
(** * Who owns the default route

    The engine's routing table, as the boot configuration and the selector's
    requests fill it, holds every half of the default route at the active exit. *)

From Stdlib Require Import Ascii String.
From stdpp Require Import base tactics list numbers strings sets gmap.
From S2P Require Import Prelude Frame Telemetry Netip Config ConfigProps Failover FailoverTheory.
From S2P Require Import Resolution Device DeviceProps ExitSelector ExitProps.

Module exit_routes.
Import netip config config_props device device_props exitselector exit_props.

(** ** The engine's routing table

    Routes in the order they are inserted, a peer's key with a range.  A range
    belongs to the peer it was last inserted for. *)
Fixpoint lineRoutes (cur : string) (ls : list uapiLine) : list (string * string) :=
  match ls with
  | [] => []
  | UPublicKey k :: ls => lineRoutes k ls
  | UAllowedIP cidr :: ls => (cur, cidr) :: lineRoutes cur ls
  | _ :: ls => lineRoutes cur ls
  end.

Definition requestRoutes (rq : request) : list (string * string) := map (pair (rqKey rq)) (rqAllowed rq).

Definition holds (q : Prefix) (r : string * string) : option string :=
  if bool_decide (Masked <$> ParsePrefix (snd r) = Some q) then Some (fst r) else None.
Definition owner (q : Prefix) (rs : list (string * string)) : option string := last (omap (holds q) rs).

(** The routes after boot and the requests the engine accepted. *)
Definition table (lines : list uapiLine) (log : list (request * bool)) : list (string * string) :=
  lineRoutes EmptyString lines ++ concat (map requestRoutes (accepted log)).

Lemma owner_all q k rs :
  (forall r, r ∈ rs -> holds q r = None \/ holds q r = Some k) -> (exists r, r ∈ rs /\ holds q r = Some k) ->
  owner q rs = Some k.
Proof.
  intros Ha (r & Hr & Hk). unfold owner.
  assert (Forall (eq k) (omap (holds q) rs)) as F.
  { apply Forall_forall. intros x (y & Hy & Ey)%list_elem_of_omap. destruct (Ha y Hy); congruence. }
  assert (k ∈ omap (holds q) rs) as Hin by (apply list_elem_of_omap; eauto).
  destruct (omap (holds q) rs) as [|x l] using rev_ind; [by apply elem_of_nil in Hin|].
  rewrite last_snoc. apply Forall_app in F as [_ F]. apply Forall_cons in F as [<- _]. done.
Qed.

Lemma owner_app_r q k rs1 rs2 : owner q rs2 = Some k -> owner q (rs1 ++ rs2) = Some k.
Proof. unfold owner. rewrite omap_app, last_app. by intros ->. Qed.

Lemma lineRoutes_allowed cur l ls : lineRoutes cur (map UAllowedIP l ++ ls) = map (pair cur) l ++ lineRoutes cur ls.
Proof. induction l as [|x l IH]; cbn; [done|]. by rewrite IH. Qed.

Lemma lineRoutes_peer cur sb p ep ls :
  lineRoutes cur (peerLines sb p ep ++ ls) =
  map (pair (hex (kbytes (PublicKey p)))) (allowedLines sb (AllowedIPs p)) ++ lineRoutes (hex (kbytes (PublicKey p))) ls.
Proof. unfold peerLines. destruct ep; cbn; by rewrite lineRoutes_allowed. Qed.

(** The routes of the boot configuration. *)
Lemma bootRoutes_elem standby i ps lines cur r :
  uapiPeers standby i ps = Ok lines ->
  r ∈ lineRoutes cur lines <->
  exists j p ep, ps !! j = Some (p, ep) /\ fst r = hex (kbytes (PublicKey p)) /\
    snd r ∈ allowedLines (bool_decide ((i + j)%nat ∈ standby)) (AllowedIPs p).
Proof.
  revert i lines cur. induction ps as [|[p ep] ps IH]; intros i lines cur H; cbn [uapiPeers] in H.
  - injection H as <-. cbn. split; [by intros ?%elem_of_nil|]. intros (j & ? & ? & F & _). by rewrite lookup_nil in F.
  - destruct (_ =? 0)%nat; [done|]. destruct (uapiPeers standby (S i) ps) as [l| |] eqn:E; cbn [mbind outcome_bind] in H; try done.
    assert (lines = peerLines (bool_decide (i ∈ standby)) p ep ++ l) as -> by congruence. rewrite lineRoutes_peer, elem_of_app, (IH _ _ _ E), list_elem_of_fmap. split.
    + intros [(x & -> & Hx)|(j & q & eq & R)]; [exists 0%nat, p, ep; rewrite Nat.add_0_r; done|].
      exists (S j), q, eq. by rewrite Nat.add_succ_r.
    + intros ([|j] & q & eq & F & F1 & F2).
      * injection F as <- <-. rewrite Nat.add_0_r in F2. left. exists (snd r). destruct r. cbn in *. by subst.
      * right. exists j, q, eq. by rewrite Nat.add_succ_r in F2.
Qed.

Lemma uapi_routes c boot lines :
  uapiConfig c boot = Ok lines ->
  exists l, uapiPeers (standbyExitPeers c) 0 (zip (peers c) boot) = Ok l /\
    lineRoutes EmptyString lines = lineRoutes EmptyString l.
Proof.
  unfold uapiConfig. cbv zeta. intros H. destruct (uapiPeers _ _ _) as [l| |]; try done. cbn [mbind outcome_bind] in H.
  injection H as <-. exists l. split; [done|]. cbn [lineRoutes app]. rewrite <- app_assoc.
  unfold writeAmnezia. destruct (bool_decide _), (negb _); done.
Qed.

(** ** Exits of a loaded configuration *)
Section Loaded.
Context (LookupIP : string -> option (list netip.Addr)) (urlParse : string -> option (string * string)).
Context (c0 c : Config) (Hload : load LookupIP urlParse c0 = Ok c).
Context (Htwo : (2 <= length (exitCapablePeerIndices c))%nat).

(** A peer lists the range [q] itself, as written. *)
Definition written (q : netip.Prefix) : Prop :=
  exists p cidr, p ∈ peers c /\ cidr ∈ AllowedIPs p /\ Masked <$> ParsePrefix cidr = Some q.

Lemma loaded_edge : Role c = RoleEdge.
Proof. unfold exitCapablePeerIndices in Htwo. case_bool_decide; [done|]. cbn in Htwo. lia. Qed.

(** All exits have the same halves; a peer with a default route is an exit. *)
Lemma loaded_exits :
  (forall i j p p' s, peers c !! i = Some p -> peers c !! j = Some p' -> isExit p = true -> isExit p' = true ->
     s ∈ defaultRouteSplits (AllowedIPs p) -> s ∈ defaultRouteSplits (AllowedIPs p')) /\
  (forall i p cidr, peers c !! i = Some p -> cidr ∈ AllowedIPs p -> isDefaultRoute cidr = true -> isExit p = true).
Proof.
  pose proof (load_ok _ _ _ _ Hload) as (_ & pres & Hpar & Hv).
  destruct (accepted_exits _ _ Hpar (Hv loaded_edge) Htwo) as [mask Hm]. split.
  - intros i j p p' s Hi Hj Ei Ej Hs.
    destruct (Forall2_lookup_l _ _ _ _ _ Hpar Hi) as (pre & Hpre & Hp).
    destruct (Forall2_lookup_l _ _ _ _ _ Hpar Hj) as (pre' & Hpre' & Hp').
    pose proof (Hm i p pre Hi Hpre) as M1. rewrite Ei in M1. destruct M1 as [M1 _].
    pose proof (Hm j p' pre' Hj Hpre') as M2. rewrite Ej in M2. destruct M2 as [M2 _].
    apply (splits_mask _ _ _ Hp') . apply (splits_mask _ _ _ Hp) in Hs. by rewrite M2, <- M1.
  - intros i p cidr Hi Hc Hd. destruct (Forall2_lookup_l _ _ _ _ _ Hpar Hi) as (pre & Hpre & Hp).
    pose proof (Hm i p pre Hi Hpre) as M. destruct (isExit p); [done|].
    apply list_elem_of_lookup in Hc as [k Hk]. destruct (Forall2_lookup_l _ _ _ _ _ Hp Hk) as (x & Hx & Px).
    rewrite (isDefault_bits _ _ Px) in Hd. rewrite Forall_forall in M. destruct (M x); [by eapply list_elem_of_lookup_2|lia].
Qed.

Lemma splits_parse i p s : peers c !! i = Some p -> s ∈ defaultRouteSplits (AllowedIPs p) ->
  exists x, ParsePrefix s = Some x /\ Bits x = 1.
Proof.
  intros Hi Hs. pose proof (load_ok _ _ _ _ Hload) as (_ & pres & Hpar & _).
  destruct (Forall2_lookup_l _ _ _ _ _ Hpar Hi) as (pre & _ & Hp).
  apply (splits_are_splits _ _ _ Hp), splits_one_bit in Hs. unfold one_bit in Hs.
  destruct (ParsePrefix s) as [x|]; [|done]. exists x. split; [done|]. lia.
Qed.

(** A rendered range of one bit that no peer lists is a default route's, of a peer
    that is not a standby. *)
Lemma rendered_half sb i p s x :
  ~ written (Masked x) -> peers c !! i = Some p -> s ∈ allowedLines sb (AllowedIPs p) -> ParsePrefix s = Some x -> Bits x = 1 ->
  sb = false /\ isExit p = true.
Proof.
  intros Hh Hi Hs Hx Hb. unfold allowedLines in Hs.
  apply list_elem_of_In, in_concat in Hs as (l & Hl & Hs). apply list_elem_of_In, list_elem_of_fmap in Hl as (cidr & -> & Hc).
  destruct (sb && isDefaultRoute cidr) eqn:E; [done|].
  pose proof (load_ok _ _ _ _ Hload) as (W & _). pose proof (list_elem_of_lookup_2 _ _ _ Hi) as Hp.
  destruct (wf_allowed _ W p cidr Hp Hc) as [y Hy]. apply list_elem_of_In in Hs.
  destruct (decide (Bits y = 0)) as [Z0|Z0].
  - assert (isDefaultRoute cidr = true) as D by (rewrite (isDefault_bits _ _ Hy); lia).
    rewrite D, andb_true_r in E. split; [done|]. by eapply (proj2 loaded_exits).
  - rewrite (split_other _ _ Hy Z0) in Hs. apply list_elem_of_singleton in Hs as ->.
    rewrite Hy in Hx. injection Hx as ->. destruct Hh. exists p, cidr. by rewrite Hy.
Qed.

(** The halves of a peer's default routes are rendered unless it is a standby. *)
Lemma splits_rendered l s : s ∈ defaultRouteSplits l -> s ∈ allowedLines false l.
Proof.
  unfold defaultRouteSplits, allowedLines. rewrite !list_elem_of_In, !in_concat.
  intros (x & Hx & Hs). exists x. split; [|done]. apply in_map_iff in Hx as (cidr & <- & Hc).
  apply List.filter_In in Hc as [Hc _]. apply in_map_iff. by exists cidr.
Qed.

Lemma boot_owner boot lines i0 p0 i p s q :
  ~ written q -> length boot = length (peers c) -> uapiConfig c boot = Ok lines ->
  head (exitCapablePeerIndices c) = Some i0 -> peers c !! i0 = Some p0 ->
  peers c !! i = Some p -> isExit p = true -> s ∈ defaultRouteSplits (AllowedIPs p) -> Masked <$> ParsePrefix s = Some q ->
  owner q (lineRoutes EmptyString lines) = Some (hex (kbytes (PublicKey p0))).
Proof.
  intros Hh Hl Hu Hi0 Hp0 Hi Hx Hs Hq. destruct (uapi_routes _ _ _ Hu) as (ls & Hls & ->).
  destruct (splits_parse _ _ _ Hi Hs) as (x & Px & Bx). rewrite Px in Hq. injection Hq as Hq.
  assert (i0 ∈ exitCapablePeerIndices c) as Hin.
  { destruct (exitCapablePeerIndices c); [done|]. injection Hi0 as ->. apply list_elem_of_here. }
  apply owner_all.
  - intros r Hr. apply (bootRoutes_elem _ _ _ _ _ _ Hls) in Hr as (j & pj & ep & [Hj _]%lookup_zip_Some & K & A).
    unfold holds. destruct (bool_decide_reflect (Masked <$> ParsePrefix (snd r) = Some q)) as [E|E]; [right|by left]. apply fmap_Some in E as (y & Py & Ey).
    assert (Bits y = 1) as By. { assert (Bits (Masked y) = Bits (Masked x)) as F by congruence. cbn in F. lia. }
    assert (~ written (Masked y)) as Hy by congruence. destruct (rendered_half _ _ _ _ _ Hy Hj A Py By) as [Hsb Hxj]. cbn [Nat.add] in Hsb.
    apply bool_decide_eq_false in Hsb. rewrite standby_spec in Hsb.
    assert (j = i0) as ->; [|rewrite K; congruence].
    destruct (decide (Some j = head (exitCapablePeerIndices c))) as [D|D]; [congruence|]. destruct Hsb. split_and!; try done.
    unfold exitCapablePeerIndices. rewrite loaded_edge, bool_decide_eq_true_2 by done. cbn [negb].
    apply exits_loop_spec. by exists j, pj.
  - exists (hex (kbytes (PublicKey p0)), s). split.
    + apply (bootRoutes_elem _ _ _ _ _ _ Hls). destruct (lookup_lt_is_Some_2 boot i0) as [ep He].
      { rewrite Hl. by eapply lookup_lt_Some. }
      exists i0, p0, ep. split; [by apply lookup_zip_Some|]. split; [done|]. cbn [snd Nat.add].
      rewrite bool_decide_eq_false_2; [|rewrite standby_spec; intros (_ & _ & F); congruence].
      apply splits_rendered. destruct (exits_lookup _ _ Hin) as (p0' & F & Hx0 & _). assert (p0' = p0) as -> by congruence.
      by apply (proj1 loaded_exits i i0 p p0).
    + unfold holds. cbn [snd fst]. rewrite Px. cbn [fmap option_fmap option_map]. by rewrite bool_decide_eq_true_2 by congruence.
Qed.
End Loaded.

(** ** The active exit in the table *)
Lemma exits_peer c s n t : newExitSelector c = Some s -> exits s !! n = Some t ->
  exists i p, i ∈ exitCapablePeerIndices c /\ peers c !! i = Some p /\ isExit p = true /\
    t = mkExitPeer (hex (kbytes (PublicKey p))) (defaultRouteSplits (AllowedIPs p)) /\
    (idName <$> PeerIdentities c !! i) = Some n.
Proof.
  intros Hs Ht. destruct (new_fields c s Hs) as (E & _). rewrite E in Ht.
  apply newExits_sound in Ht as (i & p & id & Hi & Hp & Hid & Hn & Ht).
  destruct (exits_lookup _ _ Hi) as (p' & Hp' & Hx & _). assert (p' = p) as -> by congruence.
  exists i, p. rewrite Hid. cbn. by rewrite Hn.
Qed.

(** The first exit-capable peer is the selector's first exit. *)
Lemma first_exit c s : NoDup (map idName (PeerIdentities c)) -> newExitSelector c = Some s ->
  exists i p, head (exitCapablePeerIndices c) = Some i /\ peers c !! i = Some p /\
    (publicKeyHex <$> exits s !! active s) = Some (hex (kbytes (PublicKey p))).
Proof.
  intros Hn Hs. pose proof (new_active_exit c s Hs (new_order c s Hs)) as [t Ht].
  destruct (exits_peer c s _ _ Hs Ht) as (i & p & Hi & Hp & _ & -> & Hname). exists i, p. rewrite Ht.
  split; [|split; done]. destruct (new_fields c s Hs) as (_ & Ho & Ha & Hl).
  destruct (exitCapablePeerIndices c) as [|j l] eqn:E; [cbn in Hl; lia|]. cbn [head].
  destruct (exitIndices_valid c j) as [_ [id Hid]]; [rewrite E; apply list_elem_of_here|].
  rewrite Ha, Ho in Hname. unfold exitCapablePeerNames in Hname. rewrite E in Hname. cbn in Hname. rewrite Hid in Hname.
  cbn in Hname. f_equal. apply (NoDup_lookup _ _ _ (idName id) Hn).
  - by rewrite list_lookup_fmap, Hid.
  - by rewrite list_lookup_fmap.
Qed.

Lemma table_last lines log rq q k :
  last (accepted log) = Some rq -> owner q (requestRoutes rq) = Some k -> owner q (table lines log) = Some k.
Proof.
  intros [l E]%last_Some Ho. unfold table. rewrite E, map_app, concat_app. cbn. rewrite app_nil_r.
  by apply owner_app_r, owner_app_r.
Qed.

(** C3. Whatever the engine accepted and refused since boot, every half of every
    exit's default route belongs, in the engine's table, to the exit the
    selector reports active: the standbys' default routes are withheld at boot,
    every request carries all the halves, and all exits have the same ones.
    The one exception is a configuration in which a peer lists that very half
    (such as 128.0.0.0/1) itself, until the first request is accepted: validation
    lets it through, and [half_route_elsewhere] boots one. *)
Theorem exit_owns_default_route LookupIP urlParse c0 c boot lines s cs fs evs i p cidr q :
  load LookupIP urlParse c0 = Ok c ->
  length boot = length (peers c) -> uapiConfig c boot = Ok lines ->
  newExitSelector c = Some s -> unsubscribed fs ->
  peers c !! i = Some p -> isExit p = true ->
  cidr ∈ defaultRouteSplits (AllowedIPs p) -> Masked <$> ParsePrefix cidr = Some q ->
  let '(w, log) := run evs (booted s cs fs) in
  is_Some (exits s !! active (sel w)) /\
  (accepted log ≠ [] \/ ~ written c q -> owner q (table lines log) = publicKeyHex <$> exits s !! active (sel w)).
Proof.
  intros H Hl Hu Hs Hf Hi Hx Hc Hq.
  pose proof (inv_run _ [] evs _ (booted_inv c s cs fs Hs Hf)) as Hv. cbn [app] in Hv.
  destruct (run evs (booted s cs fs)) as [w log]. cbn [fst snd] in Hv.
  destruct Hv as (_ & A & _ & _ & L). destruct (booted_sel s cs fs) as (Ex & Ac & _). rewrite Ex in A.
  split; [done|]. intros Hh. destruct A as [t Ht]. destruct (new_fields c s Hs) as (_ & _ & _ & Htwo).
  destruct (last (accepted log)) as [rq|] eqn:El.
  - unfold request_of in L. rewrite Ex, Ht in L. injection L as L. rewrite Ht. cbn. apply (table_last _ _ rq); [done|].
    rewrite <- L. destruct (exits_peer c s _ _ Hs Ht) as (j & p' & _ & Hp' & Hx' & -> & _). cbn [publicKeyHex splits].
    unfold requestRoutes. cbn [rqKey rqAllowed]. apply owner_all.
    + intros r (x & -> & _)%list_elem_of_fmap. unfold holds. destruct (bool_decide _); auto.
    + exists (hex (kbytes (PublicKey p')), cidr). split; [|unfold holds; cbn [snd fst]; by rewrite bool_decide_eq_true_2].
      apply list_elem_of_fmap. exists cidr. split; [done|]. by apply (proj1 (loaded_exits _ _ _ _ H Htwo) i j p p').
  - assert (accepted log = []) as Hnil. { apply last_None. done. }
    destruct Hh as [|Hh]; [done|]. unfold table. rewrite Hnil. cbn [map concat]. rewrite app_nil_r, L, Ac.
    pose proof (load_ok _ _ _ _ H) as (W & _). destruct (first_exit c s (wf_names _ W) Hs) as (i0 & p0 & H0 & H1 & ->).
    by eapply (boot_owner _ _ _ _ H Htwo) with (i := i) (p := p).
Qed.

Lemma exit_owns_default_route_witness :
  match uapiConfig loadedW [None; None] with
  | Ok lines => forall q, Masked <$> ParsePrefix "128.0.0.0/1" = Some q ->
      owner q (table lines (snd (run [ESetMode yes second "ams"%string] (booted selW ctrlsW fosW)))) =
      Some (hex (replicate 32 3))
  | _ => False
  end.
Proof.
  destruct (uapiConfig loadedW [None; None]) as [lines|e|] eqn:E; [|vm_compute in E; discriminate E|vm_compute in E; discriminate E].
  intros q Hq. destruct (peers loadedW !! 0%nat) as [p|] eqn:P; [|vm_compute in P; discriminate P].
  pose proof (exit_owns_default_route noLookup noURL rawW loadedW [None; None] lines selW ctrlsW fosW
    [ESetMode yes second "ams"%string] 0 p "128.0.0.0/1" q loadedW_eq) as H.
  destruct (run [ESetMode yes second "ams"%string] (booted selW ctrlsW fosW)) as [w log] eqn:R.
  destruct H as [_ H]; try exact E; try exact Hq; try exact P; try exact selW_eq; try exact fosW_fresh.
  - reflexivity.
  - vm_compute in P. injection P as <-. reflexivity.
  - vm_compute in P. injection P as <-. apply (bool_decide_unpack _). vm_compute. exact I.
  - cbn [snd]. rewrite H.
    + assert ((publicKeyHex <$> exits selW !! active (sel (fst (run [ESetMode yes second "ams"%string] (booted selW ctrlsW fosW))))) =
        Some (hex (replicate 32 3))) as K by (vm_compute; reflexivity). rewrite R in K. exact K.
    + left. assert (length (accepted (snd (run [ESetMode yes second "ams"%string] (booted selW ctrlsW fosW)))) = 1%nat) as K
        by (vm_compute; reflexivity). rewrite R in K. intros F. cbn [snd] in K. rewrite F in K. discriminate K.
Defined.

(** Without that condition another peer can hold half of the default route: this
    configuration loads, and boots with 128.0.0.0/1 at the third peer. *)
Definition halfW : Config :=
  rawW <| wireGuard := (wireGuard rawW) <| Peers := Peers (wireGuard rawW) ++
    [peerW 9 "nyc" ["203.0.113.9:51820"] false ["128.0.0.0/1"] <| config.Mode := EmptyString |>] |> |>.
Example half_route_elsewhere :
  match load noLookup noURL halfW with
  | Ok c => match uapiConfig c [None; None; None], ParsePrefix "128.0.0.0/1" with
            | Ok lines, Some x => owner (Masked x) (table lines []) = Some (hex (replicate 32 9))
            | _, _ => False
            end
  | _ => False
  end.
Proof. vm_compute. reflexivity. Qed.

End exit_routes.
