(* ===== verification/BindRemote.v ===== *)
(** * A path's return address and its probe slots ([internal/bind]: multipath.go,
    probe.go)

    One peer's view of one socket keeps the addresses its peer's paths were last
    probed from, one of which is selected as the destination, and at most one
    padded probe waiting for a cadence slot.  The clock reading of a call is its
    argument, and so is the order in which Go visits the table.  A method
    reports whether it calls the roam callback. *)

From stdpp Require Import base tactics list numbers gmap.
From S2P Require Import Prelude Frame Telemetry Netip.

Module remote.

Definition remoteDeadAfter : Duration := 2 * telemetry.DefaultDownAfter.

Record remoteEntry := mkRemoteEntry { addr : AddrPort; lastProbe : Time }.

(** The remote fields of [peerPathState]; [id] is the shared path's, [onRoam]
    says that a callback is registered. *)
Record table := mkTable {
  id : Z;
  remotes : gmap Z remoteEntry;
  selKey : Z;
  selValid : bool;
  onRoam : bool
}.
#[export] Instance eta_table : Eta table := fun t =>
  mkTable (id t) (remotes t) (selKey t) (selValid t) (onRoam t).

Definition newTable (ident : Z) : table := mkTable ident ∅ 0 false false.

Definition selectedAddrLocked (t : table) : option AddrPort :=
  if negb (selValid t) then None else addr <$> remotes t !! selKey t.

Definition getRemote (t : table) : option AddrPort := selectedAddrLocked t.

Definition setRemote (now : Time) (ap : AddrPort) (t : table) : table * bool :=
  let prev := selectedAddrLocked t in
  let t := t <| remotes := {[ id t := mkRemoteEntry ap now ]} |> <| selKey := id t |> <| selValid := true |> in
  (t, match prev with Some p => negb (bool_decide (p = ap)) && onRoam t | None => false end).

Definition learnRemoteFromProbe (now : Time) (senderPathID : Z) (ap : AddrPort) (t : table) : table * bool :=
  let prev := selectedAddrLocked t in
  let t := t <| remotes := <[senderPathID := mkRemoteEntry ap now]> (remotes t) |> in
  let t := if negb (selValid t) then t <| selKey := senderPathID |> <| selValid := true |> else t in
  let next := selectedAddrLocked t in
  (t, bool_decide (is_Some next) && negb (bool_decide (prev = next)) && onRoam t).

(** The freshest entry other than the selected one, keys visited in [order]. *)
Fixpoint freshest (t : table) (acc : option (Z * remoteEntry)) (order : list Z) : option (Z * remoteEntry) :=
  match order with
  | [] => acc
  | k :: order =>
      match remotes t !! k with
      | None => freshest t acc order
      | Some e =>
          if k =? selKey t then freshest t acc order
          else match acc with
               | None => freshest t (Some (k, e)) order
               | Some (_, f) => if lastProbe f <? lastProbe e then freshest t (Some (k, e)) order
                                else freshest t acc order
               end
      end
  end.

Definition checkRemoteDead (order : list Z) (now : Time) (t : table) : table * bool :=
  if negb (selValid t) then (t, false)
  else match remotes t !! selKey t with
  | None => (t, false)
  | Some sel =>
      if time_sub now (lastProbe sel) <? remoteDeadAfter then (t, false)
      else match freshest t None order with
      | None => (t, false)
      | Some (freshKey, fresh) =>
          if negb (lastProbe sel <? lastProbe fresh) then (t, false)
          else
            let prev := selectedAddrLocked t in
            let t := t <| selKey := freshKey |> in
            let next := selectedAddrLocked t in
            (t, negb (bool_decide (prev = next)) && onRoam t)
      end
  end.

(** ** Probe slots

    A request is known by a number; [enqueuePMTUProbe] blocks until it is
    answered, which the model shows as its number among the answers. *)
Record slots := mkSlots { pendingPMTU : option nat; generatedProbeClosed : bool; ordinaryProbeDue : bool }.
#[export] Instance eta_slots : Eta slots := fun s =>
  mkSlots (pendingPMTU s) (generatedProbeClosed s) (ordinaryProbeDue s).
Definition newSlots : slots := mkSlots None false false.

Inductive enqueueError := errClosed | errPMTUProbeAlreadyPending.

(** [None] is a request that waits. *)
Definition enqueuePMTUProbe (r : nat) (s : slots) : slots * option enqueueError :=
  if generatedProbeClosed s then (s, Some errClosed)
  else match pendingPMTU s with
       | Some _ => (s, Some errPMTUProbeAlreadyPending)
       | None => (s <| pendingPMTU := Some r |>, None)
       end.

Definition takePMTUProbe (s : slots) : slots * option nat :=
  if ordinaryProbeDue s then (s <| ordinaryProbeDue := false |>, None)
  else
    let request := pendingPMTU s in
    let s := s <| pendingPMTU := None |> in
    (match request with Some _ => s <| ordinaryProbeDue := true |> | None => s end, request).

(** The request answered with [errClosed], if one was waiting. *)
Definition closeGeneratedProbes (s : slots) : slots * option nat :=
  (s <| generatedProbeClosed := true |> <| pendingPMTU := None |>, pendingPMTU s).

(** ** One cadence step of a path ([emitProbes])

    What the slot is used for; the tick of the path's prober follows in every
    case. *)
Inductive slotUse := SlotPMTU (request : nat) | SlotOrdinary (remote : AddrPort) | SlotIdle.

Record view := mkView { vtable : table; vslots : slots }.
#[export] Instance eta_view : Eta view := fun v => mkView (vtable v) (vslots v).

Definition emitProbe (order : list Z) (now : Time) (v : view) : view * slotUse * bool :=
  let '(t, roamed) := checkRemoteDead order now (vtable v) in
  let remote := getRemote t in
  let '(s, request) := takePMTUProbe (vslots v) in
  (mkView t s,
   match request with
   | Some r => SlotPMTU r
   | None => match remote with Some ap => SlotOrdinary ap | None => SlotIdle end
   end, roamed).

End remote.
