(* ===== verification/BindRemoteProps.v ===== *)
(** * Return addresses are sticky, and probe slots are shared fairly *)

From stdpp Require Import base tactics list numbers gmap.
From S2P Require Import Prelude Frame Telemetry Netip BindRemote.

Module remote_props.
Import remote.

(** ** Histories of a table *)
Inductive event :=
  | Probed (k : Z) (ap : AddrPort) (now : Time)       (* an authenticated probe of sender path k *)
  | Cadence (order : list Z) (now : Time)
  | Override (ap : AddrPort) (now : Time).

Definition exec (e : event) (t : table) : table * bool :=
  match e with
  | Probed k ap now => learnRemoteFromProbe now k ap t
  | Cadence order now => checkRemoteDead order now t
  | Override ap now => setRemote now ap t
  end.

Fixpoint run (es : list event) (t : table) : table * list bool :=
  match es with
  | [] => (t, [])
  | e :: es => let '(t, b) := exec e t in let '(t, bs) := run es t in (t, b :: bs)
  end.

(** The selection, once made, names an entry. *)
Definition ok (t : table) : Prop := selValid t = true -> is_Some (remotes t !! selKey t).

Lemma freshest_spec t acc order :
  match freshest t acc order with
  | None => acc = None /\ forall k, k ∈ order -> k <> selKey t -> remotes t !! k = None
  | Some (k, e) =>
      (acc = Some (k, e) \/ (k ∈ order /\ k <> selKey t /\ remotes t !! k = Some e)) /\
      (forall a f, acc = Some (a, f) -> lastProbe f <= lastProbe e) /\
      (forall j f, j ∈ order -> j <> selKey t -> remotes t !! j = Some f -> lastProbe f <= lastProbe e)
  end.
Proof.
  revert acc. induction order as [|k order IH]; intros acc; cbn [freshest].
  - destruct acc as [[k e]|]; [|split; [done|by intros ? ?%elem_of_nil]].
    split_and!; [by left|by intros ? ? [= _ <-]|by intros ? ? ?%elem_of_nil].
  - destruct (remotes t !! k) as [e|] eqn:E.
    2: { specialize (IH acc). destruct (freshest t acc order) as [[a f]|].
         - destruct IH as (I1 & I2 & I3). split_and!; [destruct I1 as [?|(? & ?)]; [by left|right; split; [by apply list_elem_of_further|done]]|done|].
           intros j g [-> |Hj]%elem_of_cons; [congruence|eauto].
         - destruct IH as [-> I]. split; [done|]. intros j [-> |Hj]%elem_of_cons; eauto. }
    destruct (Z.eqb_spec k (selKey t)) as [Hk|Hk].
    { specialize (IH acc). destruct (freshest t acc order) as [[a f]|].
      - destruct IH as (I1 & I2 & I3). split_and!; [destruct I1 as [?|(? & ?)]; [by left|right; split; [by apply list_elem_of_further|done]]|done|].
        intros j g [-> |Hj]%elem_of_cons; [done|eauto].
      - destruct IH as [-> I]. split; [done|]. intros j [-> |Hj]%elem_of_cons; [done|eauto]. }
    assert (forall acc', (acc' = Some (k, e) \/ acc' = acc /\ exists a f, acc = Some (a, f) /\ lastProbe e <= lastProbe f) ->
      (forall a f, acc = Some (a, f) -> exists a' f', acc' = Some (a', f') /\ lastProbe f <= lastProbe f') ->
      match freshest t acc' order with
      | None => acc = None /\ (forall j, j ∈ k :: order -> j <> selKey t -> remotes t !! j = None)
      | Some (a, f) =>
          (acc = Some (a, f) \/ (a ∈ k :: order /\ a <> selKey t /\ remotes t !! a = Some f)) /\
          (forall b g, acc = Some (b, g) -> lastProbe g <= lastProbe f) /\
          (forall j g, j ∈ k :: order -> j <> selKey t -> remotes t !! j = Some g -> lastProbe g <= lastProbe f)
      end) as Hstep.
    { intros acc' Ha Hb. specialize (IH acc'). destruct (freshest t acc' order) as [[a f]|].
      - destruct IH as (I1 & I2 & I3). split_and!.
        + destruct I1 as [-> |(? & ?)]; [|right; split; [by apply list_elem_of_further|done]].
          destruct Ha as [[= -> ->]|[Ha _]]; [right; split; [apply list_elem_of_here|done]|by left].
        + intros b g Hg. destruct (Hb b g Hg) as (a' & f' & -> & Hl). specialize (I2 a' f' eq_refl). lia.
        + intros j g [-> |Hj]%elem_of_cons Hne Hj'; [|eauto]. rewrite E in Hj'. injection Hj' as <-.
          destruct Ha as [-> |[-> (b & h & Hh & Hl)]]; [eauto|]. specialize (I2 b h Hh). lia.
      - destruct IH as [-> I]. destruct Ha as [?|[<- (? & ? & ? & _)]]; done. }
    destruct acc as [[a f]|].
    + destruct (Z.ltb_spec (lastProbe f) (lastProbe e)); apply Hstep.
      * by left.
      * intros b g [= <- <-]. exists k, e. split; [done|lia].
      * right. split; [done|]. by exists a, f.
      * intros b g [= <- <-]. exists a, f. done.
    + apply Hstep; [by left|done].
Qed.

(** What a cadence step does to the selection. *)
Lemma checkRemoteDead_spec order now t :
  selValid t = true -> forall e, remotes t !! selKey t = Some e ->
  let t' := fst (checkRemoteDead order now t) in
  remotes t' = remotes t /\ selValid t' = true /\ onRoam t' = onRoam t /\ id t' = id t /\
  (selKey t' = selKey t \/
   (remoteDeadAfter <= time_sub now (lastProbe e) /\ exists f, remotes t !! selKey t' = Some f /\ lastProbe e < lastProbe f)) /\
  (remoteDeadAfter <= time_sub now (lastProbe e) -> forall k f, k ∈ order -> remotes t !! k = Some f -> lastProbe e < lastProbe f ->
     exists g, remotes t !! selKey t' = Some g /\ lastProbe f <= lastProbe g).
Proof.
  intros Hv e He. cbv zeta. unfold checkRemoteDead. rewrite Hv, He. cbn [negb].
  destruct (Z.ltb_spec (time_sub now (lastProbe e)) remoteDeadAfter) as [Hs|Hs]; [cbn [fst]; split_and!; try done; [by left|lia]|].
  pose proof (freshest_spec t None order) as F. destruct (freshest t None order) as [[k f]|].
  - destruct F as ([?|(Hk & Hne & Hf)] & _ & F); [done|].
    destruct (Z.ltb_spec (lastProbe e) (lastProbe f)) as [L|L]; cbn [negb fst].
    + split_and!; try done; [right; split; [done|by exists f]|]. intros _ j g Hj Hg Hl. exists f. split; [done|].
      apply (F j g); try done. intros ->. rewrite He in Hg. injection Hg as <-. lia.
    + split_and!; try done; [by left|]. intros _ j g Hj Hg Hl. exfalso.
      assert (j <> selKey t) as Hn by (intros ->; rewrite He in Hg; injection Hg as <-; lia).
      specialize (F j g Hj Hn Hg). lia.
  - destruct F as [_ F]. cbn [fst]. split_and!; try done; [by left|]. intros _ j g Hj Hg Hl. exfalso.
    assert (j <> selKey t) as Hn by (intros ->; rewrite He in Hg; injection Hg as <-; lia).
    rewrite (F j Hj Hn) in Hg. done.
Qed.

(** [k], last probed at [last], is heard often enough for every cadence step of
    the history to find it alive; and the address it is last heard from. *)
Fixpoint alive (k : Z) (last : Time) (es : list event) : bool :=
  match es with
  | [] => true
  | Probed j _ now :: es => alive k (if j =? k then now else last) es
  | Cadence _ now :: es => (time_sub now last <? remoteDeadAfter) && alive k last es
  | Override _ _ :: _ => false
  end.
Fixpoint heard (k : Z) (ap : AddrPort) (es : list event) : AddrPort :=
  match es with
  | Probed j a _ :: es => heard k (if j =? k then a else ap) es
  | _ :: es => heard k ap es
  | [] => ap
  end.

Lemma run_cons e es t : fst (run (e :: es) t) = fst (run es (fst (exec e t))).
Proof. cbn [run]. destruct (exec e t) as [t' b]. cbn [fst]. by destruct (run es t'). Qed.

Lemma learn_selected now j a t : selValid t = true ->
  fst (learnRemoteFromProbe now j a t) = t <| remotes := <[j := mkRemoteEntry a now]> (remotes t) |>.
Proof. intros Hv. unfold learnRemoteFromProbe. destruct t. cbn in *. by subst. Qed.

Lemma alive_stays k e es t :
  selValid t = true -> selKey t = k -> remotes t !! k = Some e -> alive k (lastProbe e) es = true ->
  selKey (fst (run es t)) = k /\ getRemote (fst (run es t)) = Some (heard k (addr e) es).
Proof.
  revert e t. induction es as [|ev es IH]; intros e t Hv Hk He Ha.
  - cbn [run fst heard]. unfold getRemote, selectedAddrLocked. rewrite Hv, Hk, He. done.
  - rewrite run_cons. destruct ev as [j a now|order now|a now]; cbn [exec alive heard] in *; [| |done].
    + rewrite learn_selected by done. set (t' := t <| remotes := _ |>).
      assert (remotes t' !! k = Some (if j =? k then mkRemoteEntry a now else e)) as He'.
      { cbn. destruct (Z.eqb_spec j k) as [-> |Hn]; [apply lookup_insert_eq|by rewrite lookup_insert_ne]. }
      specialize (IH (if j =? k then mkRemoteEntry a now else e) t').
      destruct (j =? k); apply IH; done.
    + apply andb_true_iff in Ha as [H1 H2].
      assert (fst (checkRemoteDead order now t) = t) as ->; [|by apply IH].
      unfold checkRemoteDead. rewrite Hv, Hk, He, H1. done.
Qed.

Lemma ok_exec e t : ok t -> ok (fst (exec e t)).
Proof.
  intros H. destruct e as [j a now|order now|a now]; cbn [exec].
  - destruct (selValid t) eqn:Hv.
    + rewrite learn_selected by done. intros _. cbn. rewrite lookup_insert_is_Some.
      destruct (decide (j = selKey t)); [by left|]. right. split; [done|]. by apply H.
    + unfold learnRemoteFromProbe. destruct t. cbn in *. subst. intros _. cbn. by rewrite lookup_insert_eq.
  - destruct (selValid t) eqn:Hv; [|unfold checkRemoteDead; by rewrite Hv].
    destruct (H Hv) as [e He]. pose proof (checkRemoteDead_spec order now t Hv e He) as S. cbv zeta in S.
    destruct S as (S1 & S2 & _ & _ & S3 & _). intros _. rewrite S1. destruct S3 as [-> |(_ & f & Hf & _)]; [done|by rewrite Hf].
  - unfold setRemote. cbn. intros _. cbn. rewrite lookup_singleton_eq. done.
Qed.

(** The callback is called exactly when the destination changes; the very first
    one is reported only when a probe establishes it. *)
Lemma roam_exact e t : ok t ->
  snd (exec e t) =
    onRoam t && negb (bool_decide (getRemote (fst (exec e t)) = getRemote t)) &&
    match e with Override _ _ => bool_decide (is_Some (getRemote t)) | _ => true end.
Proof.
  intros H. unfold getRemote. destruct e as [j a now|order now|a now]; cbn [exec].
  - unfold learnRemoteFromProbe. cbn [fst snd].
    set (t' := if negb (selValid _) then _ else _).
    assert (onRoam t' = onRoam t) as -> by (unfold t'; by destruct (negb _)).
    assert (is_Some (selectedAddrLocked t')) as Hs.
    { pose proof (ok_exec (Probed j a now) t H) as O. cbn [exec] in O. unfold learnRemoteFromProbe in O. cbn [fst] in O. fold t' in O.
      assert (selValid t' = true) as Hv by (unfold t'; destruct (selValid t) eqn:E; cbn; rewrite ?E; done).
      destruct (O Hv) as [e He]. unfold selectedAddrLocked. rewrite Hv, He. done. }
    rewrite (bool_decide_eq_true_2 _ Hs), andb_true_l, andb_true_r, andb_comm. f_equal. f_equal. by apply bool_decide_ext.
  - destruct (selValid t) eqn:Hv; [|unfold checkRemoteDead; rewrite Hv; cbn; by rewrite bool_decide_eq_true_2, andb_false_r].
    unfold checkRemoteDead. rewrite Hv. cbn [negb]. destruct (remotes t !! selKey t) as [e|] eqn:E.
    2: { destruct (H Hv) as [? ?]. congruence. }
    assert ((t, false).2 = onRoam t && negb (bool_decide (selectedAddrLocked (t, false).1 = selectedAddrLocked t)) && true) as Hsame.
    { cbn. by rewrite bool_decide_eq_true_2, andb_false_r. }
    destruct (_ <? remoteDeadAfter); [exact Hsame|]. destruct (freshest t None order) as [[k f]|]; [|exact Hsame].
    destruct (negb (lastProbe e <? lastProbe f)); [exact Hsame|]. cbn [fst snd]. rewrite andb_true_r, andb_comm. cbn [onRoam update]. f_equal. f_equal.
    by apply bool_decide_ext.
  - unfold setRemote. cbn [fst snd]. unfold selectedAddrLocked at 2. cbn. rewrite lookup_singleton_eq. cbn.
    destruct (selectedAddrLocked t) as [p|]; cbn; [|by rewrite andb_false_r]. rewrite andb_true_r, andb_comm. f_equal. f_equal.
    apply bool_decide_ext. naive_solver.
Qed.

Lemma ok_run es t : ok t -> ok (fst (run es t)).
Proof. revert t. induction es as [|e es IH]; intros t H; [done|]. rewrite run_cons. by apply IH, ok_exec. Qed.

(** C30. After any history of probes, cadence steps and overrides, the address a
    path's probes go to is sticky: while the selected sender path is heard often
    enough, no probe of another path moves it, and it is the address that path
    was last heard from.  When the selected path has been silent for the bound
    and another was heard later, the next cadence step selects one heard at
    least as late as every other, whatever order the table is visited in; it
    never moves otherwise.  The roam callback is called exactly when the address
    changes (the seed of a fresh table excepted). *)
Theorem remote_sticky ident hist e k now order :
  let t := fst (run hist (newTable ident)) in
  remotes t !! k = Some e -> selValid t = true -> selKey t = k ->
  (forall es, alive k (lastProbe e) es = true ->
     selKey (fst (run es t)) = k /\ getRemote (fst (run es t)) = Some (heard k (addr e) es)) /\
  (let t' := fst (exec (Cadence order now) t) in
   (selKey t' = k \/ (remoteDeadAfter <= time_sub now (lastProbe e) /\
                      exists f, remotes t !! selKey t' = Some f /\ lastProbe e < lastProbe f)) /\
   (remoteDeadAfter <= time_sub now (lastProbe e) ->
      forall j f, j ∈ order -> remotes t !! j = Some f -> lastProbe e < lastProbe f ->
      exists g, getRemote t' = Some (addr g) /\ remotes t !! selKey t' = Some g /\ lastProbe f <= lastProbe g)) /\
  (forall ev, snd (exec ev t) =
     onRoam t && negb (bool_decide (getRemote (fst (exec ev t)) = getRemote t)) &&
     match ev with Override _ _ => bool_decide (is_Some (getRemote t)) | _ => true end).
Proof.
  intros t He Hv Hk. split_and!.
  - intros es. by apply alive_stays.
  - cbn [exec]. rewrite <- Hk in He.
    pose proof (checkRemoteDead_spec order now t Hv e He) as (S1 & S2 & _ & _ & S3 & S4). rewrite Hk in S3. split; [exact S3|].
    intros Hs j f Hj Hf Hl.
    destruct (S4 Hs j f Hj Hf Hl) as (g & Hg & Hle). exists g. split_and!; try done.
    unfold getRemote, selectedAddrLocked. rewrite S2, S1, Hg. done.
  - intros ev. apply roam_exact. apply ok_run. by intros ?.
Qed.

(** ** Probe slots *)
Inductive slot_event := Enqueue (r : nat) | Slot | CloseSlots.

(** Who is answered at each event: [inl] a request that ran or was closed. *)
Inductive answer := Ran (r : nat) | Closed (r : nat) | Refused (r : nat) (e : enqueueError) | Ordinary | Quiet.

Definition slot_exec (ev : slot_event) (s : slots) : slots * answer :=
  match ev with
  | Enqueue r => let '(s, e) := enqueuePMTUProbe r s in (s, match e with Some e => Refused r e | None => Quiet end)
  | Slot => let '(s, r) := takePMTUProbe s in (s, match r with Some r => Ran r | None => Ordinary end)
  | CloseSlots => let '(s, r) := closeGeneratedProbes s in (s, match r with Some r => Closed r | None => Quiet end)
  end.
Fixpoint slot_run (evs : list slot_event) (s : slots) : slots * list answer :=
  match evs with
  | [] => (s, [])
  | ev :: evs => let '(s, a) := slot_exec ev s in let '(s, l) := slot_run evs s in (s, a :: l)
  end.

(** The answers given to request [r], and how often it was enqueued. *)
Definition answers (r : nat) (l : list answer) : nat :=
  length (List.filter (fun a => match a with Ran x | Closed x | Refused x _ => bool_decide (x = r) | _ => false end) l).
Definition enqueued (r : nat) (evs : list slot_event) : nat :=
  length (List.filter (fun ev => match ev with Enqueue x => bool_decide (x = r) | _ => false end) evs).
Definition waiting (r : nat) (s : slots) : nat := if bool_decide (pendingPMTU s = Some r) then 1 else 0.

(** The slots only: [true] for a padded probe. *)
Fixpoint padded (l : list answer) : list bool :=
  match l with
  | [] => []
  | Ran _ :: l => true :: padded l
  | Ordinary :: l => false :: padded l
  | _ :: l => padded l
  end.
Fixpoint alternates (due : bool) (l : list bool) : bool :=
  match l with
  | [] => true
  | b :: l => negb (due && b) && alternates b l
  end.

Lemma slot_run_balance r evs s :
  (answers r (snd (slot_run evs s)) + waiting r (fst (slot_run evs s)) = enqueued r evs + waiting r s)%nat /\
  alternates (ordinaryProbeDue s) (padded (snd (slot_run evs s))) = true /\
  (generatedProbeClosed s = true -> pendingPMTU s = None ->
     pendingPMTU (fst (slot_run evs s)) = None).
Proof.
  revert s. induction evs as [|ev evs IH]; intros s; [done|].
  assert (forall s' a, slot_exec ev s = (s', a) ->
    (answers r [a] + waiting r s' = enqueued r [ev] + waiting r s)%nat /\
    (forall l, alternates (ordinaryProbeDue s') (padded l) = true -> alternates (ordinaryProbeDue s) (padded (a :: l)) = true) /\
    (generatedProbeClosed s = true -> pendingPMTU s = None -> generatedProbeClosed s' = true /\ pendingPMTU s' = None)) as Hstep.
  { clear IH. intros s' a E. destruct s as [p c o]. destruct ev as [x| |]; cbn in E.
    - unfold enqueuePMTUProbe in E. cbn in E. destruct c; [|destruct p as [y|]]; injection E as <- <-;
        (split_and!; [|intros l Hl; cbn; exact Hl|done]); unfold answers, enqueued, waiting; cbn; repeat case_bool_decide; simplify_eq; done.
    - unfold takePMTUProbe in E. cbn in E. destruct o; [|destruct p as [y|]]; injection E as <- <-;
        (split_and!; [|intros l Hl; cbn; exact Hl|done]); unfold answers, enqueued, waiting; cbn; repeat case_bool_decide; simplify_eq; done.
    - destruct p as [y|]; injection E as <- <-;
        (split_and!; [|intros l Hl; cbn; exact Hl|done]); unfold answers, enqueued, waiting; cbn; repeat case_bool_decide; simplify_eq; done. }
  cbn [slot_run]. destruct (slot_exec ev s) as [s' a]. destruct (Hstep s' a eq_refl) as (H1 & H2 & H3).
  destruct (IH s') as (I1 & I2 & I3). destruct (slot_run evs s') as [s2 l]. cbn [fst snd] in *.
  split_and!.
  - change (a :: l) with ([a] ++ l). change (ev :: evs) with ([ev] ++ evs). unfold answers, enqueued in *.
    rewrite !List.filter_app, !length_app. lia.
  - by apply H2.
  - intros Hc Hp. destruct (H3 Hc Hp). by apply I3.
Qed.

(** Over any requests, slots and a close, every padded-probe request is
    answered exactly once (run in a slot, refused, or told the path is closed)
    or is the one still waiting; two slots in a row never both go to padded
    probes; a request that waits runs within two slots; and after the close
    nothing waits. *)
Theorem probe_slots_fair r evs :
  let '(s, l) := slot_run evs newSlots in
  (answers r l + waiting r s = enqueued r evs)%nat /\
  alternates false (padded l) = true /\
  (pendingPMTU s = Some r -> (Ran r) ∈ snd (slot_run [Slot; Slot] s)) /\
  (forall evs', pendingPMTU (fst (slot_run (CloseSlots :: evs') s)) = None).
Proof.
  destruct (slot_run_balance r evs newSlots) as (H1 & H2 & _). destruct (slot_run evs newSlots) as [s l]. cbn [fst snd] in *.
  split_and!.
  - assert (waiting r newSlots = 0%nat) as W by (unfold waiting; by rewrite bool_decide_eq_false_2). lia.
  - exact H2.
  - destruct s as [p c o]. cbn. intros ->. destruct o; cbn; set_solver.
  - intros evs'. cbn [slot_run slot_exec closeGeneratedProbes].
    set (s' := s <| generatedProbeClosed := true |> <| pendingPMTU := None |>).
    destruct (slot_run_balance r evs' s') as (_ & _ & H). specialize (H eq_refl eq_refl).
    by destruct (slot_run evs' s').
Qed.

(** ** A peer on two uplinks *)
Definition apW (b : Z) : AddrPort := netip.AddrPortFrom (netip.mkAddr [192; 0; 2; b] []) 4242.
Definition histW : list event := [Probed 1 (apW 1) 10; Probed 2 (apW 2) 11; Probed 1 (apW 7) (2 * second); Probed 2 (apW 2) (4 * second)].

Lemma remote_sticky_witness :
  getRemote (fst (run histW (newTable 0))) = Some (apW 7) /\
  exists g, getRemote (fst (exec (Cadence [2; 1] (5 * second)) (fst (run histW (newTable 0))))) = Some (addr g) /\ 4 * second <= lastProbe g.
Proof.
  pose proof (remote_sticky 0 histW (mkRemoteEntry (apW 7) (2 * second)) 1 (5 * second) [2; 1]) as H. cbv zeta in H.
  destruct H as (H1 & [_ H2] & _); [vm_compute; reflexivity..|]. split.
  - destruct (H1 [] eq_refl) as [_ H]. exact H.
  - destruct (H2 ltac:(vm_compute; discriminate) 2 (mkRemoteEntry (apW 2) (4 * second))) as (g & G1 & _ & G2).
    + apply list_elem_of_here.
    + vm_compute. reflexivity.
    + vm_compute. reflexivity.
    + exists g. split; [exact G1|exact G2].
Defined.

End remote_props.
