(* ===== verification/BindDemux.v ===== *)
(** * Which peer a datagram belongs to ([internal/bind/multipath.go])

    A concentrator's socket is shared by all its peers.  A source is bound to a
    peer by the first probe that verifies under that peer's key; from then on its
    datagrams go to that peer.  The table of bindings has a global cap and a
    quota per peer.

    A peer is its position in the bind's list of peers (0 is the embedded
    primary).  Every socket has a reader of its own, which takes no lock: it looks
    the source up, then, for a probe from a source that is not bound, publishes a
    new table with a compare-and-swap loop, and other readers run in between.  So
    the reader of a datagram is a small machine ([phase], [advance]) whose steps
    are the atomic operations of the code: the load of the table, the draw of a
    sequence number, the swap, and making the peer's receive state.  [order] is the
    order in which a map is visited.  A codec's buffers do not influence what it
    decodes ([decode_buffers]), so a view keeps its codec as built. *)

From stdpp Require Import base tactics list numbers gmap sets.
From S2P Require Import Prelude Sha256 Frame Netip.

Module demux.

#[export] Instance AddrPort_countable : Countable AddrPort.
Proof.
  refine (inj_countable' (fun a => (ap_addr a, ap_zone a, ap_port a)) (fun '(x, y, z) => mkAddrPort x y z) _).
  by intros [].
Defined.

Definition defaultMaxDemuxSources : Z := 1024.

Record sourceBinding := mkBinding { bpeer : nat; bseq : Z }.
#[export] Instance sourceBinding_eq : EqDecision sourceBinding.
Proof. solve_decision. Defined.

(** The part of [Multipath] the demultiplexing reads and writes; [peersView] is
    the number of peers published, [instantiated] the peers with a resequencer. *)
Record state := mkState {
  peerBySource : gmap AddrPort sourceBinding;
  bindSeq : Z;
  maxDemuxSources : Z;
  peersView : nat;
  instantiated : gset nat
}.
#[export] Instance eta_state : Eta state := fun d =>
  mkState (peerBySource d) (bindSeq d) (maxDemuxSources d) (peersView d) (instantiated d).

Definition lookupPeerBySource (src : AddrPort) (d : state) : option nat := bpeer <$> peerBySource d !! src.

Definition perPeerQuota (d : state) : Z :=
  let numPeers := if (1 <? peersView d)%nat then Z.of_nat (peersView d) else 1 in
  let quota := Z.quot (maxDemuxSources d) numPeers in
  if quota <? 1 then 1 else quota.

(** The loop over the table: how many bindings the peer has, and its oldest. *)
Fixpoint own_loop (p : nat) (m : gmap AddrPort sourceBinding) (countP oldestSeq : Z) (evictKey : AddrPort)
    (order : list AddrPort) : Z * AddrPort :=
  match order with
  | [] => (countP, evictKey)
  | k :: order =>
      match m !! k with
      | None => own_loop p m countP oldestSeq evictKey order
      | Some b =>
          if negb (bpeer b =? p)%nat then own_loop p m countP oldestSeq evictKey order
          else if (countP =? 0) || (bseq b <? oldestSeq)
          then own_loop p m (countP + 1) (bseq b) k order
          else own_loop p m (countP + 1) oldestSeq evictKey order
      end
  end.

(** One turn of the loop of [bindSourceToPeer], from the table it loads to the
    copy it would publish without the new entry, or the result it returns. *)
Inductive attempt :=
  | Return (bound : bool)
  | Publish (next : gmap AddrPort sourceBinding).

Definition bindSourceToPeer (order : list AddrPort) (src : AddrPort) (p : nat) (d : state) : attempt :=
  let old := peerBySource d in
  if bool_decide (lookupPeerBySource src d = Some p) then Return true
  else
    let present := bool_decide (is_Some (old !! src)) in
    let n := Z.of_nat (size old) in
    if negb present && (0 <? maxDemuxSources d) then
      let '(countP, evictKey) := own_loop p old 0 0 AddrPort0 order in
      if perPeerQuota d <=? countP then Publish (delete evictKey old)
      else if maxDemuxSources d <=? n then Return false
      else Publish old
    else Publish old.

Definition unbindPeerSources (p : nat) (d : state) : state :=
  d <| peerBySource := filter (fun x => bpeer (snd x) <> p) (peerBySource d) |>.

(** [live] says which peers have a path that is up. *)
Definition teardownPeerLocked (live : nat -> bool) (p : nat) (d : state) : state * bool :=
  if (p =? 0)%nat then (d, false)
  else if live p then (d, false)
  else (d <| instantiated := instantiated d ∖ {[ p ]} |>, true).

(** [TearDownPeer] of a peer that is registered, at once. *)
Definition TearDownPeer (live : nat -> bool) (p : nat) (d : state) : state * bool :=
  let '(d, tornDown) := teardownPeerLocked live p d in
  (if tornDown then unbindPeerSources p d else d, tornDown).

Definition ensurePeerReceiveInstantiated (p : nat) (d : state) : state :=
  d <| instantiated := instantiated d ∪ {[ p ]} |>.

Section Demux.
Context {C : Cipher}.

Record view := mkView { vpeer : nat; vcodec : frame.Codec }.

Definition decode (raw : list Z) (v : view) : option frame.Frame :=
  match snd (frame.Decode raw (vcodec v)) with Ok f => Some f | _ => None end.

(** The view and the frame dispatched to it; [None] is a drop. *)
Definition handleInbound (v : view) (raw : list Z) : option (nat * frame.Frame) :=
  (fun f => (vpeer v, f)) <$> decode raw v.

(** The first view under whose key the datagram is a probe. *)
Fixpoint trial (raw : list Z) (views : list view) : option (view * frame.Frame) :=
  match views with
  | [] => None
  | v :: views =>
      match decode raw v with
      | Some (frame.FProbe p) => Some (v, frame.FProbe p)
      | _ => trial raw views
      end
  end.

(** [demuxInbound] up to the call of [bindSourceToPeer]: the datagram is handled
    ([None] is a drop), or its source is to be bound to the peer of a view. *)
Inductive routed :=
  | Handled (out : option (nat * frame.Frame))
  | Binding (v : view) (f : frame.Frame).

Definition demuxInbound (own : view) (views : list view) (raw : list Z) (src : AddrPort) (d : state) : routed :=
  if (length views <=? 1)%nat then Handled (handleInbound own raw)
  else match (match lookupPeerBySource src d with
              | Some bound => List.find (fun v => (vpeer v =? bound)%nat) views
              | None => None
              end) with
       | Some v => Handled (handleInbound v raw)
       | None => match trial raw views with Some (v, f) => Binding v f | None => Handled None end
       end.

(** The rest of [demuxInbound].  The swap compares the address of the table the
    reader loaded; tables are immutable and a reader keeps its own alive, so a
    table is told by the number of tables published before it, [version]. *)
Inductive phase :=
  | PLoad
  | PDraw (version : nat) (next : gmap AddrPort sourceBinding)
  | PSwap (version : nat) (next : gmap AddrPort sourceBinding) (seq : Z)
  | PBound.
Record task := mkTask { tview : view; tframe : frame.Frame; traw : list Z; tsrc : AddrPort; tphase : phase }.

(** All readers over the shared table; [published] counts the tables. *)
Record world := mkWorld { demuxer : state; published : nat; tasks : gmap nat task }.
#[export] Instance eta_task : Eta task := fun t => mkTask (tview t) (tframe t) (traw t) (tsrc t) (tphase t).

Definition advance (order : list AddrPort) (t : task) (w : world) : state * nat * (task + option (nat * frame.Frame)) :=
  let d := demuxer w in
  let goto (x : phase) := inl (t <| tphase := x |>) in
  match tphase t with
  | PLoad =>
      match bindSourceToPeer order (tsrc t) (vpeer (tview t)) d with
      | Return true => (d, published w, goto PBound)
      | Return false => (d, published w, inr None)
      | Publish next => (d, published w, goto (PDraw (published w) next))
      end
  | PDraw version next =>
      let seq := u64 (bindSeq d + 1) in
      (d <| bindSeq := seq |>, published w, goto (PSwap version next seq))
  | PSwap version next seq =>
      if (version =? published w)%nat
      then (d <| peerBySource := <[tsrc t := mkBinding (vpeer (tview t)) seq]> next |>, S (published w), goto PBound)
      else (d, published w, goto PLoad)
  | PBound =>
      (ensurePeerReceiveInstantiated (vpeer (tview t)) d, published w, inr (Some (vpeer (tview t), tframe t)))
  end.

(** What happens: the reader of socket [i] is given a datagram (its own view, the
    views of the socket, the bytes, the source), takes its next step, and the two
    steps of a teardown.  A reader is given a datagram only when it is done with
    the one before. *)
Inductive event :=
  | Read (i : nat) (own : view) (views : list view) (raw : list Z) (src : AddrPort)
  | Advance (i : nat)
  | TearLocked (live : nat -> bool) (p : nat)
  | Unbind (p : nat).

Definition step (iter : gmap AddrPort sourceBinding -> list AddrPort) (w : world) (e : event) : world * option (nat * frame.Frame) :=
  match e with
  | Read i own views raw src =>
      if bool_decide (is_Some (tasks w !! i)) then (w, None)
      else match demuxInbound own views raw src (demuxer w) with
           | Handled out => (w, out)
           | Binding v f => (mkWorld (demuxer w) (published w) (<[i := mkTask v f raw src PLoad]> (tasks w)), None)
           end
  | Advance i =>
      match tasks w !! i with
      | None => (w, None)
      | Some t =>
          let '(d, k, r) := advance (iter (peerBySource (demuxer w))) t w in
          match r with
          | inl t' => (mkWorld d k (<[i := t']> (tasks w)), None)
          | inr out => (mkWorld d k (delete i (tasks w)), out)
          end
      end
  | TearLocked live p => (mkWorld (fst (teardownPeerLocked live p (demuxer w))) (published w) (tasks w), None)
  | Unbind p =>
      let d := unbindPeerSources p (demuxer w) in
      let changed := bool_decide (peerBySource d <> peerBySource (demuxer w)) in
      (mkWorld d (if changed then S (published w) else published w) (tasks w), None)
  end.
End Demux.

Definition newState (peers : nat) (max : Z) : state :=
  mkState ∅ 0 max peers (list_to_set (List.seq 0 peers)).
Definition newWorld (peers : nat) (max : Z) : world := mkWorld (newState peers max) 0 ∅.

End demux.
