(* ===== verification/BindDemuxProps.v ===== *)
(** * The demultiplexer: authenticity and isolation of peers *)

From stdpp Require Import base tactics list numbers gmap sets.
From S2P Require Import Prelude Sha256 Frame FrameProps Netip BindDemux.

Module demux_props.
Import demux.

(** What a codec decodes does not depend on its buffers. *)
Lemma decode_buffers {C : Cipher} raw o a e s e' s' :
  snd (frame.Decode raw (frame.mkCodec o a e s)) = snd (frame.Decode raw (frame.mkCodec o a e' s')).
Proof.
  unfold frame.Decode. cbn [frame.obfKey frame.authKey].
  destruct (length raw <? frame.nonceLen + 1)%nat; [done|].
  destruct (NewUnauthenticatedCipher _ _) as [ks|]; [|done].
  destruct (frame.XORKeyStream _ _) as [cipher kindByte]. destruct (negb (frame.valid _)); [done|].
  destruct (_ <? _)%nat; [done|]. destruct (negb _); done.
Qed.

(** ** The loop over the table *)
Definition owns (p : nat) (m : gmap AddrPort sourceBinding) (k : AddrPort) : bool :=
  match m !! k with Some b => (bpeer b =? p)%nat | None => false end.
Definition count (p : nat) (m : gmap AddrPort sourceBinding) : Z :=
  Z.of_nat (size (filter (fun x : AddrPort * sourceBinding => bpeer (snd x) = p) m)).
Definition lists (order : list AddrPort) (m : gmap AddrPort sourceBinding) : Prop :=
  NoDup order /\ forall k, k ∈ order <-> is_Some (m !! k).

Lemma owns_filter p m order : lists order m ->
  Z.of_nat (length (List.filter (owns p m) order)) = count p m.
Proof.
  intros [Hn Hk]. unfold count. f_equal. rewrite <- size_dom.
  rewrite <- (size_list_to_set (C := gset AddrPort)).
  - f_equal. apply set_eq. intros k. rewrite elem_of_list_to_set, list_elem_of_In, List.filter_In, <- list_elem_of_In.
    rewrite elem_of_dom. unfold owns. rewrite Hk. split.
    + intros [[b Hb] Ho]. rewrite Hb in Ho. exists b. apply map_lookup_filter_Some. split; [done|]. cbn. by apply Nat.eqb_eq.
    + intros [b [Hb Ho]%map_lookup_filter_Some]. rewrite Hb. split; [done|]. cbn in Ho. by apply Nat.eqb_eq.
  - apply NoDup_ListNoDup, List.NoDup_filter. by apply NoDup_ListNoDup.
Qed.

Lemma own_loop_count p m c o k order :
  fst (own_loop p m c o k order) = c + Z.of_nat (length (List.filter (owns p m) order)).
Proof.
  revert c o k. induction order as [|x order IH]; intros c o k; cbn [own_loop List.filter]; [cbn; lia|].
  unfold owns at 1. destruct (m !! x) as [b|]; [|apply IH]. destruct (bpeer b =? p)%nat; cbn [negb]; [|apply IH].
  destruct (_ || _); rewrite IH; cbn [length]; lia.
Qed.

(** The key found is the peer's oldest. *)
Lemma own_loop_oldest p m c o k order :
  0 <= c -> (0 < c -> exists b, m !! k = Some b /\ bpeer b = p /\ bseq b = o) ->
  0 < c + Z.of_nat (length (List.filter (owns p m) order)) ->
  exists b, m !! snd (own_loop p m c o k order) = Some b /\ bpeer b = p /\ (0 < c -> bseq b <= o) /\
    forall j f, j ∈ order -> m !! j = Some f -> bpeer f = p -> bseq b <= bseq f.
Proof.
  revert c o k. induction order as [|x order IH]; intros c o k Hc Hk Hp; cbn [own_loop List.filter] in *.
  - cbn in *. destruct (Hk ltac:(lia)) as (b & Hb & Hbp & <-). exists b. split_and!; try done. by intros ? ? ?%elem_of_nil.
  - unfold owns at 1 in Hp. destruct (m !! x) as [b|] eqn:E.
    2: { destruct (IH c o k Hc Hk Hp) as (f & H1 & H2 & H3 & H4). exists f. split_and!; try done.
         intros j g [-> |Hj]%elem_of_cons; [congruence|eauto]. }
    destruct (Nat.eqb_spec (bpeer b) p) as [Eb|Eb]; cbn [negb].
    2: { destruct (IH c o k Hc Hk Hp) as (f & H1 & H2 & H3 & H4). exists f. split_and!; try done.
         intros j g [-> |Hj]%elem_of_cons; [|eauto]. intros Hg. rewrite E in Hg. by injection Hg as <-. }
    cbn [length] in Hp. destruct ((c =? 0) || (bseq b <? o)) eqn:D.
    + destruct (IH (c + 1) (bseq b) x ltac:(lia)) as (f & H1 & H2 & H3 & H4); [by exists b|lia|].
      specialize (H3 ltac:(lia)). exists f. split_and!; try done.
      * intros ?. apply orb_true_iff in D as [D|D]; lia.
      * intros j g [-> |Hj]%elem_of_cons; [|eauto]. intros Hg. rewrite E in Hg. injection Hg as <-. done.
    + apply orb_false_iff in D as [D1 D2].
      destruct (IH (c + 1) o k ltac:(lia)) as (f & H1 & H2 & H3 & H4); [intros _; apply Hk; lia|lia|].
      specialize (H3 ltac:(lia)). exists f. split_and!; try done.
      intros j g [-> |Hj]%elem_of_cons; [|eauto]. intros Hg. rewrite E in Hg. injection Hg as <-. lia.
Qed.

(** ** Counting *)
Lemma count_insert_new p q k s m : m !! k = None ->
  count p (<[k := mkBinding q s]> m) = count p m + (if (q =? p)%nat then 1 else 0).
Proof.
  intros Hk. unfold count. destruct (Nat.eqb_spec q p) as [-> |Hq].
  - rewrite map_filter_insert_True by done. rewrite map_size_insert_None; [lia|]. apply map_lookup_filter_None. by left.
  - rewrite map_filter_insert_False by done. rewrite delete_id by done. lia.
Qed.

Lemma count_delete p k b m : m !! k = Some b ->
  count p (delete k m) = count p m - (if (bpeer b =? p)%nat then 1 else 0).
Proof.
  intros Hk. unfold count. rewrite map_filter_delete. destruct (Nat.eqb_spec (bpeer b) p) as [Hb|Hb].
  - rewrite map_size_delete_Some; [|exists b; by apply map_lookup_filter_Some].
    assert (0 < size (filter (fun x : AddrPort * sourceBinding => bpeer (snd x) = p) m))%nat; [|lia].
    apply Nat.neq_0_lt_0. intros F%map_size_empty_inv. assert (filter (fun x : AddrPort * sourceBinding => bpeer (snd x) = p) m !! k = Some b) as G
      by (by apply map_lookup_filter_Some). rewrite F in G. done.
  - rewrite delete_id; [lia|]. apply map_lookup_filter_None. right. intros x Hx. rewrite Hk in Hx. by injection Hx as <-.
Qed.

Lemma count_nonneg p m : 0 <= count p m.
Proof. unfold count. lia. Qed.

Fixpoint total (n : nat) (m : gmap AddrPort sourceBinding) : Z :=
  match n with O => 0 | S n => count n m + total n m end.

Lemma total_insert n q k s m : m !! k = None ->
  total n (<[k := mkBinding q s]> m) = total n m + (if (q <? n)%nat then 1 else 0).
Proof.
  intros Hk. induction n as [|n IH]; cbn [total]; [done|]. rewrite IH, count_insert_new by done.
  destruct (Nat.eqb_spec q n), (Nat.ltb_spec q n), (Nat.ltb_spec q (S n)); lia.
Qed.

(** The peers' shares add up to the table. *)
Lemma total_size n m : map_Forall (fun _ b => (bpeer b < n)%nat) m -> total n m = Z.of_nat (size m).
Proof.
  induction m as [|k [q s] m Hk IH] using map_ind; intros H.
  - rewrite map_size_empty. clear H. induction n as [|n IH]; cbn [total]; [done|]. rewrite IH. unfold count.
    rewrite map_filter_empty, map_size_empty. done.
  - apply map_Forall_insert in H as [Hq H]; [|done]. cbn in Hq. rewrite total_insert, IH, map_size_insert_None by done.
    destruct (Nat.ltb_spec q n); lia.
Qed.

Lemma total_le n m c : (forall p, (p < n)%nat -> count p m <= c) -> total n m <= Z.of_nat n * c.
Proof.
  induction n as [|n IH]; intros H; cbn [total]; [lia|]. specialize (IH ltac:(intros; apply H; lia)).
  specialize (H n ltac:(lia)). lia.
Qed.

Lemma total_lt n m c p : (p < n)%nat -> count p m < c -> (forall p, (p < n)%nat -> count p m <= c) ->
  total n m < Z.of_nat n * c.
Proof.
  induction n as [|n IH]; intros Hp Hc H; [lia|]. cbn [total]. destruct (Nat.eq_dec p n) as [-> |].
  - pose proof (total_le n m c ltac:(intros; apply H; lia)). lia.
  - specialize (IH ltac:(lia) Hc ltac:(intros; apply H; lia)). specialize (H n ltac:(lia)). lia.
Qed.

(** ** Histories *)
Definition fair (iter : gmap AddrPort sourceBinding -> list AddrPort) : Prop :=
  forall m, lists (iter m) m.

Lemma quota_pos d : 1 <= perPeerQuota d.
Proof. unfold perPeerQuota. destruct (_ <? 1) eqn:E; lia. Qed.

Lemma quota_total d n : peersView d = n -> (1 < n)%nat -> Z.of_nat n <= maxDemuxSources d ->
  Z.of_nat n * perPeerQuota d <= maxDemuxSources d.
Proof.
  intros <- H1 H2. unfold perPeerQuota. rewrite (proj2 (Nat.ltb_lt _ _) H1).
  rewrite Z.quot_div_nonneg by lia.
  assert (1 <= maxDemuxSources d `div` Z.of_nat (peersView d)) by (apply Z.div_le_lower_bound; lia).
  destruct (Z.ltb_spec (maxDemuxSources d `div` Z.of_nat (peersView d)) 1); [lia|].
  apply Z.mul_div_le. lia.
Qed.
Definition oldest (p : nat) (b : sourceBinding) (m : gmap AddrPort sourceBinding) : Prop :=
  bpeer b = p /\ forall j c, m !! j = Some c -> bpeer c = p -> bseq b <= bseq c.

(** The copy of the table [m] a bind of [src] to [p] starts from: [m] when the
    source is bound to another peer, or is new and there is room; else [m] without
    the oldest source of [p], which is at its quota. *)
Inductive copy (src : AddrPort) (p : nat) (cap quota : Z) (m : gmap AddrPort sourceBinding)
    : gmap AddrPort sourceBinding -> Prop :=
  | copy_repoint b : m !! src = Some b -> bpeer b <> p -> copy src p cap quota m m
  | copy_room : m !! src = None -> Z.of_nat (size m) < cap -> count p m < quota -> copy src p cap quota m m
  | copy_evict k b : m !! src = None -> m !! k = Some b -> oldest p b m -> quota <= count p m ->
      copy src p cap quota m (delete k m).

(** One turn of the loop: refused only when the table is full and the peer is
    below its quota. *)
Lemma bind_spec iter src p d : fair iter -> 0 < maxDemuxSources d ->
  match bindSourceToPeer (iter (peerBySource d)) src p d with
  | Return true => lookupPeerBySource src d = Some p
  | Return false => peerBySource d !! src = None /\ maxDemuxSources d <= Z.of_nat (size (peerBySource d)) /\
                    count p (peerBySource d) < perPeerQuota d
  | Publish next => copy src p (maxDemuxSources d) (perPeerQuota d) (peerBySource d) next
  end.
Proof.
  intros Hf Hcap. unfold bindSourceToPeer. destruct (bool_decide_reflect (lookupPeerBySource src d = Some p)) as [E|E]; [done|].
  unfold lookupPeerBySource in E. destruct (peerBySource d !! src) as [b|] eqn:Hs.
  { rewrite (bool_decide_eq_true_2 (is_Some _)) by done. cbn [negb andb]. apply copy_repoint with b; [done|]. intros <-. done. }
  rewrite (bool_decide_eq_false_2 (is_Some _)) by (by intros [? ?]).
  rewrite (proj2 (Z.ltb_lt _ _) Hcap). cbn [negb andb]. pose proof (Hf (peerBySource d)) as Hl. pose proof Hl as [_ Hel].
  pose proof (own_loop_count p (peerBySource d) 0 0 AddrPort0 (iter (peerBySource d))) as Hc.
  pose proof (own_loop_oldest p (peerBySource d) 0 0 AddrPort0 (iter (peerBySource d))) as Ho.
  rewrite owns_filter in Hc, Ho by done. destruct (own_loop _ _ _ _ _ _) as [countP evictKey].
  cbn [fst snd] in Hc, Ho. rewrite Z.add_0_l in Hc, Ho. subst countP. pose proof (quota_pos d) as Hq1.
  destruct (Z.leb_spec (perPeerQuota d) (count p (peerBySource d))) as [Q|Q].
  - destruct (Ho ltac:(lia) ltac:(lia) ltac:(lia)) as (b & Hb & Hbp & _ & Hmin). apply copy_evict with b; try done.
    split; [done|]. intros j c Hj. eapply Hmin; [|done]. apply Hel. by eexists.
  - destruct (Z.leb_spec (maxDemuxSources d) (Z.of_nat (size (peerBySource d)))); [done|]. by apply copy_room.
Qed.

Lemma copy_sub src p cap quota m next k b : copy src p cap quota m next -> next !! k = Some b -> m !! k = Some b.
Proof. destruct 1; intros; try done. by apply lookup_delete_Some in H3 as [_ ?]. Qed.

(** A table that [n] peers share under [cap], with the numbers drawn so far. *)
Record sound (n : nat) (cap drawn : Z) (m : gmap AddrPort sourceBinding) : Prop := mkSound {
  so_size : Z.of_nat (size m) <= cap;
  so_known : map_Forall (fun _ b => (bpeer b < n)%nat) m;
  so_seq : map_Forall (fun _ b => bseq b <= drawn) m;
  so_inj : forall j k b c, m !! j = Some b -> m !! k = Some c -> bseq b = bseq c -> j = k
}.

Lemma sound_swap n cap quota drawn src p m next s : sound n cap drawn m -> copy src p cap quota m next ->
  (p < n)%nat -> 0 < cap -> s <= drawn -> map_Forall (fun _ b => bseq b < s) m ->
  sound n cap drawn (<[src := mkBinding p s]> next).
Proof.
  intros [H1 H2 H3 H4] Hc Hp Hcap Hs Hm. 
  assert (forall k b, next !! k = Some b -> m !! k = Some b) as Sub by (intros k b; by apply (copy_sub src p cap quota)). split.
  - destruct Hc as [b Hb _|Hn ? _|k b Hn Hk _ _].
    + rewrite map_size_insert_Some by done. done.
    + rewrite map_size_insert_None by done. lia.
    + rewrite map_size_insert_None by (apply lookup_delete_None; by right). rewrite map_size_delete_Some by done.
      assert (size m <> 0%nat) by (intros ->%map_size_empty_inv; done). lia.
  - apply map_Forall_insert_2; [done|]. intros k b Hk. eapply H2, Sub; eauto.
  - apply map_Forall_insert_2; [done|]. intros k b Hk. eapply H3, Sub; eauto.
  - intros j k b c Hj Hk E. apply lookup_insert_Some in Hj as [[<- <-]|[Nj Hj]];
      apply lookup_insert_Some in Hk as [[<- <-]|[Nk Hk]]; try done; cbn in E.
    + pose proof (Hm _ _ (Sub _ _ Hk)) as F. cbn in F. lia.
    + pose proof (Hm _ _ (Sub _ _ Hj)) as F. cbn in F. lia.
    + eapply H4; eauto.
Qed.

Lemma sound_filter n cap drawn m (P : AddrPort * sourceBinding -> Prop) `{!forall x, Decision (P x)} :
  sound n cap drawn m -> sound n cap drawn (filter P m).
Proof.
  intros [H1 H2 H3 H4]. split.
  - etrans; [|exact H1]. apply Nat2Z.inj_le, map_subseteq_size, map_filter_subseteq.
  - intros k b [Hk _]%map_lookup_filter_Some. exact (H2 k b Hk).
  - intros k b [Hk _]%map_lookup_filter_Some. exact (H3 k b Hk).
  - intros j k b c [Hj _]%map_lookup_filter_Some [Hk _]%map_lookup_filter_Some. by eapply H4.
Qed.

Lemma sound_drawn n cap drawn drawn' m : sound n cap drawn m -> drawn <= drawn' -> sound n cap drawn' m.
Proof. intros [H1 H2 H3 H4] Hd. split; try done. intros k b Hk. specialize (H3 k b Hk). cbn in *. lia. Qed.

Section Histories.
Context {C : Cipher} (iter : gmap AddrPort sourceBinding -> list AddrPort) (n : nat) (cap : Z).

(** Every socket of a concentrator carries a view of each peer. *)
Definition shared (e : event) : Prop :=
  match e with Read _ _ views _ _ => vpeer <$> views = List.seq 0 n | _ => True end.

Definition run (es : list event) : world := fold_left (fun w e => fst (step iter w e)) es (newWorld n cap).

Lemma run_snoc es e : run (es ++ [e]) = fst (step iter (run es) e).
Proof. unfold run. by rewrite fold_left_app. Qed.

(** No datagram is read while another from the same source is in flight. *)
Definition uncontended (es : list event) : Prop :=
  forall pre i own views raw src post, es = pre ++ Read i own views raw src :: post ->
    map_Forall (fun _ t => tsrc t <> src) (tasks (run pre)).

Lemma uncontended_prefix es e : uncontended (es ++ [e]) -> uncontended es.
Proof. intros H pre i own views raw src post ->. eapply (H pre i own views raw src (post ++ [e])). by rewrite <- app_assoc. Qed.

Lemma trial_sound raw views v f : trial raw views = Some (v, f) ->
  v ∈ views /\ decode raw v = Some f /\ exists pr, f = frame.FProbe pr.
Proof.
  induction views as [|x views IH]; cbn [trial]; [done|].
  destruct (decode raw x) as [[pr|c]|] eqn:E; intros H.
  - injection H as -> <-. split; [apply list_elem_of_here|]. eauto.
  - destruct (IH H) as (? & ? & ?). split; [by apply list_elem_of_further|]. done.
  - destruct (IH H) as (? & ? & ?). split; [by apply list_elem_of_further|]. done.
Qed.

Lemma find_view views p : vpeer <$> views = List.seq 0 n -> (p < n)%nat ->
  exists v, List.find (fun v => (vpeer v =? p)%nat) views = Some v /\ v ∈ views /\ vpeer v = p.
Proof.
  intros Hv Hp. destruct (List.find _ views) as [v|] eqn:E.
  - apply List.find_some in E as [Hi E%Nat.eqb_eq]. exists v. split_and!; try done. by apply list_elem_of_In.
  - exfalso. assert (p ∈ vpeer <$> views) as Hin.
    { rewrite Hv. apply list_elem_of_In, List.in_seq. lia. }
    apply list_elem_of_fmap in Hin as (v & -> & Hin). apply list_elem_of_In in Hin.
    pose proof (List.find_none _ _ E v Hin) as F. cbn in F. rewrite Nat.eqb_refl in F. done.
Qed.

Lemma view_peer views v : vpeer <$> views = List.seq 0 n -> v ∈ views -> (vpeer v < n)%nat.
Proof.
  intros Hv Hin. assert (vpeer v ∈ vpeer <$> views) as Hi by (apply list_elem_of_fmap; eauto).
  rewrite Hv in Hi. apply list_elem_of_In, List.in_seq in Hi. lia.
Qed.

(** ** Readers in flight

    A reader's datagram verified under the key of the peer it binds to.  What it
    copied is right as long as no table was published since. *)
Definition phase_ok (quota : Z) (t : task) (m : gmap AddrPort sourceBinding) (k : nat) (drawn : Z) : Prop :=
  let p := vpeer (tview t) in
  match tphase t with
  | PDraw v next => (v <= k)%nat /\ (v = k -> copy (tsrc t) p cap quota m next)
  | PSwap v next s => (v <= k)%nat /\ s <= drawn /\
      (v = k -> copy (tsrc t) p cap quota m next /\ map_Forall (fun _ b => bseq b < s) m)
  | _ => True
  end.

Definition given (hist : list event) (i : nat) (t : task) : Prop :=
  (vpeer (tview t) < n)%nat /\ decode (traw t) (tview t) = Some (tframe t) /\ (exists pr, tframe t = frame.FProbe pr) /\
  exists own views, Read i own views (traw t) (tsrc t) ∈ hist /\ tview t ∈ views.

Record winv (hist : list event) (w : world) : Prop := mkWinv {
  wi_cap : maxDemuxSources (demuxer w) = cap;
  wi_peers : peersView (demuxer w) = n;
  wi_drawn : 0 <= bindSeq (demuxer w) <= Z.of_nat (length hist);
  wi_table : sound n cap (bindSeq (demuxer w)) (peerBySource (demuxer w));
  wi_tasks : map_Forall (fun i t => given hist i t /\
    phase_ok (perPeerQuota (demuxer w)) t (peerBySource (demuxer w)) (published w) (bindSeq (demuxer w))) (tasks w)
}.

Lemma phase_ok_mono quota t m k s m' k' s' :
  phase_ok quota t m k s -> (k <= k')%nat -> s <= s' -> (k = k' -> m = m') -> phase_ok quota t m' k' s'.
Proof.
  unfold phase_ok. intros H Hk Hs Hm. destruct (tphase t) as [|v nx|v nx sq|]; try done.
  - destruct H as [H1 H2]. split; [lia|]. intros ->. rewrite <- Hm by lia. apply H2. lia.
  - destruct H as (H1 & H2 & H3). split_and!; [lia|lia|]. intros ->. rewrite <- Hm by lia. apply H3. lia.
Qed.

Lemma given_more hist e i t : given hist i t -> given (hist ++ [e]) i t.
Proof. intros (H1 & H2 & H3 & own & views & H4 & H5). split_and!; try done. exists own, views. split; [|done]. apply elem_of_app. by left. Qed.

(** The other readers after a step. *)
Lemma tasks_more hist e w d k T :
  winv hist w -> (published w <= k)%nat -> bindSeq (demuxer w) <= bindSeq d -> perPeerQuota d = perPeerQuota (demuxer w) ->
  (published w = k -> peerBySource (demuxer w) = peerBySource d) -> T ⊆ tasks w ->
  map_Forall (fun i t => given (hist ++ [e]) i t /\ phase_ok (perPeerQuota d) t (peerBySource d) k (bindSeq d)) T.
Proof.
  intros I Hk Hs Hq Hm HT i t Ht. destruct (wi_tasks _ _ I i t) as [G P]; [by eapply lookup_weaken|].
  split; [by apply given_more|]. rewrite Hq. by eapply phase_ok_mono.
Qed.

Lemma winv_new : 0 < cap -> winv [] (newWorld n cap).
Proof.
  intros Hc. split; cbn; try done. split; try done. rewrite map_size_empty. lia.
Qed.

Lemma update_task hist w d k i t t' e :
  tasks w !! i = Some t -> winv hist w -> (published w <= k)%nat -> bindSeq (demuxer w) <= bindSeq d ->
  perPeerQuota d = perPeerQuota (demuxer w) -> (published w = k -> peerBySource (demuxer w) = peerBySource d) ->
  tview t' = tview t -> tframe t' = tframe t -> traw t' = traw t -> tsrc t' = tsrc t ->
  phase_ok (perPeerQuota d) t' (peerBySource d) k (bindSeq d) ->
  map_Forall (fun i t => given (hist ++ [e]) i t /\ phase_ok (perPeerQuota d) t (peerBySource d) k (bindSeq d))
    (<[i := t']> (tasks w)).
Proof.
  intros Ht I Hk Hs Hq Hm E1 E2 E3 E4 P. apply map_Forall_insert_2.
  - split; [|done]. destruct (wi_tasks _ _ I i t Ht) as [G _]. apply given_more. unfold given. by rewrite E1, E2, E3, E4.
  - by eapply tasks_more.
Qed.

Context (Hfair : fair iter) (Hn : (1 < n)%nat) (Hcap : 0 < cap).

Lemma advance_inv hist e w i t : winv hist w -> tasks w !! i = Some t -> Z.of_nat (length hist) + 1 < 2 ^ 64 ->
  let '(d, k, r) := advance (iter (peerBySource (demuxer w))) t w in
  winv (hist ++ [e]) (mkWorld d k (match r with inl t' => <[i := t']> (tasks w) | inr _ => delete i (tasks w) end)).
Proof.
  intros I Ht Hlen. pose proof I as [H1 H2 H3 H4 H5]. destruct (H5 i t Ht) as [(Hp & G) P]. unfold advance.
  assert (Z.of_nat (length (hist ++ [e])) = Z.of_nat (length hist) + 1) as Hl by (rewrite length_app; cbn; lia).
  unfold phase_ok in P. destruct (tphase t) as [|v nx|v nx sq|] eqn:Ep.
  - pose proof (bind_spec iter (tsrc t) (vpeer (tview t)) (demuxer w) Hfair ltac:(lia)) as B.
    destruct (bindSourceToPeer _ _ _ _) as [[]|nx].
    + split; cbn [demuxer published tasks]; rewrite ?Hl; try done; [lia|]. by apply update_task with t.
    + split; cbn [demuxer published tasks]; rewrite ?Hl; try done; [lia|]. apply tasks_more with w; try done. apply delete_subseteq.
    + split; cbn [demuxer published tasks]; rewrite ?Hl; try done; [lia|]. apply update_task with t; try done.
      cbn [phase_ok tphase update]. split; [done|]. intros _. rewrite H1 in B. exact B.
  - assert (u64 (bindSeq (demuxer w) + 1) = bindSeq (demuxer w) + 1) as -> by (apply u64_small; lia).
    destruct P as [P1 P2]. split; cbn [demuxer published tasks bindSeq peerBySource maxDemuxSources peersView update]; rewrite ?Hl; try done; [lia| |].
    + eapply sound_drawn; [exact H4|lia].
    + apply (update_task hist w (mkState (peerBySource (demuxer w)) (bindSeq (demuxer w) + 1) (maxDemuxSources (demuxer w))
        (peersView (demuxer w)) (instantiated (demuxer w))) (published w) i t); try done; cbn; [lia|].
      split_and!; [done|lia|]. intros E. split; [by apply P2|]. intros k b Hk. pose proof (so_seq _ _ _ _ H4 k b Hk) as F. cbn in F. lia.
  - destruct P as (P1 & P2 & P3). destruct (Nat.eqb_spec v (published w)) as [->|N].
    + destruct (P3 eq_refl) as [P4 P5].
      split; cbn [demuxer published tasks bindSeq peerBySource maxDemuxSources peersView update]; rewrite ?Hl; try done; [lia| |].
      * by eapply sound_swap.
      * refine (update_task hist w (mkState (<[tsrc t := mkBinding (vpeer (tview t)) sq]> nx) (bindSeq (demuxer w)) (maxDemuxSources (demuxer w))
          (peersView (demuxer w)) (instantiated (demuxer w))) (S (published w)) i t (mkTask (tview t) (tframe t) (traw t) (tsrc t) PBound) e _ _ _ _ _ _ _ _ _ _ _); try done; cbn; lia.
    + split; cbn [demuxer published tasks]; rewrite ?Hl; try done; [lia|]. by apply update_task with t.
  - split; cbn [demuxer published tasks]; rewrite ?Hl; try done; [cbn; lia|].
    apply (tasks_more hist e w (ensurePeerReceiveInstantiated (vpeer (tview t)) (demuxer w))); try done. apply delete_subseteq.
Qed.

Lemma step_inv hist e w : winv hist w -> shared e -> Z.of_nat (length hist) + 1 < 2 ^ 64 ->
  winv (hist ++ [e]) (fst (step iter w e)).
Proof.
  intros I Hs Hlen. pose proof I as [H1 H2 H3 H4 H5].
  assert (Z.of_nat (length (hist ++ [e])) = Z.of_nat (length hist) + 1) as Hl by (rewrite length_app; cbn; lia).
  assert (winv (hist ++ [e]) w) as Same.
  { split; rewrite ?Hl; try done; [lia|]. by apply tasks_more with w. }
  destruct e as [i own views raw src|i|live p|p]; cbn [step].
  - destruct (bool_decide_reflect (is_Some (tasks w !! i))); [done|].
    destruct (demuxInbound _ _ _ _ _) as [out|v f] eqn:E; [done|]. split; cbn [demuxer published tasks fst]; rewrite ?Hl; try done; [lia|].
    apply map_Forall_insert_2; [|by apply tasks_more with w]. split; [|done].
    assert (trial raw views = Some (v, f)) as T.
    { unfold demuxInbound in E. repeat case_match; congruence. }
    apply trial_sound in T as (T1 & T2 & T3). split_and!; try done; [by eapply view_peer|].
    exists own, views. split; [|done]. apply elem_of_app. right. by apply list_elem_of_singleton.
  - destruct (tasks w !! i) as [t|] eqn:Ht; [|done]. pose proof (advance_inv hist (Advance i) w i t I Ht Hlen) as A.
    destruct (advance _ _ _) as [[d k] [t'|out]]; exact A.
  - unfold teardownPeerLocked. destruct (_ =? _)%nat; [by destruct w|]. destruct (live p); [by destruct w|]. destruct Same. by split.
  - split; cbn [demuxer published tasks fst]; rewrite ?Hl; try done; [cbn; lia|by apply sound_filter|].
    apply tasks_more with w; try done; [case_bool_decide; lia|]. case_bool_decide as E; [intros; lia|].
    intros _. destruct (decide (peerBySource (unbindPeerSources p (demuxer w)) = peerBySource (demuxer w))); [done|tauto].
Qed.

Lemma demux_run_inv es : Forall shared es -> Z.of_nat (length es) < 2 ^ 64 -> winv es (run es).
Proof.
  induction es as [|e es IH] using rev_ind; intros Hs Hlen; [by apply winv_new|].
  apply Forall_app in Hs as [Hs He]. apply (proj1 (Forall_singleton _ _)) in He. rewrite length_app in Hlen. cbn in Hlen.
  rewrite run_snoc. apply step_inv; [|done|lia]. apply IH; [done|lia].
Qed.

(** ** What a step does *)
Lemma read_unbound own views raw src d v f : vpeer <$> views = List.seq 0 n ->
  map_Forall (fun _ b => (bpeer b < n)%nat) (peerBySource d) ->
  demuxInbound own views raw src d = Binding v f -> peerBySource d !! src = None /\ trial raw views = Some (v, f).
Proof.
  intros Hv Hk. unfold demuxInbound, lookupPeerBySource. destruct (_ <=? _)%nat; [done|].
  destruct (peerBySource d !! src) as [b|] eqn:E; cbn [fmap option_fmap option_map].
  - destruct (find_view views (bpeer b) Hv (Hk _ _ E)) as (x & -> & _). done.
  - destruct (trial raw views) as [[x g]|]; [|done]. by intros [= <- <-].
Qed.

Lemma read_bound own views raw src d b : vpeer <$> views = List.seq 0 n ->
  map_Forall (fun _ b => (bpeer b < n)%nat) (peerBySource d) -> peerBySource d !! src = Some b ->
  exists v, v ∈ views /\ vpeer v = bpeer b /\ demuxInbound own views raw src d = Handled (handleInbound v raw).
Proof.
  intros Hv Hk E. unfold demuxInbound, lookupPeerBySource. rewrite E. cbn [fmap option_fmap option_map].
  assert (length views = n) as Hlen by (rewrite <- (length_fmap vpeer), Hv, List.length_seq; done).
  rewrite (proj2 (Nat.leb_gt _ _)) by lia. destruct (find_view views (bpeer b) Hv (Hk _ _ E)) as (x & -> & ? & ?). eauto.
Qed.

(** The changes of one entry [k] of the table in one step. *)
Definition displaced (w : world) (e : event) (d' : state) (k : AddrPort) : Prop :=
  let d := demuxer w in
  (exists b, e = Unbind (bpeer b) /\ peerBySource d !! k = Some b /\ peerBySource d' !! k = None) \/
  exists i t, e = Advance i /\ tasks w !! i = Some t /\ let p := vpeer (tview t) in
    lookupPeerBySource (tsrc t) d' = Some p /\
    (k = tsrc t /\ (forall b, peerBySource d !! k = Some b -> bpeer b <> p) \/
     peerBySource d !! tsrc t = None /\ peerBySource d' !! k = None /\ perPeerQuota d <= count p (peerBySource d) /\
     exists b, peerBySource d !! k = Some b /\ oldest p b (peerBySource d)).

Lemma step_displaced hist w e k : winv hist w ->
  peerBySource (demuxer (fst (step iter w e))) !! k <> peerBySource (demuxer w) !! k ->
  displaced w e (demuxer (fst (step iter w e))) k.
Proof.
  intros I. unfold displaced. destruct e as [i own views raw src|i|live p|p]; cbn [step].
  - destruct (bool_decide _); [done|]. by destruct (demuxInbound _ _ _ _ _).
  - destruct (tasks w !! i) as [t|] eqn:Ht; [|done]. destruct (wi_tasks _ _ I i t Ht) as [_ P]. unfold phase_ok in P.
    unfold advance. destruct (tphase t) as [|v nx|v nx sq|]; try done.
    + destruct (bindSourceToPeer _ _ _ _) as [[]|]; done.
    + destruct P as (_ & _ & P). destruct (Nat.eqb_spec v (published w)) as [->|]; [|done].
      destruct (P eq_refl) as [Cp _]. cbn [fst demuxer peerBySource update]. intros Hk. right. exists i, t.
      split_and!; try done; [unfold lookupPeerBySource; cbn; by rewrite lookup_insert_eq|].
      destruct (decide (k = tsrc t)) as [->|N].
      * left. split; [done|]. intros b Hb. destruct Cp as [b' Hb' N'|Hx|k' b' Hx]; congruence.
      * right. rewrite lookup_insert_ne in * by done. destruct Cp as [b' Hb' N'|Hx Hz Hc|k' b' Hx Hb' Ho Hq]; [done..|].
        destruct (decide (k' = k)) as [->|N']; [|by rewrite lookup_delete_ne in Hk]. split_and!; [done|apply lookup_delete_eq|done|by exists b'].
  - unfold teardownPeerLocked. destruct (_ =? _)%nat; [done|]. by destruct (live p).
  - cbn. intros Hk. left. destruct (peerBySource (demuxer w) !! k) as [b|] eqn:E.
    + destruct (decide (bpeer b = p)) as [<-|N].
      * exists b. split_and!; try done. apply map_lookup_filter_None. right. intros x Hx. rewrite E in Hx. injection Hx as <-. intros F. by apply F.
      * destruct Hk. by apply map_lookup_filter_Some.
    + destruct Hk. apply map_lookup_filter_None. by left.
Qed.

(** ** Without two datagrams of one source in flight *)
Record excl (w : world) : Prop := mkExcl {
  ex_quota : forall p, count p (peerBySource (demuxer w)) <= perPeerQuota (demuxer w);
  ex_unbound : map_Forall (fun _ t => tphase t = PBound \/ peerBySource (demuxer w) !! tsrc t = None) (tasks w);
  ex_distinct : forall i j t u, tasks w !! i = Some t -> tasks w !! j = Some u -> tsrc t = tsrc u -> i = j
}.

Lemma copy_count src p quota m next q s : copy src p cap quota m next -> m !! src = None ->
  (forall q, count q m <= quota) -> count q (<[src := mkBinding p s]> next) <= quota.
Proof.
  intros Cp Hs Hq. specialize (Hq q) as Hq'. destruct Cp as [b Hb _|_ _ Hc|k b _ Hk [Hb _] Hc]; [congruence|..].
  - rewrite count_insert_new by done. destruct (Nat.eqb_spec p q); subst; lia.
  - rewrite count_insert_new by (apply lookup_delete_None; by right). rewrite (count_delete _ _ b) by done. rewrite Hb.
    destruct (_ =? _)%nat; lia.
Qed.

Lemma excl_update w d k i t t' : excl w -> tasks w !! i = Some t -> tsrc t' = tsrc t ->
  (forall p, count p (peerBySource d) <= perPeerQuota d) ->
  (forall a, peerBySource (demuxer w) !! a = None -> a = tsrc t \/ peerBySource d !! a = None) ->
  tphase t' = PBound \/ peerBySource d !! tsrc t = None -> excl (mkWorld d k (<[i := t']> (tasks w))).
Proof.
  intros [H1 H2 H3] Ht Es Hq Hm Hp. split; cbn [demuxer tasks]; [done| |].
  - intros j u [[<- <-]|[Nj Hj]]%lookup_insert_Some; [by rewrite Es|].
    destruct (H2 j u Hj) as [|Hu]; [by left|]. destruct (Hm _ Hu) as [E|]; [|by right]. by destruct (Nj (H3 _ _ _ _ Ht Hj (eq_sym E))).
  - intros a b u v [[<- <-]|[Na Ha]]%lookup_insert_Some [[<- <-]|[Nb Hb]]%lookup_insert_Some E; try done; rewrite ?Es in E; eauto.
Qed.

Lemma excl_delete w i : excl w -> excl (mkWorld (demuxer w) (published w) (delete i (tasks w))).
Proof.
  intros [H1 H2 H3]. split; cbn; [done|by apply map_Forall_delete|].
  intros a b u v [_ Ha]%lookup_delete_Some [_ Hb]%lookup_delete_Some. eauto.
Qed.

Lemma step_excl hist w e : winv hist w -> excl w -> shared e ->
  (forall i own views raw src, e = Read i own views raw src -> map_Forall (fun _ t => tsrc t <> src) (tasks w)) ->
  excl (fst (step iter w e)).
Proof.
  intros I X Hs Hr. pose proof X as [H1 H2 H3]. destruct e as [i own views raw src|i|live p|p]; cbn [step].
  - destruct (bool_decide_reflect (is_Some (tasks w !! i))) as [|Ni]; [done|].
    destruct (demuxInbound _ _ _ _ _) as [out|v f] eqn:E; [done|]. specialize (Hr _ _ _ _ _ eq_refl).
    apply read_unbound in E as [Eu _]; [|done|apply (wi_table _ _ I)].
    split; cbn [fst demuxer tasks]; [done|apply map_Forall_insert_2; [by right|done]|].
    intros a b u x [[<- <-]|[Na Ha]]%lookup_insert_Some [[<- <-]|[Nb Hb]]%lookup_insert_Some Ex; try done; cbn in Ex.
    + by destruct (Hr _ _ Hb).
    + by destruct (Hr _ _ Ha).
    + eauto.
  - destruct (tasks w !! i) as [t|] eqn:Ht; [|done]. destruct (wi_tasks _ _ I i t Ht) as [_ P]. unfold phase_ok in P.
    unfold advance. pose proof (H2 i t Ht) as Hu. cbn beta in Hu. destruct (tphase t) as [|v nx|v nx sq|].
    + pose proof (bind_spec iter (tsrc t) (vpeer (tview t)) (demuxer w) Hfair ltac:(rewrite (wi_cap _ _ I); lia)) as B.
      destruct (bindSourceToPeer _ _ _ _) as [[]|nx].
      * apply excl_update with t; auto.
      * by apply excl_delete.
      * apply excl_update with t; auto. destruct Hu; [done|by right].
    + apply excl_update with t; auto. destruct Hu; [done|by right].
    + destruct P as (_ & _ & P). destruct (Nat.eqb_spec v (published w)) as [->|N].
      * destruct Hu as [|Hu]; [done|]. destruct (P eq_refl) as [Cp _]. apply excl_update with t; auto; cbn.
        -- intros p. by eapply copy_count.
        -- intros a Ha. destruct (decide (a = tsrc t)) as [->|Na]; [by left|]. right. rewrite lookup_insert_ne by done.
           destruct (nx !! a) eqn:F; [|done]. apply (copy_sub _ _ _ _ _ _ _ _ Cp) in F. congruence.
      * apply excl_update with t; auto. destruct Hu; [done|by right].
    + apply excl_delete with (i := i) in X. destruct X. by split.
  - unfold teardownPeerLocked. destruct (_ =? _)%nat; [by destruct w|]. destruct (live p); [by destruct w|]. by split.
  - split; cbn; [| |done].
    + intros q. etrans; [|exact (H1 q)]. unfold count. apply Nat2Z.inj_le, map_subseteq_size. apply map_filter_subseteq_mono, map_filter_subseteq.
    + intros j t Ht. destruct (H2 j t Ht); [by left|]. right. apply map_lookup_filter_None. by left.
Qed.

Lemma run_excl es : Forall shared es -> Z.of_nat (length es) < 2 ^ 64 -> uncontended es -> excl (run es).
Proof.
  induction es as [|e es IH] using rev_ind; intros Hs Hlen Hu.
  { split; cbn; try done. intros p. unfold count. rewrite map_filter_empty, map_size_empty. pose proof (quota_pos (newState n cap)). lia. }
  apply Forall_app in Hs as [Hs He]. apply (proj1 (Forall_singleton _ _)) in He. rewrite length_app in Hlen. cbn in Hlen.
  rewrite run_snoc. apply step_excl with es; [apply demux_run_inv; [done|lia]| |done|].
  - apply IH; [done|lia|by eapply uncontended_prefix].
  - intros i own views raw src ->. by apply (Hu es i own views raw src []).
Qed.

(** With no more peers than slots there is always room below the quota. *)
Lemma room hist w p : winv hist w -> excl w -> Z.of_nat n <= cap -> (p < n)%nat ->
  count p (peerBySource (demuxer w)) < perPeerQuota (demuxer w) -> Z.of_nat (size (peerBySource (demuxer w))) < cap.
Proof.
  intros I X Hc Hp Hq. pose proof (wi_peers _ _ I) as E. pose proof (wi_cap _ _ I).
  rewrite <- (total_size n) by apply (wi_table _ _ I). pose proof (quota_total (demuxer w) n E Hn ltac:(lia)).
  pose proof (total_lt n (peerBySource (demuxer w)) _ p Hp Hq ltac:(intros; apply X)). lia.
Qed.

Lemma admitted hist w i t : winv hist w -> excl w -> Z.of_nat n <= cap -> tasks w !! i = Some t ->
  let '(w', out) := step iter w (Advance i) in is_Some (tasks w' !! i) \/ out = Some (vpeer (tview t), tframe t).
Proof.
  intros I X Hc Ht. cbn [step]. rewrite Ht. unfold advance. destruct (tphase t) as [|v nx|v nx sq|]; cbn [demuxer tasks].
  - pose proof (bind_spec iter (tsrc t) (vpeer (tview t)) (demuxer w) Hfair ltac:(rewrite (wi_cap _ _ I); lia)) as B.
    destruct (bindSourceToPeer _ _ _ _) as [[]|nx]; cbn [tasks]; [left; by rewrite lookup_insert_eq| |left; by rewrite lookup_insert_eq].
    destruct B as (_ & B1 & B2). destruct (wi_tasks _ _ I i t Ht) as [[Hp _] _].
    pose proof (room hist w _ I X Hc Hp B2). rewrite (wi_cap _ _ I) in B1. lia.
  - left. by rewrite lookup_insert_eq.
  - destruct (_ =? _)%nat; cbn [tasks]; left; by rewrite lookup_insert_eq.
  - by right.
Qed.

Lemma handled_decode v raw p f : handleInbound v raw = Some (p, f) -> vpeer v = p /\ snd (frame.Decode raw (vcodec v)) = Ok f.
Proof. unfold handleInbound, decode. destruct (snd _) as [g| |]; try done. by intros [= <- <-]. Qed.

Lemma step_out hist w e w' p f : winv hist w -> shared e -> step iter w e = (w', Some (p, f)) ->
  exists i own views raw src v,
    Read i own views raw src ∈ hist ++ [e] /\ v ∈ views /\ vpeer v = p /\ snd (frame.Decode raw (vcodec v)) = Ok f /\
    (e = Read i own views raw src /\ lookupPeerBySource src (demuxer w) = Some p \/ e = Advance i /\ exists pr, f = frame.FProbe pr).
Proof.
  intros I Hs. destruct e as [i own views raw src|i|live q|q]; cbn [step]; try done.
  - destruct (bool_decide _); [done|]. destruct (peerBySource (demuxer w) !! src) as [b|] eqn:Eb.
    + destruct (read_bound own views raw src (demuxer w) b Hs (so_known _ _ _ _ (wi_table _ _ I)) Eb) as (v & V1 & V2 & ->).
      intros [= <- H]. apply handled_decode in H as [H1 H2]. exists i, own, views, raw, src, v. split_and!; try done.
      * apply elem_of_app. right. by apply list_elem_of_singleton.
      * left. split; [done|]. unfold lookupPeerBySource. rewrite Eb. cbn. congruence.
    + unfold demuxInbound, lookupPeerBySource. rewrite Eb. cbn [fmap option_fmap option_map].
      assert (length views = n) as Hlen by (rewrite <- (length_fmap vpeer), Hs, List.length_seq; done).
      rewrite (proj2 (Nat.leb_gt _ _)) by lia. by destruct (trial raw views) as [[v g]|].
  - destruct (tasks w !! i) as [t|] eqn:Ht; [|done]. destruct (wi_tasks _ _ I i t Ht) as [(_ & G1 & G2 & own & views & G3 & G4) _].
    unfold advance. destruct (tphase t) as [|v nx|v nx sq|]; try done.
    + by destruct (bindSourceToPeer _ _ _ _) as [[]|].
    + by destruct (_ =? _)%nat.
    + intros [= _ <- <-]. exists i, own, views, (traw t), (tsrc t), (tview t). split_and!; try done; [apply elem_of_app; by left| |by right].
      unfold decode in G1. destruct (snd _); congruence.
Qed.

Lemma read_same hist w i own views raw src p w' out : winv hist w -> shared (Read i own views raw src) ->
  step iter w (Read i own views raw src) = (w', out) -> lookupPeerBySource src (demuxer w) = Some p ->
  w' = w /\ forall q f, out = Some (q, f) -> q = p.
Proof.
  intros I Hs. cbn [step]. destruct (bool_decide _); [by intros [= <- <-]|]. intros E H. unfold lookupPeerBySource in H.
  destruct (peerBySource (demuxer w) !! src) as [b|] eqn:Eb; [|done]. injection H as <-.
  destruct (read_bound own views raw src (demuxer w) b Hs (so_known _ _ _ _ (wi_table _ _ I)) Eb) as (v & V1 & V2 & V3).
  rewrite V3 in E. injection E as <- <-. split; [done|]. intros q f [<- _]%handled_decode. done.
Qed.

(** Uncontended, a binding stays as it is or goes. *)
Lemma excl_kept hist w e w' out k b b' : winv hist w -> excl w -> step iter w e = (w', out) ->
  peerBySource (demuxer w) !! k = Some b -> peerBySource (demuxer w') !! k = Some b' -> b' = b.
Proof.
  intros I X E Hk Hk'. destruct (decide (b' = b)) as [|N]; [done|]. exfalso.
  destruct (step_displaced hist w e k I) as [(c & -> & _ & F)|(i & t & -> & Ht & F1 & F2)]; rewrite ?E in *; cbn [fst] in *; try congruence.
  destruct F2 as [[-> F2]|(_ & F2 & _)]; [|congruence].
  destruct (ex_unbound _ X i t Ht) as [F|F]; [|congruence].
  cbn [step] in E. rewrite Ht in E. unfold advance in E. rewrite F in E. injection E as <- _. cbn in Hk'. congruence.
Qed.

(** ** A reader left alone ends *)
Definition remaining (w : world) (t : task) : nat :=
  match tphase t with
  | PBound => 1
  | PSwap v _ _ => if (v =? published w)%nat then 2 else 5
  | PDraw v _ => if (v =? published w)%nat then 3 else 6
  | PLoad => 4
  end.

Lemma advance_remaining w i t : tasks w !! i = Some t ->
  let w' := fst (step iter w (Advance i)) in
  match tasks w' !! i with Some t' => (remaining w' t' < remaining w t)%nat | None => True end.
Proof.
  intros Ht. cbn [step]. rewrite Ht. unfold advance, remaining at 2. destruct (tphase t) as [|v nx|v nx sq|]; cbn [demuxer tasks fst].
  - destruct (bindSourceToPeer _ _ _ _) as [[]|nx]; cbn [tasks fst]; rewrite ?lookup_insert_eq, ?lookup_delete_eq; try done; cbn;
      rewrite ?Nat.eqb_refl; lia.
  - rewrite lookup_insert_eq. cbn. destruct (_ =? _)%nat; lia.
  - destruct (_ =? _)%nat; cbn [tasks fst]; rewrite lookup_insert_eq; cbn; lia.
  - by rewrite lookup_delete_eq.
Qed.

Definition alone (k : nat) (i : nat) (w : world) : world := Nat.iter k (fun w => fst (step iter w (Advance i))) w.

Lemma alone_ends k i w : (forall t, tasks w !! i = Some t -> (remaining w t <= k)%nat) -> tasks (alone k i w) !! i = None.
Proof.
  revert w. induction k as [|k IH]; intros w H.
  - cbn. destruct (tasks w !! i) as [t|]; [|done]. specialize (H t eq_refl). unfold remaining in H. repeat case_match; lia.
  - unfold alone. rewrite Nat.iter_succ_r. apply IH. intros t' Ht'. destruct (tasks w !! i) as [t|] eqn:Ht.
    + pose proof (advance_remaining w i t Ht) as R. cbv zeta in R. rewrite Ht' in R. specialize (H t eq_refl). lia.
    + cbn [step] in Ht'. rewrite Ht in Ht'. cbn in Ht'. congruence.
Qed.
End Histories.

(** C4. A concentrator's demultiplexer keeps its peers apart.  Readers of any number
    of sockets, each with a view of all [n] peers, run interleaved at the atomic
    operations of the code, together with teardowns; fewer than 2^64 steps are
    taken, so the sequence numbers do not wrap.  Then, at every step: the table does
    not exceed the global cap; a frame is handed only to a peer under whose key the
    datagram read verifies, and is a probe unless its source was bound to that peer;
    the datagram of a bound source reaches no other peer and changes nothing; an
    entry of the table changes only when its peer is unbound, when a reader whose
    probe verified binds that very source to its peer, or as the oldest source of
    the reader's own peer when that peer is at its quota.  A reader left alone is
    done in six steps.  If moreover no datagram is read while another of the same
    source is in flight, no peer exceeds its share of the cap, a bound source is not
    given to another peer, and with no more peers than slots every verified probe of
    a new source is admitted; [race_past_quota] shows that the condition is needed. *)
Theorem demux_isolated {C : Cipher} iter n cap es e :
  fair iter -> (1 < n)%nat -> 0 < cap -> Forall (shared n) (es ++ [e]) -> Z.of_nat (length (es ++ [e])) < 2 ^ 64 ->
  let w := run iter n cap es in
  let '(w', out) := step iter w e in
  let d := demuxer w in let d' := demuxer w' in
  Z.of_nat (size (peerBySource d')) <= cap /\
  (forall p f, out = Some (p, f) -> exists i own views raw src v,
     Read i own views raw src ∈ es ++ [e] /\ v ∈ views /\ vpeer v = p /\ snd (frame.Decode raw (vcodec v)) = Ok f /\
     (e = Read i own views raw src /\ lookupPeerBySource src d = Some p \/ e = Advance i /\ exists pr, f = frame.FProbe pr)) /\
  (forall i own views raw src p, e = Read i own views raw src -> lookupPeerBySource src d = Some p ->
     w' = w /\ forall q f, out = Some (q, f) -> q = p) /\
  (forall k, peerBySource d' !! k <> peerBySource d !! k -> displaced w e d' k) /\
  (forall i, tasks (alone iter 6 i w') !! i = None) /\
  (uncontended iter n cap (es ++ [e]) ->
     (forall p, count p (peerBySource d') <= Z.max 1 (cap / Z.of_nat n)) /\
     (forall k b b', peerBySource d !! k = Some b -> peerBySource d' !! k = Some b' -> b' = b) /\
     (Z.of_nat n <= cap -> forall i t, e = Advance i -> tasks w !! i = Some t ->
        is_Some (tasks w' !! i) \/ out = Some (vpeer (tview t), tframe t))).
Proof.
  intros Hf Hn Hcap Hs Hlen. cbv zeta. pose proof (demux_run_inv iter n cap Hf Hn Hcap _ Hs Hlen) as I'.
  pose proof (run_excl iter n cap Hf Hn Hcap _ Hs Hlen) as X'. rewrite run_snoc in I', X'.
  pose proof Hs as [Hs1 He]%Forall_app. apply (proj1 (Forall_singleton _ _)) in He. rewrite length_app in Hlen. cbn in Hlen.
  pose proof (demux_run_inv iter n cap Hf Hn Hcap es Hs1 ltac:(lia)) as I. set (w := run iter n cap es) in *.
  pose proof (fun k => step_displaced iter n cap es w e k I) as D. destruct (step iter w e) as [w' out] eqn:E. cbn [fst] in *.
  split; [apply (wi_table _ _ _ _ I')|]. split.
  { intros p f ->. exact (step_out iter n cap Hn es w e w' p f I He E). }
  split; [intros i own views raw src p ->; exact (read_same iter n cap Hn es w i own views raw src p w' out I He E)|].
  split; [exact D|]. split.
  { intros i. apply (alone_ends iter n Hn). intros t _. unfold remaining. repeat case_match; lia. }
  intros Hu. specialize (X' Hu). split; [|split].
  - intros p. etrans; [apply (ex_quota _ X')|]. unfold perPeerQuota.
    rewrite (wi_cap _ _ _ _ I'), (wi_peers _ _ _ _ I'), (proj2 (Nat.ltb_lt _ _) Hn), Z.quot_div_nonneg by lia.
    destruct (_ <? 1) eqn:F; lia.
  - intros k b b' Hk Hk'.
    pose proof (run_excl iter n cap Hf Hn Hcap es Hs1 ltac:(lia) (uncontended_prefix _ _ _ _ _ Hu)) as X.
    by apply (excl_kept iter n cap es w e w' out k b b' I X E).
  - intros Hc i t -> Ht. pose proof (run_excl iter n cap Hf Hn Hcap es Hs1 ltac:(lia) (uncontended_prefix _ _ _ _ _ Hu)) as X.
    pose proof (admitted iter n cap Hf Hn Hcap es w i t I X Hc Ht) as A. by rewrite E in A.
Qed.

Definition iterW (m : gmap AddrPort sourceBinding) : list AddrPort := (map_to_list m).*1.

Lemma iterW_fair : fair iterW.
Proof.
  intros m. split; [apply NoDup_fst_map_to_list|]. intros k. unfold iterW. rewrite list_elem_of_fmap. split.
  - intros ([j b] & -> & H%elem_of_map_to_list). by eexists.
  - intros [b H%elem_of_map_to_list]. by exists (k, b).
Qed.

Definition pskW : frame.Key := frame.mkKey (replicate 32 8) true.
Definition codecW : frame.Codec :=
  match frame.NewCodec pskW with Ok c => c | _ => frame.mkCodec [] [] [] [] end.
Definition viewsW : list view := [mkView 0 frame_props.codec1; mkView 1 codecW].
Definition rawW : list Z :=
  match snd (@frame.Encode frame_props.toy_cipher (Some (replicate 24 1)) [] frame_props.probe1 codecW) with Ok w => w | _ => [] end.
Definition srcW (port : Z) : AddrPort := mkAddrPort [10; 0; 0; 7] [] port.
Definition readW (i : nat) (raw : list Z) (port : Z) : event := Read i (mkView 0 frame_props.codec1) viewsW raw (srcW port).

(** A cap of two, so one slot each: the second peer is heard from a first, then
    from a second source; the last step hands the second probe over. *)
Definition historyW : list event :=
  [readW 0 rawW 1; Advance 0; Advance 0; Advance 0; Advance 0; readW 0 rawW 2; Advance 0; Advance 0; Advance 0].

Lemma historyW_shared : Forall (shared 2) (historyW ++ [Advance 0]).
Proof. repeat apply Forall_cons_2; try exact I; try exact (eq_refl [0%nat; 1%nat]). apply Forall_nil_2. Qed.

Lemma historyW_uncontended : @uncontended frame_props.toy_cipher iterW 2 2 (historyW ++ [Advance 0]).
Proof.
  intros pre i own views raw src post E. unfold historyW in E. cbn [app] in E.
  destruct pre as [|e1 pre]; [by apply map_Forall_empty|]. do 4 (destruct pre as [|? pre]; [discriminate E|]).
  destruct pre as [|? pre].
  - injection E. intros. subst. replace (tasks _) with (∅ : gmap nat task) by (vm_compute; reflexivity). by apply map_Forall_empty.
  - do 4 (destruct pre as [|? pre]; [discriminate E|]). injection E. intros E' _ _ _ _ _ _ _ _ _ _. by destruct pre.
Qed.

Lemma historyW_last : @step frame_props.toy_cipher iterW (@run frame_props.toy_cipher iterW 2 2 historyW) (Advance 0) =
  (@run frame_props.toy_cipher iterW 2 2 (historyW ++ [Advance 0]), Some (1%nat, frame_props.probe1)).
Proof. rewrite run_snoc. vm_compute. reflexivity. Qed.

Lemma demux_isolated_witness :
  let d := demuxer (@run frame_props.toy_cipher iterW 2 2 (historyW ++ [Advance 0])) in
  Z.of_nat (size (peerBySource d)) <= 2 /\ count 1 (peerBySource d) <= 1 /\
  exists i own views raw src v, Read i own views raw src ∈ historyW ++ [Advance 0] /\ v ∈ views /\ vpeer v = 1%nat /\
    snd (@frame.Decode frame_props.toy_cipher raw (vcodec v)) = Ok frame_props.probe1.
Proof.
  pose proof (@demux_isolated frame_props.toy_cipher iterW 2 2 historyW (Advance 0)
    iterW_fair ltac:(lia) ltac:(lia) historyW_shared ltac:(cbn; lia)) as H.
  cbv zeta in H |- *. rewrite historyW_last in H. destruct H as (H1 & H2 & _ & _ & _ & H3).
  split; [exact H1|]. destruct (H3 historyW_uncontended) as (H4 & _). split; [exact (H4 1%nat)|].
  destruct (H2 _ _ eq_refl) as (i & own & views & raw & src & v & A & B & D & E & _). exists i, own, views, raw, src, v. auto.
Defined.

(** The race.  One slot each: the second peer holds source 1.  Two readers then see
    source 2 unbound, one with a probe of each peer; the first peer's is bound
    first, and the other reader takes that source over without a look at the quota:
    the second peer holds two sources and the first one none. *)
Definition raw0W : list Z :=
  match snd (@frame.Encode frame_props.toy_cipher (Some (replicate 24 1)) [] frame_props.probe1 frame_props.codec1) with Ok w => w | _ => [] end.
Definition raceW : list event :=
  [readW 0 rawW 1; Advance 0; Advance 0; Advance 0; Advance 0; readW 0 rawW 2; readW 1 raw0W 2; Advance 1; Advance 1; Advance 1].

Example race_past_quota :
  let d := demuxer (@run frame_props.toy_cipher iterW 2 2 raceW) in
  let d' := demuxer (@run frame_props.toy_cipher iterW 2 2 (raceW ++ [Advance 0; Advance 0; Advance 0])) in
  perPeerQuota d' = 1 /\
  map (fun k => lookupPeerBySource (srcW k) d) [1; 2] = [Some 1%nat; Some 0%nat] /\
  map (fun k => lookupPeerBySource (srcW k) d') [1; 2] = [Some 1%nat; Some 1%nat].
Proof. vm_compute. split_and!; reflexivity. Qed.
End demux_props.
