(* ===== verification/BindSock.v ===== *)
(** * Which interface a path's socket is bound to ([internal/bind/pathsock.go])

    A path's socket either pins the configured source address or is bound to the
    interface that holds it, with a wildcard address.  The host's interfaces are a
    snapshot; the two listeners of [listenPath] (the kernel's sockets) are
    parameters. *)

From Stdlib Require Import Ascii String.
From stdpp Require Import base tactics list numbers gmap strings.
From S2P Require Import Prelude Netip Config.

Module pathsock.
Import config netip.

Definition pathIsV6 (src : Addr) : bool := negb (Is4 src) && negb (Is4In6 src).

Record ifaceInfo := mkIfaceInfo { dev : string; familyCount : Z }.
Definition ifaceInfo0 : ifaceInfo := mkIfaceInfo EmptyString 0.

(** [net.Interface]: its name, whether it is a loopback, and what [Addrs] gives
    ([None] is an error; an entry is [None] when it is not an IP network). *)
Record Interface := mkInterface {
  ifName : string; ifLoopback : bool; ifAddrs : option (list (option (list Z)))
}.

Fixpoint familyBindCount_loop (want : Addr) (excludeLinkLocal : bool) (familyCount : Z) (owns : bool)
    (addrs : list Addr) : Z * bool :=
  match addrs with
  | [] => (familyCount, owns)
  | ip :: addrs =>
      let ip := Unmap ip in
      let familyCount := if Bool.eqb (Is4 ip) (Is4 want) && (negb excludeLinkLocal || negb (IsLinkLocalUnicast ip))
                         then familyCount + 1 else familyCount in
      let owns := if bool_decide (ip = want) then true else owns in
      familyBindCount_loop want excludeLinkLocal familyCount owns addrs
  end.
Definition familyBindCount (want : Addr) (addrs : list Addr) : Z * bool :=
  familyBindCount_loop want (negb (Is4 want) && negb (IsLinkLocalUnicast want)) 0 false addrs.

(** The addresses of an interface that are IP networks. *)
Definition ifaceIPs (addrs : list (option (list Z))) : list Addr :=
  omap (fun a => a ≫= AddrFromSlice) addrs.

Fixpoint owner_loop (want : Addr) (ifaces : list Interface) : ifaceInfo :=
  match ifaces with
  | [] => ifaceInfo0
  | ifc :: ifaces =>
      if ifLoopback ifc then owner_loop want ifaces
      else match ifAddrs ifc with
      | None => owner_loop want ifaces
      | Some addrs =>
          let '(familyCount, owns) := familyBindCount want (ifaceIPs addrs) in
          if owns then mkIfaceInfo (ifName ifc) familyCount else owner_loop want ifaces
      end
  end.
Definition interfaceInfo (src : Addr) (ifaces : list Interface) : ifaceInfo :=
  if negb (IsValid src) || IsLoopback src || IsUnspecified src then ifaceInfo0
  else owner_loop (Unmap src) ifaces.

(** How many sources resolve to each interface. *)
Fixpoint count_devs (devPaths : gmap string Z) (infos : list ifaceInfo) : gmap string Z :=
  match infos with
  | [] => devPaths
  | i :: infos =>
      count_devs (if bool_decide (dev i = EmptyString) then devPaths
                  else <[dev i := default 0 (devPaths !! dev i) + 1]> devPaths) infos
  end.

Definition choose (devPaths : gmap string Z) (info : ifaceInfo) (mode : string) : string :=
  if bool_decide (mode = BindModeSource) then EmptyString
  else if bool_decide (mode = BindModeDevice) then dev info
  else if negb (bool_decide (dev info = EmptyString)) && (familyCount info =? 1)
          && (default 0 (devPaths !! dev info) =? 1)
       then dev info else EmptyString.

(** [modes] is parallel to [srcs]. *)
Definition selectDeviceBinds (srcs : list Addr) (modes : list string) (resolve : Addr -> ifaceInfo) : list string :=
  let infos := map resolve srcs in
  zip_with (choose (count_devs ∅ infos)) infos modes.

Definition planPathBinds (ifaces : option (list Interface)) (srcs : list Addr) (modes : list string) : list string :=
  selectDeviceBinds srcs modes (fun s => interfaceInfo s (default [] ifaces)).

Definition selectForcedDeviceBind (src : Addr) (mode : string) (resolve : Addr -> ifaceInfo) : string :=
  if negb (bool_decide (mode = BindModeDevice)) then EmptyString else dev (resolve src).
Definition resolveForcedDeviceBind (ifaces : option (list Interface)) (src : Addr) (mode : string) : string :=
  if negb (bool_decide (mode = BindModeDevice)) then EmptyString
  else selectForcedDeviceBind src mode (fun s => interfaceInfo s (default [] ifaces)).

(** [Multipath.autoRuntimeDeviceBind], over the durable membership. *)
Definition autoRuntimeDeviceBind (defs : list Path) (resolveIface : Addr -> ifaceInfo) (targetSrc : Addr)
    (targetMode : string) : string :=
  if negb (bool_decide (targetMode = BindModeAuto)) then EmptyString
  else
    let others := List.filter (fun d => negb (bool_decide (SourceAddr d = targetSrc))) defs in
    nth 0 (selectDeviceBinds (targetSrc :: map SourceAddr others) (targetMode :: map pathBind others) resolveIface)
      EmptyString.

(** The device a path admitted or promoted at runtime is bound to. *)
Definition runtimeDev (ifaces : option (list Interface)) (defs : list Path) (src : Addr) (mode : string) : string :=
  let d := resolveForcedDeviceBind ifaces src mode in
  if bool_decide (d = EmptyString)
  then autoRuntimeDeviceBind defs (fun s => interfaceInfo s (default [] ifaces)) src mode else d.

(** A listener yields a socket (its local port) or an error; only "address not
    available" is told apart.  [deviceErr] is an attempted device bind that failed. *)
Inductive listenError := EADDRNOTAVAIL | EOTHER.
Definition listener := Addr -> Z -> string -> listenError + Z.

Definition listenPath (onDevice pinned : listener) (src : Addr) (port : Z) (d : string)
    : bool * (listenError + Z) :=
  if negb (bool_decide (d = EmptyString)) then
    match onDevice src port d with
    | inr c => (false, inr c)
    | inl _ => (true, pinned src port EmptyString)
    end
  else (false, pinned src port EmptyString).

End pathsock.
