(* ===== verification/BindSockProps.v ===== *)
(** * Device binding: it can only ever send from the configured address *)

From Stdlib Require Import Ascii String.
From stdpp Require Import base tactics list numbers gmap strings.
From S2P Require Import Prelude Netip Config BindSock.

Module pathsock_props.
Import config netip pathsock.

(** ** Counting the sources of an interface *)
Definition resolves (d : string) (i : ifaceInfo) : bool := bool_decide (dev i = d).

Lemma count_devs_spec d m infos : d <> EmptyString ->
  default 0 (count_devs m infos !! d) = default 0 (m !! d) + Z.of_nat (length (List.filter (resolves d) infos)).
Proof.
  intros Hd. revert m. induction infos as [|i infos IH]; intros m; cbn [count_devs List.filter]; [cbn; lia|].
  rewrite IH. unfold resolves at 2. destruct (bool_decide_reflect (dev i = d)) as [<-|N].
  - rewrite bool_decide_eq_false_2 by done. rewrite lookup_insert_eq. cbn [default length]. cbn. lia.
  - destruct (bool_decide (dev i = EmptyString)); [done|]. by rewrite lookup_insert_ne.
Qed.

Lemma filter_unique {A} (f : A -> bool) l i j x y : length (List.filter f l) = 1%nat ->
  l !! i = Some x -> l !! j = Some y -> f x = true -> f y = true -> i = j.
Proof.
  revert i j. induction l as [|a l IH]; intros i j Hl Hi Hj Hx Hy; [done|]. cbn [List.filter] in Hl.
  assert (forall k z, l !! k = Some z -> f z = true -> (1 <= length (List.filter f l))%nat) as Hpos.
  { intros k z Hk Hz. assert (z ∈ List.filter f l) as Hin.
    { apply list_elem_of_In, List.filter_In. split; [|done]. apply list_elem_of_In. by eapply list_elem_of_lookup_2. }
    destruct (List.filter f l); [by apply elem_of_nil in Hin|cbn; lia]. }
  destruct i as [|i], j as [|j]; cbn [lookup list_lookup] in Hi, Hj; try done.
  - injection Hi as ->. rewrite Hx in Hl. cbn in Hl. specialize (Hpos _ _ Hj Hy). lia.
  - injection Hj as ->. rewrite Hy in Hl. cbn in Hl. specialize (Hpos _ _ Hi Hx). lia.
  - f_equal. destruct (f a); [specialize (Hpos _ _ Hi Hx); cbn in Hl; lia|]. by apply IH.
Qed.

(** ** The addresses of an interface *)
Definition counts (want ip : Addr) : bool :=
  Bool.eqb (Is4 (Unmap ip)) (Is4 want) &&
  (negb (negb (Is4 want) && negb (IsLinkLocalUnicast want)) || negb (IsLinkLocalUnicast (Unmap ip))).

Lemma familyBindCount_spec want addrs :
  familyBindCount want addrs =
    (Z.of_nat (length (List.filter (counts want) addrs)), existsb (fun ip => bool_decide (Unmap ip = want)) addrs).
Proof.
  unfold familyBindCount.
  assert (forall n o, familyBindCount_loop want (negb (Is4 want) && negb (IsLinkLocalUnicast want)) n o addrs =
    (n + Z.of_nat (length (List.filter (counts want) addrs)), o || existsb (fun ip => bool_decide (Unmap ip = want)) addrs)) as H;
    [|by rewrite H].
  induction addrs as [|ip addrs IH]; intros n o; cbn [familyBindCount_loop List.filter existsb].
  - cbn. by rewrite Z.add_0_r, orb_false_r.
  - rewrite IH. fold (counts want ip). f_equal.
    + destruct (counts want ip); cbn [length]; lia.
    + destruct (bool_decide _); by destruct o.
Qed.

Lemma counts_self ip : counts (Unmap ip) ip = true.
Proof. unfold counts. rewrite eqb_reflx. by destruct (Is4 _), (IsLinkLocalUnicast _). Qed.

Lemma owner_loop_spec want ifaces : dev (owner_loop want ifaces) <> EmptyString ->
  exists ifc addrs, ifc ∈ ifaces /\ ifLoopback ifc = false /\ ifAddrs ifc = Some addrs /\
    owner_loop want ifaces = mkIfaceInfo (ifName ifc) (Z.of_nat (length (List.filter (counts want) (ifaceIPs addrs)))) /\
    exists ip, ip ∈ ifaceIPs addrs /\ Unmap ip = want.
Proof.
  induction ifaces as [|ifc ifaces IH]; cbn [owner_loop]; [done|].
  assert (dev (owner_loop want ifaces) <> EmptyString -> exists ifc0 addrs, ifc0 ∈ ifc :: ifaces /\ ifLoopback ifc0 = false /\
    ifAddrs ifc0 = Some addrs /\
    owner_loop want ifaces = mkIfaceInfo (ifName ifc0) (Z.of_nat (length (List.filter (counts want) (ifaceIPs addrs)))) /\
    exists ip, ip ∈ ifaceIPs addrs /\ Unmap ip = want) as Hnext.
  { intros (i & a & ? & ?)%IH. exists i, a. split; [by right|done]. }
  destruct (ifLoopback ifc) eqn:El; [done|]. destruct (ifAddrs ifc) as [addrs|] eqn:Ea; [|done].
  rewrite familyBindCount_spec. destruct (existsb _ _) eqn:Eo; [|done]. intros _.
  exists ifc, addrs. split; [by left|]. split_and!; try done.
  apply List.existsb_exists in Eo as (ip & Hi & Ho%bool_decide_eq_true). exists ip. split; [by apply list_elem_of_In|done].
Qed.

(** With one address counted, every counted address is the source. *)
Lemma only_source want ip addrs : ip ∈ addrs -> Unmap ip = want -> length (List.filter (counts want) addrs) = 1%nat ->
  forall x, x ∈ addrs -> counts want x = true -> Unmap x = want.
Proof.
  intros (i & Hi)%list_elem_of_lookup <- Hl x (j & Hj)%list_elem_of_lookup Hx.
  assert (i = j) as -> by (eapply filter_unique; eauto using counts_self). congruence.
Qed.

Lemma select_lookup srcs modes resolve i d : selectDeviceBinds srcs modes resolve !! i = Some d ->
  exists src mode, srcs !! i = Some src /\ modes !! i = Some mode /\
    d = choose (count_devs ∅ (map resolve srcs)) (resolve src) mode.
Proof.
  unfold selectDeviceBinds. intros (info & mode & -> & Hi & Hm)%lookup_zip_with_Some.
  change (map resolve srcs) with (resolve <$> srcs) in *. apply list_lookup_fmap_Some in Hi as (src & -> & Hs). eauto.
Qed.

Lemma choose_dev m info mode : choose m info mode = EmptyString \/ choose m info mode = dev info.
Proof. unfold choose. repeat case_match; auto. Qed.

(** An interface counted once is chosen by no other path. *)
Lemma choose_unique srcs modes resolve i j src d :
  srcs !! i = Some src -> d <> EmptyString -> dev (resolve src) = d ->
  default 0 (count_devs ∅ (map resolve srcs) !! d) = 1 ->
  selectDeviceBinds srcs modes resolve !! j = Some d -> i = j.
Proof.
  intros Hs Hd Hr Hc (src' & mode' & Hs' & _ & Hj)%select_lookup.
  rewrite count_devs_spec in Hc by done. rewrite lookup_empty in Hc. cbn [default] in Hc.
  destruct (choose_dev (count_devs ∅ (map resolve srcs)) (resolve src') mode') as [E|E]; [congruence|].
  eapply (filter_unique (resolves d) (resolve <$> srcs)).
  - change (resolve <$> srcs) with (map resolve srcs). cbn in Hc. lia.
  - by rewrite list_lookup_fmap, Hs.
  - by rewrite list_lookup_fmap, Hs'.
  - by apply bool_decide_eq_true.
  - apply bool_decide_eq_true. congruence.
Qed.

(** C29. A path's socket sends only from the address it was configured with.  In
    the plan made when the sockets are opened: a path in source mode pins its
    address; a path bound to an interface is bound to one that is not a loopback
    and holds its address; unless the operator forced it, every address of that
    interface the kernel could choose for it is that address (link-local ones
    aside, for a global IPv6 source), and no other path, in any mode, is bound to
    the same interface. *)
Theorem device_bind_safe ifaces srcs modes i src mode d :
  srcs !! i = Some src -> modes !! i = Some mode -> planPathBinds ifaces srcs modes !! i = Some d ->
  (mode = BindModeSource -> d = EmptyString) /\
  (mode = BindModeDevice -> d = dev (interfaceInfo src (default [] ifaces))) /\
  (d <> EmptyString ->
   exists ifc addrs, ifc ∈ default [] ifaces /\ ifName ifc = d /\ ifLoopback ifc = false /\ ifAddrs ifc = Some addrs /\
     Unmap src ∈ Unmap <$> ifaceIPs addrs /\
     (mode <> BindModeDevice ->
      (forall ip, ip ∈ ifaceIPs addrs -> Is4 (Unmap ip) = Is4 (Unmap src) ->
         Is4 (Unmap src) = true \/ IsLinkLocalUnicast (Unmap src) = true \/ IsLinkLocalUnicast (Unmap ip) = false ->
         Unmap ip = Unmap src) /\
      (forall j e, j <> i -> planPathBinds ifaces srcs modes !! j = Some e -> e <> d))).
Proof.
  intros Hs Hm Hp. pose proof Hp as (src' & mode' & Hs' & Hm' & Hd)%select_lookup.
  rewrite Hs in Hs'. rewrite Hm in Hm'. injection Hs' as <-. injection Hm' as <-.
  set (resolve := fun s => interfaceInfo s (default [] ifaces)).
  change (d = choose (count_devs ∅ (map resolve srcs)) (resolve src) mode) in Hd.
  split; [|split].
  - intros ->. by rewrite Hd.
  - intros ->. by rewrite Hd.
  - intros Nd. destruct (choose_dev (count_devs ∅ (map resolve srcs)) (resolve src) mode) as [E|E]; [congruence|].
    rewrite <- Hd in E. assert (dev (owner_loop (Unmap src) (default [] ifaces)) = d /\
      resolve src = owner_loop (Unmap src) (default [] ifaces)) as [Ho Er].
    { unfold resolve in E |- *. unfold interfaceInfo in *. destruct (_ || _); [by rewrite E in Nd|done]. }
    destruct (owner_loop_spec (Unmap src) (default [] ifaces)) as (ifc & addrs & Hi & Hl & Ha & Hw & ip & Hip & Hun);
      [by rewrite Ho|].
    exists ifc, addrs. split_and!; try done.
    + rewrite <- Ho, Hw. done.
    + apply list_elem_of_fmap. exists ip. done.
    + intros Nm. assert (familyCount (resolve src) = 1 /\
        default 0 (count_devs ∅ (map resolve srcs) !! d) = 1) as [Hf Hc].
      { rewrite Hd in Nd. unfold choose in Nd. rewrite (bool_decide_eq_false_2 (mode = BindModeDevice)) in Nd by done.
        destruct (bool_decide (mode = BindModeSource)); [done|]. rewrite E.
        destruct (_ && _) eqn:A in Nd; [|done]. apply andb_prop in A as [[_ ?]%andb_prop ?]. lia. }
      rewrite Er, Hw in Hf. cbn [familyCount] in Hf. split.
      * intros x Hx H4 Hll. eapply only_source; [exact Hip|exact Hun|lia|done|].
        unfold counts. rewrite H4, eqb_reflx. destruct Hll as [-> |[-> | ->]]; cbn; by rewrite ?orb_true_r, ?andb_false_r.
      * intros j e Nj Hj ->. apply Nj. symmetry. eapply choose_unique; eauto.
Qed.

(** ** The decision at runtime *)
Definition v4 (a b c d : Z) : Addr := mkAddr [a; b; c; d] [].
Definition ifacesW : option (list Interface) :=
  Some [mkInterface "lo" true (Some [Some [127; 0; 0; 1]]);
        mkInterface "wan0" false (Some [None; Some (replicate 10 0 ++ [255; 255; 10; 0; 0; 2])%list; Some (254 :: 128 :: replicate 14 7)]);
        mkInterface "wan1" false (Some [Some [10; 1; 0; 2]; Some [10; 1; 0; 3]])].

Lemma device_bind_safe_witness :
  planPathBinds ifacesW [v4 10 0 0 2; v4 10 1 0 2] [BindModeAuto; BindModeAuto] = ["wan0"%string; EmptyString] /\
  (forall j e, j <> 0%nat -> planPathBinds ifacesW [v4 10 0 0 2; v4 10 1 0 2] [BindModeAuto; BindModeAuto] !! j = Some e ->
     e <> "wan0"%string).
Proof.
  split; [vm_compute; reflexivity|].
  destruct (device_bind_safe ifacesW [v4 10 0 0 2; v4 10 1 0 2] [BindModeAuto; BindModeAuto] 0 (v4 10 0 0 2) BindModeAuto "wan0")
    as (_ & _ & H); [reflexivity|reflexivity|vm_compute; reflexivity|].
  destruct H as (ifc & addrs & _ & _ & _ & _ & _ & H); [done|]. apply H. done.
Defined.

Lemma filter_count_perm {A} (f : A -> bool) (l k : list A) : l ≡ₚ k -> length (List.filter f l) = length (List.filter f k).
Proof.
  intros H. induction H as [|x l k _ IH|x y l|l k m _ IH1 _ IH2]; cbn [List.filter]; [done| | |congruence].
  - destruct (f x); cbn [length]; lia.
  - destruct (f x), (f y); done.
Qed.

Lemma choose_perm infos infos' info mode : infos ≡ₚ infos' ->
  choose (count_devs ∅ infos) info mode = choose (count_devs ∅ infos') info mode.
Proof.
  intros H. unfold choose. destruct (bool_decide_reflect (dev info = EmptyString)); [done|].
  rewrite !count_devs_spec by done. by rewrite (filter_count_perm _ _ _ H).
Qed.

(** A target among paths with distinct sources: the others are the rest. *)
Lemma others_perm defs i def : NoDup (SourceAddr <$> defs) -> defs !! i = Some def ->
  SourceAddr def :: map SourceAddr (List.filter (fun d => negb (bool_decide (SourceAddr d = SourceAddr def))) defs)
    ≡ₚ SourceAddr <$> defs.
Proof.
  revert i. induction defs as [|a defs IH]; intros i Hn Hi; [done|].
  apply NoDup_cons in Hn as [Ha Hn]. cbn [List.filter fmap list_fmap]. destruct i as [|i]; cbn [lookup list_lookup] in Hi.
  - injection Hi as ->. rewrite bool_decide_eq_true_2 by done. cbn [negb].
    assert (forall l, SourceAddr def ∉ SourceAddr <$> l ->
      List.filter (fun d => negb (bool_decide (SourceAddr d = SourceAddr def))) l = l) as F.
    { induction l as [|x l IHl]; cbn [List.filter fmap list_fmap]; intros N; [done|].
      rewrite bool_decide_eq_false_2 by set_solver. cbn [negb]. f_equal. apply IHl. set_solver. }
    by rewrite F.
  - rewrite bool_decide_eq_false_2.
    2: { intros E. apply Ha. rewrite E. apply list_elem_of_fmap. exists def. split; [done|]. by eapply list_elem_of_lookup_2. }
    cbn [negb map]. rewrite Permutation_swap. constructor. by apply (IH i).
Qed.

Lemma nth_cons_zip {A B C} (f : A -> B -> C) x xs y ys d : nth 0 (zip_with f (x :: xs) (y :: ys)) d = f x y.
Proof. done. Qed.

Lemma auto_runtime_choose defs all resolve src i def :
  NoDup (SourceAddr <$> all) -> all !! i = Some def -> SourceAddr def = src ->
  List.filter (fun d => negb (bool_decide (SourceAddr d = src))) defs =
    List.filter (fun d => negb (bool_decide (SourceAddr d = src))) all ->
  autoRuntimeDeviceBind defs resolve src BindModeAuto =
    choose (count_devs ∅ (map resolve (map SourceAddr all))) (resolve src) BindModeAuto.
Proof.
  intros Hn Hi <- E. unfold autoRuntimeDeviceBind. rewrite bool_decide_eq_true_2 by done. cbn [negb]. rewrite E.
  unfold selectDeviceBinds. cbn [map]. rewrite nth_cons_zip. apply choose_perm.
  pose proof (others_perm all i def Hn Hi) as P. apply (Permutation_map resolve) in P. exact P.
Qed.

Lemma runtimeDev_choose ifaces defs all i def :
  NoDup (SourceAddr <$> all) -> all !! i = Some def -> bindValid (pathBind def) = true ->
  List.filter (fun d => negb (bool_decide (SourceAddr d = SourceAddr def))) defs =
    List.filter (fun d => negb (bool_decide (SourceAddr d = SourceAddr def))) all ->
  Some (runtimeDev ifaces defs (SourceAddr def) (pathBind def)) = planPathBinds ifaces (map SourceAddr all) (map pathBind all) !! i.
Proof.
  intros Hn Hi Hv E. unfold planPathBinds, selectDeviceBinds. set (resolve := fun s => interfaceInfo s _).
  symmetry. apply lookup_zip_with_Some. exists (resolve (SourceAddr def)), (pathBind def).
  rewrite map_map. change (map ?f ?l) with (f <$> l). rewrite !list_lookup_fmap, Hi. split; [|done].
  unfold runtimeDev, resolveForcedDeviceBind. fold resolve. destruct (bool_decide_reflect (pathBind def = BindModeDevice)) as [D|D]; cbn [negb].
  - rewrite D. destruct (bool_decide_reflect (selectForcedDeviceBind (SourceAddr def) BindModeDevice resolve = EmptyString)) as [F|F]; [|done].
    symmetry. exact F.
  - rewrite bool_decide_eq_true_2 by done. destruct (bool_decide_reflect (pathBind def = BindModeAuto)) as [A|A].
    + rewrite A. rewrite (auto_runtime_choose defs all resolve _ i def) by done. by rewrite map_map.
    + assert (pathBind def = BindModeSource) as -> ; [|done].
      unfold bindValid in Hv. rewrite !orb_true_iff, !bool_decide_eq_true in Hv. naive_solver.
Qed.

(** A path admitted or promoted while the bond runs is bound exactly as it
    would have been had it been there when the sockets were opened: on the same
    interfaces, among paths with distinct source addresses (which an accepted
    configuration guarantees) and for each mode, the device chosen at runtime is
    the one of the plan; for a path already in the membership and for a new one. *)
Theorem runtime_bind_agrees ifaces defs def :
  NoDup (SourceAddr <$> defs) -> bindValid (pathBind def) = true ->
  (forall i, defs !! i = Some def ->
     planPathBinds ifaces (map SourceAddr defs) (map pathBind defs) !! i =
       Some (runtimeDev ifaces defs (SourceAddr def) (pathBind def))) /\
  (SourceAddr def ∉ SourceAddr <$> defs ->
     planPathBinds ifaces (map SourceAddr (app defs [def])) (map pathBind (app defs [def])) !! length defs =
       Some (runtimeDev ifaces defs (SourceAddr def) (pathBind def))).
Proof.
  intros Hn Hv. split.
  - intros i Hi. symmetry. by apply runtimeDev_choose.
  - intros Nd. symmetry. apply runtimeDev_choose; [| |done|].
    + rewrite fmap_app. apply NoDup_app. split_and!; [done| |apply NoDup_singleton].
      intros x Hx Hs%list_elem_of_singleton. by subst.
    + rewrite lookup_app_r, Nat.sub_diag by done. done.
    + rewrite List.filter_app. cbn [List.filter]. rewrite bool_decide_eq_true_2 by done. cbn. by rewrite app_nil_r.
Qed.

Definition pathW (name : string) (src : Addr) (mode : string) : Path :=
  mkPath name src EmptyString AddrPort0 EmptyString mode 1500 0 EmptyString.

Lemma runtime_bind_agrees_witness :
  let defs := [pathW "b" (v4 10 1 0 2) BindModeAuto] in
  planPathBinds ifacesW [v4 10 1 0 2; v4 10 0 0 2] [BindModeAuto; BindModeAuto] !! 1%nat =
    Some (runtimeDev ifacesW defs (v4 10 0 0 2) BindModeAuto) /\
  runtimeDev ifacesW defs (v4 10 0 0 2) BindModeAuto = "wan0"%string.
Proof.
  split; [|vm_compute; reflexivity].
  apply (runtime_bind_agrees ifacesW [pathW "b" (v4 10 1 0 2) BindModeAuto] (pathW "a" (v4 10 0 0 2) BindModeAuto)).
  - apply NoDup_singleton.
  - reflexivity.
  - by intros H%list_elem_of_singleton.
Defined.
End pathsock_props.
