(* ===== verification/BindPaths.v ===== *)
(** * The bond's membership ([internal/bind]: multipath.go, reconcile.go)

    The paths the bond is configured for, the sockets bound for them, and each
    peer's view of each socket.  A path whose source address no interface holds
    yet is deferred: configured, without a socket, until a later attempt binds it.

    A peer is its position in the list (0 is the embedded primary), which also
    stands for its virtual endpoint.  A prober is the path id it stamps on its
    probes for life.  What the kernel answers (interfaces, listens, the error of
    closing a socket) and the clock are arguments; the [n]-th listen of a call is
    told apart, since the kernel may answer the same request differently.  Every
    method runs under the bind's two locks, so it is one step.  The transport's own bookkeeping of its lanes, the
    log lines and the readers are not part of this state. *)

From Stdlib Require Import Ascii String.
From stdpp Require Import base tactics list numbers gmap strings.
From S2P Require Import Prelude Sha256 Frame Telemetry Netip Config BindRemote BindDemux BindSock.

Module paths.
Import config netip pathsock.

#[export] Existing Instance demux.AddrPort_countable.

(** ** State *)
Record sharedPathState := mkShared {
  sname : string; sid : Z; ssrc : Addr; sconn : Z; sbindMode : string; sboundDevice : string; views : list nat
}.

Record peerPathState := mkPeerPath {
  ppname : string; ppcodec : frame.Codec; ppprober : Z; ppremote : remote.table
}.

(** [hasProber]: a prober factory was given; [virtDst]: the destination shown for
    the virtual endpoint; [reseq]: a resequencer is published. *)
Record peerState := mkPeerState {
  name : string; psk : Key; hasProber : bool; probers : list Z; ppaths : list peerPathState;
  configuredRemote : option AddrPort; virtDst : option AddrPort; reseq : bool
}.
#[export] Instance eta_peerState : Eta peerState := fun p =>
  mkPeerState (name p) (psk p) (hasProber p) (probers p) (ppaths p) (configuredRemote p) (virtDst p) (reseq p).

Definition newPeerState (n : string) (k : Key) (factory : bool) (prs : list Z) : peerState :=
  mkPeerState n k factory prs [] None None false.

Definition newCodec (p : peerState) : outcome frame.error frame.Codec :=
  frame.NewCodec (frame.mkKey (kbytes (psk p)) (kset (psk p))).

Record deferredPath := mkDeferred {
  ddef : Path; dprober : Z; warnedUnresolvable : bool; warnedPromoteFail : bool
}.

Record Multipath := mkMultipath {
  defs : list Path;
  peers : list peerState;
  peersByName : gmap string nat;
  edgePeerByRemote : gmap AddrPort nat;
  shared : list sharedPathState;
  deferred : list deferredPath;
  nextPathID : Z;
  openPort : Z;
  defaultRemote : option AddrPort
}.
#[export] Instance eta_Multipath : Eta Multipath := fun m =>
  mkMultipath (defs m) (peers m) (peersByName m) (edgePeerByRemote m) (shared m) (deferred m) (nextPathID m)
    (openPort m) (defaultRemote m).

Inductive error :=
  | ErrNoPaths | ErrNoPSK | ErrTooManyPaths | ErrNoLogger | ErrProberCount | ErrNilProber
  | ErrNoName | ErrNotClosed | ErrNameTaken | ErrBindAlreadyOpen | ErrClosed | ErrNoTransport | ErrNoSource
  | ErrDuplicatePath | ErrExhausted | ErrListen | ErrCodec | ErrDesync | ErrIndexOutOfRange | ErrAllDeferred
  | ErrNoSuchPath | ErrLastPath | ErrRetire | ErrUnknownPeer | ErrRemoteOwned | ErrRemoteCount.

Definition primary (m : Multipath) : peerState := nth 0 (peers m) (newPeerState EmptyString (mkKey [] false) false []).
(** [len(m.paths) != 0]: [m.paths] are the primary's. *)
Definition isOpen (m : Multipath) : bool := negb (length (ppaths (primary m)) =? 0)%nat.
Definition apValid (a : AddrPort) : bool := negb (length (ap_addr a) =? 0)%nat.

(** ** Building the bind *)
Definition allSome (l : list (option Z)) : option (list Z) := mapM id l.

Definition NewMultipath (ps : list Path) (k : Key) (prs : list (option Z)) (factory lg : bool) : error + Multipath :=
  if (length ps =? 0)%nat then inl ErrNoPaths
  else if negb (IsSet k) then inl ErrNoPSK
  else if (256 <? length ps)%nat then inl ErrTooManyPaths
  else if negb lg then inl ErrNoLogger
  else if negb (length prs =? length ps)%nat then inl ErrProberCount
  else match allSome prs with
  | None => inl ErrNilProber
  | Some prs =>
      inr (mkMultipath ps [newPeerState EmptyString k factory prs] {[ EmptyString := 0%nat ]} ∅ [] [] 0 0 None)
  end.

Definition AddConcentratorPeer (n : string) (k : Key) (prs : list (option Z)) (factory : bool) (m : Multipath)
    : Multipath * option error :=
  if bool_decide (n = EmptyString) then (m, Some ErrNoName)
  else if negb (IsSet k) then (m, Some ErrNoPSK)
  else if isOpen m then (m, Some ErrNotClosed)
  else if negb (length prs =? length (defs m))%nat then (m, Some ErrProberCount)
  else match allSome prs with
  | None => (m, Some ErrNilProber)
  | Some prs =>
      if bool_decide (n = name (primary m)) then (m, Some ErrNameTaken)
      else if bool_decide (is_Some (peersByName m !! n)) then (m, Some ErrNameTaken)
      else (m <| peers := peers m ++ [newPeerState n k factory prs] |>
              <| peersByName := <[n := length (peers m)]> (peersByName m) |>, None)
  end.

Definition SetPrimaryPeerName (n : string) (m : Multipath) : Multipath * option error :=
  if bool_decide (n = EmptyString) then (m, Some ErrNoName)
  else if isOpen m then (m, Some ErrNotClosed)
  else if bool_decide (is_Some (peersByName m !! n)) then (m, Some ErrNameTaken)
  else (m <| peers := alter (fun p => p <| name := n |>) 0%nat (peers m) |>
          <| peersByName := <[n := 0%nat]> (delete (name (primary m)) (peersByName m)) |>, None).

(** ** A peer's view of a socket *)
Definition seedRemote (now : Time) (m : Multipath) (p : peerState) (def : Path) (t : remote.table) : remote.table :=
  if apValid (DestAddr def) then fst (remote.setRemote now (DestAddr def) t)
  else match configuredRemote p with
  | Some ap => fst (remote.setRemote now ap t)
  | None =>
      match defaultRemote m with
      | Some ap => if (size (edgePeerByRemote m) =? 0)%nat then fst (remote.setRemote now ap t) else t
      | None => t
      end
  end.

Definition addViewLocked (pi : nat) (sp : sharedPathState) : sharedPathState :=
  mkShared (sname sp) (sid sp) (ssrc sp) (sconn sp) (sbindMode sp) (sboundDevice sp) (views sp ++ [pi]).
Definition withId (ident : Z) (sp : sharedPathState) : sharedPathState :=
  mkShared (sname sp) ident (ssrc sp) (sconn sp) (sbindMode sp) (sboundDevice sp) (views sp).

Definition appendPath (pi : nat) (pp : peerPathState) (m : Multipath) : Multipath :=
  m <| peers := alter (fun p => p <| ppaths := ppaths p ++ [pp] |>) pi (peers m) |>.

(** [prober] is [None] for one to mint, which then stamps [ident]. *)
Definition attachPeerPathLocked (now : Time) (pi : nat) (sp : sharedPathState) (def : Path) (ident : Z)
    (prober : option Z) (m : Multipath) : error + (Multipath * sharedPathState * peerPathState) :=
  match peers m !! pi with
  | None => inl ErrIndexOutOfRange
  | Some p =>
      match (match prober with
             | Some pr => Some pr
             | None => if hasProber p then Some ident else None
             end) with
      | None => inl ErrNoTransport
      | Some pr =>
          match newCodec p with
          | Ok codec =>
              let pp := mkPeerPath (sname sp) codec pr (seedRemote now m p def (remote.newTable (sid sp))) in
              inr (appendPath pi pp m, addViewLocked pi sp, pp)
          | _ => inl ErrCodec
          end
      end
  end.

Definition detachPeerPathBoundLocked (pi : nat) (n : string) (m : Multipath) : Multipath :=
  m <| peers := alter (fun p =>
         match list_find (fun pp => ppname pp = n) (ppaths p) with
         | Some (i, _) => p <| ppaths := delete i (ppaths p) |>
         | None => p
         end) pi (peers m) |>.

Definition detachAll (pis : list nat) (n : string) (m : Multipath) : Multipath :=
  fold_left (fun m pi => detachPeerPathBoundLocked pi n m) pis m.

Fixpoint attach_loop (now : Time) (def : Path) (ident : Z) (reuse : option (list Z)) (pis : list nat)
    (attached : list peerPathState) (sp : sharedPathState) (m : Multipath)
    : Multipath * (error + (sharedPathState * list peerPathState)) :=
  match pis with
  | [] => (m, inr (sp, attached))
  | pi :: pis =>
      let prober := prs ← reuse; Some (nth pi prs 0) in
      match attachPeerPathLocked now pi sp def ident prober m with
      | inl e => (detachAll (rev (List.seq 0 (length attached))) (sname sp) m, inl e)
      | inr (m, sp, pp) => attach_loop now def ident reuse pis (attached ++ [pp]) sp m
      end
  end.
Definition attachSharedPathLocked (now : Time) (sp : sharedPathState) (def : Path) (ident : Z)
    (reuse : option (list Z)) (m : Multipath) : Multipath * (error + (sharedPathState * list peerPathState)) :=
  attach_loop now def ident reuse (List.seq 0 (length (peers m))) [] sp m.

(** ** Opening and closing *)
Definition warnForcedDeviceStillDeferred (mode d : string) : bool :=
  bool_decide (mode = BindModeDevice) && bool_decide (d = EmptyString).

Definition detachSocketGenerationsLocked (m : Multipath) : Multipath :=
  m <| shared := [] |> <| deferred := [] |> <| peers := map (fun p => p <| ppaths := [] |>) (peers m) |>.
Definition clearPerOpenStateAfterReaders (m : Multipath) : Multipath :=
  m <| peers := map (fun p => p <| reseq := false |>) (peers m) |>.

(** The views of one socket: the first peer's prober gives the shared path its id. *)
Fixpoint open_peers (now : Time) (i : nat) (def : Path) (pis : list nat) (sp : sharedPathState) (m : Multipath)
    : error + (Multipath * sharedPathState) :=
  match pis with
  | [] => inr (m, sp)
  | pi :: pis =>
      match peers m !! pi with
      | None => inl ErrIndexOutOfRange
      | Some p =>
          match newCodec p with
          | Ok codec =>
              match probers p !! i with
              | None => inl ErrDesync
              | Some pr =>
                  let sp := if (pi =? 0)%nat then withId pr sp else sp in
                  let pp := mkPeerPath (sname sp) codec pr (seedRemote now m p def (remote.newTable (sid sp))) in
                  open_peers now i def pis (addViewLocked pi sp) (appendPath pi pp m)
              end
          | _ => inl ErrCodec
          end
      end
  end.

(** The kernel's two listeners, per call. *)
Record kernel := mkKernel {
  ifaces : option (list Interface); onDevice : nat -> listener; pinned : nat -> listener
}.
Definition listen (k : kernel) (i : nat) : Addr -> Z -> string -> bool * (listenError + Z) :=
  listenPath (onDevice k i) (pinned k i).

(** The bound port is the first socket's. *)
Fixpoint open_defs (k : kernel) (now : Time) (port : Z) (i : nat) (todo : list (Path * string)) (actual : option Z)
    (m : Multipath) : error + (Multipath * option Z) :=
  match todo with
  | [] => inr (m, actual)
  | (def, d) :: todo =>
      match snd (listen k i (SourceAddr def) port d) with
      | inl EADDRNOTAVAIL =>
          match probers (primary m) !! i with
          | None => inl ErrIndexOutOfRange
          | Some pr =>
              open_defs k now port (S i) todo actual
                (m <| deferred := deferred m ++ [mkDeferred def pr (warnForcedDeviceStillDeferred (pathBind def) d) false] |>)
          end
      | inl EOTHER => inl ErrListen
      | inr c =>
          match open_peers now i def (List.seq 0 (length (peers m)))
                  (mkShared (pathName def) (u8 (Z.of_nat i)) (SourceAddr def) c (pathBind def) d []) m with
          | inl e => inl e
          | inr (m, sp) =>
              open_defs k now port (S i) todo (match actual with Some a => Some a | None => Some c end)
                (m <| shared := shared m ++ [sp] |>)
          end
      end
  end.

Definition raise (next : Z) (ids : list Z) : Z :=
  fold_left (fun n ident => if n <? u16 (ident + 1) then u16 (ident + 1) else n) ids next.

(** [openAdaptivePeer] fails when the codec of the peer cannot be built. *)
Definition canOpenAdaptive (p : peerState) : bool := match newCodec p with Ok _ => true | _ => false end.

Definition Open (k : kernel) (now : Time) (port : Z) (m : Multipath)
    : Multipath * (error + Z) :=
  if isOpen m then (m, inl ErrBindAlreadyOpen)
  else
    let fail (e : error) (m : Multipath) := (clearPerOpenStateAfterReaders (detachSocketGenerationsLocked m), inl e) in
    let m := m <| peers := map (fun p => p <| reseq := true |>) (peers m) |> in
    let bindDevs := planPathBinds (ifaces k) (map SourceAddr (defs m)) (map pathBind (defs m)) in
    let m := m <| deferred := [] |> in
    match open_defs k now port 0 (zip (defs m) bindDevs) None m with
    | inl e => fail e m
    | inr (m, actual) =>
        if negb (isOpen m) then fail ErrAllDeferred m
        else
          let m := m <| openPort := port |> in
          let next := raise (nextPathID m) (map (fun pp => remote.id (ppremote pp)) (ppaths (primary m))) in
          let m := m <| nextPathID := raise next (map dprober (deferred m)) |> in
          if forallb canOpenAdaptive (peers m)
          then (m, inr (default port actual))
          else fail ErrCodec m
    end.

(** [closed]: closing the sockets reported no error. *)
Definition Close (closed : bool) (m : Multipath) : Multipath * option error :=
  (clearPerOpenStateAfterReaders (detachSocketGenerationsLocked m), if closed then None else Some ErrRetire).

(** ** Admission at runtime *)
Definition findDef (n : string) (m : Multipath) : option nat := fst <$> list_find (fun d => pathName d = n) (defs m).

Definition AddPath (k : kernel) (now : Time) (def : Path) (m : Multipath) : Multipath * option error :=
  if negb (isOpen m) then (m, Some ErrClosed)
  else if negb (hasProber (primary m)) then (m, Some ErrNoTransport)
  else if negb (IsValid (SourceAddr def)) then (m, Some ErrNoSource)
  else if bool_decide (is_Some (findDef (pathName def) m)) then (m, Some ErrDuplicatePath)
  else if 255 <? nextPathID m then (m, Some ErrExhausted)
  else
    let ident := u8 (nextPathID m) in
    let d := runtimeDev (ifaces k) (defs m) (SourceAddr def) (pathBind def) in
    match snd (listen k 0 (SourceAddr def) (openPort m) d) with
    | inl EADDRNOTAVAIL =>
        if negb (forallb hasProber (peers m)) then (m, Some ErrNoTransport)
        else (m <| defs := defs m ++ [def] |>
                <| peers := map (fun p => p <| probers := probers p ++ [ident] |>) (peers m) |>
                <| deferred := deferred m ++ [mkDeferred def ident (warnForcedDeviceStillDeferred (pathBind def) d) false] |>
                <| nextPathID := u16 (nextPathID m + 1) |>, None)
    | inl EOTHER => (m, Some ErrListen)
    | inr c =>
        match attachSharedPathLocked now
                (mkShared (pathName def) ident (SourceAddr def) c (pathBind def) d []) def ident None m with
        | (m, inl e) => (m, Some e)
        | (m, inr (sp, attached)) =>
            (m <| shared := shared m ++ [sp] |> <| defs := defs m ++ [def] |>
               <| peers := zip_with (fun p pp => p <| probers := probers p ++ [ppprober pp] |>) (peers m) attached |>
               <| nextPathID := u16 (nextPathID m + 1) |>, None)
        end
    end.

(** ** Removal *)
Definition removeDurableLocked (defIdx : nat) (n : string) (m : Multipath) : Multipath * option error :=
  if negb (forallb (fun p => (length (probers p) =? length (defs m))%nat) (peers m)) then (m, Some ErrDesync)
  else (m <| defs := delete defIdx (defs m) |>
          <| peers := map (fun p => p <| probers := delete defIdx (probers p) |>) (peers m) |>
          <| deferred := match list_find (fun d => pathName (ddef d) = n) (deferred m) with
                         | Some (i, _) => delete i (deferred m)
                         | None => deferred m
                         end |>, None).

(** [closed]: closing the removed socket reported no error. *)
Definition RemovePath (closed : bool) (n : string) (m : Multipath) : Multipath * option error :=
  if negb (isOpen m) then (m, Some ErrClosed)
  else match findDef n m with
  | None => (m, Some ErrNoSuchPath)
  | Some defIdx =>
      match list_find (fun sp => sname sp = n) (shared m) with
      | None => removeDurableLocked defIdx n m
      | Some (sharedIdx, _) =>
          if (length (shared m) =? 1)%nat then (m, Some ErrLastPath)
          else
            let m := detachAll (List.seq 0 (length (peers m))) n m in
            let '(m, e) := removeDurableLocked defIdx n (m <| shared := delete sharedIdx (shared m) |>) in
            (m, match e with Some e => Some e | None => if closed then None else Some ErrRetire end)
      end
  end.

Definition PathNames (m : Multipath) : list string := map pathName (defs m).

(** ** Deferred paths *)
Definition promoteDeferredLocked (now : Time) (dp : deferredPath) (c : Z) (d : string) (m : Multipath)
    : Multipath * option error :=
  match findDef (pathName (ddef dp)) m with
  | None => (m, Some ErrDesync)
  | Some defIdx =>
      match mapM (fun p => probers p !! defIdx) (peers m) with
      | None => (m, Some ErrDesync)
      | Some prs =>
          let ident := nth 0 prs 0 in
          match attachSharedPathLocked now
                  (mkShared (pathName (ddef dp)) ident (SourceAddr (ddef dp)) c (pathBind (ddef dp)) d [])
                  (ddef dp) ident (Some prs) m with
          | (m, inl e) => (m, Some e)
          | (m, inr (sp, _)) => (m <| shared := shared m ++ [sp] |>, None)
          end
      end
  end.

Fixpoint reconcile_loop (k : kernel) (now : Time) (i : nat) (todo kept : list deferredPath) (m : Multipath) : Multipath :=
  match todo with
  | [] => m <| deferred := kept |>
  | dp :: todo =>
      let def := ddef dp in
      let d := runtimeDev (ifaces k) (defs m) (SourceAddr def) (pathBind def) in
      match snd (listen k i (SourceAddr def) (openPort m) d) with
      | inl _ =>
          reconcile_loop k now (S i) todo
            (kept ++ [mkDeferred def (dprober dp) (warnForcedDeviceStillDeferred (pathBind def) d) (warnedPromoteFail dp)]) m
      | inr c =>
          match promoteDeferredLocked now dp c d m with
          | (m, Some _) => reconcile_loop k now (S i) todo (kept ++ [mkDeferred def (dprober dp) false true]) m
          | (m, None) => reconcile_loop k now (S i) todo kept m
          end
      end
  end.

Definition reconcileDeferred (k : kernel) (now : Time) (m : Multipath) : Multipath :=
  if negb (isOpen m) || (length (deferred m) =? 0)%nat then m
  else reconcile_loop k now 0 (deferred m) [] m.

(** ** Destinations *)
Definition setAll (now : Time) (pi : nat) (ap : AddrPort) (m : Multipath) : Multipath :=
  m <| peers := alter (fun p => p <| ppaths := map (fun pp =>
         mkPeerPath (ppname pp) (ppcodec pp) (ppprober pp) (fst (remote.setRemote now ap (ppremote pp)))) (ppaths p) |>) pi (peers m) |>.

(** The peer whose virtual endpoint is returned. *)
Definition ParseEndpoint (now : Time) (s : string) (m : Multipath) : Multipath * option nat :=
  match ParseAddrPort s with
  | None => (m, None)
  | Some ap =>
      let pi := default 0%nat (edgePeerByRemote m !! ap) in
      let m := m <| defaultRemote := Some ap |> in
      let upd (p : peerState) :=
        let p := match virtDst p with Some _ => p | None => p <| virtDst := Some ap |> end in
        p <| ppaths := map (fun pp => match remote.getRemote (ppremote pp) with
               | Some _ => pp
               | None => mkPeerPath (ppname pp) (ppcodec pp) (ppprober pp) (fst (remote.setRemote now ap (ppremote pp)))
               end) (ppaths p) |> in
      (m <| peers := alter upd pi (peers m) |>, Some pi)
  end.

Fixpoint seed_loop (i : nat) (remotes : list AddrPort) (m : Multipath) : Multipath :=
  match remotes with
  | [] => m
  | ap :: remotes =>
      seed_loop (S i) remotes
        (if negb (apValid ap) then m
         else m <| peers := alter (fun p => p <| configuredRemote := Some ap |>) i (peers m) |>
                <| edgePeerByRemote := <[ap := i]> (edgePeerByRemote m) |>)
  end.
Definition SeedEdgePeerRemotes (remotes : list AddrPort) (m : Multipath) : Multipath * option error :=
  if negb (length remotes =? length (peers m))%nat then (m, Some ErrRemoteCount)
  else (seed_loop 0 remotes m, None).

Definition SetPeerRemote (now : Time) (ap : AddrPort) (m : Multipath) : Multipath :=
  setAll now 0 ap (m <| defaultRemote := Some ap |>).

Definition setPeerRemoteForLocked (now : Time) (pi : nat) (ap : AddrPort) (m : Multipath) : Multipath * option error :=
  match peers m !! pi with
  | None => (m, Some ErrIndexOutOfRange)
  | Some p =>
      if match edgePeerByRemote m !! ap with Some owner => negb (owner =? pi)%nat | None => false end
      then (m, Some ErrRemoteOwned)
      else
        let e := match configuredRemote p with
                 | Some old => if negb (bool_decide (old = ap)) then delete old (edgePeerByRemote m) else edgePeerByRemote m
                 | None => edgePeerByRemote m
                 end in
        (setAll now pi ap (m <| peers := alter (fun p => p <| configuredRemote := Some ap |>) pi (peers m) |>
                             <| edgePeerByRemote := <[ap := pi]> e |>), None)
  end.
Definition SetPeerRemoteFor (now : Time) (n : string) (ap : AddrPort) (m : Multipath) : Multipath * option error :=
  match peersByName m !! n with
  | None => (m, Some ErrUnknownPeer)
  | Some pi => setPeerRemoteForLocked now pi ap m
  end.

(** ** Bring-up ([device.up]): the probers of a peer stamp the paths in order. *)
Definition buildProbers (c : Config) : list (option Z) := map (fun i => Some (u8 (Z.of_nat i))) (List.seq 0 (length (Paths c))).

Fixpoint wirePeers (c : Config) (ids : list PeerIdentity) (m : Multipath) : Multipath * option error :=
  match ids with
  | [] => (m, None)
  | ident :: ids =>
      match AddConcentratorPeer (idName ident) (idPSK ident) (buildProbers c) true m with
      | (m, None) => wirePeers c ids m
      | (m, Some e) => (m, Some e)
      end
  end.
Definition bootBind (c : Config) (ids : list PeerIdentity) : error + Multipath :=
  match ids with
  | [] => inl ErrIndexOutOfRange
  | primary :: rest =>
      match NewMultipath (Paths c) (idPSK primary) (buildProbers c) true true with
      | inl e => inl e
      | inr m =>
          let '(m, e) := if (1 <? length ids)%nat then SetPrimaryPeerName (idName primary) m else (m, None) in
          match e with
          | Some e => inl e
          | None => match wirePeers c rest m with (m, None) => inr m | (_, Some e) => inl e end
          end
      end
  end.

End paths.
