(* ===== verification/BindPathsTheory.v ===== *)
(** * The bond's membership: well-formedness *)

From Stdlib Require Import Ascii String.
From stdpp Require Import base tactics list numbers gmap strings.
From S2P Require Import Prelude Sha256 Frame FrameProps Netip Config BindRemote BindSock BindPaths.

Module paths_theory.
Import config netip pathsock paths.

(** ** Views *)
Lemma newCodec_ok p : IsSet (psk p) = true -> exists c, newCodec p = Ok c.
Proof. intros H. destruct (frame_props.NewCodec_ok (frame.mkKey (kbytes (psk p)) (kset (psk p))) H) as (c & E & _). by exists c. Qed.

Lemma seedRemote_id now m p def t : remote.id (seedRemote now m p def t) = remote.id t.
Proof. unfold seedRemote. repeat case_match; done. Qed.

Definition good (n : string) (stamp ident : Z) (pp : peerPathState) : Prop :=
  ppname pp = n /\ ppprober pp = stamp /\ remote.id (ppremote pp) = ident.

(** Each peer gets one more path. *)
Definition grow (ps : list peerState) (pps : list peerPathState) : list peerState :=
  zip_with (fun p pp => p <| ppaths := ppaths p ++ [pp] |>) ps pps.

Lemma alter_middle {A} (f : A -> A) l x r : alter f (length l) (app l (x :: r)) = app l (f x :: r).
Proof. induction l as [|y l IH]; cbn; [done|]. by f_equal. Qed.

Definition viewed (sp : sharedPathState) (n k : nat) : sharedPathState :=
  mkShared (sname sp) (sid sp) (ssrc sp) (sconn sp) (sbindMode sp) (sboundDevice sp) (app (views sp) (List.seq n k)).

Definition ready (p : peerState) : Prop := IsSet (psk p) = true /\ hasProber p = true.

(** Reused probers all stamp the path's id. *)
Definition reuses (ident : Z) (n : nat) (reuse : option (list Z)) : Prop :=
  match reuse with None => True | Some prs => forall i, (i < n)%nat -> nth i prs 0 = ident end.

Lemma attach_loop_spec now def ident reuse n done rest attached sp m :
  peers m = app done rest -> length attached = length done -> length (peers m) = n -> Forall ready rest -> reuses ident n reuse ->
  exists pps, length pps = length rest /\ Forall (good (sname sp) ident (sid sp)) pps /\
    attach_loop now def ident reuse (List.seq (length done) (length rest)) attached sp m =
      (m <| peers := app done (grow rest pps) |>, inr (viewed sp (length done) (length rest), app attached pps)).
Proof.
  revert done attached sp m. induction rest as [|p rest IH]; intros done attached sp m Hp Ha Hn Hr Hu.
  - exists []. split; [done|]. split; [constructor|]. cbn [length List.seq attach_loop]. rewrite app_nil_r in Hp. unfold grow, viewed. cbn [zip_with]. cbn [List.seq].
    rewrite !app_nil_r, <- Hp. by destruct m, sp.
  - apply Forall_cons in Hr as [[Hk Hh] Hr]. cbn [length List.seq attach_loop]. unfold attachPeerPathLocked.
    assert (peers m !! length done = Some p) as -> by (rewrite Hp, lookup_app_r, Nat.sub_diag by done; done).
    set (pr := match reuse with Some prs => Some (nth (length done) prs 0) | None => None end).
    assert (match pr with Some x => Some x | None => if hasProber p then Some ident else None end = Some ident) as E.
    { unfold pr. destruct reuse as [prs|]; [|by rewrite Hh]. f_equal. apply Hu. rewrite <- Hn, Hp, length_app. cbn. lia. }
    assert ((prs ← reuse; Some (nth (length done) prs 0)) = pr) as -> by (by destruct reuse). rewrite E. clear E.
    destruct (newCodec_ok p Hk) as [codec ->].
    set (pp := mkPeerPath _ _ _ _).
    set (sp' := addViewLocked (length done) sp).
    destruct (IH (app done [p <| ppaths := app (ppaths p) [pp] |>]) (app attached [pp]) sp' (appendPath (length done) pp m))
      as (pps & Hl & Hg & Hrun).
    + unfold appendPath. cbn [peers update]. rewrite Hp, alter_middle, <- app_assoc. done.
    + rewrite !length_app. cbn. lia.
    + unfold appendPath. cbn [peers update]. by rewrite length_alter.
    + done.
    + done.
    + exists (pp :: pps). split; [cbn; lia|]. split.
      * constructor; [|exact Hg]. unfold good, pp. cbn [ppname ppprober ppremote]. by rewrite seedRemote_id.
      * rewrite length_app in Hrun. cbn [length] in Hrun. rewrite Nat.add_1_r in Hrun. rewrite Hrun. unfold grow at 2. cbn [zip_with].
        rewrite <- !app_assoc. unfold viewed, sp', addViewLocked. cbn [sname sid ssrc sconn sbindMode sboundDevice views].
        rewrite <- app_assoc. done.
Qed.

Lemma attach_spec now def ident reuse sp m :
  Forall ready (peers m) -> reuses ident (length (peers m)) reuse ->
  exists pps, length pps = length (peers m) /\ Forall (good (sname sp) ident (sid sp)) pps /\
    attachSharedPathLocked now sp def ident reuse m =
      (m <| peers := grow (peers m) pps |>, inr (viewed sp 0 (length (peers m)), pps)).
Proof.
  intros Hr Hu. destruct (attach_loop_spec now def ident reuse (length (peers m)) [] (peers m) [] sp m)
    as (pps & Hl & Hg & E); try done. exists pps. done.
Qed.

(** ** Opening one socket *)
Lemma open_peers_spec now i def stamp done rest sp m :
  peers m = app done rest -> Forall (fun p => IsSet (psk p) = true /\ probers p !! i = Some stamp) (peers m) ->
  (done <> [] -> sid sp = stamp) ->
  exists pps, length pps = length rest /\ Forall (good (sname sp) stamp stamp) pps /\
    open_peers now i def (List.seq (length done) (length rest)) sp m =
      inr (m <| peers := app done (grow rest pps) |>,
           if (length rest =? 0)%nat then sp else withId stamp (viewed sp (length done) (length rest))).
Proof.
  revert done sp m. induction rest as [|p rest IH]; intros done sp m Hp Hr Hs.
  - exists []. split; [done|]. split; [constructor|]. cbn [length List.seq open_peers Nat.eqb]. rewrite app_nil_r in Hp.
    unfold grow. cbn [zip_with]. rewrite app_nil_r, <- Hp. by destruct m.
  - cbn [length List.seq open_peers Nat.eqb].
    assert (peers m !! length done = Some p) as Hlk by (rewrite Hp, lookup_app_r, Nat.sub_diag by done; done). rewrite Hlk.
    pose proof (proj1 (Forall_lookup _ _) Hr _ _ Hlk) as [Hk Hpr]. destruct (newCodec_ok p Hk) as [codec ->]. rewrite Hpr.
    set (sp1 := if (length done =? 0)%nat then withId stamp sp else sp).
    assert (sp1 = withId stamp sp) as E1.
    { unfold sp1. destruct done as [|x done]; [done|]. cbn. unfold withId. rewrite <- (Hs ltac:(done)). by destruct sp. }
    rewrite E1. clear sp1 E1. set (pp := mkPeerPath _ _ _ _).
    destruct (IH (app done [p <| ppaths := app (ppaths p) [pp] |>]) (addViewLocked (length done) (withId stamp sp)) (appendPath (length done) pp m))
      as (pps & Hl & Hg & Hrun).
    + unfold appendPath. cbn [peers update]. rewrite Hp, alter_middle, <- app_assoc. done.
    + unfold appendPath. cbn [peers update]. rewrite Hp, alter_middle. rewrite Hp in Hr.
      apply Forall_app in Hr as [Hr1 Hr2]. apply Forall_cons in Hr2 as [Hr2 Hr3]. apply Forall_app. split; [done|]. by constructor.
    + done.
    + exists (pp :: pps). split; [cbn; lia|]. split.
      * constructor; [|exact Hg]. unfold good, pp. cbn [ppname ppprober ppremote]. by rewrite seedRemote_id.
      * rewrite length_app in Hrun. cbn [length] in Hrun. rewrite Nat.add_1_r in Hrun. rewrite Hrun. unfold grow at 2. cbn [zip_with].
        rewrite <- !app_assoc. unfold viewed, addViewLocked, withId. cbn [sname sid ssrc sconn sbindMode sboundDevice views].
        destruct rest as [|q rest]; cbn [length Nat.eqb]; [done|]. by rewrite <- app_assoc.
Qed.

Lemma open_peers_all now i def stamp sp m : peers m <> [] ->
  Forall (fun p => IsSet (psk p) = true /\ probers p !! i = Some stamp) (peers m) ->
  exists pps, length pps = length (peers m) /\ Forall (good (sname sp) stamp stamp) pps /\
    open_peers now i def (List.seq 0 (length (peers m))) sp m =
      inr (m <| peers := grow (peers m) pps |>, withId stamp (viewed sp 0 (length (peers m)))).
Proof.
  intros Hn Hr. destruct (open_peers_spec now i def stamp [] (peers m) sp m) as (pps & Hl & Hg & E); try done.
  exists pps. split; [done|]. split; [done|]. etransitivity; [exact E|]. cbn [app length]. by destruct (peers m).
Qed.

(** ** Well-formedness

    [st] are the stamps of the configured paths, in order, the same for each peer.
    While the bond is open every configured path is bound or deferred, with its
    stamp; each peer has one view of each socket, in order; and no id at or above
    [nextPathID] was given. *)
Definition tag (pp : peerPathState) : string * Z * Z := (ppname pp, ppprober pp, remote.id (ppremote pp)).
Definition stag (sp : sharedPathState) : string * Z * Z := (sname sp, sid sp, sid sp).
Definition bound_of (m : Multipath) : list (string * Z) := map (fun sp => (sname sp, sid sp)) (shared m).
Definition deferred_of (ds : list deferredPath) : list (string * Z) := map (fun d => (pathName (ddef d), dprober d)) ds.

Definition peer_wf (st : list Z) (sh : list sharedPathState) (p : peerState) : Prop :=
  probers p = st /\ ready p /\ map tag (ppaths p) = map stag sh.

Record wf (st : list Z) (m : Multipath) : Prop := mkWf {
  wf_some : peers m <> [];
  wf_peer : Forall (peer_wf st (shared m)) (peers m);
  wf_len : length st = length (defs m);
  wf_nodup : NoDup st;
  wf_byte : Forall (fun s => 0 <= s <= 255) st;
  wf_names : NoDup (PathNames m);
  wf_next : 0 <= nextPathID m <= 256;
  wf_views : Forall (fun sp => views sp = List.seq 0 (length (peers m))) (shared m);
  wf_cover : shared m <> [] -> app (bound_of m) (deferred_of (deferred m)) ≡ₚ zip (PathNames m) st;
  wf_fresh : shared m <> [] -> Forall (fun s => s < nextPathID m) st;
  wf_closed : shared m = [] -> deferred m = []
}.

Lemma primary_in m : peers m <> [] -> primary m ∈ peers m.
Proof. unfold primary. destruct (peers m); [done|]. intros _. apply list_elem_of_here. Qed.

Lemma wf_primary st m : wf st m -> peer_wf st (shared m) (primary m).
Proof. intros H. pose proof (wf_peer _ _ H) as F. rewrite Forall_forall in F. apply F, primary_in, H. Qed.

Lemma wf_stamps st m : wf st m -> probers (primary m) = st.
Proof. intros H. apply (wf_primary _ _ H). Qed.

Lemma wf_isOpen st m : wf st m -> isOpen m = negb (length (shared m) =? 0)%nat.
Proof.
  intros H. destruct (wf_primary _ _ H) as (_ & _ & E). unfold isOpen. apply (f_equal length) in E.
  rewrite !length_map in E. by rewrite E.
Qed.

Lemma isOpen_true st m : wf st m -> isOpen m = true <-> shared m <> [].
Proof. intros H. rewrite (wf_isOpen _ _ H). by destruct (shared m). Qed.
Lemma isOpen_false st m : wf st m -> isOpen m = false <-> shared m = [].
Proof. intros H. rewrite (wf_isOpen _ _ H). by destruct (shared m). Qed.

Lemma Forall_zip {A B C} (P : A -> Prop) (Q : B -> Prop) (R : C -> Prop) (f : A -> B -> C) l k :
  (forall x y, P x -> Q y -> R (f x y)) -> Forall P l -> Forall Q k -> Forall R (zip_with f l k).
Proof.
  intros H Hl. revert k. induction Hl as [|x l Hx _ IH]; intros k Hk; cbn [zip_with]; [constructor|].
  destruct Hk as [|y k Hy Hk]; constructor; auto.
Qed.

Lemma good_tag n s pp : good n s s pp -> tag pp = (n, s, s).
Proof. intros (H1 & H2 & H3). unfold tag. congruence. Qed.

Lemma grow_wf st sh ps pps sp ident : Forall (peer_wf st sh) ps -> Forall (good (sname sp) ident ident) pps -> sid sp = ident ->
  Forall (peer_wf st (app sh [sp])) (grow ps pps).
Proof.
  intros Hp Hg Hi. unfold grow. eapply Forall_zip; [|exact Hp|exact Hg].
  intros p pp (H1 & [H2 H3] & H4) G. split; [done|]. split; [done|]. cbn [ppaths update].
  rewrite !map_app, H4. cbn [map]. rewrite (good_tag _ _ _ G). unfold stag. by rewrite Hi.
Qed.

Lemma length_grow ps pps : length pps = length ps -> length (grow ps pps) = length ps.
Proof. intros H. unfold grow. rewrite length_zip_with. lia. Qed.

(** Nothing the membership is about changes. *)
Definition peer_sim (p q : peerState) : Prop :=
  probers q = probers p /\ psk q = psk p /\ hasProber q = hasProber p /\ map tag (ppaths q) = map tag (ppaths p).

Lemma peer_sim_refl p : peer_sim p p.
Proof. done. Qed.

Lemma wf_sim st m m' : wf st m -> defs m' = defs m -> shared m' = shared m -> deferred m' = deferred m ->
  nextPathID m' = nextPathID m -> Forall2 peer_sim (peers m) (peers m') -> wf st m'.
Proof.
  intros [H1 H2 H3 H4 H5 H6 H7 H8 H9 H10 H11] E1 E2 E3 E4 F.
  pose proof (Forall2_length _ _ _ F) as El.
  split; unfold PathNames, bound_of; rewrite ?E1, ?E2, ?E3, ?E4, <- ?El; try done.
  - intros E. rewrite E in El. by destruct (peers m).
  - clear H1 El H8. induction F as [|p q ps qs (S1 & S2 & S3 & S4) _ IH]; [constructor|].
    apply Forall_cons in H2 as [(P1 & [P2 P3] & P4) H2]. constructor; [|by apply IH].
    split; [congruence|]. split; [split; congruence|congruence].
Qed.

Lemma Forall2_alter_sim f i ps : (forall p, peer_sim p (f p)) -> Forall2 peer_sim ps (alter f i ps).
Proof.
  intros Hf. revert i. induction ps as [|p ps IH]; intros [|i]; cbn; constructor; auto using peer_sim_refl.
  clear IH. induction ps; constructor; auto using peer_sim_refl.
Qed.

(** ** Names *)
Lemma findDef_some n m i : findDef n m = Some i -> exists d, defs m !! i = Some d /\ pathName d = n /\ PathNames m !! i = Some n.
Proof.
  unfold findDef. destruct (list_find _ _) as [[j d]|] eqn:F; [|done]. intros [= ->].
  apply list_find_Some in F as (H1 & H2 & _). exists d. split_and!; try done.
  unfold PathNames. change (map pathName (defs m)) with (pathName <$> defs m). rewrite list_lookup_fmap, H1. cbn. by rewrite H2.
Qed.

Lemma findDef_none n m : findDef n m = None <-> n ∉ PathNames m.
Proof.
  unfold findDef. rewrite fmap_None, list_find_None, Forall_forall. unfold PathNames.
  change (map pathName (defs m)) with (pathName <$> defs m). rewrite list_elem_of_fmap. split.
  - intros H (d & -> & Hd). by apply (H d).
  - intros H d Hd <-. apply H. eauto.
Qed.

(** The element of a name removed, where names are distinct. *)
Definition drop_name {A} (f : A -> string) (n : string) (l : list A) : list A :=
  match list_find (fun x => f x = n) l with Some (i, _) => delete i l | None => l end.

Lemma filter_other {A} (f : A -> string) n (l : list A) : n ∉ f <$> l -> filter (fun x => f x <> n) l = l.
Proof.
  induction l as [|x l IH]; [done|]. cbn [fmap list_fmap]. intros [N1 N2]%not_elem_of_cons.
  rewrite filter_cons_True by done. f_equal. by apply IH.
Qed.

Lemma drop_name_filter {A} (f : A -> string) n (l : list A) : NoDup (f <$> l) -> drop_name f n l = filter (fun x => f x <> n) l.
Proof.
  unfold drop_name. induction l as [|x l IH]; [done|]. cbn [fmap list_fmap]. intros [Hx Hn]%NoDup_cons.
  cbn [list_find]. destruct (decide (f x = n)) as [E|E].
  - cbn [delete list_delete]. rewrite filter_cons_False by (intros N; by apply N). subst n. by rewrite filter_other.
  - rewrite filter_cons_True by done. rewrite <- (IH Hn). by destruct (list_find _ l) as [[i y]|].
Qed.

Lemma delete_zip {A B} i (l : list A) (k : list B) : zip (delete i l) (delete i k) = delete i (zip l k).
Proof.
  revert l k. induction i as [|i IH]; intros [|x l] [|y k]; try done.
  - cbn. by destruct l.
  - cbn. f_equal. apply IH.
Qed.

Lemma delete_name {A} (f : A -> string) n l i : NoDup (f <$> l) -> (f <$> l) !! i = Some n ->
  delete i l = filter (fun x => f x <> n) l.
Proof.
  intros Hn Hi. rewrite <- drop_name_filter by done. unfold drop_name.
  apply list_lookup_fmap_Some in Hi as (x & -> & Hx).
  destruct (list_find (fun y => f y = f x) l) as [[j y]|] eqn:E.
  - apply list_find_Some in E as (Hj & E & _). replace j with i; [done|].
    eapply (NoDup_lookup (f <$> l)); [done| |]; rewrite list_lookup_fmap, ?Hx, ?Hj; [done|]. cbn. by rewrite E.
  - apply list_find_None in E. rewrite Forall_forall in E. exfalso. apply (E x); [|done]. by eapply list_elem_of_lookup_2.
Qed.

(** ** Admission *)
Lemma zip_snoc {A B} (l : list A) (k : list B) x y : length l = length k -> zip (app l [x]) (app k [y]) = app (zip l k) [(x, y)].
Proof. intros H. by rewrite zip_with_app. Qed.

Lemma peers_ready st sh ps : Forall (peer_wf st sh) ps -> Forall ready ps.
Proof. intros H. eapply Forall_impl; [exact H|]. by intros p (_ & ? & _). Qed.

Lemma ready_probers ps : Forall ready ps -> forallb hasProber ps = true.
Proof. intros H. apply forallb_forall. intros p Hp. rewrite Forall_forall in H. apply H. by apply list_elem_of_In. Qed.

Lemma fresh_snoc st next : 0 <= next <= 255 -> NoDup st -> Forall (fun s => 0 <= s <= 255) st -> Forall (fun s => s < next) st ->
  NoDup (app st [next]) /\ Forall (fun s => 0 <= s <= 255) (app st [next]) /\ Forall (fun s => s < next + 1) (app st [next]).
Proof.
  intros Hn Hd Hb Hf. split_and!.
  - apply NoDup_app. split_and!; [done| |apply NoDup_singleton].
    intros x Hx ->%list_elem_of_singleton. rewrite Forall_forall in Hf. specialize (Hf _ Hx). lia.
  - apply Forall_app. split; [done|]. by constructor.
  - apply Forall_app. split; [|constructor; [lia|constructor]]. eapply Forall_impl; [exact Hf|]. cbn. lia.
Qed.

Definition add_refused (def : Path) (m : Multipath) (e : error) : Prop :=
  (e = ErrClosed /\ isOpen m = false) \/ (e = ErrNoSource /\ IsValid (SourceAddr def) = false) \/
  (e = ErrDuplicatePath /\ pathName def ∈ PathNames m) \/ (e = ErrExhausted /\ nextPathID m = 256) \/ e = ErrListen.

Lemma wf_add st m m' def sh ds : wf st m -> shared m <> [] -> pathName def ∉ PathNames m -> nextPathID m <= 255 ->
  defs m' = app (defs m) [def] -> nextPathID m' = nextPathID m + 1 -> length (peers m') = length (peers m) ->
  Forall (peer_wf (app st [nextPathID m]) (shared m')) (peers m') ->
  shared m' = app (shared m) sh -> deferred m' = app (deferred m) ds ->
  Forall (fun sp => views sp = List.seq 0 (length (peers m))) sh ->
  app (map (fun sp => (sname sp, sid sp)) sh) (deferred_of ds) = [(pathName def, nextPathID m)] ->
  wf (app st [nextPathID m]) m'.
Proof.
  intros [H1 H2 H3 H4 H5 H6 H7 H8 H9 H10 H11] Ho Hname Hn E1 E2 E3 E4 E5 E6 E7 E8.
  destruct (fresh_snoc st (nextPathID m)) as (F1 & F2 & F3); [lia|done|done|by apply H10|].
  assert (PathNames m' = app (PathNames m) [pathName def]) as En by (unfold PathNames; by rewrite E1, map_app).
  split; rewrite ?E2; try done.
  - intros E. rewrite E in E3. by destruct (peers m).
  - rewrite E1, !length_app. cbn. lia.
  - rewrite En. apply NoDup_app. split_and!; [done| |apply NoDup_singleton].
    by intros x Hx ->%list_elem_of_singleton.
  - lia.
  - rewrite E3, E5. by apply Forall_app.
  - intros _. rewrite En, zip_snoc by (unfold PathNames; by rewrite length_map). unfold bound_of, deferred_of in *. rewrite E5, E6, !map_app.
    rewrite <- (H9 Ho), <- E8. rewrite <- !app_assoc. apply Permutation_app_head.
    rewrite !app_assoc. apply Permutation_app_tail, Permutation_app_comm.
  - rewrite E5. intros E. by destruct (shared m).
Qed.

Lemma AddPath_spec k now def m st : wf st m ->
  let '(m', e) := AddPath k now def m in
  match e with
  | Some e => m' = m /\ add_refused def m e
  | None => isOpen m = true /\ (pathName def ∉ PathNames m) /\ nextPathID m <= 255 /\ wf (app st [nextPathID m]) m' /\
      PathNames m' = app (PathNames m) [pathName def] /\ nextPathID m' = nextPathID m + 1 /\ isOpen m' = true /\
      length (peers m') = length (peers m) /\ exists sh, shared m' = app (shared m) sh
  end.
Proof.
  intros Hw. pose proof Hw as [H1 H2 H3 H4 H5 H6 H7 H8 H9 H10 H11]. unfold AddPath, add_refused.
  destruct (isOpen m) eqn:Eo; cbn [negb]; [|by auto]. pose proof (proj1 (isOpen_true _ _ Hw) Eo) as Ho.
  destruct (wf_primary _ _ Hw) as (_ & [_ ->] & _). cbn [negb].
  destruct (IsValid (SourceAddr def)) eqn:Ev; cbn [negb]; [|by auto].
  destruct (findDef (pathName def) m) as [i|] eqn:Ef.
  { rewrite bool_decide_eq_true_2 by eauto. split; [done|]. right; right; left. split; [done|].
    apply findDef_some in Ef as (_ & _ & _ & Ef). by eapply list_elem_of_lookup_2. }
  rewrite bool_decide_eq_false_2 by (by intros [? ?]). apply findDef_none in Ef.
  destruct (Z.ltb_spec 255 (nextPathID m)) as [El|El]; [split; [done|]; do 3 right; left; split; [done|lia]|].
  replace (u8 (nextPathID m)) with (nextPathID m) by (unfold u8; rewrite Z.mod_small; [done|lia]).
  assert (u16 (nextPathID m + 1) = nextPathID m + 1) as Eu by (unfold u16; rewrite Z.mod_small; [done|lia]).
  cbv zeta. set (d := runtimeDev _ _ _ _). destruct (snd (listen _ _ _ _ _)) as [[]|c]; [|by eauto 10|].
  - rewrite (ready_probers _ (peers_ready _ _ _ H2)). cbn [negb].
    set (dp := mkDeferred _ _ _ _).
    match goal with |- context [wf _ ?x] => set (m' := x) end.
    assert (wf (app st [nextPathID m]) m') as Hw'.
    { apply (wf_add st m m' def [] [dp]); try done; try exact Eu.
      - unfold m'. cbn [peers update]. by rewrite length_map.
      - unfold m'. cbn [peers shared update]. apply Forall_map. eapply Forall_impl; [exact H2|].
        intros p (P1 & P2 & P3). split; [cbn; by rewrite P1|]. done.
      - unfold m'. cbn [shared update]. by rewrite app_nil_r. }
    split_and!; try done; try exact Eu.
    + unfold m', PathNames. cbn [defs update]. by rewrite map_app.
    + by apply (isOpen_true _ _ Hw').
    + unfold m'. cbn [peers update]. by rewrite length_map.
    + exists []. unfold m'. cbn [shared update]. by rewrite app_nil_r.
  - destruct (attach_spec now def (nextPathID m) None (mkShared (pathName def) (nextPathID m) (SourceAddr def) c (pathBind def) d []) m
      (peers_ready _ _ _ H2) I) as (pps & Hl & Hg & ->).
    set (sp := viewed _ _ _).
    match goal with |- context [wf _ ?x] => set (m' := x) end.
    assert (wf (app st [nextPathID m]) m') as Hw'.
    { apply (wf_add st m m' def [sp] []); try done; try exact Eu.
      - unfold m'. cbn [peers update]. rewrite length_zip_with, length_grow by done. lia.
      - unfold m'. cbn [peers shared update].
        eapply Forall_zip; [|apply (grow_wf st (shared m) (peers m) pps sp (nextPathID m)); [exact H2|exact Hg|done]|exact Hg].
        intros p pp (P1 & P2 & P3) (_ & G & _). split; [cbn; by rewrite P1, G|]. done.
      - unfold m'. cbn [deferred update]. by rewrite app_nil_r.
      - constructor; [|constructor]. done. }
    split_and!; try done; try exact Eu.
    + unfold m', PathNames. cbn [defs update]. by rewrite map_app.
    + apply (isOpen_true _ _ Hw'). unfold m'. cbn [shared update]. by destruct (shared m).
    + unfold m'. cbn [peers update]. rewrite length_zip_with, length_grow by done. lia.
    + by exists [sp].
Qed.

(** ** Removal *)
Definition rm (n : string) (p : peerState) : peerState := p <| ppaths := drop_name ppname n (ppaths p) |>.

Lemma detachOne pi n m : detachPeerPathBoundLocked pi n m = m <| peers := alter (rm n) pi (peers m) |>.
Proof.
  unfold detachPeerPathBoundLocked. match goal with |- update _ (fun _ => ?x) _ = _ => replace x with (alter (rm n) pi (peers m)); [done|] end.
  apply list_alter_ext; [|done]. intros p _. unfold rm, drop_name.
  destruct (list_find _ _) as [[i x]|]; [done|]. by destruct p.
Qed.

Lemma detachAll_from n done rest m : peers m = app done rest ->
  detachAll (List.seq (length done) (length rest)) n m = m <| peers := app done (map (rm n) rest) |>.
Proof.
  revert done m. induction rest as [|p rest IH]; intros done m Hp.
  - cbn. rewrite app_nil_r in Hp |- *. rewrite <- Hp. by destruct m.
  - cbn [length List.seq map]. unfold detachAll. cbn [fold_left]. fold (detachAll (List.seq (S (length done)) (length rest)) n).
    rewrite detachOne. replace (S (length done)) with (length (app done [rm n p])) by (rewrite length_app; cbn; lia).
    etransitivity; [apply IH|].
    + cbn [peers update]. by rewrite Hp, alter_middle, <- app_assoc.
    + cbn [update]. by rewrite <- app_assoc.
Qed.
Lemma detachAll_spec n m : detachAll (List.seq 0 (length (peers m))) n m = m <| peers := map (rm n) (peers m) |>.
Proof. exact (detachAll_from n [] (peers m) m eq_refl). Qed.

Lemma filter_map_name {A B} (f : A -> B) (g : A -> string) (h : B -> string) n l : (forall x, h (f x) = g x) ->
  map f (filter (fun x => g x <> n) l) = filter (fun y => h y <> n) (map f l).
Proof.
  intros E. induction l as [|x l IH]; [done|]. cbn [map]. destruct (decide (g x = n)) as [D|D].
  - rewrite filter_cons_False by (intros N; by apply N). rewrite (filter_cons_False _ (f x)) by (rewrite E; intros N; by apply N). done.
  - rewrite filter_cons_True by done. rewrite (filter_cons_True _ (f x)) by (by rewrite E). cbn [map]. by f_equal.
Qed.

Definition name3 (x : string * Z * Z) : string := fst (fst x).

Lemma tag_names st m p : Forall (peer_wf st (shared m)) (peers m) -> p ∈ peers m -> ppname <$> ppaths p = sname <$> shared m.
Proof.
  intros F Hp. rewrite Forall_forall in F. destruct (F p Hp) as (_ & _ & E). apply (f_equal (map name3)) in E.
  by rewrite !map_map in E.
Qed.

Lemma cover_names st m : wf st m -> shared m <> [] ->
  app (sname <$> shared m) (map (fun d => pathName (ddef d)) (deferred m)) ≡ₚ PathNames m.
Proof.
  intros H Ho. pose proof (wf_cover _ _ H Ho) as P. apply (Permutation_map fst) in P.
  change (map fst (zip (PathNames m) st)) with ((zip (PathNames m) st).*1) in P. rewrite fst_zip in P.
  2: { unfold PathNames. rewrite length_map. pose proof (wf_len _ _ H). lia. }
  unfold bound_of, deferred_of in P. rewrite map_app, !map_map in P. exact P.
Qed.

Definition removed (n : string) (st : list Z) (m m' : Multipath) : Prop :=
  exists i, PathNames m !! i = Some n /\ wf (delete i st) m' /\ PathNames m' = filter (fun x => x <> n) (PathNames m) /\
    nextPathID m' = nextPathID m /\ isOpen m' = true /\ shared m' = filter (fun sp => sname sp <> n) (shared m) /\
    isOpen m = true /\ length (peers m') = length (peers m).

(** The durable part, once no socket of the name is left. *)
Lemma removeDurable_spec n i m m1 st : wf st m -> shared m <> [] -> PathNames m !! i = Some n ->
  defs m1 = defs m -> deferred m1 = deferred m -> nextPathID m1 = nextPathID m ->
  shared m1 = filter (fun sp => sname sp <> n) (shared m) -> shared m1 <> [] ->
  peers m1 = map (rm n) (peers m) ->
  exists m', removeDurableLocked i n m1 = (m', None) /\ removed n st m m'.
Proof.
  intros Hw Ho Hi E1 E2 E3 E4 E5 E6. pose proof Hw as [H1 H2 H3 H4 H5 H6 H7 H8 H9 H10 H11].
  unfold removeDurableLocked. fold (drop_name (fun d => pathName (ddef d)) n (deferred m1)).
  assert (forallb (fun p => (length (probers p) =? length (defs m1))%nat) (peers m1) = true) as ->.
  { apply forallb_forall. intros q Hq. rewrite E6 in Hq. apply in_map_iff in Hq as (p & <- & Hp%list_elem_of_In).
    rewrite Forall_forall in H2. destruct (H2 p Hp) as (P & _). cbn [rm probers update]. rewrite P, E1, H3. apply Nat.eqb_refl. }
  cbn [negb]. eexists. split; [reflexivity|]. exists i. split; [done|].
  pose proof (cover_names _ _ Hw Ho) as Pn.
  assert (NoDup (app (sname <$> shared m) (map (fun d => pathName (ddef d)) (deferred m)))) as Nn by (by rewrite Pn).
  apply NoDup_app in Nn as (Ns & _ & Nd).
  match goal with |- wf _ ?x /\ _ => set (m' := x) end.
  assert (PathNames m' = filter (fun x => x <> n) (PathNames m)) as En.
  { unfold PathNames, m'. cbn [defs update]. rewrite E1. change (map pathName (delete i (defs m))) with (pathName <$> delete i (defs m)).
    rewrite list_fmap_delete. apply (delete_name id); [by rewrite list_fmap_id|]. by rewrite list_fmap_id. }
  assert (wf (delete i st) m') as Hw'.
  { split; try done.
    - unfold m'. cbn [peers update]. rewrite E6. by destruct (peers m).
    - unfold m'. cbn [peers shared update]. rewrite E6, E4. rewrite !Forall_map. apply Forall_forall. intros p Hp.
      rewrite Forall_forall in H2. destruct (H2 p Hp) as (P1 & P2 & P3). split; [cbn; by rewrite P1|]. split; [done|].
      cbn [rm ppaths update]. rewrite drop_name_filter by (rewrite (tag_names st m p); [done|by apply Forall_forall|done]).
      rewrite (filter_map_name tag ppname name3) by done. rewrite P3. by rewrite <- (filter_map_name stag sname name3).
    - unfold m'. cbn [defs update]. rewrite E1, !length_delete; [lia| |];
        apply lookup_lt_Some in Hi; unfold PathNames in Hi; rewrite length_map in Hi; apply lookup_lt_is_Some; lia.
    - eapply sublist_NoDup; [exact H4|apply sublist_delete].
    - by apply Forall_delete.
    - rewrite En. by apply NoDup_filter.
    - unfold m'. cbn [nextPathID update]. by rewrite E3.
    - unfold m'. cbn [shared peers update]. rewrite E4, E6, !length_map. apply Forall_forall. intros sp [_ Hsp]%list_elem_of_filter. rewrite Forall_forall in H8. by apply H8.
    - intros _. rewrite En. unfold bound_of, m'. cbn [shared deferred update]. rewrite E4, E2.
      rewrite drop_name_filter by done.
      rewrite (filter_map_name _ sname (@fst string Z)) by done. unfold deferred_of. rewrite (filter_map_name _ (fun d => pathName (ddef d)) (@fst string Z)) by done.
      rewrite <- filter_app. specialize (H9 Ho). unfold bound_of, deferred_of in H9. rewrite H9.
      rewrite <- (delete_name (@fst string Z) n (zip (PathNames m) st) i).
      + rewrite <- delete_zip. rewrite (delete_name id n (PathNames m) i); [done| |]; by rewrite list_fmap_id.
      + rewrite fst_zip; [done|]. unfold PathNames. rewrite length_map. lia.
      + rewrite fst_zip; [done|]. unfold PathNames. rewrite length_map. lia.
    - intros _. unfold m'. cbn [nextPathID update]. rewrite E3. apply Forall_delete. by apply H10. }
  split_and!; [done|done|exact E3|by apply (isOpen_true _ _ Hw')|exact E4|by apply (isOpen_true _ _ Hw)|].
  unfold m'. cbn [peers update]. by rewrite E6, !length_map.
Qed.

Lemma rm_id st m n : Forall (peer_wf st (shared m)) (peers m) -> n ∉ sname <$> shared m -> map (rm n) (peers m) = peers m.
Proof.
  intros F Hn. rewrite <- (map_id (peers m)) at 2. apply map_ext_in. intros p Hp%list_elem_of_In. unfold rm, drop_name.
  rewrite <- (tag_names st m p F Hp) in Hn. destruct (list_find _ _) as [[i x]|] eqn:E; [|by destruct p].
  apply list_find_Some in E as (E & <- & _). exfalso. apply Hn, list_elem_of_fmap. exists x. split; [done|].
  by eapply list_elem_of_lookup_2.
Qed.

Definition remove_refused (n : string) (m : Multipath) (e : error) : Prop :=
  (e = ErrClosed /\ isOpen m = false) \/ (e = ErrNoSuchPath /\ n ∉ PathNames m) \/
  (e = ErrLastPath /\ sname <$> shared m = [n]).

Lemma RemovePath_spec closed n m st : wf st m ->
  let '(m', e) := RemovePath closed n m in
  match e with
  | Some e => (m' = m /\ remove_refused n m e) \/ (e = ErrRetire /\ closed = false /\ removed n st m m')
  | None => removed n st m m'
  end.
Proof.
  intros Hw. pose proof Hw as [H1 H2 H3 H4 H5 H6 H7 H8 H9 H10 H11]. unfold RemovePath, remove_refused.
  destruct (isOpen m) eqn:Eo; cbn [negb]; [|by auto]. pose proof (proj1 (isOpen_true _ _ Hw) Eo) as Ho.
  destruct (findDef n m) as [i|] eqn:Ef; [|apply findDef_none in Ef; left; split; [done|]; right; by left].
  apply findDef_some in Ef as (d & _ & _ & Ef).
  pose proof (cover_names _ _ Hw Ho) as Pn.
  assert (NoDup (sname <$> shared m)) as Ns.
  { assert (NoDup (app (sname <$> shared m) (map (fun d => pathName (ddef d)) (deferred m)))) as Nn by (by rewrite Pn).
    by apply NoDup_app in Nn as (Ns & _). }
  destruct (list_find (fun sp => sname sp = n) (shared m)) as [[j sp]|] eqn:Es.
  - destruct (Nat.eqb_spec (length (shared m)) 1) as [El|El].
    { left. split; [done|]. right; right. split; [done|]. apply list_find_Some in Es as (Es & <- & _).
      destruct (shared m) as [|x [|]]; [done| |done]. destruct j; [by injection Es as ->|done]. }
    assert (delete j (shared m) = filter (fun sp => sname sp <> n) (shared m)) as Ed.
    { apply delete_name; [done|]. apply list_find_Some in Es as (Es & <- & _). by rewrite list_lookup_fmap, Es. }
    rewrite detachAll_spec. cbv zeta. change (shared (m <| peers := map (rm n) (peers m) |>)) with (shared m).
    destruct (removeDurable_spec n i m ((m <| peers := map (rm n) (peers m) |>) <| shared := delete j (shared m) |>) st) as (m' & -> & Hr);
      try done.
    { cbn [shared update]. intros E. apply (f_equal length) in E. rewrite length_delete in E.
      - cbn in E. destruct (shared m) as [|x [|]]; [done|done|]. cbn in E. lia.
      - apply list_find_Some in Es as (Es & _). by eexists. }
    destruct closed; [done|]. by right.
  - assert (n ∉ sname <$> shared m) as Nn.
    { apply list_find_None in Es. rewrite Forall_forall in Es. intros (x & -> & Hx)%list_elem_of_fmap. by apply (Es x). }
    destruct (removeDurable_spec n i m m st) as (m' & E & Hr); try done.
    + by rewrite filter_other.
    + by rewrite (rm_id st).
    + rewrite E. done.
Qed.
End paths_theory.
