(* ===== verification/BindPathsLife.v ===== *)
(** * The bond's membership: opening, closing, promotion and repointing *)

From Stdlib Require Import Ascii String.
From stdpp Require Import base tactics list numbers gmap strings.
From S2P Require Import Prelude Sha256 Frame Netip Config BindRemote BindSock BindPaths BindPathsTheory.

Module paths_life.
Import config netip pathsock paths paths_theory.

(** ** Opening *)

(** The first [i] configured paths are bound or deferred. *)
Record mid (st : list Z) (i : nat) (m : Multipath) : Prop := mkMid {
  mid_some : peers m <> [];
  mid_peer : Forall (peer_wf st (shared m)) (peers m);
  mid_len : length st = length (defs m);
  mid_views : Forall (fun sp => views sp = List.seq 0 (length (peers m))) (shared m);
  mid_cover : app (bound_of m) (deferred_of (deferred m)) ≡ₚ take i (zip (PathNames m) st)
}.

(** What opening the sockets leaves alone. *)
Definition durable (m m' : Multipath) : Prop :=
  defs m' = defs m /\ peersByName m' = peersByName m /\
  edgePeerByRemote m' = edgePeerByRemote m /\ defaultRemote m' = defaultRemote m /\
  Forall2 (fun p q => name q = name p /\ psk q = psk p /\ hasProber q = hasProber p /\ probers q = probers p /\
                      configuredRemote q = configuredRemote p) (peers m) (peers m').

Lemma durable_refl m : durable m m.
Proof. unfold durable. split_and!; try done. apply Forall_Forall2_diag. by apply Forall_forall. Qed.

Lemma durable_trans m1 m2 m3 : durable m1 m2 -> durable m2 m3 -> durable m1 m3.
Proof.
  intros (A1 & A3 & A4 & A5 & A6) (B1 & B3 & B4 & B5 & B6). unfold durable. split_and!; try congruence.
  clear -A6 B6. revert A6 B6. generalize (peers m1), (peers m2), (peers m3). intros l1 l2 l3 A B. revert l3 B.
  induction A as [|x y l1 l2 A _ IH]; intros l3 B; inversion B; subst; constructor; [naive_solver congruence|by apply IH].
Qed.

Lemma durable_grow m pps : length pps = length (peers m) -> durable m (m <| peers := grow (peers m) pps |>).
Proof.
  intros H. unfold durable. split_and!; try done. cbn [peers update]. unfold grow. revert pps H.
  induction (peers m) as [|p ps IH]; intros [|pp pps] H; try done; cbn [zip_with]; constructor; [done|]. apply IH. by injection H.
Qed.

(** The paths whose socket the kernel grants. *)
Fixpoint granted (k : kernel) (port : Z) (i : nat) (todo : list (Path * string)) : list string :=
  match todo with
  | [] => []
  | (def, d) :: todo =>
      match snd (listen k i (SourceAddr def) port d) with
      | inr _ => pathName def :: granted k port (S i) todo
      | inl _ => granted k port (S i) todo
      end
  end.

Lemma zip_lookup st m i def s : defs m !! i = Some def -> st !! i = Some s -> (zip (PathNames m) st : list (string * Z)) !! i = Some (pathName def, s).
Proof.
  intros Hd Hs. apply lookup_zip_with_Some. exists (pathName def), s. split_and!; try done. unfold PathNames.
  change (map pathName (defs m)) with (pathName <$> defs m). by rewrite list_lookup_fmap, Hd.
Qed.

Lemma mid_bind st i m def s sp pps : mid st i m -> defs m !! i = Some def -> st !! i = Some s ->
  length pps = length (peers m) -> Forall (good (sname sp) s s) pps -> sname sp = pathName def -> sid sp = s ->
  views sp = List.seq 0 (length (peers m)) ->
  mid st (S i) ((m <| peers := grow (peers m) pps |>) <| shared := app (shared m) [sp] |>).
Proof.
  intros [H1 H2 H3 H4 H5] Hd Hs Hl Hg En Ei Ev. split; cbn [peers shared defs deferred update].
  - intros E. apply (f_equal length) in E. rewrite length_grow in E by done. by destruct (peers m).
  - by eapply grow_wf.
  - done.
  - rewrite length_grow by done. apply Forall_app. split; [done|]. by constructor.
  - unfold bound_of in *. cbn [shared deferred update]. rewrite map_app. cbn [map].
    rewrite (take_S_r _ _ (pathName def, s)) by (by apply zip_lookup). rewrite <- H5, En, Ei.
    rewrite <- !app_assoc. apply Permutation_app_head, Permutation_app_comm.
Qed.

Lemma mid_defer st i m def s dp : mid st i m -> defs m !! i = Some def -> st !! i = Some s -> ddef dp = def -> dprober dp = s ->
  mid st (S i) (m <| deferred := app (deferred m) [dp] |>).
Proof.
  intros [H1 H2 H3 H4 H5] Hd Hs En Ei. split; cbn [peers shared defs deferred update]; try done.
  unfold bound_of, deferred_of in *. cbn [shared deferred update]. rewrite map_app. cbn [map].
  rewrite (take_S_r _ _ (pathName def, s)) by (by apply zip_lookup). rewrite <- H5, En, Ei. by rewrite app_assoc.
Qed.

Lemma mid_primary st i m : mid st i m -> probers (primary m) = st.
Proof. intros H. pose proof (mid_peer _ _ _ H) as F. rewrite Forall_forall in F. by apply F, primary_in, H. Qed.

Lemma open_defs_spec k now port i todo actual m st : mid st i m -> map fst todo = drop i (defs m) ->
  match open_defs k now port i todo actual m with
  | inl e => e = ErrListen
  | inr (m', _) => mid st (length (defs m)) m' /\ durable m m' /\ nextPathID m' = nextPathID m /\
      sname <$> shared m' = app (sname <$> shared m) (granted k port i todo)
  end.
Proof.
  revert i actual m. induction todo as [|[def d] todo IH]; intros i actual m Hm Ht; cbn [open_defs].
  - cbn in Ht. symmetry in Ht. apply (f_equal length) in Ht. rewrite length_drop in Ht. cbn in Ht.
    split; [|split; [apply durable_refl|split; [done|by rewrite app_nil_r]]]. destruct Hm as [H1 H2 H3 H4 H5]. split; try done.
    rewrite H5. rewrite !take_ge; [done| |]; rewrite length_zip_with; unfold PathNames; rewrite length_map; lia.
  - cbn [map fst] in Ht. pose proof (f_equal head Ht) as Hh. cbn [head] in Hh.
    assert (defs m !! i = Some def) as Hd by (rewrite <- (Nat.add_0_r i), <- lookup_drop, <- Ht; done).
    assert (map fst todo = drop (S i) (defs m)) as Ht' by (rewrite <- Nat.add_1_r, <- drop_drop, <- Ht; done).
    destruct (lookup_lt_is_Some_2 st i) as [s Hs]; [pose proof (mid_len _ _ _ Hm); apply lookup_lt_Some in Hd; lia|].
    pose proof (mid_primary _ _ _ Hm) as Ep. cbn [granted].
    destruct (snd (listen k i (SourceAddr def) port d)) as [[]|c] eqn:El; [| done|].
    + rewrite Ep, Hs. set (dp := mkDeferred _ _ _ _).
      specialize (IH (S i) actual (m <| deferred := app (deferred m) [dp] |>) (mid_defer st i m def s dp Hm Hd Hs eq_refl eq_refl) Ht').
      destruct (open_defs _ _ _ _ _ _ _) as [e|[m' a]]; [done|]. destruct IH as (I1 & I2 & I4 & I3).
      split; [done|]. split; [|done]. eapply durable_trans; [|exact I2]. exact (durable_refl m).
    + destruct (open_peers_all now i def s (mkShared (pathName def) (u8 (Z.of_nat i)) (SourceAddr def) c (pathBind def) d []) m) as (pps & Hl & Hg & ->).
      { apply Hm. }
      { eapply Forall_impl; [apply (mid_peer _ _ _ Hm)|]. intros p (-> & [? _] & _). done. }
      set (sp := withId s _).
      specialize (IH (S i) (match actual with Some a => Some a | None => Some c end)
        ((m <| peers := grow (peers m) pps |>) <| shared := app (shared m) [sp] |>)
        (mid_bind st i m def s sp pps Hm Hd Hs Hl Hg eq_refl eq_refl eq_refl) Ht').
      cbv zeta. change (shared (m <| peers := grow (peers m) pps |>)) with (shared m).
      destruct (open_defs _ _ _ _ _ _ _) as [e|[m' a]]; [done|]. destruct IH as (I1 & I2 & I4 & I3).
      split; [done|]. split; [|split].
      * eapply durable_trans; [|exact I2]. exact (durable_grow m pps Hl).
      * done.
      * rewrite I3. cbn [shared update]. rewrite fmap_app. cbn. by rewrite <- app_assoc.
Qed.

Lemma raise_ids_spec ids next : 0 <= next <= 256 -> Forall (fun s => 0 <= s <= 255) ids ->
  next <= raise next ids <= 256 /\ Forall (fun s => s < raise next ids) ids.
Proof.
  unfold raise. revert next. induction ids as [|x ids IH]; intros next Hn Hi; cbn [fold_left]; [split; [lia|constructor]|].
  apply Forall_cons in Hi as [Hx Hi]. replace (u16 (x + 1)) with (x + 1) by (unfold u16; rewrite Z.mod_small; lia).
  set (n1 := if next <? x + 1 then x + 1 else next).
  assert (next <= n1 <= 256 /\ x < n1) as [H1 H2] by (unfold n1; destruct (Z.ltb_spec next (x + 1)); lia).
  destruct (IH n1 ltac:(lia) Hi) as [I1 I2]. split; [lia|]. constructor; [lia|done].
Qed.

(** Taking every socket down. *)
Definition shut (m : Multipath) : Multipath := clearPerOpenStateAfterReaders (detachSocketGenerationsLocked m).

Lemma shut_durable m : durable m (shut m).
Proof.
  unfold durable, shut. split_and!; try done. cbn [clearPerOpenStateAfterReaders detachSocketGenerationsLocked peers update].
  rewrite map_map. induction (peers m); cbn [map]; constructor; done.
Qed.

Lemma shut_wf st m : peers m <> [] -> Forall (fun p => probers p = st /\ ready p) (peers m) -> length st = length (defs m) ->
  NoDup st -> Forall (fun s => 0 <= s <= 255) st -> NoDup (PathNames m) -> 0 <= nextPathID m <= 256 ->
  wf st (shut m) /\ shared (shut m) = [].
Proof.
  intros H1 H2 H3 H4 H5 H6 H7. split; [|done]. split; try done.
  - unfold shut. cbn [clearPerOpenStateAfterReaders detachSocketGenerationsLocked peers update]. rewrite map_map. by destruct (peers m).
  - unfold shut. cbn [clearPerOpenStateAfterReaders detachSocketGenerationsLocked peers shared update]. rewrite map_map, Forall_map.
    eapply Forall_impl; [exact H2|]. intros p [? ?]. done.
Qed.

Lemma wf_shut st m : wf st m -> wf st (shut m) /\ shared (shut m) = [].
Proof.
  intros [H1 H2 H3 H4 H5 H6 H7 H8 H9 H10 H11]. apply shut_wf; try done.
  eapply Forall_impl; [exact H2|]. by intros p (? & ? & _).
Qed.

Lemma durable_names m m' : durable m m' -> PathNames m' = PathNames m.
Proof. intros (E & _). unfold PathNames. by rewrite E. Qed.

Definition todo (k : kernel) (m : Multipath) : list (Path * string) :=
  zip (defs m) (planPathBinds (ifaces k) (map SourceAddr (defs m)) (map pathBind (defs m))).

Lemma length_plan ifs srcs modes : length modes = length srcs -> length (planPathBinds ifs srcs modes) = length srcs.
Proof. intros H. unfold planPathBinds, selectDeviceBinds. rewrite length_zip_with, length_map. lia. Qed.

Lemma todo_fst k m : map fst (todo k m) = defs m.
Proof. unfold todo. change (map fst ?l) with (l.*1). apply fst_zip. rewrite length_plan; rewrite !length_map; done. Qed.

(** The stamps a cover gives. *)
Lemma cover_stamps st m : length st = length (defs m) ->
  app (bound_of m) (deferred_of (deferred m)) ≡ₚ zip (PathNames m) st ->
  app (map sid (shared m)) (map dprober (deferred m)) ≡ₚ st.
Proof.
  intros Hl P. apply (Permutation_map snd) in P. change (map snd (zip (PathNames m) st)) with ((zip (PathNames m) st).*2) in P.
  rewrite snd_zip in P by (unfold PathNames; rewrite length_map; lia).
  unfold bound_of, deferred_of in P. by rewrite map_app, !map_map in P.
Qed.

(** The end of a successful opening: the ids handed out are passed. *)
Definition settled (port : Z) (m : Multipath) : Multipath :=
  (m <| openPort := port |>) <| nextPathID := raise (raise (nextPathID m) (map (fun pp => remote.id (ppremote pp)) (ppaths (primary m))))
    (map dprober (deferred m)) |>.

Lemma mid_isOpen st i m : mid st i m -> isOpen m = negb (length (shared m) =? 0)%nat.
Proof.
  intros [M1 M2 _ _ _]. unfold isOpen. rewrite Forall_forall in M2. destruct (M2 _ (primary_in _ M1)) as (_ & _ & E).
  apply (f_equal length) in E. rewrite !length_map in E. by rewrite E.
Qed.

Lemma settled_wf st m port : mid st (length (defs m)) m -> shared m <> [] -> NoDup st -> Forall (fun s => 0 <= s <= 255) st ->
  NoDup (PathNames m) -> 0 <= nextPathID m <= 256 -> wf st (settled port m) /\ nextPathID m <= nextPathID (settled port m).
Proof.
  intros [M1 M2 M3 M4 M5] Ho Hn Hb Hnames H7.
  rewrite take_ge in M5 by (rewrite length_zip_with; unfold PathNames; rewrite length_map; lia).
  pose proof (cover_stamps st m M3 M5) as Pst.
  assert (map (fun pp => remote.id (ppremote pp)) (ppaths (primary m)) = map sid (shared m)) as Eids.
  { rewrite Forall_forall in M2. destruct (M2 _ (primary_in _ M1)) as (_ & _ & E).
    apply (f_equal (map snd)) in E. by rewrite !map_map in E. }
  unfold settled. rewrite Eids.
  assert (Forall (fun s => 0 <= s <= 255) (app (map sid (shared m)) (map dprober (deferred m)))) as Hb' by (by rewrite Pst).
  apply Forall_app in Hb' as [Hb1 Hb2].
  destruct (raise_ids_spec (map sid (shared m)) (nextPathID m) H7 Hb1) as [R1 R2].
  destruct (raise_ids_spec (map dprober (deferred m)) (raise (nextPathID m) (map sid (shared m))) ltac:(lia) Hb2) as [R3 R4].
  set (next := raise (raise _ _) _) in *. split; [|change (nextPathID m <= next); lia]. split; try done.
  - change (0 <= next <= 256). lia.
  - intros _. change (Forall (fun s => s < next) st). rewrite <- Pst. apply Forall_app. split; [|done].
    eapply Forall_impl; [exact R2|]. cbn. lia.
Qed.

Definition open_failed (m : Multipath) (e : error) : Prop := e = ErrListen \/ e = ErrAllDeferred.

Lemma ready_open ps : Forall ready ps -> forallb canOpenAdaptive ps = true.
Proof.
  intros H. apply forallb_forall. intros p Hp%list_elem_of_In. rewrite Forall_forall in H. unfold canOpenAdaptive.
  destruct (newCodec_ok p) as [c ->]; [by apply H|done].
Qed.

Lemma Open_spec k now port m st : wf st m ->
  let '(m', r) := Open k now port m in
  match r with
  | inl e => (e = ErrBindAlreadyOpen /\ isOpen m = true /\ m' = m) \/
      (isOpen m = false /\ open_failed m e /\ wf st m' /\ isOpen m' = false /\ durable m m' /\ nextPathID m <= nextPathID m')
  | inr _ => isOpen m = false /\ wf st m' /\ isOpen m' = true /\ PathNames m' = PathNames m /\
      nextPathID m <= nextPathID m' /\ sname <$> shared m' = granted k port 0 (todo k m) /\
      length (peers m') = length (peers m)
  end.
Proof.
  intros Hw. pose proof Hw as [H1 H2 H3 H4 H5 H6 H7 H8 H9 H10 H11]. unfold Open.
  destruct (isOpen m) eqn:Eo; [by left|]. pose proof (proj1 (isOpen_false _ _ Hw) Eo) as Es. cbv zeta.
  set (m1 := m <| peers := _ |>). set (m2 := m1 <| deferred := [] |>).
  assert (Forall (peer_wf st []) (peers m2)) as Hp.
  { unfold m2, m1. cbn [peers update]. rewrite Forall_map. rewrite Es in H2. eapply Forall_impl; [exact H2|].
    intros p (P1 & P2 & P3). done. }
  assert (Forall (fun p => probers p = st /\ ready p) (peers m2)) as Hr.
  { eapply Forall_impl; [exact Hp|]. by intros p (? & ? & _). }
  assert (peers m2 <> []) as Hn by (unfold m2, m1; cbn [peers update]; by destruct (peers m)).
  assert (mid st 0 m2) as Hm.
  { split; try done; unfold m2, m1; cbn [shared deferred update]; rewrite Es; [exact Hp|constructor|].
    unfold bound_of. cbn [shared update]. done. }
  assert (durable m m2) as Hd.
  { unfold durable, m2, m1. split_and!; try done. cbn [peers update]. clear. induction (peers m); cbn [map]; constructor; done. }
  assert (forall e, open_failed m e -> open_failed m e /\ wf st (shut m2) /\ isOpen (shut m2) = false /\ durable m (shut m2) /\ nextPathID m <= nextPathID (shut m2)) as Hfail.
  { intros e He. destruct (shut_wf st m2 Hn Hr) as [F1 F2]; try done. split; [done|]. split; [done|]. split.
    - by apply (isOpen_false _ _ F1).
    - split; [eapply durable_trans; [exact Hd|apply shut_durable]|]. change (nextPathID (shut m2)) with (nextPathID m). lia. }
  pose proof (open_defs_spec k now port 0 (todo k m2) None m2 st Hm) as O. rewrite todo_fst in O. specialize (O eq_refl).
  change (zip (defs m2) _) with (todo k m2). change (todo k m) with (todo k m2).
  destruct (open_defs _ _ _ _ _ _ _) as [e|[m3 actual]].
  { subst e. right. split; [done|]. apply Hfail. by left. }
  destruct O as (M & D & D2 & G).
  assert (sname <$> shared m3 = granted k port 0 (todo k m2)) as G'.
  { change (shared m2) with (shared m) in G. rewrite Es in G. exact G. }
  pose proof M as [M1 M2 M3 M4 M5]. pose proof D as (D1 & D3 & D4 & D5 & D6).
  assert (NoDup (PathNames m3)) as Hnm by (rewrite (durable_names _ _ D); done).
  assert (0 <= nextPathID m3 <= 256) as Hnx by (rewrite D2; exact H7).
  assert (forall x y e, durable m3 x -> wf st x -> shared x = [] -> nextPathID m3 <= nextPathID x -> open_failed m e ->
    (false = false /\ open_failed m e /\ wf st x /\ isOpen x = false /\ durable m x /\ nextPathID m <= nextPathID x) \/ y) as Hf.
  { intros x y e X1 X2 X3 X4 X5. left. split_and!; try done; [by apply (isOpen_false _ _ X2)| |].
    - eapply durable_trans; [exact Hd|]. by eapply durable_trans.
    - rewrite D2 in X4. exact X4. }
  rewrite (mid_isOpen _ _ _ M). destruct (Nat.eqb_spec (length (shared m3)) 0) as [El|El]; cbn [negb].
  { apply or_comm. destruct (shut_wf st m3) as [F1 F2]; try done.
    - eapply Forall_impl; [exact M2|]. by intros p (? & ? & _).
    - apply Hf; try done; [apply shut_durable|by right]. }
  change (forallb canOpenAdaptive _) with (forallb canOpenAdaptive (peers m3)).
  rewrite (ready_open (peers m3)) by (by eapply peers_ready). change (_ <| nextPathID := _ |>) with (settled port m3).
  change (length (defs m2)) with (length (defs m2)) in M. rewrite <- D1 in M.
  destruct (settled_wf st m3 port M) as [Hw5 Hn5]; try done; [intros E; by rewrite E in El|].
  split; [done|]. split; [done|]. split_and!.
  - apply (isOpen_true _ _ Hw5). change (shared (settled port m3)) with (shared m3). intros E. by rewrite E in El.
  - unfold PathNames. change (defs (settled port m3)) with (defs m3). by rewrite D1.
  - rewrite D2 in Hn5. exact Hn5.
  - exact G'.
  - change (length (peers (settled port m3))) with (length (peers m3)). apply Forall2_length in D6. rewrite <- D6.
      unfold m2, m1. cbn [peers update]. by rewrite length_map.
Qed.

(** ** Promotion *)
Lemma mapM_probers st sh ps i s : Forall (peer_wf st sh) ps -> st !! i = Some s ->
  mapM (fun p => probers p !! i) ps = Some (map (fun _ => s) ps).
Proof.
  intros F Hs. induction F as [|p ps (E & _) _ IH]; [done|]. cbn [mapM map]. rewrite E, Hs. cbn. by rewrite IH.
Qed.

Lemma nth_const {A} (s d : Z) (l : list A) i : (i < length l)%nat -> nth i (map (fun _ => s) l) d = s.
Proof. revert i. induction l as [|x l IH]; intros [|i] H; cbn in *; try lia. apply IH. lia. Qed.

Lemma pair_at {B} (l : list string) (k : list B) n s : NoDup l -> (n, s) ∈ zip l k -> exists i, l !! i = Some n /\ k !! i = Some s.
Proof.
  intros _ (i & Hi)%list_elem_of_lookup. apply lookup_zip_with_Some in Hi as (x & y & E & Hx & Hy).
  injection E as -> ->. eauto.
Qed.

(** A deferred path that gets a socket is promoted, and nothing else changes. *)
Lemma promote_deferred_spec now dp c d kept todo m st :
  wf st (m <| deferred := app kept (dp :: todo) |>) -> shared m <> [] ->
  exists m' sp, promoteDeferredLocked now dp c d m = (m', None) /\ wf st (m' <| deferred := app kept todo |>) /\
    durable m m' /\ nextPathID m' = nextPathID m /\ openPort m' = openPort m /\
    shared m' = app (shared m) [sp] /\ sname sp = pathName (ddef dp).
Proof.
  intros Hw Ho. pose proof Hw as [H1 H2 H3 H4 H5 H6 H7 H8 H9 H10 H11]. specialize (H9 Ho).
  change (peers (m <| deferred := _ |>)) with (peers m) in *. change (shared (m <| deferred := _ |>)) with (shared m) in *.
  change (PathNames (m <| deferred := _ |>)) with (PathNames m) in *. change (defs (m <| deferred := _ |>)) with (defs m) in *.
  change (bound_of (m <| deferred := _ |>)) with (bound_of m) in *. change (deferred (m <| deferred := ?x |>)) with x in *.
  unfold deferred_of in H9. rewrite map_app in H9. cbn [map] in H9.
  assert ((pathName (ddef dp), dprober dp) ∈ zip (PathNames m) st) as Hin.
  { rewrite <- H9, !elem_of_app. right; right. apply list_elem_of_here. }
  destruct (pair_at _ _ _ _ H6 Hin) as (i & Hi & Hs). unfold promoteDeferredLocked.
  destruct (findDef (pathName (ddef dp)) m) as [j|] eqn:Ef.
  2: { exfalso. apply findDef_none in Ef. apply Ef. by eapply list_elem_of_lookup_2. }
  apply findDef_some in Ef as (_ & _ & _ & Ef). assert (j = i) as -> by (eapply (NoDup_lookup (PathNames m)); eauto).
  rewrite (mapM_probers st (shared m) (peers m) i (dprober dp)) by done.
  assert (nth 0 (map (fun _ => dprober dp) (peers m)) 0 = dprober dp) as -> by (by destruct (peers m)).
  cbv zeta.
  destruct (attach_spec now (ddef dp) (dprober dp) (Some (map (fun _ => dprober dp) (peers m)))
    (mkShared (pathName (ddef dp)) (dprober dp) (SourceAddr (ddef dp)) c (pathBind (ddef dp)) d []) m (peers_ready _ _ _ H2))
    as (pps & Hl & Hg & ->).
  { intros q Hq. by apply nth_const. }
  set (sp := viewed _ _ _).
  eexists _, sp. split; [reflexivity|]. split; [|split; [exact (durable_grow m pps Hl)|done]].
  split; cbn [peers shared defs deferred nextPathID update]; try done.
  - intros E. apply (f_equal length) in E. rewrite length_grow in E by done. by destruct (peers m).
  - by eapply grow_wf.
  - rewrite length_grow by done. apply Forall_app. split; [done|]. by constructor.
  - intros _. unfold bound_of, deferred_of. cbn [shared update]. rewrite !map_app. cbn [map sname sid sp viewed].
    etransitivity; [|exact H9]. unfold bound_of. rewrite <- !app_assoc. apply Permutation_app_head. cbn [app].
    apply Permutation_middle.
  - intros _. by apply H10.
  - intros E. by destruct (shared m).
Qed.

(** The deferred paths whose socket the kernel grants now. *)
Fixpoint promoted (k : kernel) (defs : list Path) (port : Z) (i : nat) (todo : list deferredPath) : list string :=
  match todo with
  | [] => []
  | dp :: todo =>
      let def := ddef dp in
      match snd (listen k i (SourceAddr def) port (runtimeDev (ifaces k) defs (SourceAddr def) (pathBind def))) with
      | inr _ => pathName def :: promoted k defs port (S i) todo
      | inl _ => promoted k defs port (S i) todo
      end
  end.

Lemma wf_deferred st m ds ds' : wf st (m <| deferred := ds |>) -> deferred_of ds' = deferred_of ds ->
  shared m <> [] -> wf st (m <| deferred := ds' |>).
Proof.
  intros [H1 H2 H3 H4 H5 H6 H7 H8 H9 H10 H11] E Ho. split; try done. intros _.
  change (deferred (m <| deferred := ds' |>)) with ds'. rewrite E. by apply H9.
Qed.

Lemma reconcile_loop_spec k now i todo kept m st : wf st (m <| deferred := app kept todo |>) -> shared m <> [] ->
  let m' := reconcile_loop k now i todo kept m in
  wf st m' /\ durable m m' /\ nextPathID m' = nextPathID m /\
  sname <$> shared m' = app (sname <$> shared m) (promoted k (defs m) (openPort m) i todo).
Proof.
  cbv zeta. revert i kept m. induction todo as [|dp todo IH]; intros i kept m Hw Ho; cbn [reconcile_loop promoted].
  - rewrite app_nil_r in Hw. split; [done|]. split; [exact (durable_refl m)|]. split; [done|]. by rewrite app_nil_r.
  - set (d := runtimeDev _ _ _ _). destruct (snd (listen _ _ _ _ _)) as [e|c].
    + apply IH; [|done]. eapply wf_deferred; [exact Hw| |done]. unfold deferred_of. rewrite !map_app. cbn [map]. by rewrite <- app_assoc.
    + destruct (promote_deferred_spec now dp c d kept todo m st Hw Ho) as (m' & sp & -> & Hw' & D & En & Ep & Es & Enm).
      destruct (IH (S i) kept m') as (I1 & I2 & I3 & I4); [done|rewrite Es; by destruct (shared m)|].
      split; [done|]. split; [by eapply durable_trans|]. split; [congruence|]. rewrite I4, Es, fmap_app. cbn.
      rewrite Enm, <- app_assoc. destruct D as (-> & _). by rewrite Ep.
Qed.

Lemma reconcile_spec k now m st : wf st m ->
  let m' := reconcileDeferred k now m in
  wf st m' /\ durable m m' /\ nextPathID m' = nextPathID m /\ isOpen m' = isOpen m /\
  sname <$> shared m' = app (sname <$> shared m) (promoted k (defs m) (openPort m) 0 (deferred m)).
Proof.
  intros Hw. cbv zeta. unfold reconcileDeferred. destruct (isOpen m) eqn:Eo; cbn [negb orb].
  - destruct (Nat.eqb_spec (length (deferred m)) 0) as [El|El].
    + destruct (deferred m) eqn:Ed; [|done]. split; [done|]. split; [apply durable_refl|]. split; [done|]. split; [done|]. by rewrite app_nil_r.
    + pose proof (proj1 (isOpen_true _ _ Hw) Eo) as Ho.
      destruct (reconcile_loop_spec k now 0 (deferred m) [] m st) as (R1 & R2 & R3 & R4); [by destruct m|done|].
      split_and!; try done. apply (isOpen_true _ _ R1). intros E. rewrite E in R4. cbn in R4. by destruct (shared m).
  - split_and!; try done; [apply durable_refl|]. apply (isOpen_false _ _ Hw) in Eo. rewrite (wf_closed _ _ Hw Eo), Eo. done.
Qed.

(** ** Operations that leave the membership alone *)
Lemma tag_setRemote now ap pp :
  tag (mkPeerPath (ppname pp) (ppcodec pp) (ppprober pp) (fst (remote.setRemote now ap (ppremote pp)))) = tag pp.
Proof. done. Qed.

Definition same_bond (m m' : Multipath) : Prop :=
  defs m' = defs m /\ shared m' = shared m /\ deferred m' = deferred m /\ nextPathID m' = nextPathID m /\
  Forall2 peer_sim (peers m) (peers m').

Lemma same_bond_wf st m m' : wf st m -> same_bond m m' -> wf st m'.
Proof. intros H (? & ? & ? & ? & ?). by eapply wf_sim. Qed.

Lemma same_bond_refl m : same_bond m m.
Proof. unfold same_bond. split_and!; try done. apply Forall_Forall2_diag, Forall_forall. done. Qed.

Lemma same_bond_trans m1 m2 m3 : same_bond m1 m2 -> same_bond m2 m3 -> same_bond m1 m3.
Proof.
  intros (A1 & A2 & A3 & A4 & A) (B1 & B2 & B3 & B4 & B). unfold same_bond. split_and!; try congruence.
  clear -A B. revert A B. generalize (peers m1), (peers m2), (peers m3). intros l1 l2 l3 A. revert l3.
  induction A as [|x y l1 l2 A _ IH]; intros l3 B; inversion B; subst; constructor; [|by apply IH].
  unfold peer_sim in *. naive_solver congruence.
Qed.

Lemma same_bond_alter f i m : (forall p, peer_sim p (f p)) -> same_bond m (m <| peers := alter f i (peers m) |>).
Proof. intros H. unfold same_bond. split_and!; try done. by apply Forall2_alter_sim. Qed.

Lemma same_bond_setAll now pi ap m : same_bond m (setAll now pi ap m).
Proof.
  apply same_bond_alter. intros p. unfold peer_sim. split_and!; try done. cbn [ppaths update]. rewrite map_map. done.
Qed.

Lemma same_bond_parse now s m : same_bond m (fst (ParseEndpoint now s m)).
Proof.
  unfold ParseEndpoint. destruct (ParseAddrPort s) as [ap|]; [|apply same_bond_refl]. cbn [fst].
  unfold same_bond. split_and!; try done. apply (Forall2_alter_sim _ _ (peers m)). intros p. unfold peer_sim.
  split_and!; try (by destruct (virtDst p)).
  transitivity (map tag (ppaths (match virtDst p with Some _ => p | None => p <| virtDst := Some ap |> end))); [|by destruct (virtDst p)].
  cbn [ppaths update]. rewrite map_map. apply map_ext. intros pp. by destruct (remote.getRemote _).
Qed.

Lemma same_bond_seed i remotes m : same_bond m (seed_loop i remotes m).
Proof.
  revert i m. induction remotes as [|ap remotes IH]; intros i m; cbn [seed_loop]; [apply same_bond_refl|].
  eapply same_bond_trans; [|apply IH]. destruct (negb (apValid ap)); [apply same_bond_refl|].
  exact (same_bond_alter (fun p => p <| configuredRemote := Some ap |>) i m ltac:(done)).
Qed.

Lemma same_bond_for now pi ap m : same_bond m (fst (setPeerRemoteForLocked now pi ap m)).
Proof.
  unfold setPeerRemoteForLocked. destruct (peers m !! pi) as [p|]; [|apply same_bond_refl].
  match goal with |- context [if ?b then (m, Some ErrRemoteOwned) else _] => destruct b end; [apply same_bond_refl|]. cbn [fst].
  eapply same_bond_trans; [|apply same_bond_setAll].
  exact (same_bond_alter (fun p => p <| configuredRemote := Some ap |>) pi m ltac:(done)).
Qed.

Lemma same_bond_rename n m : same_bond m (fst (SetPrimaryPeerName n m)).
Proof.
  unfold SetPrimaryPeerName. repeat (case_match; [apply same_bond_refl|]). 
  exact (same_bond_alter (fun p => p <| name := n |>) 0 m ltac:(done)).
Qed.

(** A peer whose probers stamp the paths alike. *)
Lemma allSome_map l : allSome (map Some l) = Some l.
Proof. induction l as [|x l IH]; [done|]. unfold allSome in *. cbn. by rewrite IH. Qed.

Lemma AddPeer_spec n k st m : wf st m ->
  let '(m', e) := AddConcentratorPeer n k (map Some st) true m in
  wf st m' /\ defs m' = defs m /\ nextPathID m' = nextPathID m /\ shared m' = shared m /\
  match e with
  | Some e => m' = m
  | None => peers m' = app (peers m) [newPeerState n k true st] /\ isOpen m = false
  end.
Proof.
  intros Hw. pose proof Hw as [H1 H2 H3 H4 H5 H6 H7 H8 H9 H10 H11]. unfold AddConcentratorPeer.
  destruct (bool_decide (n = EmptyString)); [done|]. destruct (IsSet k) eqn:Ek; [|done]. cbn [negb].
  destruct (isOpen m) eqn:Eo; [done|]. apply (isOpen_false _ _ Hw) in Eo.
  rewrite length_map, H3, Nat.eqb_refl, allSome_map. cbn [negb].
  destruct (bool_decide _); [done|]. destruct (bool_decide _); [done|]. split; [|done].
  split; cbn [peers shared defs deferred nextPathID update]; try done.
  - by destruct (peers m).
  - apply Forall_app. split; [done|]. constructor; [|constructor]. rewrite Eo. done.
  - rewrite Eo. constructor.
Qed.
End paths_life.
