(* ===== verification/BindPathsProps.v ===== *)
(** * The bond's membership: what holds over every history *)

From Stdlib Require Import Ascii String.
From stdpp Require Import base tactics list numbers gmap strings.
From S2P Require Import Prelude Sha256 Frame Netip Config ConfigProps Device BindRemote BindSock BindPaths BindPathsTheory BindPathsLife.

Module paths_props.
Import config netip pathsock paths paths_theory paths_life.

(** ** Histories *)
Inductive op :=
  | OpOpen (k : kernel) (now : Time) (port : Z)
  | OpClose (closed : bool)
  | OpAdd (k : kernel) (now : Time) (def : Path)
  | OpRemove (closed : bool) (n : string)
  | OpReconcile (k : kernel) (now : Time)
  | OpParse (now : Time) (s : string)
  | OpSeed (remotes : list AddrPort)
  | OpSetRemote (now : Time) (ap : AddrPort)
  | OpSetRemoteFor (now : Time) (n : string) (ap : AddrPort).

Definition step (m : Multipath) (o : op) : Multipath :=
  match o with
  | OpOpen k now port => fst (Open k now port m)
  | OpClose closed => fst (Close closed m)
  | OpAdd k now def => fst (AddPath k now def m)
  | OpRemove closed n => fst (RemovePath closed n m)
  | OpReconcile k now => reconcileDeferred k now m
  | OpParse now s => fst (ParseEndpoint now s m)
  | OpSeed remotes => fst (SeedEdgePeerRemotes remotes m)
  | OpSetRemote now ap => SetPeerRemote now ap m
  | OpSetRemoteFor now n ap => fst (SetPeerRemoteFor now n ap m)
  end.
Definition run (m : Multipath) (ops : list op) : Multipath := fold_left step ops m.

(** The id a path that is admitted gets. *)
Definition minted (m : Multipath) (o : op) : list Z :=
  match o with
  | OpAdd k now def =>
      match AddPath k now def m with
      | (m', None) => [List.last (probers (primary m')) 0]
      | _ => []
      end
  | _ => []
  end.
Fixpoint mints (m : Multipath) (ops : list op) : list Z :=
  match ops with [] => [] | o :: ops => minted m o ++ mints (step m o) ops end.

Definition stamps (m : Multipath) : list Z := probers (primary m).
Definition idOf (m : Multipath) (n : string) (s : Z) : Prop := (n, s) ∈ zip (PathNames m) (stamps m).

(** What one step does to the configured paths and their stamps. *)
Inductive evolves (st : list Z) (m m' : Multipath) : list Z -> Prop :=
  | EvSame : PathNames m' = PathNames m -> evolves st m m' st
  | EvAdd n : isOpen m = true -> n ∉ PathNames m -> PathNames m' = app (PathNames m) [n] -> nextPathID m' = nextPathID m + 1 ->
      evolves st m m' (app st [nextPathID m])
  | EvRemove i n : isOpen m = true -> PathNames m !! i = Some n -> PathNames m' = filter (fun x => x <> n) (PathNames m) ->
      evolves st m m' (delete i st).

Lemma same_bond_names m m' : same_bond m m' -> PathNames m' = PathNames m /\ nextPathID m' = nextPathID m.
Proof. intros (E & _ & _ & N & _). unfold PathNames. by rewrite E. Qed.

Lemma step_spec st m o : wf st m ->
  exists st', wf st' (step m o) /\ evolves st m (step m o) st' /\ nextPathID m <= nextPathID (step m o) /\
    length (peers (step m o)) = length (peers m) /\ forall s, s ∈ st' -> s ∈ st \/ s ∈ minted m o.
Proof.
  intros Hw. assert (forall m', same_bond m m' -> exists st', wf st' m' /\ evolves st m m' st' /\ nextPathID m <= nextPathID m' /\
    length (peers m') = length (peers m) /\ forall s, s ∈ st' -> s ∈ st \/ s ∈ minted m o) as Hsame.
  { intros m' Hs. exists st. destruct (same_bond_names _ _ Hs) as [E1 E2]. split; [by eapply same_bond_wf|].
    split; [by apply EvSame|]. split; [lia|]. split; [|by left]. destruct Hs as (_ & _ & _ & _ & F). symmetry. by eapply Forall2_length. }
  assert (forall m', durable m m' -> length (peers m') = length (peers m)) as Hlen.
  { intros m' (_ & _ & _ & _ & F). symmetry. by eapply Forall2_length. }
  destruct o as [k now port|closed|k now def|closed n|k now|now s|remotes|now ap|now n ap]; cbn [step].
  - pose proof (Open_spec k now port m st Hw) as S.
    destruct (Open _ _ _ _) as [m' [e|a]]; cbn [fst] in *.
    + destruct S as [(_ & _ & ->)|(_ & _ & S1 & _ & S2 & S3)]; [apply Hsame, same_bond_refl|].
      exists st. split; [done|]. split; [apply EvSame, durable_names, S2|]. split; [lia|]. split; [by apply Hlen|by left].
    + destruct S as (_ & S1 & _ & S2 & S3 & _ & S4). exists st. split; [done|]. split; [by apply EvSame|]. split; [done|]. split; [done|by left].
  - exists st. destruct (wf_shut st m Hw) as [S1 S2]. split; [done|]. split; [by apply EvSame|]. split; [done|].
    split; [apply Hlen, shut_durable|by left].
  - pose proof (AddPath_spec k now def m st Hw) as S. destruct (AddPath _ _ _ _) as [m' [e|]] eqn:E; cbn [fst].
    + destruct S as [-> _]. apply Hsame, same_bond_refl.
    + destruct S as (S1 & S2 & S3 & S4 & S5 & S6 & _ & S7 & _). exists (app st [nextPathID m]).
      split; [done|]. split; [by eapply EvAdd|]. split; [lia|]. split; [done|].
      intros s [Hs|Hs]%elem_of_app; [by left|right]. cbn [minted]. rewrite E, (wf_stamps _ _ S4), List.last_last. done.
  - pose proof (RemovePath_spec closed n m st Hw) as S.
    assert (forall m', removed n st m m' -> exists st', wf st' m' /\ evolves st m m' st' /\
      nextPathID m <= nextPathID m' /\ length (peers m') = length (peers m) /\ forall s, s ∈ st' -> s ∈ st \/ s ∈ minted m (OpRemove closed n)) as Hr.
    { intros m' (i & R1 & R2 & R3 & R4 & R5 & _ & R6 & R7). exists (delete i st). split; [done|].
      split; [by apply (EvRemove st m m' i n)|]. split; [lia|]. split; [done|]. intros s Hs. left.
      eapply elem_of_sublist; [exact Hs|apply sublist_delete]. }
    destruct (RemovePath _ _ _) as [m' [e|]]; cbn [fst]; [|by apply Hr].
    destruct S as [[-> _]|(_ & _ & S)]; [apply Hsame, same_bond_refl|by apply Hr].
  - destruct (reconcile_spec k now m st Hw) as (S1 & S2 & S3 & _). exists st. split; [done|].
    split; [apply EvSame, durable_names, S2|]. split; [lia|]. split; [by apply Hlen|by left].
  - apply Hsame, same_bond_parse.
  - apply Hsame. unfold SeedEdgePeerRemotes. destruct (negb _); [apply same_bond_refl|]. apply same_bond_seed.
  - apply Hsame. unfold SetPeerRemote. eapply same_bond_trans; [|apply same_bond_setAll]. exact (same_bond_refl m).
  - apply Hsame. unfold SetPeerRemoteFor. destruct (peersByName m !! n); [apply same_bond_for|apply same_bond_refl].
Qed.

(** ** Bring-up *)
Definition bootStamps (c : Config) : list Z := map (fun i => u8 (Z.of_nat i)) (List.seq 0 (length (Paths c))).

Lemma bootStamps_ok c : (length (Paths c) <= 256)%nat ->
  NoDup (bootStamps c) /\ Forall (fun s => 0 <= s <= 255) (bootStamps c) /\ length (bootStamps c) = length (Paths c) /\
  buildProbers c = map Some (bootStamps c).
Proof.
  intros H. unfold bootStamps, buildProbers. rewrite length_map, List.length_seq, map_map. split_and!; try done.
  - apply NoDup_fmap_2_strong; [|apply NoDup_ListNoDup, List.seq_NoDup].
    intros x y Hx%list_elem_of_In%List.in_seq Hy%list_elem_of_In%List.in_seq E.
    unfold u8 in E. rewrite !Z.mod_small in E; lia.
  - apply Forall_map, Forall_forall. intros i Hi%list_elem_of_In%List.in_seq. unfold u8. rewrite Z.mod_small by lia. lia.
Qed.

Definition fresh_ids (ids : list PeerIdentity) (m : Multipath) : Prop :=
  NoDup (map idName ids) /\
  Forall (fun x => idName x <> EmptyString /\ IsSet (idPSK x) = true /\ idName x <> name (primary m) /\
                   peersByName m !! idName x = None) ids.

Lemma wirePeers_ok c st ids m : wf st m -> isOpen m = false -> buildProbers c = map Some st -> fresh_ids ids m ->
  exists m', wirePeers c ids m = (m', None) /\ wf st m' /\ isOpen m' = false /\ defs m' = defs m /\ nextPathID m' = nextPathID m /\
    length (peers m') = (length (peers m) + length ids)%nat.
Proof.
  intros Hw Ho Hb. revert m Hw Ho. induction ids as [|x ids IH]; intros m Hw Ho [Hn Hf]; cbn [wirePeers].
  - exists m. by rewrite Nat.add_0_r.
  - apply Forall_cons in Hf as [(F1 & F2 & F3 & F4) Hf]. cbn [map] in Hn. apply NoDup_cons in Hn as [Hx Hn].
    pose proof (AddPeer_spec (idName x) (idPSK x) st m Hw) as S. rewrite Hb. unfold AddConcentratorPeer in S |- *.
    rewrite (bool_decide_eq_false_2 (idName x = EmptyString)) in S |- * by done. rewrite F2, Ho in S |- *. cbn [negb] in S |- *.
    rewrite length_map, (wf_len _ _ Hw), Nat.eqb_refl, allSome_map in S |- *. cbn [negb] in S |- *.
    rewrite (bool_decide_eq_false_2 (idName x = name (primary m))) in S |- * by done.
    rewrite bool_decide_eq_false_2 in S |- * by (rewrite F4; by intros [? ?]).
    destruct S as (S1 & S2 & S3 & S4 & S5 & _). match type of S1 with wf _ ?y => set (m1 := y) in * end.
    assert (primary m1 = primary m) as Ep.
    { unfold primary, m1. cbn [peers update]. pose proof (wf_some _ _ Hw). by destruct (peers m). }
    destruct (IH m1) as (m' & I1 & I2 & I3 & I4 & I5 & I6); [done| |split; [done|]|].
    + apply (isOpen_false _ _ S1). rewrite S4. by apply (isOpen_false _ _ Hw).
    + apply Forall_forall. intros y Hy. rewrite Forall_forall in Hf. destruct (Hf y Hy) as (? & ? & ? & ?).
      split_and!; [done|done|by rewrite Ep|]. unfold m1. cbn [peersByName update]. rewrite lookup_insert_ne; [done|].
      intros E. apply Hx. rewrite E. change (map idName ids) with (idName <$> ids). apply list_elem_of_fmap. eauto.
    + exists m'. split_and!; [done|done|done|congruence|congruence|]. rewrite I6, S5, length_app. cbn. lia.
Qed.

Lemma boot_ok c ids : Paths c <> [] -> (length (Paths c) <= 256)%nat -> NoDup (map pathName (Paths c)) ->
  ids <> [] -> NoDup (map idName ids) -> Forall (fun x => IsSet (idPSK x) = true) ids ->
  (length ids <> 1%nat -> Forall (fun x => idName x <> EmptyString) ids) ->
  exists m, bootBind c ids = inr m /\ wf (bootStamps c) m /\ isOpen m = false /\ PathNames m = map pathName (Paths c) /\
    length (peers m) = length ids /\ nextPathID m = 0.
Proof.
  intros Hp H256 Hnames Hids Hn Hk Hne. destruct (bootStamps_ok c H256) as (B1 & B2 & B3 & B4).
  destruct ids as [|x ids]; [done|]. apply Forall_cons in Hk as [Hkx Hk]. cbn [map] in Hn. apply NoDup_cons in Hn as [Hx Hn].
  set (m0 := mkMultipath (Paths c) [newPeerState EmptyString (idPSK x) true (bootStamps c)] {[ EmptyString := 0%nat ]} ∅ [] [] 0 0 None).
  assert (NewMultipath (Paths c) (idPSK x) (buildProbers c) true true = inr m0) as E0.
  { unfold NewMultipath. rewrite B4, length_map, B3, Nat.eqb_refl, allSome_map, Hkx. cbn [negb].
    destruct (Nat.eqb_spec (length (Paths c)) 0) as [E|_]; [by destruct (Paths c)|].
    destruct (Nat.ltb_spec 256 (length (Paths c))) as [E|_]; [lia|done]. }
  assert (wf (bootStamps c) m0) as W0 by (split; try done; repeat constructor; done).
  unfold bootBind. rewrite E0. destruct ids as [|y ids].
  - cbn. exists m0. done.
  - specialize (Hne ltac:(done)). apply Forall_cons in Hne as [Hnx Hne].
    assert ((1 <? length (x :: y :: ids))%nat = true) as -> by done.
    assert (SetPrimaryPeerName (idName x) m0 = (m0 <| peers := alter (fun p => p <| name := idName x |>) 0%nat (peers m0) |>
          <| peersByName := <[idName x := 0%nat]> (delete (name (primary m0)) (peersByName m0)) |>, None)) as ->.
    { unfold SetPrimaryPeerName. rewrite bool_decide_eq_false_2 by done.
      rewrite bool_decide_eq_false_2; [done|]. cbn [peersByName m0]. rewrite lookup_singleton_ne by done. by intros [? ?]. }
    match goal with |- context [wirePeers _ _ ?z] => set (m1 := z) end.
    assert (wf (bootStamps c) m1) as W1 by (split; try done; repeat constructor; done).
    destruct (wirePeers_ok c (bootStamps c) (y :: ids) m1 W1 eq_refl B4) as (m' & -> & I2 & I3 & I4 & I5 & I6).
    { split; [done|]. apply Forall_forall. intros z Hz. rewrite Forall_forall in Hk, Hne.
      assert (idName z <> idName x) as Nz.
      { intros E. apply Hx. rewrite <- E. change (map idName (y :: ids)) with (idName <$> (y :: ids)). apply list_elem_of_fmap. eauto. }
      split_and!; [by apply Hne|by apply Hk|done|]. unfold m1. cbn [peersByName update m0].
      rewrite lookup_insert_ne by done. cbn [name primary peers m0 newPeerState nth]. by rewrite delete_singleton_eq. }
    exists m'. split_and!; try done. unfold PathNames. by rewrite I4.
Qed.

(** Every accepted configuration of at most 256 paths brings a bond up. *)
Lemma boot_loaded LookupIP urlParse raw c : load LookupIP urlParse raw = Ok c -> (length (Paths c) <= 256)%nat ->
  exists m, bootBind c (PeerIdentities c) = inr m /\ wf (bootStamps c) m /\ isOpen m = false /\ PathNames m = map pathName (Paths c) /\
    length (peers m) = length (PeerIdentities c) /\ nextPathID m = 0.
Proof.
  intros Hl H256. destruct (config_props.load_ok _ _ _ _ Hl) as [W _]. 
  apply boot_ok; try done.
  - apply (config_props.wf_paths _ W).
  - apply (config_props.wf_path_names _ W).
  - unfold PeerIdentities. destruct (config_props.wf_peers _ W) as [? _]. by destruct (config.peers c).
  - apply (config_props.wf_names _ W).
  - apply (config_props.wf_keys _ W).
  - intros N. eapply config_props.load_names; [exact Hl|]. unfold PeerIdentities in N. by rewrite length_map in N.
Qed.

Lemma run_wf ops m st : wf st m -> exists st', wf st' (run m ops) /\ length (peers (run m ops)) = length (peers m) /\
  nextPathID m <= nextPathID (run m ops).
Proof.
  revert m st. induction ops as [|o ops IH]; intros m st Hw; [by exists st|]. unfold run. cbn [fold_left].
  destruct (step_spec st m o Hw) as (st1 & W1 & _ & N1 & L1 & _). destruct (IH _ _ W1) as (st2 & W2 & L2 & N2).
  exists st2. split; [done|]. unfold run in L2, N2. split; [congruence|lia].
Qed.

(** C10. The bond's membership is consistent over its whole life.  An accepted
    configuration of at most 256 paths brings the bond up with its paths and one
    peer per identity; after any sequence of openings, closings, admissions,
    removals, promotions and repointings, whatever the kernel answers: the
    configured names are distinct; a closed bond has no socket and no view; in an
    open one at least one path is bound, each configured path is either bound or
    deferred, never both, each peer has exactly one view of each socket, in the
    order of the sockets, and its prober stamps the socket's path id; and no two
    configured paths share an id. *)
Theorem membership_consistent LookupIP urlParse raw c :
  load LookupIP urlParse raw = Ok c -> (length (Paths c) <= 256)%nat ->
  exists m0, bootBind c (PeerIdentities c) = inr m0 /\ PathNames m0 = map pathName (Paths c) /\ isOpen m0 = false /\
    forall ops, let m := run m0 ops in
      length (peers m) = length (PeerIdentities c) /\ NoDup (PathNames m) /\
      (isOpen m = false -> shared m = [] /\ deferred m = [] /\ Forall (fun p => ppaths p = []) (peers m)) /\
      (isOpen m = true -> shared m <> [] /\
         app (sname <$> shared m) (map (fun d => pathName (ddef d)) (deferred m)) ≡ₚ PathNames m /\
         Forall (fun sp => views sp = List.seq 0 (length (peers m))) (shared m)) /\
      Forall (fun p => map tag (ppaths p) = map stag (shared m) /\ probers p = stamps m /\
                       length (probers p) = length (defs m)) (peers m) /\
      NoDup (stamps m) /\ Forall (fun s => 0 <= s <= 255) (stamps m).
Proof.
  intros Hl H256. destruct (boot_loaded _ _ _ _ Hl H256) as (m0 & E & W & O & N & L & _).
  exists m0. split; [done|]. split; [done|]. split; [done|]. intros ops. cbv zeta.
  destruct (run_wf ops m0 _ W) as (st & W' & L' & _). unfold stamps. rewrite (wf_stamps _ _ W').
  pose proof W' as [H1 H2 H3 H4 H5 H6 H7 H8 H9 H10 H11]. split_and!; try done; [congruence| | |].
  - intros Ho. apply (isOpen_false _ _ W') in Ho. split_and!; [done|by apply H11|].
    eapply Forall_impl; [exact H2|]. intros p (_ & _ & P). rewrite Ho in P. by destruct (ppaths p).
  - intros Ho. apply (isOpen_true _ _ W') in Ho. split_and!; [done|by eapply cover_names|done].
  - eapply Forall_impl; [exact H2|]. intros p (P1 & _ & P2). split_and!; [done|done|congruence].
Qed.

(** ** Path ids *)
Lemma minted_spec st m o : wf st m -> minted m o = [] \/
  (minted m o = [nextPathID m] /\ isOpen m = true /\ nextPathID (step m o) = nextPathID m + 1 /\ wf (app st [nextPathID m]) (step m o)).
Proof.
  intros Hw. destruct o; try (by left). cbn [minted step]. pose proof (AddPath_spec k now def m st Hw) as S.
  destruct (AddPath k now def m) as [m' [e|]]; [by left|]. right. destruct S as (S1 & _ & _ & S2 & _ & S3 & _).
  rewrite (wf_stamps _ _ S2), List.last_last. done.
Qed.

Lemma mints_fresh ops m st : wf st m ->
  Forall (fun s => nextPathID m <= s) (mints m ops) /\ NoDup (mints m ops) /\ forall s, s ∈ st -> s ∉ mints m ops.
Proof.
  revert m st. induction ops as [|o ops IH]; intros m st Hw; cbn [mints].
  { split_and!; [constructor|constructor|]. intros s _ H. by apply elem_of_nil in H. }
  destruct (step_spec st m o Hw) as (st1 & W1 & Ev & N1 & _).
  destruct (minted_spec st m o Hw) as [-> |(-> & M1 & M2 & M3)].
  - destruct (IH _ _ W1) as (I1 & I2 & I3). cbn [app]. split; [eapply Forall_impl; [exact I1|]; cbn; lia|]. split; [done|].
    intros s Hs. destruct Ev as [_|n E1 _ _ _|i n E1 _ _].
    + by apply I3.
    + apply I3, elem_of_app. by left.
    + pose proof (wf_fresh _ _ Hw (proj1 (isOpen_true _ _ Hw) E1)) as F. rewrite Forall_forall in F, I1.
      intros Hm. specialize (I1 _ Hm). specialize (F _ Hs). cbn in *. lia.
  - destruct (IH _ _ M3) as (I1 & I2 & I3). rewrite M2 in I1. cbn [app].
    assert (nextPathID m ∉ mints (step m o) ops) as Hn.
    { intros Hm. rewrite Forall_forall in I1. specialize (I1 _ Hm). cbn in I1. lia. }
    split; [constructor; [lia|]; eapply Forall_impl; [exact I1|]; cbn; lia|]. split; [by constructor|].
    intros s Hs [-> |Hm]%elem_of_cons.
    + pose proof (wf_fresh _ _ Hw (proj1 (isOpen_true _ _ Hw) M1)) as F. rewrite Forall_forall in F. specialize (F _ Hs). cbn in F. lia.
    + apply (I3 s); [|done]. apply elem_of_app. by left.
Qed.

Lemma id_stable st m o n s s' : wf st m -> idOf m n s -> idOf (step m o) n s' -> s = s'.
Proof.
  intros Hw. destruct (step_spec st m o Hw) as (st' & W' & Ev & _). unfold idOf, stamps.
  rewrite (wf_stamps _ _ Hw), (wf_stamps _ _ W'). intros Hs Hs'.
  destruct (pair_at _ _ _ _ (wf_names _ _ Hw) Hs) as (i & Hi & Hsi).
  destruct (pair_at _ _ _ _ (wf_names _ _ W') Hs') as (j & Hj & Hsj).
  pose proof (wf_len _ _ Hw) as Hlen. assert (length (PathNames m) = length (defs m)) as Hpn by (unfold PathNames; by rewrite length_map).
  destruct Ev as [E|x _ Nx E _|l x _ Hl E]; rewrite E in Hj.
  - assert (i = j) as -> by (eapply (NoDup_lookup (PathNames m)); [apply Hw|done|done]). congruence.
  - assert (j < length (PathNames m))%nat as Hlt.
    { destruct (Nat.lt_ge_cases j (length (PathNames m))); [done|]. rewrite lookup_app_r in Hj by done.
      destruct (j - length (PathNames m))%nat as [|q]; [|by destruct q]. injection Hj as ->. exfalso. apply Nx. by eapply list_elem_of_lookup_2. }
    rewrite lookup_app_l in Hj by done. rewrite lookup_app_l in Hsj by lia.
    assert (i = j) as -> by (eapply (NoDup_lookup (PathNames m)); [apply Hw|done|done]). congruence.
  - assert (delete l (PathNames m) = filter (fun y => y <> x) (PathNames m)) as Ed.
    { apply (delete_name id); rewrite list_fmap_id; [apply Hw|done]. }
    rewrite <- Ed in Hj.
    destruct (Nat.lt_ge_cases j l) as [Hjl|Hjl].
    + rewrite list_lookup_delete_lt in Hj by done. rewrite list_lookup_delete_lt in Hsj by done.
      assert (i = j) as -> by (eapply (NoDup_lookup (PathNames m)); [apply Hw|done|done]). congruence.
    + rewrite list_lookup_delete_ge in Hj by done. rewrite list_lookup_delete_ge in Hsj by done.
      assert (i = S j) as -> by (eapply (NoDup_lookup (PathNames m)); [apply Hw|done|done]). congruence.
Qed.

Lemma stamps_minted ops m st s : wf st m -> s ∈ stamps (run m ops) -> s ∈ st \/ s ∈ mints m ops.
Proof.
  revert m st. induction ops as [|o ops IH]; intros m st Hw Hs; cbn [mints].
  - left. unfold run, stamps in Hs. cbn in Hs. by rewrite (wf_stamps _ _ Hw) in Hs.
  - destruct (step_spec st m o Hw) as (st1 & W1 & _ & _ & _ & M).
    destruct (IH (step m o) st1 W1 Hs) as [H|H]; [apply M in H as [H|H]; [by left|]|]; right; apply elem_of_app; auto.
Qed.

(** C15. A path id is given once.  Over any history of the bond, across closing
    and reopening, removals and re-additions of the same name: the ids of the
    boot paths and the ids given to the paths admitted since are all different,
    every id in use is one of them, and a path that stays configured keeps its
    id.  (The peer's replay filter is keyed by this id.) *)
Theorem path_ids_never_reused LookupIP urlParse raw c :
  load LookupIP urlParse raw = Ok c -> (length (Paths c) <= 256)%nat ->
  exists m0, bootBind c (PeerIdentities c) = inr m0 /\ length (stamps m0) = length (Paths c) /\
    forall ops, NoDup (stamps m0 ++ mints m0 ops)%list /\
      (forall s, s ∈ stamps (run m0 ops) -> s ∈ (stamps m0 ++ mints m0 ops)%list) /\
      (forall o n s s', idOf (run m0 ops) n s -> idOf (step (run m0 ops) o) n s' -> s = s').
Proof.
  intros Hl H256. destruct (boot_loaded _ _ _ _ Hl H256) as (m0 & E & W & O & N & L & _).
  exists m0. unfold stamps at 1 2. rewrite (wf_stamps _ _ W). split; [done|].
  split; [by apply bootStamps_ok|]. intros ops. destruct (mints_fresh ops m0 _ W) as (F1 & F2 & F3). split_and!.
  - apply NoDup_app. split_and!; [by apply (wf_nodup _ _ W)|done|done].
  - intros s Hs. apply elem_of_app. unfold stamps at 1. rewrite (wf_stamps _ _ W). by apply stamps_minted.
  - intros o n s s'. destruct (run_wf ops m0 _ W) as (st & W' & _). by eapply id_stable.
Qed.

(** ** Reload *)

(** [Tunnel.Reload]'s calls on the bind, the [i]-th with its own kernel answers,
    up to the first error. *)
Fixpoint addAll (kern : nat -> kernel) (now : Time) (i : nat) (add : list Path) (m : Multipath) : Multipath * option error :=
  match add with
  | [] => (m, None)
  | p :: add =>
      match AddPath (kern i) now p m with
      | (m, None) => addAll kern now (S i) add m
      | (m, Some e) => (m, Some e)
      end
  end.
Fixpoint removeAll (closed : nat -> bool) (i : nat) (remove : list string) (m : Multipath) : Multipath * option error :=
  match remove with
  | [] => (m, None)
  | n :: remove =>
      match RemovePath (closed i) n m with
      | (m, None) => removeAll closed (S i) remove m
      | (m, Some e) => (m, Some e)
      end
  end.

Lemma addAll_spec kern now i add m st : wf st m -> isOpen m = true -> NoDup (map pathName add) ->
  Forall (fun p => IsValid (SourceAddr p) = true /\ pathName p ∉ PathNames m) add ->
  let '(m', e) := addAll kern now i add m in
  (exists st', wf st' m') /\ isOpen m' = true /\ (exists sh, shared m' = app (shared m) sh) /\
  exists k, PathNames m' = app (PathNames m) (map pathName (take k add)) /\ nextPathID m' = nextPathID m + Z.of_nat (length (take k add)) /\
    match e with
    | None => k = length add
    | Some e => e = ErrListen \/ (e = ErrExhausted /\ nextPathID m' = 256)
    end.
Proof.
  revert i m st. induction add as [|p add IH]; intros i m st Hw Ho Hn Hf; cbn [addAll].
  - split; [by exists st|]. split; [done|]. split; [exists []; by rewrite app_nil_r|]. exists 0%nat. cbn. rewrite app_nil_r. split_and!; [done|lia|done].
  - apply Forall_cons in Hf as [[Hv Hp] Hf]. cbn [map] in Hn. apply NoDup_cons in Hn as [Hp' Hn].
    pose proof (AddPath_spec (kern i) now p m st Hw) as S. destruct (AddPath _ _ _ _) as [m1 [e|]].
    + destruct S as [-> S]. split; [by exists st|]. split; [done|]. split; [exists []; by rewrite app_nil_r|]. exists 0%nat. cbn. rewrite app_nil_r.
      split_and!; [done|lia|]. unfold add_refused in S. rewrite Ho, Hv in S. naive_solver.
    + destruct S as (_ & _ & _ & S4 & S5 & S6 & S7 & _ & sh & S8).
      specialize (IH (S i) m1 _ S4 S7 Hn). destruct (addAll _ _ _ _ _) as [m' e].
      destruct IH as (I1 & I2 & (sh' & I3) & k & I4 & I5 & I6).
      { eapply Forall_impl; [apply Forall_and; split; [exact Hf|apply Forall_forall; intros q Hq; exact Hq]|].
        cbn. intros q [[Q1 Q2] Q3]. split; [done|]. rewrite S5, elem_of_app. intros [H|H]; [done|].
        apply list_elem_of_singleton in H. apply Hp'. rewrite <- H. change (map pathName add) with (pathName <$> add). apply list_elem_of_fmap. eauto. }
      split; [done|]. split; [done|]. split; [exists (app sh sh'); by rewrite I3, S8, app_assoc|].
      exists (S k). cbn [take map length]. split_and!; [by rewrite I4, S5, <- app_assoc|lia|]. destruct e; [done|]. by f_equal.
Qed.

Lemma removeAll_spec closed i rem m st : wf st m -> isOpen m = true -> NoDup rem -> Forall (fun n => n ∈ PathNames m) rem ->
  let '(m', e) := removeAll closed i rem m in
  (exists st', wf st' m') /\ isOpen m' = true /\
  exists k, PathNames m' = filter (fun x => x ∉ take k rem) (PathNames m) /\
    shared m' = filter (fun sp => sname sp ∉ take k rem) (shared m) /\
    match e with
    | None => k = length rem
    | Some e => e = ErrRetire \/ (e = ErrLastPath /\ exists n, n ∈ rem /\ sname <$> shared m' = [n])
    end.
Proof.
  assert (forall {A} (f : A -> string) (l : list A), filter (fun x => f x ∉ @nil string) l = l) as F0.
  { intros A f l. induction l as [|x l IH]; [done|]. rewrite filter_cons_True by apply not_elem_of_nil. by f_equal. }
  assert (forall {A} (f : A -> string) n r (l : list A), filter (fun x => f x ∉ r) (filter (fun x => f x <> n) l) = filter (fun x => f x ∉ n :: r) l) as Fc.
  { intros A f n r l. rewrite list_filter_filter. apply list_filter_iff. intros x. rewrite not_elem_of_cons. tauto. }
  revert i m st. induction rem as [|n rem IH]; intros i m st Hw Ho Hn Hf; cbn [removeAll].
  - split; [by exists st|]. split; [done|]. exists 0%nat. cbn. by rewrite (F0 _ id), F0.
  - apply Forall_cons in Hf as [Hp Hf]. apply NoDup_cons in Hn as [Hp' Hn].
    pose proof (RemovePath_spec (closed i) n m st Hw) as S. destruct (RemovePath _ _ _) as [m1 [e|]].
    + destruct S as [[-> S]|(-> & _ & j & _ & R2 & R3 & _ & R5 & R6 & _)].
      * split; [by exists st|]. split; [done|]. exists 0%nat. cbn. rewrite (F0 _ id), F0. split_and!; try done.
        unfold remove_refused in S. rewrite Ho in S. destruct S as [[_ S]|[[_ S]|[-> S]]]; [done|done|]. right. split; [done|].
        exists n. split; [by left|done].
      * split; [eauto|]. split; [done|]. exists 1%nat. cbn [take]. rewrite R3, R6, <- (Fc _ id), <- Fc, (F0 _ id), F0. split_and!; try done. by left.
    + destruct S as (j & _ & R2 & R3 & _ & R5 & R6 & _). specialize (IH (S i) m1 _ R2 R5 Hn).
      destruct (removeAll _ _ _ _) as [m' e]. destruct IH as (I1 & I2 & k & I3 & I4 & I5).
      { eapply Forall_impl; [apply Forall_and; split; [exact Hf|apply Forall_forall; intros q Hq; exact Hq]|].
        cbn. intros q [Q1 Q2]. rewrite R3, list_elem_of_filter. split; [|done]. by intros ->. }
      split; [done|]. split; [done|]. exists (S k). cbn [take]. split_and!; [by rewrite I3, R3, (Fc _ id)|by rewrite I4, R6, Fc|].
      destruct e as [e|]; [|by rewrite I5]. destruct I5 as [->|(-> & n' & N1 & N2)]; [by left|]. right. split; [done|]. exists n'. split; [by right|done].
Qed.

Definition reachable (c : Config) (m : Multipath) : Prop :=
  exists m0 ops, bootBind c (PeerIdentities c) = inr m0 /\ m = run m0 ops.

Lemma reachable_wf LookupIP urlParse raw c m : load LookupIP urlParse raw = Ok c -> (length (Paths c) <= 256)%nat ->
  reachable c m -> exists st, wf st m.
Proof.
  intros Hl H256 (m0 & ops & E & ->). destruct (boot_loaded _ _ _ _ Hl H256) as (m0' & E' & W & _).
  rewrite E in E'. injection E' as <-. destruct (run_wf ops m0 _ W) as (st & W' & _). eauto.
Qed.

Lemma diff_spec live desired add remove : device.diffPaths live desired = (add, remove) -> NoDup live -> NoDup (map pathName desired) ->
  NoDup (map pathName add) /\ Forall (fun p => p ∈ desired /\ pathName p ∉ live) add /\ NoDup remove /\
  Forall (fun n => n ∈ live /\ n ∉ map pathName desired) remove /\
  (forall n, n ∈ map pathName desired -> n ∉ live -> n ∈ map pathName add) /\
  (forall n, n ∈ live -> n ∉ map pathName desired -> n ∈ remove).
Proof.
  unfold device.diffPaths. intros [= <- <-] Hl Hd. split_and!.
  - apply NoDup_ListNoDup. rewrite NoDup_ListNoDup in Hd. clear -Hd. induction desired as [|p l IH]; [constructor|].
    cbn [List.filter map] in *. inversion Hd as [|? ? H1 H2]; subst. destruct (negb _); [|by apply IH]. cbn [map]. constructor; [|by apply IH].
    intros (q & Eq & Hq)%List.in_map_iff. apply H1, List.in_map_iff. exists q. split; [done|]. by apply List.filter_In in Hq as [? _].
  - apply Forall_forall. intros p Hp%list_elem_of_In%List.filter_In. rewrite negb_true_iff, bool_decide_eq_false in Hp.
    destruct Hp as [Hp1 Hp2]. split; [by apply list_elem_of_In|done].
  - apply NoDup_ListNoDup, List.NoDup_filter. by apply NoDup_ListNoDup.
  - apply Forall_forall. intros n Hp%list_elem_of_In%List.filter_In. rewrite negb_true_iff, bool_decide_eq_false in Hp.
    destruct Hp as [Hp1 Hp2]. split; [by apply list_elem_of_In|done].
  - intros n Hn Hlv. change (map pathName desired) with (pathName <$> desired) in Hn. apply list_elem_of_fmap in Hn as (p & -> & Hp).
    apply list_elem_of_In, List.in_map_iff. exists p. split; [done|]. apply List.filter_In. split; [by apply list_elem_of_In|].
    by rewrite bool_decide_eq_false_2.
  - intros n Hn Hd'. apply list_elem_of_In, List.filter_In. split; [by apply list_elem_of_In|]. by rewrite bool_decide_eq_false_2.
Qed.

(** C18. A reload drives the bond to the new configuration.  Whatever the bond went
    through, while it is open and whatever the kernel answers, with the calls a
    reload makes (the paths to add, then the names to remove): if none fails, the
    configured names are those of the new configuration; an addition fails only
    because the kernel refuses the socket or all 256 ids were given, and then the
    earlier additions are in and every bound path is still bound; a removal fails
    only on the error of closing a socket, or when the last bound path is one the
    new configuration drops; and in each case the bond stays open and the sockets
    of the paths of the new configuration are the same as before. *)
Theorem reload_reaches_config LookupIP urlParse raw c raw2 c2 m kern now closed :
  load LookupIP urlParse raw = Ok c -> (length (Paths c) <= 256)%nat -> reachable c m -> isOpen m = true ->
  load LookupIP urlParse raw2 = Ok c2 ->
  let '(add, remove) := device.diffPaths (PathNames m) (Paths c2) in
  let '(m1, e1) := addAll kern now 0 add m in
  let '(m2, e2) := removeAll closed 0 remove m1 in
  match e1 with
  | Some e => (e = ErrListen \/ e = ErrExhausted /\ nextPathID m1 = 256) /\ isOpen m1 = true /\
      (exists k, PathNames m1 = app (PathNames m) (map pathName (take k add))) /\ (forall sp, sp ∈ shared m -> sp ∈ shared m1)
  | None =>
      isOpen m2 = true /\ (forall sp, sp ∈ shared m -> sname sp ∈ map pathName (Paths c2) -> sp ∈ shared m2) /\
      match e2 with
      | None => PathNames m2 ≡ₚ map pathName (Paths c2)
      | Some e => e = ErrRetire \/ (e = ErrLastPath /\ exists n, sname <$> shared m2 = [n] /\ n ∉ map pathName (Paths c2))
      end
  end.
Proof.
  intros Hl H256 Hr Ho Hl2. destruct (reachable_wf _ _ _ _ _ Hl H256 Hr) as (st & W).
  destruct (config_props.load_ok _ _ _ _ Hl2) as [W2 _].
  destruct (device.diffPaths _ _) as [add remove] eqn:Ed.
  destruct (diff_spec _ _ _ _ Ed (wf_names _ _ W) (config_props.wf_path_names _ W2)) as (D1 & D2 & D3 & D4 & D5 & D6).
  pose proof (addAll_spec kern now 0 add m st W Ho D1) as A. destruct (addAll _ _ _ _ _) as [m1 e1].
  destruct A as ((st1 & W1) & O1 & (sh & S1) & k & N1 & X1 & E1).
  { eapply Forall_impl; [exact D2|]. cbn. intros p [P1 P2]. split; [|done].
    destruct (config_props.wf_paths _ W2) as [_ F]. rewrite Forall_forall in F. by apply (F p P1). }
  pose proof (removeAll_spec closed 0 remove m1 st1 W1 O1 D3) as R. destruct (removeAll _ _ _ _) as [m2 e2].
  destruct R as ((st2 & W2') & O2 & j & N2 & S2 & E2).
  { eapply Forall_impl; [exact D4|]. cbn. intros n [P1 _]. rewrite N1. apply elem_of_app. by left. }
  destruct e1 as [e|].
  - split; [done|]. split; [done|]. split; [by exists k|]. intros sp Hs. rewrite S1. apply elem_of_app. by left.
  - subst k. rewrite take_ge in N1 by done. rewrite Forall_forall in D4.
    split; [done|]. split.
    { intros sp Hs Hin. rewrite S2, S1. apply list_elem_of_filter. split; [|apply elem_of_app; by left].
      intros Ht. apply (elem_of_sublist _ remove) in Ht; [|apply sublist_take]. by destruct (D4 _ Ht). }
    destruct e2 as [e|].
    + destruct E2 as [-> |(-> & n & E2 & E3)]; [by left|]. right. split; [done|]. exists n. split; [done|]. by apply (D4 n).
    + subst j. apply NoDup_Permutation; [apply (wf_names _ _ W2')|apply (config_props.wf_path_names _ W2)|]. intros x.
      rewrite N2, take_ge, list_elem_of_filter, N1, elem_of_app by done. split.
      * intros [Hx [Hi|Hi]].
        -- destruct (decide (x ∈ map pathName (Paths c2))) as [?|N]; [done|]. exfalso. by apply Hx, D6.
        -- change (map pathName add) with (pathName <$> add) in Hi. apply list_elem_of_fmap in Hi as (p & -> & Hp).
           rewrite Forall_forall in D2. destruct (D2 p Hp) as [P _]. change (map pathName (Paths c2)) with (pathName <$> Paths c2).
           apply list_elem_of_fmap. eauto.
      * intros Hx. split; [intros Hi; by destruct (D4 x Hi)|]. destruct (decide (x ∈ PathNames m)); [by left|]. right. by apply D5.
Qed.

(** ** A run of a two-exit edge *)
Definition kernelW : kernel := mkKernel None (fun _ _ _ _ => inl EOTHER) (fun i _ port _ => if (i =? 1)%nat then inl EADDRNOTAVAIL else inr port).
Definition pathW (n : string) (src : Addr) : Path := mkPath n src EmptyString AddrPort0 EmptyString BindModeAuto 0 0 EmptyString.
Definition emptyW : Multipath := mkMultipath [] [] ∅ ∅ [] [] 0 0 None.
Definition bootW : Multipath := match bootBind config_props.loadedW (PeerIdentities config_props.loadedW) with inr m => m | inl _ => emptyW end.
Lemma bootW_eq : bootBind config_props.loadedW (PeerIdentities config_props.loadedW) = inr bootW.
Proof. vm_compute. reflexivity. Qed.

(** One path is bound and the other deferred; then a path comes and goes, twice. *)
Definition historyW : list op :=
  [OpOpen kernelW 0 51820; OpAdd kernelW 5 (pathW "dsl" (mkAddr [192; 0; 2; 99] [])); OpRemove true "dsl";
   OpClose true; OpOpen kernelW 9 51820; OpAdd kernelW 10 (pathW "dsl" (mkAddr [192; 0; 2; 99] []))].

Lemma membership_consistent_witness :
  NoDup (PathNames (run bootW historyW)) /\ length (peers (run bootW historyW)) = 2%nat.
Proof.
  destruct (membership_consistent config_props.noLookup config_props.noURL config_props.rawW config_props.loadedW
    config_props.loadedW_eq ltac:(vm_compute; lia)) as (m0 & E & _ & _ & H).
  rewrite bootW_eq in E. apply (inj inr) in E. subst m0. destruct (H historyW) as (H1 & H2 & _). split; [exact H2|]. rewrite H1. reflexivity.
Defined.

Lemma mintsW : mints bootW historyW = [2; 3].
Proof. vm_cast_no_check (eq_refl [2; 3]). Qed.

Lemma path_ids_never_reused_witness :
  mints bootW historyW = [2; 3] /\ NoDup (stamps bootW ++ mints bootW historyW)%list.
Proof.
  split; [exact mintsW|].
  destruct (path_ids_never_reused config_props.noLookup config_props.noURL config_props.rawW config_props.loadedW
    config_props.loadedW_eq ltac:(vm_compute; lia)) as (m0 & E & _ & H).
  rewrite bootW_eq in E. apply (inj inr) in E. subst m0. apply (H historyW).
Defined.

(** The configuration reloaded drops one path and adds another. *)
Definition raw2W : Config := config_props.rawW <| Paths := [config_props.pathW "starlink" "198.51.100.7" 1400; config_props.pathW "dsl" "192.0.2.99" 0] |>.
Definition loaded2W : Config := match load config_props.noLookup config_props.noURL raw2W with Ok c => c | _ => raw2W end.
Lemma loaded2W_eq : load config_props.noLookup config_props.noURL raw2W = Ok loaded2W.
Proof. vm_compute. reflexivity. Qed.
Definition kernel1W : kernel := mkKernel None (fun _ _ _ _ => inl EOTHER) (fun _ _ port _ => inr port).
Definition openW : Multipath := run bootW [OpOpen kernel1W 0 51820].
Lemma openW_open : isOpen openW = true.
Proof. vm_compute. reflexivity. Qed.
Definition addedW : Multipath * option error := addAll (fun _ => kernel1W) 0 0 (fst (device.diffPaths (PathNames openW) (Paths loaded2W))) openW.
Definition reloadedW : Multipath * option error := removeAll (fun _ => true) 0 (snd (device.diffPaths (PathNames openW) (Paths loaded2W))) (fst addedW).
Lemma reloadedW_ok : snd addedW = None /\ snd reloadedW = None.
Proof. vm_compute. done. Qed.

Lemma reload_reaches_config_witness :
  PathNames (fst reloadedW) ≡ₚ ["starlink"; "dsl"]%string.
Proof.
  pose proof (reload_reaches_config config_props.noLookup config_props.noURL config_props.rawW config_props.loadedW raw2W loaded2W
    openW (fun _ => kernel1W) 0 (fun _ => true) config_props.loadedW_eq ltac:(vm_compute; lia)
    (ex_intro _ bootW (ex_intro _ [OpOpen kernel1W 0 51820] (conj bootW_eq eq_refl))) openW_open loaded2W_eq) as H.
  pose proof reloadedW_ok as [E1 E2]. unfold reloadedW, addedW in *.
  destruct (device.diffPaths _ _) as [add remove]. cbn [fst snd] in *.
  destruct (addAll _ _ _ _ _) as [m1 e1]. cbn [fst snd] in *. destruct (removeAll _ _ _ _) as [m2 e2]. cbn [fst snd] in *.
  subst e1 e2. destruct H as (_ & _ & H). exact H.
Defined.
End paths_props.
