(* ===== verification/BindEndpointProps.v ===== *)
(** * Which peer an endpoint belongs to

    On an edge with several exits each peer is sent to its own hub: the table of
    endpoints and the peers' configured remotes stay each other's inverse, and
    repointing one peer leaves the others alone. *)

From Stdlib Require Import Ascii String.
From stdpp Require Import base tactics list numbers gmap strings.
From S2P Require Import Prelude Sha256 Frame Netip Config ConfigProps BindRemote BindSock BindPaths BindPathsTheory BindPathsLife BindPathsProps.

Module endpoint_props.
Import config netip pathsock paths paths_theory paths_life paths_props.

(** ** What most operations keep *)
Definition keeps (m m' : Multipath) : Prop :=
  edgePeerByRemote m' = edgePeerByRemote m /\ peersByName m' = peersByName m /\
  configuredRemote <$> peers m' = configuredRemote <$> peers m.

#[local] Instance keeps_refl : Reflexive keeps.
Proof. done. Qed.
#[local] Instance keeps_trans : Transitive keeps.
Proof. intros x y z (A1 & A2 & A3) (B1 & B2 & B3). unfold keeps. split_and!; congruence. Qed.

Lemma alter_remote (f : peerState -> peerState) (i : nat) (ps : list peerState) : (forall p, configuredRemote (f p) = configuredRemote p) ->
  configuredRemote <$> alter f i ps = configuredRemote <$> ps.
Proof. intros H. revert i. induction ps as [|p ps IH]; intros [|i]; cbn; [done|done|by rewrite H|by rewrite IH]. Qed.

Lemma map_remote (f : peerState -> peerState) (ps : list peerState) : (forall p, configuredRemote (f p) = configuredRemote p) ->
  configuredRemote <$> map f ps = configuredRemote <$> ps.
Proof. intros H. induction ps as [|p ps IH]; cbn; [done|]. by rewrite H, IH. Qed.

Lemma keeps_append pi pp m : keeps m (appendPath pi pp m).
Proof. unfold keeps, appendPath. split_and!; try done. by apply alter_remote. Qed.

Lemma keeps_detach pi n m : keeps m (detachPeerPathBoundLocked pi n m).
Proof. unfold keeps, detachPeerPathBoundLocked. split_and!; try done. apply alter_remote. intros p. by destruct (list_find _ _) as [[]|]. Qed.

Lemma keeps_detachAll pis n m : keeps m (detachAll pis n m).
Proof.
  revert m. induction pis as [|pi pis IH]; intros m; [done|]. unfold detachAll. cbn [fold_left].
  etransitivity; [apply (keeps_detach pi n)|apply IH].
Qed.

Lemma keeps_attach now def ident reuse pis attached sp m : keeps m (fst (attach_loop now def ident reuse pis attached sp m)).
Proof.
  revert attached sp m. induction pis as [|pi pis IH]; intros attached sp m; cbn [attach_loop]; [done|].
  destruct (attachPeerPathLocked _ _ _ _ _ _ _) as [e|[[m1 sp1] pp]] eqn:E; [apply keeps_detachAll|].
  etransitivity; [|apply IH]. unfold attachPeerPathLocked in E. repeat case_match; simplify_eq; apply keeps_append.
Qed.

Lemma keeps_open_peers now i def pis sp m m' sp' : open_peers now i def pis sp m = inr (m', sp') -> keeps m m'.
Proof.
  revert sp m. induction pis as [|pi pis IH]; intros sp m H; cbn [open_peers] in H; [by injection H as <- _|].
  repeat case_match; simplify_eq. all: etransitivity; [apply keeps_append|by eapply IH].
Qed.

Lemma keeps_open_defs k now port i todo actual m m' a : open_defs k now port i todo actual m = inr (m', a) -> keeps m m'.
Proof.
  revert i actual m. induction todo as [|[def d] todo IH]; intros i actual m H; cbn [open_defs] in H; [by injection H as <- _|].
  destruct (snd _) as [[]|c]; [|done|].
  - destruct (probers _ !! i); [|done]. etransitivity; [|by eapply IH]. done.
  - destruct (open_peers _ _ _ _ _ _) as [e|[m1 sp]] eqn:E; [done|]. apply keeps_open_peers in E.
    etransitivity; [exact E|]. etransitivity; [|by eapply IH]. done.
Qed.

Lemma keeps_shut m : keeps m (shut m).
Proof. unfold keeps, shut. split_and!; try done. cbn [clearPerOpenStateAfterReaders detachSocketGenerationsLocked peers update]. rewrite map_map. by apply map_remote. Qed.

Lemma keeps_open k now port m : keeps m (fst (Open k now port m)).
Proof.
  unfold Open. destruct (isOpen m); [done|]. cbv zeta. set (m1 := m <| peers := _ |>).
  assert (keeps m m1) as K1 by (unfold keeps; split_and!; try done; by apply map_remote).
  destruct (open_defs _ _ _ _ _ _ _) as [e|[m2 a]] eqn:E; [etransitivity; [exact K1|exact (keeps_shut m1)]|].
  apply keeps_open_defs in E. assert (keeps m m2) as K2 by (etransitivity; [exact K1|exact E]).
  destruct (negb (isOpen m2)); [etransitivity; [exact K2|apply keeps_shut]|].
  destruct (forallb _ _); [exact K2|]. etransitivity; [exact K2|]. exact (keeps_shut m2).
Qed.

Lemma keeps_zip ps pps : length pps = length ps ->
  configuredRemote <$> zip_with (fun p pp => p <| probers := app (probers p) [ppprober pp] |>) ps pps = configuredRemote <$> ps.
Proof. revert pps. induction ps as [|p ps IH]; intros [|pp pps] H; cbn; try done. f_equal. apply IH. by injection H. Qed.

Lemma keeps_add k now def m st : wf st m -> keeps m (fst (AddPath k now def m)).
Proof.
  intros Hw. unfold AddPath. destruct (negb (isOpen m)); [done|]. destruct (negb (hasProber _)); [done|].
  destruct (negb (IsValid _)); [done|]. destruct (bool_decide _); [done|]. destruct (255 <? _); [done|]. cbv zeta. destruct (snd _) as [[]|c].
  - destruct (negb (forallb _ _)); [done|]. unfold keeps. split_and!; try done. by apply map_remote.
  - done.
  - destruct (attach_spec now def (u8 (nextPathID m)) None
      (mkShared (pathName def) (u8 (nextPathID m)) (SourceAddr def) c (pathBind def) (runtimeDev (ifaces k) (defs m) (SourceAddr def) (pathBind def)) []) m
      (peers_ready _ _ _ (wf_peer _ _ Hw)) I) as (pps & Hl & _ & E).
    pose proof (keeps_attach now def (u8 (nextPathID m)) None (List.seq 0 (length (peers m))) []
      (mkShared (pathName def) (u8 (nextPathID m)) (SourceAddr def) c (pathBind def) (runtimeDev (ifaces k) (defs m) (SourceAddr def) (pathBind def)) []) m) as K.
    unfold attachSharedPathLocked in *. rewrite E in K |- *. cbn [fst] in K. etransitivity; [exact K|].
    unfold keeps. split_and!; try done. cbn [peers update fst]. apply keeps_zip. by rewrite length_grow.
Qed.

Lemma keeps_durable i n m : keeps m (fst (removeDurableLocked i n m)).
Proof. unfold removeDurableLocked. destruct (negb _); [done|]. unfold keeps. split_and!; try done. by apply map_remote. Qed.

Lemma keeps_remove closed n m : keeps m (fst (RemovePath closed n m)).
Proof.
  unfold RemovePath. destruct (negb _); [done|]. destruct (findDef n m) as [i|]; [|done].
  destruct (list_find _ _) as [[j sp]|]; [|apply keeps_durable]. destruct (_ =? 1)%nat; [done|]. cbv zeta.
  match goal with |- context [removeDurableLocked i n ?x] => pose proof (keeps_durable i n x) as K; destruct (removeDurableLocked i n x) as [m' e] end.
  cbn [fst] in *. etransitivity; [|exact K]. etransitivity; [apply keeps_detachAll|]. done.
Qed.

Lemma keeps_promote now dp c d m : keeps m (fst (promoteDeferredLocked now dp c d m)).
Proof.
  unfold promoteDeferredLocked. destruct (findDef _ m) as [i|]; [|done]. destruct (mapM _ _) as [prs|]; [|done]. cbv zeta.
  match goal with |- context [attachSharedPathLocked ?a ?b ?c ?d ?e ?f] =>
    pose proof (keeps_attach a c d e (List.seq 0 (length (peers m))) [] b f) as K; unfold attachSharedPathLocked;
    destruct (attach_loop _ _ _ _ _ _ _ _) as [m' [x|[sp l]]] end; exact K.
Qed.

Lemma keeps_reconcile k now m : keeps m (reconcileDeferred k now m).
Proof.
  unfold reconcileDeferred. destruct (_ || _); [done|]. generalize 0%nat, (deferred m), (@nil deferredPath).
  intros i todo. revert i m. induction todo as [|dp todo IH]; intros i m kept; cbn [reconcile_loop]; [done|].
  destruct (snd _) as [e|c]; [apply IH|].
  match goal with |- context [promoteDeferredLocked ?a ?b ?c ?d ?e] => pose proof (keeps_promote a b c d e) as K;
    destruct (promoteDeferredLocked a b c d e) as [m' [x|]] end; (etransitivity; [exact K|apply IH]).
Qed.

(** ** Ownership *)
Definition remotesOf (m : Multipath) : list (option AddrPort) := configuredRemote <$> peers m.

(** The table of endpoints is the inverse of the configured remotes. *)
Definition owned (m : Multipath) : Prop :=
  forall ap pi, edgePeerByRemote m !! ap = Some pi <-> remotesOf m !! pi = Some (Some ap).
Definition named (m : Multipath) : Prop :=
  map_Forall (fun _ pi => (pi < length (peers m))%nat) (peersByName m).

Lemma owned_keeps m m' : keeps m m' -> owned m -> owned m'.
Proof. intros (E1 & _ & E3) H ap pi. unfold remotesOf. by rewrite E1, E3. Qed.

Lemma named_keeps m m' : keeps m m' -> named m -> named m'.
Proof. intros (_ & E2 & E3) H. unfold named. rewrite E2. apply (f_equal length) in E3. rewrite !length_fmap in E3. by rewrite E3. Qed.

Lemma remotes_set pi ap (ps : list peerState) :
  configuredRemote <$> alter (fun p => p <| configuredRemote := Some ap |>) pi ps = alter (fun _ => Some ap) pi (configuredRemote <$> ps).
Proof. revert pi. induction ps as [|p ps IH]; intros [|pi]; cbn; [done|done|done|by rewrite IH]. Qed.

Lemma owned_seed i remotes m : (i + length remotes = length (peers m))%nat -> owned m ->
  (forall j, (i <= j < length (peers m))%nat -> remotesOf m !! j = Some None) ->
  NoDup (List.filter apValid remotes) -> (forall ap, ap ∈ remotes -> apValid ap = true -> edgePeerByRemote m !! ap = None) ->
  owned (seed_loop i remotes m).
Proof.
  revert i m. induction remotes as [|ap remotes IH]; intros i m Hl Ho Hn Hd He; cbn [seed_loop]; [done|].
  cbn [length] in Hl. cbn [List.filter] in Hd. destruct (apValid ap) eqn:Ev; cbn [negb].
  - apply NoDup_cons in Hd as [Hd1 Hd2].
    match goal with |- owned (seed_loop _ _ ?x) => set (m1 := x) end.
    assert (length (peers m1) = length (peers m)) as Hlen by (unfold m1; cbn [peers update]; apply length_alter).
    assert (remotesOf m1 = alter (fun _ => Some ap) i (remotesOf m)) as Hr by (unfold remotesOf, m1; cbn [peers update]; apply remotes_set).
    assert (remotesOf m !! i = Some None) as Hi by (apply Hn; lia).
    apply IH; [lia| | |done|].
    + intros a pi. rewrite Hr. unfold m1. cbn [edgePeerByRemote update]. rewrite lookup_insert_Some.
      destruct (decide (pi = i)) as [-> |N].
      * rewrite list_lookup_alter_eq, Hi. cbn. split; [|by intros [= ->]; left].
        intros [[-> _]|[_ H]]; [done|]. apply Ho in H. congruence.
      * rewrite list_lookup_alter_ne by done. split.
        -- intros [[_ H]|[_ H]]; [congruence|by apply Ho].
        -- intros H. right. apply Ho in H. split; [|done]. intros ->. rewrite (He a) in H; [done|by left|done].
    + intros j Hj. rewrite Hr, list_lookup_alter_ne by lia. apply Hn. lia.
    + intros a Ha Hv. unfold m1. cbn [edgePeerByRemote update]. rewrite lookup_insert_ne; [apply He; [by right|done]|].
      intros ->. apply Hd1. apply list_elem_of_In, List.filter_In. split; [by apply list_elem_of_In|done].
  - apply IH; [lia|done| |done|].
    + intros j Hj. apply Hn. lia.
    + intros a Ha. apply He. by right.
Qed.

(** Repointing: refused when the endpoint is another peer's, else the peer's own. *)
Lemma repoint_spec now pi ap m p : owned m -> peers m !! pi = Some p ->
  let '(m', e) := setPeerRemoteForLocked now pi ap m in
  match e with
  | Some e => m' = m /\ e = ErrRemoteOwned /\ exists j, j <> pi /\ edgePeerByRemote m !! ap = Some j
  | None => owned m' /\ edgePeerByRemote m' !! ap = Some pi /\ peersByName m' = peersByName m /\ defaultRemote m' = defaultRemote m /\
      length (peers m') = length (peers m) /\ (forall j, j <> pi -> peers m' !! j = peers m !! j) /\
      exists p', peers m' !! pi = Some p' /\ configuredRemote p' = Some ap /\ name p' = name p /\ virtDst p' = virtDst p /\
        Forall (fun pp => remote.getRemote (ppremote pp) = Some ap) (ppaths p') /\ map tag (ppaths p') = map tag (ppaths p)
  end.
Proof.
  intros Ho Hp. unfold setPeerRemoteForLocked. rewrite Hp.
  destruct (match edgePeerByRemote m !! ap with Some owner => negb (owner =? pi)%nat | None => false end) eqn:G.
  { destruct (edgePeerByRemote m !! ap) as [j|]; [|done]. apply negb_true_iff, Nat.eqb_neq in G. split_and!; try done. by exists j. }
  assert (forall j, edgePeerByRemote m !! ap = Some j -> j = pi) as Hown.
  { intros j Hj. rewrite Hj in G. apply negb_false_iff, Nat.eqb_eq in G. done. }
  set (e := match configuredRemote p with Some _ => _ | None => _ end).
  match goal with |- owned ?x /\ _ => set (m' := x) end.
  assert (remotesOf m !! pi = Some (configuredRemote p)) as Hrp by (unfold remotesOf; by rewrite list_lookup_fmap, Hp).
  assert (remotesOf m' = alter (fun _ => Some ap) pi (remotesOf m)) as Hr.
  { unfold remotesOf, m', setAll. cbn [peers update]. rewrite alter_remote by done. apply remotes_set. }
  assert (forall a j, a <> ap -> e !! a = Some j <-> edgePeerByRemote m !! a = Some j /\ j <> pi) as He.
  { intros a j Na. assert (edgePeerByRemote m !! a = Some pi <-> configuredRemote p = Some a) as Hpi by (rewrite (Ho a pi), Hrp; split; congruence).
    unfold e. destruct (configuredRemote p) as [old|] eqn:Ec.
    - destruct (bool_decide_reflect (old = ap)) as [-> |No]; cbn [negb].
      + split; [|by intros [? _]]. intros H. split; [done|]. intros ->. apply Hpi in H. congruence.
      + rewrite lookup_delete_Some. split.
        * intros [N H]. split; [done|]. intros ->. apply Hpi in H. congruence.
        * intros [H N]. split; [|done]. intros ->. assert (edgePeerByRemote m !! a = Some pi) by (by apply Hpi). congruence.
    - split; [|by intros [? _]]. intros H. split; [done|]. intros ->. by apply Hpi in H. }
  assert (edgePeerByRemote m' = <[ap := pi]> e) as Em by done.
  split; [|split; [by rewrite Em, lookup_insert_eq|split; [done|split; [done|split; [|split]]]]].
  - intros a j. rewrite Hr, Em. destruct (decide (a = ap)) as [-> |Na].
    + rewrite lookup_insert_eq. destruct (decide (j = pi)) as [-> |N].
      * rewrite list_lookup_alter_eq, Hrp. done.
      * rewrite list_lookup_alter_ne by done. split; [intros [= ->]; done|]. intros H. apply Ho in H. by apply Hown in H.
    + rewrite lookup_insert_ne by done. rewrite He by done. destruct (decide (j = pi)) as [-> |N].
      * rewrite list_lookup_alter_eq, Hrp. cbn. split; [by intros [_ ?]|]. intros [= ->]. done.
      * rewrite list_lookup_alter_ne by done. rewrite (Ho a j). naive_solver.
  - unfold m', setAll. cbn [peers update]. by rewrite !length_alter.
  - intros j Nj. unfold m', setAll. cbn [peers update]. by rewrite !list_lookup_alter_ne.
  - unfold m', setAll. cbn [peers update]. rewrite !list_lookup_alter_eq, Hp. cbn [fmap option_fmap option_map].
    eexists. split; [reflexivity|]. split_and!; try done.
    + cbn [ppaths update]. apply Forall_map, Forall_forall. intros pp _. cbn. unfold remote.getRemote, remote.selectedAddrLocked. cbn.
      by rewrite lookup_singleton_eq.
    + cbn [ppaths update]. by rewrite map_map.
Qed.

(** ** Where the views of a freshly opened bond point *)
Definition dest (m : Multipath) (p : peerState) (def : Path) : option AddrPort :=
  if apValid (DestAddr def) then Some (DestAddr def)
  else match configuredRemote p with
  | Some ap => Some ap
  | None => ap ← defaultRemote m; if (size (edgePeerByRemote m) =? 0)%nat then Some ap else None
  end.

Lemma getRemote_set now ap t : remote.getRemote (fst (remote.setRemote now ap t)) = Some ap.
Proof. unfold remote.getRemote, remote.selectedAddrLocked, remote.setRemote. cbn. by rewrite lookup_singleton_eq. Qed.

Lemma seed_dest now m p def i : remote.getRemote (seedRemote now m p def (remote.newTable i)) = dest m p def.
Proof.
  unfold seedRemote, dest. destruct (apValid _); [apply getRemote_set|]. destruct (configuredRemote p); [apply getRemote_set|].
  destruct (defaultRemote m); [|done]. cbn [mbind option_bind]. destruct (_ =? 0)%nat; [apply getRemote_set|done].
Qed.

Definition aimed_at (m : Multipath) (p : peerState) (pp : peerPathState) : Prop :=
  exists def, def ∈ defs m /\ pathName def = ppname pp /\ remote.getRemote (ppremote pp) = dest m p def.
Definition aimed (m : Multipath) : Prop := Forall (fun p => Forall (aimed_at m p) (ppaths p)) (peers m).

Lemma aimed_append pi pp m p : peers m !! pi = Some p -> aimed_at m p pp -> aimed m -> aimed (appendPath pi pp m).
Proof.
  intros Hp Ha Hm. unfold aimed, appendPath. cbn [peers update]. apply Forall_lookup. intros j q Hq.
  unfold aimed in Hm. rewrite Forall_lookup in Hm. destruct (decide (j = pi)) as [-> |N].
  - rewrite list_lookup_alter_eq, Hp in Hq. injection Hq as <-. cbn [ppaths update]. apply Forall_app. split; [|by constructor].
    exact (Hm _ _ Hp).
  - rewrite list_lookup_alter_ne in Hq by done. exact (Hm _ _ Hq).
Qed.

Lemma aimed_open_peers now i def pis sp m m' sp' : def ∈ defs m -> sname sp = pathName def -> aimed m ->
  open_peers now i def pis sp m = inr (m', sp') -> aimed m' /\ defs m' = defs m.
Proof.
  revert sp m. induction pis as [|pi pis IH]; intros sp m Hd Hs Ha H; cbn [open_peers] in H; [by injection H as <- _|].
  destruct (peers m !! pi) as [p|] eqn:Ep; [|done]. destruct (newCodec p) as [codec| |]; [|done|done].
  destruct (probers p !! i) as [pr|]; [|done].
  apply IH in H; [exact H|done|by destruct (_ =? 0)%nat|]. eapply aimed_append; [exact Ep| |done].
  exists def. split_and!; [done|by destruct (_ =? 0)%nat|apply seed_dest].
Qed.

Lemma aimed_open_defs k now port i todo actual m m' a : Forall (fun x => fst x ∈ defs m) todo -> aimed m ->
  open_defs k now port i todo actual m = inr (m', a) -> aimed m'.
Proof.
  revert i actual m. induction todo as [|[def d] todo IH]; intros i actual m Hf Ha H; cbn [open_defs] in H; [by injection H as <- _|].
  apply Forall_cons in Hf as [Hd Hf]. cbn [fst] in Hd. destruct (snd _) as [[]|c]; [|done|].
  - destruct (probers _ !! i); [|done]. by apply IH in H.
  - destruct (open_peers _ _ _ _ _ _) as [e|[m1 sp]] eqn:E; [done|].
    assert (aimed m1 /\ defs m1 = defs m) as [A1 A2] by (by eapply aimed_open_peers; [exact Hd| |exact Ha|exact E]).
    apply IH in H; [done| |exact A1]. cbn [defs update]. by rewrite A2.
Qed.

Lemma todo_in k m : Forall (fun x => fst x ∈ defs m) (todo k m).
Proof. apply Forall_forall. intros x Hx. rewrite <- (todo_fst k m). change (map fst ?l) with (l.*1). apply list_elem_of_fmap. eauto. Qed.

(** After opening, every view points where its path or its peer is configured to. *)
Lemma open_aimed k now port m st m' a : wf st m -> Open k now port m = (m', inr a) -> aimed m'.
Proof.
  intros Hw. unfold Open. destruct (isOpen m) eqn:Eo; [done|]. apply (isOpen_false _ _ Hw) in Eo. cbv zeta.
  set (m1 := m <| peers := _ |>). set (m2 := m1 <| deferred := [] |>). change (zip (defs m2) _) with (todo k m2).
  destruct (open_defs _ _ _ _ _ _ _) as [e|[m3 b]] eqn:E; [done|]. apply aimed_open_defs in E; [|apply todo_in|].
  - destruct (negb (isOpen m3)); [done|]. destruct (forallb _ _); [|done]. intros [= <- _]. exact E.
  - unfold aimed, m2, m1. cbn [peers update]. apply Forall_map. pose proof (wf_peer _ _ Hw) as F. rewrite Eo in F.
    eapply Forall_impl; [exact F|]. intros p (_ & _ & P). cbn [ppaths update]. destruct (ppaths p); [constructor|done].
Qed.

(** ** Histories of an edge *)
Definition noSeed (o : op) : Prop := match o with OpSeed _ => False | _ => True end.

Lemma named_alter f pi m : named m -> named (m <| peers := alter f pi (peers m) |>).
Proof. unfold named. cbn [peers peersByName update]. by rewrite length_alter. Qed.

Lemma step_owned st m o : wf st m -> noSeed o -> owned m -> named m -> owned (step m o) /\ named (step m o).
Proof.
  intros Hw Hn Ho Hm. assert (forall m', keeps m m' -> owned m' /\ named m') as K
    by (intros m' H; split; [by eapply owned_keeps|by eapply named_keeps]).
  destruct o as [k now port|closed|k now def|closed n|k now|now s|remotes|now ap|now n ap]; cbn [step]; try done.
  - apply K, keeps_open.
  - apply K, keeps_shut.
  - apply K. by eapply keeps_add.
  - apply K, keeps_remove.
  - apply K, keeps_reconcile.
  - apply K. unfold ParseEndpoint. destruct (ParseAddrPort s); [|done]. unfold keeps. split_and!; try done. apply alter_remote.
    intros p. by destruct (virtDst p).
  - apply K. unfold SetPeerRemote, keeps, setAll. split_and!; try done. by apply alter_remote.
  - unfold SetPeerRemoteFor. destruct (peersByName m !! n) as [pi|] eqn:E; [|done].
    destruct (lookup_lt_is_Some_2 (peers m) pi (Hm _ _ E)) as [p Hp].
    pose proof (repoint_spec now pi ap m p Ho Hp) as R. destruct (setPeerRemoteForLocked _ _ _ _) as [m' [e|]]; cbn [fst].
    + by destruct R as [-> _].
    + destruct R as (R1 & _ & R2 & _ & R3 & _). split; [done|]. unfold named. by rewrite R2, R3.
Qed.

Lemma run_owned st m ops : wf st m -> Forall noSeed ops -> owned m -> named m ->
  owned (run m ops) /\ named (run m ops) /\ exists st', wf st' (run m ops).
Proof.
  intros Hw Hn. revert st m Hw. induction Hn as [|o ops Ho _ IH]; intros st m Hw Hm Hd; [by eauto|].
  destruct (step_owned st m o Hw Ho Hm Hd) as [O N]. destruct (step_spec st m o Hw) as (st' & W & _). by eapply IH.
Qed.

Lemma step_named_seed remotes m : named m -> named (step m (OpSeed remotes)).
Proof.
  intros H. cbn [step]. unfold SeedEdgePeerRemotes. destruct (negb _); [done|]. cbn [fst]. generalize 0%nat.
  revert m H. induction remotes as [|ap remotes IH]; intros m H i; cbn [seed_loop]; [done|]. apply IH.
  destruct (negb _); [done|]. unfold named in *. cbn [peers peersByName update]. by rewrite length_alter.
Qed.

(** ** Bring-up *)
Definition blank (m : Multipath) : Prop :=
  named m /\ edgePeerByRemote m = ∅ /\ Forall (fun p => configuredRemote p = None) (peers m).

Lemma wirePeers_blank c ids m m' : blank m -> wirePeers c ids m = (m', None) -> blank m'.
Proof.
  revert m. induction ids as [|x ids IH]; intros m Hb H; cbn [wirePeers] in H; [by injection H as <-|].
  destruct (AddConcentratorPeer _ _ _ _ _) as [m1 [e|]] eqn:E; [done|]. apply IH in H; [done|]. destruct Hb as (B1 & B2 & B3).
  unfold AddConcentratorPeer in E. repeat case_match; simplify_eq. all: split_and!; cbn [peers peersByName edgePeerByRemote update]; try done.
  all: try (apply Forall_app; split; [done|]; by constructor).
  all: unfold named; cbn [peers peersByName update]; apply map_Forall_insert_2; rewrite ?length_app; cbn; [lia|].
  all: intros k i Hk; specialize (B1 k i Hk); cbn in B1; lia.
Qed.

Lemma boot_blank c ids m : bootBind c ids = inr m -> blank m.
Proof.
  unfold bootBind. destruct ids as [|x ids]; [done|]. destruct (NewMultipath _ _ _ _ _) as [e|m0] eqn:E; [done|].
  assert (blank m0) as B0.
  { unfold NewMultipath in E. repeat case_match; simplify_eq. split_and!; [|done|by constructor].
    intros k i Hk. cbn [peersByName] in Hk. apply lookup_singleton_Some in Hk as [_ <-]. cbn. lia. }
  assert (forall m1 e, (if (1 <? length (x :: ids))%nat then SetPrimaryPeerName (idName x) m0 else (m0, None)) = (m1, e) -> e = None -> blank m1) as B1.
  { intros m1 e H ->. destruct (1 <? _)%nat; [|by injection H as <-]. unfold SetPrimaryPeerName in H. destruct B0 as (N & B2 & B3).
    repeat case_match; simplify_eq. split_and!; cbn [peers peersByName edgePeerByRemote update].
    - unfold named. cbn [peers peersByName update]. rewrite length_alter. apply map_Forall_insert_2.
      + unfold NewMultipath in E. repeat case_match; simplify_eq. cbn. lia.
      + intros k i [_ Hk]%lookup_delete_Some. exact (N k i Hk).
    - done.
    - apply Forall_lookup. intros j p Hp. rewrite Forall_lookup in B3. destruct (decide (j = 0%nat)) as [-> |Nj].
      + rewrite list_lookup_alter_eq in Hp. destruct (peers m0 !! 0%nat) as [q|] eqn:Eq; [|done]. injection Hp as <-. exact (B3 _ _ Eq).
      + rewrite list_lookup_alter_ne in Hp by done. by eapply B3. }
  destruct (if (1 <? _)%nat then _ else _) as [m1 [e|]] eqn:E1; [done|]. specialize (B1 _ _ eq_refl eq_refl).
  destruct (wirePeers _ _ _) as [m2 [e|]] eqn:E2; [done|]. intros [= <-]. by eapply wirePeers_blank.
Qed.

(** C19. Each peer of an edge is sent to its own hub.  The endpoints seeded at boot
    must be pairwise distinct where they are valid: configuration load ensures it
    for literal endpoints, nothing does for hostnames that resolve to one address,
    and [seeded_twice] shows the property fails then.  Once they are seeded, and
    after any history: the table of endpoints names exactly the peer each endpoint is configured for.  Repointing a
    peer fails only for a name that is not bound or an endpoint another peer has,
    and then changes nothing; else every path of the peer points at the new
    endpoint, the engine resolves that endpoint to this peer, no other peer is
    touched nor is the default, and after closing and reopening the bond every
    path of the peer without an address of its own still points there. *)
Theorem peer_endpoint_isolated LookupIP urlParse raw c m0 remotes ops now n ap :
  load LookupIP urlParse raw = Ok c -> (length (Paths c) <= 256)%nat -> bootBind c (PeerIdentities c) = inr m0 ->
  length remotes = length (PeerIdentities c) -> NoDup (List.filter apValid remotes) -> Forall noSeed ops ->
  let m := run m0 (OpSeed remotes :: ops) in
  owned m /\
  let '(m', e) := SetPeerRemoteFor now n ap m in
  match e with
  | Some e => m' = m /\ (peersByName m !! n = None \/ exists j, edgePeerByRemote m !! ap = Some j /\ peersByName m !! n <> Some j)
  | None => exists pi, peersByName m !! n = Some pi /\
      (forall j, j <> pi -> peers m' !! j = peers m !! j) /\ defaultRemote m' = defaultRemote m /\
      (exists p, peers m' !! pi = Some p /\ Forall (fun pp => remote.getRemote (ppremote pp) = Some ap) (ppaths p)) /\
      (forall t s, ParseAddrPort s = Some ap -> snd (ParseEndpoint t s m') = Some pi) /\
      (forall closed k t port m2 a, Open k t port (fst (Close closed m')) = (m2, inr a) ->
         exists p, peers m2 !! pi = Some p /\ length (ppaths p) = length (shared m2) /\
           Forall (fun pp => exists def, def ∈ defs m2 /\ pathName def = ppname pp /\
             (apValid (DestAddr def) = false -> remote.getRemote (ppremote pp) = Some ap)) (ppaths p))
  end.
Proof.
  intros Hl H256 Hb Hlen Hd Hn. cbv zeta. unfold run. cbn [fold_left]. fold (run (step m0 (OpSeed remotes)) ops).
  destruct (boot_loaded _ _ _ _ Hl H256) as (m0' & E & W & _ & _ & L & _). rewrite Hb in E. injection E as <-.
  destruct (boot_blank _ _ _ Hb) as (B1 & B2 & B3).
  assert (step m0 (OpSeed remotes) = seed_loop 0 remotes m0) as Es.
  { cbn [step]. unfold SeedEdgePeerRemotes. by rewrite Hlen, L, Nat.eqb_refl. }
  rewrite Es. pose proof (same_bond_seed 0 remotes m0) as SB.
  destruct (run_owned (bootStamps c) (seed_loop 0 remotes m0) ops) as (O & N & st & W'); [by eapply same_bond_wf|done| | |].
  { apply owned_seed; [by rewrite Hlen, L| | |done|by rewrite B2].
    - intros a pi. rewrite B2. unfold remotesOf. split; [done|]. intros (p & Ep & Hp)%list_lookup_fmap_Some.
      rewrite Forall_lookup in B3. rewrite (B3 _ _ Hp) in Ep. done.
    - intros j Hj. unfold remotesOf. destruct (lookup_lt_is_Some_2 (peers m0) j ltac:(lia)) as [p Hp].
      rewrite list_lookup_fmap, Hp. cbn. rewrite Forall_lookup in B3. by rewrite (B3 _ _ Hp). }
  { rewrite <- Es. pose proof (step_named_seed remotes m0 B1) as Hs. rewrite Es in Hs |- *. done. }
  set (m := run _ ops) in *. split; [done|]. unfold SetPeerRemoteFor.
  destruct (peersByName m !! n) as [pi|] eqn:En; [|split; [done|by left]].
  destruct (lookup_lt_is_Some_2 (peers m) pi (N _ _ En)) as [p Hp].
  pose proof (repoint_spec now pi ap m p O Hp) as R. pose proof (same_bond_for now pi ap m) as SB2.
  destruct (setPeerRemoteForLocked now pi ap m) as [m' [e|]].
  - destruct R as (-> & _ & j & Nj & Hj). split; [done|]. right. exists j. split; [done|congruence].
  - destruct R as (R1 & R2 & R3 & R4 & R5 & R6 & p' & R7 & R8 & _ & _ & R9 & _). exists pi. split; [done|].
    split; [done|]. split; [done|]. split; [by exists p'|]. split.
    { intros t s Hs. unfold ParseEndpoint. rewrite Hs. cbn [snd]. by rewrite R2. }
    intros closed k t port m2 a Ho. assert (wf st m') as Wm by (by eapply same_bond_wf).
    destruct (wf_shut st m' Wm) as [Ws _]. change (fst (Close closed m')) with (shut m') in Ho.
    pose proof (open_aimed k t port (shut m') st m2 a Ws Ho) as A.
    pose proof (Open_spec k t port (shut m') st Ws) as S. pose proof (keeps_open k t port (shut m')) as K. rewrite Ho in S, K. cbn [fst] in K.
    destruct S as (_ & S1 & _). assert (keeps m' m2) as (_ & _ & K3) by (etransitivity; [apply keeps_shut|exact K]).
    pose proof (f_equal (fun l => l !! pi) K3) as Kp. cbn beta in Kp. rewrite !list_lookup_fmap, R7 in Kp. cbn [fmap option_fmap option_map] in Kp.
    destruct (peers m2 !! pi) as [p2|] eqn:E2; [|done]. injection Kp as Kp. rewrite R8 in Kp. exists p2. split; [done|].
    unfold aimed in A. rewrite Forall_lookup in A. pose proof (wf_peer _ _ S1) as F. rewrite Forall_lookup in F. destruct (F _ _ E2) as (_ & _ & F').
    apply (f_equal length) in F'. rewrite !length_map in F'. split; [done|].
    eapply Forall_impl; [exact (A _ _ E2)|]. intros pp (def & D1 & D2 & D3). exists def. split_and!; [done|done|].
    intros Hv. rewrite D3. unfold dest. by rewrite Hv, Kp.
Qed.

Definition remotesW : list AddrPort := [mkAddrPort [203; 0; 113; 1] [] 51820; AddrPort0].
Definition edgeW : Multipath := run bootW (OpSeed remotesW :: [OpOpen kernel1W 0 0]).
Definition hubW : AddrPort := mkAddrPort [203; 0; 113; 9] [] 51820.
Lemma repointW : snd (SetPeerRemoteFor 3 "ams" hubW edgeW) = None.
Proof. vm_compute. reflexivity. Qed.

(** The second peer, booted without an endpoint, gets one. *)
Lemma peer_endpoint_isolated_witness :
  owned edgeW /\ defaultRemote (fst (SetPeerRemoteFor 3 "ams" hubW edgeW)) = defaultRemote edgeW.
Proof.
  destruct (peer_endpoint_isolated config_props.noLookup config_props.noURL config_props.rawW config_props.loadedW bootW remotesW
    [OpOpen kernel1W 0 0] 3 "ams" hubW config_props.loadedW_eq ltac:(vm_compute; lia) bootW_eq eq_refl
    (NoDup_singleton _) (Forall_cons_2 noSeed (OpOpen kernel1W 0 0) [] I (Forall_nil_2 _))) as [H1 H2].
  split; [exact H1|]. fold edgeW in H2. pose proof repointW as E. destruct (SetPeerRemoteFor 3 "ams" hubW edgeW) as [m' e].
  cbn [snd fst] in *. subst e. destruct H2 as (pi & _ & _ & H & _). exact H.
Defined.

(** Two peers seeded with one endpoint.  Boot accepts it; both peers are configured
    for the endpoint, the table and so the engine's lookup name only the second, and
    re-installing the first peer's own endpoint is refused. *)
Definition twiceW : Multipath := run bootW [OpSeed [hubW; hubW]].
Example seeded_twice :
  map configuredRemote (peers twiceW) = [Some hubW; Some hubW] /\
  edgePeerByRemote twiceW !! hubW = Some 1%nat /\
  snd (ParseEndpoint 0 "203.0.113.9:51820" twiceW) = Some 1%nat /\
  peersByName twiceW !! "fra"%string = Some 0%nat /\
  is_Some (snd (SetPeerRemoteFor 3 "fra" hubW twiceW)) /\ ~ owned twiceW.
Proof.
  split_and!; try (vm_compute; reflexivity).
  - apply (bool_decide_unpack _). vm_compute. exact I.
  - intros O. assert (edgePeerByRemote twiceW !! hubW = Some 0%nat) as E by (apply O; vm_compute; reflexivity).
    vm_compute in E. discriminate E.
Qed.
End endpoint_props.
