(* ===== verification/BindAdaptive.v ===== *)
(** * The peer's adaptive transport ([internal/bind/adaptive.go])

    What the bind keeps of one peer around its bonding transport: the routes of
    the transport's lanes (a view of a socket and a remote address), the queue of
    interactive datagrams for the engine, and the peer's resequencer for the
    others.

    A view is named by its path id, which its socket has too and no other path of
    the bond ever gets.  Every method but the non-blocking receive from the queue
    holds the peer's mutex from start to end and reads the clock inside, so it is
    one step at its time [now]; the resequencer reads its own clock ([rnow]).
    Panics are [Panic].  The order in which Go ranges over the routes, and the
    answers of the random generator, are arguments. *)

From stdpp Require Import base tactics list numbers gmap.
From S2P Require Import Prelude Float64 Reseq Frame BondWire BondQueue BondMeter BondLane BondTransport.

Module adaptive.
Import float64 transport.
#[local] Existing Instance bond.Epoch_eq_dec.

Definition adaptiveReorderHold : Duration := 300 * millisecond.
Definition adaptiveReceiveBatchDelay : Duration := 4 * millisecond.
(** The capacity of the channel. *)
Definition interactiveCap : nat := 256.

Record adaptiveRoute := mkRoute { rpath : Z; rremote : AddrPort }.

(** [restarted] counts the calls of that callback, [notified] those of [notify];
    [wake] is the channel of one token. *)
Record adaptivePeer := mkAdaptive {
  tr : Transport;
  codec : frame.Codec;
  routes : gmap Z adaptiveRoute;
  wake : bool;
  aclosed : bool;
  interactive : list reseq.Item;
  notified : Z;
  restarted : Z
}.
#[export] Instance eta_adaptivePeer : Eta adaptivePeer := fun a =>
  mkAdaptive (tr a) (codec a) (routes a) (wake a) (aclosed a) (interactive a) (notified a) (restarted a).

(** The peer: its resequencer, once it received anything, and its transport. *)
Definition plane : Type := adaptivePeer * option reseq.Resequencer.

Definition openAdaptivePeer (c : frame.Codec) (session generation : Z) (rq : option reseq.Resequencer) :
    outcome unit plane :=
  t ← New (bond.mkEpoch session generation);
  Ok (mkAdaptive t c ∅ false false [] 0 0, reseq.SetHoldBound adaptiveReorderHold <$> rq).

Definition resequencerWindow : Z := 32768.
Definition resequencerTimeout : Duration := 250 * millisecond.

(** [ensurePeerReceiveInstantiated]: a peer reached again after its state was
    reclaimed gets a new resequencer. *)
Definition instantiate (rq : option reseq.Resequencer) : option reseq.Resequencer :=
  match rq with
  | Some q => Some q
  | None => reseq.SetNotifier true <$> reseq.New resequencerWindow resequencerTimeout
  end.

Definition signal (a : adaptivePeer) : adaptivePeer := a <| wake := true |>.

Definition hello (path : Z) (a : adaptivePeer) : list Z := bond.Hello (epoch (tr a)) path.

(** A lane's id on this side and on the other. *)
Definition laneID (here there : Z) : Z := Z.lor (u16 (Z.shiftl (u16 here) 8)) (u16 there).

(** [changed]: the peer restarted, so nothing of the old epoch is delivered. *)
Definition forgetEpoch (previous ep : bond.Epoch) (rnow : Time) (p : plane) : outcome unit plane :=
  let '(a, rq) := p in
  let a := if negb (bond.Boot previous =? 0) && negb (bond.Boot previous =? bond.Boot ep)
           then a <| restarted := restarted a + 1 |> else a in
  let a := a <| routes := ∅ |> <| interactive := [] |> in
  match rq with
  | None => Ok (a, None)
  | Some q => match reseq.RebaselineAt rnow 1 q with Some q => Ok (a, Some q) | None => Panic end
  end.

Definition learn (view : Z) (retired : bool) (rtt : Duration) (now rnow : Time) (from : AddrPort) (payload : list Z)
    (adopted : bool) (p : plane) : outcome unit plane :=
  let '(a, rq) := p in
  let '(ep, remotePath, ok) := bond.ParseHello payload in
  if negb ok || (bond.Boot ep =? bond.Boot (epoch (tr a))) then Ok p
  else if aclosed a then Ok p
  else if retired then Ok p
  else
    let previous := remote (tr a) in
    let '(t, changed) := SetRemote ep adopted (tr a) in
    let a := a <| tr := t |> in
    if negb (bool_decide (remote t = ep)) then Ok (a, rq)
    else
      '(a, rq) ← (if changed then forgetEpoch previous ep rnow (a, rq) else Ok (a, rq));
      let id := laneID view remotePath in
      let a := a <| routes := <[id := mkRoute view from]> (routes a) |> in
      let '(t, r) := PathUp id (laneID remotePath view) rtt now (tr a) in
      match r with
      | Ok _ => Ok (signal (a <| tr := t |>), rq)
      | _ => Panic
      end.

Definition metadata0 : PacketMetadata := mkMetadata (replicate 40 0) queue.TCPACK0.

(** [enqueue]: the first datagram the transport refuses ends the batch; nothing
    is signalled then. *)
Fixpoint enqueue_loop (bufs : list (list Z)) (metadata : option (list PacketMetadata)) (now : Time) (a : adaptivePeer) :
    adaptivePeer * outcome terror unit :=
  match bufs with
  | [] => (signal a, Ok ())
  | b :: bufs =>
    match (match metadata with None => Some metadata0 | Some l => head l end) with
    | None => (a, Panic)
    | Some meta =>
      let '(t, r) := Enqueue b meta now (tr a) in
      let a := a <| tr := t |> in
      match r with
      | Ok _ => enqueue_loop bufs (tail <$> metadata) now a
      | e => (a, e)
      end
    end
  end.

Inductive aerror := ErrClosed | ErrTransport (e : terror).

Definition enqueue (bufs : list (list Z)) (metadata : option (list PacketMetadata)) (now : Time) (a : adaptivePeer) :
    adaptivePeer * outcome aerror unit :=
  if aclosed a then (a, Err ErrClosed)
  else
    let '(a, r) := enqueue_loop bufs metadata now a in
    (a, match r with Ok u => Ok u | Err e => Err (ErrTransport e) | Panic => Panic end).

Section Order.
Context (order : gmap Z adaptiveRoute -> list Z) (iter : Time -> gmap Z lanes.attempt -> list Z).

(** The lane a datagram came in on. *)
Definition routeOf (view : Z) (from : AddrPort) (a : adaptivePeer) : option Z :=
  List.find (fun id => match routes a !! id with
                       | Some r => (rpath r =? view) && bool_decide (rremote r = from)
                       | None => false
                       end) (order (routes a)).

(** One delivery: an interactive one is queued for the engine, or dropped when
    the queue is full. *)
Definition deliver (rnow : Time) (from : AddrPort) (p : adaptivePeer * reseq.Resequencer) (d : Delivery) :
    outcome unit (adaptivePeer * reseq.Resequencer) :=
  let '(a, q) := p in
  if DInteractive d then
    if (length (interactive a) <? interactiveCap)%nat
    then Ok (a <| interactive := interactive a ++ [reseq.mkItem (DPayload d) from] |> <| notified := notified a + 1 |>, q)
    else Ok (a, q)
  else
    match reseq.Observe rnow (DSequence d) (DPayload d) from q with
    | Some (q, _) => Ok (a, q)
    | None => Panic
    end.

Fixpoint deliver_all (rnow : Time) (from : AddrPort) (ds : list Delivery) (p : adaptivePeer * reseq.Resequencer) :
    outcome unit (adaptivePeer * reseq.Resequencer) :=
  match ds with
  | [] => Ok p
  | d :: ds => p ← deliver rnow from p d; deliver_all rnow from ds p
  end.

Definition receive (view : Z) (from : AddrPort) (f : frame.Control) (now rnow : Time) (p : plane) : outcome unit plane :=
  let '(a, rq) := p in
  if aclosed a then Ok p
  else
    match routeOf view from a with
    | None => Ok p
    | Some id =>
      let '(t, r) := Receive iter id f now (tr a) in
      let a := a <| tr := t |> in
      match r with
      | Panic => Panic
      | Err _ => Ok (a, rq)
      | Ok ds =>
        match rq with
        | None => Ok (signal a, None)
        | Some q =>
          '(a, q) ← deliver_all rnow from ds (a, reseq.SetHoldBound adaptiveReorderHold q);
          Ok (signal a, Some q)
        end
      end
    end.

Definition popInteractive (a : adaptivePeer) : adaptivePeer * option reseq.Item :=
  match interactive a with
  | [] => (a, None)
  | x :: l => (a <| interactive := l |>, Some x)
  end.

Definition receiveBatchDelay (size : Z) (now : Time) (a : adaptivePeer) : Duration :=
  let rate := PacingRate now (tr a) in
  if fle rate f0 then adaptiveReceiveBatchDelay
  else Z.min adaptiveReceiveBatchDelay (toI64 (fmul (fdiv (fofZ size) rate) (fofZ second))).

(** A datagram handed to a socket; [rnd n] is the answer of the random generator
    for the nonce of the [n]-th frame. *)
Record datagram := mkDatagram { dview : Z; ddst : AddrPort; draw : list Z }.

Fixpoint encode_all {C : Cipher} (rnd : nat -> option (list Z)) (sends : list (adaptiveRoute * frame.Control)) (c : frame.Codec) :
    outcome unit (frame.Codec * list datagram) :=
  match sends with
  | [] => Ok (c, [])
  | (r, f) :: sends =>
    let '(c, o) := frame.Encode (rnd 0%nat) [] (frame.FControl f) c in
    match o with
    | Ok raw =>
      '(c, l) ← encode_all (fun n => rnd (S n)) sends c;
      Ok (c, mkDatagram (rpath r) (rremote r) raw :: l)
    | _ => Panic
    end
  end.

(** The frames of a poll whose lane has a route, with it. *)
Definition routed (a : adaptivePeer) (out : list Transmission) : list (adaptiveRoute * frame.Control) :=
  omap (fun tx => r ← routes a !! TPath tx; Some (r, TFrame tx)) out.

(** [flush]: what it hands to the sockets.  The codec is the flusher's own. *)
Definition flush {C : Cipher} (rnd : nat -> option (list Z)) (now : Time) (a : adaptivePeer) :
    outcome unit (adaptivePeer * list datagram) :=
  let '(t, r) := Poll iter now (tr a) in
  let a := a <| tr := t |> in
  match r with
  | Ok out =>
    '(c, l) ← encode_all rnd (routed a out) (codec a);
    Ok (a <| codec := c |>, l)
  | _ => Panic
  end.

Definition forget (a : adaptivePeer) (id : Z) : adaptivePeer :=
  a <| tr := Disable id (tr a) |> <| routes := delete id (routes a) |>.

Definition forgetSocket (socket : Z) (a : adaptivePeer) : adaptivePeer :=
  fold_left forget (List.filter (fun id => match routes a !! id with Some r => rpath r =? socket | None => false end)
                      (order (routes a))) a.

Definition forgetRoutes (a : adaptivePeer) : adaptivePeer := fold_left forget (order (routes a)) a.

End Order.

(** The flusher takes the token, and on its way out marks the peer closed. *)
Definition takeWake (a : adaptivePeer) : adaptivePeer := a <| wake := false |>.
Definition closeAdaptive (a : adaptivePeer) : adaptivePeer := a <| aclosed := true |>.

End adaptive.
