(* ===== verification/BindAdaptiveProps.v ===== *)
(** * The adaptive peer never fails

    Over every history of hellos, datagrams, frames, polls, forgotten routes and
    drained deliveries whose clock does not run backwards, no method of the peer
    panics, and every frame the transport emits is encoded and has a route. *)

From Stdlib Require Import Sorted.
From stdpp Require Import base tactics list numbers gmap sets sorting.
From S2P Require Import Prelude Float64 Reseq ReseqTheory ReseqProps ReseqPins Frame FrameProps BondWire BondReceipt BondQueue BondMeter BondLane.
From S2P Require Import BondTransport BondWindow BondTransportTheory BondPollTheory BondTransportProps BondEmitTheory BindAdaptive.

Module adaptive_props.
Import float64 lanes transport window transport_ok poll_ok transport_props emit_ok adaptive.
#[local] Existing Instance bond.Epoch_eq_dec.

(** ** Deliveries are in range for the resequencer *)
Lemma masked_range x : 0 <= Z.land x (Z.lxor bond.interactiveBit (2 ^ 64 - 1)) < 2 ^ 63.
Proof.
  change (Z.lxor bond.interactiveBit (2 ^ 64 - 1)) with (Z.ones 63). rewrite Z.land_ones by lia. apply Z.mod_pos_bound. lia.
Qed.

Definition in_range (d : Delivery) : Prop := 0 <= DSequence d < reseq_theory.seq_bound.

Lemma receiveData_range path i ln fseq body dseq ord now t t' ds :
  receiveData path i ln fseq body dseq ord now t = (t', Ok ds) -> Forall in_range ds.
Proof.
  unfold receiveData. destruct (match receivers t !! ln with Some r => _ | None => _ end) as [t1 r].
  destruct (negb _); [done|]. destruct (receipt.mark fseq _) as [rw new]. unfold seq_let.
  destruct (negb new); [by intros [= _ <-]|]. destruct (dseq =? 0); [by intros [= _ <-]|].
  destruct (receipt.mark dseq _) as [tw new']. destruct (negb new'); intros [= _ <-]; [done|].
  repeat constructor; cbn [DSequence]; apply masked_range.
Qed.

Lemma Receive_range iter path f now t t' ds : Receive iter path f now t = (t', Ok ds) -> Forall in_range ds.
Proof.
  unfold Receive. destruct (transport.receive iter path f now t) as [t1 [ds1|[c|]|]] eqn:E; [|done|done|done].
  intros [= <- <-]. revert E. unfold transport.receive. destruct (checkTime now t) as [t0 []]; [|done]. cbv zeta.
  destruct (bond.parseHeader _) as [h|c|]; [|done|done]. destruct (_ || _); [done|].
  destruct (find path t0 ≫= _) as [[i p]|]; [|done]. destruct (negb _); [done|]. destruct (_ =? bond.DataType).
  - destruct (negb _); [done|]. destruct (_ || _)%nat; [done|]. destruct (negb _); [done|].
    destruct (_ && _); [done|]. destruct (_ && _); [done|]. apply receiveData_range.
  - destruct (_ =? bond.ACKType); [|done]. intros E.
    pose proof (proj2 (receiveACK_eview iter path i p (bond.lane h) f now t0) ds1) as H. rewrite E in H. by rewrite H.
Qed.

(** ** Encoding *)
Section Wire.
Context {C : Cipher} {L : CipherLaws C}.
Lemma control_encodes psk c nonce f :
  frame_props.codec_for psk c -> length nonce = frame.nonceLen ->
  exists c' raw, frame.Encode (Some nonce) [] (frame.FControl f) c = (c', Ok raw) /\ frame_props.codec_for psk c'.
Proof.
  intros Hc Hn. pose proof (frame_props.codec_for_keys psk c Hc) as Hk. destruct Hc as (c0 & E0 & E1 & E2).
  destruct (cipher_accepts (frame.obfKey c) nonce Hk Hn) as (ks & Ek). unfold frame.Encode, frame.obfuscate.
  cbn [frame.obfKey update]. rewrite Ek. eexists _, _. split; [done|]. by exists c0.
Qed.

(** The bytes are the control frame's encoding under the key, and any codec of the
    key reads the frame back when it is one that can be encoded. *)
Definition carries (psk : frame.Key) (f : frame.Control) (raw : list Z) : Prop :=
  (exists nonce c, frame_props.codec_for psk c /\ length nonce = frame.nonceLen /\
     snd (frame.Encode (Some nonce) [] (frame.FControl f) c) = Ok raw) /\
  (frame_props.encodable (frame.FControl f) ->
     forall c, frame_props.codec_for psk c -> snd (frame.Decode raw c) = Ok (frame.FControl f)).

Lemma encoded_carries psk c c' nonce f raw :
  frame_props.codec_for psk c -> length nonce = frame.nonceLen ->
  frame.Encode (Some nonce) [] (frame.FControl f) c = (c', Ok raw) -> carries psk f raw.
Proof.
  intros Hc Hn E. split; [by exists nonce, c; rewrite E|]. intros Hf cd Hd.
  destruct (frame_props.roundtrip_any psk c cd nonce [] (frame.FControl f) Hc Hd Hf Hn) as (ce & cd' & w & E' & _ & D).
  rewrite E in E'. injection E' as -> ->. cbn in D. by rewrite D.
Qed.

Definition nonces_ok (rnd : nat -> option (list Z)) : Prop :=
  forall n, exists nonce, rnd n = Some nonce /\ length nonce = frame.nonceLen.

Lemma encode_all_ok psk rnd sends c :
  nonces_ok rnd -> frame_props.codec_for psk c ->
  exists c' l, encode_all rnd sends c = Ok (c', l) /\ frame_props.codec_for psk c' /\
    Forall2 (fun s d => dview d = rpath (fst s) /\ ddst d = rremote (fst s) /\ carries psk (snd s) (draw d)) sends l.
Proof.
  revert rnd c. induction sends as [|[r f] sends IH]; intros rnd c Hr Hc; cbn [encode_all].
  { exists c, []. split_and!; [done|done|constructor]. }
  destruct (Hr 0%nat) as (nonce & -> & Hn). destruct (control_encodes psk c nonce f Hc Hn) as (c1 & raw & E & Hc1).
  pose proof (encoded_carries psk c c1 nonce f raw Hc Hn E) as K. rewrite E.
  destruct (IH (fun n => rnd (S n)) c1) as (c2 & l & -> & Hc2 & F); [intros n; apply Hr|done|].
  eexists _, _. split; [done|]. split; [done|]. by constructor.
Qed.
End Wire.

(** ** Histories *)
Inductive aop :=
  | ALearn (view : Z) (retired : bool) (rtt : Duration) (now rnow : Time) (from : AddrPort) (payload : list Z) (adopted : bool)
  | AEnqueue (bufs : list (list Z)) (metadata : option (list PacketMetadata)) (now : Time)
  | AReceive (view : Z) (from : AddrPort) (f : frame.Control) (now rnow : Time)
  | AFlush (rnd : nat -> option (list Z)) (now : Time)
  | AForgetSocket (socket : Z)
  | AForgetRoutes
  | APopInteractive
  | APop (rnow : Time)
  | ATearDown
  | AInstantiate
  | AClose.

(** A poll's frames are recorded with the routes their lanes have at that time, and
    a hello after which another epoch of the peer is followed. *)
Inductive aevent :=
  | ADone
  | AError (e : aerror)
  | ADelivered (from : AddrPort) (ds : list Delivery)
  | ASent (polled : list (Transmission * option adaptiveRoute)) (l : list datagram)
  | ABulk (it : reseq.Item)
  | AInteractive (it : reseq.Item)
  | ANewEpoch
  | ATornDown.

(** The time at which a call reads the transport's clock. *)
Definition at_time (o : aop) : option Time :=
  match o with
  | ALearn _ _ _ now _ _ _ _ | AEnqueue _ _ now | AReceive _ _ _ now _ | AFlush _ now => Some now
  | _ => None
  end.

Fixpoint clocked (c : Time) (ops : list aop) : Prop :=
  match ops with
  | [] => True
  | o :: ops => match at_time o with Some now => c <= now /\ clocked now ops | None => clocked c ops end
  end.

Definition aop_ok (o : aop) : Prop :=
  match o with
  | AEnqueue bufs (Some l) _ => length l = length bufs
  | AFlush rnd _ => nonces_ok rnd
  | _ => True
  end.

Section Histories.
Context {C : Cipher} {L : CipherLaws C} (order : gmap Z adaptiveRoute -> list Z) (iter : Time -> gmap Z attempt -> list Z).

(** What the transport delivers for a frame, for the record. *)
Definition delivered_by (view : Z) (from : AddrPort) (f : frame.Control) (now : Time) (a : adaptivePeer) : list Delivery :=
  if aclosed a then []
  else match routeOf order view from a with
       | None => []
       | Some id => match (Receive iter id f now (tr a)).2 with Ok ds => ds | _ => [] end
       end.
Definition polled_by (now : Time) (a : adaptivePeer) : list Transmission :=
  match (Poll iter now (tr a)).2 with Ok out => out | _ => [] end.

Definition aexec (o : aop) (p : plane) : outcome unit (plane * aevent) :=
  let '(a, rq) := p in
  match o with
  | ALearn view retired rtt now rnow from payload adopted =>
    p ← learn view retired rtt now rnow from payload adopted p;
    Ok (p, if bool_decide (remote (tr p.1) = remote (tr a)) then ADone else ANewEpoch)
  | AEnqueue bufs metadata now =>
    let '(a, r) := enqueue bufs metadata now a in
    match r with Ok _ => Ok ((a, rq), ADone) | Err e => Ok ((a, rq), AError e) | Panic => Panic end
  | AReceive view from f now rnow =>
    p' ← receive order iter view from f now rnow p; Ok (p', ADelivered from (delivered_by view from f now a))
  | AFlush rnd now => '(a', l) ← flush iter rnd now a; Ok ((a', rq), ASent (map (fun tx => (tx, routes a !! TPath tx)) (polled_by now a)) l)
  | AForgetSocket socket => Ok ((forgetSocket order socket a, rq), ADone)
  | AForgetRoutes => Ok ((forgetRoutes order a, rq), ADone)
  | APopInteractive =>
    let '(a, it) := popInteractive a in Ok ((a, rq), match it with Some it => AInteractive it | None => ADone end)
  | APop rnow =>
    match rq with
    | None => Ok (p, ADone)
    | Some q =>
      match reseq.Pop rnow q with
      | None => Panic
      | Some (q, it) => Ok ((a, Some q), match it with Some it => ABulk it | None => ADone end)
      end
    end
  | ATearDown => Ok ((a, None), ATornDown)
  | AInstantiate => Ok ((a, instantiate rq), ADone)
  | AClose => Ok ((closeAdaptive a, rq), ADone)
  end.

Fixpoint arun (ops : list aop) (p : plane) : outcome unit (plane * list aevent) :=
  match ops with
  | [] => Ok (p, [])
  | o :: ops => '(p, e) ← aexec o p; '(p, es) ← arun ops p; Ok (p, e :: es)
  end.
End Histories.

(** The bulk datagrams the transport delivered, with their sequences. *)
Definition bulk_of (e : aevent) : list (Z * reseq.Item) :=
  match e with
  | ADelivered from ds =>
    map (fun d => (DSequence d, reseq.mkItem (DPayload d) from)) (List.filter (fun d => negb (DInteractive d)) ds)
  | _ => []
  end.

(** What the engine was handed from the resequencer since it was last built. *)
Definition popped_step (out : list reseq.Item) (e : aevent) : list reseq.Item :=
  match e with ABulk it => out ++ [it] | ATornDown => [] | _ => out end.

(** The changes of the followed epoch since the resequencer was last built. *)
Definition epochs_step (n : Z) (e : aevent) : Z :=
  match e with ANewEpoch => n + 1 | ATornDown => 0 | _ => n end.

(** ** The invariant

    [c] is the latest time a call was made at, [n] the frames sent so far, [dl]
    the bulk datagrams delivered so far and [out] what the engine was handed of
    them by this resequencer. *)
Section Invariant.
Context {C : Cipher} {L : CipherLaws C} (order : gmap Z adaptiveRoute -> list Z) (iter : Time -> gmap Z attempt -> list Z).
Context (psk : frame.Key).

Record peer_ok (c : Time) (n : Z) (a : adaptivePeer) : Prop := mkPeerOk {
  po_state : state_ok n (tr a);
  po_time : lastTime (tr a) <= c;
  po_ids : NoDup (ids (tr a));
  po_routes : forall x y, (x, y) ∈ map lview (paths (tr a)) -> y <> 0 -> is_Some (routes a !! x);
  po_codec : frame_props.codec_for psk (codec a);
  po_queue : (length (interactive a) <= interactiveCap)%nat
}.

Definition rq_ok (dl : list (Z * reseq.Item)) (out : list reseq.Item) (rq : option reseq.Resequencer) : Prop :=
  match rq with
  | None => out = []
  | Some q => exists acc, reseq_props.Session q acc out /\
                Forall (fun x => (reseq.rel_seq x, reseq.rel_item x) ∈ dl /\ 0 <= reseq.rel_era x) acc /\ 0 <= reseq.era q
  end.

(** The transport of a peer is replaced by one with the same lanes, or fewer
    leases. *)
Lemma peer_step c c' n n' a t :
  peer_ok c n a -> c <= c' -> state_ok n' t -> lastTime t <= c' -> ids t = ids (tr a) ->
  (forall x y, (x, y) ∈ map lview (paths t) -> y <> 0 -> (x, y) ∈ map lview (paths (tr a))) ->
  peer_ok c' n' (a <| tr := t |>).
Proof.
  intros [H1 H2 H3 H4 H5 H6] Hc Hs Ht Hi Hl. split; cbn [tr routes codec interactive update]; try done.
  - by rewrite Hi.
  - intros x y Hx Hy. by eapply H4, Hy; apply Hl.
Qed.
Lemma peer_cview c now n n' a t :
  peer_ok c n a -> c <= now -> state_ok n' t -> cview t = cview (fst (checkTime now (tr a))) -> peer_ok now n' (a <| tr := t |>).
Proof.
  intros H Hc Hs E. rewrite checkTime_ok in E by (pose proof (po_time _ _ _ H); lia).
  unfold cview in E. cbn in E. injection E as _ _ E1 E2.
  eapply peer_step; [exact H|lia|exact Hs|lia|unfold ids; by rewrite E2|by rewrite E2].
Qed.

(** A call of the transport, through the transport's own invariant. *)
Lemma call_ok c n a o now t :
  peer_ok c n a -> c <= now -> t = (exec iter o (tr a)).1 -> cview t = cview (fst (checkTime now (tr a))) ->
  peer_ok now (n + frames_of (exec iter o (tr a)).2) (a <| tr := t |>).
Proof. intros H Hc -> E. apply (peer_cview c now n); [done|done| |done]. by apply exec_ok, H. Qed.

Lemma time_mono c c' n a : c <= c' -> peer_ok c n a -> peer_ok c' n a.
Proof. intros Hc []. split; try done. lia. Qed.

Lemma forget_lane_ok c n a id : peer_ok c n a -> peer_ok c n (forget a id).
Proof.
  intros H. destruct (Disable_ok id (tr a) (po_ids _ _ _ H)) as (E1 & E2 & _ & _ & E5).
  assert (Hs : state_ok n (Disable id (tr a))).
  { pose proof (proj1 (exec_ok iter n (ODisable id) (tr a) (po_state _ _ _ H))) as S. cbn in S. by rewrite Z.add_0_r in S. }
  destruct H as [H1 H2 H3 H4 H5 H6]. split; cbn [tr routes codec interactive forget update]; try done.
  - lia.
  - by rewrite E1.
  - intros x y Hx Hy. destruct (E5 x y Hx Hy) as [Hx' Hne]. rewrite lookup_delete_ne by done. by apply (H4 x y).
Qed.
Lemma forgets_ok c n l a : peer_ok c n a -> peer_ok c n (fold_left forget l a).
Proof. apply (fold_ok (peer_ok c n)). intros. by apply forget_lane_ok. Qed.

Lemma enqueue_loop_ok c now n bufs metadata a :
  peer_ok c n a -> c <= now -> (match metadata with Some l => length l = length bufs | None => True end) ->
  let r := enqueue_loop bufs metadata now a in peer_ok now n r.1 /\ r.2 <> Panic.
Proof.
  revert c metadata a. induction bufs as [|b bufs IH]; intros c metadata a H Hc Hm; cbn [enqueue_loop].
  { split; [|done]. destruct (time_mono _ _ _ _ Hc H). by split. }
  assert (Hmeta : exists m, (match metadata with None => Some metadata0 | Some l => head l end) = Some m).
  { destruct metadata as [[|m l]|]; cbn; eauto. done. }
  destruct Hmeta as [m ->].
  pose proof (call_ok c n a (OEnqueue b m now) now _ H Hc eq_refl) as K.
  assert (N : (Enqueue b m now (tr a)).2 <> Panic) by (apply Enqueue_queues, H). cbn [exec] in K.
  pose proof (Enqueue_eview b m now (tr a)) as E. destruct (Enqueue b m now (tr a)) as [t r]. cbn [fst snd] in *.
  unfold eview in E. specialize (K ltac:(congruence)).
  destruct r as [[]|e|]; cbn [event_of frames_of] in K; rewrite Z.add_0_r in K; [|done|done].
  apply (IH now); [done|lia|]. destruct metadata as [[|x l]|]; cbn in *; [done|lia|done].
Qed.

(** *** The resequencer's side *)
Lemma hold_rq d dl out q : rq_ok dl out (Some q) -> rq_ok dl out (Some (reseq.SetHoldBound d q)).
Proof.
  intros (acc & S & F & He). exists acc. split; [|done].
  destruct (reseq_props.exec_session (reseq_props.OSetHoldBound d) q acc out I S) as (r & a & p & [= <- <- <-] & _ & S').
  by rewrite !app_nil_r in S'.
Qed.
Lemma rebase_rq rnow dl out q : rq_ok dl out (Some q) -> exists q', reseq.RebaselineAt rnow 1 q = Some q' /\ rq_ok dl out (Some q').
Proof.
  intros (acc & S & F & He).
  destruct (reseq_props.exec_session (reseq_props.ORebaselineAt rnow 1) q acc out) as (r & a & p & E & _ & S'); [done|done|].
  cbn [reseq_props.exec] in E. destruct (reseq.RebaselineAt rnow 1 q) as [q'|] eqn:R; [|done]. injection E as <- <- <-. rewrite !app_nil_r in S'.
  exists q'. split; [done|]. exists acc. split_and!; [done|done|].
  apply reseq_pins.rebaseline_pins in R. unfold reseq_pins.pins in R. injection R as -> _ _. lia.
Qed.
Lemma pop_rq rnow dl out q :
  rq_ok dl out (Some q) -> exists q' it, reseq.Pop rnow q = Some (q', it) /\ rq_ok dl (out ++ option_list it) (Some q').
Proof.
  intros (acc & S & F & He). destruct (reseq_props.exec_session (reseq_props.OPop rnow) q acc out I S) as (r & a & p & E & _ & S').
  cbn [reseq_props.exec] in E. destruct (reseq.Pop rnow q) as [[q' it]|] eqn:R; [|done]. injection E as <- <- <-. rewrite app_nil_r in S'.
  exists q', it. split; [done|]. exists acc. split_and!; [done|done|].
  apply reseq_pins.pop_pins in R. unfold reseq_pins.pins in R. by injection R as -> _ _.
Qed.
Lemma observe_rq rnow s pl from dl out q :
  0 <= s < reseq_theory.seq_bound -> rq_ok dl out (Some q) ->
  exists q' b, reseq.Observe rnow s pl from q = Some (q', b) /\ rq_ok (dl ++ [(s, reseq.mkItem pl from)]) out (Some q').
Proof.
  intros Hs (acc & S & F & He).
  destruct (reseq_props.exec_session (reseq_props.OObserve rnow s pl from) q acc out Hs S) as (r & a & p & E & _ & S').
  cbn [reseq_props.exec] in E. destruct (reseq.Observe rnow s pl from q) as [[q' b]|] eqn:R; [|done]. exists q', b. split; [done|].
  assert (He' : 0 <= reseq.era q').
  { apply reseq_pins.observe_pins in R as [R|R]; unfold reseq_pins.pins, reseq_pins.resynced in R; injection R as -> _ _; lia. }
  assert (F' : Forall (fun x => (reseq.rel_seq x, reseq.rel_item x) ∈ dl ++ [(s, reseq.mkItem pl from)] /\ 0 <= reseq.rel_era x) acc).
  { eapply Forall_impl; [exact F|]. intros x [Hx ?]. split; [|done]. apply elem_of_app. by left. }
  destruct b; injection E as <- <- <-; rewrite (app_nil_r out) in S'; (eexists; split; [exact S'|]; split; [|done]).
  - apply Forall_app. split; [done|]. constructor; [|constructor]. split; [|done]. apply elem_of_app. right. by apply list_elem_of_singleton.
  - by rewrite app_nil_r.
Qed.
Lemma more_rq dl dl' out rq : (forall x, x ∈ dl -> x ∈ dl') -> rq_ok dl out rq -> rq_ok dl' out rq.
Proof.
  intros Hd. destruct rq as [q|]; [|done]. intros (acc & S & F & He). exists acc. split_and!; [done| |done].
  eapply Forall_impl; [exact F|]. intros x [? ?]. auto.
Qed.

Lemma instantiate_rq dl out rq : rq_ok dl out rq -> rq_ok dl out (instantiate rq).
Proof.
  intros H. destruct rq as [q|]; [done|]. cbn in H. subst out. unfold instantiate.
  destruct (reseq_props.new_session resequencerWindow resequencerTimeout) as (r0 & E & _ & S); [done|]. rewrite E. apply reseq_pins.new_pins in E. cbn.
  destruct (reseq_props.exec_session (reseq_props.OSetNotifier true) r0 [] [] I S) as (r & a & p & [= <- <- <-] & _ & S').
  exists []. split_and!; [done|constructor|]. unfold reseq_pins.pins in E. injection E as E _ _. cbn. lia.
Qed.

(** *** The calls *)
Lemma forgetEpoch_ok c n previous ep rnow dl out a rq :
  peer_ok c n a -> (forall x y, (x, y) ∈ map lview (paths (tr a)) -> y = 0) -> rq_ok dl out rq ->
  exists a' rq', forgetEpoch previous ep rnow (a, rq) = Ok (a', rq') /\ tr a' = tr a /\ peer_ok c n a' /\ rq_ok dl out rq'.
Proof.
  intros H Hz Hq. unfold forgetEpoch.
  set (a1 := (if _ && _ then _ else a)). assert (E1 : tr a1 = tr a /\ codec a1 = codec a) by (unfold a1; by destruct (_ && _)).
  clearbody a1. destruct E1 as [E1 E2]. set (a2 := a1 <| routes := ∅ |> <| interactive := [] |>).
  assert (H2 : tr a2 = tr a /\ peer_ok c n a2).
  { split; [done|]. destruct H as [H1 H2 H3 H4 H5 H6]. unfold a2. split; cbn [tr routes codec interactive update]; rewrite ?E1, ?E2; try done.
    - intros x y Hx Hy. by apply Hz in Hx.
    - unfold interactiveCap. cbn. lia. }
  clearbody a2. destruct H2 as [E3 H2]. destruct rq as [q|]; [|by exists a2, None].
  destruct (rebase_rq rnow dl out q Hq) as (q' & -> & Hq'). by exists a2, (Some q').
Qed.

Lemma learn_ok c n view retired rtt now rnow from payload adopted dl out a rq :
  peer_ok c n a -> c <= now -> rq_ok dl out rq ->
  exists p', learn view retired rtt now rnow from payload adopted (a, rq) = Ok p' /\ peer_ok now n p'.1 /\ rq_ok dl out p'.2.
Proof.
  intros H Hc Hq. pose proof (time_mono _ _ _ _ Hc H) as Hn. unfold learn. destruct (bond.ParseHello payload) as [[ep rp] ok].
  destruct (_ || _); [by exists (a, rq)|]. destruct (aclosed a); [by exists (a, rq)|]. destruct retired; [by exists (a, rq)|].
  pose proof (proj1 (exec_ok iter n (OSetRemote ep adopted) (tr a) (po_state _ _ _ H))) as S.
  pose proof (SetRemote_lanes ep adopted (tr a)) as K. cbn [exec] in S.
  destruct (SetRemote ep adopted (tr a)) as [t changed]. cbn [fst snd frames_of] in S. rewrite Z.add_0_r in S.
  destruct K as (K1 & K2 & _ & K4).
  assert (H1 : peer_ok now n (a <| tr := t |>)).
  { eapply peer_step; [exact Hn|lia|done|rewrite K2; apply Hn|done|]. intros x y Hx Hy. destruct changed; [|by subst t].
    destruct K4 as [_ K4]. by apply K4 in Hx. }
  assert (Hz : changed = true -> forall x y, (x, y) ∈ map lview (paths (tr (a <| tr := t |>))) -> y = 0).
  { intros ->. apply K4. }
  cbv zeta. destruct (negb _); [by eexists|]. set (a1 := a <| tr := t |>) in *. clearbody a1. clear K4 S K1 K2 H Hn.
  match goal with |- context [mbind _ ?e] =>
    assert (F : exists a2 rq2, e = Ok (a2, rq2) /\ tr a2 = tr a1 /\ peer_ok now n a2 /\ rq_ok dl out rq2) end.
  { destruct changed; [|by exists a1, rq]. by apply forgetEpoch_ok; [| apply Hz|]. }
  destruct F as (a2 & rq2 & -> & _ & H2 & Hq2). clear Hz H1 Hq rq a1 a t c Hc. cbn [mbind outcome_bind].
  set (id := laneID view rp).
  pose proof (proj1 (exec_ok iter n (OPath id (laneID rp view) rtt now) (tr a2) (po_state _ _ _ H2))) as S. cbn [exec] in S.
  destruct (PathUp_ok id (laneID rp view) rtt now (tr a2) (po_time _ _ _ H2) (po_ids _ _ _ H2)) as (t' & E & T1 & _ & _ & T4 & T5).
  cbn [tr update]. rewrite E in S |- *. cbn [fst snd event_of frames_of] in S. rewrite Z.add_0_r in S.
  eexists. split; [done|]. split; [|done]. destruct H2 as [_ _ _ H4 H5 H6].
  split; cbn [fst tr routes codec interactive update signal]; try done; [lia|].
  intros x y Hx Hy. destruct (T5 x y Hx) as [Hx'| ->]; [|by rewrite lookup_insert_eq].
  destruct (decide (x = id)) as [->|Hne]; [by rewrite lookup_insert_eq|]. rewrite lookup_insert_ne by done. by apply (H4 x y).
Qed.
Lemma deliver_all_ok c n rnow from ds dl out a q :
  Forall in_range ds -> peer_ok c n a -> rq_ok dl out (Some q) ->
  exists a' q', deliver_all rnow from ds (a, q) = Ok (a', q') /\ peer_ok c n a' /\
    rq_ok (dl ++ bulk_of (ADelivered from ds)) out (Some q').
Proof.
  intros F. revert dl a q. induction F as [|d ds Hd F IH]; intros dl a q H Hq; cbn [deliver_all].
  { exists a, q. cbn. by rewrite app_nil_r. }
  unfold deliver. cbn [bulk_of List.filter]. destruct (DInteractive d); cbn [negb].
  - destruct (Nat.ltb_spec (length (interactive a)) interactiveCap) as [Hl|]; cbn [mbind outcome_bind]; [|by apply IH].
    apply IH; [|done]. destruct H as [H1 H2 H3 H4 H5 H6]. split; cbn [tr routes codec interactive update]; try done.
    rewrite length_app. cbn. lia.
  - destruct (observe_rq rnow (DSequence d) (DPayload d) from dl out q Hd Hq) as (q' & b & -> & Hq'). cbn [mbind outcome_bind map].
    destruct (IH _ a q' H Hq') as (a2 & q2 & E & H2 & Hq2). exists a2, q2. split_and!; [done|done|].
    rewrite <- app_assoc in Hq2. exact Hq2.
Qed.

Lemma receive_ok c n view from f now rnow dl out a rq :
  peer_ok c n a -> c <= now -> rq_ok dl out rq ->
  exists p', receive order iter view from f now rnow (a, rq) = Ok p' /\ peer_ok now n p'.1 /\
    rq_ok (dl ++ bulk_of (ADelivered from (delivered_by order iter view from f now a))) out p'.2.
Proof.
  intros H Hc Hq. unfold receive, delivered_by. pose proof (time_mono _ _ _ _ Hc H) as Hn.
  assert (Hmore : forall l, rq_ok (dl ++ l) out rq).
  { intros l. apply (more_rq dl); [|done]. intros x Hx. apply elem_of_app. by left. }
  destruct (aclosed a); [by exists (a, rq)|]. destruct (routeOf order view from a) as [id|]; [|by exists (a, rq)].
  pose proof (call_ok c n a (OReceive id f now) now _ H Hc eq_refl) as K. cbn [exec] in K.
  pose proof (Receive_cview iter id f now (tr a)) as E. pose proof (Receive_nopanic iter id f now (tr a)) as N.
  pose proof (Receive_range iter id f now (tr a)) as R.
  destruct (Receive iter id f now (tr a)) as [t r]. cbn [fst snd] in *. specialize (K E).
  assert (K' : peer_ok now n (a <| tr := t |>)) by (destruct r; [rewrite Z.add_0_r in K; exact K..|done]). clear K.
  destruct r as [ds|e|]; [|by eexists|done]. destruct rq as [q|]; [|eexists; split; [done|]; split; [by destruct K'|by apply Hmore]].
  destruct (deliver_all_ok now n rnow from ds dl out (a <| tr := t |>) (reseq.SetHoldBound adaptiveReorderHold q))
    as (a2 & q2 & -> & H2 & Hq2); [by apply (R t)|done|by apply hold_rq|].
  cbn [mbind outcome_bind]. eexists. split; [done|]. split; [by destruct H2|done].
Qed.

(** The datagram that carries a polled frame: on the route of the frame's lane, and
    with the frame's bytes. *)
Definition on_route (x : Transmission * option adaptiveRoute) (d : datagram) : Prop :=
  exists r, x.2 = Some r /\ dview d = rpath r /\ ddst d = rremote r /\ carries psk (TFrame x.1) (draw d).

Lemma routed_all a out : Forall (fun tx => is_Some (routes a !! TPath tx)) out ->
  Forall2 (fun tx s => routes a !! TPath tx = Some s.1 /\ s.2 = TFrame tx) out (routed a out).
Proof.
  induction 1 as [|tx out [r Hr] F IH]; cbn; [constructor|]. unfold routed. cbn. rewrite Hr. cbn. by constructor.
Qed.

Lemma flush_ok c n rnd now a :
  nonces_ok rnd -> peer_ok c n a -> c <= now ->
  exists a' l, flush iter rnd now a = Ok (a', l) /\
    peer_ok now (n + Z.of_nat (length (polled_by iter now a))) a' /\ Forall2 on_route (map (fun tx => (tx, routes a !! TPath tx)) (polled_by iter now a)) l.
Proof.
  intros Hr H Hc. unfold flush, polled_by.
  pose proof (call_ok c n a (OPoll now) now _ H Hc eq_refl) as K. cbn [exec] in K.
  pose proof (Poll_eview iter now (tr a)) as E.
  assert (N : (Poll iter now (tr a)).2 <> Panic).
  { destruct (po_state _ _ _ H) as [Hs1 Hs2]. by destruct (Poll_inv iter n now (tr a) Hs1 Hs2). }
  assert (O : exists out, (Poll iter now (tr a)).2 = Ok out).
  { pose proof (Poll_error iter now (tr a)) as P. destruct ((Poll iter now (tr a)).2) as [out|e|]; [by exists out| |done].
    specialize (P e eq_refl). pose proof (po_time _ _ _ H). lia. }
  pose proof (Poll_leased iter now (tr a)) as A.
  destruct (Poll iter now (tr a)) as [t r]. cbn [fst snd] in *. destruct O as [out ->].
  unfold eview in E. specialize (K ltac:(congruence)). cbn [event_of frames_of] in K. specialize (A t out eq_refl).
  assert (Hall : Forall (fun tx => is_Some (routes a !! TPath tx)) out).
  { eapply Forall_impl; [exact A|]. intros tx (y & Hy & Hu). apply (po_routes _ _ _ H _ y Hy).
    apply andb_true_iff in Hu as [Hu _]. intros ->. done. }
  destruct (encode_all_ok psk rnd (routed (a <| tr := t |>) out) (codec a)) as (c2 & l & E2 & Hc2 & F); [done|apply H|].
  change (codec (a <| tr := t |>)) with (codec a). rewrite E2. cbn [mbind outcome_bind]. eexists _, _. split; [done|]. split; [by destruct K|].
  apply routed_all in Hall. change (routed (a <| tr := t |>) out) with (routed a out) in F. clear - Hall F.
  revert l F. induction Hall as [|tx s out sends Hs _ IH]; intros l F.
  - apply Forall2_nil_inv_l in F as ->. constructor.
  - apply Forall2_cons_inv_l in F as (d & l' & (Hd1 & Hd2 & Hd3) & F & ->). destruct Hs as [Hs Hf].
    constructor; [|by apply IH]. exists s.1. cbn [fst snd]. rewrite <- Hf. by split_and!.
Qed.

(** *** Any call, any history *)
Definition all_sent (e : aevent) : Prop := match e with ASent polled l => Forall2 on_route polled l | _ => True end.

Lemma aexec_ok c n o dl out a rq :
  aop_ok o -> match at_time o with Some now => c <= now | None => True end -> peer_ok c n a -> rq_ok dl out rq ->
  exists p e n', aexec order iter o (a, rq) = Ok (p, e) /\ peer_ok (default c (at_time o)) n' p.1 /\
    rq_ok (dl ++ bulk_of e) (popped_step out e) p.2 /\ all_sent e.
Proof.
  intros Ho Ht H Hq.
  assert (same : forall a', peer_ok c n a' -> exists p e n', @Ok unit (plane * aevent) ((a', rq), ADone) = Ok (p, e) /\ peer_ok c n' p.1 /\
    rq_ok (dl ++ bulk_of e) (popped_step out e) p.2 /\ all_sent e).
  { intros a' H'. exists (a', rq), ADone, n. cbn. by rewrite app_nil_r. }
  destruct o as [view retired rtt now rnow from payload adopted|bufs metadata now|view from f now rnow|rnd now|socket| | |rnow| | |];
    cbn [aexec at_time default] in *.
  - destruct (learn_ok c n view retired rtt now rnow from payload adopted dl out a rq H Ht Hq) as (p & -> & H1 & H2).
    eexists p, _, n. cbn [mbind outcome_bind]. split; [done|]. by case_bool_decide; cbn [bulk_of popped_step]; rewrite app_nil_r.
  - unfold enqueue. destruct (aclosed a).
    { eexists _, (AError ErrClosed), n. split; [done|]. cbn. rewrite app_nil_r. split; [by apply (time_mono c)|done]. }
    pose proof (enqueue_loop_ok c now n bufs metadata a H Ht) as K. destruct (enqueue_loop bufs metadata now a) as [a' r].
    destruct K as [K1 K2]; [by destruct metadata|]. cbn [fst snd] in K1, K2.
    destruct r as [u|e|]; [| |done]; (eexists _, _, n; split; [done|]); cbn; by rewrite app_nil_r.
  - destruct (receive_ok c n view from f now rnow dl out a rq H Ht Hq) as (p & -> & H1 & H2).
    eexists p, _, n. split; [done|]. split_and!; [done|exact H2|done].
  - destruct (flush_ok c n rnd now a Ho H Ht) as (a' & l & -> & H1 & H2). eexists _, _, _. split; [done|].
    split; [exact H1|]. cbn [bulk_of popped_step all_sent]. by rewrite app_nil_r.
  - apply same. by apply forgets_ok.
  - apply same. by apply forgets_ok.
  - unfold popInteractive. destruct (interactive a) as [|it l] eqn:Ei; [by apply same|].
    eexists _, _, n. split; [done|]. cbn [bulk_of popped_step all_sent]. rewrite app_nil_r. split_and!; [|done|done].
    destruct H as [H1 H2 H3 H4 H5 H6]. rewrite Ei in H6. split; cbn; try done. cbn in H6. lia.
  - destruct rq as [q|]; [|by apply same]. destruct (pop_rq rnow dl out q Hq) as (q' & it & -> & Hq').
    destruct it as [it|]; (eexists _, _, n; split; [done|]); cbn [bulk_of popped_step all_sent]; rewrite app_nil_r; [done|].
    cbn in Hq'. rewrite app_nil_r in Hq'. done.
  - eexists _, _, n. split; [done|]. by cbn.
  - eexists _, ADone, n. split; [done|]. cbn [bulk_of popped_step all_sent]. rewrite app_nil_r. split_and!; [done|by apply instantiate_rq|done].
  - apply same. destruct H. by split.
Qed.

Lemma arun_ok c n ops dl out a rq :
  Forall aop_ok ops -> clocked c ops -> peer_ok c n a -> rq_ok dl out rq ->
  exists p es c' n', arun order iter ops (a, rq) = Ok (p, es) /\ peer_ok c' n' p.1 /\
    rq_ok (dl ++ concat (map bulk_of es)) (fold_left popped_step es out) p.2 /\ Forall all_sent es.
Proof.
  intros F. revert c n dl out a rq. induction F as [|o ops Ho F IH]; intros c n dl out a rq Hc H Hq; cbn [arun].
  { exists (a, rq), [], c, n. cbn. by rewrite app_nil_r. }
  cbn [clocked] in Hc.
  destruct (aexec_ok c n o dl out a rq Ho) as (p & e & n' & E & H1 & H2 & H3); [|done|done|].
  { by destruct (at_time o); [apply Hc|]. }
  destruct p as [a1 rq1]. cbn [fst snd] in *.
  destruct (IH (default c (at_time o)) n' (dl ++ bulk_of e) (popped_step out e) a1 rq1) as (p2 & es & c2 & n2 & E2 & K1 & K2 & K3);
    [by destruct (at_time o); [apply Hc|]|done|done|].
  rewrite E. cbn [mbind outcome_bind]. rewrite E2. cbn [mbind outcome_bind]. eexists _, _, c2, n2. split; [done|].
  split_and!; [done| |by constructor]. cbn [map concat fold_left]. by rewrite app_assoc.
Qed.

Lemma open_ok c session generation rq p :
  frame_props.codec_for psk c -> rq_ok [] [] rq -> openAdaptivePeer c session generation rq = Ok p ->
  peer_ok 0 0 p.1 /\ rq_ok [] [] p.2.
Proof.
  intros Hc Hq. unfold openAdaptivePeer. destruct (New _) as [t|e|] eqn:En; [|done|done]. cbn [mbind outcome_bind]. intros [= <-].
  pose proof (New_ok _ _ En) as Hs. unfold New in En. destruct (_ || _); [done|]. injection En as <-.
  split; [|destruct rq as [q|]; [by apply hold_rq|done]].
  split; cbn; try done; [apply NoDup_nil_2|by intros x y ?%elem_of_nil|unfold interactiveCap; lia].
Qed.
End Invariant.

(** ** What is guaranteed *)

(** C5. The peer's transport glue is total.  From an opened peer, over any
    history of hellos, sent batches (with no metadata or an entry per datagram),
    received frames, polls, forgotten sockets and routes, drained deliveries,
    teardowns and closing, with any contents and any map order, as long as the
    clock does not run backwards and the random generator delivers nonces: no call
    panics (the transport never refuses a path or a poll, and no frame fails to
    encode); the datagrams written for a poll are, one by one and in order, the
    polled frames, each encoded under the peer's key (so that any codec of the key
    decodes it to that frame, if it is encodable at all) and sent on the route of
    its lane (a lane that can send always has one); and at most 256 interactive
    datagrams wait. *)
Theorem adaptive_total {C : Cipher} {L : CipherLaws C} order iter psk c session generation rq p0 ops :
  frame_props.codec_for psk c -> rq = None \/ rq = instantiate None ->
  openAdaptivePeer c session generation rq = Ok p0 -> clocked 0 ops -> Forall aop_ok ops ->
  exists p es, arun order iter ops p0 = Ok (p, es) /\
    (forall polled l, ASent polled l ∈ es -> Forall2 (on_route psk) polled l) /\
    (length (interactive p.1) <= interactiveCap)%nat.
Proof.
  intros Hc Hr Ho Hk F.
  assert (Hq : rq_ok [] [] rq) by (destruct Hr as [->| ->]; [done|by apply (instantiate_rq [] [] None)]).
  destruct (open_ok psk c session generation rq p0 Hc Hq Ho) as [H1 H2]. destruct p0 as [a rq0].
  destruct (arun_ok order iter psk 0 0 ops [] [] a rq0 F Hk H1 H2) as (p & es & c' & n' & E & K1 & _ & K3).
  exists p, es. split_and!; [done| |apply K1]. intros polled l Hin. by apply (proj1 (Forall_forall _ _) K3 _ Hin).
Qed.

(** ** How often the stream starts over

    The eras of the resequencer: as many as the epochs followed while it was there
    and the re-pins of its own that it counts. *)
Definition pins_ok (eps n : Z) (rq : option reseq.Resequencer) : Prop :=
  match rq with
  | None => True
  | Some q => exists r1 r2, reseq_pins.pins q = (r1 + r2, u64 r2, u64 r1) /\ 0 <= r1 <= eps /\ 0 <= r2 <= n
  end.

Lemma pins_more eps n eps' n' rq : pins_ok eps n rq -> eps <= eps' -> n <= n' -> pins_ok eps' n' rq.
Proof. destruct rq as [q|]; [|done]. intros (r1 & r2 & E & ? & ?) ? ?. exists r1, r2. split; [done|]. lia. Qed.

Lemma pins_observe eps n rnow s pl from q q' b :
  reseq.Observe rnow s pl from q = Some (q', b) -> pins_ok eps n (Some q) -> pins_ok eps (n + 1) (Some q').
Proof.
  intros [R|R]%reseq_pins.observe_pins (r1 & r2 & E & ? & ?); unfold pins_ok; rewrite R.
  - exists r1, r2. split; [done|]. lia.
  - unfold reseq_pins.resynced, reseq_pins.pins in *. injection E as -> -> ->. exists r1, (r2 + 1).
    rewrite u64_add_l. split; [f_equal; f_equal; lia|]. lia.
Qed.

Lemma pins_rebaseline eps n rnow q q' :
  reseq.RebaselineAt rnow 1 q = Some q' -> pins_ok eps n (Some q) -> pins_ok (eps + 1) n (Some q').
Proof.
  intros R%reseq_pins.rebaseline_pins (r1 & r2 & E & ? & ?). unfold pins_ok. rewrite R. unfold reseq_pins.pins in E. injection E as -> -> ->.
  exists (r1 + 1), r2. rewrite u64_add_l. split; [f_equal; f_equal; lia|]. lia.
Qed.

Lemma pins_instantiate eps n rq : pins_ok eps n rq -> 0 <= eps -> 0 <= n -> pins_ok eps n (instantiate rq).
Proof.
  intros H He Hn. destruct rq as [q|]; [done|]. unfold instantiate.
  destruct (reseq_props.new_session resequencerWindow resequencerTimeout) as (r0 & E & _); [done|]. rewrite E.
  apply reseq_pins.new_pins in E. exists 0, 0. split; [exact E|]. lia.
Qed.

Lemma PathUp_keeps_remote ident rid rt now t : remote (PathUp ident rid rt now t).1 = remote t.
Proof.
  unfold PathUp. assert (E : remote (checkTime now t).1 = remote t) by (unfold checkTime; by destruct (_ <? _)).
  destruct (checkTime now t) as [u []]; [|exact E]. cbn [fst] in E. destruct (find ident u); exact E.
Qed.

(** A hello changes the resequencer only when another epoch is followed. *)
Lemma learn_pins view retired rtt now rnow from payload adopted a rq a' rq' :
  learn view retired rtt now rnow from payload adopted (a, rq) = Ok (a', rq') ->
  rq' = rq \/ remote (tr a') <> remote (tr a) /\
    exists q q', rq = Some q /\ reseq.RebaselineAt rnow 1 q = Some q' /\ rq' = Some q'.
Proof.
  unfold learn. destruct (bond.ParseHello payload) as [[ep rp] ok].
  destruct (_ || _); [intros [= _ <-]; by left|]. destruct (aclosed a); [intros [= _ <-]; by left|]. destruct retired; [intros [= _ <-]; by left|].
  destruct (SetRemote ep adopted (tr a)) as [t changed] eqn:Es. destruct (negb _); [intros [= _ <-]; by left|].
  assert (Hc : changed = true -> remote t <> remote (tr a)).
  { intros ->. pose proof (SetRemote_lanes ep adopted (tr a)) as K. rewrite Es in K. destruct K as (_ & _ & _ & -> & _).
    unfold SetRemote in Es. case_bool_decide as E; [done|exact E]. }
  clear Es. cbv zeta. intros H.
  match type of H with context [mbind _ ?e] =>
    assert (F : exists a2 rq2, e = Ok (a2, rq2) /\ remote (tr a2) = remote t /\
      (rq2 = rq \/ changed = true /\ exists q q', rq = Some q /\ reseq.RebaselineAt rnow 1 q = Some q' /\ rq2 = Some q')) end.
  { destruct changed; [|eexists _, rq; split; [done|]; split; [done|by left]]. unfold forgetEpoch in H |- *.
    destruct rq as [q|]; [|eexists _, None; split; [done|]; split; [by destruct (_ && _)|by left]].
    destruct (reseq.RebaselineAt rnow 1 q) as [q'|] eqn:R; [|done].
    eexists _, (Some q'). split; [done|]. split; [by destruct (_ && _)|]. right. split; [done|]. by exists q, q'. }
  destruct F as (a2 & rq2 & E & E2 & K). rewrite E in H. cbn [mbind outcome_bind tr update] in H.
  pose proof (PathUp_keeps_remote (laneID view rp) (laneID rp view) rtt now (tr a2)) as P.
  destruct (PathUp _ _ _ _ _) as [t' [u|e|]]; try done. injection H as <- <-. cbn [tr signal update fst] in *.
  destruct K as [->|[Hch K]]; [by left|]. right. split; [|done]. rewrite P, E2. auto.
Qed.

Lemma deliver_all_pins eps rnow from ds : forall n a q a' q',
  deliver_all rnow from ds (a, q) = Ok (a', q') -> pins_ok eps n (Some q) ->
  pins_ok eps (n + Z.of_nat (length (bulk_of (ADelivered from ds)))) (Some q').
Proof.
  induction ds as [|d ds IH]; intros n a q a' q'; cbn [deliver_all].
  { intros [= _ <-]. cbn. by rewrite Z.add_0_r. }
  unfold deliver. cbn [bulk_of List.filter]. destruct (DInteractive d); cbn [negb].
  - destruct (_ <? _)%nat; cbn [mbind outcome_bind]; intros H P; exact (IH _ _ _ _ _ H P).
  - destruct (reseq.Observe _ _ _ _ _) as [[q1 b]|] eqn:R; [|done]. cbn [mbind outcome_bind]. intros H P.
    pose proof (IH _ _ _ _ _ H (pins_observe _ _ _ _ _ _ _ _ _ R P)) as K. cbn [map length]. cbn [bulk_of] in K.
    rewrite Nat2Z.inj_succ. replace (n + Z.succ _) with (n + 1 + Z.of_nat (length (map (fun d => (DSequence d, reseq.mkItem (DPayload d) from))
      (List.filter (fun d => negb (DInteractive d)) ds)))) by lia. exact K.
Qed.

Lemma aexec_pins {C : Cipher} order iter o eps n a rq p e :
  aexec order iter o (a, rq) = Ok (p, e) -> pins_ok eps n rq -> 0 <= eps -> 0 <= n ->
  pins_ok (epochs_step eps e) (n + Z.of_nat (length (bulk_of e))) p.2 /\ 0 <= epochs_step eps e.
Proof.
  intros E P He Hn. destruct p as [a' rq']. cbn [snd].
  assert (Hsame : forall e', epochs_step eps e' = eps -> pins_ok (epochs_step eps e') (n + Z.of_nat (length (bulk_of e'))) rq).
  { intros e' ->. eapply pins_more; [exact P|lia|lia]. }
  destruct o as [view retired rtt now rnow from payload adopted|bufs metadata now|view from f now rnow|rnd now|socket| | |rnow| | |]; cbn [aexec] in E.
  - destruct (learn _ _ _ _ _ _ _ _ _) as [[a1 rq1]|u|] eqn:Le; try done. cbn [mbind outcome_bind fst] in E. injection E as -> -> <-.
    apply learn_pins in Le as [->|(Hne & q & q' & -> & R & ->)].
    + case_bool_decide; cbn [epochs_step bulk_of length]; (split; [|lia]); eapply pins_more; (exact P || lia).
    + rewrite bool_decide_eq_false_2 by done. cbn [epochs_step bulk_of length]. split; [|lia].
      eapply pins_more; [by eapply pins_rebaseline|lia|lia].
  - destruct (enqueue bufs metadata now a) as [a1 [u|x|]]; try done; injection E as <- <- <-; (split; [by apply Hsame|done]).
  - unfold receive in E. unfold delivered_by in E. destruct (aclosed a); [injection E as <- <- <-; split; [by apply Hsame|done]|].
    destruct (routeOf order view from a) as [id|]; [|injection E as <- <- <-; split; [by apply Hsame|done]].
    destruct (Receive iter id f now (tr a)) as [t r]. cbn [snd] in E. destruct r as [ds|x|]; try done.
    2: { injection E as <- <- <-. split; [by apply Hsame|done]. }
    destruct rq as [q|]; [|injection E as <- <- <-; split; [by apply Hsame|done]].
    destruct (deliver_all _ _ _ _) as [[a2 q2]|u|] eqn:D; try done. injection E as <- <- <-. split; [|done].
    by eapply deliver_all_pins.
  - destruct (flush _ _ _ _) as [[a1 l]|u|]; try done. injection E as <- <- <-. split; [by apply Hsame|done].
  - injection E as <- <- <-. split; [by apply Hsame|done].
  - injection E as <- <- <-. split; [by apply Hsame|done].
  - destruct (popInteractive a) as [a1 [it|]]; injection E as <- <- <-; (split; [by apply Hsame|done]).
  - destruct rq as [q|]; [|injection E as <- <- <-; split; [by apply Hsame|done]].
    destruct (reseq.Pop rnow q) as [[q' it]|] eqn:R; [|done]. apply reseq_pins.pop_pins in R.
    assert (P' : pins_ok eps n (Some q')) by (unfold pins_ok in *; by rewrite R).
    destruct it; injection E as <- <- <-; cbn [epochs_step bulk_of length]; rewrite Z.add_0_r; done.
  - injection E as <- <- <-. done.
  - injection E as <- <- <-. cbn [epochs_step bulk_of length]. rewrite Z.add_0_r. split; [by apply pins_instantiate|done].
  - injection E as <- <- <-. split; [by apply Hsame|done].
Qed.

Lemma arun_pins {C : Cipher} order iter ops : forall eps n a rq p es,
  arun order iter ops (a, rq) = Ok (p, es) -> pins_ok eps n rq -> 0 <= eps -> 0 <= n ->
  pins_ok (fold_left epochs_step es eps) (n + Z.of_nat (length (concat (map bulk_of es)))) p.2.
Proof.
  induction ops as [|o ops IH]; intros eps n a rq p es E P He Hn; cbn [arun] in E.
  { injection E as <- <-. cbn. by rewrite Z.add_0_r. }
  destruct (aexec order iter o (a, rq)) as [[[a1 rq1] e]|u|] eqn:E1; try done. cbn [mbind outcome_bind] in E.
  destruct (arun order iter ops (a1, rq1)) as [[p2 es2]|u|] eqn:E2; try done. cbn [mbind outcome_bind] in E. injection E as <- <-.
  destruct (aexec_pins _ _ _ _ _ _ _ _ _ E1 P He Hn) as [P1 He1]. cbn [snd] in P1.
  cbn [fold_left map concat]. rewrite length_app, Nat2Z.inj_add, Z.add_assoc. eapply IH; [exact E2|done|done|lia].
Qed.

Lemma open_pins c session generation rq p :
  rq = None \/ rq = instantiate None -> openAdaptivePeer c session generation rq = Ok p -> pins_ok 0 0 p.2.
Proof.
  intros Hr. unfold openAdaptivePeer. destruct (New _) as [t|e|]; try done. cbn [mbind outcome_bind]. intros [= <-].
  assert (P : pins_ok 0 0 rq) by (destruct Hr as [->| ->]; [done|by apply (pins_instantiate 0 0 None)]). by destruct rq.
Qed.

(** The re-pins the resequencer reports. *)
Definition repins (rq : option reseq.Resequencer) : Z :=
  match rq with Some q => reseq.Resyncs (reseq.GetStats q) | None => 0 end.

(** C6. The peer's stream is intact.  What the engine was handed by the peer's
    resequencer since it was built is, in the order handed out, strictly
    increasing by era and sequence, so within an era nothing is repeated or
    overtakes; and the eras are numbered from 0 up to the number of epochs the peer
    changed to since then plus the re-pins the resequencer reports, so that without
    either the sequences increase throughout.  Every datagram of it is one the
    transport delivered, with that sequence, that payload and the address it came
    from.  Fewer than 2^64 datagrams are delivered in all. *)
Theorem adaptive_stream_ordered {C : Cipher} {L : CipherLaws C} order iter psk c session generation rq p0 ops p es :
  frame_props.codec_for psk c -> rq = None \/ rq = instantiate None ->
  openAdaptivePeer c session generation rq = Ok p0 -> clocked 0 ops -> Forall aop_ok ops ->
  arun order iter ops p0 = Ok (p, es) -> Z.of_nat (length (concat (map bulk_of es))) < 2 ^ 64 ->
  exists rel, fold_left popped_step es [] = map reseq.rel_item rel /\ StronglySorted reseq_props.rel_lt rel /\
    (forall x, x ∈ rel -> (reseq.rel_seq x, reseq.rel_item x) ∈ concat (map bulk_of es) /\
       0 <= reseq.rel_era x <= fold_left epochs_step es 0 + repins p.2) /\
    (fold_left epochs_step es 0 + repins p.2 = 0 -> StronglySorted Z.lt (map reseq.rel_seq rel)).
Proof.
  intros Hc Hr Ho Hk F R Hlen.
  assert (Hq : rq_ok [] [] rq) by (destruct Hr as [->| ->]; [done|by apply (instantiate_rq [] [] None)]).
  destruct (open_ok psk c session generation rq p0 Hc Hq Ho) as [H1 H2].
  assert (P0 : pins_ok 0 0 p0.2) by (by eapply open_pins). destruct p0 as [a rq0].
  destruct (arun_ok order iter psk 0 0 ops [] [] a rq0 F Hk H1 H2) as (p' & es' & c' & n' & E & _ & K & _).
  rewrite R in E. injection E as <- <-. cbn [app] in K.
  pose proof (arun_pins order iter ops 0 0 a rq0 p es R P0 ltac:(lia) ltac:(lia)) as P. unfold rq_ok in K. destruct (p.2) as [q|].
  2: { rewrite K. exists []. split_and!; [done|constructor|by intros x ?%elem_of_nil|constructor]. }
  destruct K as (acc & S & Fa & _). set (out := fold_left popped_step es []) in *.
  pose proof (reseq_props.ss_delivers _ _ _ S) as D. unfold reseq_props.delivers in D.
  set (rel := take (length out) (reseq.log q)).
  assert (So : StronglySorted reseq_props.rel_lt rel).
  { pose proof (reseq_props.lg_sorted _ (reseq_props.inv_logged _ (reseq_props.ss_inv _ _ _ S))) as So.
    rewrite <- (take_drop (length out) (reseq.log q)) in So. by apply StronglySorted_app_1_l in So. }
  assert (Hx : forall x, x ∈ rel -> (reseq.rel_seq x, reseq.rel_item x) ∈ concat (map bulk_of es) /\
                 0 <= reseq.rel_era x <= fold_left epochs_step es 0 + repins (Some q)).
  { intros x Hx. assert (Ha : x ∈ acc). { apply (reseq_props.ss_from _ _ _ S). left. eapply elem_of_sublist; [exact Hx|]. apply sublist_take. }
    destruct (proj1 (Forall_forall _ _) Fa _ Ha) as [Hd Hz]. split; [done|]. split; [done|].
    pose proof (reseq_props.ss_past _ _ _ S x Ha) as Hp. destruct P as (r1 & r2 & E & ? & ?). unfold reseq_pins.pins in E. injection E as E1 E2 _.
    cbn [repins reseq.GetStats reseq.Resyncs]. rewrite E2, u64_small by lia. lia. }
  exists rel. split_and!; [|done|done|].
  - unfold rel. by rewrite <- firstn_map, D, take_app_length.
  - intros Hz. rewrite Hz in Hx. clear - So Hx. induction So as [|x l So IH Hl]; cbn [map]; [constructor|].
    constructor; [apply IH; intros y Hy; apply Hx; by apply list_elem_of_further|]. 
    apply Forall_forall. intros s (y & -> & Hy)%list_elem_of_fmap. pose proof (proj1 (Forall_forall _ _) Hl y Hy) as Lt.
    destruct (Hx x (list_elem_of_here _ _)) as [_ Ex]. destruct (Hx y (list_elem_of_further _ _ _ Hy)) as [_ Ey].
    unfold reseq_props.rel_lt in Lt. lia.
Qed.

(** ** A history: a peer is learned, a datagram is sent, two are received out of
    order, and the first of them is drained. *)
Definition routeOrder (m : gmap Z adaptiveRoute) : list Z := (map_to_list m).*1.
Definition peerAddr : AddrPort := mkAddrPort [192; 0; 2; 1] [] 51820.
Definition dataB (lane seq_ ord : Z) (pl : list Z) : frame.Control := bond.dataFrame epB epA (laneID 3 0) lane seq_ ord pl.
Definition opsW : list aop :=
  [ALearn 0 false 0 (ms 0) (ms 0) peerAddr (bond.Hello epB 3) false;
   AEnqueue [[1; 2; 3]] None (ms 1);
   AFlush (fun _ => Some (replicate 24 7)) (ms 2);
   AReceive 0 peerAddr (dataB 1 2 2 [8; 8]) (ms 3) (ms 3);
   AReceive 0 peerAddr (dataB 2 1 1 [9; 9]) (ms 4) (ms 4);
   APop (ms 5); APop (ms 5); AForgetRoutes; AClose].

Lemma opsW_ok : clocked 0 opsW /\ Forall aop_ok opsW.
Proof.
  split; [cbn; unfold ms, millisecond, second; lia|].
  repeat constructor. intros n. by exists (replicate 24 7).
Qed.
Lemma codec1_ok : frame_props.codec_for frame_props.psk1 frame_props.codec1.
Proof.
  destruct (frame_props.NewCodec_ok frame_props.psk1 eq_refl) as (c & E & _). exists frame_props.codec1.
  unfold frame_props.codec1. by rewrite E.
Qed.
Definition planeW : plane :=
  (mkAdaptive (initial epA) frame_props.codec1 ∅ false false [] 0 0, reseq.SetHoldBound adaptiveReorderHold <$> instantiate None).
Lemma openW : openAdaptivePeer frame_props.codec1 1 1 (instantiate None) = Ok planeW.
Proof. reflexivity. Qed.

Lemma adaptive_total_witness :
  exists p es, @arun frame_props.toy_cipher routeOrder iter0 opsW planeW = Ok (p, es) /\
    (forall polled l, ASent polled l ∈ es -> Forall2 (@on_route frame_props.toy_cipher frame_props.psk1) polled l) /\
    (length (interactive p.1) <= interactiveCap)%nat.
Proof.
  exact (@adaptive_total frame_props.toy_cipher frame_props.toy_laws routeOrder iter0 frame_props.psk1 frame_props.codec1
    1 1 (instantiate None) planeW opsW codec1_ok (or_intror eq_refl) openW (proj1 opsW_ok) (proj2 opsW_ok)).
Defined.

Definition runW : outcome unit (plane * list aevent) := @arun frame_props.toy_cipher routeOrder iter0 opsW planeW.
Definition eventsW : list aevent := match runW with Ok (_, es) => es | _ => [] end.
Lemma runW_ok : exists p, runW = Ok (p, eventsW).
Proof.
  assert (E : is_ok runW = true) by (vm_compute; reflexivity). unfold eventsW.
  destruct runW as [[p es]|e|]; [by exists p|done|done].
Qed.
Lemma poppedW : fold_left popped_step eventsW [] = [reseq.mkItem [9; 9] peerAddr; reseq.mkItem [8; 8] peerAddr].
Proof. vm_compute. reflexivity. Qed.

Lemma adaptive_stream_ordered_witness :
  fold_left popped_step eventsW [] = [reseq.mkItem [9; 9] peerAddr; reseq.mkItem [8; 8] peerAddr] /\
  exists p rel, fold_left popped_step eventsW [] = map reseq.rel_item rel /\ StronglySorted reseq_props.rel_lt rel /\
    (forall x, x ∈ rel -> (reseq.rel_seq x, reseq.rel_item x) ∈ concat (map bulk_of eventsW) /\
       0 <= reseq.rel_era x <= fold_left epochs_step eventsW 0 + repins p).
Proof.
  split; [exact poppedW|]. destruct runW_ok as [p R]. exists (p.2).
  destruct (@adaptive_stream_ordered frame_props.toy_cipher frame_props.toy_laws routeOrder iter0 frame_props.psk1 frame_props.codec1
    1 1 (instantiate None) planeW opsW p eventsW codec1_ok (or_intror eq_refl) openW (proj1 opsW_ok) (proj2 opsW_ok) R
    ltac:(vm_compute; reflexivity)) as (rel & H1 & H2 & H3 & _).
  exact (ex_intro _ rel (conj H1 (conj H2 H3))).
Defined.

End adaptive_props.
