(* ===== verification/BindReceive.v ===== *)
(** * The drainer ([newReceiveFunc] of [internal/bind/multipath.go])

    The single function the engine receives with.  It scans the peers round-robin
    from a rotating cursor, takes one datagram at a time, and returns a batch, or
    parks until a reader, the timer or closing wakes it.

    What it needs of a peer is the interface [Source]: taking one datagram, the
    deadline of an armed hold, and how long a batch may wait.  The peers of the
    bind are an instance.  A call is a sequence of iterations of its loop; other
    goroutines act between two iterations.  The reads of the clock in an iteration
    are arguments.  An endpoint is the position of its peer. *)

From stdpp Require Import base tactics list numbers gmap.
From S2P Require Import Prelude Float64 Reseq Frame BondTransport BindAdaptive.

Class Source (S : Type) := {
  tryPop : Time -> S -> outcome unit (S * option (reseq.Item * bool));
  armedDeadline : S -> option Time;
  batchDelay : Z -> Time -> S -> option Duration
}.

Module drain.
Import adaptive.

(** ** The peers of the bind *)
Record peer := mkPeer { padaptive : option adaptivePeer; presequencer : option reseq.Resequencer }.
#[export] Instance eta_peer : Eta peer := fun p => mkPeer (padaptive p) (presequencer p).

(** An interactive datagram first; a peer without a resequencer is skipped. *)
Definition popPeer (now : Time) (p : peer) : outcome unit (peer * option (reseq.Item * bool)) :=
  match presequencer p with
  | None => Ok (p, None)
  | Some rq =>
    let '(p, it) := match padaptive p with
                    | Some a => let '(a, it) := popInteractive a in (p <| padaptive := Some a |>, it)
                    | None => (p, None)
                    end in
    match it with
    | Some it => Ok (p, Some (it, true))
    | None =>
      match reseq.Pop now rq with
      | None => Panic
      | Some (rq, it) => Ok (p <| presequencer := Some rq |>, (fun it => (it, false)) <$> it)
      end
    end
  end.

#[export] Instance peer_source : Source peer := {
  tryPop := popPeer;
  armedDeadline p := presequencer p ≫= reseq.ArmedDeadline;
  batchDelay size now p := receiveBatchDelay size now <$> padaptive p
}.

(** ** The loop *)
Section Drainer.
Context {S : Type} {Src : Source S}.

(** A peer's source and its virtual endpoint's destination, once it has one. *)
Record bound := mkBound { source : S; virt : option AddrPort }.
#[export] Instance eta_bound : Eta bound := fun b => mkBound (source b) (virt b).

Definition virtualEndpoint (learned : AddrPort) (b : bound) : bound :=
  match virt b with Some _ => b | None => b <| virt := Some learned |> end.

Definition earliestResequencerDeadline (peers : list bound) (fallback : Time) : Time :=
  fold_left (fun earliest b => match armedDeadline (source b) with
                               | Some d => if d <? earliest then d else earliest
                               | None => earliest
                               end) peers fallback.

(** The clock's answers in an iteration: at the [i]-th peer of the scan, for the
    batch and its rate, and before parking. *)
Record reads := mkReads { at_pop : nat -> Time; at_batch : Time; at_rate : Time; at_park : Time; at_check : Time }.

(** One pass over the peers from the cursor; [k] are left. *)
Fixpoint scan (pt : nat -> Time) (rr i k : nat) (peers : list bound) :
    outcome unit (list bound * option (nat * (reseq.Item * bool))) :=
  match k with
  | O => Ok (peers, None)
  | Datatypes.S k =>
    let j := (rr + i) mod length peers in
    match peers !! j with
    | None => Panic
    | Some b =>
      '(s, it) ← tryPop (pt i) (source b);
      let peers := <[j := b <| source := s |>]> peers in
      match it with
      | Some it => Ok (peers, Some (i, it))
      | None => scan pt rr (Datatypes.S i) k peers
      end
    end
  end%nat.

(** The cursor and the peers, and of the current call the datagrams put in the
    engine's buffers with their endpoints, and how long the batch may wait. *)
Record state := mkState { peers : list bound; rr : nat; batch : list (list Z * nat); batchUntil : Time }.
#[export] Instance eta_state : Eta state := fun s => mkState (peers s) (rr s) (batch s) (batchUntil s).

Inductive action := Return (n : nat) | ReturnClosed | Again | Park (wakeAt : Time).

(** A call starts with nothing; the cursor stays. *)
Definition enter (s : state) : state := s <| batch := [] |> <| batchUntil := 0 |>.

(** A datagram of the peer at [j] was taken; [caps] are the sizes of the engine's
    buffers. *)
Definition accept (rd : reads) (caps : list nat) (j : nat) (it : reseq.Item) (interactive : bool) (s : state) :
    outcome unit (state * action) :=
  match caps !! length (batch s), peers s !! j with
  | Some cap, Some b =>
    if (cap <? length (reseq.Payload it))%nat then Ok (s, Again)
    else
      let s := s <| peers := <[j := virtualEndpoint (reseq.Src it) b]> (peers s) |> in
      let s := s <| batch := batch s ++ [(reseq.Payload it, j)] |> in
      let count := length (batch s) in
      if (count =? length caps)%nat || interactive then Ok (s, Return count)
      else
        let s := if (count =? 1)%nat
                 then match batchDelay (Z.of_nat (length (reseq.Payload it))) (at_rate rd) (source b) with
                      | Some d => s <| batchUntil := at_batch rd + d |>
                      | None => s
                      end
                 else s in
        Ok (s, Again)
  | _, _ => Panic
  end.

Definition iterate (rd : reads) (closed : bool) (caps : list nat) (s : state) : outcome unit (state * action) :=
  if closed then Ok (s, ReturnClosed)
  else
    let n := length (peers s) in
    '(ps, got) ← scan (at_pop rd) (rr s) 0 n (peers s);
    let s := s <| peers := ps |> in
    match got with
    | Some (i, (it, interactive)) =>
      let j := ((rr s + i) mod n)%nat in
      let s := s <| rr := ((rr s + i + 1) mod n)%nat |> in
      accept rd caps j it interactive s
    | None =>
      let wakeAt := earliestResequencerDeadline (peers s) (at_park rd + resequencerTimeout) in
      if (0 <? length (batch s))%nat then
        if is_zero_time (batchUntil s) || negb (at_check rd <? batchUntil s)
        then Ok (s, Return (length (batch s)))
        else Ok (s, Park (if batchUntil s <? wakeAt then batchUntil s else wakeAt))
      else Ok (s, Park wakeAt)
    end.

End Drainer.
#[global] Arguments bound : clear implicits.
#[global] Arguments state : clear implicits.
End drain.
