(* ===== verification/BindReceiveProps.v ===== *)
(** * What the drainer guarantees

    Proved against the interface of its sources: no peer is starved, a batch is
    what was taken, in order, and a parked drainer misses nothing.  The bind's
    peers meet the interface's laws by the resequencer's invariant. *)

From stdpp Require Import base tactics list numbers gmap.
From S2P Require Import Prelude Float64 Reseq ReseqTheory ReseqProps Frame BondTransport BindAdaptive BindReceive.

(** What the drainer relies on: taking never fails; once nothing is there,
    nothing appears by itself before the armed deadline, which lies ahead; and at
    the deadline something does. *)
Class SourceLaws (S : Type) {Src : Source S} := {
  src_ok : S -> Prop;
  tryPop_total : forall now s, src_ok s -> exists s' it, tryPop now s = Ok (s', it) /\ src_ok s';
  tryPop_quiet : forall t s s' now, src_ok s -> tryPop t s = Ok (s', None) ->
    (forall d, armedDeadline s' = Some d -> now < d) -> tryPop now s' = Ok (s', None);
  tryPop_ahead : forall t s s' d, src_ok s -> tryPop t s = Ok (s', None) -> armedDeadline s' = Some d -> t < d;
  tryPop_due : forall now s d, src_ok s -> armedDeadline s = Some d -> d <= now ->
    exists s' it, tryPop now s = Ok (s', Some it)
}.

Module drain_props.
Import adaptive drain.

(** ** The bind's peers are lawful sources *)
Definition peer_ok (p : peer) : Prop :=
  match presequencer p with
  | None => True
  | Some q => reseq_props.Inv q /\ exists popped, reseq_props.delivers popped q
  end.

Lemma Pop_total now q popped :
  reseq_props.Inv q -> reseq_props.delivers popped q ->
  exists q' it, reseq.Pop now q = Some (q', it) /\ reseq_props.Inv q' /\ (exists popped', reseq_props.delivers popped' q') /\
    (reseq.waiting q' = true -> now < reseq.deadline q').
Proof.
  intros I D. destruct (reseq_props.pop_ok now popped q I D) as (r1 & q' & it & E & _ & _ & I' & D' & W & _). eauto 10.
Qed.

(** Nothing was there: the hold is not due, and the FIFO is empty. *)
Lemma Pop_quiet t q q' now :
  reseq.Pop t q = Some (q', None) -> (reseq.waiting q' = true -> now < reseq.deadline q') -> reseq.Pop now q' = Some (q', None).
Proof.
  unfold reseq.Pop at 1. destruct (reseq.expire t q) as [r|]; [|done].
  destruct (reseq.ready r !! reseq.readyPos r) as [it|] eqn:E; [done|]. intros [= ->] Hw.
  unfold reseq.Pop, reseq.expire, reseq.expire_loop. destruct (reseq.waiting q'); [|by rewrite E].
  by rewrite (proj2 (Z.ltb_lt _ _)), E by auto.
Qed.

Lemma Pop_due now q :
  reseq_props.Inv q -> reseq.waiting q = true -> reseq.deadline q <= now -> exists q' it, reseq.Pop now q = Some (q', Some it).
Proof.
  intros I W Hd. destruct (reseq_props.expire_inv now q I) as (r1 & E & M & _).
  destruct (reseq_theory.expire_due now q (reseq_props.inv_stable _ I) W (reseq_props.inv_waiting _ I W) Hd) as (r2 & E2 & B).
  rewrite E in E2. injection E2 as <-. unfold reseq.Pop. rewrite E.
  destruct (reseq_theory.mv_log _ _ M) as (e & _ & R & _ & _ & _ & Eb & _).
  assert (Hp : (reseq.readyPos r1 <= length (reseq.ready q))%nat).
  { rewrite (reseq_theory.mv_readyPos _ _ M). apply (reseq_theory.sb_wf _ (reseq_props.inv_stable _ I)). }
  destruct (reseq.ready r1 !! reseq.readyPos r1) as [it|] eqn:El; [by eauto|].
  apply lookup_ge_None in El. rewrite R, length_app, length_map in El. lia.
Qed.

Lemma ArmedDeadline_Some q d : reseq.ArmedDeadline q = Some d <-> reseq.waiting q = true /\ d = reseq.deadline q.
Proof. unfold reseq.ArmedDeadline. destruct (reseq.waiting q); cbn; split; [by intros [= ->]|by intros [_ ->]|done|by intros []]. Qed.

(** The interactive queue, with the peer as it is when that is empty. *)
Lemma popPeer_spec now p q :
  presequencer p = Some q ->
  (exists a it l, padaptive p = Some a /\ interactive a = it :: l /\
     popPeer now p = Ok (p <| padaptive := Some (a <| interactive := l |>) |>, Some (it, true))) \/
  popPeer now p = match reseq.Pop now q with
                  | None => Panic
                  | Some (q, it) => Ok (p <| presequencer := Some q |>, (fun it => (it, false)) <$> it)
                  end.
Proof.
  intros E. unfold popPeer. rewrite E. destruct p as [[a|] rq]; cbn in *; [|by right]. unfold popInteractive.
  destruct (interactive a) as [|it l] eqn:Ei; [by right|left]. exists a, it, l. by rewrite Ei.
Qed.

#[export] Program Instance peer_laws : SourceLaws peer := { src_ok := peer_ok }.
Next Obligation.
  intros now p H. unfold peer_ok in H. cbn. destruct (presequencer p) as [q|] eqn:E.
  - destruct H as [I [popped D]]. destruct (popPeer_spec now p q E) as [(a & it & l & _ & _ & ->)| ->].
    + eexists _, _. split; [done|]. unfold peer_ok. cbn. rewrite E. eauto.
    + destruct (Pop_total now q popped I D) as (q' & it & -> & I' & D' & _). eexists _, _. split; [done|]. unfold peer_ok. cbn. eauto.
  - unfold popPeer. rewrite E. eexists _, _. split; [done|]. unfold peer_ok. by rewrite E.
Qed.
Next Obligation.
  intros t p p' now H E Hd. cbn in *. unfold peer_ok in H. destruct (presequencer p) as [q|] eqn:Eq.
  - unfold popPeer in E. rewrite Eq in E.
    assert (Hi : match padaptive p with Some a => interactive a = [] | None => True end).
    { destruct (padaptive p) as [a|]; [|done]. unfold popInteractive in E. by destruct (interactive a). }
    assert (E' : match reseq.Pop t q with None => Panic | Some (q, it) => Ok (p <| presequencer := Some q |>, (fun it => (it, false)) <$> it) end
                 = @Ok unit _ (p', None)).
    { destruct p as [[a|] rq]; cbn in *; [|done]. unfold popInteractive in E. by rewrite Hi in E. }
    clear E. destruct (reseq.Pop t q) as [[q' it]|] eqn:Ep; [|done]. destruct it; [done|]. injection E' as <-.
    cbn in Hd. assert (Hq : reseq.Pop now q' = Some (q', None)).
    { apply (Pop_quiet t q); [done|]. intros W. apply Hd. by apply ArmedDeadline_Some. }
    unfold popPeer. cbn. destruct (padaptive p) as [a|] eqn:Ea; [|by rewrite Hq]. unfold popInteractive. rewrite Hi, Hq.
    destruct p as [pa rq]. cbn in *. by subst pa.
  - unfold popPeer in E. rewrite Eq in E. injection E as <-. unfold popPeer. by rewrite Eq.
Qed.
Next Obligation.
  intros t p p' d H E Hd. cbn in *. unfold peer_ok in H. destruct (presequencer p) as [q|] eqn:Eq.
  - destruct H as [I [popped D]]. destruct (popPeer_spec t p q Eq) as [(a & it & l & _ & _ & E')|E']; rewrite E' in E; [done|].
    destruct (Pop_total t q popped I D) as (q' & it & Ep & _ & _ & W). rewrite Ep in E. destruct it; [done|]. injection E as <-.
    cbn in Hd. apply ArmedDeadline_Some in Hd as [Hw ->]. auto.
  - unfold popPeer in E. rewrite Eq in E. injection E as <-. by rewrite Eq in Hd.
Qed.
Next Obligation.
  intros now p d H Hd Hle. cbn in *. unfold peer_ok in H. destruct (presequencer p) as [q|] eqn:Eq; [|done].
  destruct H as [I _]. cbn in Hd. apply ArmedDeadline_Some in Hd as [Hw ->].
  destruct (popPeer_spec now p q Eq) as [(a & it & l & _ & _ & ->)| ->]; [by eauto|].
  destruct (Pop_due now q I Hw Hle) as (q' & it & ->). by eauto.
Qed.

(** ** The scan *)
Lemma mod_inj n rr a b : (a < n -> b < n -> (rr + a) mod n = (rr + b) mod n -> a = b)%nat.
Proof.
  intros Ha Hb E. pose proof (Nat.div_mod_eq (rr + a) n). pose proof (Nat.div_mod_eq (rr + b) n).
  rewrite E in *. assert ((rr + a) / n = (rr + b) / n)%nat by nia. nia.
Qed.
Lemma mod_onto n rr j : (j < n -> exists d, d < n /\ (rr + d) mod n = j)%nat.
Proof.
  intros Hj. exists ((j + (n - rr mod n)) mod n)%nat. pose proof (Nat.mod_upper_bound rr n ltac:(lia)).
  split; [apply Nat.mod_upper_bound; lia|]. rewrite Nat.Div0.add_mod_idemp_r.
  rewrite <- Nat.Div0.add_mod_idemp_l. replace (rr mod n + (j + (n - rr mod n)))%nat with (j + 1 * n)%nat by lia.
  rewrite Nat.Div0.mod_add. by apply Nat.mod_small.
Qed.

Section Drainer.
Context {S : Type} {Src : Source S}.
#[local] Abbreviation bound := (bound S).
#[local] Abbreviation state := (state S).

Lemma scan_length pt rr i k (ps ps' : list bound) got : scan pt rr i k ps = Ok (ps', got) -> length ps' = length ps.
Proof.
  revert i ps. induction k as [|k IH]; intros i ps; cbn [scan]; [by intros [= <- _]|].
  destruct (ps !! _) as [b|]; [|done]. destruct (tryPop (pt i) (source b)) as [[s it]|e|]; [|done|done]. cbn [mbind outcome_bind].
  destruct it as [it|]; [intros [= <- _]; by rewrite length_insert|]. intros E%IH. by rewrite length_insert in E.
Qed.

(** A peer that is ready is reached unless another is served before it. *)
Lemma scan_ready pt rr i k d (ps ps' : list bound) got b s it :
  (i <= d < i + k -> i + k <= length ps)%nat -> (i <= d < i + k)%nat ->
  ps !! ((rr + d) mod length ps)%nat = Some b -> tryPop (pt d) (source b) = Ok (s, Some it) ->
  scan pt rr i k ps = Ok (ps', got) -> exists m x, got = Some (m, x) /\ (i <= m <= d)%nat.
Proof.
  revert i ps. induction k as [|k IH]; intros i ps Hn Hd Hb Hp; [lia|]. specialize (Hn Hd). cbn [scan].
  destruct (decide (i = d)) as [->|Hne].
  - rewrite Hb, Hp. cbn [mbind outcome_bind]. intros [= _ <-]. eexists _, _. split; [done|lia].
  - assert (Hj : ((rr + i) mod length ps <> (rr + d) mod length ps)%nat) by (intros E; apply mod_inj in E; lia).
    destruct (ps !! ((rr + i) mod length ps)%nat) as [b'|]; [|done].
    destruct (tryPop (pt i) (source b')) as [[s' it']|e|]; [|done|done]. cbn [mbind outcome_bind].
    destruct it' as [it'|]; [intros [= _ <-]; eexists _, _; split; [done|lia]|]. intros E.
    destruct (IH (Datatypes.S i) (<[((rr + i) mod length ps)%nat := b' <| source := s' |>]> ps)) as (m & x & -> & Hm); try done.
    + rewrite length_insert. lia.
    + lia.
    + rewrite length_insert, list_lookup_insert_ne by done. exact Hb.
    + eexists _, _. split; [done|lia].
Qed.

(** A scan that found nothing asked every peer, each at its time. *)
Lemma scan_none pt rr i k (ps ps' : list bound) :
  (i + k <= length ps)%nat -> scan pt rr i k ps = Ok (ps', None) ->
  (forall m, (i <= m < i + k)%nat -> exists b s, ps !! ((rr + m) mod length ps)%nat = Some b /\
     tryPop (pt m) (source b) = Ok (s, None) /\ ps' !! ((rr + m) mod length ps)%nat = Some (b <| source := s |>)) /\
  (forall j, (forall m, (i <= m < i + k)%nat -> j <> ((rr + m) mod length ps)%nat) -> ps' !! j = ps !! j).
Proof.
  revert i ps. induction k as [|k IH]; intros i ps Hn; cbn [scan].
  { intros [= <-]. split; [intros; lia|done]. }
  set (n := length ps) in *. destruct (ps !! ((rr + i) mod n)%nat) as [b|] eqn:Eb; [|done].
  destruct (tryPop (pt i) (source b)) as [[s it]|e|] eqn:Ep; [|done|done]. cbn [mbind outcome_bind].
  destruct it as [it|]; [done|]. intros E. pose proof (fun H => IH (Datatypes.S i) _ H E) as [A B]; [rewrite length_insert; lia|].
  rewrite length_insert in A, B. fold n in A, B.
  assert (Hj : forall m, (Datatypes.S i <= m < Datatypes.S i + k)%nat -> ((rr + i) mod n <> (rr + m) mod n)%nat)
    by (intros m Hm Em; apply mod_inj in Em; lia).
  assert (Hi : ((rr + i) mod n < n)%nat) by (apply Nat.mod_upper_bound; lia).
  split.
  - intros m Hm. destruct (decide (m = i)) as [->|Hne].
    + exists b, s. split_and!; [done|done|]. rewrite (B _ Hj), list_lookup_insert_eq; done.
    + destruct (A m ltac:(lia)) as (b1 & s1 & A1 & A2 & A3). exists b1, s1. split_and!; [|done|done].
      rewrite list_lookup_insert_ne in A1 by (apply Hj; lia). done.
  - intros j Hm. rewrite B by (intros m ?; apply Hm; lia). rewrite list_lookup_insert_ne; [done|]. intros Ej. by apply (Hm i); [lia|].
Qed.

Lemma scan_all pt rr (ps ps' : list bound) :
  scan pt rr 0 (length ps) ps = Ok (ps', None) ->
  forall j b', ps' !! j = Some b' -> exists m b s, ps !! j = Some b /\ tryPop (pt m) (source b) = Ok (s, None) /\ b' = b <| source := s |>.
Proof.
  intros E j b' Hj. pose proof (scan_length _ _ _ _ _ _ _ E) as El. pose proof (lookup_lt_Some _ _ _ Hj) as Hlt. rewrite El in Hlt.
  destruct (scan_none pt rr 0 (length ps) ps ps' ltac:(lia) E) as [A _].
  destruct (mod_onto (length ps) rr j Hlt) as (m & Hm & Em). destruct (A m ltac:(lia)) as (b & s & A1 & A2 & A3).
  rewrite Em in *. exists m, b, s. split_and!; [done|done|congruence].
Qed.

Lemma accept_cursor rd caps j it x (s s' : state) act :
  accept rd caps j it x s = Ok (s', act) -> rr s' = rr s /\ length (peers s') = length (peers s).
Proof.
  unfold accept. destruct (caps !! _) as [cap|]; [|done]. destruct (peers s !! j) as [b|]; [|done].
  destruct (_ <? _)%nat; [by intros [= <- _]|]. destruct (_ || _); [intros [= <- _]; cbn; by rewrite length_insert|].
  destruct (_ =? 1)%nat; [destruct (batchDelay _ _ _)|]; intros [= <- _]; cbn; by rewrite length_insert.
Qed.

(** Which peer an iteration serves, with what it took. *)
Definition taken (rd : reads) (s : state) : option (nat * (reseq.Item * bool)) :=
  match scan (at_pop rd) (rr s) 0 (length (peers s)) (peers s) with
  | Ok (_, Some (i, x)) => Some (((rr s + i) mod length (peers s))%nat, x)
  | _ => None
  end.

Lemma iterate_cursor rd caps (s s' : state) act :
  iterate rd false caps s = Ok (s', act) ->
  exists ps got, scan (at_pop rd) (rr s) 0 (length (peers s)) (peers s) = Ok (ps, got) /\
    length (peers s') = length (peers s) /\
    rr s' = match got with Some (i, _) => ((rr s + i + 1) mod length (peers s))%nat | None => rr s end.
Proof.
  unfold iterate. destruct (scan _ _ _ _ _) as [[ps got]|e|] eqn:E; [|done|done]. cbn [mbind outcome_bind].
  pose proof (scan_length _ _ _ _ _ _ _ E) as El. intros H. exists ps, got. split; [done|].
  destruct got as [[i [it x]]|].
  - apply accept_cursor in H as [H1 H2]. cbn in H1, H2. rewrite H2. by split.
  - destruct (_ <? _)%nat; [destruct (_ || _)|]; injection H as <- _; by cbn.
Qed.

(** Iterations with anything happening between them (the calls of the engine
    among it), while the peer at [j] has something at every iteration. *)
Definition ready (j : nat) (rd : reads) (s : state) : Prop :=
  exists b, peers s !! j = Some b /\ forall i, exists s' it, tryPop (at_pop rd i) (source b) = Ok (s', Some it).

Inductive drains (j : nat) (n : nat) : state -> list (option nat) -> Prop :=
  | drains_nil s : drains j n s []
  | drains_env s s' l : rr s' = rr s -> length (peers s') = n -> drains j n s' l -> drains j n s l
  | drains_iter s rd caps s' act l :
      length (peers s) = n -> ready j rd s -> iterate rd false caps s = Ok (s', act) ->
      drains j n s' l -> drains j n s ((fst <$> taken rd s) :: l).

Lemma drains_reach j n s l d :
  drains j n s l -> (d < n)%nat -> ((rr s + d) mod n)%nat = j -> (d < length l)%nat -> Some j ∈ l.
Proof.
  intros H. revert d. induction H as [s|s s' l Er _ _ IH|s rd caps s' act l Hn Hr Hi _ IH]; intros d Hd Hj Hl.
  - cbn in Hl. lia.
  - apply (IH d); [done|by rewrite Er|done].
  - destruct (iterate_cursor rd caps s s' act Hi) as (ps & got & E & El & Ec). destruct Hr as (b & Hb & Hp).
    destruct (Hp d) as (s1 & it & Hpd).
    destruct (scan_ready (at_pop rd) (rr s) 0 (length (peers s)) d (peers s) ps got b s1 it) as (m & x & -> & Hm); try done; [lia..| |].
    { rewrite Hn, Hj. done. }
    assert (Et : taken rd s = Some (((rr s + m) mod n)%nat, x)) by (unfold taken; by rewrite E, Hn).
    rewrite Et. cbn [fmap option_fmap option_map fst]. destruct (decide (m = d)) as [->|Hne].
    + rewrite Hj. by left.
    + right. apply (IH (d - m - 1)%nat); [lia| |cbn in Hl; lia]. rewrite Ec, Hn, Nat.Div0.add_mod_idemp_l, <- Hj. f_equal. lia.
Qed.

(** ** A batch *)

(** The reference: each datagram goes to the next buffer it fits in, and one too
    big for its buffer is dropped. *)
Fixpoint keep (caps : list nat) (l : list (nat * (reseq.Item * bool))) : list (list Z * nat) :=
  match l with
  | [] => []
  | (j, (it, _)) :: l =>
    match caps with
    | [] => []
    | c :: caps' => if (c <? length (reseq.Payload it))%nat then keep caps l else (reseq.Payload it, j) :: keep caps' l
    end
  end.

(** The iterations of one call, with what they took; between them the others
    change the peers. *)
Inductive calling (caps : list nat) : state -> list (nat * (reseq.Item * bool)) -> state -> action -> Prop :=
  | calling_last s rd closed s' act :
      iterate rd closed caps s = Ok (s', act) -> (forall w, act <> Park w) -> act <> Again ->
      calling caps s (if closed then [] else option_list (taken rd s)) s' act
  | calling_more s rd s1 act s2 l s' act' :
      iterate rd false caps s = Ok (s1, act) -> (act = Again \/ exists w, act = Park w) ->
      rr s2 = rr s1 -> batch s2 = batch s1 -> batchUntil s2 = batchUntil s1 ->
      calling caps s2 l s' act' -> calling caps s (option_list (taken rd s) ++ l) s' act'.

Definition is_interactive (x : nat * (reseq.Item * bool)) : bool := x.2.2.
Definition fits (x : list Z * nat) (c : nat) : Prop := (length x.1 <= c)%nat.

(** One datagram, and one iteration, in the terms of the reference. *)
Lemma accept_batch rd caps j it x (s s' : state) act :
  (length (batch s) < length caps)%nat -> accept rd caps j it x s = Ok (s', act) ->
  batch s' = batch s ++ keep (drop (length (batch s)) caps) [(j, (it, x))] /\ (length (batch s') <= length caps)%nat /\
  match act with
  | Return n => n = length (batch s') /\ (1 <= n)%nat
  | Again => (length (batch s') < length caps)%nat /\ (x = true -> batch s' = batch s)
  | _ => False
  end.
Proof.
  intros Hl. unfold accept. destruct (lookup_lt_is_Some_2 caps (length (batch s)) Hl) as [cap Hc]. rewrite Hc.
  destruct (peers s !! j) as [b|]; [|done]. rewrite (drop_S _ _ _ Hc). cbn [keep].
  destruct (Nat.ltb_spec cap (length (reseq.Payload it))) as [Hb|Hb].
  { intros [= <- <-]. rewrite app_nil_r. split_and!; [done|lia|lia|done]. }
  set (s1 := _ <| batch := _ |>). assert (E1 : batch s1 = batch s ++ [(reseq.Payload it, j)]) by done.
  assert (L1 : length (batch s1) = Datatypes.S (length (batch s))) by (rewrite E1, length_app; cbn; lia). clearbody s1.
  destruct (Nat.eqb_spec (length (batch s1)) (length caps)) as [Ef|Ef]; cbn [orb].
  { intros [= <- <-]. split_and!; [exact E1|lia|done|lia]. }
  destruct x; [intros [= <- <-]; split_and!; [exact E1|lia|done|lia]|].
  set (s2 := if (_ =? 1)%nat then _ else s1).
  assert (E2 : batch s2 = batch s1) by (unfold s2; destruct (_ =? 1)%nat; [destruct (batchDelay _ _ _)|]; done).
  clearbody s2. intros [= <- <-]. rewrite E2. split_and!; [exact E1|lia|lia|done].
Qed.

Lemma iterate_batch rd caps (s s' : state) act :
  (length (batch s) < length caps)%nat -> iterate rd false caps s = Ok (s', act) ->
  batch s' = batch s ++ keep (drop (length (batch s)) caps) (option_list (taken rd s)) /\
  (length (batch s') <= length caps)%nat /\
  match act with
  | Return n => n = length (batch s') /\ (1 <= n)%nat
  | ReturnClosed => False
  | Again => (length (batch s') < length caps)%nat /\ (forall x, taken rd s = Some x -> is_interactive x = true -> batch s' = batch s)
  | Park _ => batch s' = batch s /\ taken rd s = None
  end.
Proof.
  intros Hl. unfold iterate, taken. destruct (scan _ _ _ _ _) as [[ps got]|e|] eqn:E; [|done|done]. cbn [mbind outcome_bind].
  destruct got as [[i [it x]]|].
  - intros H. apply accept_batch in H as (H1 & H2 & H3); [|exact Hl]. split; [exact H1|]. split; [exact H2|].
    destruct act; try done. destruct H3 as [H3 H4]. split; [done|]. intros y [= <-]. exact H4.
  - cbn [option_list from_option]. rewrite app_nil_r. cbn [batch update].
    destruct (Nat.ltb_spec 0 (length (batch s))) as [Hp|Hp].
    + destruct (_ || _); intros [= <- <-]; cbn [batch update]; split_and!; try done; lia.
    + intros [= <- <-]. cbn [batch update]. split_and!; try done; lia.
Qed.

Lemma keep_app caps a b : keep caps (a ++ b) = keep caps a ++ keep (drop (length (keep caps a)) caps) b.
Proof.
  revert caps. induction a as [|[j [it x]] a IH]; intros caps; cbn [app keep]; [done|].
  destruct caps as [|c caps]; [by destruct b as [|[? []]]|]. destruct (_ <? _)%nat; [apply IH|]. cbn. by rewrite IH.
Qed.
Lemma keep_fits caps l : exists cs, Forall2 fits (keep caps l) cs /\ exists rest, caps = cs ++ rest.
Proof.
  revert caps. induction l as [|[j [it x]] l IH]; intros caps; cbn [keep]; [exists []; split; [constructor|by exists caps]|].
  destruct caps as [|c caps]; [exists []; split; [constructor|by exists []]|].
  destruct (Nat.ltb_spec c (length (reseq.Payload it))) as [|Hle]; [apply IH|].
  destruct (IH caps) as (cs & F & rest & ->). exists (c :: cs). split; [by constructor|by exists rest].
Qed.

Lemma calling_spec caps s l s' act :
  calling caps s l s' act -> (length (batch s) < length caps)%nat ->
  let room := drop (length (batch s)) caps in
  batch s' = batch s ++ keep room l /\
  match act with Return n => n = length (batch s') /\ (1 <= n <= length caps)%nat | ReturnClosed => True | _ => False end /\
  forall l1 x l2, l = l1 ++ x :: l2 -> is_interactive x = true -> l2 = [] \/ keep room (l1 ++ [x]) = keep room l1.
Proof.
  induction 1 as [s rd closed s' act Hi Hp Ha|s rd s1 act s2 l s' act' Hi Ha _ Eb _ _ IH]; intros Hl; cbv zeta.
  - destruct closed.
    { unfold iterate in Hi. injection Hi as <- <-. rewrite app_nil_r. split_and!; [done|done|]. intros [|? ?] x l2; discriminate. }
    destruct (iterate_batch rd caps s s' act Hl Hi) as (H1 & H2 & H3). split_and!; [done| |].
    + destruct act as [m| | |w]; [destruct H3 as [-> H3]; lia|done|by destruct Ha|by destruct (Hp w)].
    + intros l1 x l2 E _. destruct (taken rd s) as [y|]; cbn in E; destruct l1 as [|? l1]; try done.
      * injection E as _ <-. by left.
      * injection E as _ E. by destruct l1.
  - destruct (iterate_batch rd caps s s1 act Hl Hi) as (H1 & _ & H3).
    assert (L1 : (length (batch s1) < length caps)%nat) by (destruct Ha as [->|[w ->]]; [apply H3|destruct H3 as [-> _]; done]).
    rewrite Eb in IH. destruct (IH L1) as (I1 & I2 & I3). cbv zeta in *. set (room := drop (length (batch s)) caps) in *.
    assert (Er : drop (length (keep room (option_list (taken rd s)))) room = drop (length (batch s1)) caps).
    { unfold room. rewrite drop_drop, H1, length_app. done. }
    split_and!; [rewrite keep_app, Er, app_assoc, <- H1; exact I1|done|].
    intros l1 x l2 E Hx. destruct (taken rd s) as [y|] eqn:Et; cbn [option_list from_option app] in E.
    2: { destruct (I3 l1 x l2 E Hx) as [|K]; [by left|]. right. cbn in Er. rewrite drop_0 in Er. by rewrite Er. }
    destruct l1 as [|z l1].
    + injection E as <- <-. destruct Ha as [->|[w ->]]; [|by destruct H3]. destruct H3 as [_ H3].
      specialize (H3 _ eq_refl Hx). right. cbn [app]. rewrite H3 in H1. rewrite <- (app_nil_r (batch s)) in H1 at 1.
      apply app_inv_head in H1. exact (eq_sym H1).
    + injection E as <- E. destruct (I3 l1 x l2 E Hx) as [|K]; [by left|]. right.
      change ((y :: l1) ++ [x]) with ([y] ++ (l1 ++ [x])). change (y :: l1) with ([y] ++ l1). rewrite !(keep_app room [y]).
      change (option_list (Some y)) with [y] in Er. rewrite Er. by rewrite K.
Qed.
End Drainer.

(** ** What is guaranteed *)

(** C26. No peer is starved.  Whatever the other peers hold, however fast it
    arrives, and wherever the engine's calls start and end: of any as many
    consecutive passes of the drainer as there are peers, one serves the peer
    that has something to hand out at each of them. *)
Theorem drainer_fair {S} {Src : Source S} j n (s : state S) l :
  (j < n)%nat -> drains j n s l -> (n <= length l)%nat -> Some j ∈ l.
Proof.
  intros Hj H Hl. destruct (mod_onto n (rr s) j Hj) as (d & Hd & Ed). apply (drains_reach j n s l d H Hd Ed). lia.
Qed.

(** A batch is what was taken.  A call that returns [n] hands the engine, in
    the order taken and each with the endpoint of the peer it was taken from,
    the datagrams of its passes less those too big for the buffer they would go
    to; every one fits its buffer, [n] is their number, at least one and at most
    the number of buffers; and a kept interactive datagram is the last. *)
Theorem drain_batch {S} {Src : Source S} caps (s : state S) l s' n :
  caps <> [] -> calling caps (enter s) l s' (Return n) ->
  batch s' = keep caps l /\ n = length (batch s') /\ (1 <= n <= length caps)%nat /\
  (exists cs rest, Forall2 fits (batch s') cs /\ caps = cs ++ rest) /\
  forall l1 x l2, l = l1 ++ x :: l2 -> is_interactive x = true -> l2 = [] \/ keep caps (l1 ++ [x]) = keep caps l1.
Proof.
  intros Hc H. apply calling_spec in H as (H1 & H2 & H3); [|destruct caps; [done|cbn; lia]]. cbn in H1, H3. rewrite drop_0 in *.
  split_and!; [done|apply H2|apply H2|apply H2| |done].
  rewrite H1. destruct (keep_fits caps l) as (cs & F & rest & ->). by exists cs, rest.
Qed.

Lemma earliest_le {S} {Src : Source S} (ps : list (bound S)) fb :
  earliestResequencerDeadline ps fb <= fb /\
  forall b d, b ∈ ps -> armedDeadline (source b) = Some d -> earliestResequencerDeadline ps fb <= d.
Proof.
  unfold earliestResequencerDeadline. revert fb. induction ps as [|p ps IH]; intros fb; cbn [fold_left].
  { split; [lia|]. by intros b d ?%elem_of_nil. }
  match goal with |- context [fold_left _ ps ?x] => set (fb' := x) end.
  assert (H : fb' <= fb /\ forall d, armedDeadline (source p) = Some d -> fb' <= d).
  { unfold fb'. destruct (armedDeadline (source p)) as [d|]; [|split; [lia|done]].
    destruct (Z.ltb_spec d fb); (split; [lia|]); intros e [= <-]; lia. }
  destruct (IH fb') as [I1 I2]. destruct H as [H1 H2]. split; [lia|]. intros b d [->|Hb]%elem_of_cons Hd.
  - specialize (H2 d Hd). lia.
  - by apply (I2 b d).
Qed.

(** C25. A parked drainer misses nothing.  When the drainer parks until [w],
    then as long as no datagram arrives no peer has anything to hand out at any
    time before [w]; [w] is no later than any armed deadline, the poll's period,
    or the end of the batch that waits; an armed deadline lay ahead when its peer
    was asked, and from the deadline on the peer has something. *)
Theorem park_misses_nothing {S} {Src : Source S} {Laws : SourceLaws S} rd closed caps (s s' : state S) w :
  Forall (fun b => src_ok (source b)) (peers s) -> iterate rd closed caps s = Ok (s', Park w) ->
  w <= at_park rd + resequencerTimeout /\ (batch s' <> [] -> w <= batchUntil s') /\
  forall b, b ∈ peers s' ->
    (forall now, now < w -> tryPop now (source b) = Ok (source b, None)) /\
    forall d, armedDeadline (source b) = Some d ->
      w <= d /\ (exists i, at_pop rd i < d) /\ forall now, d <= now -> exists x it, tryPop now (source b) = Ok (x, Some it).
Proof.
  intros F. unfold iterate. destruct closed; [done|]. destruct (scan _ _ _ _ _) as [[ps got]|e|] eqn:E; [|done|done].
  cbn [mbind outcome_bind]. destruct got as [[i [it x]]|].
  { unfold accept. destruct (caps !! _); [|done]. destruct (peers _ !! _); [|done]. destruct (_ <? _)%nat; [done|].
    by destruct (_ || _). }
  intros H. destruct (earliest_le ps (at_park rd + resequencerTimeout)) as [L1 L2].
  set (f := earliestResequencerDeadline ps (at_park rd + resequencerTimeout)) in *.
  assert (Hw : peers s' = ps /\ w <= f /\ (batch s' <> [] -> w <= batchUntil s')).
  { cbn [peers batch batchUntil update] in H. fold f in H. clearbody f.
    destruct (Nat.ltb_spec 0 (length (batch s))) as [Hp|Hp].
    - destruct (_ || _); [done|]. injection H as <- <-. cbn. destruct (Z.ltb_spec (batchUntil s) f); (split; [done|split; [lia|intros _; lia]]).
    - injection H as <- <-. cbn. split_and!; [done|lia|]. intros Hne. destruct (batch s); [done|cbn in Hp; lia]. }
  destruct Hw as (Ep & Hwf & Hb). clear H. split_and!; [lia|done|]. rewrite Ep. intros b Hin.
  apply list_elem_of_lookup in Hin as [j Hj]. pose proof (list_elem_of_lookup_2 _ _ _ Hj) as Hin.
  destruct (scan_all _ _ _ _ E j b Hj) as (m & b0 & s0 & Hb0 & Ht & ->). cbn [source update].
  pose proof (proj1 (Forall_lookup _ _) F j b0 Hb0) as Hok.
  assert (Hok' : src_ok s0).
  { destruct (tryPop_total (at_pop rd m) (source b0) Hok) as (x & it & Ex & Hx). congruence. }
  split.
  - intros now Hn. apply (tryPop_quiet (at_pop rd m) (source b0)); [done|done|]. intros d Hd. specialize (L2 _ d Hin Hd). lia.
  - intros d Hd. split; [specialize (L2 _ d Hin Hd); lia|]. split.
    + exists m. by apply (tryPop_ahead (at_pop rd m) (source b0) s0).
    + intros now Hn. by apply (tryPop_due now s0 d).
Qed.

(** ** Two peers with datagrams, and one that holds a gap *)
Definition addrW : AddrPort := mkAddrPort [192; 0; 2; 1] [] 51820.
Definition rqOps (ops : list reseq_props.op) : reseq.Resequencer :=
  match reseq.New 8 100 with
  | Some r => match reseq_props.run ops r with Some (r, _, _) => r | None => r end
  | None => reseq.mkResequencer 0 0 false 0 [] 0 [] 0 [] 0 false 0 0 0 [] 0 0 0 0 0 0 0 0 0 0 0 0 0 0 0 0 false false 0 0 []
  end.
(** Two datagrams ready. *)
Definition rqFull : reseq.Resequencer :=
  rqOps [reseq_props.OObserve 10 1 [1; 1] addrW; reseq_props.OObserve 10 2 [2] addrW].
(** One datagram held for a gap since time 20. *)
Definition rqHeld : reseq.Resequencer :=
  rqOps [reseq_props.OObserve 10 1 [1; 1] addrW; reseq_props.OObserve 20 3 [2] addrW; reseq_props.OPop 30].
Definition busy : bound peer := mkBound (mkPeer None (Some rqFull)) None.
Definition holding : bound peer := mkBound (mkPeer None (Some rqHeld)) None.
Definition readsW : reads := mkReads (fun _ => 40) 40 40 40 40.
Definition s0 : state peer := mkState [busy; busy] 0 [] 0.
Definition next_state (caps : list nat) (s : state peer) : state peer :=
  match iterate readsW false caps s with Ok (s, _) => s | _ => s end.
Definition s1 : state peer := next_state [10; 10]%nat s0.
Definition s2 : state peer := next_state [10; 10]%nat s1.

Lemma readyW s : peers s !! 1%nat = Some busy -> ready 1 readsW s.
Proof. intros H. exists busy. split; [done|]. intros i. eexists _, _. cbn [at_pop readsW]. vm_compute. reflexivity. Qed.

Lemma drainer_fair_witness :
  drains 1 2 s0 [Some 0%nat; Some 1%nat] /\ Some 1%nat ∈ [Some 0%nat; Some 1%nat].
Proof.
  assert (D : drains 1 2 s0 [Some 0%nat; Some 1%nat]).
  { assert (E : [Some 0%nat; Some 1%nat] = [fst <$> taken readsW s0; fst <$> taken readsW s1]) by (vm_compute; reflexivity).
    rewrite E. apply (drains_iter 1 2 s0 readsW [10; 10]%nat s1 Again); [reflexivity|by apply readyW|vm_compute; reflexivity|].
    apply (drains_iter 1 2 s1 readsW [10; 10]%nat s2 (Return 2)); [reflexivity|apply readyW; vm_compute; reflexivity|vm_compute; reflexivity|].
    constructor. }
  split; [exact D|]. exact (drainer_fair 1 2 s0 _ ltac:(lia) D ltac:(cbn; lia)).
Defined.

Definition takenW : list (nat * (reseq.Item * bool)) :=
  [(0%nat, (reseq.mkItem [1; 1] addrW, false)); (1%nat, (reseq.mkItem [1; 1] addrW, false))].
Lemma callW : calling [10; 10]%nat (enter s0) takenW s2 (Return 2).
Proof.
  assert (E : takenW = option_list (taken readsW (enter s0)) ++ option_list (taken readsW s1)) by (vm_compute; reflexivity).
  rewrite E. apply (calling_more [10; 10]%nat (enter s0) readsW s1 Again s1 (option_list (taken readsW s1)) s2 (Return 2));
    [vm_compute; reflexivity|by left|done|done|done|].
  apply (calling_last [10; 10]%nat s1 readsW false s2 (Return 2)); [vm_compute; reflexivity|done|done].
Qed.
Lemma drain_batch_witness :
  batch s2 = [([1; 1], 0%nat); ([1; 1], 1%nat)] /\
  (batch s2 = keep [10; 10]%nat takenW /\ 2%nat = length (batch s2) /\ (1 <= 2 <= 2)%nat /\
   (exists cs rest, Forall2 fits (batch s2) cs /\ [10; 10]%nat = cs ++ rest) /\
   forall l1 x l2, takenW = l1 ++ x :: l2 -> is_interactive x = true -> l2 = [] \/ keep [10; 10]%nat (l1 ++ [x]) = keep [10; 10]%nat l1).
Proof.
  split; [vm_compute; reflexivity|]. exact (drain_batch [10; 10]%nat s0 takenW s2 2 ltac:(done) callW).
Defined.

Definition sh : state peer := mkState [holding] 0 [] 0.
Lemma heldW_ok : peer_ok (source holding).
Proof.
  destruct (reseq_props.new_session 8 100 ltac:(lia)) as (r0 & E & _ & S).
  destruct (reseq_props.run_session
    [reseq_props.OObserve 10 1 [1; 1] addrW; reseq_props.OObserve 20 3 [2] addrW; reseq_props.OPop 30] r0 [] [])
    as (r & a & p & R & _ & S'); [repeat constructor; unfold reseq_theory.seq_bound; cbn; lia|done|].
  unfold peer_ok, holding, rqHeld, rqOps. cbn [source presequencer]. rewrite E, R.
  split; [apply S'|]. eexists. apply S'.
Qed.
Definition sh' : state peer := next_state [10; 10]%nat sh.
Lemma parkW : iterate readsW false [10; 10]%nat sh = Ok (sh', Park 120).
Proof. vm_compute. reflexivity. Qed.
Lemma deadlineW b : b ∈ peers sh' -> armedDeadline (source b) = Some 120.
Proof.
  assert (E : map (fun b => armedDeadline (source b)) (peers sh') = [Some 120]) by (vm_compute; reflexivity).
  intros Hb. assert (Hin : armedDeadline (source b) ∈ [Some 120]) 
    by (rewrite <- E; apply list_elem_of_fmap; exists b; split; [reflexivity|exact Hb]).
  apply list_elem_of_singleton in Hin. exact Hin.
Qed.

Lemma park_misses_nothing_witness :
  iterate readsW false [10; 10]%nat sh = Ok (sh', Park 120) /\
  forall b, b ∈ peers sh' ->
    (forall now, now < 120 -> popPeer now (source b) = Ok (source b, None)) /\
    forall now, 120 <= now -> exists x it, popPeer now (source b) = Ok (x, Some it).
Proof.
  split; [exact parkW|].
  assert (F : Forall (fun b => src_ok (source b)) (peers sh)) by (apply Forall_singleton; exact heldW_ok).
  pose proof (@park_misses_nothing peer peer_source peer_laws readsW false [10; 10]%nat sh sh' 120 F parkW) as (_ & _ & H).
  pose proof deadlineW as Hd. revert H Hd. generalize sh'. intros s' H Hd b Hb. destruct (H b Hb) as [H1 H2].
  split; [exact H1|]. exact (proj2 (proj2 (H2 120 (Hd b Hb)))).
Defined.

End drain_props.
