(* ===== verification/BindInbound.v ===== *)
(** * Dispatching what arrives ([internal/bind]: multipath.go, probe.go)

    One peer of the bind and what its readers do with a decoded frame: a control
    frame goes to the peer's transport, an echo to the path's prober, a probe is
    reflected; hellos bring lanes up.  With it the cadence that emits probes, the
    liveness sweep of the receive path, and sending.

    A reader holds no lock across a dispatch, only inside the objects it calls.
    A dispatch is therefore a [task]: the frame, where it came from, and how far
    it got ([phase]); [step] does what the code does up to the next point where
    another goroutine can act.  [dispatchInbound] runs a task to its end.

    Views are kept by path id; a removed one stays, retired, as long as a reader
    may hold it.  The latch [everUp], the count of calls of its callback and the
    sweep's words are the bind's own. *)

From stdpp Require Import base tactics list numbers gmap.
From S2P Require Import Prelude Sha256 Float64 Reseq Frame Telemetry Probe Pmtu BondWire BondQueue BondLane BondTransport BindRemote BindAdaptive.

Module inbound.
#[local] Existing Instances probe.ProbeAcceptance_eq_dec telemetry.PathState_eq_dec.
Import pmtu adaptive.

(** [prober] and [pmtuProbe] of a view: the awaiter is built around the prober,
    and only when there is one. *)
Record view := mkView {
  vtable : remote.table;
  vslots : remote.slots;
  vprobe : option pmtu.EchoAwaitProbe;
  vretired : bool;
  rxBytes : Z;
  txBytes : Z;
  probeSendErrors : Z
}.
#[export] Instance eta_view : Eta view := fun v =>
  mkView (vtable v) (vslots v) (vprobe v) (vretired v) (rxBytes v) (txBytes v) (probeSendErrors v).

Record peer := mkPeer {
  views : gmap Z view;
  transportOf : option adaptivePeer;
  resequencer : option reseq.Resequencer;
  reflector : probe.Reflector;
  everUp : bool;
  firstUp : Z;
  sweepIntervalNanos : Z;
  lastSweepNanos : Z
}.
#[export] Instance eta_peer : Eta peer := fun b =>
  mkPeer (views b) (transportOf b) (resequencer b) (reflector b) (everUp b) (firstUp b)
    (sweepIntervalNanos b) (lastSweepNanos b).

Definition onView (id : Z) (f : view -> view) (b : peer) : peer := b <| views := alter f id (views b) |>.
Definition onProber (f : probe.Prober -> probe.Prober) (v : view) : view :=
  v <| vprobe := (fun e => e <| pmtu.prober := f (pmtu.prober e) |>) <$> vprobe v |>.

Inductive phase :=
  | Arrived (f : frame.Frame)
  | Echoed (seq : Z)
  | EchoLearn (payload : list Z) (seq : Z)
  | Notify (seq : Z)
  | CheckUp
  | Latch
  | Probed
  | ProbeLearn (a : probe.AcceptedProbe)
  | Reply (a : probe.AcceptedProbe) (payload : list Z).

Record task := mkTask { tview : Z; tsrc : AddrPort; traw : list Z; tphase : phase }.
#[export] Instance eta_task : Eta task := fun t => mkTask (tview t) (tsrc t) (traw t) (tphase t).

(** The answers of clocks ([atNow] is read by the transport's methods, [atTable]
    by the table's, [atLive] by the liveness machine), random generator and socket in one step; [emsgsize]
    says of which kind the error of a failed write is. *)
Record inputs := mkInputs {
  atNow : Time;
  atTable : Time;
  atReseq : Time;
  atProber : Time;
  atLive : Time;
  nonce : option (list Z);
  written : bool;
  emsgsize : bool
}.

Inductive event := EWrite (id : Z) (dst : AddrPort) (raw : list Z) | ERoam (id : Z) | EFirstUp | EPMTU (request : nat).

Section Dispatch.
Context {C : Cipher} (order : gmap Z adaptiveRoute -> list Z) (iter : Time -> gmap Z lanes.attempt -> list Z).

(** [adaptive.learn] for a datagram of a view. *)
Definition learnFrom (i : inputs) (id : Z) (v : view) (src : AddrPort) (payload : list Z) (adopted : bool) (b : peer) :
    outcome unit peer :=
  match transportOf b with
  | None => Ok b
  | Some a =>
    let rtt := match vprobe v with
               | Some e => telemetry.RTT (probe.ProberEstimate (pmtu.prober e))
               | None => 0
               end in
    '(a, rq) ← learn id (vretired v) rtt (atNow i) (atReseq i) src payload adopted (a, resequencer b);
    Ok (b <| transportOf := Some a |> <| resequencer := rq |>)
  end.

(** [writeToUDPAddrPort] and its accounting. *)
Definition write (i : inputs) (id : Z) (v : view) (dst : AddrPort) (raw : list Z) (b : peer) : peer * list event * bool :=
  if negb (vretired v) && written i
  then (onView id (fun v => v <| txBytes := u64 (txBytes v + Z.of_nat (length raw)) |>) b, [EWrite id dst raw], true)
  else (b, [], false).

Definition step (i : inputs) (t : task) (b : peer) : outcome unit (peer * option task * list event) :=
  let id := tview t in
  let goto p := Some (t <| tphase := p |>) in
  match views b !! id with
  | None => Panic
  | Some v =>
    match tphase t with
    | Arrived f =>
      let b := onView id (fun v => v <| rxBytes := u64 (rxBytes v + Z.of_nat (length (traw t))) |>) b in
      match f with
      | frame.FControl c =>
        match transportOf b with
        | None => Ok (b, None, [])
        | Some a =>
          '(a, rq) ← receive order iter id (tsrc t) c (atNow i) (atReseq i) (a, resequencer b);
          Ok (b <| transportOf := Some a |> <| resequencer := rq |>, None, [])
        end
      | frame.FProbe p =>
        let '(tbl, roamed) := remote.learnRemoteFromProbe (atTable i) (frame.PathID p) (tsrc t) (vtable v) in
        let b := onView id (fun v => v <| vtable := tbl |>) b in
        let next := if frame.IsEcho p then match vprobe v with Some _ => goto (Echoed (frame.ProbeSeq p)) | None => None end
                    else goto Probed in
        Ok (b, next, if roamed then [ERoam id] else [])
      end
    | Echoed seq =>
      match vprobe v with
      | None => Panic
      | Some e =>
        match probe.HandleEchoProbe (atProber i) (atLive i) (traw t) (pmtu.prober e) with
        | (_, Panic) => Panic
        | (pr, o) =>
          let b := onView id (onProber (fun _ => pr)) b in
          Ok (b, goto (match o with Ok fresh => EchoLearn (frame.ProbePayload fresh) seq | _ => Notify seq end), [])
        end
      end
    | EchoLearn payload seq =>
      b ← learnFrom i id v (tsrc t) payload false b; Ok (b, goto (Notify seq), [])
    | Notify seq =>
      Ok (onView id (fun v => v <| vprobe := pmtu.NotifyEcho seq <$> vprobe v |>) b, goto CheckUp, [])
    | CheckUp =>
      match vprobe v with
      | None => Panic
      | Some e => Ok (b, if decide (probe.ProberState (pmtu.prober e) = telemetry.StateUp) then goto Latch else None, [])
      end
    | Latch =>
      if everUp b then Ok (b, None, [])
      else Ok (b <| everUp := true |> <| firstUp := firstUp b + 1 |>, None, [EFirstUp])
    | Probed =>
      match probe.AcceptProbe (traw t) (reflector b) with
      | (_, Panic) => Panic
      | (r, o) =>
        Ok (b <| reflector := r |>, match o with Ok a => goto (ProbeLearn a) | _ => None end, [])
      end
    | ProbeLearn a =>
      let p := probe.AProbe a in
      let payload := match transportOf b with
                     | Some x => if frame.Padded p then frame.ProbePayload p else hello id x
                     | None => frame.ProbePayload p
                     end in
      b ← (if decide (probe.Acceptance a = probe.ProbeBootstrap) then Ok b
           else learnFrom i id v (tsrc t) (frame.ProbePayload p) (bool_decide (probe.Acceptance a = probe.ProbeAdopted)) b);
      Ok (b, goto (Reply a payload), [])
    | Reply a payload =>
      match probe.EncodeAcceptedProbe (nonce i) a payload (reflector b) with
      | Ok echo => let '(b, es, _) := write i id v (tsrc t) echo b in Ok (b, None, es)
      | Err _ => Ok (b, None, [])
      | Panic => Panic
      end
    end
  end.

(** Whether the calls of a step return.  Two loops of the path's loss window may
    not: that of the loss accounting of an echo, and that of the estimate a hello
    asks for ([step] says what the calls do when they return). *)
Definition learnReturns (v : view) (b : peer) : bool :=
  match transportOf b, vprobe v with Some _, Some e => probe.estimateReturns (pmtu.prober e) | _, _ => true end.

Definition stepReturns (t : task) (b : peer) : bool :=
  match views b !! tview t with
  | None => true
  | Some v =>
    match tphase t with
    | Echoed _ => match vprobe v with Some e => probe.echoReturns (traw t) (pmtu.prober e) | None => true end
    | EchoLearn _ _ => learnReturns v b
    | ProbeLearn a => bool_decide (probe.Acceptance a = probe.ProbeBootstrap) || learnReturns v b
    | _ => true
    end
  end.

(** How many steps a task has left at most. *)
Definition rank (p : phase) : nat :=
  match p with
  | Arrived _ => 6 | Echoed _ => 5 | EchoLearn _ _ => 4 | Notify _ => 3 | CheckUp => 2 | Latch => 1
  | Probed => 3 | ProbeLearn _ => 2 | Reply _ _ => 1
  end%nat.

Fixpoint complete (n : nat) (i : nat -> inputs) (t : task) (b : peer) : outcome unit (peer * list event) :=
  match n with
  | O => Ok (b, [])
  | S n =>
    '(b, next, es) ← step (i 0%nat) t b;
    match next with
    | None => Ok (b, es)
    | Some t => '(b, es') ← complete n (fun k => i (S k)) t b; Ok (b, es ++ es')
    end
  end.

Definition dispatchInbound (i : nat -> inputs) (id : Z) (src : AddrPort) (f : frame.Frame) (raw : list Z) (b : peer) :
    outcome unit (peer * list event) :=
  complete (rank (Arrived f)) i (mkTask id src raw (Arrived f)) b.

(** ** The probe cadence *)
Definition mapPMTUProbeWriteError (toobig : bool) : pmtu.probe_failure :=
  if toobig then pmtu.ErrProbeTooLarge else pmtu.ErrSend.

(** The [send] of the view's awaiter: its error, and whether that is counted. *)
Definition sendPMTU (i : inputs) (v : view) : option pmtu.probe_failure * bool :=
  match remote.getRemote (vtable v) with
  | None => (Some pmtu.ErrSend, false)
  | Some _ => if vretired v then (Some pmtu.ErrSend, true)
              else if written i then (None, false)
              else (Some (mapPMTUProbeWriteError (emsgsize i)), negb (emsgsize i))
  end.

(** The bytes of the padded probe the awaiter hands to [send]. *)
Definition pmtuBytes (i : inputs) (size : Z) (e : pmtu.EchoAwaitProbe) : Z :=
  match probe.SendPaddedProbe (nonce i) (atProber i) (size - pmtu.outerIPUDPOverhead e) (pmtu.prober e) with
  | (_, Ok (raw, _)) => Z.of_nat (length raw)
  | _ => 0
  end.

Definition emitProbePayload (i : inputs) (id : Z) (dst : AddrPort) (payload : list Z) (b : peer) :
    outcome unit (peer * list event) :=
  match views b !! id with
  | None => Panic
  | Some v =>
    match vprobe v with
    | None => Panic
    | Some e =>
      let '(pr, _, raw) := probe.SendProbePayload (nonce i) (atProber i) payload (pmtu.prober e) in
      let b := onView id (onProber (fun _ => pr)) b in
      let failed := onView id (fun v => v <| probeSendErrors := u64 (probeSendErrors v + 1) |>) in
      match raw with
      | Panic => Panic
      | Err _ => Ok (failed b, [])
      | Ok raw => let '(b, es, ok) := write i id v dst raw b in Ok (if ok then b else failed b, es)
      end
    end
  end.

(** One path of [emitProbes].  [size] is the path MTU a request asks about. *)
Definition emitProbe (ord : list Z) (size : nat -> Z) (i : inputs) (id : Z) (b : peer) :
    outcome unit (peer * list event) :=
  match views b !! id with
  | None => Panic
  | Some v =>
    let '(rv, use, roamed) := remote.emitProbe ord (atTable i) (remote.mkView (vtable v) (vslots v)) in
    let v := v <| vtable := remote.vtable rv |> <| vslots := remote.vslots rv |> in
    let b := onView id (fun _ => v) b in
    '(b, es) ← match use with
               | remote.SlotPMTU r =>
                 match vprobe v with
                 | None => Panic
                 | Some e0 =>
                   let '(refusal, counted) := sendPMTU i v in
                   let s := pmtu.mkSurroundings (nonce i) (atProber i) None refusal [] false in
                   let '(e, ch, o) := pmtu.sendAttempt s (size r) e0 in
                   let v := v <| vprobe := Some e |> in
                   let v := if bool_decide (is_Some ch) && negb (bool_decide (is_Some refusal))
                            then v <| txBytes := u64 (txBytes v + pmtuBytes i (size r) e0) |> else v in
                   let v := if bool_decide (is_Some ch) && counted then v <| probeSendErrors := u64 (probeSendErrors v + 1) |> else v in
                   match o with Panic => Panic | _ => Ok (onView id (fun _ => v) b, [EPMTU r]) end
                 end
               | remote.SlotOrdinary dst =>
                 emitProbePayload i id dst (match transportOf b with Some a => hello id a | None => [] end) b
               | remote.SlotIdle => Ok (b, [])
               end;
    match vprobe v with
    | None => Panic
    | Some _ => Ok (onView id (onProber (probe.ProberTick (atLive i))) b, (if roamed then [ERoam id] else []) ++ es)
    end
  end.

(** ** The liveness sweep of the receive path

    [won] and [locked]: the compare-and-swap and the try-lock succeed. *)
Definition tickLivenessFromReceive (now : Time) (won locked : bool) (at_ : Time) (b : peer) : peer :=
  let interval := sweepIntervalNanos b in
  if interval =? 0 then b
  else
    let n := probe.UnixNano now in
    if i64 (n - lastSweepNanos b) <? interval then b
    else if negb won then b
    else
      let b := b <| lastSweepNanos := n |> in
      if negb locked then b
      else b <| views := (fun v => if vretired v then v else onProber (probe.ProberTick at_) v) <$> views b |>.

(** ** Sending *)
Inductive sendError := ErrWrongEndpointType | ErrMetadata | ErrNoHealthyPath | ErrAdaptive (e : aerror).

(** The endpoint the engine passes: one of another type, one this bind does not
    know, or this peer's. *)
Inductive endpoint := Foreign | Unknown | Virtual.

Definition send (bufs : list (list Z)) (metadata : option (list transport.PacketMetadata)) (ep : endpoint) (now : Time) (b : peer) :
    peer * outcome sendError unit :=
  match ep with
  | Foreign => (b, Err ErrWrongEndpointType)
  | Unknown => (b, Err ErrNoHealthyPath)
  | Virtual =>
    match transportOf b with
    | None => (b, Err (ErrAdaptive ErrClosed))
    | Some a =>
      let '(a, r) := enqueue bufs metadata now a in
      (b <| transportOf := Some a |>, match r with Ok u => Ok u | Err e => Err (ErrAdaptive e) | Panic => Panic end)
    end
  end.

Definition Send (bufs : list (list Z)) (ep : endpoint) (now : Time) (b : peer) : peer * outcome sendError unit :=
  send bufs None ep now b.

Definition SendWithMetadata (bufs : list (list Z)) (metadata : list transport.PacketMetadata) (ep : endpoint) (now : Time) (b : peer) :
    peer * outcome sendError unit :=
  if negb (length metadata =? length bufs)%nat then (b, Err ErrMetadata) else send bufs (Some metadata) ep now b.

End Dispatch.
End inbound.
