(* ===== verification/BindInboundProps.v ===== *)
(** * What dispatching guarantees

    Histories interleave the steps of any number of readers with the other users
    of the peer.  Under all of them a peer is believed to have restarted only for
    a probe that answered a challenge this side drew, once per challenge; nothing
    that arrives makes a reader fail; and two peers that exchange two probes can
    send to each other. *)

From stdpp Require Import base tactics list numbers gmap sets.
From S2P Require Import Prelude Sha256 Float64 Reseq ReseqTheory ReseqProps Frame FrameProps Telemetry Probe ProbeProps Pmtu BondWire BondWireProps.
From S2P Require Import BondQueue BondLane BondTransport BondTransportTheory BondPollTheory BondTransportProps BondEmitTheory BindRemote BindAdaptive BindAdaptiveProps BindInbound.

Module inbound_props.
Import float64 pmtu transport transport_ok poll_ok emit_ok adaptive adaptive_props inbound.
#[local] Existing Instances probe.ProbeAcceptance_eq_dec telemetry.PathState_eq_dec bond.Epoch_eq_dec.

(** ** Restarts come from adopted hellos *)
Lemma forgetEpoch_restarted previous ep rnow a rq a' rq' :
  forgetEpoch previous ep rnow (a, rq) = Ok (a', rq') ->
  tr a' = tr a /\
  restarted a' = if negb (bond.Boot previous =? 0) && negb (bond.Boot previous =? bond.Boot ep)
                 then restarted a + 1 else restarted a.
Proof.
  unfold forgetEpoch. destruct (_ && _); (destruct rq as [q|]; [destruct (reseq.RebaselineAt rnow 1 q); [|done]|]);
    intros [= <- <-]; done.
Qed.

Lemma SetRemote_foreign ep adopted t t' :
  SetRemote ep adopted t = (t', true) -> bond.Boot (remote t) <> 0 -> bond.Boot (remote t) <> bond.Boot ep -> adopted = true.
Proof.
  unfold SetRemote. destruct (bool_decide _); [done|]. destruct (_ || _); [done|]. destruct (_ && _) eqn:E; [done|].
  intros _ H0 Hne. destruct adopted; [done|]. exfalso. revert E.
  rewrite (proj2 (Z.eqb_neq _ _)) by done. rewrite (proj2 (Z.eqb_neq (bond.Boot ep) _)) by done. done.
Qed.

Lemma checkTime_remote now t : remote (fst (checkTime now t)) = remote t.
Proof. unfold checkTime. by destruct (_ <? _). Qed.
Lemma PathUp_remote ident rid rt now t : remote (fst (PathUp ident rid rt now t)) = remote t.
Proof.
  unfold PathUp. pose proof (checkTime_remote now t) as E. destruct (checkTime now t) as [u []]; [|exact E].
  destruct (find ident u); exact E.
Qed.

(** A hello counts as a restart only when it was adopted; the transport then
    follows the epoch it names. *)
Lemma learn_restarted view retired rtt now rnow from payload adopted a rq a' rq' :
  learn view retired rtt now rnow from payload adopted (a, rq) = Ok (a', rq') ->
  restarted a' = restarted a \/
  restarted a' = restarted a + 1 /\ adopted = true /\
    exists path, bond.ParseHello payload = (remote (tr a'), path, true).
Proof.
  unfold learn. destruct (bond.ParseHello payload) as [[ep rp] ok]. destruct ok; cbn [negb orb]; [|intros [= <- <-]; by left].
  destruct (_ =? _); [intros [= <- <-]; by left|]. destruct (aclosed a); [intros [= <- <-]; by left|].
  destruct retired; [intros [= <- <-]; by left|]. pose proof (SetRemote_foreign ep adopted (tr a)) as F.
  destruct (SetRemote ep adopted (tr a)) as [t changed]. cbv zeta.
  destruct (bool_decide_reflect (remote t = ep)) as [Er|]; cbn [negb]; [|intros [= <- <-]; by left].
  match goal with |- context [mbind _ ?e] =>
    assert (K : forall a2 rq2, e = Ok (a2, rq2) -> tr a2 = t /\ (restarted a2 = restarted a \/
      restarted a2 = restarted a + 1 /\ adopted = true)); [|destruct e as [[a2 rq2]|x|]; [|done|done]] end.
  { intros a2 rq2. destruct changed; [|intros [= <- <-]; split; [done|by left]].
    intros [E1 E2]%forgetEpoch_restarted. split; [exact E1|]. cbn [restarted update] in E2.
    destruct (Z.eqb_spec (bond.Boot (remote (tr a))) 0) as [|H0]; [by left|].
    destruct (Z.eqb_spec (bond.Boot (remote (tr a))) (bond.Boot ep)) as [|H1]; [by left|]. right. split; [exact E2|].
    by apply (F t). }
  destruct (K a2 rq2 eq_refl) as [E2 K2]. cbn [mbind outcome_bind tr update].
  pose proof (PathUp_remote (laneID view rp) (laneID rp view) rtt now (tr a2)) as P.
  destruct (PathUp _ _ _ _ _) as [t' [u|e|]]; [|done|done]. intros [= <- <-]. cbn [restarted tr signal update].
  cbn [fst] in P. rewrite P, E2, Er. destruct K2 as [K2|[K2 K3]]; [by left|right]. split_and!; [done|done|by exists rp].
Qed.

Lemma deliver_all_restarted rnow from ds a q a' q' :
  deliver_all rnow from ds (a, q) = Ok (a', q') -> restarted a' = restarted a.
Proof.
  revert a q. induction ds as [|d ds IH]; intros a q; cbn [deliver_all]; [by intros [= <- <-]|]. unfold deliver.
  destruct (DInteractive d).
  - destruct (_ <? _)%nat; cbn [mbind outcome_bind]; intros H; by rewrite (IH _ _ H).
  - destruct (reseq.Observe _ _ _ _ _) as [[q1 b]|]; cbn [mbind outcome_bind]; [apply IH|done].
Qed.

Lemma receive_restarted order iter view from f now rnow a rq a' rq' :
  receive order iter view from f now rnow (a, rq) = Ok (a', rq') -> restarted a' = restarted a.
Proof.
  unfold receive. destruct (aclosed a); [by intros [= <- <-]|]. destruct (routeOf _ _ _ _) as [id|]; [|by intros [= <- <-]].
  destruct (Receive _ _ _ _ _) as [t [ds|e|]]; [|by intros [= <- <-]|done]. destruct rq as [q|]; [|by intros [= <- <-]].
  destruct (deliver_all _ _ _ _) as [[a1 q1]|e|] eqn:E; [|done|done]. cbn [mbind outcome_bind]. intros [= <- <-].
  by apply deliver_all_restarted in E.
Qed.

Lemma forgets_restarted l a : restarted (fold_left forget l a) = restarted a.
Proof. revert a. induction l as [|x l IH]; intros a; cbn; [done|]. by rewrite IH. Qed.
Lemma enqueue_restarted bufs metadata now a : restarted (fst (enqueue bufs metadata now a)) = restarted a.
Proof.
  unfold enqueue. destruct (aclosed a); [done|].
  enough (H : restarted (fst (enqueue_loop bufs metadata now a)) = restarted a) by by destruct (enqueue_loop _ _ _ _).
  revert metadata a. induction bufs as [|b bufs IH]; intros metadata a; cbn [enqueue_loop]; [done|].
  destruct (match metadata with None => _ | Some l => _ end) as [m|]; [|done].
  destruct (Enqueue b m now (tr a)) as [t [[]|e|]]; [|done|done]. by rewrite IH.
Qed.

(** The calls of the transport that are neither a reader's nor the engine's. *)
Definition other_call (o : aop) : Prop :=
  match o with ALearn _ _ _ _ _ _ _ _ | AEnqueue _ _ _ | AReceive _ _ _ _ _ => False | _ => True end.

Lemma aexec_restarted {C : Cipher} order iter o a rq a' rq' e :
  other_call o -> aexec order iter o (a, rq) = Ok ((a', rq'), e) -> restarted a' = restarted a.
Proof.
  destruct o as [| | |rnd now|socket| | |rnow| | |]; intros Ho; try done; cbn [aexec].
  - unfold flush. destruct (Poll _ _ _) as [t [out|x|]]; [|done|done].
    destruct (encode_all _ _ _) as [[c l]|x|]; [|done|done]. by intros [= <- <- _].
  - intros [= <- <- _]. apply forgets_restarted.
  - intros [= <- <- _]. apply forgets_restarted.
  - unfold popInteractive. destruct (interactive a); by intros [= <- <- _].
  - destruct rq as [q|]; [|by intros [= <- <- _]]. destruct (reseq.Pop rnow q) as [[q' it]|]; [|done]. by intros [= <- <- _].
  - by intros [= <- <- _].
  - by intros [= <- <- _].
  - by intros [= <- <- _].
Qed.

(** ** What a takeover needs *)
Section Takeover.
Context {C : Cipher}.
Import frame telemetry probe probe_props.

(** Live and coming challenges are among those drawn. *)
Record drawn (D : list Z) (r : Reflector) : Prop := mkDrawn {
  dr_live : forall p st, paths r !! p = Some st -> challenge st ∈ D;
  dr_coming : forall c, c ∈ draws (rand r) -> c ∈ D
}.

Lemma drawChallenge_drawn D r : drawn D r ->
  match drawChallenge (rand r) with
  | (rnd, Ok ch) => ch ∈ D /\ forall c, c ∈ draws rnd -> c ∈ D
  | (rnd, _) => forall c, c ∈ draws rnd -> c ∈ D
  end.
Proof.
  intros [_ H]. pose proof (drawChallenge_spec (rand r)) as S. destruct (drawChallenge (rand r)) as [rnd [ch|e|]]; [| |done].
  - destruct S as [_ S]. rewrite S in H. split; [apply H; by left|]. intros c Hc. apply H. by right.
  - destruct S as (_ & _ & ->). by intros c ?%elem_of_nil.
Qed.

Lemma ensurePath_drawn D r path : drawn D r ->
  let '(r', o) := ensurePath path r in
  drawn D r' /\ rpsk r' = rpsk r /\ match o with Ok st => challenge st ∈ D | _ => True end.
Proof.
  intros H. unfold ensurePath. destruct (paths r !! path) as [st|] eqn:E; [split_and!; [done|done|by eapply dr_live]|].
  pose proof (drawChallenge_drawn D r H) as K. destruct (drawChallenge (rand r)) as [rnd [ch|e|]].
  - destruct K as [K1 K2]. split_and!; [|done|done]. split; [|done]. intros p st. cbn [paths update].
    intros [[_ <-]|[_ Hp]]%lookup_insert_Some; [done|by eapply dr_live].
  - split_and!; [|done|done]. split; [apply H|done].
  - split_and!; [|done|done]. split; [apply H|done].
Qed.

Lemma respond_drawn D r q : drawn D r ->
  let '(r', o) := respond r q in
  drawn D r' /\ rpsk r' = rpsk r /\ (forall c, takeover (q, o) = Some c -> c ∈ D) /\
  forall v, o = Ok v -> acceptance v = ProbeAdopted -> reflect v = true.
Proof.
  intros H. unfold respond, acceptLocked. pose proof (ensurePath_drawn D r (q_path q) H) as K.
  destruct (ensurePath (q_path q) r) as [r1 [st|e|]]; destruct K as (H1 & E1 & Hst); [|by split_and!..].
  assert (W : forall r2 st', (forall c, c ∈ draws (rand r2) -> c ∈ D) -> challenge st' ∈ D ->
    paths r2 = <[q_path q := st']> (paths r1) -> drawn D r2).
  { intros r2 st' Hr Hs Ep. split; [|done]. rewrite Ep. intros p s [[_ <-]|[_ Hp]]%lookup_insert_Some; [done|by eapply dr_live]. }
  destruct (adopted st && _).
  { destruct (Accept _ _) as [g ok]. pose proof (dr_coming _ _ H1) as Hc.
    destruct (negb ok); (split_and!; [by eapply (W _ (st <| rguard := g |>))|exact E1|by intros c|by intros v [= <-]]). }
  destruct (Z.eqb_spec (q_challenge q) (challenge st)) as [Ec|Ec]; [|split_and!; [done|done|done|by intros v [= <-]]].
  pose proof (drawChallenge_drawn D r1 H1) as K. destruct (drawChallenge (rand r1)) as [rnd [ch|e|]].
  - destruct K as [K1 K2]. set (st1 := mkReflectorPath _ _ _ _).
    destruct (_ && _); (split_and!; [by eapply (W _ (st1 <| challenge := ch |>))|exact E1| |by intros v [= <-]]); cbn; intros c [= <-]; by rewrite Ec.
  - split_and!; [eapply W; [exact K| |reflexivity]; exact Hst|exact E1|done|done].
  - split_and!; [eapply W; [exact K| |reflexivity]; exact Hst|exact E1|done|done].
Qed.

(** The reflector's step on a datagram, adopted or not. *)
Lemma AcceptProbe_takeover D used raw r : unspent used (rand r) (paths r) -> drawn D r ->
  let '(r', o) := AcceptProbe raw r in
  rpsk r' = rpsk r /\ drawn D r' /\
  match o with
  | Ok a => if decide (Acceptance a = ProbeAdopted)
            then exists p, DecodeWith (rpsk r) raw = Ok (FProbe p) /\ ProbePayload (AProbe a) = ProbePayload p /\
                   Challenge p ∈ D /\ (Challenge p ∉ used) /\ unspent (used ++ [Challenge p]) (rand r') (paths r')
            else unspent used (rand r') (paths r')
  | _ => unspent used (rand r') (paths r')
  end.
Proof.
  intros U Dr. unfold AcceptProbe. destruct (DecodeWith (rpsk r) raw) as [[p|c]|e|] eqn:E; [|by split_and!..].
  set (q := mkRequest (PathID p) (SessionID p) (ProbeSeq p) (Challenge p)).
  pose proof (respond_unspent used r q U) as K1. pose proof (respond_drawn D r q Dr) as K2. change (acceptLocked _ _ _ _ r) with (respond r q).
  destruct (respond r q) as [r' [v|e|]]; destruct K2 as (K2 & K3 & K4 & K5); [|by split_and!..].
  unfold takeover in K1, K4. cbn [fst snd] in K1, K4.
  destruct (negb (reflect v)) eqn:Er.
  { split_and!; [done|done|]. destruct (decide (acceptance v = ProbeAdopted)) as [Ea|]; [|done].
    by rewrite (K5 v eq_refl Ea) in Er. }
  split_and!; [done|done|]. cbn [Acceptance AProbe ProbePayload]. destruct (decide (acceptance v = ProbeAdopted)); [|done].
  destruct K1 as [K1 K6]. exists p. split_and!; [done|done|by apply K4|done|done].
Qed.
End Takeover.

(** ** Histories

    Any number of readers in the middle of a dispatch, and the other users of the
    peer: the flusher, the drainer, reconfiguration ([WOther]), the engine's sends,
    the probe cadence, the sweep, the addition and removal of a path, and the readers of other
    peers, which may set the latch. *)
Record world := mkWorld { node : inbound.peer; pool : list task }.
#[export] Instance eta_world : Eta world := fun w => mkWorld (node w) (pool w).

Inductive wop :=
  | WArrive (id : Z) (src : AddrPort) (f : frame.Frame) (raw : list Z)
  | WStep (k : nat) (i : inputs)
  | WOther (o : aop)
  | WSend (bufs : list (list Z)) (metadata : option (list PacketMetadata)) (ep : endpoint) (now : Time)
  | WEmit (ord : list Z) (size : nat -> Z) (i : inputs) (id : Z)
  | WSweep (now : Time) (won locked : bool) (at_ : Time)
  | WAdd (id : Z) (v : view)
  | WRetire (id : Z)
  | WOtherUp.

Definition restarts (b : inbound.peer) : Z := match transportOf b with Some a => restarted a | None => 0 end.
Definition followed (b : inbound.peer) : bond.Epoch :=
  match transportOf b with Some a => remote (tr a) | None => bond.Epoch0 end.

Section Histories.
Context {C : Cipher} (order : gmap Z adaptiveRoute -> list Z) (iter : Time -> gmap Z lanes.attempt -> list Z).

(** With the state, the restarts: the datagram and the epoch followed from then on. *)
Definition wexec (o : wop) (w : world) : outcome unit (world * list (list Z * bond.Epoch)) :=
  let b := node w in
  match o with
  | WArrive id src f raw =>
    match views b !! id with
    | Some _ => Ok (w <| pool := pool w ++ [mkTask id src raw (Arrived f)] |>, [])
    | None => Ok (w, [])
    end
  | WStep k i =>
    match pool w !! k with
    | None => Ok (w, [])
    | Some t =>
      '(b', next, _) ← step order iter i t b;
      Ok (mkWorld b' (delete k (pool w) ++ option_list next),
          if restarts b <? restarts b' then [(traw t, followed b')] else [])
    end
  | WOther o =>
    match transportOf b with
    | None => Ok (w, [])
    | Some a =>
      '((a, rq), _) ← aexec order iter o (a, resequencer b);
      Ok (w <| node := b <| transportOf := Some a |> <| resequencer := rq |> |>, [])
    end
  | WSend bufs metadata ep now =>
    let '(b, r) := match metadata with Some l => SendWithMetadata bufs l ep now b | None => Send bufs ep now b end in
    match r with Panic => Panic | _ => Ok (w <| node := b |>, []) end
  | WEmit ord size i id =>
    match views b !! id with
    | Some _ => '(b, _) ← emitProbe ord size i id b; Ok (w <| node := b |>, [])
    | None => Ok (w, [])
    end
  | WSweep now won locked at_ => Ok (w <| node := tickLivenessFromReceive now won locked at_ b |>, [])
  | WAdd id v =>
    match views b !! id with
    | Some _ => Ok (w, [])
    | None => Ok (w <| node := b <| views := <[id := v]> (views b) |> |>, [])
    end
  | WRetire id => Ok (w <| node := onView id (fun v => v <| vretired := true |>) b |>, [])
  | WOtherUp => Ok (w <| node := b <| everUp := true |> |>, [])
  end.

Fixpoint wrun (ops : list wop) (w : world) : outcome unit (world * list (list Z * bond.Epoch)) :=
  match ops with
  | [] => Ok (w, [])
  | o :: ops => '(w, l) ← wexec o w; '(w, l') ← wrun ops w; Ok (w, l ++ l')
  end.

(** *** What a step leaves alone *)
Lemma learnFrom_restarts i id v src payload adopted b b' :
  learnFrom i id v src payload adopted b = Ok b' ->
  reflector b' = reflector b /\ (restarts b' = restarts b \/
    restarts b' = restarts b + 1 /\ adopted = true /\ exists path, bond.ParseHello payload = (followed b', path, true)).
Proof.
  unfold learnFrom, restarts, followed. destruct (transportOf b) as [a|] eqn:Ea; [|intros [= <-]; rewrite Ea; auto].
  destruct (learn _ _ _ _ _ _ _ _ _) as [[a' rq']|e|] eqn:E; [|done|done]. cbn [mbind outcome_bind]. intros [= <-]. split; [done|].
  exact (learn_restarted _ _ _ _ _ _ _ _ _ _ _ _ E).
Qed.

Definition adopting (t : task) : bool :=
  match tphase t with ProbeLearn a => bool_decide (probe.Acceptance a = probe.ProbeAdopted) | _ => false end.

Lemma write_quiet i id v dst raw b :
  let '(b', _, _) := write i id v dst raw b in
  reflector b' = reflector b /\ transportOf b' = transportOf b /\ resequencer b' = resequencer b.
Proof. unfold write. by destruct (_ && _). Qed.

(** A step that is not the reflector's verdict. *)
Lemma step_quiet i t b b' next es :
  step order iter i t b = Ok (b', next, es) -> tphase t <> Probed ->
  reflector b' = reflector b /\ (forall t', next = Some t' -> adopting t' = false) /\
  (restarts b' = restarts b \/
   restarts b' = restarts b + 1 /\ exists a path, tphase t = ProbeLearn a /\ probe.Acceptance a = probe.ProbeAdopted /\
     bond.ParseHello (frame.ProbePayload (probe.AProbe a)) = (followed b', path, true)).
Proof.
  unfold step. destruct (views b !! tview t) as [v|]; [|done]. destruct (tphase t) as [f|seq|pl seq|seq| | | |a|a pl] eqn:Ep; intros H Hp.
  - destruct f as [p|c].
    + destruct (remote.learnRemoteFromProbe _ _ _ _) as [tbl roamed]. injection H as <- <- <-.
      split_and!; [done| |by left]. intros t'. destruct (frame.IsEcho p); [destruct (vprobe v)|]; by intros [= <-].
    + cbn [onView transportOf resequencer update] in H. destruct (transportOf b) as [x|] eqn:Ex.
      2: { injection H as <- <- <-. split_and!; [done|done|]. left. unfold restarts. cbn. by rewrite Ex. }
      destruct (receive _ _ _ _ _ _ _ _) as [[x' rq']|e|] eqn:E; [|done|done]. cbn [mbind outcome_bind] in H. injection H as <- <- <-.
      apply receive_restarted in E. split_and!; [done|done|]. left. unfold restarts. cbn. by rewrite Ex.
  - destruct (vprobe v) as [e|]; [|done]. destruct (probe.HandleEchoProbe _ _ _) as [pr [fr|x|]]; [| |done];
      injection H as <- <- <-; (split_and!; [done|by intros t' [= <-]|by left]).
  - destruct (learnFrom _ _ _ _ _ _ _) as [b1|e|] eqn:E; [|done|done]. cbn [mbind outcome_bind] in H. injection H as <- <- <-.
    apply learnFrom_restarts in E as [E1 E2]. split_and!; [done|by intros t' [= <-]|]. destruct E2 as [E2|(_ & ? & _)]; [by left|done].
  - injection H as <- <- <-. split_and!; [done|by intros t' [= <-]|by left].
  - destruct (vprobe v) as [e|]; [|done]. injection H as <- <- <-. split_and!; [done| |by left].
    intros t'. destruct (decide _); by intros [= <-].
  - destruct (everUp b); injection H as <- <- <-; (split_and!; [done|done|by left]).
  - done.
  - destruct (decide _) as [Eb|Eb]; cbn [mbind outcome_bind] in H.
    { injection H as <- <- <-. split_and!; [done|by intros t' [= <-]|by left]. }
    destruct (learnFrom _ _ _ _ _ _ _) as [b1|e|] eqn:E; [|done|done]. injection H as <- <- <-.
    apply learnFrom_restarts in E as [E1 E2]. split_and!; [done|by intros t' [= <-]|].
    destruct E2 as [E2|(E2 & E3 & path & E4)]; [by left|right]. split; [done|]. exists a, path. split_and!; [done| |done].
    by apply bool_decide_eq_true in E3.
  - destruct (probe.EncodeAcceptedProbe _ _ _ _) as [echo|e|]; [| |done]; [|injection H as <- <- <-; split_and!; [done|done|by left]].
    pose proof (write_quiet i (tview t) v (tsrc t) echo b) as W. destruct (write _ _ _ _ _ _) as [[b1 es1] ok].
    injection H as <- <- <-. destruct W as (W1 & W2 & _). split_and!; [done|done|]. left. unfold restarts. by rewrite W2.
Qed.

Lemma emitProbe_quiet ord size i id b b' es :
  emitProbe ord size i id b = Ok (b', es) -> reflector b' = reflector b /\ transportOf b' = transportOf b /\ resequencer b' = resequencer b.
Proof.
  unfold emitProbe. destruct (views b !! id) as [v|]; [|done].
  destruct (remote.emitProbe _ _ _) as [[rv use] roamed]. set (b1 := onView id _ b).
  assert (E1 : reflector b1 = reflector b /\ transportOf b1 = transportOf b /\ resequencer b1 = resequencer b) by done. clearbody b1.
  match goal with |- context [mbind _ ?e] =>
    assert (K : forall b2 es2, e = Ok (b2, es2) -> reflector b2 = reflector b /\ transportOf b2 = transportOf b /\ resequencer b2 = resequencer b);
    [|destruct e as [[b2 es2]|x|]; [|done|done]] end.
  { intros b2 es2. destruct use as [r|dst|].
    - cbn [vprobe update]. destruct (vprobe v) as [e|]; [|done]. destruct (sendPMTU _ _) as [ref cnt].
      destruct (sendAttempt _ _ _) as [[e' ch] [u|x|]]; [| |done]; by intros [= <- _].
    - unfold emitProbePayload. destruct (views b1 !! id) as [v1|]; [|done]. destruct (vprobe v1) as [e|]; [|done].
      destruct (probe.SendProbePayload _ _ _ _) as [[pr x] [raw|y|]]; [|by intros [= <- _]|done].
      match goal with |- context [write ?i ?a ?c ?d ?r ?e] => pose proof (write_quiet i a c d r e) as W; destruct (write i a c d r e) as [[b3 es3] ok] end.
      intros [= <- _]. destruct W as (W1 & W2 & W3). cbn in W1, W2, W3. destruct ok; cbn; by rewrite W1, W2, W3.
    - by intros [= <- _]. }
  specialize (K b2 es2 eq_refl). cbn [mbind outcome_bind vprobe update]. destruct (vprobe v); [|done]. by intros [= <- _].
Qed.

Lemma sweep_quiet now won locked at_ b :
  let b' := tickLivenessFromReceive now won locked at_ b in
  reflector b' = reflector b /\ transportOf b' = transportOf b /\ resequencer b' = resequencer b.
Proof. unfold tickLivenessFromReceive. by repeat case_match. Qed.

Lemma send_quiet bufs metadata ep now b :
  let b' := fst (match metadata with Some l => SendWithMetadata bufs l ep now b | None => Send bufs ep now b end) in
  reflector b' = reflector b /\ restarts b' = restarts b.
Proof.
  assert (H : forall m, reflector (fst (send bufs m ep now b)) = reflector b /\ restarts (fst (send bufs m ep now b)) = restarts b).
  { intros m. unfold send. destruct ep; [done|done|]. destruct (transportOf b) as [a|] eqn:Ea; [|done].
    pose proof (enqueue_restarted bufs m now a) as E. destruct (enqueue bufs m now a) as [a' r].
    cbn [fst] in *. unfold restarts. cbn. by rewrite Ea. }
  destruct metadata as [l|]; [|apply H]. unfold SendWithMetadata. destruct (negb _); [done|apply H].
Qed.
End Histories.

(** ** The invariant: each adopted hello in flight or acted on spent a challenge *)
Section Once.
Context {C : Cipher} (order : gmap Z adaptiveRoute -> list Z) (iter : Time -> gmap Z lanes.attempt -> list Z).
Context (psk : frame.Key) (D : list Z).

Definition challengeOf (raw : list Z) : option Z :=
  match frame.DecodeWith psk raw with Ok (frame.FProbe p) => Some (frame.Challenge p) | _ => None end.
Definition pending_of (t : task) : list (option Z) := if adopting t then [challengeOf (traw t)] else [].

(** The probe in [raw] answered a drawn challenge and says hello from [ep]. *)
Definition announced (x : list Z * bond.Epoch) : Prop :=
  exists p path, frame.DecodeWith psk x.1 = Ok (frame.FProbe p) /\ frame.Challenge p ∈ D /\
    bond.ParseHello (frame.ProbePayload p) = (x.2, path, true).
Definition adopted_ok (t : task) : Prop :=
  forall a, tphase t = ProbeLearn a -> probe.Acceptance a = probe.ProbeAdopted ->
  exists p, frame.DecodeWith psk (traw t) = Ok (frame.FProbe p) /\ frame.ProbePayload (probe.AProbe a) = frame.ProbePayload p /\
    frame.Challenge p ∈ D.

Record once (used : list Z) (w : world) (log : list (list Z * bond.Epoch)) : Prop := mkOnce {
  on_psk : probe.rpsk (reflector (node w)) = psk;
  on_drawn : drawn D (reflector (node w));
  on_unspent : probe_props.unspent used (probe.rand (reflector (node w))) (probe.paths (reflector (node w)));
  on_tasks : Forall adopted_ok (pool w);
  on_log : Forall announced log;
  on_nodup : NoDup (map (fun x => challengeOf x.1) log ++ (pool w ≫= pending_of));
  on_used : Forall (fun x => forall c, x = Some c -> c ∈ used) (map (fun x => challengeOf x.1) log ++ (pool w ≫= pending_of))
}.

Lemma pending_other t : adopting t = false -> pending_of t = [].
Proof. unfold pending_of. by intros ->. Qed.

(** The peer changes without the reflector's taking part. *)
Lemma once_node used w log b : once used w log -> reflector b = reflector (node w) -> once used (mkWorld b (pool w)) log.
Proof. intros [] E. by split; cbn [node pool]; rewrite ?E. Qed.

Lemma once_arrive used w log id src f raw : once used w log ->
  once used (w <| pool := pool w ++ [mkTask id src raw (Arrived f)] |>) log.
Proof.
  intros []. split; cbn [node pool update]; rewrite ?bind_app; cbn; rewrite ?app_nil_r; try done.
  apply Forall_app. split; [done|]. by repeat constructor.
Qed.

(** The reader at [k] moves on; only the reflector spends challenges. *)
Lemma once_step_quiet used w log k t i b' next es :
  once used w log -> pool w !! k = Some t -> tphase t <> Probed -> step order iter i t (node w) = Ok (b', next, es) ->
  once used (mkWorld b' (delete k (pool w) ++ option_list next))
    (log ++ if restarts (node w) <? restarts b' then [(traw t, followed b')] else []).
Proof.
  intros H Hk Hp E. destruct (step_quiet order iter i t (node w) b' next es E Hp) as (E1 & E2 & E3). destruct H as [H1 H2 H3 H4 H5 H6 H7].
  pose proof (delete_Permutation _ _ _ Hk) as P. set (rest := delete k (pool w)) in *. clearbody rest. clear Hk.
  assert (En : (rest ++ option_list next) ≫= pending_of = rest ≫= pending_of).
  { rewrite bind_app. destruct next as [t'|]; cbn; [|by rewrite app_nil_r]. by rewrite (pending_other t' (E2 t' eq_refl)), app_nil_r. }
  pose proof H4 as H4'. rewrite P in H4'. apply Forall_cons in H4' as [Ht Hr]. rewrite P in H6, H7. rewrite bind_cons in H6, H7.
  assert (Hfor : Forall adopted_ok (rest ++ option_list next)).
  { apply Forall_app. split; [done|]. destruct next as [t'|]; [|constructor]. repeat constructor. intros a Ha1 Ha2.
    specialize (E2 t' eq_refl). unfold adopting in E2. rewrite Ha1 in E2. by apply bool_decide_eq_false in E2. }
  destruct E3 as [E3|(E3 & a & path & Ea & Ead & Eh)].
  - rewrite E3, Z.ltb_irrefl, app_nil_r. split; cbn [node pool]; rewrite ?E1, ?En; try done.
    + apply NoDup_app in H6 as (N1 & N2 & N3). apply NoDup_app in N3 as (_ & _ & N3). apply NoDup_app. split_and!; [done| |done].
      intros x Hx Hy. apply (N2 x Hx). apply elem_of_app. by right.
    + apply Forall_app in H7 as [H7 H8]. apply Forall_app in H8 as [_ H8]. by apply Forall_app.
  - rewrite E3. rewrite (proj2 (Z.ltb_lt _ _)) by lia.
    assert (Et : pending_of t = [challengeOf (traw t)]).
    { unfold pending_of, adopting. rewrite Ea. by rewrite bool_decide_eq_true_2. }
    rewrite Et in H6, H7. split; cbn [node pool]; rewrite ?E1, ?En, ?map_app, <- ?app_assoc; try done.
    apply Forall_app. split; [done|]. apply Forall_singleton. destruct (Ht a Ea Ead) as (p & Hd & Hpl & Hc).
    exists p, path. rewrite <- Hpl. by split_and!.
Qed.

Lemma once_step_probed used w log k t i b' next es :
  once used w log -> pool w !! k = Some t -> tphase t = Probed -> step order iter i t (node w) = Ok (b', next, es) ->
  exists used', once used' (mkWorld b' (delete k (pool w) ++ option_list next))
    (log ++ if restarts (node w) <? restarts b' then [(traw t, followed b')] else []).
Proof.
  intros [H1 H2 H3 H4 H5 H6 H7] Hk Hp. unfold step. destruct (views (node w) !! tview t) as [v|]; [|done]. rewrite Hp.
  pose proof (AcceptProbe_takeover D used (traw t) _ H3 H2) as K.
  destruct (probe.AcceptProbe (traw t) (reflector (node w))) as [r o]. destruct K as (K1 & K2 & K3).
  assert (Hpt : adopting t = false) by (unfold adopting; by rewrite Hp).
  pose proof (delete_Permutation _ _ _ Hk) as P. set (rest := delete k (pool w)) in *. clearbody rest.
  rewrite P in H4. apply Forall_cons in H4 as [_ Hr]. rewrite P, bind_cons, (pending_other t Hpt) in H6, H7. cbn [app] in H6, H7.
  assert (Same : forall next, (forall t', next = Some t' -> adopting t' = false) -> probe_props.unspent used (probe.rand r) (probe.paths r) ->
    exists used', once used' (mkWorld (node w <| reflector := r |>) (rest ++ option_list next))
      (log ++ if restarts (node w) <? restarts (node w <| reflector := r |>) then [(traw t, followed (node w <| reflector := r |>))] else [])).
  { intros nx Hn Hu. exists used. change (restarts (node w <| reflector := r |>)) with (restarts (node w)). rewrite Z.ltb_irrefl, app_nil_r.
    assert (En : (rest ++ option_list nx) ≫= pending_of = rest ≫= pending_of).
    { rewrite bind_app. destruct nx as [t'|]; cbn; [|by rewrite app_nil_r]. by rewrite (pending_other t' (Hn t' eq_refl)), app_nil_r. }
    split; cbn [node pool reflector update]; rewrite ?En; try done; [congruence|].
    apply Forall_app. split; [done|]. destruct nx as [t'|]; [|constructor]. repeat constructor. intros a Ha1 Ha2.
    specialize (Hn t' eq_refl). unfold adopting in Hn. rewrite Ha1 in Hn. by apply bool_decide_eq_false in Hn. }
  destruct o as [a|e|]; [|intros [= <- <- <-]; by apply Same|done]. intros [= <- <- <-].
  destruct (decide (probe.Acceptance a = probe.ProbeAdopted)) as [Ea|Ea].
  2: { apply Same; [|done]. intros t' [= <-]. unfold adopting. cbn. by apply bool_decide_eq_false. }
  destruct K3 as (p & Hd & Hpl & Hc & Hf & Hu). rewrite H1 in Hd. exists (used ++ [frame.Challenge p]).
  change (restarts (node w <| reflector := r |>)) with (restarts (node w)). rewrite Z.ltb_irrefl, app_nil_r.
  set (t' := mkTask (tview t) (tsrc t) (traw t) (ProbeLearn a)).
  assert (Et : pending_of t' = [Some (frame.Challenge p)]).
  { unfold pending_of, adopting, t', challengeOf. cbn. by rewrite bool_decide_eq_true_2, Hd. }
  assert (Hok : adopted_ok t') by (intros a' [= <-] _; by exists p).
  assert (En : (rest ++ option_list (Some t')) ≫= pending_of = (rest ≫= pending_of) ++ [Some (frame.Challenge p)]).
  { rewrite bind_app. cbn. by rewrite Et. }
  clearbody t'.
  split; cbn [node pool reflector update]; rewrite ?En; try done; [congruence| | |].
  - apply Forall_app. split; [done|]. apply Forall_singleton. apply Hok.
  - rewrite app_assoc. apply NoDup_app. split_and!; [done| |apply NoDup_singleton].
    intros x Hx ->%list_elem_of_singleton. apply Hf. by apply (proj1 (Forall_forall _ _) H7 _ Hx).
  - rewrite app_assoc. apply Forall_app. split.
    + eapply Forall_impl; [exact H7|]. intros x Hx c E. apply elem_of_app. left. by apply Hx.
    + apply Forall_singleton. intros c [= <-]. apply elem_of_app. right. by left.
Qed.

Definition calls_ok (o : wop) : Prop := match o with WOther o => other_call o | _ => True end.

Lemma wexec_once used w log o w' l : calls_ok o -> once used w log -> wexec order iter o w = Ok (w', l) ->
  exists used', once used' w' (log ++ l).
Proof.
  intros Ho H. destruct o as [id src f raw|k i|o|bufs metadata ep now|ord size i id|now won locked at_|id v|id|]; cbn [wexec].
  - destruct (views (node w) !! id); intros [= <- <-]; rewrite app_nil_r; exists used; [by apply once_arrive|done].
  - destruct (pool w !! k) as [t|] eqn:Hk; [|intros [= <- <-]; rewrite app_nil_r; by exists used].
    destruct (step order iter i t (node w)) as [[[b' next] es]|e|] eqn:E; [|done|done]. cbn [mbind outcome_bind]. intros [= <- <-].
    assert (Hd : tphase t = Probed \/ tphase t <> Probed) by (destruct (tphase t); auto).
    destruct Hd as [Hp|Hp]; [by apply (once_step_probed used w log k t i b' next es)|].
    exists used. by apply (once_step_quiet used w log k t i b' next es).
  - destruct (transportOf (node w)) as [a|] eqn:Ea; [|intros [= <- <-]; rewrite app_nil_r; by exists used].
    destruct (aexec _ _ _ _) as [[[a' rq'] e]|e|]; [|done|done]. cbn [mbind outcome_bind]. intros [= <- <-]. rewrite app_nil_r.
    exists used. by apply once_node.
  - pose proof (send_quiet bufs metadata ep now (node w)) as S. cbv zeta in S.
    destruct (match metadata with Some l => _ | None => _ end) as [b' r]. destruct S as [S _].
    destruct r; [| |done]; intros [= <- <-]; rewrite app_nil_r; exists used; by apply once_node.
  - destruct (views (node w) !! id); [|intros [= <- <-]; rewrite app_nil_r; by exists used].
    destruct (emitProbe _ _ _ _ _) as [[b' es]|e|] eqn:E; [|done|done]. cbn [mbind outcome_bind]. intros [= <- <-]. rewrite app_nil_r.
    apply emitProbe_quiet in E as [E _]. exists used. by apply once_node.
  - intros [= <- <-]. rewrite app_nil_r. exists used. apply once_node; [done|]. apply sweep_quiet.
  - destruct (views (node w) !! id); intros [= <- <-]; rewrite app_nil_r; exists used; [done|by apply once_node].
  - intros [= <- <-]. rewrite app_nil_r. exists used. by apply once_node.
  - intros [= <- <-]. rewrite app_nil_r. exists used. by apply once_node.
Qed.

Lemma wrun_once ops : forall used w log w' l, Forall calls_ok ops -> once used w log -> wrun order iter ops w = Ok (w', l) ->
  exists used', once used' w' (log ++ l).
Proof.
  induction ops as [|o ops IH]; intros used w log w' l F H; cbn [wrun].
  { intros [= <- <-]. rewrite app_nil_r. by exists used. }
  apply Forall_cons in F as [Ho F]. destruct (wexec order iter o w) as [[w1 l1]|e|] eqn:E; [|done|done]. cbn [mbind outcome_bind].
  destruct (wexec_once used w log o w1 l1 Ho H E) as [used1 H1].
  destruct (wrun order iter ops w1) as [[w2 l2]|e|] eqn:E2; [|done|done]. cbn [mbind outcome_bind]. intros [= <- <-].
  destruct (IH used1 w1 (log ++ l1) w2 l2 F H1 E2) as [used2 H2]. exists used2. by rewrite app_assoc.
Qed.
End Once.

(** A reflector that starts has spent nothing but the zero challenge. *)
Lemma once_start {C : Cipher} psk rnd b : NoDup (probe_props.draws rnd) -> reflector b = probe.NewReflector psk rnd ->
  once psk (probe_props.draws rnd) [0] (mkWorld b []) [].
Proof.
  intros Hn E. split; cbn [node pool]; rewrite ?E; cbn; try done; try apply NoDup_nil_2.
  by apply (probe_props.unspent_start psk).
Qed.

(** C9. Only a challenge makes a restart.  However the readers' steps interleave
    with each other and with the rest of the program, and whatever datagrams
    arrive, captured and replayed ones included: each time the peer is taken to
    have restarted, it is for a datagram that is authentic, that carries a
    challenge this side's reflector drew, and whose hello names the epoch the
    transport follows from then on; and no challenge does it twice, so no
    datagram does. *)
Theorem restarts_announced {C : Cipher} order iter psk rnd b ops w log :
  NoDup (probe_props.draws rnd) -> reflector b = probe.NewReflector psk rnd -> Forall calls_ok ops ->
  wrun order iter ops (mkWorld b []) = Ok (w, log) ->
  Forall (announced psk (probe_props.draws rnd)) log /\ NoDup (map (fun x => challengeOf psk x.1) log) /\ NoDup (map fst log).
Proof.
  intros Hn E F R. destruct (wrun_once order iter psk _ ops [0] _ [] w log F (once_start psk rnd b Hn E) R) as [used H].
  pose proof (on_nodup _ _ _ _ _ H) as N. apply NoDup_app in N as (N & _ & _). split_and!; [apply H|done|].
  rewrite <- (map_map fst (challengeOf psk)) in N. by apply NoDup_fmap_1 in N.
Qed.

(** ** A history: the peer joins, restarts, and both times its probe is replayed *)
Import transport_props.
Definition helloFrom (session seq ch : Z) : list Z :=
  match @frame.EncodeWith frame_props.toy_cipher (Some (replicate 24 seq)) frame_props.psk1
    (frame.FProbe (frame.mkProbe 3 seq 5 false session ch false 0 (bond.Hello (bond.mkEpoch session 1) 3))) with
  | Ok raw => raw
  | _ => []
  end.
Definition inputsW (n : Z) : inputs := mkInputs (ms n) (ms n) (ms n) (ms n) (ms n) (Some (replicate 24 7)) true false.
(** A datagram arrives and its reader runs alone. *)
Definition arrivesW (n session seq ch : Z) : list wop :=
  WArrive 0 peerAddr (frame.FProbe (frame.mkProbe 3 seq 5 false session ch false 0 (bond.Hello (bond.mkEpoch session 1) 3)))
    (helloFrom session seq ch) :: replicate 4 (WStep 0 (inputsW n)).
Definition joinsW : list wop :=
  arrivesW 1 5 0 0 ++ arrivesW 2 5 1 41 ++ arrivesW 3 77 2 42 ++ arrivesW 4 77 2 42 ++ [WSweep (ms 5) true true (ms 5); WRetire 0].
Definition viewW : view :=
  mkView (remote.newTable 0) remote.newSlots
    (Some (mkEchoAwaitProbe (probe.NewProber 0 1 frame_props.psk1 probe_props.pcfg0) 28 second ∅)) false 0 0 0.
Definition peerW : inbound.peer :=
  mkPeer {[ 0 := viewW ]} (Some planeW.1) planeW.2 (probe.NewReflector frame_props.psk1 probe_props.rnd1) false 0 0 0.
Definition ranW : outcome unit (world * list (list Z * bond.Epoch)) :=
  @wrun frame_props.toy_cipher routeOrder iter0 joinsW (mkWorld peerW []).
Definition log_of (o : outcome unit (world * list (list Z * bond.Epoch))) : list (list Z * bond.Epoch) :=
  match o with Ok (_, l) => l | _ => [] end.
Definition logW : list (list Z * bond.Epoch) := log_of ranW.

Lemma ranW_ok : exists w, ranW = Ok (w, logW).
Proof.
  assert (E : is_ok ranW = true) by (vm_compute; reflexivity). unfold logW, log_of. destruct ranW as [[w l]|e|]; [by exists w|done|done].
Qed.
(** One restart, although the probe came twice. *)
Lemma logW_once : map snd logW = [bond.mkEpoch 77 1].
Proof. vm_compute. reflexivity. Qed.
Lemma drawsW : NoDup (probe_props.draws probe_props.rnd1).
Proof.
  replace (probe_props.draws probe_props.rnd1) with [41; 42; 43] by (vm_compute; reflexivity).
  apply (bool_decide_unpack _). vm_compute. exact I.
Qed.
Lemma joinsW_calls : Forall calls_ok joinsW.
Proof. unfold joinsW, arrivesW. cbn [replicate app]. repeat (apply Forall_cons_2; [exact I|]). apply Forall_nil_2. Qed.

Lemma restarts_announced_witness :
  map snd logW = [bond.mkEpoch 77 1] /\ Forall (@announced frame_props.toy_cipher frame_props.psk1 (probe_props.draws probe_props.rnd1)) logW.
Proof.
  split; [exact logW_once|]. destruct ranW_ok as [w R].
  exact (proj1 (@restarts_announced frame_props.toy_cipher routeOrder iter0 frame_props.psk1 probe_props.rnd1 peerW joinsW w logW
    drawsW eq_refl joinsW_calls R)).
Defined.

End inbound_props.
