(* ===== verification/BindDispatchProps.v ===== *)
(** * Dispatching ends and never fails

    Over the histories of [BindInboundProps]: whatever arrives, under any
    interleaving, no step of a reader panics and every dispatch ends. *)

From stdpp Require Import base tactics list numbers gmap sets.
From S2P Require Import Prelude Sha256 Float64 Reseq ReseqTheory ReseqProps Frame FrameProps Telemetry TelemetryProps Probe ProbeProps Pmtu BondWire.
From S2P Require Import BondQueue BondLane BondTransport BondTransportTheory BondTransportProps BindRemote BindAdaptive BindAdaptiveProps BindInbound BindInboundProps.

Module dispatch_props.
Import float64 pmtu transport adaptive adaptive_props inbound inbound_props.
#[local] Existing Instances probe.ProbeAcceptance_eq_dec telemetry.PathState_eq_dec probe.eta_Prober telemetry.eta_Estimator.

(** ** Codec calls on any input *)
Section Codec.
Context {C : Cipher} {L : CipherLaws C}.

Definition nonce_ok (n : option (list Z)) : Prop := match n with Some l => length l = frame.nonceLen | None => True end.

Lemma EncodeWith_nopanic n psk f : frame.IsSet psk = true -> nonce_ok n -> frame.EncodeWith n psk f <> Panic.
Proof.
  intros Hs Hn. unfold frame.EncodeWith. destruct (frame_props.NewCodec_ok psk Hs) as (c & -> & Hk). cbn [mbind outcome_bind].
  unfold frame.Encode. destruct (match f with frame.FProbe p => _ | frame.FControl _ => _ end) as [u|e|] eqn:Ev.
  - destruct n as [l|]; [|done]. unfold frame.obfuscate. cbn [frame.obfKey update].
    by destruct (cipher_accepts (frame.obfKey c) l Hk Hn) as (ks & ->).
  - done.
  - destruct f as [p|]; [|done]. revert Ev. unfold frame.validate. by repeat case_match.
Qed.

Lemma acceptLocked_nopanic path sid seq echoed r : snd (probe.acceptLocked path sid seq echoed r) <> Panic.
Proof.
  unfold probe.acceptLocked.
  assert (He : snd (probe.ensurePath path r) <> Panic).
  { unfold probe.ensurePath. destruct (probe.paths r !! path); [done|]. pose proof (probe_props.drawChallenge_spec (probe.rand r)) as D.
    by destruct (probe.drawChallenge (probe.rand r)) as [? []]. }
  destruct (probe.ensurePath path r) as [r1 [st|e|]]; [|done|done].
  destruct (probe.adopted st && _); [destruct (telemetry.Accept _ _) as [? []]; done|]. destruct (echoed =? _); [|done].
  pose proof (probe_props.drawChallenge_spec (probe.rand r1)) as D. destruct (probe.drawChallenge (probe.rand r1)) as [? []]; [|done|done].
  by destruct (_ && _).
Qed.

Lemma acceptLocked_psk path sid seq echoed r : probe.rpsk (fst (probe.acceptLocked path sid seq echoed r)) = probe.rpsk r.
Proof.
  unfold probe.acceptLocked.
  assert (He : probe.rpsk (fst (probe.ensurePath path r)) = probe.rpsk r).
  { unfold probe.ensurePath. destruct (probe.paths r !! path); [done|]. by destruct (probe.drawChallenge (probe.rand r)) as [? []]. }
  destruct (probe.ensurePath path r) as [r1 [st|e|]]; [|done|done]. cbn [fst] in He. rewrite <- He.
  destruct (probe.adopted st && _); [by destruct (telemetry.Accept _ _) as [? []]|]. destruct (echoed =? _); [|done].
  destruct (probe.drawChallenge (probe.rand r1)) as [? []]; [|done|done]. by destruct (_ && _).
Qed.

Lemma AcceptProbe_nopanic raw r : frame.IsSet (probe.rpsk r) = true -> bytes_ok raw ->
  snd (probe.AcceptProbe raw r) <> Panic /\ probe.rpsk (fst (probe.AcceptProbe raw r)) = probe.rpsk r.
Proof.
  intros Hs Hb. pose proof (frame_props.oneshot_decode (probe.rpsk r) raw Hs Hb) as D. unfold probe.AcceptProbe.
  destruct (frame.DecodeWith (probe.rpsk r) raw) as [[p|c]|e|]; [|done|done|done].
  pose proof (acceptLocked_nopanic (frame.PathID p) (frame.SessionID p) (frame.ProbeSeq p) (frame.Challenge p) r) as N.
  pose proof (acceptLocked_psk (frame.PathID p) (frame.SessionID p) (frame.ProbeSeq p) (frame.Challenge p) r) as K.
  destruct (probe.acceptLocked _ _ _ _ r) as [r' [v|e|]]; [|done|done]. by destruct (negb (probe.reflect v)).
Qed.

Lemma SendProbePayload_psk n now pl p : frame.IsSet (probe.psk p) = true -> nonce_ok n ->
  let '(p', _, raw) := probe.SendProbePayload n now pl p in (probe.psk p' = probe.psk p /\ probe.est p' = probe.est p) /\ raw <> Panic.
Proof. intros Hs Hn. cbn. split; [done|]. by apply EncodeWith_nopanic. Qed.

Lemma sendAttempt_psk s size e : frame.IsSet (probe.psk (prober e)) = true -> nonce_ok (pmtu.nonce s) ->
  let '(e', _, o) := sendAttempt s size e in
    (probe.psk (prober e') = probe.psk (prober e) /\ probe.est (prober e') = probe.est (prober e)) /\ o <> Panic.
Proof.
  intros Hs Hn. unfold sendAttempt. destruct (refused s); [done|]. unfold probe.SendPaddedProbe.
  destruct (frame.PadLenForOnWire _) as [pad|x|] eqn:Ep; [|done|].
  - cbn [probe.buildProbeLocked]. match goal with |- context [frame.EncodeWith ?n ?k ?f] => pose proof (EncodeWith_nopanic n k f Hs Hn) as N; destruct (frame.EncodeWith n k f) as [raw|x|] end;
      [|done|done]. cbn. by destruct (sendResult s).
  - exfalso. revert Ep. unfold frame.PadLenForOnWire. by repeat case_match.
Qed.
End Codec.

(** ** The invariant *)
Section Ready.
Context {C : Cipher} {L : CipherLaws C} (order : gmap Z adaptiveRoute -> list Z) (iter : Time -> gmap Z lanes.attempt -> list Z).
Context (key : frame.Key).

(** A prober with the peer's key, whose loss window has not met the last number. *)
Definition prober_ok (p : probe.Prober) : Prop :=
  frame.IsSet (probe.psk p) = true /\ probe.psk p = key /\ telemetry_props.calm (telemetry.loss (probe.est p)).

(** Every view has such a prober. *)
Definition view_ok (v : view) : Prop := exists e, vprobe v = Some e /\ prober_ok (prober e).

(** A datagram that is not, under the peer's key, a probe with the last number. *)
Definition not_last (raw : list Z) : bool :=
  match frame.DecodeWith key raw with Ok (frame.FProbe pr) => negb (frame.ProbeSeq pr =? 2 ^ 64 - 1) | _ => true end.

(** Then the loss accounting of an echo returns, and the window stays so. *)
Lemma echo_ok now live raw p : prober_ok p -> bytes_ok raw -> not_last raw = true ->
  probe.echoReturns raw p = true /\ prober_ok (fst (probe.HandleEchoProbe now live raw p)).
Proof.
  intros P Hb Hl. pose proof P as (H1 & H2 & H3). unfold probe.echoReturns, probe.HandleEchoProbe, not_last in *. rewrite H2 in *.
  pose proof (frame_props.oneshot_decode key raw H1 Hb) as D. destruct (frame.DecodeWith key raw) as [[pr|k]|e|]; try done.
  destruct D as (_ & Hq & _). cbn in Hq.
  destruct (negb (frame.PathID pr =? probe.pathID p)); [done|]. destruct (negb (frame.SessionID pr =? probe.sessionID p)); [done|].
  destruct (telemetry_props.calm_observe (frame.ProbeSeq pr) _ H3) as (w & Ew & Cw); [split; [apply Hq|]; red in Hq; lia|].
  unfold telemetry.echoReturns. rewrite Ew. split; [by rewrite bool_decide_eq_true_2|].
  assert (Hc : prober_ok (p <| probe.est := telemetry.ObserveProbeEcho (frame.ProbeSeq pr) (probe.est p) |>)).
  { unfold telemetry.ObserveProbeEcho. rewrite Ew. split_and!; [by rewrite <- H2 in H1|done|exact Cw]. }
  set (p1 := p <| probe.est := _ |>) in *. clearbody p1. destruct (telemetry.Accept _ _) as [g []]; cbn [negb fst]; [|exact Hc].
  destruct Hc as (C1 & C2 & C3). split_and!; [done|done|]. cbn. unfold telemetry.ObserveRTT. by destruct (negb (telemetry.haveRTT _)).
Qed.

Record ready (c : Time) (b : inbound.peer) : Prop := mkReady {
  rd_views : map_Forall (fun _ => view_ok) (views b);
  rd_key : frame.IsSet (probe.rpsk (reflector b)) = true;
  rd_transport : match transportOf b with
                 | Some a => exists n dl out, peer_ok key c n a /\ rq_ok dl out (resequencer b)
                 | None => True
                 end;
  rd_latch : 0 <= firstUp b <= if everUp b then 1 else 0
}.

Definition grows (b b' : inbound.peer) : Prop := forall id, is_Some (views b !! id) -> is_Some (views b' !! id).
Definition task_in (b : inbound.peer) (t : task) : Prop := is_Some (views b !! tview t) /\ bytes_ok (traw t) /\ not_last (traw t) = true.

Lemma ready_mono c c' b : c <= c' -> ready c b -> ready c' b.
Proof.
  intros Hc [H1 H2 H3 H4]. split; [done|done| |done]. destruct (transportOf b) as [a|]; [|done].
  destruct H3 as (n & dl & out & Hp & Hq). exists n, dl, out. split; [|done]. by apply (time_mono key c).
Qed.

Lemma ready_view c id f b : (forall v, view_ok v -> view_ok (f v)) -> ready c b -> ready c (onView id f b).
Proof.
  intros Hf [H1 H2 H3 H4]. split; [|done..]. intros j v. unfold onView. cbn [views update]. intros Hj.
  destruct (decide (j = id)) as [->|Hne].
  - rewrite lookup_alter_eq in Hj. destruct (views b !! id) as [v0|] eqn:E; [|done]. injection Hj as <-. by eapply Hf, H1.
  - rewrite lookup_alter_ne in Hj by done. by eapply H1.
Qed.
Lemma grows_view id f b : grows b (onView id f b).
Proof. intros j Hj. unfold onView. cbn [views update]. destruct (decide (j = id)) as [->|]; [|by rewrite lookup_alter_ne by done].
  rewrite lookup_alter_eq. by apply fmap_is_Some. Qed.
Lemma grows_refl b b' : views b' = views b -> grows b b'.
Proof. intros E id H. by rewrite E. Qed.
Lemma grows_trans b1 b2 b3 : grows b1 b2 -> grows b2 b3 -> grows b1 b3.
Proof. intros H1 H2 id H. by apply H2, H1. Qed.

Lemma onProber_ok f v : (forall p, prober_ok p -> prober_ok (f p)) -> view_ok v -> view_ok (onProber f v).
Proof. intros Hf (e & E & Hs). unfold onProber. rewrite E. eexists. split; [done|]. by apply Hf. Qed.

(** The transport takes part, with its own invariant. *)
Lemma ready_plane c c' b a rq n dl out : ready c b -> peer_ok key c' n a -> rq_ok dl out rq ->
  ready c' (b <| transportOf := Some a |> <| resequencer := rq |>).
Proof. intros [H1 H2 H3 H4] Hp Hq. split; [done|done| |done]. cbn. by exists n, dl, out. Qed.

Lemma learnFrom_ready c i id v src pl ad b : ready c b -> c <= atNow i ->
  exists b', learnFrom i id v src pl ad b = Ok b' /\ ready (atNow i) b' /\ views b' = views b.
Proof.
  intros H Hc. unfold learnFrom. pose proof (rd_transport _ _ H) as T. destruct (transportOf b) as [a|].
  2: { exists b. split_and!; [done|by apply (ready_mono c)|done]. }
  destruct T as (n & dl & out & Hp & Hq).
  destruct (learn_ok iter key c n id (vretired v) (match vprobe v with Some e => telemetry.RTT (probe.ProberEstimate (prober e)) | None => 0 end)
    (atNow i) (atReseq i) src pl ad dl out a (resequencer b) Hp Hc Hq) as ([a' rq'] & -> & Hp' & Hq').
  eexists. split; [done|]. split; [by eapply ready_plane|done].
Qed.

(** What a step of a reader is followed by. *)
Definition follows (t : task) (next : option task) : Prop :=
  match next with
  | Some t' => tview t' = tview t /\ traw t' = traw t /\ (rank (tphase t') < rank (tphase t))%nat
  | None => (0 < rank (tphase t))%nat
  end.

Lemma keep_ok (f : view -> view) : (forall v, vprobe (f v) = vprobe v) -> forall v, view_ok v -> view_ok (f v).
Proof. intros Hf v (e & E & Hs). exists e. by rewrite Hf. Qed.

Lemma write_ready c i id v dst raw b : ready c b -> let '(b', _, _) := write i id v dst raw b in ready c b' /\ grows b b'.
Proof.
  intros H. unfold write. destruct (_ && _); [|split; [done|by apply grows_refl]].
  split; [by apply ready_view; [apply keep_ok|]|apply grows_view].
Qed.

Definition steps_to (c : Time) (b : inbound.peer) (t : task) (o : outcome unit (inbound.peer * option task * list event)) : Prop :=
  exists b' next es, o = Ok (b', next, es) /\ ready c b' /\ grows b b' /\ follows t next.

Lemma step_arrived c i t b v f : ready c b -> views b !! tview t = Some v -> tphase t = Arrived f -> c <= atNow i ->
  steps_to (atNow i) b t (step order iter i t b).
Proof.
  intros H Hv Hp Hc. unfold step. rewrite Hv, Hp. pose proof (ready_mono _ _ _ Hc H) as Hn.
  set (rx := fun v => v <| rxBytes := u64 (rxBytes v + Z.of_nat (length (traw t))) |>).
  assert (H1 : ready c (onView (tview t) rx b)) by by apply ready_view; [apply keep_ok|].
  pose proof (grows_view (tview t) rx b) as G1. set (b1 := onView (tview t) rx b) in *. clearbody b1.
  destruct f as [p|k].
  - destruct (remote.learnRemoteFromProbe _ _ _ _) as [tbl roamed]. eexists _, _, _. split; [done|]. split_and!.
    + apply ready_view; [by apply keep_ok|]. by apply (ready_mono c).
    + eapply grows_trans; [exact G1|apply grows_view].
    + destruct (frame.IsEcho p); [destruct (vprobe v)|]; cbn; rewrite Hp; cbn; by (split_and!; [done..|lia]) || lia.
  - pose proof (rd_transport _ _ H1) as T. destruct (transportOf b1) as [a|].
    2: { eexists _, _, _. split; [done|]. split_and!; [by apply (ready_mono c)|done|]. cbn. rewrite Hp. cbn. lia. }
    destruct T as (n & dl & out & Ha & Hq).
    destruct (receive_ok order iter key c n (tview t) (tsrc t) k (atNow i) (atReseq i) dl out a (resequencer b1) Ha Hc Hq) as ([a' rq'] & -> & Ha' & Hq').
    eexists _, _, _. split; [done|]. split_and!; [by eapply ready_plane|done|]. cbn. rewrite Hp. cbn. lia.
Qed.

Lemma step_ok c i t b : ready c b -> task_in b t -> c <= atNow i -> nonce_ok (nonce i) -> steps_to (atNow i) b t (step order iter i t b).
Proof.
  intros H ([v Hv] & Hb & Hl) Hc Hn. pose proof (ready_mono _ _ _ Hc H) as Hr.
  destruct (tphase t) as [f|seq|pl seq|seq| | | |a|a pl] eqn:Hp; [by apply (step_arrived c i t b v f)|..];
    unfold step, steps_to, follows; rewrite Hv, Hp; destruct (rd_views _ _ H _ _ Hv) as (e & Ee & Hs); rewrite ?Ee.
  - pose proof (probe_props.HandleEchoProbe_cases (atProber i) (atLive i) (traw t) (prober e) (proj1 Hs) Hb) as K.
    destruct (echo_ok (atProber i) (atLive i) (traw t) (prober e) Hs Hb Hl) as [_ Ok'].
    destruct (probe.HandleEchoProbe _ _ _ _) as [pr [fr|x|]]; [| |done]; (eexists _, _, _; split; [done|]; split_and!; [|apply grows_view|done|done|cbn; lia]);
      apply ready_view; try done; intros w; by apply onProber_ok.
  - destruct (learnFrom_ready c i (tview t) v (tsrc t) pl false b H Hc) as (b' & -> & H' & E).
    eexists _, _, _. split; [done|]. split_and!; [done|by apply grows_refl|done|done|cbn; lia].
  - eexists _, _, _. split; [done|]. split_and!; [|apply grows_view|done|done|cbn; lia]. apply ready_view; [|done].
    intros w (e' & E' & Hs'). exists (NotifyEcho seq e'). cbn. rewrite E'. split; [done|]. unfold NotifyEcho. by destruct (pmtu.pending e' !! seq).
  - eexists _, _, _. split; [done|]. split_and!; [done|by apply grows_refl|]. destruct (decide _); cbn; [split_and!; [done..|lia]|lia].
  - destruct (everUp b) eqn:Eu; (eexists _, _, _; split; [done|]; split_and!; [|by apply grows_refl|cbn; lia]); [done|].
    destruct Hr as [R1 R2 R3 R4]. split; [done..|]. cbn. rewrite Eu in R4. lia.
  - destruct (AcceptProbe_nopanic (traw t) (reflector b) (rd_key _ _ H) Hb) as [K1 K2].
    destruct (probe.AcceptProbe _ _) as [r o]. cbn [fst snd] in K1, K2.
    assert (Hr' : ready (atNow i) (b <| reflector := r |>)) by (destruct Hr; split; cbn; by rewrite ?K2).
    destruct o as [a|x|]; [| |done]; (eexists _, _, _; split; [done|]; split; [done|split; [by apply grows_refl|cbn]]); [|lia].
    split_and!; [done|done|lia].
  - destruct (decide _); cbn [mbind outcome_bind].
    { eexists _, _, _. split; [done|]. split_and!; [done|by apply grows_refl|done|done|cbn; lia]. }
    destruct (learnFrom_ready c i (tview t) v (tsrc t) (frame.ProbePayload (probe.AProbe a)) (bool_decide (probe.Acceptance a = probe.ProbeAdopted)) b H Hc)
      as (b' & -> & H' & E).
    eexists _, _, _. split; [done|]. split_and!; [done|by apply grows_refl|done|done|cbn; lia].
  - pose proof (EncodeWith_nopanic (nonce i) (probe.rpsk (reflector b))) as K. unfold probe.EncodeAcceptedProbe.
    match goal with |- context [frame.EncodeWith ?n ?k ?f] => specialize (K f (rd_key _ _ H) Hn); destruct (frame.EncodeWith n k f) as [echo|x|] end; [| |done].
    + pose proof (write_ready (atNow i) i (tview t) v (tsrc t) echo b Hr) as W. destruct (write _ _ _ _ _ _) as [[b' es] ok]. destruct W as [W1 W2].
      eexists _, _, _. split; [done|]. split_and!; [done|done|cbn; lia].
    + eexists _, _, _. split; [done|]. split_and!; [done|by apply grows_refl|cbn; lia].
Qed.

(** Every call a step makes returns. *)
Lemma step_returns c t b : ready c b -> task_in b t -> stepReturns t b = true.
Proof.
  intros H ([v Hv] & Hb & Hl). unfold stepReturns. rewrite Hv. destruct (rd_views _ _ H _ _ Hv) as (e & Ee & Hs).
  assert (Le : learnReturns v b = true).
  { unfold learnReturns. rewrite Ee. destruct (transportOf b); [|done]. apply bool_decide_eq_true_2.
    apply telemetry_props.calm_fraction, Hs. }
  destruct (tphase t); try done.
  - rewrite Ee. by apply (echo_ok 0 0 (traw t) (prober e)).
  - by rewrite Le, orb_true_r.
Qed.

(** *** The other users *)
Lemma enqueue_ok c n bufs metadata now a : peer_ok key c n a -> c <= now ->
  (match metadata with Some l => length l = length bufs | None => True end) ->
  peer_ok key now n (fst (enqueue bufs metadata now a)) /\ snd (enqueue bufs metadata now a) <> Panic.
Proof.
  intros H Hc Hm. unfold enqueue. destruct (aclosed a); [split; [by apply (time_mono key c)|done]|].
  pose proof (enqueue_loop_ok iter key c now n bufs metadata a H Hc Hm) as K. destruct (enqueue_loop bufs metadata now a) as [a' r].
  destruct K as [K1 K2]. split; [done|]. by destruct r.
Qed.

Lemma send_ok c bufs metadata ep now b : ready c b -> c <= now ->
  let r := match metadata with Some l => SendWithMetadata bufs l ep now b | None => Send bufs ep now b end in
  ready now r.1 /\ views r.1 = views b /\ r.2 <> Panic.
Proof.
  intros H Hc. pose proof (ready_mono _ _ _ Hc H) as Hn.
  assert (S : forall m, (match m with Some l => length l = length bufs | None => True end) ->
    ready now (send bufs m ep now b).1 /\ views (send bufs m ep now b).1 = views b /\ (send bufs m ep now b).2 <> Panic).
  { intros m Hm. unfold send. destruct ep; [done|done|]. pose proof (rd_transport _ _ H) as T.
    destruct (transportOf b) as [a|]; [|done]. destruct T as (n & dl & out & Ha & Hq). destruct (enqueue_ok c n bufs m now a Ha Hc Hm) as [K1 K2].
    destruct (enqueue bufs m now a) as [a' r]. cbn [fst snd] in *. split_and!; [|done|by destruct r].
    destruct H as [H1 H2 H3 H4]. split; [done|done| |done]. cbn. by exists n, dl, out. }
  destruct metadata as [l|]; [|by apply S]. unfold SendWithMetadata. destruct (Nat.eqb_spec (length l) (length bufs)); cbn [negb]; [by apply S|done].
Qed.

Lemma emitProbe_ok c ord size i id b : ready c b -> is_Some (views b !! id) -> nonce_ok (nonce i) ->
  exists b' es, emitProbe ord size i id b = Ok (b', es) /\ ready c b' /\ grows b b'.
Proof.
  intros H [v Hv] Hn. destruct (rd_views _ _ H _ _ Hv) as (e & Ee & Hs). unfold emitProbe. rewrite Hv.
  destruct (remote.emitProbe _ _ _) as [[rv use] roamed]. set (v1 := v <| vtable := _ |> <| vslots := _ |>).
  assert (E1 : vprobe v1 = Some e) by done. assert (K1 : view_ok v1) by by exists e. clearbody v1.
  assert (H1 : ready c (onView id (fun _ => v1) b)) by by apply ready_view.
  assert (L1 : views (onView id (fun _ => v1) b) !! id = Some v1) by (unfold onView; cbn; by rewrite lookup_alter_eq, Hv).
  pose proof (grows_view id (fun _ => v1) b) as G1. set (b1 := onView id (fun _ => v1) b) in *. clearbody b1. rewrite E1.
  match goal with |- context [mbind _ ?x] =>
    assert (K : exists b2 es2, x = Ok (b2, es2) /\ ready c b2 /\ grows b1 b2); [|destruct K as (b2 & es2 & -> & H2 & G2)] end.
  { destruct use as [r|dst|]; [| |eexists _, _; split; [done|]; split; [done|by apply grows_refl]].
    - destruct (sendPMTU i v1) as [ref counted].
      pose proof (sendAttempt_psk (mkSurroundings (nonce i) (atProber i) None ref [] false) (size r) e (proj1 Hs) Hn) as K.
      destruct (sendAttempt _ _ _) as [[e' ch] o]. destruct K as [[K Kest] K']. match goal with |- context [onView id (fun _ => ?v) b1] => set (v2 := v) end.
      assert (Hv2 : view_ok v2).
      { exists e'. split; [unfold v2; by destruct (_ && counted), (_ && negb _)|]. destruct Hs as (S1 & S2 & S3). unfold prober_ok. by rewrite K, Kest. }
      clearbody v2.
      destruct o as [u|x|]; [| |done]; (eexists _, _; split; [done|]; split; [by apply ready_view|apply grows_view]).
    - unfold emitProbePayload. rewrite L1, E1.
      match goal with |- context [probe.SendProbePayload ?n ?at_ ?pl ?p] => pose proof (SendProbePayload_psk n at_ pl p (proj1 Hs) Hn) as K;
        destruct (probe.SendProbePayload n at_ pl p) as [[pr x] o] end. destruct K as [[K Kest] K'].
      assert (H2 : ready c (onView id (onProber (fun _ => pr)) b1)).
      { apply ready_view; [|done]. intros w. apply onProber_ok. intros _ _. destruct Hs as (S1 & S2 & S3). unfold prober_ok. by rewrite K, Kest. }
      pose proof (grows_view id (onProber (fun _ => pr)) b1) as G2. set (b2 := onView id _ b1) in *. clearbody b2.
      destruct o as [raw|y|]; [| |done].
      + pose proof (write_ready c i id v1 dst raw b2 H2) as W. destruct (write _ _ _ _ _ _) as [[b3 es3] ok]. destruct W as [W1 W2].
        eexists _, _. split; [done|]. destruct ok; split; [done|by eapply grows_trans|by apply ready_view; [apply keep_ok|]|].
        eapply grows_trans; [exact G2|]. eapply grows_trans; [exact W2|apply grows_view].
      + eexists _, _. split; [done|]. split; [by apply ready_view; [apply keep_ok|]|]. eapply grows_trans; [exact G2|apply grows_view]. }
  cbn [mbind outcome_bind]. eexists _, _. split; [done|]. split; [by apply ready_view; [intros w; by apply onProber_ok|]|].
  eapply grows_trans; [exact G1|]. eapply grows_trans; [exact G2|apply grows_view].
Qed.

Lemma sweep_ready c now won locked at_ b : ready c b ->
  ready c (tickLivenessFromReceive now won locked at_ b) /\ grows b (tickLivenessFromReceive now won locked at_ b).
Proof.
  intros H. unfold tickLivenessFromReceive.
  destruct (_ =? _); [split; [done|by apply grows_refl]|]. destruct (_ <? _); [split; [done|by apply grows_refl]|].
  destruct (negb won); [split; [done|by apply grows_refl]|].
  destruct (negb locked); [split; [by destruct H|by apply grows_refl]|]. split.
  - destruct H as [H1 H2 H3 H4]. split; [|done..]. cbn. intros id v Hv. rewrite lookup_fmap in Hv.
    destruct (views b !! id) as [v0|] eqn:E; [|done]. injection Hv as <-. destruct (vretired v0); [by apply (H1 id)|].
    apply onProber_ok; [done|by apply (H1 id)].
  - intros id Hid. cbn. rewrite lookup_fmap. by apply fmap_is_Some.
Qed.

(** ** Any call, any history *)
Definition world_ok (c : Time) (w : world) : Prop := ready c (node w) /\ Forall (task_in (node w)) (pool w).

(** What the environment must keep to. *)
Definition wop_ok (o : wop) : Prop :=
  match o with
  | WArrive _ _ _ raw => bytes_ok raw /\ not_last raw = true
  | WStep _ i | WEmit _ _ i _ => nonce_ok (nonce i)
  | WOther o => other_call o /\ aop_ok o
  | WAdd _ v => view_ok v
  | _ => True
  end.
Definition wtime (o : wop) : option Time :=
  match o with WStep _ i => Some (atNow i) | WOther o => at_time o | WSend _ _ _ now => Some now | _ => None end.
Fixpoint wclocked (c : Time) (ops : list wop) : Prop :=
  match ops with
  | [] => True
  | o :: ops => match wtime o with Some now => c <= now /\ wclocked now ops | None => wclocked c ops end
  end.

(** Every step made: the calls in it return. *)
Definition returns (o : wop) (w : world) : Prop :=
  match o with WStep k _ => forall t, pool w !! k = Some t -> stepReturns t (node w) = true | _ => True end.
Fixpoint returned (ops : list wop) (w : world) : Prop :=
  match ops with
  | [] => True
  | o :: ops => returns o w /\ match wexec order iter o w with Ok (w, _) => returned ops w | _ => True end
  end.

(** The steps the readers have left, the steps made, and the arrivals. *)
Definition left (l : list task) : nat := sum_list_with (fun t => rank (tphase t)) l.
Definition made (o : wop) (w : world) : nat := match o with WStep k _ => if bool_decide (is_Some (pool w !! k)) then 1 else 0 | _ => 0 end%nat.
Definition arrived (o : wop) : nat := match o with WArrive _ _ _ _ => 1 | _ => 0 end%nat.
Fixpoint made_all (ops : list wop) (w : world) : nat :=
  match ops with
  | [] => 0
  | o :: ops => made o w + match wexec order iter o w with Ok (w, _) => made_all ops w | _ => 0 end
  end%nat.

Lemma left_delete k l t : l !! k = Some t -> left l = (rank (tphase t) + left (delete k l))%nat.
Proof.
  unfold left. revert k. induction l as [|x l IH]; intros [|k] H; try done.
  - by injection H as ->.
  - change (delete (S k) (x :: l)) with (x :: delete k l). cbn [sum_list_with]. rewrite (IH k H). lia.
Qed.
Lemma left_app l1 l2 : left (l1 ++ l2) = (left l1 + left l2)%nat.
Proof. unfold left. apply sum_list_with_app. Qed.

Lemma tasks_grow b b' l : grows b b' -> Forall (task_in b) l -> Forall (task_in b') l.
Proof. intros G F. eapply Forall_impl; [exact F|]. intros t [H1 H2]. split; [by apply G|exact H2]. Qed.

(** A call whose effect is on the peer alone. *)
Lemma world_node c c' w b : world_ok c w -> ready c' b -> grows (node w) b -> world_ok c' (w <| node := b |>).
Proof. intros [_ F] H G. split; [done|]. cbn. by eapply tasks_grow. Qed.

Lemma wexec_ok c o w : wop_ok o -> match wtime o with Some now => c <= now | None => True end -> world_ok c w ->
  exists w' l, wexec order iter o w = Ok (w', l) /\ world_ok (default c (wtime o)) w' /\
    (left (pool w') + made o w <= left (pool w) + 6 * arrived o)%nat.
Proof.
  intros Ho Ht H. assert (Hw := H). destruct Hw as [Hr F].
  destruct o as [id src f raw|k i|o|bufs metadata ep now|ord size i id|now won locked at_|id v|id|]; cbn [wexec wtime default made arrived] in *.
  - destruct (views (node w) !! id) as [v|] eqn:Ev; (eexists _, _; split; [done|]); [|split; [done|lia]].
    split; [split; [done|]|].
    + cbn [node pool update]. apply Forall_app. split; [done|]. apply Forall_singleton. split; [by exists v|done].
    + cbn [pool update]. rewrite left_app. unfold left at 2. cbn. lia.
  - destruct (pool w !! k) as [t|] eqn:Hk; [|eexists _, _; split; [done|]; split; [split; [by apply (ready_mono c)|done]|cbn; lia]].
    destruct (step_ok c i t (node w) Hr) as (b' & next & es & -> & Hb & G & Hf); [by apply (proj1 (Forall_lookup _ _) F k)|done|done|].
    cbn [mbind outcome_bind]. eexists _, _. split; [done|]. unfold follows in Hf.
    assert (Hin : task_in (node w) t) by by apply (proj1 (Forall_lookup _ _) F k).
    split; [split; [done|]|].
    + cbn [node pool]. apply Forall_app. split; [apply (tasks_grow (node w)); [done|]; by apply Forall_delete|].
      destruct next as [t'|]; [|constructor]. apply Forall_singleton. destruct Hf as (E1 & E2 & _). destruct Hin as [I1 I2].
      split; [rewrite E1; by apply G|by rewrite E2].
    + cbn [pool]. rewrite (left_delete k (pool w) t Hk), left_app. destruct next as [t'|]; unfold left at 2; cbn [sum_list_with option_list]; [destruct Hf as (_ & _ & Hf)|]; cbn; lia.
  - destruct (transportOf (node w)) as [a|] eqn:Ea.
    2: { eexists _, _. split; [done|]. split; [|lia]. split; [|done]. destruct (at_time o); [by apply (ready_mono c)|done]. }
    pose proof (rd_transport _ _ Hr) as T. rewrite Ea in T. destruct T as (n & dl & out & Hp & Hq).
    destruct (aexec_ok order iter key c n o dl out a (resequencer (node w)) (proj2 Ho) Ht Hp Hq) as ([a' rq'] & e & n' & -> & Hp' & Hq' & _).
    cbn [mbind outcome_bind]. eexists _, _. split; [done|]. split; [|cbn [pool update]; lia]. eapply world_node; [done|by eapply ready_plane|by apply grows_refl].
  - destruct (send_ok c bufs metadata ep now (node w) Hr Ht) as (S1 & S2 & S3).
    destruct (match metadata with Some l => _ | None => _ end) as [b' r]. cbn [fst snd] in *.
    destruct r as [u|x|]; [| |done]; (eexists _, _; split; [done|]; split; [|cbn [pool update]; lia]); (eapply world_node; [done|done|by apply grows_refl]).
  - destruct (views (node w) !! id) as [v|] eqn:Ev; [|eexists _, _; split; [done|]; split; [done|lia]].
    destruct (emitProbe_ok c ord size i id (node w) Hr) as (b' & es & -> & Hb & G); [by exists v|done|]. cbn [mbind outcome_bind].
    eexists _, _. split; [done|]. split; [by eapply world_node|cbn [pool update]; lia].
  - destruct (sweep_ready c now won locked at_ (node w) Hr) as [S1 S2]. eexists _, _. split; [done|]. split; [by eapply world_node|cbn [pool update]; lia].
  - destruct (views (node w) !! id) as [v0|] eqn:Ev; [eexists _, _; split; [done|]; split; [done|lia]|].
    eexists _, _. split; [done|]. split; [|cbn [pool update]; lia]. eapply world_node; [done| |].
    + destruct Hr as [H1 H2 H3 H4]. split; [|done..]. cbn. by apply map_Forall_insert_2.
    + intros j Hj. cbn. destruct (decide (j = id)) as [->|]; [rewrite lookup_insert_eq; done|by rewrite lookup_insert_ne by done].
  - eexists _, _. split; [done|]. split; [|cbn [pool update]; lia]. eapply world_node; [done|by apply ready_view; [apply keep_ok|]|apply grows_view].
  - eexists _, _. split; [done|]. split; [|cbn [pool update]; lia]. eapply world_node; [done| |by apply grows_refl].
    destruct Hr as [H1 H2 H3 H4]. split; [done..|]. cbn. destruct (everUp (node w)); lia.
Qed.

Lemma world_returns c o w : world_ok c w -> returns o w.
Proof.
  intros [Hr F]. destruct o; try done. cbn. intros t Ht. eapply step_returns; [exact Hr|]. by apply (proj1 (Forall_lookup _ _) F _ _ Ht).
Qed.

Lemma wrun_ok ops : forall c w, Forall wop_ok ops -> wclocked c ops -> world_ok c w ->
  exists w' l c', wrun order iter ops w = Ok (w', l) /\ world_ok c' w' /\ returned ops w /\
    (left (pool w') + made_all ops w <= left (pool w) + 6 * sum_list_with arrived ops)%nat.
Proof.
  induction ops as [|o ops IH]; intros c w F Hc H; cbn [wrun made_all returned sum_list_with].
  { exists w, [], c. split_and!; [done|done|done|lia]. }
  apply Forall_cons in F as [Ho F]. cbn [wclocked] in Hc.
  destruct (wexec_ok c o w Ho) as (w1 & l1 & E1 & H1 & K1); [by destruct (wtime o); [apply Hc|]|done|].
  rewrite E1. cbn [mbind outcome_bind]. destruct (IH (default c (wtime o)) w1 F) as (w2 & l2 & c2 & E2 & H2 & Y2 & K2);
    [by destruct (wtime o); [apply Hc|]|done|].
  rewrite E2. cbn [mbind outcome_bind]. eexists _, _, c2. split; [done|]. split; [done|]. split; [split; [by eapply world_returns|done]|]. cbn. lia.
Qed.
End Ready.

(** C7. A reader always gets to the end.  From an opened peer whose paths have
    probers with the peer's key, over any datagrams but an authentic probe or echo
    numbered 2^64-1, under any interleaving of the readers' steps with each other,
    with the flusher, the drainer, the engine's sends, the probe cadence, the sweep
    and reconfiguration, with a transport clock that does not run backwards: no step
    panics; every call a step makes returns; every dispatch ends, six steps per
    datagram being the most there are, with none left for a reader that is done; and
    the callback of the first path to come up is called at most once.  The number
    2^64-1 is excluded because two loops of the loss window do not end at it
    ([telemetry_props.last_number_hangs]); no prober gets there by counting. *)
Theorem dispatch_total {C : Cipher} {L : CipherLaws C} order iter key c session generation rq a0 b ops :
  frame_props.codec_for key c -> rq = None \/ rq = instantiate None ->
  openAdaptivePeer c session generation rq = Ok (a0, resequencer b) -> transportOf b = Some a0 ->
  frame.IsSet (probe.rpsk (reflector b)) = true -> map_Forall (fun _ => view_ok key) (views b) ->
  everUp b = false -> firstUp b = 0 -> wclocked 0 ops -> Forall (wop_ok key) ops ->
  exists w log, wrun order iter ops (mkWorld b []) = Ok (w, log) /\ 0 <= firstUp (node w) <= 1 /\
    returned order iter ops (mkWorld b []) /\
    (made_all order iter ops (mkWorld b []) + left (pool w) <= 6 * sum_list_with arrived ops)%nat.
Proof.
  intros Hc Hr Ho Ha Hk Hv He Hf Ht F.
  assert (Hq : rq_ok [] [] rq) by (destruct Hr as [->| ->]; [done|by apply (instantiate_rq [] [] None)]).
  destruct (open_ok key c session generation rq _ Hc Hq Ho) as [H1 H2].
  assert (W : world_ok key 0 (mkWorld b [])).
  { split; [|constructor]. cbn [node]. split; [done|done| |rewrite He, Hf; lia]. rewrite Ha. by exists 0, [], []. }
  destruct (wrun_ok order iter key ops 0 _ F Ht W) as (w & log & c' & E & [W1 _] & Y & K). exists w, log. split; [done|].
  split; [|split; [done|cbn in K; lia]]. pose proof (rd_latch _ _ _ W1). destruct (everUp (node w)); lia.
Qed.

Lemma helloW_bytes session seq ch : bytes_ok (helloFrom session seq ch) ->
  @not_last frame_props.toy_cipher frame_props.psk1 (helloFrom session seq ch) = true ->
  forall n, Forall (@wop_ok frame_props.toy_cipher frame_props.psk1) (arrivesW n session seq ch).
Proof.
  intros Hb Hl n. unfold arrivesW. cbn [replicate]. apply Forall_cons_2; [split; [exact Hb|exact Hl]|].
  repeat (apply Forall_cons_2; [reflexivity|]). apply Forall_nil_2.
Qed.
Lemma joinsW_ok : Forall (@wop_ok frame_props.toy_cipher frame_props.psk1) joinsW.
Proof.
  unfold joinsW. repeat (apply Forall_app_2; [apply helloW_bytes; [apply bytes_check|]; vm_compute; reflexivity|]).
  repeat (apply Forall_cons_2; [exact I|]). apply Forall_nil_2.
Qed.
Lemma joinsW_clocked : wclocked 0 joinsW.
Proof.
  unfold joinsW, arrivesW. generalize (helloFrom 5 0 0) (helloFrom 5 1 41) (helloFrom 77 2 42). intros r1 r2 r3.
  cbn. unfold transport_props.ms, millisecond, second. lia.
Qed.

Lemma dispatch_total_witness :
  exists w log, @wrun frame_props.toy_cipher routeOrder transport_props.iter0 joinsW (mkWorld peerW []) = Ok (w, log) /\ 0 <= firstUp (node w) <= 1 /\
    @returned frame_props.toy_cipher routeOrder transport_props.iter0 joinsW (mkWorld peerW []) /\
    (@made_all frame_props.toy_cipher routeOrder transport_props.iter0 joinsW (mkWorld peerW []) + left (pool w) <= 6 * sum_list_with arrived joinsW)%nat.
Proof.
  refine (@dispatch_total frame_props.toy_cipher frame_props.toy_laws routeOrder transport_props.iter0 frame_props.psk1 frame_props.codec1
    1 1 (instantiate None) planeW.1 peerW joinsW codec1_ok (or_intror eq_refl) adaptive_props.openW eq_refl eq_refl _ eq_refl eq_refl joinsW_clocked joinsW_ok).
  apply map_Forall_singleton. eexists. split; [reflexivity|]. split; [reflexivity|]. split; [reflexivity|].
  apply telemetry_props.calm_new. vm_compute. reflexivity.
Defined.
End dispatch_props.
