(* ===== verification/BindJoinProps.v ===== *)
(** * Two peers meet

    The two ends of a path composed: an edge that just started probes the address
    of its hub; the hub reflects with a challenge and its hello; the edge answers
    the challenge.  After two probes each end's transport follows the other's
    epoch and has a lane with a route back, whatever the hub remembered of the
    edge's former run. *)

From stdpp Require Import base tactics list numbers gmap sets.
From S2P Require Import Prelude Sha256 Float64 Reseq ReseqTheory ReseqProps Frame FrameProps Telemetry Probe ProbeProps Pmtu BondWire BondWireProps.
From S2P Require Import BondQueue BondLane BondTransport BondWindow BondTransportTheory BondPollTheory BondTransportProps BondEmitTheory.
From S2P Require Import BindRemote BindAdaptive BindAdaptiveProps BindInbound BindInboundProps.

Module join_props.
Import float64 pmtu lanes transport window transport_ok emit_ok adaptive adaptive_props inbound inbound_props.
#[local] Existing Instances probe.ProbeAcceptance_eq_dec probe.eta_Prober telemetry.PathState_eq_dec bond.Epoch_eq_dec.

(** ** Learning a hello *)
Lemma PathUp_lane ident rid rt now t : lastTime t <= now ->
  exists t', PathUp ident rid rt now t = (t', Ok ()) /\ lastTime t' = now /\ epoch t' = epoch t /\ remote t' = remote t /\
    (ident, now) ∈ map lview (paths t').
Proof.
  intros Ht. unfold PathUp. rewrite checkTime_ok by done. set (u := t <| lastTime := now |>).
  assert (A : forall i l p, l !! i = Some p -> id p = ident -> (ident, now) ∈ map lview (alter (fun p => p <| lease := now |>) i l)).
  { intros i l p Hp E. apply list_elem_of_fmap. exists (p <| lease := now |>). split; [by rewrite <- E|].
    apply (list_elem_of_lookup_2 _ i). by rewrite list_lookup_alter_eq, Hp. }
  destruct (find ident u) as [i|] eqn:Ef; eexists; (split; [done|]); (split_and!; [done|done|done|]).
  - destruct (find_spec _ _ _ Ef) as (p & Hp & Ei). by apply (A i (paths u) p).
  - unfold upd, seq_let. cbn [paths update].
    apply (A _ _ (newLane ident rid (if rt <=? 0 then 50 * millisecond else rt) now)); [|done]. apply list_lookup_middle. done.
Qed.

(** The transport follows [ep] and has a lane over [view] with a route to [from]. *)
Record joined (a : adaptivePeer) (ep : bond.Epoch) (view rp : Z) (from : AddrPort) (now : Time) : Prop := mkJoined {
  jn_remote : remote (tr a) = ep;
  jn_route : routes a !! laneID view rp = Some (mkRoute view from);
  jn_lane : (laneID view rp, now) ∈ map lview (paths (tr a))
}.

(** When a hello of [ep] is believed: it is the epoch followed, the first one
    seen, or another boot that was adopted. *)
Definition believes (ep : bond.Epoch) (adopted : bool) (r : bond.Epoch) : Prop :=
  r = ep \/ bond.Boot r = 0 \/ adopted = true /\ bond.Boot r <> bond.Boot ep.

Lemma learn_joins view rtt now rnow from ep rp adopted dl out a rq :
  bond_wire_props.epoch_ok ep -> is_byte rp -> bond.Boot ep <> bond.Boot (epoch (tr a)) -> aclosed a = false ->
  believes ep adopted (remote (tr a)) -> lastTime (tr a) <= now -> rq_ok dl out rq ->
  exists a' rq', learn view false rtt now rnow from (bond.Hello ep rp) adopted (a, rq) = Ok (a', rq') /\
    joined a' ep view rp from now /\ epoch (tr a') = epoch (tr a) /\ aclosed a' = false /\ lastTime (tr a') = now /\ rq_ok dl out rq'.
Proof.
  intros He Hp Hne Hcl Hb Ht Hq. unfold learn. rewrite (bond_wire_props.ParseHello_Hello ep rp He Hp). cbn [negb orb].
  rewrite (proj2 (Z.eqb_neq _ _)) by done. rewrite Hcl.
  pose proof (SetRemote_lanes ep adopted (tr a)) as S.
  assert (Er : remote (SetRemote ep adopted (tr a)).1 = ep).
  { unfold SetRemote. destruct (bool_decide_reflect (ep = remote (tr a))) as [E|E]; [by rewrite E|].
    destruct He as [[B _] [G _]]. rewrite (proj2 (Z.eqb_neq (bond.Boot ep) 0)) by lia. rewrite (proj2 (Z.eqb_neq (bond.Generation ep) 0)) by lia. cbn [orb].
    destruct Hb as [Hb|[Hb|[-> Hb]]]; [done| |].
    - by rewrite Hb.
    - rewrite (proj2 (Z.eqb_neq (bond.Boot ep) (bond.Boot (remote (tr a))))) by done. cbn [negb andb orb].
      by destruct (bond.Boot (remote (tr a)) =? 0). }
  destruct (SetRemote ep adopted (tr a)) as [t changed]. cbn [fst] in Er. destruct S as (_ & S2 & S3 & _). cbv zeta.
  rewrite bool_decide_true by done. cbn [negb].
  match goal with |- context [mbind _ ?e] =>
    assert (K : exists a2 rq2, e = Ok (a2, rq2) /\ tr a2 = t /\ aclosed a2 = false /\ rq_ok dl out rq2); [|destruct K as (a2 & rq2 & -> & E2 & E3 & Hq2)] end.
  { destruct changed; [|by exists (a <| tr := t |>), rq]. unfold forgetEpoch.
    destruct rq as [q|].
    - destruct (rebase_rq rnow dl out q Hq) as (q' & -> & Hq'). eexists _, _. split; [done|].
      destruct (_ && _); by split_and!.
    - eexists _, _. split; [done|]. destruct (_ && _); by split_and!. }
  cbn [mbind outcome_bind tr update].
  destruct (PathUp_lane (laneID view rp) (laneID rp view) rtt now (tr a2)) as (t' & -> & T1 & T2 & T3 & T4); [rewrite E2; lia|].
  eexists _, _. split; [done|]. split_and!; cbn [tr aclosed signal update]; [|congruence|done|done|done].
  split; cbn [tr routes signal update]; [congruence|by rewrite lookup_insert_eq|done].
Qed.

(** ** One end

    A view that can write, with its prober, and a running transport. *)
Record side (b : inbound.peer) (id : Z) (v : view) (e : EchoAwaitProbe) (a : adaptivePeer) : Prop := mkSide {
  sd_view : views b !! id = Some v;
  sd_probe : vprobe v = Some e;
  sd_writes : vretired v = false;
  sd_transport : transportOf b = Some a
}.

Section Exchange.
Context {C : Cipher} {L : CipherLaws C} (order : gmap Z adaptiveRoute -> list Z) (iter : Time -> gmap Z lanes.attempt -> list Z).

Lemma lookup_onView (b : inbound.peer) id v f : views b !! id = Some v -> views (onView id f b) !! id = Some (f v).
Proof. intros H. unfold onView. cbn [views update]. by rewrite lookup_alter_eq, H. Qed.

(** The ordinary probe of a cadence slot. *)
Lemma emit_ordinary ord size i id b v e a rv dst roamed n :
  side b id v e a -> remote.emitProbe ord (atTable i) (remote.mkView (vtable v) (vslots v)) = (rv, remote.SlotOrdinary dst, roamed) ->
  nonce i = Some n -> written i = true ->
  let pr := frame.mkProbe (probe.pathID (prober e)) (probe.nextSeq (prober e)) (probe.UnixNano (atProber i)) false
              (probe.sessionID (prober e)) (probe.learnedChallenge (prober e)) false 0 (hello id a) in
  forall raw, frame.EncodeWith (Some n) (probe.psk (prober e)) (frame.FProbe pr) = Ok raw ->
  exists b' v' es, emitProbe ord size i id b = Ok (b', es ++ [EWrite id dst raw]) /\
    side b' id v' (e <| prober := probe.ProberTick (atLive i) (prober e <| probe.nextSeq := u64 (probe.nextSeq (prober e) + 1) |>) |>) a /\
    vtable v' = remote.vtable rv /\ vslots v' = remote.vslots rv /\ resequencer b' = resequencer b /\ reflector b' = reflector b.
Proof.
  intros [S1 S2 S3 S4] Hr Hn Hw pr raw E. unfold emitProbe. rewrite S1, Hr. cbn [transportOf onView update]. rewrite S4.
  unfold emitProbePayload. rewrite (lookup_onView b id v _ S1). cbn [vprobe update]. rewrite S2, Hn.
  unfold probe.SendProbePayload, probe.buildProbeLocked. cbn [probe.psk update]. fold pr.
  match goal with |- context [frame.EncodeWith ?x ?y ?z] => change (frame.EncodeWith x y z) with (frame.EncodeWith (Some n) (probe.psk (prober e)) (frame.FProbe pr)) end.
  rewrite E. unfold write. cbn [vretired update]. rewrite S3, Hw. cbn [negb andb mbind outcome_bind].
  match goal with |- exists _ _ _, Ok (?x, _) = _ /\ _ => assert (V : exists v', views x !! id = Some v' /\ vprobe v' = Some
    (e <| prober := probe.ProberTick (atLive i) (prober e <| probe.nextSeq := u64 (probe.nextSeq (prober e) + 1) |>) |>) /\
    vretired v' = false /\ vtable v' = remote.vtable rv /\ vslots v' = remote.vslots rv) end.
  { eexists. unfold onView. cbn [views update]. rewrite !lookup_alter_eq, S1. split; [reflexivity|].
    unfold onProber. cbn. by split_and!. }
  destruct V as (v' & V1 & V2 & V3 & V4 & V5). eexists _, v', _. split; [done|]. split; [by split; [exact V1| | |]|by split_and!].
Qed.

Lemma complete_step n i t b b' t' es b2 es2 :
  step order iter (i 0%nat) t b = Ok (b', Some t', es) -> complete order iter n (fun k => i (S k)) t' b' = Ok (b2, es2) ->
  complete order iter (S n) i t b = Ok (b2, es ++ es2).
Proof. intros E1 E2. cbn [complete]. rewrite E1. cbn [mbind outcome_bind]. by rewrite E2. Qed.
Lemma complete_end n i t b b' es :
  step order iter (i 0%nat) t b = Ok (b', None, es) -> complete order iter (S n) i t b = Ok (b', es).
Proof. intros E1. cbn [complete]. by rewrite E1. Qed.

(** A probe that the reflector accepts: the hello it carries is learned unless it
    is a bootstrap, and it is echoed. *)
Lemma dispatch_probe (i : nat -> inputs) id src p raw b v e a r' acc a' rq' echo :
  side b id v e a -> frame.IsEcho p = false -> probe.AcceptProbe raw (reflector b) = (r', Ok acc) ->
  frame.Padded (probe.AProbe acc) = false ->
  (if decide (probe.Acceptance acc = probe.ProbeBootstrap) then a' = a /\ rq' = resequencer b
   else learn id false (telemetry.RTT (probe.ProberEstimate (prober e))) (atNow (i 2%nat)) (atReseq (i 2%nat)) src (frame.ProbePayload (probe.AProbe acc))
          (bool_decide (probe.Acceptance acc = probe.ProbeAdopted)) (a, resequencer b) = Ok (a', rq')) ->
  probe.EncodeAcceptedProbe (nonce (i 3%nat)) acc (hello id a) r' = Ok echo -> written (i 3%nat) = true ->
  exists b' v' es, dispatchInbound order iter i id src (frame.FProbe p) raw b = Ok (b', es ++ [EWrite id src echo]) /\
    side b' id v' e a' /\ resequencer b' = rq' /\ reflector b' = r'.
Proof.
  intros [S1 S2 S3 S4] He Ha Hp Hl Hc Hw.
  destruct (remote.learnRemoteFromProbe (atTable (i 0%nat)) (frame.PathID p) src (vtable v)) as [tbl roamed] eqn:Et.
  set (v1 := v <| rxBytes := u64 (rxBytes v + Z.of_nat (length raw)) |> <| vtable := tbl |>).
  set (b1 := onView id (fun v => v <| vtable := tbl |>) (onView id (fun v => v <| rxBytes := u64 (rxBytes v + Z.of_nat (length raw)) |>) b)).
  assert (V1 : views b1 !! id = Some v1) by (unfold b1; by rewrite (lookup_onView _ id _ _ (lookup_onView b id v _ S1))).
  assert (E1 : step order iter (i 0%nat) (mkTask id src raw (Arrived (frame.FProbe p))) b
    = Ok (b1, Some (mkTask id src raw Probed), if roamed then [ERoam id] else [])).
  { unfold step. cbn [tview traw tphase tsrc]. rewrite S1, Et, He. done. }
  assert (P1 : vprobe v1 = Some e /\ vretired v1 = false) by done. destruct P1 as [P1 P2].
  assert (B1 : transportOf b1 = Some a /\ resequencer b1 = resequencer b /\ reflector b1 = reflector b) by done. destruct B1 as (B1 & B2 & B3).
  clearbody b1 v1. set (b2 := b1 <| reflector := r' |>).
  assert (E2 : step order iter (i 1%nat) (mkTask id src raw Probed) b1 = Ok (b2, Some (mkTask id src raw (ProbeLearn acc)), [])).
  { unfold step. cbn [tview traw tphase tsrc]. by rewrite V1, B3, Ha. }
  assert (K : exists b3, step order iter (i 2%nat) (mkTask id src raw (ProbeLearn acc)) b2
      = Ok (b3, Some (mkTask id src raw (Reply acc (hello id a))), []) /\
    transportOf b3 = Some a' /\ resequencer b3 = rq' /\ reflector b3 = r' /\ views b3 !! id = Some v1).
  { unfold step, b2. cbn [tview traw tphase tsrc views transportOf update]. rewrite V1, B1, Hp.
    destruct (decide (probe.Acceptance acc = probe.ProbeBootstrap)).
    - destruct Hl as [-> ->]. eexists. split; [done|]. by split_and!.
    - unfold learnFrom. cbn [transportOf resequencer update]. rewrite P1, P2, B2, Hl. eexists. split; [done|]. by split_and!. }
  destruct K as (b3 & E3 & K1 & K2 & K3 & K4).
  set (b4 := onView id (fun v => v <| txBytes := u64 (txBytes v + Z.of_nat (length echo)) |>) b3).
  assert (E4 : step order iter (i 3%nat) (mkTask id src raw (Reply acc (hello id a))) b3 = Ok (b4, None, [EWrite id src echo])).
  { unfold step. cbn [tview traw tphase tsrc]. rewrite K4, K3, Hc. unfold write. rewrite P2, Hw. done. }
  exists b4. eexists _, _. split.
  - unfold dispatchInbound, rank. eapply complete_step; [exact E1|]. eapply (complete_step _ _ _ _ _ _ []); [exact E2|].
    eapply (complete_step _ _ _ _ _ _ []); [exact E3|]. eapply complete_end. exact E4.
  - split; [|by split_and!]. split; [by apply lookup_onView|done|done|done].
Qed.

(** A fresh echo: the hello it carries is learned. *)
Lemma dispatch_echo (i : nat -> inputs) id src p raw b v e a pr fresh a' rq' :
  side b id v e a -> frame.IsEcho p = true -> probe.HandleEchoProbe (atProber (i 1%nat)) (atLive (i 1%nat)) raw (prober e) = (pr, Ok fresh) ->
  learn id false (telemetry.RTT (probe.ProberEstimate pr)) (atNow (i 2%nat)) (atReseq (i 2%nat)) src (frame.ProbePayload fresh) false (a, resequencer b) = Ok (a', rq') ->
  exists b' v' e' es, dispatchInbound order iter i id src (frame.FProbe p) raw b = Ok (b', es) /\
    side b' id v' e' a' /\ prober e' = pr /\ resequencer b' = rq' /\ reflector b' = reflector b /\ vslots v' = vslots v /\
    vtable v' = (remote.learnRemoteFromProbe (atTable (i 0%nat)) (frame.PathID p) src (vtable v)).1.
Proof.
  intros [S1 S2 S3 S4] He Hh Hl.
  destruct (remote.learnRemoteFromProbe (atTable (i 0%nat)) (frame.PathID p) src (vtable v)) as [tbl roamed] eqn:Et. cbn [fst].
  set (v1 := v <| rxBytes := u64 (rxBytes v + Z.of_nat (length raw)) |> <| vtable := tbl |>).
  set (b1 := onView id (fun v => v <| vtable := tbl |>) (onView id (fun v => v <| rxBytes := u64 (rxBytes v + Z.of_nat (length raw)) |>) b)).
  assert (V1 : views b1 !! id = Some v1) by (unfold b1; by rewrite (lookup_onView _ id _ _ (lookup_onView b id v _ S1))).
  set (sq := frame.ProbeSeq p).
  assert (E1 : step order iter (i 0%nat) (mkTask id src raw (Arrived (frame.FProbe p))) b
    = Ok (b1, Some (mkTask id src raw (Echoed sq)), if roamed then [ERoam id] else [])).
  { unfold step. cbn [tview traw tphase tsrc]. rewrite S1, Et, He, S2. done. }
  assert (P1 : vprobe v1 = Some e /\ vretired v1 = false /\ vtable v1 = tbl /\ vslots v1 = vslots v) by done. destruct P1 as (P1 & P2 & P3 & P4).
  assert (B1 : transportOf b1 = Some a /\ resequencer b1 = resequencer b /\ reflector b1 = reflector b) by done. destruct B1 as (B1 & B2 & B3).
  clearbody b1 v1. set (e1 := e <| prober := pr |>). set (v2 := v1 <| vprobe := Some e1 |>). set (b2 := onView id (onProber (fun _ => pr)) b1).
  assert (V2 : views b2 !! id = Some v2) by (unfold b2; rewrite (lookup_onView _ id _ _ V1); unfold onProber; by rewrite P1).
  assert (E2 : step order iter (i 1%nat) (mkTask id src raw (Echoed sq)) b1 = Ok (b2, Some (mkTask id src raw (EchoLearn (frame.ProbePayload fresh) sq)), [])).
  { unfold step. cbn [tview traw tphase tsrc]. by rewrite V1, P1, Hh. }
  set (b3 := b2 <| transportOf := Some a' |> <| resequencer := rq' |>).
  assert (E3 : step order iter (i 2%nat) (mkTask id src raw (EchoLearn (frame.ProbePayload fresh) sq)) b2 = Ok (b3, Some (mkTask id src raw (Notify sq)), [])).
  { unfold step. cbn [tview traw tphase tsrc]. rewrite V2. unfold learnFrom.
    change (transportOf b2) with (transportOf b1). change (resequencer b2) with (resequencer b1). rewrite B1, B2. cbn [v2 vretired vprobe update e1 prober].
    rewrite P2, Hl. done. }
  set (v3 := v2 <| vprobe := NotifyEcho sq <$> vprobe v2 |>). set (b4 := onView id (fun v => v <| vprobe := NotifyEcho sq <$> vprobe v |>) b3).
  assert (V4 : views b4 !! id = Some v3) by (unfold b4; by rewrite (lookup_onView b3 id v2)).
  assert (E4 : step order iter (i 3%nat) (mkTask id src raw (Notify sq)) b3 = Ok (b4, Some (mkTask id src raw CheckUp), [])).
  { unfold step. cbn [tview traw tphase tsrc]. change (views b3) with (views b2). rewrite V2. done. }
  set (up := decide (probe.ProberState (prober (NotifyEcho sq e1)) = telemetry.StateUp)).
  assert (E5 : step order iter (i 4%nat) (mkTask id src raw CheckUp) b4 = Ok (b4, if up then Some (mkTask id src raw Latch) else None, [])).
  { unfold step. cbn [tview traw tphase tsrc]. rewrite V4. done. }
  assert (K : exists b5 es, complete order iter 2 (fun k => i (S (S (S (S k))))) (mkTask id src raw CheckUp) b4 = Ok (b5, es) /\
    views b5 !! id = Some v3 /\ transportOf b5 = Some a' /\ resequencer b5 = rq' /\ reflector b5 = reflector b).
  { destruct up.
    - assert (E6 : exists b5 es, step order iter (i 5%nat) (mkTask id src raw Latch) b4 = Ok (b5, None, es) /\ views b5 = views b4 /\
        transportOf b5 = Some a' /\ resequencer b5 = rq' /\ reflector b5 = reflector b).
      { unfold step. cbn [tview traw tphase tsrc]. rewrite V4. destruct (everUp b4); (eexists _, _; split; [done|]); by split_and!. }
      destruct E6 as (b5 & es & E6 & K1 & K2 & K3 & K4). exists b5, ([] ++ es). rewrite K1. split; [|by split_and!].
      eapply complete_step; [exact E5|]. by apply complete_end.
    - exists b4, []. split; [by apply complete_end|by split_and!]. }
  destruct K as (b5 & es & E6 & K1 & K2 & K3 & K4).
  exists b5, v3, (NotifyEcho sq e1). eexists. split.
  - unfold dispatchInbound, rank. eapply complete_step; [exact E1|]. eapply complete_step; [exact E2|].
    eapply complete_step; [exact E3|]. eapply complete_step; [exact E4|]. exact E6.
  - split; [by split|]. split_and!; [|done|done|done|done]. unfold NotifyEcho. by destruct (pmtu.pending e1 !! sq).
Qed.
End Exchange.

(** ** The two ends *)
Definition configured (now : Time) (dst : AddrPort) (id : Z) : remote.table := (remote.setRemote now dst (remote.newTable id)).1.

Lemma configured_eq now dst id : configured now dst id = remote.mkTable id {[ id := remote.mkRemoteEntry dst now ]} id true false.
Proof. reflexivity. Qed.

Lemma configured_dead ord now t0 dst id : remote.checkRemoteDead ord now (configured t0 dst id) = (configured t0 dst id, false).
Proof.
  rewrite configured_eq. unfold remote.checkRemoteDead. cbn [remote.selValid remote.remotes remote.selKey negb].
  rewrite lookup_singleton_eq. destruct (_ <? _); [done|]. set (t := remote.mkTable _ _ _ _ _).
  assert (N : forall acc, remote.freshest t acc ord = acc).
  { induction ord as [|x ord IH]; intros acc; [done|]. cbn [remote.freshest t remote.remotes remote.selKey].
    destruct (decide (x = id)) as [->|Hne]; [rewrite lookup_singleton_eq, Z.eqb_refl; apply IH|].
    rewrite lookup_singleton_ne by done. apply IH. }
  by rewrite N.
Qed.

Lemma configured_emit ord now t0 dst id :
  remote.emitProbe ord now (remote.mkView (configured t0 dst id) remote.newSlots)
  = (remote.mkView (configured t0 dst id) remote.newSlots, remote.SlotOrdinary dst, false).
Proof.
  unfold remote.emitProbe. cbn [remote.vtable remote.vslots]. rewrite configured_dead, configured_eq.
  unfold remote.getRemote, remote.selectedAddrLocked. cbn [remote.selValid remote.remotes remote.selKey negb].
  by rewrite lookup_singleton_eq.
Qed.

Lemma configured_learn now t0 dst id : (remote.learnRemoteFromProbe now id dst (configured t0 dst id)).1 = configured now dst id.
Proof. rewrite !configured_eq. unfold remote.learnRemoteFromProbe. cbn [remote.selValid remote.remotes remote.selKey remote.id remote.onRoam update negb fst]. by rewrite insert_singleton_eq. Qed.

Section Join.
Context {C : Cipher} {L : CipherLaws C} (order : gmap Z adaptiveRoute -> list Z) (iter : Time -> gmap Z lanes.attempt -> list Z).
(** The key, the path ids of the two ends, their addresses and epochs, and the
    edge's probe session. *)
Context (k : frame.Key) (a b : Z) (addrA addrB : AddrPort) (epA epB : bond.Epoch) (S : Z).

(** The edge, about to send probe [seq] with the challenge [ch]. *)
Record edge (p : inbound.peer) (seq ch : Z) (x : adaptivePeer) : Prop := mkEdge {
  eg_side : exists v e t0, side p a v e x /\ vtable v = configured t0 addrB a /\ vslots v = remote.newSlots /\
    probe.psk (prober e) = k /\ probe.pathID (prober e) = a /\ probe.sessionID (prober e) = S /\
    probe.nextSeq (prober e) = seq /\ probe.learnedChallenge (prober e) = ch /\ probe_props.floor (probe.guard (prober e)) <= seq;
  eg_epoch : epoch (tr x) = epA;
  eg_open : aclosed x = false;
  eg_rq : exists dl out, rq_ok dl out (resequencer p)
}.

(** The hub, with whatever it remembers. *)
Record hub (p : inbound.peer) (r : probe.Reflector) (x : adaptivePeer) : Prop := mkHub {
  hb_side : exists v e, side p b v e x;
  hb_reflector : reflector p = r;
  hb_key : probe.rpsk r = k;
  hb_epoch : epoch (tr x) = epB;
  hb_open : aclosed x = false;
  hb_rq : exists dl out, rq_ok dl out (resequencer p)
}.

(** A probe of the edge's cadence, dispatched by the hub, and its echo,
    dispatched by the edge. *)
Definition exchanged (ord : list Z) (size : nat -> Z) (i1 : inputs) (i2 i3 : nat -> inputs) (pa pb pa' pb' : inbound.peer) : Prop :=
  exists w e p q pa1 es1 es2 es3,
    emitProbe ord size i1 a pa = Ok (pa1, es1 ++ [EWrite a addrB w]) /\ frame.DecodeWith k w = Ok (frame.FProbe p) /\
    dispatchInbound order iter i2 b addrA (frame.FProbe p) w pb = Ok (pb', es2 ++ [EWrite b addrA e]) /\
    frame.DecodeWith k e = Ok (frame.FProbe q) /\
    dispatchInbound order iter i3 a addrB (frame.FProbe q) e pa1 = Ok (pa', es3).

(** The sockets take what is written and the generator answers. *)
Definition sends (i : inputs) : Prop := written i = true /\ exists n, nonce i = Some n /\ length n = frame.nonceLen.

Lemma hello_bytes ep id : is_byte id -> bytes_ok (bond.Hello ep id).
Proof.
  intros H. unfold bond.Hello. apply Forall_app_2; [apply Forall_app_2; [apply Forall_app_2|]|]; [by apply bytes_check| |apply be_put_bytes..].
  apply Forall_cons_2; [unfold bond.Version, is_byte; lia|]. by apply Forall_singleton.
Qed.

Context (Hk : frame.IsSet k = true) (Ha : is_byte a) (Hb : is_byte b) (HS : is_u64 S)
  (HepA : bond_wire_props.epoch_ok epA) (HepB : bond_wire_props.epoch_ok epB) (Hdiff : bond.Boot epA <> bond.Boot epB).

Lemma probe_encodes n seq ts echo ch pl : length n = frame.nonceLen -> is_u64 seq -> is_u64 ch -> minI64 <= ts <= maxI64 -> bytes_ok pl ->
  exists w, frame.EncodeWith (Some n) k (frame.FProbe (frame.mkProbe a seq ts echo S ch false 0 pl)) = Ok w /\
    frame.DecodeWith k w = Ok (frame.FProbe (frame.mkProbe a seq ts echo S ch false 0 pl)).
Proof.
  intros Hn Hs Hc Ht Hp. apply frame_props.oneshot_roundtrip; [done| |done]. split; [|done]. cbn. unfold frame_props.probe_ok. cbn.
  split_and!; try done; try range; apply Ht.
Qed.

(** What the hub's transport makes of a verdict on the edge's hello. *)
Lemma hub_learns i e x rq dl out v :
  epoch (tr x) = epB -> aclosed x = false -> rq_ok dl out rq ->
  probe.acceptance v = probe.ProbeBootstrap \/
    probe.acceptance v = probe.ProbeAdopted /\ bond.Boot (remote (tr x)) <> bond.Boot epA /\ lastTime (tr x) <= atNow i ->
  exists x' rq', (if decide (probe.acceptance v = probe.ProbeBootstrap) then x' = x /\ rq' = rq
      else learn b false (telemetry.RTT (probe.ProberEstimate (prober e))) (atNow i) (atReseq i) addrA (bond.Hello epA a)
        (bool_decide (probe.acceptance v = probe.ProbeAdopted)) (x, rq) = Ok (x', rq')) /\
    epoch (tr x') = epB /\ aclosed x' = false /\ rq_ok dl out rq' /\
    (probe.acceptance v = probe.ProbeAdopted -> joined x' epA b a addrA (atNow i)).
Proof.
  intros He Ho Hq [Hv|(Hv & Hbo & Ht)]; rewrite Hv.
  - exists x, rq. destruct (decide _); [|done]. by split_and!.
  - destruct (decide _); [done|]. rewrite bool_decide_true by done.
    destruct (learn_joins b (telemetry.RTT (probe.ProberEstimate (prober e))) (atNow i) (atReseq i) addrA epA a true dl out x rq)
      as (x' & rq' & E & J1 & J2 & J3 & J4 & J5); [done|done|congruence|done|by right; right|done|done|].
    exists x', rq'. split_and!; [done|congruence|done|done|done].
Qed.

(** The edge's prober takes the echo of its last probe. *)
Lemma echo_handled now live p raw ec seq : probe.psk p = k -> probe.pathID p = a -> probe.sessionID p = S -> probe.nextSeq p = seq + 1 ->
  probe_props.floor (probe.guard p) <= seq -> 0 <= seq -> frame.DecodeWith k raw = Ok (frame.FProbe ec) ->
  frame.PathID ec = a -> frame.SessionID ec = S -> frame.ProbeSeq ec = seq ->
  exists p', probe.HandleEchoProbe now live raw p = (p', Ok ec) /\ probe.psk p' = k /\ probe.pathID p' = a /\ probe.sessionID p' = S /\
    probe.nextSeq p' = seq + 1 /\ probe.learnedChallenge p' = frame.Challenge ec /\ probe_props.floor (probe.guard p') <= seq + 1.
Proof.
  intros P1 P2 P3 P4 P5 H0 De E1 E2 E3. unfold probe.HandleEchoProbe. rewrite P1, De, P2, P3, E1, E2, E3, !Z.eqb_refl. cbn [negb probe.guard update].
  rewrite probe_props.Accept_cases by done. rewrite (proj2 (Z.leb_le _ _)) by done. cbn [negb]. eexists. split; [done|]. cbn. by split_and!.
Qed.

(** One round, given the reflector's verdict. *)
Lemma probe_round ord size i1 i2 i3 pa pb seq ch xa xb r r' v :
  edge pa seq ch xa -> hub pb r xb -> sends i1 -> sends (i2 3%nat) -> is_u64 seq -> seq + 1 < 2 ^ 64 -> is_u64 ch ->
  probe.acceptLocked a S seq ch r = (r', Ok v) -> probe.reflect v = true -> is_u64 (probe.issued v) -> probe.rpsk r' = k ->
  probe.acceptance v = probe.ProbeBootstrap \/
    probe.acceptance v = probe.ProbeAdopted /\ bond.Boot (remote (tr xb)) <> bond.Boot epA /\ lastTime (tr xb) <= atNow (i2 2%nat) ->
  believes epB false (remote (tr xa)) -> lastTime (tr xa) <= atNow (i3 2%nat) ->
  exists pa' pb' xa' xb', exchanged ord size i1 i2 i3 pa pb pa' pb' /\
    edge pa' (seq + 1) (probe.issued v) xa' /\ transportOf pa' = Some xa' /\ joined xa' epB a b addrB (atNow (i3 2%nat)) /\ lastTime (tr xa') = atNow (i3 2%nat) /\
    hub pb' r' xb' /\ transportOf pb' = Some xb' /\
    (probe.acceptance v = probe.ProbeBootstrap -> xb' = xb) /\
    (probe.acceptance v = probe.ProbeAdopted -> joined xb' epA b a addrA (atNow (i2 2%nat))).
Proof.
  intros [(va & ea & t0 & Sa & Tv & Sv & K1 & K2 & K3 & K4 & K5 & K6) Ea Oa (dla & outa & Qa)] [(vb & eb & Sb) Rb Kb Eb Ob (dlb & outb & Qb)]
    [W1 (n1 & N1 & L1)] [W2 (n2 & N2 & L2)] Hs Hs1 Hc Hacc Hre Hi Hr' Hv Hba Hta.
  assert (HtsB : minI64 <= probe.UnixNano (atProber i1) <= maxI64) by apply frame_props.i64_range.
  set (pr := frame.mkProbe a seq (probe.UnixNano (atProber i1)) false S ch false 0 (bond.Hello epA a)).
  destruct (probe_encodes n1 seq (probe.UnixNano (atProber i1)) false ch (bond.Hello epA a)) as (w & Ew & Dw); [done..|by apply hello_bytes|]. fold pr in Ew, Dw.
  (* the edge emits *)
  destruct (emit_ordinary ord size i1 a pa va ea xa _ addrB false n1 Sa ltac:(rewrite Tv, Sv; apply configured_emit) N1 W1 w) as (pa1 & va1 & es1 & X1 & Sa1 & Tv1 & Sv1 & Q1 & _).
  { unfold hello. by rewrite K1, K2, K3, K4, K5, Ea. }
  (* the hub reflects *)
  set (acc := probe.mkAcceptedProbe (frame.mkProbe a seq (frame.TimestampNanos pr) true S (probe.issued v) false 0 (bond.Hello epA a)) (probe.acceptance v) (probe.epochChanged v)).
  assert (Eacc : probe.AcceptProbe w (reflector pb) = (r', Ok acc)).
  { unfold probe.AcceptProbe. rewrite Rb, Kb, Dw. cbn [frame.PathID frame.SessionID frame.ProbeSeq frame.Challenge pr]. rewrite Hacc, Hre. done. }
  set (ec := frame.mkProbe a seq (frame.TimestampNanos pr) true S (probe.issued v) false 0 (bond.Hello epB b)).
  destruct (probe_encodes n2 seq (frame.TimestampNanos pr) true (probe.issued v) (bond.Hello epB b)) as (e & Ee & De); [done..|by apply hello_bytes|]. fold ec in Ee, De.
  destruct (hub_learns (i2 2%nat) eb xb (resequencer pb) dlb outb v) as (xb' & rqb' & HL & Eb' & Ob' & Qb' & Jb); [done..|].
  destruct (dispatch_probe order iter i2 b addrA pr w pb vb eb xb r' acc xb' rqb' e Sb eq_refl Eacc eq_refl HL) as (pb' & vb' & es2 & X2 & Sb' & Qb2 & Rb'); [|done|].
  { unfold probe.EncodeAcceptedProbe, hello. rewrite N2, Hr', Eb. exact Ee. }
  (* the edge takes the echo *)
  set (e1 := ea <| prober := _ |>) in Sa1.
  assert (P1 : probe.psk (prober e1) = k /\ probe.pathID (prober e1) = a /\ probe.sessionID (prober e1) = S /\ probe.nextSeq (prober e1) = seq + 1 /\
    probe_props.floor (probe.guard (prober e1)) <= seq).
  { unfold e1. cbn. rewrite K4. rewrite u64_small by range. by split_and!. }
  clearbody e1. destruct P1 as (P1 & P2 & P3 & P4 & P5).
  destruct (echo_handled (atProber (i3 1%nat)) (atLive (i3 1%nat)) (prober e1) e ec seq) as (pr2 & Hh & R1 & R2 & R3 & R4 & R5 & R6); [done|done|done|done|done|apply Hs|done|done|done|done|].
  destruct (learn_joins a (telemetry.RTT (probe.ProberEstimate pr2)) (atNow (i3 2%nat)) (atReseq (i3 2%nat)) addrB epB b false dla outa xa (resequencer pa1))
    as (xa' & rqa' & E & J1 & J2 & J3 & J4 & J5); [done|done|congruence|done|done|done|by rewrite Q1|].
  destruct (dispatch_echo order iter i3 a addrB ec e pa1 va1 e1 xa pr2 ec xa' rqa' Sa1 eq_refl Hh E) as (pa' & va' & ea' & es3 & X3 & Sa' & Pe & Qa' & _ & Sv' & Tv').
  exists pa', pb', xa', xb'. split; [by exists w, e, pr, ec, pa1, es1, es2, es3|].
  split_and!; [|apply Sa'|done|done| |apply Sb'| |done].
  - split; [|congruence|done|exists dla, outa; by rewrite Qa'].
    exists va', ea', (atTable (i3 0%nat)). rewrite Pe. split_and!; try done.
    + rewrite Tv', Tv1. cbn [remote.vtable]. apply configured_learn.
    + by rewrite Sv', Sv1.
  - split; try done; [by exists vb', eb|exists dlb, outb; by rewrite Qb2].
  - intros Hbo. destruct (decide (probe.acceptance v = probe.ProbeBootstrap)) as [D|D]; [apply HL|done].
Qed.

Lemma ensurePath_stays path r r1 st : probe.ensurePath path r = (r1, Ok st) -> probe.paths r1 !! path = Some st /\ probe.rpsk r1 = probe.rpsk r.
Proof.
  unfold probe.ensurePath. destruct (probe.paths r !! path) as [st0|] eqn:E; [by intros [= <- <-]|].
  destruct (probe.drawChallenge (probe.rand r)) as [rnd [c|e|]]; [|done|done]. intros [= <- <-]. cbn. by rewrite lookup_insert_eq.
Qed.

(** Two rounds from a fresh session of the edge: a bootstrap and an adoption. *)
Lemma two_rounds ord size (i1 i4 : inputs) (i2 i3 i5 i6 : nat -> inputs) pa pb xa xb r r1 st rnd ch :
  edge pa 0 0 xa -> hub pb r xb -> remote (tr xa) = bond.Epoch0 -> bond.Boot (remote (tr xb)) <> bond.Boot epA ->
  probe.ensurePath a r = (r1, Ok st) -> probe.challenge st <> 0 -> is_u64 (probe.challenge st) -> (probe.adopted st = true -> S <> probe.session st) ->
  probe.drawChallenge (probe.rand r1) = (rnd, Ok ch) -> is_u64 ch ->
  Forall sends [i1; i2 3%nat; i4; i5 3%nat] ->
  lastTime (tr xa) <= atNow (i3 2%nat) -> atNow (i3 2%nat) <= atNow (i6 2%nat) -> lastTime (tr xb) <= atNow (i5 2%nat) ->
  exists pa1 pb1 pa2 pb2 xa2 xb2,
    exchanged ord size i1 i2 i3 pa pb pa1 pb1 /\ exchanged ord size i4 i5 i6 pa1 pb1 pa2 pb2 /\
    transportOf pa2 = Some xa2 /\ joined xa2 epB a b addrB (atNow (i6 2%nat)) /\
    transportOf pb2 = Some xb2 /\ joined xb2 epA b a addrA (atNow (i5 2%nat)).
Proof.
  intros HA HB Hra Hrb He Hc0 Hcu Hs Hd Hch Hsend T1 T2 T3.
  apply Forall_cons_1 in Hsend as [Y1 [Y2 [Y3 [Y4 _]%Forall_cons_1]%Forall_cons_1]%Forall_cons_1].
  destruct (ensurePath_stays _ _ _ _ He) as [Hp Hk1]. pose proof (hb_key _ _ _ HB) as Hkr.
  assert (A1 : probe.acceptLocked a S 0 0 r = (r1, Ok (probe.mkVerdict (probe.challenge st) true probe.ProbeBootstrap false))).
  { rewrite <- (probe_props.bootstrap_verdict r1 a S 0 st Hp Hs Hc0). unfold probe.acceptLocked. rewrite He. unfold probe.ensurePath. by rewrite Hp. }
  destruct (probe_round ord size i1 i2 i3 pa pb 0 0 xa xb r r1 _ HA HB Y1 Y2 ltac:(range) ltac:(lia) ltac:(range) A1 eq_refl Hcu) as
    (pa1 & pb1 & xa1 & xb1 & X1 & HA1 & _ & J1 & L1 & HB1 & _ & E1 & _); [congruence|by left|right; by left; rewrite Hra|done|].
  specialize (E1 eq_refl) as ->.
  destruct (probe_props.adoption_verdict r1 a S 1 st ch rnd Hp Hs Hd) as (r2 & A2 & Hk2 & _).
  destruct (probe_round ord size i4 i5 i6 pa1 pb1 1 (probe.challenge st) xa1 xb r1 r2 _ HA1 HB1 Y3 Y4 ltac:(range) ltac:(lia) Hcu A2 eq_refl Hch) as
    (pa2 & pb2 & xa2 & xb2 & X2 & _ & TA & J2 & _ & _ & TB & _ & E2); [congruence|by right|left; apply J1|lia|].
  exists pa1, pb1, pa2, pb2, xa2, xb2. split_and!; try done. by apply E2.
Qed.
End Join.

(** C8. Two peers meet.  An edge that just started and its hub, whatever the hub
    remembers of the edge's former runs, over encoded datagrams that arrive:
    after two probes of the edge's cadence, each reflected and its echo taken,
    the edge's transport follows the hub's epoch and the hub's the edge's, and
    each has a lane of that path with the other's address as its route.  (The
    hub needs two answers of its random generator; the four sends succeed; the
    two boots differ, and the hub does not follow this boot of the edge yet.) *)
Theorem peers_meet {C : Cipher} {L : CipherLaws C} order iter k a b addrA addrB epA epB S
    ord size (i1 i4 : inputs) (i2 i3 i5 i6 : nat -> inputs) pa pb xa xb r r1 st rnd ch :
  frame.IsSet k = true -> is_byte a -> is_byte b -> is_u64 S ->
  bond_wire_props.epoch_ok epA -> bond_wire_props.epoch_ok epB -> bond.Boot epA <> bond.Boot epB ->
  edge k a addrB epA S pa 0 0 xa -> hub k b epB pb r xb -> remote (tr xa) = bond.Epoch0 -> bond.Boot (remote (tr xb)) <> bond.Boot epA ->
  probe.ensurePath a r = (r1, Ok st) -> probe.challenge st <> 0 -> is_u64 (probe.challenge st) -> (probe.adopted st = true -> S <> probe.session st) ->
  probe.drawChallenge (probe.rand r1) = (rnd, Ok ch) -> is_u64 ch ->
  Forall sends [i1; i2 3%nat; i4; i5 3%nat] ->
  lastTime (tr xa) <= atNow (i3 2%nat) -> atNow (i3 2%nat) <= atNow (i6 2%nat) -> lastTime (tr xb) <= atNow (i5 2%nat) ->
  exists pa1 pb1 pa2 pb2 xa2 xb2,
    exchanged order iter k a b addrA addrB ord size i1 i2 i3 pa pb pa1 pb1 /\
    exchanged order iter k a b addrA addrB ord size i4 i5 i6 pa1 pb1 pa2 pb2 /\
    transportOf pa2 = Some xa2 /\ joined xa2 epB a b addrB (atNow (i6 2%nat)) /\
    transportOf pb2 = Some xb2 /\ joined xb2 epA b a addrA (atNow (i5 2%nat)).
Proof. intros. eapply (two_rounds order iter k a b addrA addrB epA epB S); eassumption. Qed.

(** ** An edge and a hub that never met *)
Definition hubAddr : AddrPort := mkAddrPort [198; 51; 100; 7] [] 51820.
Definition viewOf (id session : Z) (tbl : remote.table) : view :=
  mkView tbl remote.newSlots (Some (mkEchoAwaitProbe (probe.NewProber id session frame_props.psk1 probe_props.pcfg0) 28 second ∅)) false 0 0 0.
Definition edgeW : inbound.peer :=
  mkPeer {[ 0 := viewOf 0 1 (configured 0 hubAddr 0) ]} (Some planeW.1) planeW.2 (probe.NewReflector frame_props.psk1 []) false 0 0 0.
Definition planeB : plane :=
  (mkAdaptive (initial transport_props.epB) frame_props.codec1 ∅ false false [] 0 0, reseq.SetHoldBound adaptiveReorderHold <$> instantiate None).
Definition reflectorB : probe.Reflector := probe.NewReflector frame_props.psk1 probe_props.rnd1.
Definition hubW : inbound.peer :=
  mkPeer {[ 3 := viewOf 3 2 (remote.newTable 3) ]} (Some planeB.1) planeB.2 reflectorB false 0 0 0.

Lemma rqW_ok : rq_ok [] [] planeW.2.
Proof. apply hold_rq, (instantiate_rq [] [] None). reflexivity. Qed.
Lemma edgeW_ok : edge frame_props.psk1 0 hubAddr transport_props.epA 1 edgeW 0 0 planeW.1.
Proof.
  split; [|reflexivity|reflexivity|exists [], []; exact rqW_ok].
  eexists _, _, 0. split; [split; [apply lookup_singleton_eq|reflexivity|reflexivity|reflexivity]|]. split_and!; reflexivity || (cbn; lia).
Qed.
Lemma hubW_ok : hub frame_props.psk1 3 transport_props.epB hubW reflectorB planeB.1.
Proof.
  split; [|reflexivity|reflexivity|reflexivity|reflexivity|exists [], []; exact rqW_ok].
  eexists _, _. split; [apply lookup_singleton_eq|reflexivity|reflexivity|reflexivity].
Qed.
Lemma sendsW n : sends (inputsW n).
Proof. split; [reflexivity|]. eexists. split; reflexivity. Qed.

Lemma peers_meet_witness :
  exists pa1 pb1 pa2 pb2 xa2 xb2,
    @exchanged frame_props.toy_cipher routeOrder transport_props.iter0 frame_props.psk1 0 3 peerAddr hubAddr [] (fun _ => 1400)
      (inputsW 1) (fun _ => inputsW 2) (fun _ => inputsW 3) edgeW hubW pa1 pb1 /\
    @exchanged frame_props.toy_cipher routeOrder transport_props.iter0 frame_props.psk1 0 3 peerAddr hubAddr [] (fun _ => 1400)
      (inputsW 4) (fun _ => inputsW 5) (fun _ => inputsW 6) pa1 pb1 pa2 pb2 /\
    transportOf pa2 = Some xa2 /\ joined xa2 transport_props.epB 0 3 hubAddr (transport_props.ms 6) /\
    transportOf pb2 = Some xb2 /\ joined xb2 transport_props.epA 3 0 peerAddr (transport_props.ms 5).
Proof.
  refine (@peers_meet frame_props.toy_cipher frame_props.toy_laws routeOrder transport_props.iter0 frame_props.psk1 0 3 peerAddr hubAddr
    transport_props.epA transport_props.epB 1 [] (fun _ => 1400) (inputsW 1) (inputsW 4) (fun _ => inputsW 2) (fun _ => inputsW 3)
    (fun _ => inputsW 5) (fun _ => inputsW 6) edgeW hubW planeW.1 planeB.1 reflectorB
    (probe.mkReflector frame_props.psk1 (be_put 8 42 ++ be_put 8 43) {[ 0 := probe.mkReflectorPath 0 telemetry.AntiReplay0 41 false ]} 0 false)
    (probe.mkReflectorPath 0 telemetry.AntiReplay0 41 false) (be_put 8 43) 42
    eq_refl _ _ _ _ _ _ edgeW_ok hubW_ok eq_refl _ _ _ _ _ _ _ _ _ _ _).
  1-3: range.
  1-2: split; cbn; lia.
  1-2: discriminate.
  1: reflexivity.
  1: discriminate.
  1: cbn; range.
  1: discriminate.
  1: reflexivity.
  1: range.
  1: repeat (apply Forall_cons_2; [apply sendsW|]); apply Forall_nil_2.
  all: cbn; unfold transport_props.ms, millisecond, second; lia.
Defined.
End join_props.
