(* ===== verification/Text.v ===== *)
(** * Text ([strings] and [strconv] of the Go library)

    What the parsers of the engine's dump and of HTTP headers use: splitting,
    trimming, cutting and signed decimals, on byte strings. *)

From Stdlib Require Import Ascii String.
From stdpp Require Import base tactics list numbers strings.
From S2P Require Import Prelude Netip Config.

Module text.
Import netip.

(** [strings.Split(s, sep)] with a separator of one byte. *)
Definition Split (c : Z) (s : list Z) : list (list Z) := config.split_on c s.

(** [strings.Cut(s, sep)] with a separator of one byte. *)
Definition Cut (c : Z) (s : list Z) : option (list Z * list Z) :=
  (fun i => (take i s, drop (S i) s)) <$> index_byte c s.

(** [strings.TrimSpace]: a Unicode space is stripped from an end as long as there
    is one; each is at least a byte, so [length s] rounds are enough. *)
Definition leading_space (s : list Z) : option (list Z) :=
  List.find (fun w => bool_decide (take (length w) s = w)) config.spaces.
Definition trailing_space (s : list Z) : option (list Z) :=
  List.find (fun w => bool_decide (drop (length s - length w) s = w)) config.spaces.
Fixpoint trim_left (n : nat) (s : list Z) : list Z :=
  match n with
  | O => s
  | S n => match leading_space s with Some w => trim_left n (drop (length w) s) | None => s end
  end.
Fixpoint trim_right (n : nat) (s : list Z) : list Z :=
  match n with
  | O => s
  | S n => match trailing_space s with Some w => trim_right n (take (length s - length w) s) | None => s end
  end.
Definition TrimSpace (s : list Z) : list Z :=
  let s := trim_left (length s) s in trim_right (length s) s.

(** [strconv.ParseInt(s, 10, 64)]. *)
Definition ParseInt (s : list Z) : option Z :=
  let '(neg, digits) := match s with
                        | c :: r => if c =? chr "+" then (false, r) else if c =? chr "-" then (true, r) else (false, s)
                        | [] => (false, s)
                        end in
  un ← ParseUint 64 digits;
  if negb neg && (2 ^ 63 <=? un) then None
  else if neg && (2 ^ 63 <? un) then None
  else Some (if neg then - un else un).

(** [strings.EqualFold] against a word none of whose letters folds outside ASCII. *)
Definition lower (b : Z) : Z := if (chr "A" <=? b) && (b <=? chr "Z") then b + 32 else b.
Definition EqualFold (s t : list Z) : bool := bool_decide (map lower s = map lower t).

(** ** Facts *)
Lemma Split_app c l s : c ∉ l -> Split c (l ++ c :: s) = l :: Split c s.
Proof.
  unfold Split. induction l as [|b l IH]; intros H; cbn.
  - by rewrite Z.eqb_refl.
  - apply not_elem_of_cons in H as [H1 H2]. rewrite (proj2 (Z.eqb_neq b c)) by done. by rewrite IH.
Qed.

Lemma Cut_app c l s : c ∉ l -> Cut c (l ++ c :: s) = Some (l, s).
Proof.
  intros H. unfold Cut. assert (E : index_byte c (l ++ c :: s) = Some (length l)).
  { induction l as [|b l IH]; cbn; [by rewrite Z.eqb_refl|]. apply not_elem_of_cons in H as [H1 H2].
    rewrite (proj2 (Z.eqb_neq b c)) by done. by rewrite IH. }
  rewrite E. cbn. rewrite take_app_length. f_equal. f_equal.
  rewrite drop_app_ge by lia. replace (S (length l) - length l)%nat with 1%nat by lia. done.
Qed.

(** A string that starts and ends with bytes no space starts or ends with. *)
Definition solid (b : Z) : bool := (33 <=? b) && (b <? 127).
Lemma space_ends w : w ∈ config.spaces -> exists b e, head w = Some b /\ last w = Some e /\ solid b = false /\ solid e = false.
Proof.
  intros H. assert (F : forallb (fun w => match head w, last w with Some b, Some e => negb (solid b) && negb (solid e) | _, _ => false end) config.spaces = true)
    by (vm_compute; reflexivity).
  apply forallb_forall with (x := w) in F; [|by apply list_elem_of_In].
  destruct (head w) as [b|], (last w) as [e|]; try done. apply andb_true_iff in F as [F1 F2]. exists b, e.
  split_and!; [done|done|by apply negb_true_iff|by apply negb_true_iff].
Qed.

Lemma leading_solid b s : solid b = true -> leading_space (b :: s) = None.
Proof.
  intros Hb. unfold leading_space. destruct (List.find _ _) as [w|] eqn:E; [|done]. exfalso.
  apply find_some in E as [Hw E]. apply bool_decide_eq_true in E. apply list_elem_of_In in Hw.
  destruct (space_ends w Hw) as (x & e & Hx & _ & Hs & _). destruct w as [|y w]; [done|]. cbn in E, Hx. injection E as <- _. congruence.
Qed.
Lemma trailing_solid b s : solid b = true -> trailing_space (s ++ [b]) = None.
Proof.
  intros Hb. unfold trailing_space. destruct (List.find _ _) as [w|] eqn:E; [|done]. exfalso.
  apply find_some in E as [Hw E]. apply bool_decide_eq_true in E. apply list_elem_of_In in Hw.
  destruct (space_ends w Hw) as (x & e & _ & He & _ & Hs).
  assert (Hl : last w = Some b).
  { rewrite <- E. destruct w as [|y w]; [done|]. rewrite drop_app_le; [by rewrite last_snoc|]. rewrite length_app. cbn. lia. }
  congruence.
Qed.

Lemma TrimSpace_solid b s e : solid b = true -> solid e = true -> TrimSpace (b :: s ++ [e]) = b :: s ++ [e].
Proof.
  intros Hb He. unfold TrimSpace. assert (L : trim_left (length (b :: s ++ [e])) (b :: s ++ [e]) = b :: s ++ [e]).
  { cbn [length trim_left]. by rewrite leading_solid. }
  rewrite L. cbn [length trim_right]. rewrite app_comm_cons. by rewrite trailing_solid.
Qed.

Lemma of_bytes_bytes s : of_bytes (bytes s) = s.
Proof.
  unfold of_bytes, bytes. rewrite map_map. etrans; [|apply string_of_list_ascii_of_string]. f_equal. etrans; [|apply map_id].
  apply map_ext. intros c. by rewrite N2Z.id, ascii_N_embedding.
Qed.
Lemma bytes_inj s t : bytes s = bytes t -> s = t.
Proof. intros H. by rewrite <- (of_bytes_bytes s), H, of_bytes_bytes. Qed.

(** ** Decimals *)
Fixpoint dec_loop (fuel : nat) (n : Z) (acc : list Z) : list Z :=
  match fuel with
  | O => acc
  | S fuel =>
    let acc := (chr "0" + n mod 10) :: acc in
    if n <? 10 then acc else dec_loop fuel (n / 10) acc
  end.
(** The decimal form of a number below [2^64]. *)
Definition dec (n : Z) : list Z := dec_loop 20 n [].

Lemma digit_ok d : 0 <= d < 10 -> is_digit (chr "0" + d) = true.
Proof. intros H. unfold is_digit. change (chr "0") with 48. change (chr "9") with 57. lia. Qed.

Lemma parse_dec_loop limit fuel n acc : 0 <= n < 10 ^ Z.of_nat fuel -> n <= limit ->
  parseUint_loop 0 limit (dec_loop fuel n acc) = parseUint_loop n limit acc.
Proof.
  revert n acc. induction fuel as [|fuel IH]; intros n acc Hn Hl; [by replace n with 0 by (cbn in Hn; lia)|].
  cbn [dec_loop]. pose proof (Z.mod_pos_bound n 10 ltac:(lia)) as Hm. pose proof (Z.div_mod n 10 ltac:(lia)) as Hd.
  assert (Step : forall m, m * 10 + n mod 10 = n -> parseUint_loop m limit ((chr "0" + n mod 10) :: acc) = parseUint_loop n limit acc).
  { intros m Em. cbn [parseUint_loop]. rewrite digit_ok by done. replace (m * 10 + (chr "0" + n mod 10 - chr "0")) with n by lia.
    by rewrite (proj2 (Z.ltb_ge limit n)) by done. }
  destruct (Z.ltb_spec n 10) as [H|H].
  - apply Step. rewrite Z.mod_small in * by lia. lia.
  - rewrite IH; [apply Step; lia| |nia].
    rewrite Nat2Z.inj_succ, Z.pow_succ_r in Hn by lia. split; [apply Z.div_pos; lia|apply Z.div_lt_upper_bound; lia].
Qed.

Lemma dec_loop_digits fuel n acc : 0 <= n -> Forall (fun b => is_digit b = true) acc -> Forall (fun b => is_digit b = true) (dec_loop fuel n acc).
Proof.
  revert n acc. induction fuel as [|fuel IH]; intros n acc Hn F; [done|]. cbn [dec_loop].
  assert (F' : Forall (fun b => is_digit b = true) ((chr "0" + n mod 10) :: acc)).
  { constructor; [|done]. apply digit_ok. apply Z.mod_pos_bound. lia. }
  destruct (n <? 10); [done|]. apply IH; [apply Z.div_pos; lia|done].
Qed.
Lemma dec_digits n : 0 <= n -> Forall (fun b => is_digit b = true) (dec n).
Proof. intros H. by apply dec_loop_digits. Qed.
Lemma dec_loop_nonempty fuel n acc : acc <> [] -> dec_loop fuel n acc <> [].
Proof. revert n acc. induction fuel as [|fuel IH]; intros n acc H; [done|]. cbn. destruct (n <? 10); [done|]. by apply IH. Qed.
Lemma dec_nonempty n : dec n <> [].
Proof. unfold dec. cbn [dec_loop]. destruct (n <? 10); [done|]. by apply (dec_loop_nonempty 19). Qed.

Lemma digit_solid b : is_digit b = true -> solid b = true.
Proof. unfold is_digit, solid. change (chr "0") with 48. change (chr "9") with 57. lia. Qed.

Lemma ParseInt_dec n : 0 <= n < 2 ^ 63 -> ParseInt (dec n) = Some n.
Proof.
  intros Hn. pose proof (dec_digits n ltac:(lia)) as F. pose proof (dec_nonempty n) as Hne.
  assert (P : ParseUint 64 (dec n) = Some n).
  { unfold ParseUint. destruct (dec n) as [|b l] eqn:E; [done|]. rewrite <- E. unfold dec.
    rewrite parse_dec_loop; [done| |lia]. split; [lia|]. change (10 ^ Z.of_nat 20) with 100000000000000000000. lia. }
  unfold ParseInt. destruct (dec n) as [|b l] eqn:E; [done|]. apply Forall_cons in F as [Hb _].
  assert (Hs : (b =? chr "+") = false /\ (b =? chr "-") = false).
  { revert Hb. unfold is_digit. change (chr "0") with 48. change (chr "9") with 57. change (chr "+") with 43. change (chr "-") with 45. lia. }
  destruct Hs as [-> ->]. rewrite P. cbn [mbind option_bind negb andb]. by rewrite (proj2 (Z.leb_gt _ _)) by lia.
Qed.
End text.
