(* ===== verification/Session.v ===== *)
(** * The engine's sessions ([internal/device/session.go])

    The engine reports its peers as text; from it come the verdict whether a
    session is established, for the metrics, for the choice of a standby exit and
    for the teardown of dead peers of a concentrator.

    A read of the engine gives [None] when it failed.  What the teardown monitor
    needs of the bind is the interface [PeerTearer]. *)

From Stdlib Require Import Ascii String.
From stdpp Require Import base tactics list numbers gmap strings sets.
From S2P Require Import Prelude Float64 Telemetry Probe Netip Config Text BindDemux.

Module session.
#[local] Existing Instance telemetry.PathState_eq_dec.
Import float64 netip text.

(** [awgdevice.RejectAfterTime]. *)
Definition RejectAfterTime : Duration := 180 * second.
Definition sessionPollInterval : Duration := telemetry.DefaultProbeInterval.

(** ** The dump *)
Definition keySec : list Z := bytes "last_handshake_time_sec".
Definition keyNsec : list Z := bytes "last_handshake_time_nsec".
Definition keyPublic : list Z := bytes "public_key".

(** The key and the value of a line. *)
Definition field (line : list Z) : option (list Z * list Z) := Cut (chr "=") (TrimSpace line).

Record scan := mkScan { latest : Z; sec : Z; haveSec : bool }.

Definition latest_line (s : scan) (line : list Z) : scan :=
  match field line with
  | None => s
  | Some (key, val) =>
    if bool_decide (key = keySec) then
      match ParseInt val with
      | None => mkScan (latest s) (sec s) false
      | Some v => mkScan (latest s) v true
      end
    else if bool_decide (key = keyNsec) then
      if negb (haveSec s) then s
      else match ParseInt val with
           | None => mkScan (latest s) (sec s) false
           | Some ns =>
             let nano := i64 (i64 (sec s * second) + ns) in
             mkScan (if latest s <? nano then nano else latest s) (sec s) false
           end
    else s
  end.

Definition latestHandshakeNano (dump : list Z) : Z :=
  latest (fold_left latest_line (Split 10 dump) (mkScan 0 0 false)).

Record peers := mkPeers { out : gmap (list Z) Z; curKey : list Z; psec : Z; phave : bool }.

Definition peer_line (s : peers) (line : list Z) : peers :=
  match field line with
  | None => s
  | Some (key, val) =>
    if bool_decide (key = keyPublic) then
      mkPeers (match out s !! val with Some _ => out s | None => <[val := 0]> (out s) end) val (psec s) false
    else if bool_decide (key = keySec) then
      if bool_decide (curKey s = []) then s
      else match ParseInt val with
           | None => mkPeers (out s) (curKey s) (psec s) false
           | Some v => mkPeers (out s) (curKey s) v true
           end
    else if bool_decide (key = keyNsec) then
      if bool_decide (curKey s = []) || negb (phave s) then s
      else match ParseInt val with
           | None => mkPeers (out s) (curKey s) (psec s) false
           | Some ns => mkPeers (<[curKey s := i64 (i64 (psec s * second) + ns)]> (out s)) (curKey s) (psec s) false
           end
    else s
  end.

Definition perPeerHandshakeNano (dump : list Z) : gmap (list Z) Z :=
  out (fold_left peer_line (Split 10 dump) (mkPeers ∅ [] 0 false)).

(** ** Snapshots *)
Record SessionSnapshot := mkSnapshot { Established : bool; LastHandshakeAge : Duration }.

(** [now.Sub(time.Unix(0, nano))]. *)
Definition ageOf (now : Time) (nano : Z) : Duration := time_sub now (probe.Unix nano).

Definition sessionSnapshot (expiry : Duration) (read : option (list Z)) (now : Time) : SessionSnapshot :=
  match read with
  | None => mkSnapshot false 0
  | Some dump =>
    let nano := latestHandshakeNano dump in
    if nano =? 0 then mkSnapshot false 0
    else
      let age := ageOf now nano in
      let age := if age <? 0 then 0 else age in
      mkSnapshot (age <=? expiry) age
  end.

Record monitoredPeer := mkMonitored { name : string; publicKey : list Z }.

(** The configured peers as the monitors name them; [ids] are the identities of the
    peers, in their order. *)
Definition allMonitoredPeers (c : config.Config) (ids : list config.PeerIdentity) : list monitoredPeer :=
  zip_with (fun p id => mkMonitored (if (length ids =? 1)%nat then EmptyString else config.idName id)
                          (bytes (config.hex (config.kbytes (config.PublicKey p))))) (config.peers c) ids.
(** Those whose state may be torn down: all but the primary, on a concentrator. *)
Definition concentratorMonitoredPeers (c : config.Config) (ids : list config.PeerIdentity) : list monitoredPeer :=
  if negb (bool_decide (config.Role c = config.RoleConcentrator)) || (length (config.peers c) <=? 1)%nat then []
  else drop 1 (allMonitoredPeers c ids).

Record PeerSessionSnapshot := mkPeerSnapshot { Peer : string; PEstablished : bool; LastHandshakeSeconds : float }.

Definition PeerSessionSnapshots (expiry : Duration) (ps : list monitoredPeer) (read : option (list Z)) (now : Time) : list PeerSessionSnapshot :=
  match read with
  | None => map (fun p => mkPeerSnapshot (name p) false f0) ps
  | Some dump =>
    let handshakes := perPeerHandshakeNano dump in
    map (fun p =>
      let nano := default 0 (handshakes !! publicKey p) in
      if nano =? 0 then mkPeerSnapshot (name p) false f0
      else
        let age := ageOf now nano in
        let age := if age <? 0 then 0 else age in
        mkPeerSnapshot (name p) (age <=? expiry) (Seconds age)) ps
  end.

(** ** The health of an exit *)
Record exitPeerHealth := mkExitHealth { publicKeyHex : list Z; health : list telemetry.PathState }.

(** [pathUp] when wired; [read] is the engine's answer, asked only for a peer with a
    path that is up. *)
Definition healthy (expiry : Duration) (ps : gmap string exitPeerHealth) (pathUp : option (string -> bool))
    (read : option (list Z)) (now : Time) (n : string) : bool :=
  match ps !! n with
  | None => false
  | Some ph =>
    let anyUp := match pathUp with
                 | Some f => f n
                 | None => existsb (fun s => negb (bool_decide (s = telemetry.StateDown))) (health ph)
                 end in
    if negb anyUp then false
    else match read with
         | None => false
         | Some dump =>
           let nano := default 0 (perPeerHandshakeNano dump !! publicKeyHex ph) in
           negb (nano =? 0) && (ageOf now nano <=? expiry)
         end
  end.

(** ** The teardown of dead peers *)
Class PeerTearer (D : Type) := tearDownPeer : string -> D -> D * bool.

Section Teardown.
Context {D : Type} {T : PeerTearer D}.

(** Whether the engine's last handshake of a peer is still valid. *)
Definition established (expiry : Duration) (handshakes : gmap (list Z) Z) (now : Time) (p : monitoredPeer) : bool :=
  let nano := default 0 (handshakes !! publicKey p) in
  negb (nano =? 0) && (ageOf now nano <=? expiry).

(** One peer of a sweep: the names logged as torn down, the bind, and the log. *)
Definition sweep (up : monitoredPeer -> bool) (w : gset string * D * list string) (p : monitoredPeer) : gset string * D * list string :=
  let '(torn, d, log) := w in
  if up p then (torn ∖ {[ name p ]}, d, log)
  else
    let '(d, reclaimed) := tearDownPeer (name p) d in
    if reclaimed && negb (bool_decide (name p ∈ torn)) then (torn ∪ {[ name p ]}, d, log ++ [name p]) else (torn, d, log).

Definition poll (expiry : Duration) (ps : list monitoredPeer) (read : option (list Z)) (now : Time) (torn : gset string) (d : D) :
    gset string * D * list string :=
  match read with
  | None => (torn, d, [])
  | Some dump =>
    let handshakes := perPeerHandshakeNano dump in
    fold_left (sweep (established expiry handshakes now)) ps (torn, d, [])
  end.
End Teardown.

(** The bind as the monitor sees it: the peers by name, which of them have a path
    that is up, and the demultiplexer. *)
Record tearer := mkTearer { peersByName : gmap string nat; live : nat -> bool; demuxer : demux.state }.
#[export] Instance Multipath_PeerTearer : PeerTearer tearer := fun n t =>
  match peersByName t !! n with
  | None => (t, false)
  | Some p =>
    let '(d, tornDown) := demux.TearDownPeer (live t) p (demuxer t) in
    (mkTearer (peersByName t) (live t) d, tornDown)
  end.

(** ** The established edge *)
Definition observe (now was : bool) : bool * bool := (now, now && negb was).

End session.
