(* ===== verification/SessionProps.v ===== *)
(** * What the session monitors guarantee

    The engine's dump is read back exactly, and a sweep of the teardown monitor
    frees exactly the dead peers. *)

From Stdlib Require Import Ascii String.
From stdpp Require Import base tactics list numbers gmap strings sets.
From S2P Require Import Prelude Float64 Frame Telemetry Probe Netip Config ConfigProps Text Session BindDemux.

Module session_props.
#[local] Existing Instances demux.eta_state telemetry.PathState_eq_dec.
Import netip text session.

(** ** The dump the engine documents

    Lines of other keys, and per peer its key, and the two lines of its last
    handshake, with other lines around them. *)
Record block := mkBlock { bkey : list Z; before : list (list Z); bsec : Z; bnsec : Z; after : list (list Z) }.

Definition setting (key val : list Z) : list Z := key ++ chr "=" :: val.
Definition block_lines (b : block) : list (list Z) :=
  setting keyPublic (bkey b) :: before b ++ [setting keySec (dec (bsec b)); setting keyNsec (dec (bnsec b))] ++ after b.
Definition dump_lines (header : list (list Z)) (bs : list block) : list (list Z) := header ++ concat (map block_lines bs).
Definition render (lines : list (list Z)) : list Z := concat (map (fun l => l ++ [10]) lines).

Definition nano (b : block) : Z := bsec b * second + bnsec b.

(** A line that is none of the three. *)
Definition other_line (l : list Z) : Prop :=
  (10 ∉ l) /\ (match field l with Some (k, _) => k <> keyPublic /\ k <> keySec /\ k <> keyNsec | None => True end).
Definition block_ok (b : block) : Prop :=
  bkey b <> [] /\ Forall (fun c => solid c = true) (bkey b) /\ Forall other_line (before b) /\ Forall other_line (after b) /\
  0 <= bsec b /\ 0 <= bnsec b /\ nano b < 2 ^ 63.

Lemma Split_render lines : Forall (fun l => 10 ∉ l) lines -> Split 10 (render lines) = lines ++ [[]].
Proof.
  unfold render. induction 1 as [|l lines Hl F IH]; [done|]. cbn [map concat]. rewrite <- app_assoc. cbn [app].
  rewrite Split_app by done. by rewrite IH.
Qed.

(** *** Lines read back *)
Lemma TrimSpace_ends s b e : head s = Some b -> list.last s = Some e -> solid b = true -> solid e = true -> TrimSpace s = s.
Proof.
  intros Hb He Sb Se. destruct s as [|x s]; [done|]. injection Hb as ->. destruct s as [|y s _] using rev_ind.
  - unfold TrimSpace. cbn [length trim_left]. rewrite leading_solid by done. cbn [length trim_right].
    pose proof (trailing_solid b [] Sb) as E. cbn [app] in E. by rewrite E.
  - rewrite app_comm_cons, last_snoc in He. injection He as ->. by apply TrimSpace_solid.
Qed.

Lemma field_setting key val b : head key = Some b -> solid b = true -> chr "=" ∉ key -> val <> [] -> Forall (fun c => solid c = true) val ->
  field (setting key val) = Some (key, val).
Proof.
  intros Hh Sb Hn Hv F. unfold field, setting. destruct val as [|e val _] using rev_ind; [done|].
  apply Forall_app in F as [_ F]. apply (proj1 (Forall_singleton _ _)) in F.
  rewrite (TrimSpace_ends _ b e); [by apply Cut_app| | |done|done].
  - destruct key; [done|]. exact Hh.
  - by rewrite app_comm_cons, app_assoc, last_snoc.
Qed.

Lemma solid_line key val : 10 ∉ key -> Forall (fun c => solid c = true) val -> 10 ∉ setting key val.
Proof.
  intros Hk F. unfold setting. rewrite elem_of_app, elem_of_cons. intros [H|[H|H]]; [done|done|].
  by apply (proj1 (Forall_forall _ _) F) in H.
Qed.

Lemma decimals_solid n : 0 <= n -> Forall (fun c => solid c = true) (dec n).
Proof. intros H. eapply Forall_impl; [by apply dec_digits|]. intros b. apply digit_solid. Qed.

Lemma field_public k : k <> [] -> Forall (fun c => solid c = true) k -> field (setting keyPublic k) = Some (keyPublic, k).
Proof. intros. apply (field_setting _ _ (chr "p")); try done. by apply (bool_decide_unpack _). Qed.
Lemma field_sec n : 0 <= n -> field (setting keySec (dec n)) = Some (keySec, dec n).
Proof. intros. apply (field_setting _ _ (chr "l")); [done|done|by apply (bool_decide_unpack _)|apply dec_nonempty|by apply decimals_solid]. Qed.
Lemma field_nsec n : 0 <= n -> field (setting keyNsec (dec n)) = Some (keyNsec, dec n).
Proof. intros. apply (field_setting _ _ (chr "l")); [done|done|by apply (bool_decide_unpack _)|apply dec_nonempty|by apply decimals_solid]. Qed.

Lemma nano_i64 b : block_ok b -> i64 (i64 (bsec b * second) + bnsec b) = nano b.
Proof.
  intros (_ & _ & _ & _ & Hs & Hn & Hlt). revert Hlt. unfold nano, i64, second. intros Hlt.
  rewrite !Z.mod_small by (rewrite ?Z.mod_small; lia). lia.
Qed.

Lemma peers_other s l : other_line l -> peer_line s l = s.
Proof.
  intros [_ H]. unfold peer_line. destruct (field l) as [[k v]|]; [|done]. destruct H as (H1 & H2 & H3).
  by rewrite !bool_decide_false.
Qed.
Lemma latest_other s l : other_line l -> latest_line s l = s.
Proof.
  intros [_ H]. unfold latest_line. destruct (field l) as [[k v]|]; [|done]. destruct H as (H1 & H2 & H3).
  by rewrite !bool_decide_false.
Qed.
Lemma fold_skip {S} (f : S -> list Z -> S) ls s : (forall s l, other_line l -> f s l = s) -> Forall other_line ls -> fold_left f ls s = s.
Proof. intros Hf. revert s. induction ls as [|l ls IH]; intros s F; [done|]. apply Forall_cons in F as [H F]. cbn. rewrite Hf by done. by apply IH. Qed.

Lemma peers_public s k : k <> [] -> Forall (fun c => solid c = true) k ->
  peer_line s (setting keyPublic k) = mkPeers (match out s !! k with Some _ => out s | None => <[k := 0]> (out s) end) k (psec s) false.
Proof. intros. unfold peer_line. by rewrite field_public. Qed.
Lemma peers_sec s n : curKey s <> [] -> 0 <= n < 2 ^ 63 ->
  peer_line s (setting keySec (dec n)) = mkPeers (out s) (curKey s) n true.
Proof. intros Hc Hn. unfold peer_line. rewrite field_sec by lia. cbn [bool_decide]. rewrite ParseInt_dec by done. by rewrite (bool_decide_false (curKey s = [])). Qed.
Lemma peers_nsec s n : curKey s <> [] -> phave s = true -> 0 <= n < 2 ^ 63 ->
  peer_line s (setting keyNsec (dec n)) = mkPeers (<[curKey s := i64 (i64 (psec s * second) + n)]> (out s)) (curKey s) (psec s) false.
Proof. intros Hc Hh Hn. unfold peer_line. rewrite field_nsec by lia. rewrite ParseInt_dec by done. by rewrite (bool_decide_false (curKey s = [])), Hh. Qed.

Lemma peers_block b s : block_ok b ->
  fold_left peer_line (block_lines b) s = mkPeers (<[bkey b := nano b]> (out s)) (bkey b) (bsec b) false.
Proof.
  intros Hb. pose proof (nano_i64 b Hb) as Hi. destruct Hb as (Hk & Hks & Fb & Fa & Hs & Hn & Hlt).
  assert (Hsr : 0 <= bsec b < 2 ^ 63) by (unfold nano, second in Hlt; lia).
  assert (Hnr : 0 <= bnsec b < 2 ^ 63) by (unfold nano, second in Hlt; lia).
  unfold block_lines. cbn [fold_left]. rewrite !fold_left_app. cbn [fold_left].
  rewrite (fold_skip _ (before b)) by (done || apply peers_other).
  rewrite (fold_skip _ (after b)) by (done || apply peers_other).
  rewrite peers_public, peers_sec, peers_nsec by done. cbn [out psec curKey]. rewrite Hi. f_equal.
  destruct (out s !! bkey b); [done|]. by rewrite insert_insert_eq.
Qed.

Lemma latest_sec s n : 0 <= n < 2 ^ 63 -> latest_line s (setting keySec (dec n)) = mkScan (latest s) n true.
Proof. intros Hn. unfold latest_line. rewrite field_sec by lia. cbn [bool_decide]. by rewrite ParseInt_dec. Qed.
Lemma latest_nsec s n : haveSec s = true -> 0 <= n < 2 ^ 63 ->
  latest_line s (setting keyNsec (dec n)) = mkScan (Z.max (latest s) (i64 (i64 (sec s * second) + n))) (sec s) false.
Proof.
  intros Hh Hn. unfold latest_line. rewrite field_nsec by lia. rewrite ParseInt_dec by done. rewrite Hh. cbn [negb].
  cbv beta iota zeta. change (bool_decide (keyNsec = keySec)) with false. change (bool_decide (keyNsec = keyNsec)) with true. cbv iota.
  f_equal. destruct (Z.ltb_spec (latest s) (i64 (i64 (sec s * second) + n))); lia.
Qed.
Lemma latest_block b s : block_ok b ->
  fold_left latest_line (block_lines b) s = mkScan (Z.max (latest s) (nano b)) (bsec b) false.
Proof.
  intros Hb. pose proof (nano_i64 b Hb) as Hi. destruct Hb as (Hk & Hks & Fb & Fa & Hs & Hn & Hlt).
  assert (Hsr : 0 <= bsec b < 2 ^ 63) by (unfold nano, second in Hlt; lia).
  assert (Hnr : 0 <= bnsec b < 2 ^ 63) by (unfold nano, second in Hlt; lia).
  unfold block_lines. cbn [fold_left]. rewrite !fold_left_app. cbn [fold_left].
  rewrite (fold_skip _ (before b)) by (done || apply latest_other).
  rewrite (fold_skip _ (after b)) by (done || apply latest_other).
  assert (Hp : latest_line s (setting keyPublic (bkey b)) = s) by (unfold latest_line; by rewrite field_public).
  rewrite Hp, latest_sec, latest_nsec by done. cbn [latest sec]. by rewrite Hi.
Qed.

(** *** Whole dumps *)
Definition dump_ok (header : list (list Z)) (bs : list block) : Prop := Forall other_line header /\ Forall block_ok bs.

Lemma lines_clean header bs : dump_ok header bs -> Forall (fun l => 10 ∉ l) (dump_lines header bs).
Proof.
  assert (O : forall ls, Forall other_line ls -> Forall (fun l => 10 ∉ l) ls) by (intros ls F; eapply Forall_impl; [exact F|by intros l []]).
  intros [Fh Fb]. unfold dump_lines. apply Forall_app. split; [by apply O|]. induction Fb as [|b bs Hb Fb IH]; [constructor|].
  cbn [map concat]. unfold block_lines at 1. destruct Hb as (Hk & Hks & Fbe & Fa & Hs & Hn & Hlt). rewrite <- app_comm_cons. apply Forall_cons. split.
  { apply solid_line; [by apply (bool_decide_unpack _)|done]. }
 rewrite !Forall_app. split_and!; [by apply O| |by apply O|done].
  repeat constructor; (apply solid_line; [by apply (bool_decide_unpack _)|by apply decimals_solid]).
Qed.

Lemma blank_peer s : peer_line s [] = s. Proof. done. Qed.
Lemma blank_latest s : latest_line s [] = s. Proof. done. Qed.

Definition readback (bs : list block) : gmap (list Z) Z := fold_left (fun m b => <[bkey b := nano b]> m) bs ∅.

Lemma perPeer_dump header bs : dump_ok header bs -> perPeerHandshakeNano (render (dump_lines header bs)) = readback bs.
Proof.
  intros H. unfold perPeerHandshakeNano. rewrite Split_render by by apply lines_clean. destruct H as [Fh Fb].
  rewrite fold_left_app. cbn [fold_left]. rewrite blank_peer. unfold dump_lines. rewrite fold_left_app.
  rewrite (fold_skip _ header) by (done || apply peers_other). unfold readback.
  assert (G : forall s, out (fold_left peer_line (concat (map block_lines bs)) s) = fold_left (fun m b => <[bkey b := nano b]> m) bs (out s)).
  { induction Fb as [|b bs Hb Fb IH]; intros s; [done|]. cbn [map concat]. rewrite fold_left_app, peers_block by done. by rewrite IH. }
  apply G.
Qed.

Lemma latest_dump header bs : dump_ok header bs ->
  latestHandshakeNano (render (dump_lines header bs)) = fold_left (fun x b => Z.max x (nano b)) bs 0.
Proof.
  intros H. unfold latestHandshakeNano. rewrite Split_render by by apply lines_clean. destruct H as [Fh Fb].
  rewrite fold_left_app. cbn [fold_left]. rewrite blank_latest. unfold dump_lines. rewrite fold_left_app.
  rewrite (fold_skip _ header) by (done || apply latest_other).
  assert (G : forall s, latest (fold_left latest_line (concat (map block_lines bs)) s) = fold_left (fun x b => Z.max x (nano b)) bs (latest s)).
  { induction Fb as [|b bs Hb Fb IH]; intros s; [done|]. cbn [map concat]. rewrite fold_left_app, latest_block by done. by rewrite IH. }
  apply G.
Qed.

(** ** Verdicts *)

(** A handshake of instant [n] that the engine still accepts. *)
Definition valid (expiry : Duration) (now : Time) (n : Z) : bool := negb (n =? 0) && (ageOf now n <=? expiry).

Lemma readback_notin bs m k : k ∉ map bkey bs -> fold_left (fun m b => <[bkey b := nano b]> m) bs m !! k = (m : gmap (list Z) Z) !! k.
Proof.
  revert m. induction bs as [|b bs IH]; intros m H; [done|]. cbn in H. apply not_elem_of_cons in H as [H1 H2].
  cbn. rewrite IH by done. by rewrite lookup_insert_ne.
Qed.
Lemma readback_in bs b : NoDup (map bkey bs) -> b ∈ bs -> readback bs !! bkey b = Some (nano b).
Proof.
  unfold readback. generalize (∅ : gmap (list Z) Z). induction bs as [|x bs IH]; intros m Hn Hb; [by apply not_elem_of_nil in Hb|].
  cbn in Hn. apply NoDup_cons in Hn as [Hx Hn]. cbn. apply elem_of_cons in Hb as [->|Hb]; [|by apply IH].
  rewrite readback_notin by done. apply lookup_insert_eq.
Qed.

Lemma fold_max_ge bs x : x <= fold_left (fun x b => Z.max x (nano b)) bs x.
Proof. revert x. induction bs as [|b bs IH]; intros x; cbn; [done|]. etrans; [|apply IH]. lia. Qed.
Lemma fold_max_upper bs x b : b ∈ bs -> nano b <= fold_left (fun x b => Z.max x (nano b)) bs x.
Proof.
  revert x. induction bs as [|c bs IH]; intros x H; [by apply not_elem_of_nil in H|]. cbn. apply elem_of_cons in H as [->|H]; [|by apply IH].
  etrans; [|apply fold_max_ge]. lia.
Qed.
Lemma fold_max_attained bs x : fold_left (fun x b => Z.max x (nano b)) bs x = x \/ exists b, b ∈ bs /\ fold_left (fun x b => Z.max x (nano b)) bs x = nano b.
Proof.
  revert x. induction bs as [|b bs IH]; intros x; [by left|]. cbn. destruct (IH (Z.max x (nano b))) as [->|(c & Hc & ->)].
  - destruct (Z.max_spec x (nano b)) as [[_ ->]|[_ ->]]; [right; exists b; split; [set_solver|done]|by left].
  - right. exists c. split; [set_solver|done].
Qed.

Lemma valid_later expiry now m n : 0 < m <= n -> valid expiry now m = true -> valid expiry now n = true.
Proof. unfold valid, ageOf, time_sub, probe.Unix. lia. Qed.

Lemma valid_latest expiry now bs : Forall (fun b => 0 <= nano b) bs ->
  valid expiry now (fold_left (fun x b => Z.max x (nano b)) bs 0) = existsb (fun b => valid expiry now (nano b)) bs.
Proof.
  intros F. apply eq_bool_prop_intro. rewrite !Is_true_true, existsb_exists. split.
  - intros H. destruct (fold_max_attained bs 0) as [E|(b & Hb & E)]; rewrite E in H; [done|]. exists b. split; [by apply list_elem_of_In|done].
  - intros (b & Hb & H). apply list_elem_of_In in Hb. eapply valid_later; [|exact H]. split; [|by apply fold_max_upper].
    apply (proj1 (Forall_forall _ _) F) in Hb. unfold valid in H. lia.
Qed.

Lemma snapshot_valid expiry dump now : 0 <= expiry ->
  Established (sessionSnapshot expiry (Some dump) now) = valid expiry now (latestHandshakeNano dump).
Proof.
  intros H. unfold sessionSnapshot, valid. destruct (_ =? 0); [done|]. cbn [Established negb andb].
  destruct (Z.ltb_spec (ageOf now (latestHandshakeNano dump)) 0); lia.
Qed.
Lemma peer_valid expiry ps dump now : 0 <= expiry ->
  map PEstablished (PeerSessionSnapshots expiry ps (Some dump) now) =
  map (fun p => valid expiry now (default 0 (perPeerHandshakeNano dump !! publicKey p))) ps.
Proof.
  intros H. unfold PeerSessionSnapshots. rewrite map_map. apply map_ext. intros p. unfold valid. cbv zeta.
  destruct (_ =? 0); [done|]. cbn [PEstablished negb andb]. destruct (Z.ltb_spec (ageOf now (default 0 (perPeerHandshakeNano dump !! publicKey p))) 0); lia.
Qed.

(** The dump has a block with the key [k] whose handshake the engine still accepts. *)
Definition in_session (expiry : Duration) (now : Time) (bs : list block) (k : list Z) : Prop :=
  exists b, b ∈ bs /\ bkey b = k /\ valid expiry now (nano b) = true.

Lemma in_session_spec expiry now bs k : NoDup (map bkey bs) ->
  valid expiry now (default 0 (readback bs !! k)) = true <-> in_session expiry now bs k.
Proof.
  intros Hn. split.
  - intros H. destruct (decide (k ∈ map bkey bs)) as [K|K].
    + apply list_elem_of_fmap in K as (b & -> & Hb). exists b. rewrite readback_in in H by done. by split_and!.
    + unfold readback in H. by rewrite readback_notin, lookup_empty in H by done.
  - intros (b & Hb & <- & V). by rewrite readback_in.
Qed.

(** Some path of the peer is up, as the health test sees it. *)
Definition path_up (pathUp : option (string -> bool)) (n : string) (ph : exitPeerHealth) : Prop :=
  match pathUp with Some f => f n = true | None => exists s, s ∈ health ph /\ s <> telemetry.StateDown end.

Lemma path_up_spec pathUp n ph :
  match pathUp with Some f => f n | None => existsb (fun s => negb (bool_decide (s = telemetry.StateDown))) (health ph) end = true
  <-> path_up pathUp n ph.
Proof.
  destruct pathUp as [f|]; [done|]. rewrite existsb_exists. unfold path_up.
  split; intros (s & Hs & Hd); exists s; (split; [by apply list_elem_of_In|]).
  - by apply negb_true_iff, bool_decide_eq_false in Hd.
  - by apply negb_true_iff, bool_decide_eq_false.
Qed.

Lemma peer_report expiry ps header bs now i p : dump_ok header bs -> NoDup (map bkey bs) -> 0 <= expiry -> ps !! i = Some p ->
  PEstablished <$> PeerSessionSnapshots expiry ps (Some (render (dump_lines header bs))) now !! i = Some true <-> in_session expiry now bs (publicKey p).
Proof.
  intros D Hn He Hi. rewrite <- list_lookup_fmap. change (PEstablished <$> ?l) with (map PEstablished l).
  rewrite peer_valid, perPeer_dump by done. change (map ?f ps) with (f <$> ps). rewrite list_lookup_fmap, Hi. cbn.
  rewrite <- in_session_spec by done. by split; [intros [= ->]|intros ->].
Qed.

Lemma connection_report expiry header bs now : dump_ok header bs -> 0 <= expiry ->
  Established (sessionSnapshot expiry (Some (render (dump_lines header bs))) now) = true <-> exists k, in_session expiry now bs k.
Proof.
  intros D He. rewrite snapshot_valid, latest_dump, valid_latest, existsb_exists by
    (done || (eapply Forall_impl; [apply D|]; intros b (_ & _ & _ & _ & Hs & Hns & _); unfold nano, second; lia)).
  split; [intros (b & Hb & V); exists (bkey b), b; split_and!; [by apply list_elem_of_In|done..]|].
  intros (k & b & Hb & _ & V). exists b. split; [by apply list_elem_of_In|done].
Qed.

Lemma some_report expiry ps dump now :
  existsb PEstablished (PeerSessionSnapshots expiry ps (Some dump) now) = true <->
  exists i p, ps !! i = Some p /\ PEstablished <$> PeerSessionSnapshots expiry ps (Some dump) now !! i = Some true.
Proof.
  assert (Ln : length (PeerSessionSnapshots expiry ps (Some dump) now) = length ps) by (unfold PeerSessionSnapshots; by rewrite length_map).
  rewrite existsb_exists. split.
  - intros (x & Hx & E). apply list_elem_of_In, list_elem_of_lookup in Hx as (i & Hi).
    destruct (lookup_lt_is_Some_2 ps i) as (p & Hp); [rewrite <- Ln; by eapply lookup_lt_Some|]. exists i, p. split; [done|]. by rewrite Hi; cbn; rewrite E.
  - intros (i & p & _ & H). destruct (_ !! i) as [x|] eqn:E; [|done]. injection H as H. exists x. split; [|done].
    apply list_elem_of_In. by eapply list_elem_of_lookup_2.
Qed.

(** C24. The verdicts on the engine's sessions agree.  For every dump of the form
    the engine documents — blocks of peers with distinct keys, in any order and
    whichever peers they are, any other lines around — and any monitored peers: a
    monitored peer is reported established exactly when the block with its own key
    has a handshake within the validity window; the connection is reported
    established exactly when some block has one, so it is whenever a monitored peer
    is, and only then when every block's peer is monitored; and a peer is taken as a
    standby exit exactly when it is known, a path of it is up, and the block with
    its own key has such a handshake. *)
Theorem session_verdicts_agree expiry header bs ps now hs pathUp n :
  dump_ok header bs -> NoDup (map bkey bs) -> 0 <= expiry ->
  let dump := Some (render (dump_lines header bs)) in
  (forall i p, ps !! i = Some p ->
     PEstablished <$> PeerSessionSnapshots expiry ps dump now !! i = Some true <-> in_session expiry now bs (publicKey p)) /\
  (Established (sessionSnapshot expiry dump now) = true <-> exists k, in_session expiry now bs k) /\
  (existsb PEstablished (PeerSessionSnapshots expiry ps dump now) = true -> Established (sessionSnapshot expiry dump now) = true) /\
  ((forall b, b ∈ bs -> exists p, p ∈ ps /\ publicKey p = bkey b) ->
   Established (sessionSnapshot expiry dump now) = existsb PEstablished (PeerSessionSnapshots expiry ps dump now)) /\
  (healthy expiry hs pathUp dump now n = true <->
   exists ph, hs !! n = Some ph /\ path_up pathUp n ph /\ in_session expiry now bs (publicKeyHex ph)).
Proof.
  intros D Hn He dump.
  assert (R : existsb PEstablished (PeerSessionSnapshots expiry ps dump now) = true <-> exists p, p ∈ ps /\ in_session expiry now bs (publicKey p)).
  { unfold dump. rewrite some_report. split.
    - intros (i & p & Hi & H). exists p. split; [by eapply list_elem_of_lookup_2|]. by apply (peer_report _ _ _ _ _ _ _ D Hn He Hi).
    - intros (p & Hp & H). apply list_elem_of_lookup in Hp as (i & Hi). exists i, p. split; [done|]. exact (proj2 (peer_report _ _ _ _ _ _ _ D Hn He Hi) H). }
  pose proof (connection_report expiry header bs now D He) as Q. fold dump in Q. split_and!; [|done| | |].
  - intros i p Hi. exact (peer_report _ _ _ _ _ _ _ D Hn He Hi).
  - rewrite R, Q. intros (p & _ & H). by exists (publicKey p).
  - intros M. apply eq_true_iff_eq. rewrite R, Q. split; [|intros (p & _ & H); by exists (publicKey p)].
    intros (k & b & Hb & <- & V). destruct (M b Hb) as (p & Hp & E). exists p. split; [done|]. exists b. by rewrite E.
  - unfold healthy. destruct (hs !! n) as [ph|]; [|by split; [|intros (? & ? & _)]].
    transitivity (path_up pathUp n ph /\ in_session expiry now bs (publicKeyHex ph)); [|split; [intros []; by exists ph|by intros (? & [= <-] & ?)]].
    rewrite <- in_session_spec, <- path_up_spec by done. unfold dump. rewrite perPeer_dump by done.
    fold (valid expiry now (default 0 (readback bs !! publicKeyHex ph))). destruct (match pathUp with Some _ => _ | None => _ end); cbn [negb]; intuition done.
Qed.

(** ** Teardown *)

(** The peer a name stands for, when its state may be freed. *)
Definition reclaimable (t : tearer) (n : string) : option nat :=
  match peersByName t !! n with
  | Some i => if (i =? 0)%nat || live t i then None else Some i
  | None => None
  end.

(** The demultiplexer without the state of the peers [F]. *)
Definition free (F : gset nat) (d : demux.state) : demux.state :=
  d <| demux.peerBySource := filter (fun x => demux.bpeer (snd x) ∉ F) (demux.peerBySource d) |>
    <| demux.instantiated := demux.instantiated d ∖ F |>.

Lemma free_none d : free ∅ d = d.
Proof.
  destruct d as [m q c v i]. unfold free, update. cbn. f_equal.
  - apply map_filter_id. intros k x _. cbn. set_solver.
  - by rewrite difference_empty_L.
Qed.
Lemma free_free F G d : free F (free G d) = free (G ∪ F) d.
Proof.
  destruct d as [m q c v i]. unfold free, update. cbn. f_equal; [|set_solver]. rewrite map_filter_filter.
  apply map_filter_ext. intros k x _. cbn. set_solver.
Qed.

Lemma tearDown_spec n t : tearDownPeer n t =
  match reclaimable t n with
  | Some i => (mkTearer (peersByName t) (live t) (free {[ i ]} (demuxer t)), true)
  | None => (t, false)
  end.
Proof.
  destruct t as [r l d]. unfold tearDownPeer, Multipath_PeerTearer, reclaimable. cbn [peersByName live demuxer].
  destruct (r !! n) as [i|]; [|done]. unfold demux.TearDownPeer, demux.teardownPeerLocked.
  destruct (i =? 0)%nat; [done|]. destruct (l i); [done|]. cbn [orb]. f_equal. f_equal. destruct d as [m q c v s].
  unfold free, demux.unbindPeerSources, update. cbn. f_equal. apply map_filter_ext. intros k x _. cbn. set_solver.
Qed.

Section Sweep.
Context (up : monitoredPeer -> bool).

Definition freed (t : tearer) (ps : list monitoredPeer) : gset nat :=
  list_to_set (omap (fun p => if up p then None else reclaimable t (name p)) ps).
Definition logged (torn : gset string) (t : tearer) (ps : list monitoredPeer) : list string :=
  map name (filter (fun p => up p = false /\ is_Some (reclaimable t (name p)) /\ name p ∉ torn) ps).
Definition back (ps : list monitoredPeer) : gset string := list_to_set (map name (filter (fun p => up p = true) ps)).

Lemma logged_ext torn torn' t d ps : (forall p, p ∈ ps -> name p ∈ torn' <-> name p ∈ torn) ->
  logged torn' (mkTearer (peersByName t) (live t) d) ps = logged torn t ps.
Proof.
  intros H. unfold logged. f_equal. induction ps as [|p ps IH]; [done|].
  assert (Hp := H p ltac:(left)). specialize (IH (fun q Hq => H q (list_elem_of_further _ _ _ Hq))). rewrite !filter_cons, IH.
  change (reclaimable (mkTearer (peersByName t) (live t) d) (name p)) with (reclaimable t (name p)).
  destruct (decide (up p = false /\ _ /\ name p ∉ torn')), (decide (up p = false /\ _ /\ name p ∉ torn)); naive_solver.
Qed.

Lemma sweep_run ps torn t log : NoDup (map name ps) ->
  fold_left (sweep up) ps (torn, t, log) =
  ((torn ∖ back ps) ∪ list_to_set (logged torn t ps), mkTearer (peersByName t) (live t) (free (freed t ps) (demuxer t)), log ++ logged torn t ps).
Proof.
  revert torn t log. induction ps as [|p ps IH]; intros torn t log Hn.
  { unfold back, freed, logged. cbn. rewrite free_none, app_nil_r. destruct t. f_equal. f_equal. set_solver. }
  cbn [map] in Hn. apply NoDup_cons in Hn as [Hp Hn].
  assert (Hne : forall q, q ∈ ps -> name q <> name p) by (intros q Hq E; apply Hp; rewrite <- E; by apply list_elem_of_fmap_2).
  cbn [fold_left]. unfold sweep at 2. destruct (up p) eqn:U.
  { rewrite IH by done. unfold freed. cbn [omap list_omap]. rewrite U.
    assert (L : logged torn t (p :: ps) = logged torn t ps) by (unfold logged; rewrite filter_cons_False; [done|intros [? _]; congruence]).
    rewrite L. destruct t as [r l d]. rewrite (logged_ext torn (torn ∖ {[name p]}) (mkTearer r l d) d ps) by set_solver.
    f_equal. f_equal. unfold back. rewrite filter_cons_True by done. cbn [map list_to_set]. set_solver. }
  assert (B : back (p :: ps) = back ps) by (unfold back; by rewrite filter_cons_False by congruence). rewrite B.
  rewrite tearDown_spec. unfold freed. cbn [omap list_omap]. rewrite U. destruct (reclaimable t (name p)) as [i|] eqn:R.
  2: { cbn [andb]. rewrite IH by done. unfold logged. rewrite filter_cons_False; [done|]. rewrite R. by intros (_ & [? ?] & _). }
  cbn [andb]. destruct (bool_decide (name p ∈ torn)) eqn:M.
  - apply bool_decide_eq_true in M. cbn [negb]. rewrite IH by done. cbn [peersByName live demuxer]. rewrite free_free, (logged_ext torn) by done.
    unfold logged at 3 4. rewrite filter_cons_False by (by intros (_ & _ & ?)). done.
  - apply bool_decide_eq_false in M. cbn [negb]. rewrite IH by done. cbn [peersByName live demuxer]. rewrite free_free, (logged_ext torn) by set_solver.
    assert (L : logged torn t (p :: ps) = name p :: logged torn t ps).
    { unfold logged. rewrite filter_cons_True; [done|]. rewrite R. by split_and!. }
    rewrite L, <- app_assoc. cbn [app list_to_set]. f_equal. f_equal.
    assert (name p ∉ back ps). { unfold back. rewrite elem_of_list_to_set, list_elem_of_fmap. intros (q & E & Hq). apply list_elem_of_filter in Hq as [_ Hq]. by apply (Hne q). }
    set_solver.
Qed.
End Sweep.

(** The engine reports a handshake of the peer that it still accepts. *)
Definition alive (expiry : Duration) (now : Time) (bs : list block) (p : monitoredPeer) : Prop :=
  exists b, b ∈ bs /\ bkey b = publicKey p /\ valid expiry now (nano b) = true.
(** The monitored peer [p] is dead and the bind's peer [i] may be freed for it. *)
Definition dead_as (expiry : Duration) (now : Time) (bs : list block) (t : tearer) (p : monitoredPeer) (i : nat) : Prop :=
  ~ alive expiry now bs p /\ peersByName t !! name p = Some i /\ i <> 0%nat /\ live t i = false.

Lemma alive_spec expiry now bs p : NoDup (map bkey bs) -> established expiry (readback bs) now p = true <-> alive expiry now bs p.
Proof. intros Hn. exact (in_session_spec expiry now bs (publicKey p) Hn). Qed.

Lemma reclaimable_spec t n i : reclaimable t n = Some i <-> peersByName t !! n = Some i /\ i <> 0%nat /\ live t i = false.
Proof.
  unfold reclaimable. destruct (peersByName t !! n) as [j|]; [|by split; [|intros [? _]]].
  destruct (Nat.eqb_spec j 0) as [->|J]; cbn [orb]; [by split; [|intros ([= <-] & ? & _)]|]. destruct (live t j) eqn:L; cbn; [split; [done|intros ([= <-] & _ & ?); congruence]|].
  split; [by intros [= ->]|by intros [? _]].
Qed.

Lemma dead_spec expiry now bs t p i : NoDup (map bkey bs) ->
  dead_as expiry now bs t p i <-> established expiry (readback bs) now p = false /\ reclaimable t (name p) = Some i.
Proof. intros Hn. unfold dead_as. by rewrite <- alive_spec, not_true_iff_false, reclaimable_spec by done. Qed.

Lemma freed_spec up t ps i : i ∈ freed up t ps <-> exists p, p ∈ ps /\ up p = false /\ reclaimable t (name p) = Some i.
Proof.
  unfold freed. rewrite elem_of_list_to_set, list_elem_of_omap. split; intros (p & Hp & H); exists p.
  - by destruct (up p).
  - destruct H as [-> H]. done.
Qed.
Lemma logged_spec up torn t ps n : n ∈ logged up torn t ps <->
  exists p i, p ∈ ps /\ name p = n /\ up p = false /\ reclaimable t (name p) = Some i /\ n ∉ torn.
Proof.
  unfold logged. rewrite list_elem_of_fmap. setoid_rewrite list_elem_of_filter. unfold is_Some. split.
  - intros (p & -> & (U & (i & R) & T) & Hp). by exists p, i.
  - intros (p & i & Hp & <- & U & R & T). exists p. split_and!; try done. by exists i.
Qed.

Lemma nodup_name ps (p q : monitoredPeer) : NoDup (map name ps) -> p ∈ ps -> q ∈ ps -> name p = name q -> p = q.
Proof.
  induction ps as [|x ps IH]; intros Hn Hp Hq E; [by apply not_elem_of_nil in Hp|]. cbn in Hn. apply NoDup_cons in Hn as [Hx Hn].
  apply elem_of_cons in Hp, Hq. assert (M : forall y, y ∈ ps -> name x <> name y) by (intros y Hy Ey; apply Hx; rewrite Ey; by apply list_elem_of_fmap_2).
  destruct Hp as [->|Hp], Hq as [->|Hq]; [done|by apply M in Hq|by apply M in Hp|by apply IH].
Qed.

Lemma dead_not_back up ps p : NoDup (map name ps) -> p ∈ ps -> up p = false -> name p ∉ back up ps.
Proof.
  intros Hn Hp U. unfold back. rewrite elem_of_list_to_set, list_elem_of_fmap. intros (q & Eq & Hq).
  apply list_elem_of_filter in Hq as [Uq Hq]. assert (q = p) as -> by by apply (nodup_name ps). congruence.
Qed.

(** A sweep right after a sweep does nothing. *)
Lemma sweep_twice up ps torn t log : NoDup (map name ps) ->
  let '(torn', t', _) := fold_left (sweep up) ps (torn, t, log) in
  fold_left (sweep up) ps (torn', t', []) = (torn', t', []).
Proof.
  intros Hn. rewrite !sweep_run by done. cbn [peersByName live demuxer].
  assert (L : forall d, logged up (torn ∖ back up ps ∪ list_to_set (logged up torn t ps)) (mkTearer (peersByName t) (live t) d) ps = []).
  { intros d. destruct (logged _ _ _ _) as [|n l] eqn:E; [done|]. exfalso.
    assert (Hx : n ∈ n :: l) by left. rewrite <- E in Hx. apply logged_spec in Hx as (p & i & Hp & Np & U & R & Hx). apply Hx.
    apply elem_of_union. destruct (decide (n ∈ torn)) as [T|T].
    - left. apply elem_of_difference. split; [done|]. rewrite <- Np. by apply dead_not_back.
    - right. rewrite elem_of_list_to_set, logged_spec. exists p, i. by split_and!. }
  assert (B : forall n, n ∈ logged up torn t ps -> n ∉ back up ps) by (intros n (p & i & Hp & <- & U & _)%logged_spec; by apply dead_not_back).
  rewrite L. f_equal. f_equal; [set_solver|]. rewrite free_free. f_equal. f_equal. change (freed up (mkTearer _ _ _) ps) with (freed up t ps). set_solver.
Qed.

(** C21. A sweep of the teardown monitor frees exactly the dead.  Whatever else the
    engine's dump holds, a peer of the bind loses its resequencer and all its source
    bindings when a monitored peer of its name has no handshake the engine still
    accepts, it is not the primary and none of its paths is up; every other peer keeps
    its resequencer and every binding.  The names logged are those of the peers freed
    that were not logged since they were last alive, and a second sweep right after
    changes nothing and logs nothing.  A failed read of the engine does nothing. *)
Theorem sweep_frees_the_dead expiry header bs ps now torn t :
  dump_ok header bs -> NoDup (map bkey bs) -> NoDup (map name ps) ->
  let '(torn', t', log) := poll expiry ps (Some (render (dump_lines header bs))) now torn t in
  (forall i, (exists p, p ∈ ps /\ dead_as expiry now bs t p i) ->
     (i ∉ demux.instantiated (demuxer t')) /\ forall src b, demux.peerBySource (demuxer t') !! src = Some b -> demux.bpeer b <> i) /\
  (forall i, ~ (exists p, p ∈ ps /\ dead_as expiry now bs t p i) ->
     (i ∈ demux.instantiated (demuxer t') <-> i ∈ demux.instantiated (demuxer t)) /\
     forall src b, demux.bpeer b = i -> demux.peerBySource (demuxer t') !! src = Some b <-> demux.peerBySource (demuxer t) !! src = Some b) /\
  (forall n, n ∈ log <-> (n ∉ torn) /\ exists p i, p ∈ ps /\ name p = n /\ dead_as expiry now bs t p i) /\
  (forall p, p ∈ ps -> alive expiry now bs p -> name p ∉ torn') /\
  poll expiry ps (Some (render (dump_lines header bs))) now torn' t' = (torn', t', []) /\
  poll expiry ps None now torn t = (torn, t, []).
Proof.
  intros D Hk Hn. unfold poll. rewrite perPeer_dump by done. pose proof (sweep_twice (established expiry (readback bs) now) ps torn t [] Hn) as Tw.
  rewrite sweep_run in Tw |- * by done. cbn [demuxer]. set (up := established expiry (readback bs) now) in *.
  assert (Dead : forall i, i ∈ freed up t ps <-> exists p, p ∈ ps /\ dead_as expiry now bs t p i).
  { intros i. rewrite freed_spec. by setoid_rewrite dead_spec; [|done]. }
  setoid_rewrite <- Dead. destruct t as [r l [m q c v s]]. unfold free, update. cbn [demuxer demux.instantiated demux.peerBySource].
  split_and!; [| | | |done|done].
  - intros i Hi. split; [set_solver|]. intros src b [_ H]%map_lookup_filter_Some Eb. cbn in H. by rewrite Eb in H.
  - intros i Hi. split; [set_solver|]. intros src b <-. rewrite map_lookup_filter_Some. cbn. tauto.
  - intros n. cbn [app]. rewrite logged_spec. setoid_rewrite dead_spec; [|done]. naive_solver.
  - intros p Hp A. apply alive_spec in A; [|done]. rewrite not_elem_of_union. split.
    + unfold back. rewrite elem_of_difference, elem_of_list_to_set. intros [_ H]. apply H. apply list_elem_of_fmap. exists p. split; [done|]. by apply list_elem_of_filter.
    + rewrite elem_of_list_to_set. intros (x & i & Hx & E & U & _)%logged_spec. apply (nodup_name ps) in E as ->; [|done..]. unfold up in U. congruence.
Qed.

(** For an accepted configuration the peers monitored have distinct names, and none
    is that of the primary, so the theorem applies to them. *)
Lemma monitored_names LookupIP urlParse raw c : config.load LookupIP urlParse raw = Ok c ->
  NoDup (map name (concentratorMonitoredPeers c (config.PeerIdentities c))) /\
  forall p id, p ∈ concentratorMonitoredPeers c (config.PeerIdentities c) -> head (config.PeerIdentities c) = Some id -> name p <> config.idName id.
Proof.
  intros Hl. pose proof (config_props.wf_names _ (proj1 (config_props.load_ok _ _ _ _ Hl))) as N. unfold concentratorMonitoredPeers.
  destruct (negb _ || _) eqn:E; [split; [constructor|intros p id H; by apply not_elem_of_nil in H]|].
  apply orb_false_iff in E as [_ L]. apply Nat.leb_gt in L. unfold allMonitoredPeers.
  assert (Ln : length (config.PeerIdentities c) = length (config.peers c)) by (unfold config.PeerIdentities; by rewrite length_map).
  rewrite (proj2 (Nat.eqb_neq _ 1)) by lia. revert N Ln L. generalize (config.PeerIdentities c) as ids, (config.peers c) as ps.
  intros [|i0 ids] [|p0 ps] N Ln L; try done. cbn [map] in N. apply NoDup_cons in N as [N0 N]. cbn [zip_with drop head].
  assert (M : map name (zip_with (fun p id => mkMonitored (config.idName id) (bytes (config.hex (config.kbytes (config.PublicKey p))))) ps ids) = map config.idName ids).
  { cbn in Ln. revert ids Ln N0 N. clear. induction ps as [|p ps IH]; intros [|i ids] Ln N0 N; try done. cbn. f_equal. apply IH; cbn in *; [lia|set_solver|].
    by apply NoDup_cons in N as [_ N]. }
  cbn [map] in *. rewrite drop_0, M. split; [done|]. intros p id Hp [= ->] E. apply N0. rewrite <- E, <- M. by apply list_elem_of_fmap_2.
Qed.

(** *** Example: a concentrator with two edges, one of which never answered *)
Definition keyW (c : ascii) : list Z := replicate 64 (chr c).
Definition blocksW : list block :=
  [mkBlock (keyW "a") [] 1700000000 5 [bytes "allowed_ip=10.0.0.2/32"]; mkBlock (keyW "b") [bytes "endpoint=192.0.2.7:51820"] 0 0 []].
Definition headerW : list (list Z) := [bytes "listen_port=51820"].
Definition monitoredW : list monitoredPeer := [mkMonitored "edge-a" (keyW "a"); mkMonitored "edge-b" (keyW "b")].
Definition nowW : Time := probe.Unix (1700000000 * second + 60 * second).
Definition tearerW : tearer :=
  mkTearer {[ "edge-a"%string := 1%nat; "edge-b"%string := 2%nat ]} (fun _ => false)
    (demux.mkState {[ mkAddrPort [10; 0; 0; 7] [] 7 := demux.mkBinding 2 1 ]} 1 16 3 {[ 0%nat; 1%nat; 2%nat ]}).

Ltac other := split; [by apply (bool_decide_unpack _)|vm_compute; split_and!; discriminate].
Ltac others := first [apply Forall_nil_2 | apply Forall_cons; split; [other|others]].
Lemma dumpW_ok : dump_ok headerW blocksW.
Proof.
  split; [others|]. assert (S : forall c, solid (chr c) = true -> Forall (fun x => solid x = true) (keyW c)) by (intros c H; by apply Forall_replicate).
  repeat (apply Forall_cons; split; [split_and!; cbn [bkey before after bsec bnsec]; [done|by apply S|others|others|done|done|done]|]). constructor.
Qed.
Lemma keysW_distinct : NoDup (map bkey blocksW).
Proof. by apply (bool_decide_unpack _). Qed.
Lemma deadW p i : p ∈ monitoredW -> dead_as RejectAfterTime nowW blocksW tearerW p i <-> i = 2%nat /\ name p = "edge-b"%string.
Proof.
  intros Hp. rewrite dead_spec by apply keysW_distinct.
  assert (F : Forall (fun p => (established RejectAfterTime (readback blocksW) nowW p, reclaimable tearerW (name p)) =
    if bool_decide (name p = "edge-b"%string) then (false, Some 2%nat) else (true, Some 1%nat)) monitoredW)
    by (repeat constructor; vm_compute; reflexivity).
  apply (proj1 (Forall_forall _ _) F) in Hp. cbv beta in Hp.
  destruct (bool_decide_reflect (name p = "edge-b"%string)) as [E|E]; apply pair_equal_spec in Hp as [-> ->]; naive_solver.
Qed.

Lemma sweep_frees_the_dead_witness :
  let '(torn', t', log) := poll RejectAfterTime monitoredW (Some (render (dump_lines headerW blocksW))) nowW ∅ tearerW in
  (2%nat ∉ demux.instantiated (demuxer t')) /\ 1%nat ∈ demux.instantiated (demuxer t').
Proof.
  assert (N : NoDup (map name monitoredW)) by by apply (bool_decide_unpack _).
  pose proof (sweep_frees_the_dead RejectAfterTime headerW blocksW monitoredW nowW ∅ tearerW dumpW_ok keysW_distinct N) as H.
  destruct (poll RejectAfterTime monitoredW _ nowW ∅ tearerW) as [[torn' t'] log]. destruct H as (F & K & _). split.
  - apply F. exists (mkMonitored "edge-b" (keyW "b")). assert (Hp : mkMonitored "edge-b" (keyW "b") ∈ monitoredW) by (right; left).
    split; [done|]. by apply deadW.
  - apply K; [|by apply (bool_decide_unpack _)]. intros (p & Hp & Dp). by apply deadW in Dp as [? _].
Defined.

(** The edges' sessions, monitored in the other order than the dump has them. *)
Lemma session_verdicts_agree_witness :
  Established (sessionSnapshot RejectAfterTime (Some (render (dump_lines headerW blocksW))) nowW) = true /\
  PEstablished <$> PeerSessionSnapshots RejectAfterTime (reverse monitoredW) (Some (render (dump_lines headerW blocksW))) nowW !! 1%nat = Some true.
Proof.
  assert (P : 0 <= RejectAfterTime) by (vm_compute; discriminate).
  assert (A : in_session RejectAfterTime nowW blocksW (keyW "a")) by (exists (mkBlock (keyW "a") [] 1700000000 5 [bytes "allowed_ip=10.0.0.2/32"]); split; [left|vm_compute; done]).
  pose proof (session_verdicts_agree RejectAfterTime headerW blocksW (reverse monitoredW) nowW ∅ None "" dumpW_ok keysW_distinct P) as (E & H & _).
  split; [apply H; by exists (keyW "a")|]. apply (E 1%nat (mkMonitored "edge-a" (keyW "a")) eq_refl). exact A.
Defined.
End session_props.
