(* ===== verification/Monitor.v ===== *)
(** * The monitoring endpoint ([internal/monitor], and its wiring in
    [internal/device/device.go])

    A snapshot of the metrics with addresses hidden or shown, the HTTP server that
    streams it and takes the one control request, and the endpoint as the tunnel
    starts, rebinds and stops it.

    A request is what the HTTP library hands to the handlers.  [urlHost] is the host of
    [url.Parse] ([None] when it fails), [decodePeer] what the JSON decoder makes of the
    bytes of the body and of whether the reader fails after them, [addrText] and
    [addrPortText] the printed forms of addresses, [LookupIP] the resolver.  The answer
    of [net.Listen] is an argument of a call. *)

From Stdlib Require Import Ascii String.
From stdpp Require Import base tactics list numbers gmap strings sets.
From S2P Require Import Prelude Float64 Telemetry Probe Reseq BondWire BondLane Netip Config Text Session ExitSelector.

Module monitor.
#[local] Existing Instance telemetry.PathState_eq_dec.
Import float64 netip text.

(** ** The read model ([metrics.Source]) *)

(** [bond.PathStats], one lane of a transport. *)
Record PathStats := mkPathStats {
  Path : Z; TransitFloor : Duration; TransitFloorKnown : bool; TransitFloorAge : Duration; PathDelay : Duration; Rank : Duration;
  Liveness : string; LivenessAge : Duration; ACKProgressKnown : bool;
  Capacity : float; Rate : float; SendRate : float; DeliveryRate : float;
  RTT : Duration; RTTVariation : Duration; IdleRTTVariation : Duration; IdleForwardVariation : Duration;
  FeedbackRTT : Duration; FeedbackRTTVariation : Duration; BaseRTT : Duration; QueueDelay : Duration;
  InFlight : Z; Window : Z; Sent : Z; ACKed : Z; Retransmits : Z; InteractiveSent : Z;
  RealtimeOriginals : Z; BulkOriginals : Z; BulkReceived : Z; Up : bool; Discovering : bool; Threshold : Duration;
  Decisions : lanes.Decisions
}.

(** The fields of [bond.Snapshot] that are shown; [Rejected] is indexed by the cause. *)
Record Snapshot := mkSnapshot {
  Paths : list PathStats; QueueDrops : Z; AdmissionDrops : Z; AQMDrops : Z; InteractiveQueueDrops : Z;
  InteractiveQueued : Z; CoalescedACKs : Z; Expired : Z; Duplicates : Z; Rejected : list Z
}.

Record AdaptiveSnapshot := mkAdaptive { aPeer : string; State : Snapshot; LanePaths : gmap Z string }.

(** [metrics.PathSnapshot]. *)
Record PathMetrics := mkPathMetrics {
  Peer : string; Name : string; TxBytes : Z; RxBytes : Z; ThroughputBitsPerSecond : float;
  Estimate : telemetry.Estimate; PathState : telemetry.PathState; PMTU : Z; ProbeSendErrors : Z; SocketWriteErrors : Z;
  BindMode : string; BoundDevice : string; Source : Addr; Remote : AddrPort
}.

Record Metrics := mkMetrics {
  mPaths : list PathMetrics; mReseq : list (string * reseq.Stats); mAdaptive : list AdaptiveSnapshot;
  mSession : session.SessionSnapshot; mPeerSessions : list session.PeerSessionSnapshot; mPeerNames : list string
}.

(** ** The snapshot *)
Record AddressingSnapshot := mkAddressing { adSource : string; adRemote : string }.
Record PathSnapshot := mkPath {
  pName : string; pPeer : string; pTxBytes : Z; pRxBytes : Z; pThroughputBps : float; pRTTSeconds : float; pJitterSeconds : float;
  pLoss : float; pUp : bool; pBindMode : string; pBoundDevice : string; Addressing : option AddressingSnapshot
}.
Record ReseqSnapshot := mkReseq {
  rPeer : string; rReleased : Z; rDroppedDup : Z; rDroppedOld : Z; rDroppedSuspect : Z; rSkipped : Z; rResyncs : Z; rRebaselines : Z;
  rHolds : Z; rHoldNanos : Z; rArmedDeadlineUnixNano : Z; rArmedWindowNanos : Z; rDeadlineWakeups : Z; rGapFills : Z
}.
(** The counters of [bond.Decisions] are kept together. *)
Record LaneSnapshot := mkLane {
  lPeer : string; lPath : string; lRemotePath : Z; lLane : Z;
  lTransitFloorSeconds : float; lTransitFloorKnown : bool; lTransitFloorAgeSeconds : float; lPathDelaySeconds : float; lRankSeconds : float;
  lLiveness : string; lLivenessAgeSeconds : float; lACKProgressKnown : bool; lUp : bool; lDiscovering : bool;
  lTargetBps : float; lSendBps : float; lDeliveryBps : float; lCapacityBps : float;
  lRTTSeconds : float; lQueueDelaySeconds : float; lThresholdSeconds : float;
  lInFlightBytes : Z; lWindowBytes : Z; lSentBytes : Z; lAckedBytes : Z; lRepairs : Z; lDecisions : lanes.Decisions
}.
Record TransportSnapshot := mkTransport {
  RejectedFrames : list (string * Z); tPeer : string; tQueueDrops : Z; tAdmissionDrops : Z; tAQMDrops : Z; tInteractiveDrops : Z;
  tInteractiveQueued : Z; tExpired : Z; tDuplicates : Z; tCoalescedACKs : Z
}.
Record SessionSnapshot := mkSession { Established : bool; LastHandshakeSeconds : float }.
Record DaemonSnapshot := mkDaemon { dRole : string; dVersion : string; dBuildCommit : string; dBuildCommitTime : string; dUptimeSeconds : float }.
Record EndpointSnapshot := mkEndpoint { ePeer : string; Address : string; Active : bool }.

(** The providers are given by what they return at the snapshot. *)
Record Info := mkInfo {
  Role : string; Version : string; BuildCommit : string; BuildCommitTime : string; UptimeSeconds : float; Uptime : option float;
  WGPublicKeyFingerprint : string; Endpoints : option (list EndpointSnapshot); ActiveExit : option string; ExitMode : option string;
  ExitCapablePeers : list string
}.

Record MonitorSnapshot := mkMonitorSnapshot {
  sPaths : list PathSnapshot; sLanes : list LaneSnapshot; sTransport : list TransportSnapshot; sReseq : list ReseqSnapshot;
  sSession : SessionSnapshot; sPeerNames : list string; sMultiPeer : bool; sDaemon : DaemonSnapshot;
  sEndpoints : option (list EndpointSnapshot); sPeerSessions : list session.PeerSessionSnapshot;
  sActiveExit : string; sExitMode : string; sExitCapablePeers : list string; sFingerprint : string;
  AddressingHidden : bool; ExitControlAvailable : bool
}.

Definition causeString (c : bond.RejectionCause) : string :=
  match c with
  | bond.RejectMalformed => "malformed" | bond.RejectEpoch => "epoch" | bond.RejectPath => "path" | bond.RejectLane => "lane"
  | bond.RejectACK => "ack" | bond.RejectType => "type" | bond.RejectTime => "time"
  end.
(** [RejectionCause]'s values, from 0. *)
Definition causes : list bond.RejectionCause :=
  [bond.RejectMalformed; bond.RejectEpoch; bond.RejectPath; bond.RejectLane; bond.RejectACK; bond.RejectType; bond.RejectTime].

Definition unixNanoOrZero (value : Time) : Z := if is_zero_time value then 0 else probe.UnixNano value.

Definition reseqSnapshot (r : string * reseq.Stats) : ReseqSnapshot :=
  let s := snd r in
  mkReseq (fst r) (reseq.Released_ s) (reseq.DroppedDup s) (reseq.DroppedOld s) (reseq.DroppedSuspect s) (reseq.Skipped s)
    (reseq.Resyncs s) (reseq.Rebaselines s) (reseq.Holds s) (reseq.HoldNanos s)
    (unixNanoOrZero (reseq.ArmedDeadline_ s)) (reseq.ArmedWindow s) (reseq.DeadlineWakeups s) (reseq.GapFills s).

Definition bitsPerByte : float := fofZ 8.

Definition laneSnapshot (t : AdaptiveSnapshot) (lane : PathStats) : LaneSnapshot :=
  mkLane (aPeer t) (default EmptyString (LanePaths t !! Path lane)) (Path lane mod 256) (Path lane)
    (Seconds (TransitFloor lane)) (TransitFloorKnown lane) (Seconds (TransitFloorAge lane)) (Seconds (PathDelay lane)) (Seconds (Rank lane))
    (Liveness lane) (Seconds (LivenessAge lane)) (ACKProgressKnown lane) (Up lane) (Discovering lane)
    (fmul (Rate lane) bitsPerByte) (fmul (SendRate lane) bitsPerByte) (fmul (DeliveryRate lane) bitsPerByte) (fmul (Capacity lane) bitsPerByte)
    (Seconds (RTT lane)) (Seconds (QueueDelay lane)) (Seconds (Threshold lane))
    (InFlight lane) (Window lane) (Sent lane) (ACKed lane) (Retransmits lane) (Decisions lane).

Definition transportSnapshot (t : AdaptiveSnapshot) : TransportSnapshot :=
  let s := State t in
  mkTransport (zip_with (fun c n => (causeString c, n)) causes (Rejected s)) (aPeer t) (QueueDrops s) (AdmissionDrops s) (AQMDrops s)
    (InteractiveQueueDrops s) (InteractiveQueued s) (Expired s) (Duplicates s) (CoalescedACKs s).

Section Build.
Context (addrText : Addr -> string) (addrPortText : AddrPort -> string).

Definition addrString (a : Addr) : string := if IsValid a then addrText a else EmptyString.
(** [AddrPort.IsValid] asks for the address only. *)
Definition addrPortString (a : AddrPort) : string := if negb (length (ap_addr a) =? 0)%nat then addrPortText a else EmptyString.

Definition pathSnapshot (revealAddressing : bool) (p : PathMetrics) : PathSnapshot :=
  mkPath (Name p) (Peer p) (TxBytes p) (RxBytes p) (ThroughputBitsPerSecond p)
    (Seconds (telemetry.RTT (Estimate p))) (Seconds (telemetry.Jitter (Estimate p))) (telemetry.Loss (Estimate p))
    (bool_decide (PathState p = telemetry.StateUp)) (BindMode p) (BoundDevice p)
    (if revealAddressing then Some (mkAddressing (addrString (Source p)) (addrPortString (Remote p))) else None).

Definition endpointSnapshot (revealAddressing : bool) (e : EndpointSnapshot) : EndpointSnapshot :=
  if revealAddressing then e else mkEndpoint (ePeer e) EmptyString (Active e).

Definition BuildSnapshot (src : Metrics) (info : Info) (revealAddressing controlAvailable : bool) : MonitorSnapshot :=
  let transports := mAdaptive src in
  mkMonitorSnapshot
    (map (pathSnapshot revealAddressing) (mPaths src))
    (concat (map (fun t => map (laneSnapshot t) (Paths (State t))) transports))
    (map transportSnapshot transports)
    (map reseqSnapshot (mReseq src))
    (mkSession (session.Established (mSession src)) (Seconds (session.LastHandshakeAge (mSession src))))
    (mPeerNames src) (1 <? length (mPeerNames src))%nat
    (mkDaemon (Role info) (Version info) (BuildCommit info) (BuildCommitTime info) (default (UptimeSeconds info) (Uptime info)))
    (map (endpointSnapshot revealAddressing) <$> Endpoints info)
    (mPeerSessions src)
    (default EmptyString (ActiveExit info)) (default EmptyString (ExitMode info)) (ExitCapablePeers info)
    (WGPublicKeyFingerprint info) (negb revealAddressing) controlAvailable.
End Build.

(** ** Requests and who may make them *)
Definition exitPath : string := "/api/exit".
Definition wsPath : string := "/ws".

(** Absent headers are empty; [Cookie] is the value of the token's cookie, [Query] of
    the query parameter [token]. *)
Record Request := mkRequest {
  Method : string; URLPath : string; Host : string; Origin : string; Authorization : string; Cookie : option string; Query : string;
  Body : list Z
}.

Record authConfig := mkAuth { token : string; allowed : gset string }.

Definition allowedHosts (listenAddr : string) : gset string :=
  let set : gset string := {[ "localhost"%string; "127.0.0.1"%string; "::1"%string ]} in
  match SplitHostPort listenAddr with
  | Some (host, _) => if negb (bool_decide (host = EmptyString)) then set ∪ {[ host ]} else set
  | None => set
  end.

(** [strings.TrimPrefix] and [strings.TrimSuffix] of one byte. *)
Definition TrimPrefix (c : Z) (s : list Z) : list Z := match s with b :: r => if b =? c then r else s | [] => s end.
Definition TrimSuffix (c : Z) (s : list Z) : list Z := rev (TrimPrefix c (rev s)).

Definition hostOnly (hostport : string) : string :=
  let h := match SplitHostPort hostport with Some (host, _) => host | None => hostport end in
  of_bytes (TrimSuffix (chr "]") (TrimPrefix (chr "[") (bytes h))).

(** [net.ParseIP]: an address without a zone. *)
Definition ParseIP (s : string) : option Addr :=
  ip ← ParseAddr s; if bool_decide (azone ip = []) then Some ip else None.

Definition hostAllowed (hostport : string) (allow : gset string) : bool :=
  let h := hostOnly hostport in
  if bool_decide (h ∈ allow) then true else match ParseIP h with Some _ => true | None => false end.

Definition originAllowed (originHostport reqHostport : string) (allow : gset string) : bool :=
  if bool_decide (originHostport = reqHostport) then true else bool_decide (hostOnly originHostport ∈ allow).

Definition tokenMatches (a : authConfig) (got : list Z) : bool := bool_decide (got = bytes (token a)).

(** [authorize]: the request goes on, or is answered by a redirect that sets the
    cookie, or by 401. *)
Inductive authorization := Authorized | Bootstrap | Unauthorized.

Definition bearer (a : authConfig) (r : Request) : bool :=
  match Cut (chr " ") (bytes (Authorization r)) with
  | Some (scheme, credential) => EqualFold scheme (bytes "Bearer") && tokenMatches a (TrimSpace credential)
  | None => false
  end.

Definition authorize (a : authConfig) (r : Request) : authorization :=
  if bearer a r then Authorized
  else if (match Cookie r with Some v => tokenMatches a (bytes v) | None => false end) then Authorized
  else if bool_decide (Method r = "GET"%string) && negb (bool_decide (Query r = EmptyString)) && tokenMatches a (bytes (Query r)) then Bootstrap
  else Unauthorized.

(** ** The control request *)
Inductive switched := Switched (activeExit : string) | UnknownExitPeer | SwitchFailed.

Inductive response :=
  | Status (code : Z)
  | SetCookieRedirect
  | StaticFile
  | Upgrade
  | ExitSwitched (activeExit exitMode : string).

Definition maxExitBodyBytes : nat := 4096%nat.

(** The routes of the mux; a GET pattern takes HEAD too.  [URLPath] is a clean path:
    for another the mux answers with a redirect to it. *)
Inductive handler := HStatic | HWS | HExit | HNotAllowed.
Definition isGet (m : string) : bool := bool_decide (m = "GET"%string) || bool_decide (m = "HEAD"%string).
Definition route (r : Request) : handler :=
  if bool_decide (URLPath r = exitPath) then
    if bool_decide (Method r = "POST"%string) || isGet (Method r) then HExit else HNotAllowed
  else if bool_decide (URLPath r = wsPath) then if isGet (Method r) then HWS else HNotAllowed
  else if isGet (Method r) then HStatic else HNotAllowed.

Section Server.
Context (urlHost : string -> option string) (decodePeer : list Z -> bool -> option string).

(** The state the control request acts on. *)
Context {X : Type} (switchExit : option (string -> X -> X * switched)).

Definition newExitHandler (controlAvailable : bool) (r : Request) (x : X) : X * response :=
  if negb (bool_decide (Method r = "POST"%string)) then (x, Status 405)
  else if negb controlAvailable then (x, Status 403)
  else match switchExit with
       | None => (x, Status 400)
       | Some sw =>
         match decodePeer (take maxExitBodyBytes (Body r)) (maxExitBodyBytes <? length (Body r))%nat with
         | None => (x, Status 400)
         | Some peer =>
           let '(x, res) := sw peer x in
           (x, match res with
               | UnknownExitPeer => Status 400
               | SwitchFailed => Status 500
               | Switched active => ExitSwitched active peer
               end)
         end
       end.

Definition serve (controlAvailable : bool) (r : Request) (x : X) : X * response :=
  match route r with
  | HStatic => (x, StaticFile)
  | HWS => (x, Upgrade)
  | HExit => newExitHandler controlAvailable r x
  | HNotAllowed => (x, Status 405)
  end.

Definition middleware (a : authConfig) (controlAvailable : bool) (r : Request) (x : X) : X * response :=
  if negb (hostAllowed (Host r) (allowed a)) then (x, Status 403)
  else if negb (bool_decide (Origin r = EmptyString)) &&
          negb (match urlHost (Origin r) with
                | Some h => negb (bool_decide (h = EmptyString)) && originAllowed h (Host r) (allowed a)
                | None => false
                end) then (x, Status 403)
  else if bool_decide (token a = EmptyString) then serve controlAvailable r x
  else match authorize a r with
       | Authorized => serve controlAvailable r x
       | Bootstrap => (x, SetCookieRedirect)
       | Unauthorized => (x, Status 401)
       end.
End Server.

(** ** Construction *)
Inductive serverError := ErrAddress | ErrNonLoopbackBind | ErrListen.

(** A server with its listener, and the verdicts its handlers were built with. *)
Record Server := mkServer { bound : AddrPort; auth : authConfig; revealAddressing : bool; controlAvailable : bool }.

(** What happens to listeners. *)
Inductive event := Opened (a : AddrPort) | Closed (a : AddrPort).

Definition verifyLoopbackBind (a : AddrPort) : bool := IsLoopback (mkAddr (ap_addr a) (ap_zone a)).

(** The embedded files are opened by a name that is a valid path, which [fs.Sub] does not
    refuse. *)
Definition NewServer (LookupIP : string -> option (list Addr)) (listen : string -> option AddrPort)
    (addr tok : string) (revealOptIn : bool) (extraHosts : list string) : list event * (serverError + Server) :=
  match config.IsLoopbackHost LookupIP addr with
  | None => ([], inl ErrAddress)
  | Some loopback =>
    if negb loopback && bool_decide (tok = EmptyString) then ([], inl ErrNonLoopbackBind)
    else match listen addr with
         | None => ([], inl ErrListen)
         | Some ln =>
           if bool_decide (tok = EmptyString) && negb (verifyLoopbackBind ln) then ([Opened ln; Closed ln], inl ErrNonLoopbackBind)
           else
             let loopbackBound := verifyLoopbackBind ln in
             ([Opened ln],
              inr (mkServer ln (mkAuth tok (allowedHosts addr ∪ list_to_set extraHosts))
                    (loopbackBound || revealOptIn) (loopbackBound || negb (bool_decide (tok = EmptyString)))))
         end
  end.

(** ** The endpoint of a tunnel *)
Record endpoint := mkEndpointState {
  monitorSrv : option Server; monitorListen : string; monitorToken : string; monitorReveal : bool; monitorHosts : list string
}.
Definition noEndpoint : endpoint := mkEndpointState None EmptyString EmptyString false [].

Definition stopMonitorLocked (e : endpoint) : list event * endpoint :=
  match monitorSrv e with
  | None => ([], e)
  | Some s => ([Closed (bound s)], noEndpoint)
  end.

(** [listen] answers for the listeners open at that moment. *)
Definition applyMonitorLocked (LookupIP : string -> option (list Addr)) (listen : string -> option AddrPort)
    (m : config.Monitor) (e : endpoint) : list event * endpoint * option serverError :=
  let addr := config.monListen m in
  let tok := config.Token m in
  let reveal := config.RevealAddressing m in
  let hosts := config.AllowedHosts m in
  if bool_decide (addr = monitorListen e) && bool_decide (tok = monitorToken e) && eqb reveal (monitorReveal e) &&
     bool_decide (hosts = monitorHosts e) then ([], e, None)
  else if bool_decide (addr = EmptyString) then let '(evs, e) := stopMonitorLocked e in (evs, e, None)
  else
    let sameAddr := bool_decide (addr = monitorListen e) in
    let '(evs1, e) := if sameAddr then stopMonitorLocked e else ([], e) in
    let '(evs2, res) := NewServer LookupIP listen addr tok reveal hosts in
    match res with
    | inr srv =>
      let '(evs3, e) := if negb sameAddr then stopMonitorLocked e else ([], e) in
      (evs1 ++ evs2 ++ evs3, mkEndpointState (Some srv) addr tok reveal hosts, None)
    | inl err => (evs1 ++ evs2, e, Some err)
    end.

(** What the control request of a tunnel acts on: the selector, when there is one, and
    the calls made to the engine. *)
Record exitState := mkExitState { selector : option exitselector.world; calls : list (exitselector.request * bool) }.

Definition switchActiveExit (accept : exitselector.request -> bool) (now : Time) (peer : string) (x : exitState) : exitState * switched :=
  match selector x with
  | None => (x, UnknownExitPeer)
  | Some w =>
    let '(w, log, err) := exitselector.Switch accept now peer w in
    (mkExitState (Some w) (calls x ++ log),
     match err with
     | Some (exitselector.unknownExitError _) => UnknownExitPeer
     | Some (exitselector.engineError _ _) => SwitchFailed
     | None => Switched (exitselector.ActiveExit w)
     end)
  end.

(** A request to the endpoint; without a server there is none. *)
Definition handle (urlHost : string -> option string) (decodePeer : list Z -> bool -> option string)
    (accept : exitselector.request -> bool) (now : Time) (e : endpoint) (r : Request) (x : exitState) : exitState * option response :=
  match monitorSrv e with
  | None => (x, None)
  | Some s =>
    let '(x, res) := middleware urlHost decodePeer (Some (switchActiveExit accept now)) (auth s) (controlAvailable s) r x in
    (x, Some res)
  end.
End monitor.
