(* ===== verification/MonitorProps.v ===== *)
(** * What the monitoring endpoint guarantees

    Over any history of reloads and requests the endpoint runs with the settings last
    applied, only authorized requests move the exit, and addresses are hidden from a
    listener that is not local. *)

From Stdlib Require Import Ascii String.
From stdpp Require Import base tactics list numbers gmap strings sets.
From S2P Require Import Prelude Float64 Telemetry Netip Config Text Session ExitSelector Monitor.

Module monitor_props.
Import float64 netip text monitor.

(** ** Histories *)
Section History.
Context (LookupIP : string -> option (list Addr)) (urlHost : string -> option string) (decodePeer : list Z -> bool -> option string).

(** A reload with the answers of [net.Listen], or a request with the clock and the
    answers of the engine. *)
Inductive op :=
  | Apply (listen : string -> option AddrPort) (m : config.Monitor)
  | Req (accept : exitselector.request -> bool) (now : Time) (r : Request).

Record state := mkState { ep : endpoint; exit : exitState; trace : list event }.

Definition exec (st : state) (o : op) : state :=
  match o with
  | Apply listen m => let '(evs, e, _) := applyMonitorLocked LookupIP listen m (ep st) in mkState e (exit st) (trace st ++ evs)
  | Req accept now r => mkState (ep st) (fst (handle urlHost decodePeer accept now (ep st) r (exit st))) (trace st)
  end.
Definition run (st : state) (ops : list op) : state := fold_left exec ops st.
Definition start (x : exitState) : state := mkState noEndpoint x [].

(** The listeners open after a trace. *)
Fixpoint close_one (a : AddrPort) (l : list AddrPort) : list AddrPort :=
  match l with [] => [] | b :: l => if bool_decide (a = b) then l else b :: close_one a l end.
Definition opens_step (l : list AddrPort) (e : event) : list AddrPort :=
  match e with Opened a => l ++ [a] | Closed a => close_one a l end.
Definition opens (l : list AddrPort) (evs : list event) : list AddrPort := fold_left opens_step evs l.

Definition listening (e : endpoint) : list AddrPort := match monitorSrv e with Some s => [bound s] | None => [] end.

(** The endpoint and its settings fit. *)
Definition fits (e : endpoint) : Prop :=
  match monitorSrv e with
  | None => e = noEndpoint
  | Some s =>
    monitorListen e <> EmptyString /\
    auth s = mkAuth (monitorToken e) (allowedHosts (monitorListen e) ∪ list_to_set (monitorHosts e)) /\
    revealAddressing s = verifyLoopbackBind (bound s) || monitorReveal e /\
    (monitorToken e = EmptyString -> verifyLoopbackBind (bound s) = true) /\ controlAvailable s = true
  end.

Lemma NewServer_spec listen addr tok opt hosts :
  (exists s ln, NewServer LookupIP listen addr tok opt hosts = ([Opened ln], inr s) /\ listen addr = Some ln /\ bound s = ln /\
     auth s = mkAuth tok (allowedHosts addr ∪ list_to_set hosts) /\ revealAddressing s = verifyLoopbackBind ln || opt /\
     (tok = EmptyString -> verifyLoopbackBind ln = true) /\ controlAvailable s = true) \/
  exists evs err, NewServer LookupIP listen addr tok opt hosts = (evs, inl err) /\ (evs = [] \/ exists a, evs = [Opened a; Closed a]).
Proof.
  unfold NewServer. destruct (config.IsLoopbackHost LookupIP addr) as [lb|]; [|right; naive_solver].
  destruct (negb lb && _); [right; naive_solver|]. destruct (listen addr) as [ln|] eqn:L; [|right; naive_solver].
  destruct (bool_decide_reflect (tok = EmptyString)) as [->|T]; destruct (verifyLoopbackBind ln) eqn:I; cbn [andb negb orb];
    [left|right; naive_solver|left|left].
  all: eexists _, ln; cbn; split_and!; try done; by rewrite I.
Qed.

Lemma opens_app l a b : opens l (a ++ b) = opens (opens l a) b.
Proof. apply fold_left_app. Qed.

Definition settings (e : endpoint) : config.Monitor := config.mkMonitor (monitorListen e) (monitorToken e) (monitorHosts e) (monitorReveal e).

Lemma stop_spec e : fits e -> exists evs, stopMonitorLocked e = (evs, noEndpoint) /\ forall l, opens (listening e ++ l) evs = l.
Proof.
  unfold fits, stopMonitorLocked, listening. destruct (monitorSrv e) as [s|]; intros F; [|subst; by exists []].
  exists [Closed (bound s)]. split; [done|]. intros l. cbn. by rewrite bool_decide_true.
Qed.

Lemma opens_refused e evs : evs = [] \/ (exists a, evs = [Opened a; Closed a]) -> opens (listening e) evs = listening e.
Proof.
  intros [->|(a & ->)]; [done|]. unfold listening. destruct (monitorSrv e) as [s|]; cbn; [|by rewrite bool_decide_true].
  destruct (bool_decide_reflect (a = bound s)) as [->|_]; [done|]. by rewrite bool_decide_true.
Qed.

(** What one reload does. *)
Definition reload_ok (m : config.Monitor) (e e' : endpoint) (err : option serverError) : Prop :=
  match err with
  | None => if bool_decide (config.monListen m = EmptyString) then e' = noEndpoint else is_Some (monitorSrv e') /\ settings e' = m
  | Some _ => (config.monListen m <> monitorListen e -> e' = e) /\ (config.monListen m = monitorListen e -> e' = noEndpoint)
  end.

Lemma apply_spec listen m e evs e' err : fits e -> applyMonitorLocked LookupIP listen m e = (evs, e', err) ->
  fits e' /\ opens (listening e) evs = listening e' /\ reload_ok m e e' err.
Proof.
  intros F. unfold applyMonitorLocked, reload_ok. destruct m as [addr tok hosts rev]. cbn [config.monListen config.Token config.AllowedHosts config.RevealAddressing].
  destruct (_ && _) eqn:Same.
  { intros [= <- <- <-]. split; [done|]. split; [done|]. rewrite !andb_true_iff, !bool_decide_eq_true, eqb_true_iff in Same.
    destruct Same as (((-> & ->) & ->) & ->). unfold fits in F. destruct (monitorSrv e) as [s|]; [|by subst].
    destruct F as (Hne & _). rewrite bool_decide_false by done. done. }
  destruct (stop_spec e F) as (evs0 & St & Op). specialize (Op []) as Op0. rewrite app_nil_r in Op0.
  destruct (bool_decide_reflect (addr = EmptyString)) as [->|Hne].
  { rewrite St. by intros [= <- <- <-]. }
  destruct (bool_decide_reflect (addr = monitorListen e)) as [Ea|Ea]; rewrite ?St; cbn [negb];
    destruct (NewServer_spec listen addr tok rev hosts) as [(s & ln & N & _ & B & A & R & T & C)|(evs2 & er & N & Ev)]; rewrite N, ?St;
    intros [= <- <- <-].
  - split; [by rewrite <- B in *; split_and!|]. split; [|by eauto]. rewrite opens_app, Op0. cbn. by rewrite B.
  - split; [done|]. split; [|done]. rewrite opens_app, Op0. by apply (opens_refused noEndpoint).
  - split; [by rewrite <- B in *; split_and!|]. split; [|by eauto]. cbn [app]. change ([Opened ln] ++ evs0) with (Opened ln :: evs0).
    change (opens (listening e) (Opened ln :: evs0)) with (opens (listening e ++ [ln]) evs0). rewrite Op. cbn. by rewrite B.
  - split; [done|]. split; [by apply opens_refused|]. by split.
Qed.

Lemma run_inv x ops : let st := run (start x) ops in fits (ep st) /\ opens [] (trace st) = listening (ep st).
Proof.
  cbv zeta. assert (G : forall st, fits (ep st) -> opens [] (trace st) = listening (ep st) ->
    fits (ep (run st ops)) /\ opens [] (trace (run st ops)) = listening (ep (run st ops))); [|by apply G].
  induction ops as [|o ops IH]; intros st F O; [done|]. cbn. destruct o as [listen m|accept now r]; [|by apply IH]. cbn [exec].
  destruct (applyMonitorLocked LookupIP listen m (ep st)) as [[evs e'] err] eqn:A. destruct (apply_spec _ _ _ _ _ _ F A) as (F' & O' & _).
  apply IH; cbn [ep trace]; [done|]. by rewrite opens_app, O.
Qed.

(** ** Who may move the exit *)

(** A host the operator or the loopback names stand for. *)
Definition known (e : endpoint) (h : string) : Prop :=
  h = "localhost"%string \/ h = "127.0.0.1"%string \/ h = "::1"%string \/
  (h <> EmptyString /\ exists port, SplitHostPort (monitorListen e) = Some (h, port)) \/ h ∈ monitorHosts e.
(** The request carries the token, as a bearer or in the cookie. *)
Definition presents (r : Request) (tok : string) : Prop :=
  Cookie r = Some tok \/
  exists scheme credential, Cut (chr " ") (bytes (Authorization r)) = Some (scheme, credential) /\
    map lower scheme = bytes "bearer" /\ TrimSpace credential = bytes tok.

Record authorized (e : endpoint) (r : Request) : Prop := mkAuthorized {
  by_host : known e (hostOnly (Host r)) \/ is_Some (ParseIP (hostOnly (Host r)));
  by_origin : Origin r = EmptyString \/ exists h, urlHost (Origin r) = Some h /\ h <> EmptyString /\ (h = Host r \/ known e (hostOnly h));
  by_token : (monitorToken e = EmptyString /\ exists s, monitorSrv e = Some s /\ verifyLoopbackBind (bound s) = true) \/
             (monitorToken e <> EmptyString /\ presents r (monitorToken e))
}.

Lemma known_spec e s : monitorSrv e = Some s -> fits e -> forall h, h ∈ allowed (auth s) <-> known e h.
Proof.
  intros E F h. unfold fits in F. rewrite E in F. destruct F as (_ & -> & _). cbn [allowed]. unfold known, allowedHosts.
  destruct (SplitHostPort (monitorListen e)) as [[host port]|].
  - destruct (bool_decide_reflect (host = EmptyString)) as [->|H]; cbn [negb]; set_solver.
  - set_solver.
Qed.

Lemma authorize_spec a r : authorize a r = Authorized <-> presents r (token a).
Proof.
  assert (B : bearer a r = true <-> exists scheme credential, Cut (chr " ") (bytes (Authorization r)) = Some (scheme, credential) /\
    map lower scheme = bytes "bearer" /\ TrimSpace credential = bytes (token a)).
  { unfold bearer, EqualFold, tokenMatches. change (map lower (bytes "Bearer")) with (bytes "bearer").
    destruct (Cut _ _) as [[sc cr]|]; [|naive_solver]. rewrite andb_true_iff, !bool_decide_eq_true. naive_solver. }
  unfold authorize, presents. rewrite <- B. destruct (bearer a r); [naive_solver|]. unfold tokenMatches.
  destruct (Cookie r) as [v|].
  - destruct (bool_decide_reflect (bytes v = bytes (token a))) as [->%bytes_inj|N]; [naive_solver|].
    destruct (_ && _ && _); split; [done| |done|]; intros [[= ->]|]; done.
  - destruct (_ && _ && _); naive_solver.
Qed.

(** The request gets past the middleware. *)
Definition passes (s : Server) (r : Request) : bool :=
  hostAllowed (Host r) (allowed (auth s)) &&
  (bool_decide (Origin r = EmptyString) ||
   match urlHost (Origin r) with
   | Some h => negb (bool_decide (h = EmptyString)) && originAllowed h (Host r) (allowed (auth s))
   | None => false
   end) &&
  (bool_decide (token (auth s) = EmptyString) || match authorize (auth s) r with Authorized => true | _ => false end).

Lemma middleware_passes s r accept now x : passes s r = true ->
  middleware urlHost decodePeer (Some (switchActiveExit accept now)) (auth s) (controlAvailable s) r x =
  serve decodePeer (Some (switchActiveExit accept now)) (controlAvailable s) r x.
Proof.
  unfold passes, middleware. intros [[-> O]%andb_true_iff T]%andb_true_iff. cbn [negb].
  destruct (bool_decide (Origin r = EmptyString)); cbn [negb andb orb] in *; rewrite ?O; cbn [negb];
    (destruct (bool_decide (token (auth s) = EmptyString)); [done|]; cbn [orb] in T; by destruct (authorize (auth s) r)).
Qed.
Lemma middleware_stops s r accept now x : passes s r = false ->
  exists res, middleware urlHost decodePeer (Some (switchActiveExit accept now)) (auth s) (controlAvailable s) r x = (x, res) /\
    (res = Status 403 \/ res = Status 401 \/ res = SetCookieRedirect).
Proof.
  unfold passes, middleware. destruct (hostAllowed _ _); cbn [negb andb]; [|naive_solver].
  destruct (bool_decide (Origin r = EmptyString)); cbn [negb andb orb].
  2: destruct (match urlHost (Origin r) with Some h => _ | None => _ end); cbn [negb andb]; [|naive_solver].
  all: destruct (bool_decide (token (auth s) = EmptyString)); [done|]; cbn [orb]; destruct (authorize (auth s) r); [done|naive_solver|naive_solver].
Qed.

Lemma passes_spec e s r : monitorSrv e = Some s -> fits e -> passes s r = true <-> authorized e r.
Proof.
  intros E F. pose proof (known_spec e s E F) as K. assert (F' := F). unfold fits in F'. rewrite E in F'. destruct F' as (_ & A & _ & L & _).
  assert (T : token (auth s) = monitorToken e) by by rewrite A.
  unfold passes. rewrite !andb_true_iff, !orb_true_iff, !bool_decide_eq_true, T.
  assert (H1 : hostAllowed (Host r) (allowed (auth s)) = true <-> known e (hostOnly (Host r)) \/ is_Some (ParseIP (hostOnly (Host r)))).
  { unfold hostAllowed. rewrite <- K. destruct (bool_decide_reflect (hostOnly (Host r) ∈ allowed (auth s))) as [Hin|Hin]; [tauto|].
    destruct (ParseIP _); split; try done; [by right; eexists|]. by intros [?|[? ?]]. }
  assert (H2 : (match urlHost (Origin r) with Some h => negb (bool_decide (h = EmptyString)) && originAllowed h (Host r) (allowed (auth s)) | None => false end) = true <->
    exists h, urlHost (Origin r) = Some h /\ h <> EmptyString /\ (h = Host r \/ known e (hostOnly h))).
  { unfold originAllowed. destruct (urlHost (Origin r)) as [h|]; [|naive_solver]. rewrite andb_true_iff, negb_true_iff, bool_decide_eq_false.
    setoid_rewrite <- K. destruct (bool_decide_reflect (h = Host r)) as [->|N]; [naive_solver|]. rewrite bool_decide_eq_true. naive_solver. }
  assert (H3 : match authorize (auth s) r with Authorized => true | _ => false end = true <-> presents r (monitorToken e)).
  { rewrite <- T, <- authorize_spec. by destruct (authorize (auth s) r). }
  rewrite H1, H2, H3. split.
  - intros [[X Y] Z]. split; [done|done|]. destruct (decide (monitorToken e = EmptyString)) as [Et|Et]; [left|right].
    + split; [done|]. exists s. auto.
    + split; [done|]. by destruct Z.
  - intros [X Y Z]. split; [done|]. destruct Z as [[? _]|[_ ?]]; auto.
Qed.

Lemma serve_moves s r accept now x x' res : controlAvailable s = true ->
  serve decodePeer (Some (switchActiveExit accept now)) (controlAvailable s) r x = (x', res) ->
  if bool_decide (Method r = "POST"%string) && bool_decide (URLPath r = exitPath) then
    match decodePeer (take maxExitBodyBytes (Body r)) (maxExitBodyBytes <? length (Body r))%nat with
    | Some peer =>
      let '(y, sw) := switchActiveExit accept now peer x in
      x' = y /\ res = match sw with Switched a => ExitSwitched a peer | UnknownExitPeer => Status 400 | SwitchFailed => Status 500 end
    | None => x' = x /\ res = Status 400
    end
  else x' = x /\ forall a m, res <> ExitSwitched a m.
Proof.
  intros C. unfold serve, route, newExitHandler. rewrite C. cbn [negb].
  destruct (bool_decide (Method r = "POST"%string)) eqn:P, (bool_decide (URLPath r = exitPath)); cbn [andb orb negb].
  - destruct (decodePeer _ _) as [peer|]; [|by intros [= <- <-]]. destruct (switchActiveExit accept now peer x) as [y sw]. by intros [= <- <-].
  - destruct (bool_decide (URLPath r = wsPath)), (isGet (Method r)); by intros [= <- <-].
  - destruct (isGet (Method r)); by intros [= <- <-].
  - destruct (bool_decide (URLPath r = wsPath)), (isGet (Method r)); by intros [= <- <-].
Qed.

Lemma foreign_refused e s r accept now x : monitorSrv e = Some s -> fits e ->
  forall h, Origin r <> EmptyString -> urlHost (Origin r) = Some h -> ~ known e (hostOnly h) -> h <> Host r \/ ParseIP (hostOnly h) = None ->
  middleware urlHost decodePeer (Some (switchActiveExit accept now)) (auth s) (controlAvailable s) r x = (x, Status 403).
Proof.
  intros E F h Ho Hh K H. rewrite <- (known_spec e s E F) in K. unfold middleware. destruct (hostAllowed _ _) eqn:A; [|done]. cbn [negb].
  rewrite bool_decide_false, Hh by done. unfold originAllowed. rewrite (bool_decide_false (hostOnly h ∈ _)) by done.
  rewrite (bool_decide_false (h = Host r)); [by rewrite andb_false_r|]. intros ->. destruct H as [?|H]; [done|].
  unfold hostAllowed in A. by rewrite bool_decide_false, H in A by done.
Qed.

(** C20. Only an authorized control request moves the exit.  After any history of
    reloads and requests, a request that changes the selector, calls the engine or is
    answered as a switch is a POST of the control path for a host that is an address or
    one the operator named, from no page or from one of the same origin or of such a
    host, to a listener on loopback or with the configured token; every such request
    with a peer in its body is carried out.  A page of any other domain is refused,
    whatever name it is reached under and whatever it carries. *)
Theorem exit_control_authorized x ops r now accept :
  let st := run (start x) ops in
  let '(x', res) := handle urlHost decodePeer accept now (ep st) r (exit st) in
  (x' <> exit st \/ (exists a m, res = Some (ExitSwitched a m)) ->
     authorized (ep st) r /\ Method r = "POST"%string /\ URLPath r = exitPath) /\
  (forall peer, monitorSrv (ep st) <> None -> authorized (ep st) r -> Method r = "POST"%string -> URLPath r = exitPath ->
     decodePeer (take maxExitBodyBytes (Body r)) (maxExitBodyBytes <? length (Body r))%nat = Some peer ->
     let '(y, sw) := switchActiveExit accept now peer (exit st) in
     x' = y /\ res = Some (match sw with Switched a => ExitSwitched a peer | UnknownExitPeer => Status 400 | SwitchFailed => Status 500 end)) /\
  (forall h, Origin r <> EmptyString -> urlHost (Origin r) = Some h -> ~ known (ep st) (hostOnly h) ->
     h <> Host r \/ ParseIP (hostOnly h) = None ->
     x' = exit st /\ (monitorSrv (ep st) <> None -> res = Some (Status 403))).
Proof.
  cbv zeta. destruct (run_inv x ops) as [F _]. set (st := run (start x) ops) in *. unfold handle.
  destruct (monitorSrv (ep st)) as [s|] eqn:E.
  2: { split_and!; [intros [?|(? & ? & ?)]; done|done|done]. }
  pose proof (passes_spec (ep st) s r E F) as P.
  assert (C : controlAvailable s = true) by (unfold fits in F; rewrite E in F; apply F).
  pose proof (foreign_refused (ep st) s r accept now (exit st) E F) as Fo.
  destruct (middleware urlHost decodePeer (Some (switchActiveExit accept now)) (auth s) (controlAvailable s) r (exit st)) as [x' res] eqn:Mw.
  split_and!; [| |intros h H1 H2 H3 H4; injection (Fo h H1 H2 H3 H4) as -> ->; done].
  - intros Mv. destruct (passes s r) eqn:Ps.
    + rewrite middleware_passes in Mw by done. apply serve_moves in Mw; [|done]. split; [by apply P|].
      destruct (bool_decide_reflect (Method r = "POST"%string)), (bool_decide_reflect (URLPath r = exitPath)); cbn [andb] in Mw; [done|exfalso..].
      all: destruct Mw as [-> Mw], Mv as [Mv|(a & m & [= Mv])]; [done|by apply (Mw a m)].
    + exfalso. destruct (middleware_stops s r accept now (exit st) Ps) as (re & M & R). rewrite Mw in M. injection M as -> ->.
      destruct Mv as [Mv|(a & m & [= Mv])]; [done|]. naive_solver.
  - intros peer _ A M U D. apply P in A. rewrite middleware_passes in Mw by done. apply serve_moves in Mw; [|done].
    rewrite !bool_decide_true, D in Mw by done. cbn [andb] in Mw. destruct (switchActiveExit accept now peer (exit st)) as [y sw]. destruct Mw as [-> ->]. done.
Qed.

(** C23. The endpoint follows the configuration.  After any history of reloads exactly
    the listener of the running server is open.  A reload that reports no error leaves
    the server of exactly the new settings running — on loopback unless they have a token
    — or none when no address is configured, and to repeat it does nothing; one that
    fails keeps the old server when the address is a new one, and leaves none when the
    address is the same; no listener is leaked either way. *)
Theorem monitor_endpoint_follows_config x ops listen m :
  let st := run (start x) ops in
  let '(evs, e', err) := applyMonitorLocked LookupIP listen m (ep st) in
  opens [] (trace st) = listening (ep st) /\ opens [] (trace st ++ evs) = listening e' /\
  match err with
  | None =>
    (config.monListen m = EmptyString -> monitorSrv e' = None) /\
    (config.monListen m <> EmptyString -> settings e' = m /\ exists s, monitorSrv e' = Some s /\ token (auth s) = config.Token m /\
       (config.Token m = EmptyString -> verifyLoopbackBind (bound s) = true)) /\
    (forall listen', applyMonitorLocked LookupIP listen' m e' = ([], e', None))
  | Some _ =>
    (config.monListen m <> monitorListen (ep st) -> e' = ep st) /\ (config.monListen m = monitorListen (ep st) -> monitorSrv e' = None)
  end.
Proof.
  cbv zeta. destruct (run_inv x ops) as [F O]. set (st := run (start x) ops) in *.
  destruct (applyMonitorLocked LookupIP listen m (ep st)) as [[evs e'] err] eqn:A. destruct (apply_spec _ _ _ _ _ _ F A) as (F' & O' & R).
  split; [done|]. split; [by rewrite opens_app, O|]. unfold reload_ok in R. destruct err as [er|]; [split; [apply R|]; intros Ea; by rewrite (proj2 R Ea)|].
  destruct (bool_decide_reflect (config.monListen m = EmptyString)) as [Em|Em].
  - subst e'. split_and!; [done|done|]. intros listen'. unfold applyMonitorLocked. rewrite Em. cbn. by destruct (_ && _).
  - destruct R as [[s Es] <-]. split_and!; [done| |].
    + intros _. split; [done|]. exists s. unfold fits in F'. rewrite Es in F'. destruct F' as (_ & -> & _ & L & _). done.
    + intros listen'. unfold applyMonitorLocked. cbn. rewrite !bool_decide_true, eqb_reflx by done. done.
Qed.

(** ** What is shown *)
Definition hidePath (p : PathMetrics) : PathMetrics :=
  mkPathMetrics (Peer p) (Name p) (TxBytes p) (RxBytes p) (ThroughputBitsPerSecond p) (Estimate p) (PathState p) (PMTU p)
    (ProbeSendErrors p) (SocketWriteErrors p) (BindMode p) (BoundDevice p) Addr0 AddrPort0.
(** The sources and the information with every address taken out. *)
Definition hideMetrics (m : Metrics) : Metrics :=
  mkMetrics (map hidePath (mPaths m)) (mReseq m) (mAdaptive m) (mSession m) (mPeerSessions m) (mPeerNames m).
Definition hideInfo (i : Info) : Info :=
  mkInfo (Role i) (Version i) (BuildCommit i) (BuildCommitTime i) (UptimeSeconds i) (Uptime i) (WGPublicKeyFingerprint i)
    (map (endpointSnapshot false) <$> Endpoints i) (ActiveExit i) (ExitMode i) (ExitCapablePeers i).

Lemma hidden_build at_ apt src info control :
  BuildSnapshot at_ apt src info false control = BuildSnapshot at_ apt (hideMetrics src) (hideInfo info) false control.
Proof.
  unfold BuildSnapshot. f_equal; cbn.
  - rewrite map_map. by apply map_ext.
  - destruct (Endpoints info) as [l|]; [|done]. cbn. f_equal. rewrite map_map. by apply map_ext.
Qed.

(** C22. Addresses are shown on loopback or when the operator asks for it, and else no
    part of a snapshot depends on them.  After any history of reloads and requests, a
    server whose listener is not on loopback and whose configuration does not reveal
    addresses gives the same snapshot for any two states that differ in the local
    addresses of the paths, their remotes and the addresses of the endpoints only;
    any other server shows every path's addresses and every endpoint as it is. *)
Theorem monitor_hides_addresses at_ apt x ops s :
  let e := ep (run (start x) ops) in
  monitorSrv e = Some s ->
  let show src info := BuildSnapshot at_ apt src info (revealAddressing s) (controlAvailable s) in
  if verifyLoopbackBind (bound s) || monitorReveal e then
    forall src info, AddressingHidden (show src info) = false /\ sEndpoints (show src info) = Endpoints info /\
      map Addressing (sPaths (show src info)) = map (fun p => Some (mkAddressing (addrString at_ (Source p)) (addrPortString apt (Remote p)))) (mPaths src)
  else
    forall src info src' info', hideMetrics src = hideMetrics src' -> hideInfo info = hideInfo info' ->
      show src info = show src' info' /\ AddressingHidden (show src info) = true.
Proof.
  cbv zeta. intros E. destruct (run_inv x ops) as [F _]. unfold fits in F. rewrite E in F. destruct F as (_ & _ & -> & _ & _).
  destruct (_ || _).
  - intros src info. split_and!; [done| |]; cbn.
    + destruct (Endpoints info); [|done]. cbn. by rewrite map_id.
    + rewrite map_map. by apply map_ext.
  - intros src info src' info' Hs Hi. split; [|done]. by rewrite hidden_build, (hidden_build _ _ src'), Hs, Hi.
Qed.
End History.

(** *** Example: an endpoint with a token on all interfaces *)
Definition lookupW (_ : string) : option (list Addr) := None.
Definition listenW (s : string) : option AddrPort := Some (mkAddrPort (if bool_decide (s = "127.0.0.1:9095"%string) then [127; 0; 0; 1] else [0; 0; 0; 0]) [] 9095).
(** The host of an origin without a path: what follows the two slashes. *)
Definition urlW (o : string) : option string := if bool_decide (o = EmptyString) then None else Some (of_bytes (drop 7 (bytes o))).
Definition decodeW (b : list Z) (_ : bool) : option string := Some (of_bytes b).
Definition selectorW : exitselector.world :=
  exitselector.mkWorld (exitselector.mkExitSelector "fra" "auto" 0 false false
    {[ "fra"%string := exitselector.mkExitPeer "aa" ["0.0.0.0/1"%string]; "ams"%string := exitselector.mkExitPeer "bb" ["0.0.0.0/1"%string] ]}
    ["fra"%string; "ams"%string] ∅) ∅.
Definition exitW : exitState := mkExitState (Some selectorW) [].
Definition tokenW : config.Monitor := config.mkMonitor "0.0.0.0:9095" "secret" ["bond.example"%string] false.
Definition localW : config.Monitor := config.mkMonitor "127.0.0.1:9095" "" [] false.
Definition opsW : list op := [Apply listenW localW; Apply listenW tokenW].
Definition requestW (tok : string) : Request :=
  mkRequest "POST" exitPath "bond.example:9095" "http://bond.example:9095" ("bearer " ++ tok) None "" (bytes "ams").

Lemma exit_control_authorized_witness :
  authorized urlW (ep (run lookupW urlW decodeW (start exitW) opsW)) (requestW "secret").
Proof.
  pose proof (exit_control_authorized lookupW urlW decodeW exitW opsW (requestW "secret") 5 (fun _ => true)) as H. cbv zeta in H.
  assert (E : snd (handle urlW decodeW (fun _ => true) 5 (ep (run lookupW urlW decodeW (start exitW) opsW)) (requestW "secret")
    (exit (run lookupW urlW decodeW (start exitW) opsW))) = Some (ExitSwitched "ams" "ams")) by (vm_compute; reflexivity).
  destruct (handle _ _ _ _ _ _ _) as [x' res]. cbn [snd] in E. destruct H as [H _].
  exact (proj1 (H (or_intror (ex_intro _ _ (ex_intro _ _ E))))).
Defined.

Lemma monitor_endpoint_follows_config_witness :
  exists s, monitorSrv (snd (fst (applyMonitorLocked lookupW listenW tokenW (ep (run lookupW urlW decodeW (start exitW) [Apply listenW localW]))))) = Some s /\
    token (auth s) = "secret"%string.
Proof.
  pose proof (monitor_endpoint_follows_config lookupW urlW decodeW exitW [Apply listenW localW] listenW tokenW) as H. cbv zeta in H.
  assert (E : snd (applyMonitorLocked lookupW listenW tokenW (ep (run lookupW urlW decodeW (start exitW) [Apply listenW localW]))) = None)
    by (vm_compute; reflexivity).
  destruct (applyMonitorLocked _ _ _ _) as [[evs e'] err]. cbn [fst snd] in *. subst err.
  destruct H as (_ & _ & _ & H & _). destruct (H ltac:(done)) as (_ & s & Es & Et & _). by exists s.
Defined.

Definition serverW : Server := mkServer (mkAddrPort [0; 0; 0; 0] [] 9095) (mkAuth "secret" (allowedHosts "0.0.0.0:9095" ∪ {[ "bond.example"%string ]})) false true.
Definition infoW (a : string) : Info := mkInfo "edge" "1" "" "" f0 None "" (Some [mkEndpoint "fra" a true]) None None [].
Definition metricsW : Metrics := mkMetrics [] [] [] (session.mkSnapshot false 0) [] [].
Lemma serverW_runs : monitorSrv (ep (run lookupW urlW decodeW (start exitW) opsW)) = Some serverW.
Proof. vm_compute. reflexivity. Qed.
Lemma monitor_hides_addresses_witness :
  BuildSnapshot (fun _ => EmptyString) (fun _ => EmptyString) metricsW (infoW "192.0.2.1:51820") (revealAddressing serverW) (controlAvailable serverW) =
  BuildSnapshot (fun _ => EmptyString) (fun _ => EmptyString) metricsW (infoW "198.51.100.9:51820") (revealAddressing serverW) (controlAvailable serverW).
Proof.
  pose proof (monitor_hides_addresses lookupW urlW decodeW (fun _ => EmptyString) (fun _ => EmptyString) exitW opsW serverW serverW_runs) as H.
  cbv zeta in H. change (verifyLoopbackBind (bound serverW)) with false in H.
  assert (R : monitorReveal (ep (run lookupW urlW decodeW (start exitW) opsW)) = false) by (vm_compute; reflexivity). rewrite R in H. cbn [orb] in H.
  exact (proj1 (H metricsW (infoW "192.0.2.1:51820") metricsW (infoW "198.51.100.9:51820") eq_refl eq_refl)).
Defined.
End monitor_props.
