(* ===== verification/WireAudit.v ===== *)
(** * The wire audit ([internal/wireaudit])

    A packet capture is read into outer frames, and a pool of frames of several
    sessions is judged: no offset may hold one value, no offset and no frame may have
    a low entropy.

    A slice expression out of range is a [Panic].  [Log2] is [math.Log2].  The reports'
    messages are left out. *)

From stdpp Require Import base tactics list numbers gmap sets sorting.
From S2P Require Import Prelude Float64.

Module wireaudit.
Import float64.

(** ** Reading a capture ([pcap.go]) *)
Definition pcapGlobalHeaderLen : nat := 24%nat.
Definition pcapRecordHeaderLen : nat := 16%nat.
Definition pcapInclLenOff : nat := 8%nat.
Definition pcapLinkTypeOff : nat := 20%nat.
Definition linkTypeEthernet : Z := 1.
Definition ethHeaderLen : nat := 14%nat.
Definition ethTypeOff : nat := 12%nat.
Definition ethTypeIPv4 : Z := 2048.
Definition ipMinHeaderLen : nat := 20%nat.
Definition ipTotalLenOff : nat := 2%nat.
Definition ipFlagsFragOff : nat := 6%nat.
Definition ipProtoOff : nat := 9%nat.
Definition ipProtoUDP : Z := 17.
Definition ipFlagMoreFragments : Z := 8192.
Definition ipFragOffsetMask : Z := 8191.
Definition udpHeaderLen : nat := 8%nat.
Definition udpSrcOff : nat := 0%nat.
Definition udpDstOff : nat := 2%nat.
Definition magicMicroBE : Z := 2712847316.
Definition magicNanoBE : Z := 2712812621.
Definition magicMicroLE : Z := 3569595041.
Definition magicNanoLE : Z := 1295823521.

Inductive pcapError := TooShort | NotPcap | LinkType | Truncated.

(** [b[lo:hi]] and [b[i]]. *)
Definition slice {E} (lo hi : nat) (b : list Z) : outcome E (list Z) :=
  if (hi <? lo)%nat || (length b <? hi)%nat then Panic else Ok (take (hi - lo) (drop lo b)).
Definition index {E} (i : nat) (b : list Z) : outcome E Z :=
  match b !! i with Some v => Ok v | None => Panic end.

(** The unsigned number of some bytes, in either order. *)
Definition uint (be : bool) (b : list Z) : Z := if be then be_get b else be_get (rev b).

Definition byteOrder (magic : Z) : option bool :=
  if (magic =? magicMicroBE) || (magic =? magicNanoBE) then Some true
  else if (magic =? magicMicroLE) || (magic =? magicNanoLE) then Some false
  else None.

(** [None] is a packet that is not an unfragmented UDP datagram of the port, whole or
    cut short by the capture. *)
Definition udpPayload {E} (pkt : list Z) (port : Z) : outcome E (option (list Z)) :=
  if (length pkt <? ethHeaderLen)%nat then Ok None
  else
    et ← slice ethTypeOff (ethTypeOff + 2) pkt;
    if negb (be_get et =? ethTypeIPv4) then Ok None
    else
      ip ← slice ethHeaderLen (length pkt) pkt;
      if (length ip <? ipMinHeaderLen)%nat then Ok None
      else
        b0 ← index 0 ip;
        let ihl := (Z.to_nat (Z.land b0 15) * 4)%nat in
        if (ihl <? ipMinHeaderLen)%nat || (length ip <? ihl)%nat then Ok None
        else
          proto ← index ipProtoOff ip;
          if negb (proto =? ipProtoUDP) then Ok None
          else
            fr ← slice ipFlagsFragOff (ipFlagsFragOff + 2) ip;
            let fragField := be_get fr in
            if negb (Z.land fragField ipFragOffsetMask =? 0) || negb (Z.land fragField ipFlagMoreFragments =? 0) then Ok None
            else
              tl ← slice ipTotalLenOff (ipTotalLenOff + 2) ip;
              let totalLen := Z.to_nat (be_get tl) in
              let totalLen := if (length ip <? totalLen)%nat then length ip else totalLen in
              if (totalLen <? ihl + udpHeaderLen)%nat then Ok None
              else
                udp ← slice ihl totalLen ip;
                if (length udp <? udpHeaderLen)%nat then Ok None
                else
                  s ← slice udpSrcOff (udpSrcOff + 2) udp;
                  d ← slice udpDstOff (udpDstOff + 2) udp;
                  if negb (be_get s =? port) && negb (be_get d =? port) then Ok None
                  else
                    payload ← slice udpHeaderLen (length udp) udp;
                    Ok (Some payload).

(** The loop over the records, with what is done for each packet.  A record takes at
    least its header's bytes, so as many rounds as bytes are enough; to run out of
    them would be a [Panic]. *)
Fixpoint records {A} (fuel : nat) (be : bool) (data : list Z) (each : A -> list Z -> outcome pcapError A) (off : nat) (a : A)
    : outcome pcapError A :=
  if (length data <? off + pcapRecordHeaderLen)%nat then Ok a
  else match fuel with
       | O => Panic
       | S fuel =>
         il ← slice (off + pcapInclLenOff) (off + pcapInclLenOff + 4) data;
         let inclLen := uint be il in
         let off := (off + pcapRecordHeaderLen)%nat in
         if (inclLen <? 0) || (Z.of_nat (length data) <? Z.of_nat off + inclLen) then Err Truncated
         else
           let n := Z.to_nat inclLen in
           pkt ← slice off (off + n) data;
           a ← each a pkt;
           records fuel be data each (off + n) a
       end.

Definition ParsePcap (data : list Z) (udpPort : Z) : outcome pcapError (list (list Z)) :=
  if (length data <? pcapGlobalHeaderLen)%nat then Err TooShort
  else
    m ← slice 0 4 data;
    match byteOrder (be_get m) with
    | None => Err NotPcap
    | Some bo =>
      lt ← slice pcapLinkTypeOff (pcapLinkTypeOff + 4) data;
      if negb (uint bo lt =? linkTypeEthernet) then Err LinkType
      else records (length data) bo data (fun frames pkt =>
             p ← udpPayload pkt udpPort;
             Ok (match p with Some payload => frames ++ [payload] | None => frames end)) pcapGlobalHeaderLen []
    end.

Definition CountPcapPackets (data : list Z) : outcome pcapError Z :=
  if (length data <? pcapGlobalHeaderLen)%nat then Err TooShort
  else
    m ← slice 0 4 data;
    match byteOrder (be_get m) with
    | None => Err NotPcap
    | Some bo => records (length data) bo data (fun count _ => Ok (count + 1)) pcapGlobalHeaderLen 0
    end.

(** ** The audit ([audit.go]) *)
Definition Frame : Type := list Z.
Definition MinSessions : nat := 5%nat.
Definition MinSamplesPerOffset : Z := 32.
Definition MinSamplesPerOffsetDist : Z := 512.
Definition MinSessionsPerOffset : nat := 2%nat.
Definition PerOffsetEntropyThreshold : float := fofQ 13 2.
Definition MinEntropyFrameLen : nat := 1024%nat.
Definition MinEntropyFrameSamples : Z := 100.
Definition MeanEntropyThreshold : float := fofQ 15 2.
Definition PerFrameEntropyFloor : float := fofZ 6.
Definition LargeFrameEntropyP5Floor : float := fofZ 7.
Definition p5Percentile : float := fofZ 5.

Record ConstantOffset := mkConstant { cOffset : nat; cValue : Z; cSamples : Z; cSessions : nat }.
Record OffsetEntropy := mkOffsetEntropy { eOffset : nat; eEntropy : float; eDistinct : Z; eSamples : Z; eSessions : nat }.

Record offsetAcc := mkAcc { hist : list Z; samples : Z; sessions : gset nat }.
Definition acc0 : offsetAcc := mkAcc (replicate 256 0) 0 ∅.

(** [highestJudged] is [-1] when no offset is judged. *)
Record offsetAnalysis := mkAnalysis {
  maxLen : nat; constant : list ConstantOffset; lowEntropy : list OffsetEntropy; judged : Z; underSampled : Z; highestJudged : Z
}.
Record frameStats := mkStats { mean : float; min : float; p5 : float; count : Z }.

Record Report := mkReport {
  Sessions : nat; TotalFrames : Z; MaxFrameLen : nat; ConstantOffsets : list ConstantOffset; LowEntropyOffsets : list OffsetEntropy;
  JudgedOffsets : Z; UnderSampledOffsets : Z; HighestJudgedOffset : Z;
  MeanEntropy : float; MinFrameEntropy : float; P5FrameEntropy : float; EntropyFrameCount : Z
}.

(** One byte of session [si] at an offset. *)
Definition bump (si : nat) (b : Z) (a : offsetAcc) : offsetAcc :=
  mkAcc (alter Z.succ (Z.to_nat b) (hist a)) (samples a + 1) (sessions a ∪ {[ si ]}).

(** The bytes of a frame, each into the accumulator of its offset; there are as many
    accumulators as the longest frame has bytes. *)
Fixpoint add_bytes (si : nat) (f : Frame) (accs : list offsetAcc) : list offsetAcc :=
  match f, accs with
  | b :: f, a :: accs => bump si b a :: add_bytes si f accs
  | _, _ => accs
  end.
Fixpoint add_sessions (si : nat) (ss : list (list Frame)) (accs : list offsetAcc) : list offsetAcc :=
  match ss with
  | [] => accs
  | sess :: ss => add_sessions (S si) ss (fold_left (fun accs f => add_bytes si f accs) sess accs)
  end.

Fixpoint distinct_loop (v distinct only : Z) (h : list Z) : Z * Z :=
  match h with
  | [] => (distinct, only)
  | c :: h => if 0 <? c then distinct_loop (v + 1) (distinct + 1) v h else distinct_loop (v + 1) distinct only h
  end.
Definition distinctInfo (h : list Z) : Z * Z := distinct_loop 0 0 0 h.

Section Entropy.
Context (Log2 : float -> float).

Definition histEntropy (h : list Z) (n : Z) : float :=
  if n =? 0 then f0
  else
    let nf := fofZ n in
    fold_left (fun e c => if c =? 0 then e else let p := fdiv (fofZ c) nf in fsub e (fmul p (Log2 p))) h f0.

Definition shannonEntropy (payload : list Z) : float :=
  if (length payload =? 0)%nat then f0
  else histEntropy (fold_left (fun h b => alter Z.succ (Z.to_nat b) h) payload (replicate 256 0)) (Z.of_nat (length payload)).

Definition longest (ss : list (list Frame)) : nat :=
  fold_left (fun m sess => fold_left (fun m f => if (m <? length f)%nat then length f else m) sess m) ss 0%nat.

(** The verdicts on one offset. *)
Definition judge (res : offsetAnalysis) (off : nat) (a : offsetAcc) : offsetAnalysis :=
  let sess := size (sessions a) in
  let '(distinct, only) := distinctInfo (hist a) in
  let constant :=
    if (MinSamplesPerOffset <=? samples a) && (MinSessionsPerOffset <=? sess)%nat && (distinct =? 1)
    then constant res ++ [mkConstant off only (samples a) sess] else constant res in
  if (MinSamplesPerOffsetDist <=? samples a) && (MinSessionsPerOffset <=? sess)%nat then
    let h := histEntropy (hist a) (samples a) in
    mkAnalysis (maxLen res) constant
      (if flt h PerOffsetEntropyThreshold then lowEntropy res ++ [mkOffsetEntropy off h distinct (samples a) sess] else lowEntropy res)
      (judged res + 1) (underSampled res) (if highestJudged res <? Z.of_nat off then Z.of_nat off else highestJudged res)
  else mkAnalysis (maxLen res) constant (lowEntropy res) (judged res) (underSampled res + 1) (highestJudged res).
Fixpoint judge_all (off : nat) (accs : list offsetAcc) (res : offsetAnalysis) : offsetAnalysis :=
  match accs with
  | [] => res
  | a :: accs => judge_all (S off) accs (judge res off a)
  end.

Definition analyzeOffsets (ss : list (list Frame)) : offsetAnalysis :=
  let maxLen := longest ss in
  let res := mkAnalysis maxLen [] [] 0 0 (-1) in
  if (maxLen =? 0)%nat then res
  else judge_all 0 (add_sessions 0 ss (replicate maxLen acc0)) res.

(** [int(math.Ceil(x))] of a finite number in range. *)
Definition ceilZ (x : float) : Z :=
  match x with
  | SpecFloat.S754_finite s m e =>
    let v := if s then Z.neg m else Z.pos m in
    if 0 <=? e then Z.shiftl v e else - (- v / 2 ^ (- e))
  | _ => 0
  end.

Definition percentile (sorted : list float) (p : float) : float :=
  let n := Z.of_nat (length sorted) in
  if n =? 0 then f0
  else
    let rank := ceilZ (fmul (fdiv p (fofZ 100)) (fofZ n)) - 1 in
    let rank := if rank <? 0 then 0 else rank in
    let rank := if n <=? rank then n - 1 else rank in
    default f0 (sorted !! Z.to_nat rank).

(** The order of [sort.Float64s], where there is no NaN. *)
Definition ascends (x y : float) : Prop := flt y x = false.
#[local] Instance ascends_dec x y : Decision (ascends x y).
Proof. unfold ascends. apply _. Defined.

Definition frameEntropyStats (ss : list (list Frame)) : frameStats :=
  let es := map shannonEntropy (List.filter (fun f => (MinEntropyFrameLen <=? length f)%nat) (concat ss)) in
  let sum := fold_left fadd es f0 in
  if (length es =? 0)%nat then mkStats f0 f0 f0 0
  else
    let sorted := merge_sort ascends es in
    mkStats (fdiv sum (fofZ (Z.of_nat (length es)))) (default f0 (sorted !! 0%nat)) (percentile sorted p5Percentile) (Z.of_nat (length es)).

Definition Audit (ss : list (list Frame)) : Report :=
  let oa := analyzeOffsets ss in
  let fs := frameEntropyStats ss in
  mkReport (length ss) (fold_left (fun n sess => n + Z.of_nat (length sess)) ss 0)
    (maxLen oa) (constant oa) (lowEntropy oa) (judged oa) (underSampled oa) (highestJudged oa)
    (mean fs) (min fs) (p5 fs) (count fs).
End Entropy.

Definition SessionsOK (r : Report) : bool := negb (Sessions r <? MinSessions)%nat.
Definition ConstantByteOK (r : Report) : bool := (length (ConstantOffsets r) =? 0)%nat.
Definition OffsetDistributionOK (r : Report) : bool :=
  if JudgedOffsets r =? 0 then false else (length (LowEntropyOffsets r) =? 0)%nat.
Definition EntropyOK (r : Report) : bool :=
  if EntropyFrameCount r <? MinEntropyFrameSamples then false
  else if flt (MinFrameEntropy r) PerFrameEntropyFloor then false
  else if flt (P5FrameEntropy r) LargeFrameEntropyP5Floor then false
  else negb (flt (MeanEntropy r) MeanEntropyThreshold).
Definition CoverageOK (r : Report) (minJudgedOffset : Z) : bool := negb (HighestJudgedOffset r <? minJudgedOffset).
Definition OK (r : Report) : bool := SessionsOK r && ConstantByteOK r && OffsetDistributionOK r && EntropyOK r.
End wireaudit.
