(* ===== verification/WireAuditProps.v ===== *)
(** * What the wire audit guarantees

    A capture is read exactly, and the audit judges every offset by its column. *)

From stdpp Require Import base tactics list numbers gmap sets.
From S2P Require Import Prelude Float64 WireAudit.

Module audit_props.
Import wireaudit.

(** ** The format of a capture *)
Record record := mkRecord { stamp : list Z; orig : list Z; pkt : list Z }.
Definition put32 (be : bool) (v : Z) : list Z := if be then be_put 4 v else rev (be_put 4 v).
Definition record_bytes (be : bool) (r : record) : list Z := stamp r ++ put32 be (Z.of_nat (length (pkt r))) ++ orig r ++ pkt r.
Definition magic (be nano : bool) : Z :=
  if be then if nano then magicNanoBE else magicMicroBE else if nano then magicNanoLE else magicMicroLE.
(** [hdr] are the bytes between the magic number and the link type, [tail] what is left
    after the last record. *)
Definition file (be nano : bool) (hdr : list Z) (rs : list record) (tail : list Z) : list Z :=
  be_put 4 (magic be nano) ++ hdr ++ put32 be 1 ++ concat (map (record_bytes be) rs) ++ tail.

Definition record_ok (r : record) : Prop := length (stamp r) = 8%nat /\ length (orig r) = 4%nat /\ Z.of_nat (length (pkt r)) < 2 ^ 32.

Lemma put32_length be v : length (put32 be v) = 4%nat.
Proof. unfold put32. destruct be; [|rewrite length_rev]; apply length_be_put. Qed.
Lemma uint_put32 be v : 0 <= v < 2 ^ 32 -> uint be (put32 be v) = v.
Proof.
  intros H. unfold uint, put32. assert (E : be_get (be_put 4 v) = v) by (rewrite be_get_put; apply Z.mod_small; exact H).
  destruct be; [done|]. by rewrite rev_involutive.
Qed.
Lemma put32_uint be b : bytes_ok b -> length b = 4%nat -> put32 be (uint be b) = b.
Proof.
  intros Hb Hl. unfold put32, uint. destruct be.
  - rewrite <- Hl at 1. by apply be_put_get.
  - rewrite <- (rev_involutive b) at 2. f_equal. rewrite <- Hl, <- length_rev. apply be_put_get. unfold bytes_ok in *. by apply Forall_rev.
Qed.
Lemma uint_range be b : bytes_ok b -> length b = 4%nat -> 0 <= uint be b < 2 ^ 32.
Proof.
  intros Hb Hl. unfold uint. change (2 ^ 32) with (256 ^ Z.of_nat 4). destruct be.
  - rewrite <- Hl. by apply be_get_range.
  - rewrite <- Hl, <- length_rev. apply be_get_range. unfold bytes_ok in *. by apply Forall_rev.
Qed.

Lemma slice_mid {E} lo hi a b c : length a = lo -> hi = (lo + length b)%nat -> slice (E := E) lo hi (a ++ b ++ c) = Ok b.
Proof.
  intros <- ->. unfold slice. rewrite !length_app.
  rewrite (proj2 (Nat.ltb_ge _ _)) by lia. rewrite (proj2 (Nat.ltb_ge _ _)) by lia. cbn [orb]. f_equal.
  rewrite drop_app_length. replace (length a + length b - length a)%nat with (length b) by lia. by rewrite take_app_length.
Qed.

(** ** The loop *)
Section Loop.
Context {A : Type} (each : A -> list Z -> outcome pcapError A) (g : A -> list Z -> A) (each_ok : forall a p, each a p = Ok (g a p)).

Lemma records_run be rs tail : Forall record_ok rs -> (length tail < 16)%nat -> forall fuel pre a, (length rs <= fuel)%nat ->
  records fuel be (pre ++ concat (map (record_bytes be) rs) ++ tail) each (length pre) a = Ok (fold_left g (map pkt rs) a).
Proof.
  intros F Ht. induction F as [|r rs Hr F IH]; intros fuel pre a Hf.
  - cbn. assert (T : (length (pre ++ tail) <? length pre + pcapRecordHeaderLen)%nat = true).
    { rewrite length_app. unfold pcapRecordHeaderLen. apply Nat.ltb_lt. lia. } destruct fuel; cbn [records]; by rewrite T.
  - destruct Hr as (H1 & H2 & H3). destruct fuel as [|fuel]; [cbn in Hf; lia|]. cbn [map concat fold_left].
    assert (D : pre ++ (record_bytes be r ++ concat (map (record_bytes be) rs)) ++ tail =
      (pre ++ stamp r) ++ put32 be (Z.of_nat (length (pkt r))) ++ orig r ++ pkt r ++ concat (map (record_bytes be) rs) ++ tail)
      by (unfold record_bytes; by rewrite <- !app_assoc).
    cbn [records]. rewrite D at 1. rewrite (proj2 (Nat.ltb_ge _ _)) by (unfold pcapRecordHeaderLen; rewrite !length_app, put32_length; lia).
    rewrite D at 1. rewrite slice_mid by (rewrite ?length_app, ?put32_length; unfold pcapInclLenOff; lia). cbn [mbind outcome_bind].
    rewrite uint_put32 by lia. rewrite (proj2 (Z.ltb_ge _ 0)) by lia.
    rewrite D at 1. rewrite (proj2 (Z.ltb_ge _ _)) by (unfold pcapRecordHeaderLen; rewrite !length_app, put32_length; lia). cbn [orb].
    rewrite Nat2Z.id.
    assert (D2 : pre ++ (record_bytes be r ++ concat (map (record_bytes be) rs)) ++ tail =
      (pre ++ stamp r ++ put32 be (Z.of_nat (length (pkt r))) ++ orig r) ++ pkt r ++ concat (map (record_bytes be) rs) ++ tail)
      by (unfold record_bytes; by rewrite <- !app_assoc).
    rewrite D2 at 1. rewrite slice_mid by (rewrite ?length_app, ?put32_length; unfold pcapRecordHeaderLen; lia). cbn [mbind outcome_bind].
    rewrite each_ok. cbn [mbind outcome_bind].
    assert (D3 : pre ++ (record_bytes be r ++ concat (map (record_bytes be) rs)) ++ tail =
      (pre ++ record_bytes be r) ++ concat (map (record_bytes be) rs) ++ tail) by (by rewrite <- !app_assoc).
    rewrite D3. replace (length pre + pcapRecordHeaderLen + length (pkt r))%nat with (length (pre ++ record_bytes be r))
      by (unfold record_bytes, pcapRecordHeaderLen; rewrite !length_app, put32_length; lia).
    apply IH. cbn in Hf. lia.
Qed.

Lemma slice_ok {E} lo hi b : (lo <= hi)%nat -> (hi <= length b)%nat -> slice (E := E) lo hi b = Ok (take (hi - lo) (drop lo b)).
Proof. intros H1 H2. unfold slice. rewrite (proj2 (Nat.ltb_ge _ _)) by lia. by rewrite (proj2 (Nat.ltb_ge _ _)) by lia. Qed.

Lemma cut4 (b : list Z) n : (16 + n <= length b)%nat ->
  b = take 8 b ++ take 4 (drop 8 b) ++ take 4 (drop 12 b) ++ take n (drop 16 b) ++ drop (16 + n) b.
Proof.
  intros H. rewrite <- (take_drop 8 b) at 1. f_equal. rewrite <- (take_drop 4 (drop 8 b)) at 1. f_equal. rewrite drop_drop. cbn [Nat.add].
  rewrite <- (take_drop 4 (drop 12 b)) at 1. f_equal. rewrite drop_drop. rewrite <- (take_drop n (drop _ b)) at 1. by rewrite drop_drop.
Qed.

(** One round, in range. *)
Lemma records_step be data fuel off a : bytes_ok data -> (off + 16 <= length data)%nat ->
  let b := drop off data in
  let n := Z.to_nat (uint be (take 4 (drop 8 b))) in
  records (S fuel) be data each off a =
    if (length b <? 16 + n)%nat then Err Truncated else records fuel be data each (off + 16 + n) (g a (take n (drop 16 b))).
Proof.
  intros Hb Ho b n. cbn [records]. unfold pcapRecordHeaderLen, pcapInclLenOff. rewrite (proj2 (Nat.ltb_ge _ _)) by lia.
  rewrite slice_ok by lia. cbn [mbind outcome_bind]. replace (off + 8 + 4 - (off + 8))%nat with 4%nat by lia. rewrite <- drop_drop. fold b.
  assert (Lb : length b = (length data - off)%nat) by (unfold b; by rewrite length_drop).
  assert (R : 0 <= uint be (take 4 (drop 8 b)) < 2 ^ 32).
  { apply uint_range; [unfold b, bytes_ok in *; by apply Forall_take, Forall_drop, Forall_drop|]. rewrite length_take, length_drop. lia. }
  rewrite (proj2 (Z.ltb_ge _ 0)) by lia. cbn [orb].
  destruct (Nat.ltb_spec (length b) (16 + n)) as [T|T].
  - by rewrite (proj2 (Z.ltb_lt _ _)) by (unfold n in T; lia).
  - rewrite (proj2 (Z.ltb_ge _ _)) by (unfold n in T; lia). fold n. rewrite slice_ok by lia. cbn [mbind outcome_bind].
    replace (off + 16 + n - (off + 16))%nat with n by lia. rewrite <- drop_drop. fold b. by rewrite each_ok.
Qed.

Lemma records_sound be data fuel off a a' : bytes_ok data -> (off <= length data)%nat -> records fuel be data each off a = Ok a' ->
  exists rs tail, drop off data = concat (map (record_bytes be) rs) ++ tail /\ Forall record_ok rs /\ (length tail < 16)%nat /\
    a' = fold_left g (map pkt rs) a.
Proof.
  intros Hb. revert off a. induction fuel as [|fuel IH]; intros off a Ho H;
    (destruct (Nat.ltb_spec (length data) (off + 16)) as [L|L];
      [exists [], (drop off data); cbn [records] in H; unfold pcapRecordHeaderLen in H; rewrite (proj2 (Nat.ltb_lt _ _)) in H by done;
       injection H as <-; split_and!; [done|constructor|rewrite length_drop; lia|done]|]).
  { cbn [records] in H. unfold pcapRecordHeaderLen in H. by rewrite (proj2 (Nat.ltb_ge _ _)) in H. }
  rewrite records_step in H by done. cbv zeta in H. set (b := drop off data) in *. set (n := Z.to_nat (uint be (take 4 (drop 8 b)))) in *.
  assert (Lb : length b = (length data - off)%nat) by (unfold b; by rewrite length_drop).
  destruct (Nat.ltb_spec (length b) (16 + n)) as [T|T]; [done|]. apply IH in H as (rs & tail & D & F & Lt & ->); [|lia].
  assert (B4 : bytes_ok (take 4 (drop 8 b))) by (unfold b, bytes_ok in *; by apply Forall_take, Forall_drop, Forall_drop).
  assert (L4 : length (take 4 (drop 8 b)) = 4%nat) by (rewrite length_take, length_drop; lia).
  assert (R : 0 <= uint be (take 4 (drop 8 b)) < 2 ^ 32) by by apply uint_range.
  assert (Ln : length (take n (drop 16 b)) = n) by (rewrite length_take, length_drop; lia).
  exists (mkRecord (take 8 b) (take 4 (drop 12 b)) (take n (drop 16 b)) :: rs), tail. split_and!; [|constructor; [|done]|done|done].
  - cbn [map concat]. unfold record_bytes at 1. cbn [stamp orig pkt]. rewrite Ln. unfold n at 1. rewrite Z2Nat.id by lia. rewrite put32_uint by done.
    rewrite (cut4 b n T) at 1. rewrite <- !app_assoc. do 4 f_equal. rewrite <- D. unfold b. rewrite drop_drop. f_equal. lia.
  - split_and!; cbn; [rewrite length_take; lia|rewrite length_take, length_drop; lia|]. rewrite Ln. unfold n. lia.
Qed.

Lemma records_total be data fuel off a : bytes_ok data -> (off <= length data)%nat -> (length data - off <= fuel)%nat -> records fuel be data each off a <> Panic.
Proof.
  intros Hb. revert off a. induction fuel as [|fuel IH]; intros off a Ho Hf.
  - cbn [records]. unfold pcapRecordHeaderLen. by rewrite (proj2 (Nat.ltb_lt _ _)) by lia.
  - destruct (Nat.ltb_spec (length data) (off + 16)) as [L|L].
    + cbn [records]. unfold pcapRecordHeaderLen. by rewrite (proj2 (Nat.ltb_lt _ _)).
    + rewrite records_step by done. cbv zeta. destruct (Nat.ltb_spec (length (drop off data)) (16 + Z.to_nat (uint be (take 4 (drop 8 (drop off data)))))) as [T|T]; [done|].
      rewrite length_drop in T. apply IH; lia.
Qed.
End Loop.

(** ** One packet *)
Lemma slice_length {E} lo hi b r : slice (E := E) lo hi b = Ok r -> length r = (hi - lo)%nat.
Proof.
  unfold slice. destruct (Nat.ltb_spec hi lo), (Nat.ltb_spec (length b) hi); cbn; try done. intros [= <-]. rewrite length_take, length_drop. lia.
Qed.
Lemma slice_in {E} lo hi b : (lo <= hi)%nat -> (hi <= length b)%nat -> exists r, slice (E := E) lo hi b = Ok r /\ length r = (hi - lo)%nat.
Proof. intros H1 H2. eexists. split; [by apply slice_ok|]. rewrite length_take, length_drop. lia. Qed.
Lemma index_in {E} i b : (i < length b)%nat -> exists v, index (E := E) i b = Ok v.
Proof. intros H. unfold index. apply lookup_lt_is_Some in H as [v ->]. by exists v. Qed.

Ltac in_range :=
  unfold ethHeaderLen, ethTypeOff, ipMinHeaderLen, ipTotalLenOff, ipFlagsFragOff, ipProtoOff, udpHeaderLen, udpSrcOff, udpDstOff in *; lia.
Ltac take_slice r Hr :=
  match goal with
  | |- exists o, mbind _ (slice ?lo ?hi ?b) = _ => destruct (slice_in (E := pcapError) lo hi b) as (r & -> & Hr); [in_range|in_range|]
  end; cbn [mbind outcome_bind].
Ltac take_index v :=
  match goal with |- exists o, mbind _ (index ?i ?b) = _ => destruct (index_in (E := pcapError) i b) as (v & ->); [in_range|] end; cbn [mbind outcome_bind].

Lemma udpPayload_ok p port : exists o, udpPayload (E := pcapError) p port = Ok o.
Proof.
  unfold udpPayload. destruct (Nat.ltb_spec (length p) ethHeaderLen) as [L|L]; [by eexists|].
  take_slice et Het. destruct (negb _); [by eexists|].
  take_slice ip Hip. destruct (Nat.ltb_spec (length ip) ipMinHeaderLen) as [L1|L1]; [by eexists|].
  take_index b0. destruct (_ || _) eqn:I; [by eexists|]. apply orb_false_iff in I as [I1 I2]. apply Nat.ltb_ge in I1, I2.
  take_index pr. destruct (negb _); [by eexists|].
  take_slice fr Hfr. destruct (_ || _); [by eexists|].
  take_slice tln Htl. destruct (Nat.ltb_spec (if (length ip <? Z.to_nat (be_get tln))%nat then length ip else Z.to_nat (be_get tln)) (Z.to_nat (Z.land b0 15) * 4 + udpHeaderLen)) as [T|T]; [by eexists|].
  destruct (Nat.ltb_spec (length ip) (Z.to_nat (be_get tln))) as [U|U].
  all: take_slice udp Hudp; destruct (Nat.ltb_spec (length udp) udpHeaderLen) as [V|V]; [by eexists|].
  all: take_slice sp Hsp; take_slice dp Hdp; destruct (_ && _); [by eexists|]; take_slice pl Hpl; by eexists.
Qed.

(** The frame a packet contributes. *)
Definition frame_of (port : Z) (p : list Z) : option (list Z) :=
  match udpPayload (E := pcapError) p port with Ok o => o | _ => None end.

(** A whole IPv4 datagram over Ethernet: the address part of the link header, the
    parts of the IP header, its options, the ports, length and checksum of UDP, the
    payload, and padding of the link. *)
Record datagram := mkDatagram {
  link : list Z; version : Z; tos : Z; ident : list Z; flags : Z; ttl : Z; check : list Z; addrs : list Z; options : list Z;
  sport : Z; dport : Z; ulen : list Z; payload : list Z; padding : list Z
}.
Definition total (d : datagram) : Z := 28 + Z.of_nat (length (options d)) + Z.of_nat (length (payload d)).
Definition packet (d : datagram) : list Z :=
  link d ++ [8; 0] ++ [version d * 16 + 5 + Z.of_nat (length (options d)) / 4; tos d] ++ be_put 2 (total d) ++ ident d ++ be_put 2 (flags d) ++
  [ttl d; 17] ++ check d ++ addrs d ++ options d ++ be_put 2 (sport d) ++ be_put 2 (dport d) ++ ulen d ++ payload d ++ padding d.
(** Not fragmented: only the bits for "do not fragment" and the reserved one are set. *)
Definition datagram_ok (d : datagram) : Prop :=
  length (link d) = 12%nat /\ 0 <= version d < 16 /\ length (ident d) = 2%nat /\ flags d ∈ [0; 16384; 32768; 49152] /\ length (check d) = 2%nat /\
  length (addrs d) = 8%nat /\ (exists k, (k <= 10)%nat /\ length (options d) = (4 * k)%nat) /\
  0 <= sport d < 65536 /\ 0 <= dport d < 65536 /\ length (ulen d) = 4%nat /\ total d < 65536.

Lemma two (l : list Z) : length l = 2%nat -> exists a b, l = [a; b].
Proof. destruct l as [|a [|b [|]]]; try done. by exists a, b. Qed.
Lemma slice_all {E} lo a b : length a = lo -> slice (E := E) lo (length (a ++ b)) (a ++ b) = Ok b.
Proof. intros H. rewrite <- (app_nil_r (a ++ b)) at 2. rewrite <- app_assoc. apply slice_mid; [done|]. rewrite length_app. lia. Qed.

Lemma ihl_of v k : 0 <= v < 16 -> (k <= 10)%nat -> (Z.to_nat (Z.land (v * 16 + 5 + Z.of_nat (4 * k) / 4) 15) * 4 = 20 + 4 * k)%nat.
Proof.
  intros Hv Hk. replace (Z.of_nat (4 * k) / 4) with (Z.of_nat k) by (rewrite Nat2Z.inj_mul; rewrite Z.mul_comm, Z.div_mul; lia).
  change 15 with (Z.ones 4). rewrite Z.land_ones by lia. replace ((v * 16 + 5 + Z.of_nat k) mod 2 ^ 4) with (5 + Z.of_nat k); [lia|].
  symmetry. replace (v * 16 + 5 + Z.of_nat k) with (5 + Z.of_nat k + v * 2 ^ 4) by lia. rewrite Z.mod_add by lia. apply Z.mod_small. lia.
Qed.

Lemma flags_clear f : f ∈ [0; 16384; 32768; 49152] -> Z.land f ipFragOffsetMask = 0 /\ Z.land f ipFlagMoreFragments = 0 /\ 0 <= f < 65536.
Proof. intros H. repeat (apply elem_of_cons in H as [->|H]; [by vm_compute|]). by apply not_elem_of_nil in H. Qed.

(** The UDP header of a datagram, and its IP header. *)
Definition udp_head (d : datagram) : list Z := be_put 2 (sport d) ++ be_put 2 (dport d) ++ ulen d.
Definition ip_head (d : datagram) : list Z :=
  [version d * 16 + 5 + Z.of_nat (length (options d)) / 4; tos d] ++ be_put 2 (total d) ++ ident d ++ be_put 2 (flags d) ++
  [ttl d; 17] ++ check d ++ addrs d ++ options d.
(** The lengths of the three headers together. *)
Definition heads (d : datagram) : nat := (42 + length (options d))%nat.

(** What the reader is to make of a captured packet: it is the beginning of the packet
    of a datagram of the port, with all of its headers, and the payload is as much of
    the datagram's as was captured. *)
Definition captured (port : Z) (p pl : list Z) : Prop :=
  exists d n, datagram_ok d /\ (sport d = port \/ dport d = port) /\ p = take n (packet d) /\ (heads d <= n)%nat /\
    pl = take (n - heads d) (payload d).
(** The payloads of those of the packets that have one, in order. *)
Inductive collected (port : Z) : list (list Z) -> list (list Z) -> Prop :=
  | collected_end : collected port [] []
  | collected_frame p pl ps fs : captured port p pl -> collected port ps fs -> collected port (p :: ps) (pl :: fs)
  | collected_skip p ps fs : (forall pl, ~ captured port p pl) -> collected port ps fs -> collected port (p :: ps) fs.

Lemma packet_ip d : packet d = link d ++ [8; 0] ++ ip_head d ++ udp_head d ++ payload d ++ padding d.
Proof. unfold packet, ip_head, udp_head. by rewrite <- !app_assoc. Qed.

Lemma port_of v : 0 <= v < 65536 -> be_get (be_put 2 v) = v.
Proof. intros H. rewrite be_get_put. by apply Z.mod_small. Qed.

Lemma udp_head_length d : datagram_ok d -> length (udp_head d) = 8%nat.
Proof. intros (_ & _ & _ & _ & _ & _ & _ & _ & _ & Hu & _). unfold udp_head. rewrite !length_app, !length_be_put. lia. Qed.
Lemma ip_head_length d : datagram_ok d -> length (ip_head d) = (20 + length (options d))%nat.
Proof. intros (_ & _ & Hi & _ & Hc & Ha & _). unfold ip_head. rewrite !length_app, !length_be_put. cbn. lia. Qed.

Lemma udp_reads d x : datagram_ok d -> let u := udp_head d ++ x in
  slice (E := pcapError) udpSrcOff (udpSrcOff + 2) u = Ok (be_put 2 (sport d)) /\
  slice (E := pcapError) udpDstOff (udpDstOff + 2) u = Ok (be_put 2 (dport d)) /\
  slice (E := pcapError) udpHeaderLen (length u) u = Ok x.
Proof.
  intros Hd u. unfold u, udpSrcOff, udpDstOff, udpHeaderLen. split_and!.
  - unfold udp_head. rewrite <- !app_assoc. by apply (slice_mid _ _ []).
  - unfold udp_head. rewrite <- !app_assoc. by apply slice_mid.
  - by apply slice_all, udp_head_length.
Qed.

Lemma head_reads d rest : datagram_ok d -> let ip := ip_head d ++ rest in
  index (E := pcapError) 0 ip = Ok (version d * 16 + 5 + Z.of_nat (length (options d)) / 4) /\
  index (E := pcapError) ipProtoOff ip = Ok 17 /\
  slice (E := pcapError) ipFlagsFragOff (ipFlagsFragOff + 2) ip = Ok (be_put 2 (flags d)) /\
  slice (E := pcapError) ipTotalLenOff (ipTotalLenOff + 2) ip = Ok (be_put 2 (total d)).
Proof.
  intros (_ & _ & Hi & _). unfold ip_head, ipProtoOff, ipFlagsFragOff, ipTotalLenOff. destruct (two _ Hi) as (i0 & i1 & ->).
  destruct (two _ (length_be_put 2 (total d))) as (t0 & t1 & ->), (two _ (length_be_put 2 (flags d))) as (f0 & f1 & ->). cbn [app].
  split_and!; [done|done| |]; [apply (slice_mid 6 8 [_; _; _; _; _; _] [f0; f1])|apply (slice_mid 2 4 [_; _] [t0; t1])]; done.
Qed.

(** The headers of a datagram followed by any bytes: of these, as many are taken as the
    datagram's payload has. *)
Lemma headed_frame port d y : datagram_ok d ->
  frame_of port (link d ++ [8; 0] ++ ip_head d ++ udp_head d ++ y) =
  if (sport d =? port) || (dport d =? port) then Some (take (length (payload d)) y) else None.
Proof.
  intros Hd. assert (Hd' := Hd). destruct Hd' as (Hl & Hv & Hi & Hf & Hc & Ha & (k & Hk & Ho) & Hs & Hp & Hu & Ht).
  pose proof (ip_head_length d Hd) as Lh. pose proof (udp_head_length d Hd) as Lu. rewrite Ho in Lh. unfold frame_of, udpPayload.
  rewrite (proj2 (Nat.ltb_ge _ _)) by (rewrite !length_app; unfold ethHeaderLen; cbn; lia).
  rewrite (slice_mid ethTypeOff) by done. cbn [mbind outcome_bind]. change (negb (be_get [8; 0] =? ethTypeIPv4)) with false. cbv iota.
  rewrite (app_assoc (link d)). rewrite (slice_all ethHeaderLen) by (rewrite length_app, Hl; done). cbn [mbind outcome_bind].
  destruct (head_reads d (udp_head d ++ y) Hd) as (R1 & R2 & R3 & R4). set (ip := ip_head d ++ udp_head d ++ y) in *.
  assert (Li : length ip = (28 + 4 * k + length y)%nat) by (unfold ip; rewrite !length_app; lia).
  rewrite (proj2 (Nat.ltb_ge _ _)) by (unfold ipMinHeaderLen; lia).
  rewrite R1. cbn [mbind outcome_bind]. rewrite Ho, ihl_of by done.
  rewrite (proj2 (Nat.ltb_ge (20 + 4 * k) _)) by (unfold ipMinHeaderLen; lia). rewrite (proj2 (Nat.ltb_ge _ (20 + 4 * k))) by lia.
  rewrite R2. cbn [orb mbind outcome_bind]. change (negb (17 =? ipProtoUDP)) with false. cbv iota.
  rewrite R3. cbn [mbind outcome_bind]. destruct (flags_clear _ Hf) as (F1 & F2 & F3). rewrite port_of, F1, F2 by done. cbn [Z.eqb negb orb].
  rewrite R4. cbn [mbind outcome_bind]. unfold total in *. rewrite port_of by lia.
  set (tl := if (length ip <? _)%nat then length ip else _).
  assert (Et : tl = (28 + 4 * k + length (take (length (payload d)) y))%nat).
  { unfold tl. rewrite length_take. match goal with |- context [(?x <? ?y)%nat] => destruct (Nat.ltb_spec x y) end; lia. }
  clearbody tl. subst tl. rewrite (proj2 (Nat.ltb_ge _ (20 + 4 * k + udpHeaderLen))) by (unfold udpHeaderLen; lia).
  assert (Es : slice (E := pcapError) (20 + 4 * k) (28 + 4 * k + length (take (length (payload d)) y)) ip = Ok (udp_head d ++ take (length (payload d)) y)).
  { unfold ip. rewrite <- (take_drop (length (payload d)) y) at 2. rewrite (app_assoc (udp_head d)). apply slice_mid; [done|]. rewrite length_app. lia. }
  rewrite Es. cbn [mbind outcome_bind]. rewrite (proj2 (Nat.ltb_ge _ udpHeaderLen)) by (rewrite length_app; unfold udpHeaderLen; lia).
  destruct (udp_reads d (take (length (payload d)) y) Hd) as (-> & -> & ->). cbn [mbind outcome_bind]. rewrite !port_of by done.
  destruct (sport d =? port), (dport d =? port); done.
Qed.

Lemma captured_frame port p pl : captured port p pl -> frame_of port p = Some pl.
Proof.
  intros (d & n & Hd & Hp & -> & Hn & ->). rewrite packet_ip. pose proof (ip_head_length d Hd) as Lh. pose proof (udp_head_length d Hd) as Lu.
  assert (Hl : length (link d) = 12%nat) by apply Hd. unfold heads in *.
  rewrite !take_app_ge by (cbn [length]; lia). rewrite Hl, Lh, Lu. cbn [length].
  replace (n - 12 - 2 - (20 + length (options d)) - 8)%nat with (n - (42 + length (options d)))%nat by lia.
  rewrite headed_frame by done. rewrite (proj2 (orb_true_iff _ _)) by (by rewrite !Z.eqb_eq). f_equal.
  rewrite take_take, Nat.min_comm, <- take_take, take_app_length. done.
Qed.

(** *** The other direction: a packet that yields a frame has the form above *)
Lemma nibble b : 0 <= b < 256 -> (5 <= Z.to_nat (Z.land b 15))%nat ->
  exists v k, 0 <= v < 16 /\ (k <= 10)%nat /\ b = v * 16 + 5 + Z.of_nat (4 * k) / 4 /\ Z.to_nat (Z.land b 15) = (5 + k)%nat.
Proof.
  intros Hb. change 15 with (Z.ones 4). rewrite Z.land_ones by lia. intros H.
  exists (b / 16), (Z.to_nat (b mod 2 ^ 4) - 5)%nat. rewrite Nat2Z.inj_mul, (Z.mul_comm (Z.of_nat 4)), Z.div_mul by lia.
  change (2 ^ 4) with 16 in *. Z.to_euclidean_division_equations. lia.
Qed.

Lemma flags_only f : 0 <= f < 65536 -> Z.land f ipFragOffsetMask = 0 -> Z.land f ipFlagMoreFragments = 0 -> f ∈ [0; 16384; 32768; 49152].
Proof.
  intros Hf. change ipFragOffsetMask with (Z.ones 13). rewrite Z.land_ones by lia. intros E.
  assert (Q : exists q, f = q * 8192 /\ 0 <= q < 8) by (exists (f / 8192); change (2 ^ 13) with 8192 in E; Z.to_euclidean_division_equations; lia).
  destruct Q as (q & -> & Hq). assert (C : q = 0 \/ q = 1 \/ q = 2 \/ q = 3 \/ q = 4 \/ q = 5 \/ q = 6 \/ q = 7) by lia.
  intros G. repeat (destruct C as [->|C]; [vm_compute in G; try discriminate; set_solver|]). subst q. discriminate.
Qed.

Lemma bytes2 a b : bytes_ok [a; b] -> 0 <= be_get [a; b] < 65536 /\ be_put 2 (be_get [a; b]) = [a; b].
Proof. intros H. split; [exact (be_get_range _ H)|]. exact (be_put_get _ H). Qed.

(** The checks a packet passed. *)
Lemma frame_checks port p pl : bytes_ok p -> frame_of port p = Some pl ->
  exists lk ip b0, p = lk ++ [8; 0] ++ ip /\ length lk = 12%nat /\ (20 <= length ip)%nat /\ ip !! 0%nat = Some b0 /\
    (20 <= Z.to_nat (Z.land b0 15) * 4)%nat /\ ip !! 9%nat = Some 17 /\
    Z.land (be_get (take 2 (drop 6 ip))) ipFragOffsetMask = 0 /\ Z.land (be_get (take 2 (drop 6 ip))) ipFlagMoreFragments = 0 /\
    (Z.to_nat (Z.land b0 15) * 4 + 8 <= length ip)%nat /\ (Z.to_nat (Z.land b0 15) * 4 + 8 <= Z.to_nat (be_get (take 2 (drop 2 ip))))%nat.
Proof.
  intros Hb. unfold frame_of, udpPayload. destruct (Nat.ltb_spec (length p) ethHeaderLen) as [L|L]; [done|]. unfold ethHeaderLen in *.
  rewrite (slice_ok ethTypeOff), (slice_ok 14) by (unfold ethTypeOff; lia). cbn [mbind outcome_bind].
  change (ethTypeOff + 2 - ethTypeOff)%nat with 2%nat. unfold ethTypeOff. rewrite (take_ge (drop 14 p)) by (rewrite length_drop; lia).
  destruct (Z.eqb_spec (be_get (take 2 (drop 12 p))) ethTypeIPv4) as [Et|]; [|done]. cbn [negb].
  set (ip := drop 14 p). destruct (Nat.ltb_spec (length ip) ipMinHeaderLen) as [L1|L1]; [done|]. unfold ipMinHeaderLen in *.
  unfold index. destruct (lookup_lt_is_Some_2 ip 0 ltac:(lia)) as [b0 E0]. rewrite E0. cbn [mbind outcome_bind].
  destruct (_ || _) eqn:I; [done|]. apply orb_false_iff in I as [I1 I2]. apply Nat.ltb_ge in I1, I2.
  unfold ipProtoOff. destruct (lookup_lt_is_Some_2 ip 9 ltac:(lia)) as [pr E9]. rewrite E9. cbn [mbind outcome_bind].
  destruct (Z.eqb_spec pr ipProtoUDP) as [->|]; [|done]. cbn [negb].
  rewrite (slice_ok ipFlagsFragOff) by (unfold ipFlagsFragOff; lia). cbn [mbind outcome_bind]. change (ipFlagsFragOff + 2 - ipFlagsFragOff)%nat with 2%nat.
  destruct (_ || _) eqn:F; [done|]. apply orb_false_iff in F as [F1 F2]. apply negb_false_iff, Z.eqb_eq in F1, F2.
  rewrite (slice_ok ipTotalLenOff) by (unfold ipTotalLenOff; lia). cbn [mbind outcome_bind]. change (ipTotalLenOff + 2 - ipTotalLenOff)%nat with 2%nat.
  unfold ipTotalLenOff, udpHeaderLen in *.
  match goal with |- context [(?x <? ?y)%nat] => match x with if _ then _ else _ => destruct (Nat.ltb_spec x y) as [T|T] end end; [done|]. intros _.
  exists (take 12 p), ip, b0. split_and!; try done; [|rewrite length_take; lia|..].
  - rewrite <- (take_drop 12 p) at 1. f_equal. rewrite <- (take_drop 2 (drop 12 p)) at 1. rewrite drop_drop. f_equal.
    assert (B : bytes_ok (take 2 (drop 12 p))) by (unfold bytes_ok in *; by apply Forall_take, Forall_drop).
    apply be_put_get in B. rewrite Et, length_take, length_drop, Nat.min_l in B by lia. by rewrite <- B.
  - destruct (Nat.ltb_spec (length ip) (Z.to_nat (be_get (take 2 (drop 2 ip))))); lia.
  - destruct (Nat.ltb_spec (length ip) (Z.to_nat (be_get (take 2 (drop 2 ip))))); lia.
Qed.

(** An IP packet by its fields. *)
Lemma ip_fields (ip : list Z) b0 k : (28 + 4 * k <= length ip)%nat -> ip !! 0%nat = Some b0 -> ip !! 9%nat = Some 17 ->
  exists tos tl ident fl ttl ck ad op sp dp ul y,
    ip = ([b0; tos] ++ tl ++ ident ++ fl ++ [ttl; 17] ++ ck ++ ad ++ op) ++ (sp ++ dp ++ ul) ++ y /\
    length tl = 2%nat /\ length ident = 2%nat /\ length fl = 2%nat /\ length ck = 2%nat /\ length ad = 8%nat /\ length op = (4 * k)%nat /\
    length sp = 2%nat /\ length dp = 2%nat /\ length ul = 4%nat /\ take 2 (drop 2 ip) = tl /\ take 2 (drop 6 ip) = fl.
Proof.
  intros L E0 E9. do 20 (destruct ip as [|? ip]; [cbn in L; lia|]). injection E0 as ->. injection E9 as ->. cbn [length] in L.
  rewrite <- (take_drop (4 * k) ip). assert (Lr : (8 <= length (drop (4 * k) ip))%nat) by (rewrite length_drop; lia).
  assert (Lo : length (take (4 * k) ip) = (4 * k)%nat) by (rewrite length_take; lia). revert Lr Lo.
  generalize (take (4 * k) ip) as op, (drop (4 * k) ip) as u. intros op u Lr Lo. do 8 (destruct u as [|? u]; [cbn in Lr; lia|]).
  eexists _, [_; _], [_; _], [_; _], _, [_; _], [_; _; _; _; _; _; _; _], op, [_; _], [_; _], [_; _; _; _], u. cbn [app]. by split_and!.
Qed.

Lemma frame_captured port p pl : bytes_ok p -> frame_of port p = Some pl -> captured port p pl.
Proof.
  intros Hb Hf. destruct (frame_checks port p pl Hb Hf) as (lk & ip & b0 & -> & Hlk & L20 & E0 & I & E9 & F1 & F2 & T1 & T2).
  assert (Bi : bytes_ok ip) by (unfold bytes_ok in *; by apply Forall_app in Hb as [_ [_ ?]%Forall_app]).
  assert (B0 : 0 <= b0 < 256) by exact (proj1 (Forall_lookup _ _) Bi 0%nat b0 E0).
  destruct (nibble b0 B0) as (v & k & Hv & Hk & Eb & En); [lia|]. rewrite En in T1, T2.
  destruct (ip_fields ip b0 k) as (to & tl & idn & fl & tt & ck & ad & op & sp & dp & ul & y & E & Ltl & Lid & Lfl & Lck & Lad & Lop & Lsp & Ldp & Lul & Etl & Efl);
    [lia|done|done|]. rewrite Etl in T2. rewrite Efl in F1, F2.
  assert (B2 : forall x, x ∈ [tl; fl; sp; dp] -> length x = 2%nat /\ bytes_ok x).
  { rewrite E in Bi. unfold bytes_ok in Bi |- *. rewrite !Forall_app in Bi. intros x Hx. repeat (apply elem_of_cons in Hx as [->|Hx]; [split; [done|apply Bi]|]). by apply not_elem_of_nil in Hx. }
  assert (R : forall x, x ∈ [tl; fl; sp; dp] -> 0 <= be_get x < 65536 /\ be_put 2 (be_get x) = x).
  { intros x Hx. destruct (B2 x Hx) as [Lx Bx]. destruct (two x Lx) as (x0 & x1 & ->). by apply bytes2. }
  destruct (R tl) as [Rt Pt]; [set_solver|]. destruct (R fl) as [Rf Pf]; [set_solver|]. destruct (R sp) as [Rs Ps]; [set_solver|]. destruct (R dp) as [Rd Pd]; [set_solver|].
  set (n := (Z.to_nat (be_get tl) - (28 + 4 * k))%nat).
  set (d := mkDatagram lk v to idn (be_get fl) tt ck ad op (be_get sp) (be_get dp) ul (take n y ++ replicate (n - length y) 0) (drop n y)).
  assert (Ln : length (payload d) = n) by (cbn; rewrite length_app, length_take, length_replicate; lia).
  assert (Tt : total d = be_get tl) by (unfold total; rewrite Ln; cbn [options d]; rewrite Lop; lia).
  assert (Hd : datagram_ok d).
  { unfold datagram_ok. rewrite Tt. cbn [link version ident flags check addrs options sport dport ulen d].
    split_and!; try done; try lia; [by apply flags_only|by exists k]. }
  assert (Eh : ip = ip_head d ++ udp_head d ++ y).
  { rewrite E. unfold ip_head, udp_head. rewrite Tt. cbn [link version tos ident flags ttl check addrs options sport dport ulen d]. by rewrite Pt, Pf, Ps, Pd, Lop, <- Eb. }
  rewrite Eh in Hf |- *. change lk with (link d) in Hf |- *. rewrite headed_frame in Hf by done.
  destruct (_ || _) eqn:Po; [|done]. rewrite Ln in Hf. injection Hf as <-. apply orb_true_iff in Po. rewrite !Z.eqb_eq in Po.
  exists d, (heads d + length y)%nat. split_and!; [done|done| |lia|].
  - rewrite packet_ip. pose proof (ip_head_length d Hd) as Lh. pose proof (udp_head_length d Hd) as Lu. unfold heads.
    rewrite !take_app_ge by (cbn [length]; change (length (link d)) with (length lk); lia). change (length (link d)) with (length lk). rewrite Hlk, Lh, Lu. cbn [length].
    replace (42 + length (options d) + length y - 12 - 2 - (20 + length (options d)) - 8)%nat with (length y) by lia.
    do 4 f_equal. cbn [payload padding d].
    destruct (Nat.le_gt_cases n (length y)).
    + replace (n - length y)%nat with 0%nat by lia. cbn [replicate]. rewrite app_nil_r, take_drop. by rewrite take_ge.
    + rewrite (take_ge y n) by lia. by rewrite <- app_assoc, take_app_length.
  - replace (heads d + length y - heads d)%nat with (length y) by lia. cbn [payload d]. destruct (Nat.le_gt_cases n (length y)).
    + replace (n - length y)%nat with 0%nat by lia. cbn [replicate]. rewrite app_nil_r. rewrite (take_ge (take n y)) by (rewrite length_take; lia). done.
    + rewrite (take_ge y n) by lia. by rewrite take_app_length.
Qed.

Lemma frame_spec port p pl : bytes_ok p -> frame_of port p = Some pl <-> captured port p pl.
Proof. intros H. split; [by apply frame_captured|apply captured_frame]. Qed.

(** The packets' frames are what is to be collected. *)
Lemma collected_spec port ps fs : Forall bytes_ok ps -> collected port ps fs <-> fs = omap (frame_of port) ps.
Proof.
  intros F. split.
  - induction 1 as [|p pl ps fs C _ IH|p ps fs C _ IH]; [done| |]; apply Forall_cons in F as [Hp F]; cbn.
    + rewrite (captured_frame _ _ _ C). by rewrite IH.
    + destruct (frame_of port p) as [pl|] eqn:E; [by apply frame_captured, C in E|]. by apply IH.
  - intros ->. induction F as [|p ps Hp F IH]; [constructor|]. cbn. destruct (frame_of port p) as [pl|] eqn:E.
    + constructor; [by apply frame_captured|done].
    + constructor; [|done]. intros pl C. apply captured_frame in C. congruence.
Qed.

(** ** Whole captures *)
Definition add_frame (port : Z) (frames : list (list Z)) (p : list Z) : list (list Z) :=
  match frame_of port p with Some payload => frames ++ [payload] | None => frames end.
Lemma add_frames port ps frames : fold_left (add_frame port) ps frames = frames ++ omap (frame_of port) ps.
Proof.
  revert frames. induction ps as [|p ps IH]; intros frames; [by rewrite app_nil_r|]. cbn. rewrite IH. unfold add_frame.
  destruct (frame_of port p); [by rewrite <- app_assoc|done].
Qed.
Lemma each_frame port frames p :
  (q ← udpPayload p port; Ok (match q with Some payload => frames ++ [payload] | None => frames end)) = Ok (E := pcapError) (add_frame port frames p).
Proof. unfold add_frame, frame_of. destruct (udpPayload_ok p port) as [o ->]. done. Qed.

Lemma byteOrder_spec m be : 0 <= m -> byteOrder m = Some be <-> exists nano, m = magic be nano.
Proof.
  intros Hm. unfold byteOrder, magic. split.
  - destruct (Z.eqb_spec m magicMicroBE) as [->|]; [intros [= <-]; by exists false|]. destruct (Z.eqb_spec m magicNanoBE) as [->|]; [intros [= <-]; by exists true|].
    destruct (Z.eqb_spec m magicMicroLE) as [->|]; [intros [= <-]; by exists false|]. destruct (Z.eqb_spec m magicNanoLE) as [->|]; [intros [= <-]; by exists true|]. done.
  - intros [nano ->]. by destruct be, nano.
Qed.

(** The header of a capture: 24 bytes of a known byte order. *)
Definition head_ok (be nano : bool) (hdr data : list Z) : Prop :=
  length hdr = 16%nat /\ exists rest, data = (be_put 4 (magic be nano) ++ hdr ++ put32 be 1) ++ rest.

Lemma magic_range be nano : 0 <= magic be nano < 256 ^ Z.of_nat 4.
Proof. by destruct be, nano. Qed.

Lemma cut_head (data : list Z) : (24 <= length data)%nat -> data = (take 4 data ++ take 16 (drop 4 data) ++ take 4 (drop 20 data)) ++ drop 24 data.
Proof.
  intros H. rewrite <- (take_drop 4 data) at 1. rewrite <- !app_assoc. f_equal. rewrite <- (take_drop 16 (drop 4 data)) at 1. f_equal.
  rewrite drop_drop. cbn [Nat.add]. rewrite <- (take_drop 4 (drop 20 data)) at 1. by rewrite drop_drop.
Qed.

Lemma open_head be nano hdr rest : length hdr = 16%nat ->
  let data := (be_put 4 (magic be nano) ++ hdr ++ put32 be 1) ++ rest in
  (length data <? pcapGlobalHeaderLen)%nat = false /\ slice (E := pcapError) 0 4 data = Ok (be_put 4 (magic be nano)) /\
  slice (E := pcapError) pcapLinkTypeOff (pcapLinkTypeOff + 4) data = Ok (put32 be 1).
Proof.
  intros H data. unfold data. split_and!.
  - apply Nat.ltb_ge. unfold pcapGlobalHeaderLen. rewrite !length_app, length_be_put, put32_length. lia.
  - rewrite <- app_assoc. apply (slice_mid 0 4 []); [done|]. by rewrite length_be_put.
  - rewrite (app_assoc (be_put 4 (magic be nano))), <- (app_assoc (be_put 4 (magic be nano) ++ hdr)). apply slice_mid; [|by rewrite put32_length].
    rewrite length_app, length_be_put. unfold pcapLinkTypeOff. lia.
Qed.

(** What remains after the header of a capture that opens. *)
Lemma parse_head data port : bytes_ok data -> (24 <= length data)%nat ->
  (exists be nano hdr, head_ok be nano hdr data /\
     ParsePcap data port = records (length data) be data (fun fs p => q ← udpPayload p port; Ok (match q with Some payload => fs ++ [payload] | None => fs end)) 24 [] /\
     CountPcapPackets data = records (length data) be data (fun c _ => Ok (c + 1)) 24 0) \/
  ParsePcap data port = Err NotPcap \/ ParsePcap data port = Err LinkType.
Proof.
  intros Hb Hl. unfold ParsePcap, CountPcapPackets. unfold pcapGlobalHeaderLen. rewrite (proj2 (Nat.ltb_ge _ _)) by done.
  unfold pcapLinkTypeOff. rewrite !slice_ok by lia. cbn [mbind outcome_bind Nat.sub Nat.add]. rewrite drop_0.
  assert (B : forall n m, bytes_ok (take n (drop m data))) by (intros n m; unfold bytes_ok in *; by apply Forall_take, Forall_drop).
  pose proof (B 4%nat 0%nat) as B0. rewrite drop_0 in B0. pose proof (be_get_range _ B0) as R.
  destruct (byteOrder (be_get (take 4 data))) as [be|] eqn:O; [|by right; left].
  apply byteOrder_spec in O as [nano O]; [|lia].
  destruct (Z.eqb_spec (uint be (take 4 (drop 20 data))) linkTypeEthernet) as [T|T]; [left|by right; right]. cbn [negb].
  exists be, nano, (take 16 (drop 4 data)). split; [|done]. split; [rewrite length_take, length_drop; lia|]. exists (drop 24 data).
  rewrite <- O. assert (L4 : length (take 4 data) = 4%nat) by (rewrite length_take; lia). rewrite <- L4 at 1. rewrite be_put_get by done.
  change 1 with linkTypeEthernet. rewrite <- T, put32_uint; [by apply cut_head|by apply B|]. rewrite length_take, length_drop. lia.
Qed.

Lemma records_count be rs : Forall record_ok rs -> (length rs <= length (concat (map (record_bytes be) rs)))%nat.
Proof.
  induction 1 as [|r rs Hr F IH]; cbn; [lia|]. rewrite length_app. unfold record_bytes at 1. rewrite !length_app. destruct Hr as (-> & _). lia.
Qed.
Lemma count_packets (ps : list (list Z)) c : fold_left (fun c _ => c + 1) ps c = c + Z.of_nat (length ps).
Proof. revert c. induction ps as [|p ps IH]; intros c; cbn; [lia|]. rewrite IH. lia. Qed.

Lemma file_reads be nano hdr rs tail port : length hdr = 16%nat -> Forall record_ok rs -> (length tail < 16)%nat ->
  ParsePcap (file be nano hdr rs tail) port = Ok (omap (frame_of port) (map pkt rs)) /\
  CountPcapPackets (file be nano hdr rs tail) = Ok (Z.of_nat (length rs)).
Proof.
  intros Hh F Lt. set (pre := be_put 4 (magic be nano) ++ hdr ++ put32 be 1).
  assert (Ef : file be nano hdr rs tail = pre ++ concat (map (record_bytes be) rs) ++ tail) by (unfold file, pre; by rewrite <- !app_assoc).
  assert (Lp : length pre = 24%nat) by (unfold pre; rewrite !length_app, length_be_put, put32_length; lia).
  destruct (open_head be nano hdr (concat (map (record_bytes be) rs) ++ tail) Hh) as (O1 & O2 & O3). fold pre in O1, O2, O3.
  rewrite Ef. set (data := pre ++ concat (map (record_bytes be) rs) ++ tail) in *.
  assert (Lf : (length rs <= length data)%nat) by (unfold data; rewrite !length_app; pose proof (records_count be rs F); lia).
  assert (Bo : byteOrder (be_get (be_put 4 (magic be nano))) = Some be).
  { rewrite be_get_put, Z.mod_small by apply magic_range. apply byteOrder_spec; [apply magic_range|by exists nano]. }
  unfold ParsePcap, CountPcapPackets. rewrite O1, O2. cbn [mbind outcome_bind]. rewrite Bo, O3. cbn [mbind outcome_bind].
  rewrite uint_put32 by done. cbn [Z.eqb negb linkTypeEthernet]. change (1 =? linkTypeEthernet) with true. cbn [negb].
  unfold pcapGlobalHeaderLen. rewrite <- Lp. unfold data. split.
  - erewrite records_run; [|apply each_frame|done|done|done]. by rewrite add_frames.
  - erewrite (records_run _ (fun c _ => c + 1)); [|done|done|done|done]. by rewrite count_packets, length_map.
Qed.

Lemma file_packets be nano hdr rs tail : bytes_ok (file be nano hdr rs tail) -> Forall bytes_ok (map pkt rs).
Proof.
  unfold file, bytes_ok. rewrite !Forall_app. intros (_ & _ & _ & H & _). apply Forall_fmap. induction rs as [|r rs IH]; [constructor|].
  cbn [map concat] in H. apply Forall_app in H as [H1 H]. constructor; [|by apply IH]. unfold record_bytes in H1. rewrite !Forall_app in H1. apply H1.
Qed.

(** A whole datagram's packet yields exactly its payload, for its ports. *)
Lemma whole_captured port d pl : datagram_ok d -> captured port (packet d) pl <-> (sport d = port \/ dport d = port) /\ pl = payload d.
Proof.
  intros Hd. split.
  - intros H. apply captured_frame in H. rewrite packet_ip, headed_frame, take_app_length in H by done.
    destruct (_ || _) eqn:Po; [|done]. injection H as <-. apply orb_true_iff in Po. rewrite !Z.eqb_eq in Po. done.
  - intros [Hp ->]. exists d, (length (packet d)). pose proof (ip_head_length d Hd) as Lh. pose proof (udp_head_length d Hd) as Lu.
    assert (L : length (packet d) = (heads d + length (payload d) + length (padding d))%nat).
    { rewrite packet_ip, !length_app, Lh, Lu. assert (Hl : length (link d) = 12%nat) by apply Hd. unfold heads. cbn [length]. lia. }
    split_and!; [done|done|by rewrite take_ge|lia|]. by rewrite take_ge by lia.
Qed.

(** C39. A capture is read exactly.  For any bytes the reader ends without panicking,
    and it returns frames exactly when the bytes are an Ethernet capture in one of the
    four classic forms — a header, whole records, at most fifteen bytes more —; the
    frames are then, in order, those of the packets that are the beginning, through the
    UDP header at least, of an unfragmented UDP datagram over IPv4 (options and link
    padding allowed, any version number) with the port as source or destination, each
    frame the captured part of that datagram's payload; the counter gives the number of
    packets.  A whole datagram's frame is its whole payload; of a datagram the capture
    cut short, the code returns the part it has. *)
Theorem pcap_exact data port : bytes_ok data ->
  ParsePcap data port <> Panic /\
  (forall frames, ParsePcap data port = Ok frames <->
     exists be nano hdr rs tail, data = file be nano hdr rs tail /\ length hdr = 16%nat /\ Forall record_ok rs /\ (length tail < 16)%nat /\
       collected port (map pkt rs) frames /\ CountPcapPackets data = Ok (Z.of_nat (length rs))) /\
  (forall d pl, datagram_ok d -> captured port (packet d) pl <-> (sport d = port \/ dport d = port) /\ pl = payload d).
Proof.
  intros Hb. split_and!; [| |intros d pl; apply whole_captured].
  - destruct (Nat.ltb_spec (length data) 24) as [L|L].
    { unfold ParsePcap, pcapGlobalHeaderLen. by rewrite (proj2 (Nat.ltb_lt _ _)). }
    destruct (parse_head data port Hb L) as [(be & nano & hdr & _ & -> & _)|[->| ->]]; [|done|done].
    eapply records_total; [apply each_frame|done|done|lia].
  - intros frames. split.
    + intros H. destruct (Nat.ltb_spec (length data) 24) as [L|L].
      { unfold ParsePcap, pcapGlobalHeaderLen in H. by rewrite (proj2 (Nat.ltb_lt _ _)) in H. }
      destruct (parse_head data port Hb L) as [(be & nano & hdr & (Hh & rest & Ed) & P & C)|[P|P]]; rewrite P in H; try done.
      eapply records_sound in H as (rs & tail & D & F & Lt & ->); [|apply each_frame|done|done]. exists be, nano, hdr, rs, tail.
      assert (Lp : length (be_put 4 (magic be nano) ++ hdr ++ put32 be 1) = 24%nat) by (rewrite !length_app, length_be_put, put32_length; lia).
      assert (Er : rest = concat (map (record_bytes be) rs) ++ tail) by (rewrite <- D, Ed; rewrite <- Lp; by rewrite drop_app_length).
      assert (E : data = file be nano hdr rs tail) by (rewrite Ed, Er; unfold file; by rewrite <- !app_assoc).
      split_and!; try done; [|rewrite E; by apply file_reads]. rewrite add_frames. rewrite E in Hb. by apply collected_spec; [eapply file_packets|].
    + intros (be & nano & hdr & rs & tail & -> & Hh & F & Lt & Co & _). apply collected_spec in Co as ->; [|by eapply file_packets]. by apply file_reads.
Qed.

(** ** Columns

    All bytes at an offset, with the session each is of. *)
Fixpoint frames_from (si : nat) (ss : list (list Frame)) : list (nat * Frame) :=
  match ss with [] => [] | sess :: ss => map (pair si) sess ++ frames_from (S si) ss end.
Definition column (ss : list (list Frame)) (off : nat) : list (nat * Z) :=
  omap (fun x => pair (fst x) <$> snd x !! off) (frames_from 0 ss).
Definition in_sessions (col : list (nat * Z)) : nat := size (list_to_set col.*1 : gset nat).

Definition acc_of (col : list (nat * Z)) (a : offsetAcc) : offsetAcc := fold_left (fun a x => bump (fst x) (snd x) a) col a.

Lemma add_bytes_lookup si f accs off :
  add_bytes si f accs !! off = (fun a => match f !! off with Some b => bump si b a | None => a end) <$> accs !! off.
Proof.
  revert accs off. induction f as [|b f IH]; intros [|a accs] [|off]; cbn; try done. by destruct (accs !! off).
Qed.
Lemma add_pairs_lookup ps accs off :
  fold_left (fun accs x => add_bytes (fst x) (snd x) accs) ps accs !! off =
  acc_of (omap (fun x => pair (fst x) <$> snd x !! off) ps) <$> accs !! off.
Proof.
  revert accs. induction ps as [|[si f] ps IH]; intros accs; cbn [fold_left omap list_omap fst snd].
  - by destruct (accs !! off).
  - rewrite IH, add_bytes_lookup. destruct (accs !! off); [|done]. cbn. by destruct (f !! off).
Qed.
Lemma add_sessions_pairs si ss accs :
  add_sessions si ss accs = fold_left (fun accs x => add_bytes (fst x) (snd x) accs) (frames_from si ss) accs.
Proof.
  revert si accs. induction ss as [|sess ss IH]; intros si accs; [done|]. cbn. rewrite IH, fold_left_app. f_equal. clear IH.
  revert accs. induction sess as [|f sess IH]; intros accs; [done|]. apply IH.
Qed.
Lemma add_sessions_columns ss n : add_sessions 0 ss (replicate n acc0) = map (fun off => acc_of (column ss off) acc0) (seq 0 n).
Proof.
  rewrite add_sessions_pairs. apply list_eq. intros off. rewrite add_pairs_lookup. change (map ?f ?l) with (f <$> l). rewrite list_lookup_fmap.
  destruct (decide (off < n)%nat) as [L|L].
  - rewrite lookup_replicate_2 by done. by rewrite lookup_seq_lt.
  - rewrite lookup_ge_None_2 by (rewrite length_replicate; lia). by rewrite lookup_ge_None_2 by (rewrite length_seq; lia).
Qed.

Lemma acc_samples col a : samples (acc_of col a) = samples a + Z.of_nat (length col).
Proof. unfold acc_of. revert a. induction col as [|x col IH]; intros a; cbn; [lia|]. rewrite IH. cbn. lia. Qed.
Lemma acc_sessions col a : sessions (acc_of col a) = sessions a ∪ list_to_set col.*1.
Proof. unfold acc_of. revert a. induction col as [|x col IH]; intros a; cbn; [set_solver|]. rewrite IH. cbn. set_solver. Qed.
Lemma acc_hist col a v : Forall (fun x => 0 <= snd x) col ->
  hist (acc_of col a) !! v = (fun c => c + Z.of_nat (length (filter (fun x => snd x = Z.of_nat v) col))) <$> hist a !! v.
Proof.
  intros F. unfold acc_of. revert a. induction F as [|x col Hx F IH]; intros a; cbn [fold_left].
  - cbn. destruct (hist a !! v); [|done]. cbn. f_equal. lia.
  - rewrite IH. cbn [hist bump]. destruct (decide (Z.to_nat (snd x) = v)) as [<-|N].
    + rewrite list_lookup_alter_eq. rewrite filter_cons_True by lia. destruct (hist a !! Z.to_nat (snd x)); [|done]. cbn. f_equal. lia.
    + rewrite list_lookup_alter_ne by done. rewrite filter_cons_False by lia. done.
Qed.

(** The values a histogram has. *)
Fixpoint positives (v : Z) (h : list Z) : list Z :=
  match h with [] => [] | c :: h => if 0 <? c then v :: positives (v + 1) h else positives (v + 1) h end.
Lemma distinct_positives v d o h : distinct_loop v d o h = (d + Z.of_nat (length (positives v h)), default o (last (positives v h))).
Proof.
  revert v d o. induction h as [|c h IH]; intros v d o; cbn; [f_equal; lia|]. destruct (0 <? c); [|apply IH]. rewrite IH, last_cons. cbn [length].
  f_equal; [lia|]. by destruct (last (positives (v + 1) h)).
Qed.
Lemma positives_spec v h x : x ∈ positives v h <-> exists i c, h !! i = Some c /\ 0 < c /\ x = v + Z.of_nat i.
Proof.
  revert v. induction h as [|c h IH]; intros v; cbn.
  - split; [intros H; by apply not_elem_of_nil in H|intros (i & c & H & _); done].
  - assert (G : x ∈ positives (v + 1) h <-> exists i c', (c :: h) !! S i = Some c' /\ 0 < c' /\ x = v + Z.of_nat (S i)).
    { rewrite IH. cbn [lookup list_lookup]. split; intros (i & c' & H1 & H2 & H3); exists i, c'; split_and!; try done; lia. }
    destruct (Z.ltb_spec 0 c) as [P|P]; rewrite ?elem_of_cons, G; split.
    + intros [->|(i & c' & H)]; [exists 0%nat, c; split_and!; [done|done|lia]|by exists (S i), c'].
    + intros ([|i] & c' & H1 & H2 & H3); [left; lia|right; by exists i, c'].
    + intros (i & c' & H). by exists (S i), c'.
    + intros ([|i] & c' & H1 & H2 & H3); [cbn in H1; injection H1 as ->; lia|by exists i, c'].
Qed.
Lemma positives_ge v h x : x ∈ positives v h -> v <= x.
Proof. intros (i & c & _ & _ & ->)%positives_spec. lia. Qed.
Lemma positives_NoDup v h : NoDup (positives v h).
Proof.
  revert v. induction h as [|c h IH]; intros v; cbn; [constructor|]. destruct (0 <? c); [|apply IH]. constructor; [|apply IH].
  intros H%positives_ge. lia.
Qed.

Definition bytes_in (col : list (nat * Z)) : Prop := Forall (fun x => 0 <= snd x < 256) col.

Lemma column_values col : bytes_in col -> forall x, x ∈ positives 0 (hist (acc_of col acc0)) <-> x ∈ col.*2.
Proof.
  intros F x. assert (F0 : Forall (fun x => 0 <= snd x) col) by (eapply Forall_impl; [exact F|cbn; lia]).
  rewrite positives_spec, list_elem_of_fmap. setoid_rewrite acc_hist; [|done]. split.
  - intros (i & c & H & P & ->). cbn [hist acc0] in H. apply fmap_Some in H as (z & Hz & ->). apply lookup_replicate in Hz as [-> _].
    destruct (filter (fun x => snd x = Z.of_nat i) col) as [|y l] eqn:E; [cbn in P; lia|].
    assert (Hy : y ∈ y :: l) by left. rewrite <- E in Hy. apply list_elem_of_filter in Hy as [Hy1 Hy2]. exists y. split; [lia|done].
  - intros (y & -> & Hy). assert (B := proj1 (Forall_forall _ _) F y Hy). cbn in B.
    exists (Z.to_nat (snd y)). eexists. cbn [hist acc0]. rewrite lookup_replicate_2 by lia. cbn. split_and!; [done| |lia].
    assert (Hf : y ∈ filter (fun x => snd x = Z.of_nat (Z.to_nat (snd y))) col) by (apply list_elem_of_filter; split; [lia|done]).
    destruct (filter _ col); [by apply not_elem_of_nil in Hf|]. cbn. lia.
Qed.

(** A histogram has one value exactly when all bytes of the column are it. *)
Lemma column_constant col si v rest : col = (si, v) :: rest -> bytes_in col ->
  let '(distinct, only) := distinctInfo (hist (acc_of col acc0)) in
  (distinct =? 1) = forallb (fun x => snd x =? v) col /\ (distinct = 1 -> only = v).
Proof.
  intros E F. unfold distinctInfo. rewrite distinct_positives. pose proof (column_values col F) as C. pose proof (positives_NoDup 0 (hist (acc_of col acc0))) as N.
  set (ps := positives 0 (hist (acc_of col acc0))) in *. assert (Hv : v ∈ ps) by (apply C; rewrite E; left).
  assert (K : Z.of_nat (length ps) = 1 <-> ps = [v]).
  { split; [|by intros ->]. intros L. destruct ps as [|x [|y l]]; [done| |cbn in L; lia]. apply list_elem_of_singleton in Hv as ->. done. }
  assert (M : ps = [v] <-> forallb (fun x => snd x =? v) col = true).
  { rewrite forallb_forall. split.
    - intros Ep x Hx. apply Z.eqb_eq. apply list_elem_of_In, (list_elem_of_fmap_2 snd), C in Hx. rewrite Ep in Hx. by apply list_elem_of_singleton in Hx.
    - intros A. assert (U : forall x, x ∈ ps -> x = v).
      { intros x Hx. apply C, list_elem_of_fmap in Hx as (y & -> & Hy). apply Z.eqb_eq, A. by apply list_elem_of_In. }
      destruct ps as [|x [|y l]]; [by apply not_elem_of_nil in Hv|f_equal; apply U; left|].
      exfalso. rewrite (U x), (U y) in N by set_solver. apply NoDup_cons in N as [N _]. apply N. left. }
  split.
  - apply eq_bool_prop_intro. rewrite !Is_true_true, Z.eqb_eq, Z.add_0_l, K. done.
  - intros L. rewrite Z.add_0_l in L. by rewrite (proj1 K L).
Qed.

(** ** The reference *)
Definition counts (col : list (nat * Z)) : list Z := map (fun v => Z.of_nat (length (filter (fun x => snd x = Z.of_nat v) col))) (seq 0 256).
Definition values (col : list (nat * Z)) : Z := Z.of_nat (size (list_to_set col.*2 : gset Z)).
Definition sampled (col : list (nat * Z)) : bool := (512 <=? Z.of_nat (length col)) && (2 <=? in_sessions col)%nat.
Definition is_constant (col : list (nat * Z)) : option Z :=
  match col with
  | [] => None
  | (_, v) :: _ =>
    if (32 <=? Z.of_nat (length col)) && (2 <=? in_sessions col)%nat && forallb (fun x => snd x =? v) col then Some v else None
  end.

Lemma hist_counts col : bytes_in col -> hist (acc_of col acc0) = counts col.
Proof.
  intros F. apply list_eq. intros v. rewrite acc_hist by (eapply Forall_impl; [exact F|cbn; lia]). unfold counts.
  change (map ?f ?l) with (f <$> l). rewrite list_lookup_fmap. cbn [hist acc0]. destruct (decide (v < 256)%nat) as [L|L].
  - rewrite lookup_replicate_2, lookup_seq_lt by done. done.
  - rewrite lookup_ge_None_2 by (rewrite length_replicate; lia). by rewrite (lookup_ge_None_2 (seq 0 256)) by (rewrite length_seq; lia).
Qed.
Lemma distinct_values col : bytes_in col -> fst (distinctInfo (counts col)) = values col.
Proof.
  intros F. rewrite <- hist_counts by done. unfold distinctInfo, values. rewrite distinct_positives. cbn [fst]. rewrite Z.add_0_l. f_equal.
  assert (E : (list_to_set col.*2 : gset Z) = list_to_set (positives 0 (hist (acc_of col acc0)))).
  { apply set_eq. intros x. rewrite !elem_of_list_to_set. symmetry. by apply column_values. }
  rewrite E, size_list_to_set by apply positives_NoDup. done.
Qed.

Section Exact.
Context (Log2 : float64.float -> float64.float) (ss : list (list Frame)).

Definition constant_at (off : nat) : option ConstantOffset :=
  (fun v => mkConstant off v (Z.of_nat (length (column ss off))) (in_sessions (column ss off))) <$> is_constant (column ss off).
Definition low_at (off : nat) : option OffsetEntropy :=
  let col := column ss off in
  let h := histEntropy Log2 (counts col) (Z.of_nat (length col)) in
  if sampled col && float64.flt h PerOffsetEntropyThreshold
  then Some (mkOffsetEntropy off h (values col) (Z.of_nat (length col)) (in_sessions col)) else None.

Lemma judge_step res off : bytes_in (column ss off) ->
  judge Log2 res off (acc_of (column ss off) acc0) =
  mkAnalysis (maxLen res) (constant res ++ option_list (constant_at off)) (lowEntropy res ++ option_list (low_at off))
    (judged res + if sampled (column ss off) then 1 else 0) (underSampled res + if sampled (column ss off) then 0 else 1)
    (if sampled (column ss off) && (highestJudged res <? Z.of_nat off) then Z.of_nat off else highestJudged res).
Proof.
  intros F. unfold judge. rewrite acc_samples, acc_sessions, hist_counts by done. cbn [samples sessions acc0]. rewrite Z.add_0_l, union_empty_l_L.
  fold (in_sessions (column ss off)). unfold low_at, constant_at. fold (sampled (column ss off)).
  pose proof (distinct_values _ F) as D. 
  assert (C : (if (MinSamplesPerOffset <=? Z.of_nat (length (column ss off))) && (MinSessionsPerOffset <=? in_sessions (column ss off))%nat &&
      (fst (distinctInfo (counts (column ss off))) =? 1)
    then Some (snd (distinctInfo (counts (column ss off)))) else None) = is_constant (column ss off)).
  { destruct (column ss off) as [|[si v] rest] eqn:E; [done|]. pose proof (column_constant _ si v rest eq_refl F) as K.
    rewrite hist_counts in K by done. destruct (distinctInfo _) as [di on]. destruct K as [K1 K2]. cbn [fst snd is_constant].
    rewrite K1. unfold MinSamplesPerOffset, MinSessionsPerOffset. destruct (_ && _ && forallb _ _) eqn:A; [|done].
    apply andb_true_iff in A as [_ A]. rewrite <- K1 in A. f_equal. apply K2. by apply Z.eqb_eq. }
  rewrite <- C. destruct (distinctInfo (counts (column ss off))) as [di on]. cbn [fst snd] in *. subst di.
  destruct (_ && _ && _); cbn [option_list fmap option_fmap option_map]; rewrite ?app_nil_r; change (MinSamplesPerOffsetDist <=? ?x) with (512 <=? x);
    change ((MinSessionsPerOffset <=? ?x)%nat) with ((2 <=? x)%nat); fold (sampled (column ss off)); destruct (sampled (column ss off)); cbn [andb option_list];
    rewrite ?app_nil_r, ?Z.add_0_r; try done; by destruct (float64.flt _ _); cbn [option_list]; rewrite ?app_nil_r.
Qed.

(** The offsets judged by their distribution. *)
Definition judged_offsets (off n : nat) : list nat := List.filter (fun o => sampled (column ss o)) (seq off n).

Lemma omap_head {A B} (f : A -> option B) x l : omap f (x :: l) = option_list (f x) ++ omap f l.
Proof. cbn. by destruct (f x). Qed.

Lemma judge_all_spec n off res : (forall o, bytes_in (column ss o)) -> highestJudged res < Z.of_nat off ->
  judge_all Log2 off (map (fun o => acc_of (column ss o) acc0) (seq off n)) res =
  mkAnalysis (maxLen res) (constant res ++ omap constant_at (seq off n)) (lowEntropy res ++ omap low_at (seq off n))
    (judged res + Z.of_nat (length (judged_offsets off n))) (underSampled res + (Z.of_nat n - Z.of_nat (length (judged_offsets off n))))
    (default (highestJudged res) (Z.of_nat <$> last (judged_offsets off n))).
Proof.
  intros F. revert off res. induction n as [|n IH]; intros off res Hh.
  - destruct res. cbn. f_equal; [by rewrite app_nil_r|by rewrite app_nil_r|lia|lia].
  - cbn [seq map judge_all]. rewrite judge_step by apply F. rewrite IH.
    2: { cbn [highestJudged]. destruct (_ && _); lia. }
    cbn [maxLen constant lowEntropy judged underSampled highestJudged]. rewrite !omap_head, <- !app_assoc.
    unfold judged_offsets. cbn [seq List.filter]. fold (judged_offsets (S off) n). destruct (sampled (column ss off)); cbn [length andb]; f_equal; try lia.
    rewrite last_cons, (proj2 (Z.ltb_lt _ _)) by done. by destruct (last (judged_offsets (S off) n)).
Qed.

Lemma analyze_spec : (forall o, bytes_in (column ss o)) ->
  analyzeOffsets Log2 ss =
  let n := longest ss in
  mkAnalysis n (omap constant_at (seq 0 n)) (omap low_at (seq 0 n)) (Z.of_nat (length (judged_offsets 0 n)))
    (Z.of_nat n - Z.of_nat (length (judged_offsets 0 n))) (default (-1) (Z.of_nat <$> last (judged_offsets 0 n))).
Proof.
  intros F. unfold analyzeOffsets. cbv zeta. destruct (Nat.eqb_spec (longest ss) 0) as [->|N]; [done|].
  rewrite add_sessions_columns, judge_all_spec by done. cbn [maxLen constant lowEntropy judged underSampled highestJudged app]. done.
Qed.

Lemma max_cons (x : Frame) l : list_max (map length (x :: l)) = Nat.max (length x) (list_max (map length l)).
Proof. done. Qed.
Lemma longest_ge m l f : fold_left (fun m f => if (m <? length f)%nat then length f else m) l m = Nat.max m (list_max (map length l)) /\
  (f ∈ (l : list Frame) -> (length f <= list_max (map length l))%nat).
Proof.
  split.
  - revert m. induction l as [|x l IH]; intros m; [cbn; lia|]. rewrite max_cons. cbn [fold_left]. rewrite IH.
    destruct (Nat.ltb_spec m (length x)); lia.
  - intros H. induction l as [|x l IH]; [by apply not_elem_of_nil in H|]. rewrite max_cons.
    apply elem_of_cons in H as [->|H]; [lia|]. specialize (IH H). lia.
Qed.
Lemma longest_spec m : fold_left (fun m sess => fold_left (fun m f => if (m <? length f)%nat then length f else m) sess m) ss m =
  Nat.max m (list_max (map length (concat ss))).
Proof.
  revert m. induction ss as [|sess l IH]; intros m; [cbn; lia|]. cbn [fold_left concat]. rewrite IH, (proj1 (longest_ge m sess [])), map_app, list_max_app. symmetry. apply Nat.max_assoc.
Qed.
End Exact.

Lemma frames_from_in si ss x : x ∈ frames_from si ss -> snd x ∈ concat ss.
Proof.
  revert si. induction ss as [|sess ss IH]; intros si H; [by apply not_elem_of_nil in H|]. cbn [frames_from] in H. cbn [concat]. apply elem_of_app in H. apply elem_of_app.
  destruct H as [H|H]; [left|right; by eapply IH]. apply list_elem_of_fmap in H as (f & -> & Hf). done.
Qed.
Lemma column_in ss off x : x ∈ column ss off -> exists f, f ∈ concat ss /\ f !! off = Some (snd x).
Proof.
  unfold column. rewrite list_elem_of_omap. intros (y & Hy & E). apply fmap_Some in E as (b & Hb & ->). exists (snd y).
  split; [by eapply frames_from_in|done].
Qed.
Lemma columns_bytes ss : Forall (Forall bytes_ok) ss -> forall o, bytes_in (column ss o).
Proof.
  intros F o. apply Forall_forall. intros x Hx. apply column_in in Hx as (f & Hf & Hb).
  assert (B : bytes_ok f). { apply list_elem_of_In, in_concat in Hf as (sess & Hs & Hf). apply list_elem_of_In in Hs, Hf.
    apply (proj1 (Forall_forall _ _) F) in Hs. by apply (proj1 (Forall_forall _ _) Hs) in Hf. }
  unfold bytes_ok in B. apply (proj1 (Forall_forall _ _) B). by eapply list_elem_of_lookup_2.
Qed.

Lemma constant_caught ss off : is_Some (is_constant (column ss off)) ->
  omap (constant_at ss) (seq 0 (list_max (map length (concat ss)))) <> [].
Proof.
  intros [v Hv] E. assert (Hc : constant_at ss off = Some (mkConstant off v (Z.of_nat (length (column ss off))) (in_sessions (column ss off))))
    by (unfold constant_at; by rewrite Hv).
  destruct (column ss off) as [|x rest] eqn:C; [done|]. destruct (column_in ss off x) as (f & Hf & Hb); [rewrite C; left|].
  assert (L : (off < list_max (map length (concat ss)))%nat).
  { apply lookup_lt_Some in Hb. pose proof (proj2 (longest_ge 0 (concat ss) f) Hf). lia. }
  assert (M : mkConstant off v (Z.of_nat (length (x :: rest))) (in_sessions (x :: rest)) ∈ omap (constant_at ss) (seq 0 (list_max (map length (concat ss))))).
  { apply list_elem_of_omap. exists off. split; [by apply elem_of_seq; lia|done]. }
  rewrite E in M. by apply not_elem_of_nil in M.
Qed.

(** The audit judges every offset by its column.  For any frames of any sessions
    the offsets reported as constant are exactly those reached by at least 32 frames of
    at least two sessions that all have the same byte there, with that byte and these
    numbers; those reported for their entropy are exactly the offsets with 512 frames
    of two sessions whose histogram is below the threshold; every other offset is
    counted as judged or as under-sampled.  So a pool that passes has two different
    bytes at every offset that is sampled enough. *)
Theorem audit_offsets_exact Log2 ss : Forall (Forall bytes_ok) ss ->
  let r := Audit Log2 ss in
  let n := list_max (map length (concat ss)) in
  MaxFrameLen r = n /\
  ConstantOffsets r = omap (constant_at ss) (seq 0 n) /\
  LowEntropyOffsets r = omap (low_at Log2 ss) (seq 0 n) /\
  JudgedOffsets r = Z.of_nat (length (judged_offsets ss 0 n)) /\ UnderSampledOffsets r = Z.of_nat n - JudgedOffsets r /\
  HighestJudgedOffset r = default (-1) (Z.of_nat <$> last (judged_offsets ss 0 n)) /\
  (OK r = true -> forall off, (32 <= length (column ss off))%nat -> (2 <= in_sessions (column ss off))%nat ->
     exists x y, x ∈ column ss off /\ y ∈ column ss off /\ snd x <> snd y).
Proof.
  intros F. cbv zeta. pose proof (columns_bytes ss F) as B. unfold Audit. rewrite analyze_spec by done. cbv zeta.
  cbn [maxLen constant lowEntropy judged underSampled highestJudged]. assert (L : longest ss = list_max (map length (concat ss))) by apply (longest_spec ss 0).
  rewrite L. cbn [MaxFrameLen ConstantOffsets LowEntropyOffsets JudgedOffsets UnderSampledOffsets HighestJudgedOffset]. split_and!; try done.
  unfold OK, ConstantByteOK. cbn [ConstantOffsets]. rewrite !andb_true_iff. intros [[[_ C] _] _] off H1 H2.
  apply Nat.eqb_eq, nil_length_inv in C. destruct (column ss off) as [|[si v] rest] eqn:E; [cbn in H1; lia|].
  destruct (forallb (fun x => snd x =? v) ((si, v) :: rest)) eqn:A.
  - exfalso. apply (constant_caught ss off); [|done]. rewrite E. unfold is_constant. rewrite A.
    rewrite (proj2 (Z.leb_le _ _)) by lia. rewrite (proj2 (Nat.leb_le _ _)) by done. by eexists.
  - apply not_true_iff_false in A. rewrite forallb_forall in A.
    destruct (decide (Exists (fun x => snd x <> v) ((si, v) :: rest))) as [X|X].
    + apply Exists_exists in X as (y & Hy & Ny). exists (si, v), y. split_and!; [left|done|cbn; congruence].
    + exfalso. apply A. intros x Hx. apply Z.eqb_eq. destruct (decide (snd x = v)) as [|N]; [done|]. exfalso. apply X, Exists_exists. exists x.
      split; [by apply list_elem_of_In|done].
Qed.

(** *** Example: a small capture of two sessions *)
Definition datagramW : datagram :=
  mkDatagram (replicate 12 2) 4 0 [0; 1] 16384 64 [0; 0] [10; 0; 0; 1; 10; 0; 0; 2] [] 51820 4000 [0; 11; 0; 0] [7; 8; 9] [0; 0].
Lemma datagramW_ok : datagram_ok datagramW.
Proof. unfold datagram_ok, total. cbn. split_and!; try lia; [set_solver|by exists 0%nat; split; [lia|]]. Qed.
(** A whole packet, the same packet cut in its payload, and a fragment. *)
Definition fragmentW : list Z := <[20%nat := 32]> (packet datagramW).
Definition capturesW : list record := map (mkRecord (replicate 8 0) (replicate 4 0)) [packet datagramW; take 44 (packet datagramW); fragmentW].
Definition file3W : list Z := file false false (replicate 16 0) capturesW [1; 2; 3].
Lemma file3W_bytes : bytes_ok file3W.
Proof. apply bytes_check. vm_compute. reflexivity. Qed.
Lemma fragmentW_none pl : ~ captured 51820 fragmentW pl.
Proof. intros H. apply captured_frame in H. vm_compute in H. discriminate. Qed.
Lemma pcap_exact_witness : ParsePcap file3W 51820 = Ok [[7; 8; 9]; [7; 8]] /\ ParsePcap file3W 1 <> Panic.
Proof.
  split; [|exact (proj1 (pcap_exact file3W 1 file3W_bytes))]. apply (proj1 (proj2 (pcap_exact file3W 51820 file3W_bytes)) [[7; 8; 9]; [7; 8]]).
  exists false, false, (replicate 16 0), capturesW, [1; 2; 3].
  split_and!; [done|done| |cbn; lia| |vm_compute; reflexivity]; [by repeat constructor|].
  repeat apply collected_frame; [| |apply collected_skip; [exact fragmentW_none|constructor]].
  - exists datagramW, 60%nat. split_and!; [exact datagramW_ok|by left|done|cbn; lia|done].
  - exists datagramW, 44%nat. split_and!; [exact datagramW_ok|by left|done|cbn; lia|done].
Defined.

Definition poolW : list (list Frame) := [replicate 16 [1; 2]; [1; 3] :: replicate 15 [1; 2]].
Lemma poolW_bytes : Forall (Forall bytes_ok) poolW.
Proof. repeat constructor; lia. Qed.
Lemma audit_offsets_exact_witness : ConstantOffsets (Audit (fun _ => float64.f0) poolW) = [mkConstant 0 1 32 2].
Proof.
  etrans; [exact (proj1 (proj2 (audit_offsets_exact (fun _ => float64.f0) poolW poolW_bytes)))|]. vm_compute. reflexivity.
Defined.
End audit_props.
