(* ===== verification/DnsResolve.v ===== *)
(** * The private resolvers ([internal/dnsresolve])

    Names are resolved by the system, over HTTPS or over TLS; the last two share the
    making of queries, the reading of answers and the joining of the two families.

    The network is a state [W] of the class [Network], whose operations answer as the
    HTTP client and the TLS connection do.  [packQuery] and [Unpack] are the encoder
    and the decoder of the DNS library. *)

From Stdlib Require Import Ascii String.
From stdpp Require Import base tactics list numbers strings.
From S2P Require Import Prelude Frame Telemetry Netip Config Failover Resolution.

Module dnsresolve.
Import netip.

Definition dohMaxMessageSize : nat := Z.to_nat 65535.
Definition dotMaxMessageSize : nat := Z.to_nat 65535.

(** ** Messages *)
Inductive Type_ := TypeA | TypeAAAA.
Inductive ResourceBody := AResource (a : list Z) | AAAAResource (a : list Z) | OtherResource.
Record Resource := mkResource { Class_ : Z; TTL : Z; Body : ResourceBody }.
Record Message := mkMessage { RCode : Z; Answers : list Resource }.
Definition ClassINET : Z := 1.
Definition RCodeSuccess : Z := 0.
Definition RCodeNameError : Z := 3.

Inductive resolveError :=
  | MalformedResponseError
  | TimeoutError
  | NXDomainError
  | NoDataError
  | StatusError (code : Z)
  | otherError.

(** Addresses, the smallest TTL and whether there is one. *)
Abbreviation resolved := (resolveError + (list Addr * Duration * bool))%type (only parsing).

Definition fqdn (host : string) : string :=
  if bool_decide (list.last (bytes host) = Some (chr ".")) then host else (host ++ ".")%string.

(** The address of a record of the class and type asked for. *)
Definition wanted (qtype : Type_) (ans : Resource) : option Addr :=
  if negb (Class_ ans =? ClassINET) then None
  else match Body ans, qtype with
       | AResource a, TypeA => Some (mkAddr a [])
       | AAAAResource a, TypeAAAA => Some (mkAddr a [])
       | _, _ => None
       end.

Fixpoint answer_loop (qtype : Type_) (addrs : list Addr) (minTTL : Duration) (haveTTL : bool) (l : list Resource)
    : list Addr * Duration * bool :=
  match l with
  | [] => (addrs, minTTL, haveTTL)
  | ans :: l =>
    match wanted qtype ans with
    | None => answer_loop qtype addrs minTTL haveTTL l
    | Some addr =>
      let ttl := TTL ans * second in
      if negb haveTTL || (ttl <? minTTL) then answer_loop qtype (addrs ++ [addr]) ttl true l
      else answer_loop qtype (addrs ++ [addr]) minTTL haveTTL l
    end
  end.

Section Codec.
Context (packQuery : string -> Type_ -> option (list Z)) (Unpack : list Z -> option Message).

Definition buildQuery (host : string) (qtype : Type_) : option (list Z) := packQuery (fqdn host) qtype.

Definition parseAnswer (body : list Z) (qtype : Type_) : resolved :=
  match Unpack body with
  | None => inl MalformedResponseError
  | Some msg =>
    if RCode msg =? RCodeNameError then inl NXDomainError
    else if negb (RCode msg =? RCodeSuccess) then inl MalformedResponseError
    else inr (answer_loop qtype [] 0 false (Answers msg))
  end.

(** ** Joining the families *)
Section Families.
Context {W : Type} (query : Type_ -> W -> W * resolved).

Fixpoint families_loop (qtypes : list Type_) (addrs : list Addr) (minTTL : Duration) (haveTTL nxdomain : bool) (w : W) : W * resolved :=
  match qtypes with
  | [] =>
    (w, if (length addrs =? 0)%nat then inl (if nxdomain then NXDomainError else NoDataError)
        else inr (addrs, minTTL, haveTTL))
  | qtype :: qtypes =>
    let '(w, res) := query qtype w in
    match res with
    | inl NXDomainError => families_loop qtypes addrs minTTL haveTTL true w
    | inl e => (w, inl e)
    | inr (famAddrs, famMinTTL, famHaveTTL) =>
      if famHaveTTL && (negb haveTTL || (famMinTTL <? minTTL))
      then families_loop qtypes (addrs ++ famAddrs) famMinTTL true nxdomain w
      else families_loop qtypes (addrs ++ famAddrs) minTTL haveTTL nxdomain w
    end
  end.
Definition lookupBothFamilies (w : W) : W * resolved := families_loop [TypeA; TypeAAAA] [] 0 false false w.
End Families.

(** ** Transports

    An error says whether it is a timeout.  A response carries the bytes that can be
    read and the error after them, if any. *)
Record Response := mkResponse { StatusCode : Z; bodyBytes : list Z; bodyErr : option bool }.
Class Network (W : Type) := {
  post : list Z -> W -> W * (bool + Response);
  dial : W -> W * option bool;
  setDeadline : W -> W * bool;
  send : list Z -> W -> W * option bool;
  recv : W -> W * (list Z * option bool)
}.

Definition transportError (timeout : bool) (e : resolveError) : resolved := inl (if timeout then TimeoutError else e).

Section Transports.
Context {W : Type} {N : Network W}.

(** [io.ReadAll] of a reader limited to one byte more than a message may have. *)
Definition readBody (r : Response) : bool + list Z :=
  let limit := S dohMaxMessageSize in
  if (limit <=? length (bodyBytes r))%nat then inr (take limit (bodyBytes r))
  else match bodyErr r with Some timeout => inl timeout | None => inr (bodyBytes r) end.

(** The request is for the address the resolver was built with, which parsed, so making
    it does not fail. *)
Definition dohQueryFamily (host : string) (qtype : Type_) (w : W) : W * resolved :=
  match buildQuery host qtype with
  | None => (w, inl otherError)
  | Some q =>
    let '(w, res) := post q w in
    (w, match res with
        | inl timeout => transportError timeout otherError
        | inr resp =>
          if negb (StatusCode resp =? 200) then inl (StatusError (StatusCode resp))
          else match readBody resp with
               | inl timeout => transportError timeout MalformedResponseError
               | inr body => if (dohMaxMessageSize <? length body)%nat then inl MalformedResponseError else parseAnswer body qtype
               end
        end)
  end.

(** The frame of a message; [None] when it is too long. *)
Definition dotFrame (msg : list Z) : option (list Z) :=
  if (dotMaxMessageSize <? length msg)%nat then None else Some (be_put 2 (Z.of_nat (length msg)) ++ msg).

(** The message, or the error, [true] for a timeout; a stream that ends early without a
    timeout is truncated. *)
Definition readDoTFrame (stream : list Z * option bool) : bool + list Z :=
  let '(b, e) := stream in
  let timeout := default false e in
  if (length b <? 2)%nat then inl timeout
  else
    let n := Z.to_nat (be_get (take 2 b)) in
    if (length (drop 2 b) <? n)%nat then inl timeout else inr (take n (drop 2 b)).

Definition dotQueryFamily (host : string) (qtype : Type_) (w : W) : W * resolved :=
  match buildQuery host qtype with
  | None => (w, inl otherError)
  | Some q =>
    let '(w, dialed) := dial w in
    match dialed with
    | Some timeout => (w, transportError timeout otherError)
    | None =>
      let '(w, ok) := setDeadline w in
      if negb ok then (w, inl otherError)
      else match dotFrame q with
           | None => (w, inl otherError)
           | Some frame =>
             let '(w, sent) := send frame w in
             match sent with
             | Some timeout => (w, transportError timeout otherError)
             | None =>
               let '(w, stream) := recv w in
               (w, match readDoTFrame stream with
                   | inl timeout => transportError timeout MalformedResponseError
                   | inr body => parseAnswer body qtype
                   end)
             end
           end
    end
  end.

Definition dohLookup (host : string) (w : W) : W * resolved := lookupBothFamilies (dohQueryFamily host) w.
Definition dotLookup (host : string) (w : W) : W * resolved := lookupBothFamilies (dotQueryFamily host) w.
End Transports.
End Codec.

(** The answer of [net.Resolver.LookupNetIP], as given. *)
Definition systemLookup (answer : option (list Addr)) : resolved :=
  match answer with None => inl otherError | Some addrs => inr (addrs, 0, false) end.

(** What the re-resolution controller takes of a lookup. *)
Definition asAnswer (r : resolved) : option resolution.answer :=
  match r with inl _ => None | inr (addrs, ttl, ok) => Some (resolution.mkAnswer addrs ttl ok) end.
End dnsresolve.
