(* ===== verification/DnsResolveProps.v ===== *)
(** * What the private resolvers guarantee *)

From Stdlib Require Import Ascii String.
From stdpp Require Import base tactics list numbers strings.
From S2P Require Import Prelude Frame Netip Resolution DnsResolve.

Module dns_props.
Import netip dnsresolve.

(** ** Records *)




Section Lookup.
Context (Unpack : list Z -> option Message).





Section Families.
Context {W : Type} (query : Type_ -> W -> W * (resolveError + (list Addr * Duration * bool))).



End Families.
End Lookup.


Section Served.
Context (packQuery : string -> Type_ -> option (list Z)) (Unpack : list Z -> option Message) {W : Type} {N : Network W}.




End Served.

(** *** Example: a server with an IPv4 and an IPv6 record *)
#[local] Instance scripted : Network (list (bool + Response)) := {
  post _ w := match w with r :: w => (w, r) | [] => ([], inl true) end;
  dial w := (w, Some true);
  setDeadline w := (w, false);
  send _ w := (w, Some true);
  recv w := (w, ([], Some true))
}.
End dns_props.
